(* ===== verification/_CoqProject ===== *)
-Q . S2P
Prelude.v
GoStrings.v
Regexp.v
RepoSlug.v
Sha256.v
GoText.v
GoNet.v
CredTypes.v
Validation.v
Tokens.v
Grants.v
GrantTheorems.v
Outbox.v
AuditStore.v
CredentialStore.v
CredentialStoreProofs.v
CredentialTheorems.v
Lifecycle.v
AuthService.v
AuthServiceTheorems.v
AuthServiceRuns.v
MCPHop.v
GoHTTP.v
WebAssertion.v
WebAssertionTheorems.v
BrowserRefresh.v
BrowserTheorems.v
DeviceAuth.v
DeviceTheorems.v
DeviceRuns.v
OAuth.v
OAuthTheorems.v
Limits.v
LimitsProofs.v
LimitsTheorems.v
AttemptLimiter.v
AttemptTheorems.v
UsageTelemetry.v
UsageTheorems.v
Authenticator.v
AuthenticatorTheorems.v
AuthenticatorRuns.v
Identity.v
EmbedCache.v
EmbedTheorems.v
Episodes.v
EpisodeProofs.v
EpisodeTheorems.v
EpisodeListing.v
EpisodeRuns.v
Submissions.v
InvestigationStore.v
InvestigationProofs.v
InvestigationInvariant.v
InvestigationRetention.v
InvestigationSteps.v
InvestigationTheorems.v
InvestigationHistories.v
InvestigationClosing.v
ThreadTheorems.v
InvestigationRuns.v
Requests.v
LoginWorld.v
DeviceFlow.v
RefreshGrant.v
OAuthService.v
LoginSteps.v
LoginCalls.v
LoginInvariant.v
LoginConsent.v
LoginTokens.v
LoginTheorems.v
LoginCodes.v
LoginRuns.v
