(* ===== verification/Prelude.v ===== *)
(** * Verification of the access control plane and the record stores of dev-health-acr

    The program is the hosted service of full-chaos/dev-health-acr: an HTTP and
    MCP API over a context graph.  This development models the part that decides
    who may use it: credentials and their lifecycle, the browser, device and
    OAuth logins that issue them, the handler that authenticates every request,
    and the limits put on their use; the stores of the episodes that agents
    report and of the investigations that people run; and two parts of the graph
    plane that the rest relies on, the canonical ids of its subjects and the
    cache of query embeddings.  All of it is Go code under src/internal; the
    in-memory stores are modelled, which define the contract the PostgreSQL
    adapters are tested against.

    ** Parts and how they interact

    A credential is created, rotated, revoked or rolled back through the
    lifecycle front, which normalises its input and calls a credential store.
    The store changes its records, appends an audit event and a lifecycle event
    to its outbox, and undoes all of it when one of them fails.  The credential
    service makes the tokens, decides what a holder may do to its own credential
    or another's, and compares the repository grants of a rotation.  Browser
    sign-in and device authorizations are clients of the front: a browser token
    family issues one short credential per refresh, a device authorization
    issues one credential per approval.  The OAuth store keeps what an
    authorization code login needs beside the device record; the device flow,
    the refresh grant and the OAuth service are the logins themselves, requests
    that call these stores one after the other while other requests run in
    between.

    The authenticator stands in front of every protected route: the attempt
    limiter, the web assertion or the MCP hop or the credential store decide the
    request, and usage telemetry books the credential's use.  The limits manager
    stands behind it.  The investigation store admits a submission once, leases
    it to a runner, keeps its events, its result and its thread, and forgets all
    of it by the retention job.

    ** Files, from the bottom

    - [Prelude]: instants and durations, the errors of all components, the
      result type, the state-and-error monad [go] with its notations and rules,
      counting in tables.
    - [GoStrings], [GoText], [GoNet], [GoHTTP], [Sha256], [Regexp]: what the code
      uses of Go's strings, unicode/utf8, encoding/json, time formatting,
      net/url, net/netip, net/http, crypto/sha256, encoding/hex and regexp, as
      executable definitions.
    - [RepoSlug]: internal/reposlug/reposlug.go.
    - [CredTypes], [Validation]: the credential and input types
      (internal/contracts/v1/types.go, credentiallifecycle/input.go) and every
      normalisation of credentiallifecycle/validation.go.
    - [Tokens]: auth/token.go.  [Grants], [GrantTheorems]: auth/repository.go,
      grant_class.go, work_item_grant.go, contracts/v1/reserved_repository_scope.go.
    - [Outbox]: credentiallifecycle/event.go and ledger.go; Module [Ledger] is
      the in-memory ledger, the classes [Sink] and [SinkLaws] what the append
      protocol needs of any ledger.
    - [AuditStore]: storage/memory/audit.go, credentials_lifecycle_list.go;
      metadata values live in a heap, so sharing and cycles are real.
    - [CredentialStore], [CredentialStoreProofs], [CredentialTheorems]:
      storage/memory/credentials.go, credentials_lifecycle.go and
      credential_values.go; Module [CredentialStore] holds the state
      [credentialStore] and the operations named after the methods.
    - [Lifecycle]: credentiallifecycle/lifecycle.go over the classes [Backend] and
      [BackendLaws], whose instances are the in-memory store; the clients below
      are proved against the classes.
    - [AuthService], [AuthServiceTheorems], [AuthServiceRuns]: auth/types.go,
      service.go, self_lifecycle.go, revoke_on_behalf.go.
    - [MCPHop]: auth/mcp_hop.go.  [WebAssertion], [WebAssertionTheorems]:
      auth/web_assertion*.go.
    - [BrowserRefresh], [BrowserTheorems]: storage/browser_refresh.go and
      storage/memory/browser_refresh.go.
    - [DeviceAuth], [DeviceTheorems], [DeviceRuns]:
      storage/device_authorization.go and storage/memory/device_authorization*.go.
    - [OAuth], [OAuthTheorems]: storage/oauth.go and storage/memory/oauth.go.
    - [Limits], [LimitsProofs], [LimitsTheorems]: internal/limits.
    - [AttemptLimiter], [AttemptTheorems]: internal/auth/limiter.go.
    - [UsageTelemetry], [UsageTheorems]: auth/usage_telemetry*.go.
    - [Authenticator], [AuthenticatorTheorems], [AuthenticatorRuns]:
      auth/middleware.go, web_assertion_middleware.go, response_status.go.
    - [Identity]: internal/contextfabric/identity, the canonical ids of graph
      subjects and relationships.
    - [EmbedCache], [EmbedTheorems]: internal/contextfabric/embedcache, the cache
      of query embeddings.
    - [Episodes], [EpisodeProofs], [EpisodeTheorems], [EpisodeListing],
      [EpisodeRuns]: storage/memory/episodes.go and episodes_get.go, with the
      records of internal/contracts/v1/types.go and their JSON digest.
    - [Submissions], [InvestigationStore]: contextfabric/memoryinvestigation,
      with the rules of contextfabric/ and contracts/v1 that it calls; the
      operations are named after the methods, [op_step] is one call of one and
      [hist] a history of calls and of runs of the retention job.
      [InvestigationProofs] has the loops, [InvestigationInvariant] consistency,
      [InvestigationRetention] the sweep, [InvestigationSteps] histories of
      operations and sweeps; [InvestigationTheorems], [InvestigationHistories],
      [InvestigationClosing] and [ThreadTheorems] the theorems and
      [InvestigationRuns] runs of the store.
    - [Requests]: programs that call a shared store one operation at a time,
      systems of such requests and the rule that proves them, by rely and
      guarantee.  [LoginWorld]: the stores a login calls, one definition per
      call.  [DeviceFlow], [RefreshGrant], [OAuthService]: auth/device_flow*.go,
      device_poll.go, device_hints.go, browser_refresh.go and device_oauth.go,
      oauth.go, as such programs.
      [LoginSteps], [LoginCalls], [LoginInvariant], [LoginConsent],
      [LoginTokens] prove them, [LoginTheorems] and [LoginCodes] state what
      they promise, [LoginRuns] is a login of each kind.

    ** How the code is modelled

    An operation of type [go S A] takes the environment and the state and
    returns a result, [Ok], [Err] with the sentinel error, or [Panic], with both.
    The environment is what the caller does not control: each [ctx.Err()] reads
    one entry of [env_ctx], so a context can end between any two checks, and each
    reading of the clock takes one entry of [env_clock].  A mutex makes an
    operation one step; a history is a sequence of operations in any
    environments, and the theorems about histories quantify over all of them.
    Where a function holds no lock across its calls (the authenticator, the
    credential service, the logins), what others do in between is a step of its
    own: an argument of the definition, or a step of the system of [Requests].
    Where Go ranges over a map and the order can show, the order is an argument
    of the operation; where it cannot, the loop is a filter or a fold that does
    not depend on it.  Where the code shares an object through pointers and a
    claim depends on it (audit metadata, limit windows and claims, release
    closures, list elements of the cache) the model has a heap.  Integers are
    [Z]; sums of caller-supplied 64-bit values and sequence numbers taken from
    them wrap, durations saturate or wrap as Go's do, and counts that move by
    one are unbounded.  A string is its bytes.

    Parameters stand for code outside the repository or for tables too large to
    copy: the Unicode lower-case, upper-case and folding tables above ASCII
    ([UnicodeTables], [UpperTables], [FoldTables]), google/uuid's parser
    ([UUIDLib]), the [Do] of golang.org/x/sync's singleflight, encoding/json and
    ed25519 of a web assertion ([AssertionLib]), and the JSON and validation of
    an investigation's payload and the reading of its semantic state
    ([InvestigationLib]).  The answer of the cluster's token
    validator, of a client's metadata document and of the random source are
    arguments.  Laws are assumed of two of them and named where they are:
    [UnicodeLaws], that a rune above ASCII is lowered into ASCII only to a
    letter, and [FoldLaws], that two ASCII runes fold together exactly when they
    are the two cases of one letter.

    ** What the theorems show

    - Credentials ([CredentialTheorems]): every reachable store is consistent
      (indexes, records, one contiguous lifecycle stream per credential); an
      operation that fails, cancelled contexts included, changes nothing;
      records only retire; a token authenticates only a live credential, and
      never again after a revocation; revocation takes the token family with it;
      rotation and rollback do what they record; nothing panics.
    - Lifecycle events ([Outbox]): appending keeps streams contiguous with at
      most one terminal event; references fit the published pattern; token
      prefixes never reach an event.
    - Inputs ([Validation], [RepoSlug], [AuditStore], [Tokens]): normalisation is
      a projection and decides the client class; the two slug grammars agree;
      metadata copies are equal, separate, and refuse cycles; the accepted
      tokens are the ones the generator makes.
    - Credential service ([AuthServiceTheorems], [GrantTheorems]): an issued
      token authenticates exactly while its record is live; a revocation on
      behalf of another has every guard; a rotation never widens a grant.
    - Requests ([AuthenticatorTheorems], [MCPHop], [WebAssertionTheorems],
      [UsageTheorems]): a served request had a stored, live credential, or an
      assertion for its method, path and body, or a hop the validator vouched
      for; refusals look alike; every request is answered; an assertion is used
      once before it expires; every use is delivered, dropped or pending, and
      shutdown ends.
    - Browser families ([BrowserTheorems]): each decision of a refresh, with the
      conditions of the others excluded; a refresh token is exchanged once; a
      revoked family never issues again; a sign-out that succeeds ends the
      family; and a run in which an interrupted sign-out does not.
    - Device authorizations ([DeviceTheorems], [DeviceRuns]): the state machine,
      exactly the approval is issued, polls keep their distance, an
      acknowledgement is final, hashes round-trip; and a run in which a
      cancelled replacement leaves two live credentials.
    - OAuth store ([OAuthTheorems]): its invariant, codes are used once,
      requests keep their first user, redirect matching widens only a loopback
      port, the accepted client ids are the issued ones.
    - Logins ([LoginTheorems], [LoginCodes]): for any requests in any state of
      progress, a token is traced to the client that asked, the person who
      approved and, for a code, the verifier that was presented; two exchanges
      never answer two credentials of one code; the codes of a device login read
      back.
    - Limits ([LimitsTheorems]): accounts and bounds in every history, quotas
      over sliding intervals, a claim settles once, refusals name a sufficient
      wait.
    - Attempts ([AttemptTheorems]): bounded tables, bounded overshoot of the
      failure limit, and which refusals are reported as first.
    - Episodes ([EpisodeTheorems], [EpisodeListing]): a creation happens once per
      key, the preflight predicts it, episodes only give up content, reads and
      purges are exact in any map order, paging through the listing ends and
      loses and repeats nothing.
    - Investigations ([InvestigationTheorems], [InvestigationHistories],
      [InvestigationClosing], [ThreadTheorems]): consistency in every history of
      operations and sweeps; one execution per submission, limits on running
      work, what a finished submission serves, lost runs and closed threads, each
      for histories with sweeps, up to the moment a sweep may forget the record
      it is about; the sweep keeps what is live and clears what is due; the turns
      of a thread in any order.
    - Canonical ids ([Identity]): derived ids are injective and read back, refused
      keys are all recorded, relationship ids are versioned by their endpoints.
    - Embedding cache ([EmbedTheorems]): the linked structures refine a bounded
      list, overlapping calls get answers of the provider for their own text,
      and exactly the reusable answers are kept.

    ** Fuel and bounds

    The metadata copy and the regular expression matcher recurse on fuel or on
    their input: [cloneMetadata] is given enough fuel for its heap and
    [clone_total] proves that it always answers; [chunks] of SHA-256 is given
    the length of the message, one step per 64 bytes; [drain] reads pages on fuel,
    and more fuel than there are records is enough ([listing_complete]); a sweep
    takes as many batches as the code's room allows, and [sweep_clears_due] has
    the number that is enough.  SHA-256 is the one function of messages of less
    than 2^61 bytes.

    ** Not modelled

    The PostgreSQL adapters are SQL run by a database.  Route handling,
    transport, log lines and the command line programs wire the modelled parts
    to the network; the fetch of a client's metadata document and the text of a
    redirect URL are left at the question asked and at the parameters put in.
    The context graph engine, its projections, model runtime and generated event
    specifications are a separate plane of the program.  Of the in-memory stores
    the packet and workload-binding stores are left, with the workload access
    tokens of internal/auth that use them, and DeleteSubmissionsForTest of the
    investigation store.  The observeOp callbacks of the stores, and the
    nil checks of constructors, have no counterpart: a model state is never
    nil. *)

From Stdlib Require Import ZArith Lia Ascii.
From stdpp Require Import sorting pretty numbers gmap strings list_numbers list.


(** ** Time

    An instant is the number of nanoseconds since Go's zero time,
    0001-01-01T00:00:00 UTC, so [time.Time{}] is [0] and [IsZero] is a test
    against it.  [UTC()] only changes the location a value is printed in and is
    the identity on instants.  A [time.Duration] is a signed 64-bit count of
    nanoseconds. *)

Definition time : Type := Z.
Definition duration : Type := Z.

Open Scope Z_scope.

Definition time_IsZero (t : time) : bool := bool_decide (t = 0).
Definition time_Before (a b : time) : bool := bool_decide (a < b).
Definition time_After (a b : time) : bool := bool_decide (b < a).
Definition time_Add (t : time) (d : duration) : time := t + d.

Definition max_duration : duration := 2 ^ 63 - 1.
Definition min_duration : duration := - 2 ^ 63.

(** [Time.Sub] saturates at the ends of the 64-bit range. *)
Definition time_Sub (a b : time) : duration :=
  Z.min max_duration (Z.max min_duration (a - b)).

Definition Microsecond : duration := 1000.
Definition Millisecond : duration := 1000 * Microsecond.
Definition Second : duration := 1000 * Millisecond.
Definition Minute : duration := 60 * Second.
Definition Hour : duration := 60 * Minute.

(** A value of type [int64]. *)
Definition i64 (z : Z) : Z := (z + 2 ^ 63) mod 2 ^ 64 - 2 ^ 63.

(** Instants as seconds since 1970: [Time.Unix] rounds down, and the second
    count [time.Unix] keeps inside an instant is 64 bits. *)
Definition unixToInternal : Z := 62135596800.
Definition time_seconds (t : time) : Z := t / Second - unixToInternal.
Definition time_Unix (sec : Z) : time := i64 (sec + unixToInternal) * Second.

(** ** Errors

    The sentinel errors of the modelled packages.  An error built with
    [fmt.Errorf("%w: %s", Err, text)] keeps the wrapped sentinel as the
    constructor and the text as its argument; the bare sentinel has the empty
    text. *)

Inductive DeviceAuthorizationState :=
  | DevicePending
  | DeviceApproved
  | DeviceDenied
  | DeviceExpired
  | DeviceRedeemed.

Inductive DeviceAuthorizationErrorKind :=
  | DeviceErrorNotFound
  | DeviceErrorConflict
  | DeviceErrorExpired
  | DeviceErrorPollTooSoon.

Inductive DeviceAuthorizationConflictReason :=
  | DeviceConflictNone
  | DeviceConflictAckWindowElapsed
  | DeviceConflictAcknowledged
  | DeviceConflictNotAckable.

(** internal/auth/device_poll.go *)
Inductive DevicePollErrorKind :=
  | DevicePollAuthorizationPending
  | DevicePollSlowDown
  | DevicePollAccessDenied
  | DevicePollExpiredToken
  | DevicePollInvalidGrant.

Definition DevicePollErrorKind_string (k : DevicePollErrorKind) : string :=
  match k with
  | DevicePollAuthorizationPending => "authorization_pending"
  | DevicePollSlowDown => "slow_down"
  | DevicePollAccessDenied => "access_denied"
  | DevicePollExpiredToken => "expired_token"
  | DevicePollInvalidGrant => "invalid_grant"
  end.

(** A URL that sends the browser back to a client: the registered redirect URI,
    the client's state, the one parameter that says what happened, the issuer. *)
Record OAuthRedirect := Redirect {
  rd_RedirectURI : string;
  rd_State : string;
  rd_Key : string;
  rd_Value : string;
  rd_Issuer : string;
}.

Inductive gerr :=
  | ErrInvalidLifecycle
  | ErrInvalidInput (field : string)
  | ErrInvalidEvent (what : string)
  | ErrRevisionConflict
  | ErrNotFound
  | ErrConflict
  | ErrUnavailable
  | ErrInvalidAuditMetadata (what : string)
  | ErrInvalidDeviceAuthorization
  | ErrDeviceAuthorizationNotFound
  | ErrDeviceAuthorization (kind : DeviceAuthorizationErrorKind)
      (state : DeviceAuthorizationState) (retryAfter : duration)
      (reason : DeviceAuthorizationConflictReason)
  | ErrInvalidBrowserRefresh
  | ErrInvalidOAuthClient
  | ErrInvalidOAuthAuthorizationRequest
  | ErrOAuthAuthorizationCodeUnavailable
  | ErrInvalidSubject
  | ErrInvalidRequestClass
  | ErrInvalidPolicy
  | ErrInvalidUsage
  | ErrResourceBudgetExceeded
  | ErrInvalidCredential (what : string)
  | ErrBrowserCredentialRotation
  | ErrRotationWiderThanParent
  | ErrStaleSelfCredential
  | ErrRevokeOnBehalfRefused (reason : string)
  | ErrRepositoryForbidden (what : string)
  | ErrEmptyRepositoryScope
  | ErrGrantNotUniversal
  | ErrEmptyProjectScope
  | ErrProjectScopeNeedsStarGrant
  | ErrInvalidWebAssertion
  | ErrWebAssertionReplay
  | ErrWebAssertionStoreUnavailable
  | ErrMCPHopMissing
  | ErrMCPHopRefused
  | ErrSubmissionNotFound
  | ErrSubmissionOwnerUnknown
  | ErrReservationGone
  | ErrSubmissionRefused (refusal : string) (count limit : Z) (retryAfter : duration)
  | ErrThreadNotFound
  | ErrThreadClosed (reason : string)
  | ErrStructureOfferSuperseded (members : list string)
  | ErrSemanticStateReplayConflict
  | ErrInvestigationResultNotFound
  | ErrRunEventSeq
  | ErrRetentionReadRuleOff
  | ErrOrgPurged
  | ErrInvalidDeviceFlow
  | ErrDeviceCodeCollision
  | ErrDeviceCodeGeneration
  | ErrImpersonatedApproval
  | ErrBrowserSessionRequired
  | ErrDeviceGrantLookup
  | ErrDevicePoll (kind : DevicePollErrorKind) (retryAfter : duration)
  | ErrOAuthDeviceGrantConflict
  | ErrOAuthDeviceGrantLookupUnavailable
  | ErrDeviceCredentialAckRejected
  | ErrDeviceCredentialAckWindowClosed
  | ErrOAuthDeviceNotApproved
  | ErrRefreshDerivation
  | ErrInvalidOAuthConfig
  | ErrOAuthClientGone
  | ErrOAuthUnavailable (what : string)
  | ErrOAuth (code outcome : string) (redirect : option OAuthRedirect)
      (mismatch : option (list string * string)) (retryAfter : duration) (clientRefusal : string)
  | ErrCanceled
  | ErrDeadlineExceeded
  | ErrText (text : string).

#[global] Instance DeviceAuthorizationState_eq_dec : EqDecision DeviceAuthorizationState.
Proof. solve_decision. Defined.
#[global] Instance DeviceAuthorizationErrorKind_eq_dec : EqDecision DeviceAuthorizationErrorKind.
Proof. solve_decision. Defined.
#[global] Instance DeviceAuthorizationConflictReason_eq_dec :
  EqDecision DeviceAuthorizationConflictReason.
Proof. solve_decision. Defined.
#[global] Instance DevicePollErrorKind_eq_dec : EqDecision DevicePollErrorKind.
Proof. solve_decision. Defined.
#[global] Instance OAuthRedirect_eq_dec : EqDecision OAuthRedirect.
Proof. solve_decision. Defined.
#[global] Instance gerr_eq_dec : EqDecision gerr.
Proof. solve_decision. Defined.

(** ** Results and the state/error monad *)

Inductive res (A : Type) : Type :=
  | Ok (a : A)
  | Err (e : gerr)
  | Panic.
Arguments Ok {A} a.
Arguments Err {A} e.
Arguments Panic {A}.

Definition res_bind {A B} (m : res A) (k : A → res B) : res B :=
  match m with
  | Ok a => k a
  | Err e => Err e
  | Panic => Panic
  end.

(** What an operation observes of its surroundings: each [ctx.Err()] consumes
    one entry of [env_ctx] (a context may be cancelled between two checks of
    one operation; no entry left means not cancelled), and each reading of the
    injected clock consumes one entry of [env_clock] (the last reading
    repeats). *)
Inductive ctx_err := Canceled | DeadlineExceeded.

Definition ctx_gerr (e : ctx_err) : gerr :=
  match e with Canceled => ErrCanceled | DeadlineExceeded => ErrDeadlineExceeded end.

Record env := Env {
  env_ctx : list (option ctx_err);
  env_clock : list time;
}.

Definition go (S A : Type) : Type := env * S → res A * (env * S).

Section monad.
Context {S : Type}.

Definition ret {A} (a : A) : go S A := λ w, (Ok a, w).

Definition fail {A} (e : gerr) : go S A := λ w, (Err e, w).

Definition panic {A} : go S A := λ w, (Panic, w).

Definition bind {A B} (m : go S A) (k : A → go S B) : go S B := λ w,
  match m w with
  | (Ok a, w') => k a w'
  | (Err e, w') => (Err e, w')
  | (Panic, w') => (Panic, w')
  end.

Definition lift_res {A} (r : res A) : go S A := λ w, (r, w).

Definition get : go S S := λ w, (Ok w.2, w).

Definition put (s : S) : go S () := λ w, (Ok (), (w.1, s)).

Definition modify (f : S → S) : go S () := λ w, (Ok (), (w.1, f w.2)).

(** [if err := ctx.Err(); err != nil { return err }] *)
Definition ctx_check : go S () := λ w,
  match env_ctx w.1 with
  | [] => (Ok (), w)
  | o :: rest =>
    let w' := (Env rest (env_clock w.1), w.2) in
    match o with
    | None => (Ok (), w')
    | Some e => (Err (ctx_gerr e), w')
    end
  end.

(** [s.now().UTC()] *)
Definition now : go S time := λ w,
  match env_clock w.1 with
  | [] => (Ok 0, w)
  | [t] => (Ok t, w)
  | t :: rest => (Ok t, (Env (env_ctx w.1) rest, w.2))
  end.

(** Run [m] and hand its error, if any, to the continuation instead of
    returning it. *)
Definition attempt {A} (m : go S A) : go S (gerr + A) := λ w,
  match m w with
  | (Ok a, w') => (Ok (inr a), w')
  | (Err e, w') => (Ok (inl e), w')
  | (Panic, w') => (Panic, w')
  end.

(** [if err := m; err != nil { cleanup; return err }] *)
Definition on_error {A} (m : go S A) (cleanup : go S ()) : go S A := λ w,
  match m w with
  | (Err e, w') =>
    match cleanup w' with
    | (Ok _, w'') => (Err e, w'')
    | (Err e', w'') => (Err e', w'')
    | (Panic, w'') => (Panic, w'')
    end
  | r => r
  end.

(** [for _, x := range l { m(x) }], stopping at the first error. *)
Fixpoint iter {A} (l : list A) (m : A → go S ()) : go S () :=
  match l with
  | [] => ret ()
  | x :: l' => bind (m x) (λ _, iter l' m)
  end.
End monad.

(** Run an operation of a component on the part of a larger state it owns. *)
Definition zoom {S T A} (proj : T → S) (inj : S → T → T) (m : go S A) : go T A := λ w,
  match m (w.1, proj w.2) with
  | (r, (e, s)) => (r, (e, inj s w.2))
  end.

(** Run an operation with a context of its own: derived with a deadline, or
    detached from the caller's. *)
Definition with_ctx {S A} (ctx : list (option ctx_err)) (m : go S A) : go S A := λ w,
  match m (Env ctx (env_clock w.1), w.2) with
  | (r, w') => (r, (Env (env_ctx w.1) (env_clock w'.1), w'.2))
  end.

Declare Scope go_scope.
Delimit Scope go_scope with go.
Notation "'let!' x ':=' c 'in' k" := (bind c (λ x, k))
  (at level 10, x name, c at level 200, k at level 200,
   format "'[v' 'let!'  x  ':='  c  'in' '/' k ']'") : go_scope.
Notation "'let!' ' p ':=' c 'in' k" := (bind c (λ x, match x with p => k end))
  (at level 10, p pattern, c at level 200, k at level 200) : go_scope.
Notation "c ;; k" := (bind c (λ _, k)) (at level 100, k at level 200, right associativity,
   format "'[v' c ';;' '/' k ']'") : go_scope.
(** [if b { return e }; k] *)
Notation "'refuse!' b 'with' e ';;' k" :=
  (if b then fail e else k)
  (at level 10, b at level 99, e at level 99, k at level 200,
   format "'[v' 'refuse!'  b  'with'  e ';;' '/' k ']'") : go_scope.
Notation "'let?' x ':=' c 'in' k" := (res_bind c (λ x, k))
  (at level 10, x name, c at level 200, k at level 200) : go_scope.
Notation "'reject!' b 'with' e ';;' k" :=
  (if b then Err e else k)
  (at level 10, b at level 99, e at level 99, k at level 200) : go_scope.
Open Scope go_scope.

(** ** Reasoning about results *)

Lemma res_bind_Ok {A B} (m : res A) (k : A → res B) b :
  res_bind m k = Ok b ↔ ∃ a, m = Ok a ∧ k a = Ok b.
Proof. destruct m; cbn; naive_solver. Qed.

Lemma reject_Ok {A} (b : bool) e (k : res A) a :
  (if b then Err e else k) = Ok a ↔ b = false ∧ k = Ok a.
Proof. destruct b; naive_solver. Qed.

(** Invert a successful run of a chain of checks. *)
Ltac res_inv H :=
  lazymatch type of H with
  | res_bind _ _ = Ok _ =>
    let a := fresh "a" in let Ha := fresh "Ha" in
    apply res_bind_Ok in H as (a & Ha & H); res_inv H
  | (if _ then Err _ else _) = Ok _ =>
    let Hb := fresh "Hb" in apply reject_Ok in H as [Hb H]; res_inv H
  | _ => idtac
  end.

(** ** Reasoning about operations *)

Definition readonly {S A} (m : go S A) : Prop :=
  ∀ w r w', m w = (r, w') → w'.2 = w.2.

(** A failed operation leaves the state as it found it. *)
Definition atomic {S A} (m : go S A) : Prop :=
  ∀ w e w', m w = (Err e, w') → w'.2 = w.2.

Definition preserves {S A} (I : S → Prop) (m : go S A) : Prop :=
  ∀ w r w', m w = (r, w') → I w.2 → I w'.2.

Definition no_panic {S A} (I : S → Prop) (m : go S A) : Prop :=
  ∀ w w', I w.2 → m w ≠ (Panic, w').

(** [m] never returns an error or panics. *)
Definition succeeds {S A} (m : go S A) : Prop :=
  ∀ w, ∃ a w', m w = (Ok a, w').

Section laws.
Context {S : Type}.
Implicit Types (A B : Type) (I : S → Prop).

Lemma bind_Ok_inv {A B} (m : go S A) (k : A → go S B) w b w' :
  bind m k w = (Ok b, w') → ∃ a w1, m w = (Ok a, w1) ∧ k a w1 = (Ok b, w').
Proof. unfold bind. destruct (m w) as [[] ?]; naive_solver. Qed.

Lemma bind_Err_inv {A B} (m : go S A) (k : A → go S B) w e w' :
  bind m k w = (Err e, w') →
  m w = (Err e, w') ∨ ∃ a w1, m w = (Ok a, w1) ∧ k a w1 = (Err e, w').
Proof. unfold bind. destruct (m w) as [[] ?]; naive_solver. Qed.

Lemma bind_res_inv {A B} (m : go S A) (k : A → go S B) w r w' :
  bind m k w = (r, w') →
  (∃ a w1, m w = (Ok a, w1) ∧ k a w1 = (r, w')) ∨
  (∃ e, r = Err e ∧ m w = (Err e, w')) ∨ (r = Panic ∧ m w = (Panic, w')).
Proof. unfold bind. destruct (m w) as [[] ?]; naive_solver. Qed.

Lemma readonly_ret {A} (a : A) : readonly (S := S) (ret a).
Proof. intros ???; unfold ret; naive_solver. Qed.
Lemma readonly_fail {A} e : readonly (S := S) (A := A) (fail e).
Proof. intros ???; unfold fail; naive_solver. Qed.
Lemma readonly_panic {A} : readonly (S := S) (A := A) panic.
Proof. intros ???; unfold panic; naive_solver. Qed.
Lemma readonly_lift {A} (r : res A) : readonly (S := S) (lift_res r).
Proof. intros ???; unfold lift_res; naive_solver. Qed.
Lemma readonly_get : readonly (S := S) get.
Proof. intros ???; unfold get; naive_solver. Qed.
Lemma readonly_ctx : readonly (S := S) ctx_check.
Proof. intros w r w'. unfold ctx_check. repeat case_match; naive_solver. Qed.
Lemma readonly_now : readonly (S := S) now.
Proof. intros w r w'. unfold now. repeat case_match; naive_solver. Qed.
Lemma readonly_bind {A B} (m : go S A) (k : A → go S B) :
  readonly m → (∀ a, readonly (k a)) → readonly (bind m k).
Proof.
  intros Hm Hk w r w' H.
  apply bind_res_inv in H as [(a & w1 & H1 & H2)|[(e & -> & H1)|[-> H1]]].
  - rewrite (Hk _ _ _ _ H2). by eapply Hm.
  - by eapply Hm.
  - by eapply Hm.
Qed.
Lemma readonly_attempt {A} (m : go S A) : readonly m → readonly (attempt m).
Proof.
  intros Hm w r w'. unfold attempt. destruct (m w) as [[] w1] eqn:E;
    intros [= <- <-]; by eapply Hm.
Qed.

Lemma readonly_atomic {A} (m : go S A) : readonly m → atomic m.
Proof. intros H w e w' E. by eapply H. Qed.
Lemma atomic_bind {A B} (m : go S A) (k : A → go S B) :
  readonly m → (∀ a, atomic (k a)) → atomic (bind m k).
Proof.
  intros Hm Hk w r w' H.
  apply bind_Err_inv in H as [H|(a & w1 & H1 & H2)]; [by eapply Hm|].
  rewrite (Hk _ _ _ _ H2). by eapply Hm.
Qed.
Lemma atomic_bind_last {A B} (m : go S A) (k : A → go S B) :
  atomic m → (∀ a, succeeds (k a)) → atomic (bind m k).
Proof.
  intros Hm Hk w r w' H.
  apply bind_Err_inv in H as [H|(a & w1 & H1 & H2)]; [by eapply Hm|].
  destruct (Hk a w1) as (b & w2 & E). congruence.
Qed.

Lemma succeeds_ret {A} (a : A) : succeeds (S := S) (ret a).
Proof. intros w. unfold ret. eauto. Qed.
Lemma succeeds_put s : succeeds (S := S) (put s).
Proof. intros w. unfold put. eauto. Qed.
Lemma succeeds_modify f : succeeds (S := S) (modify f).
Proof. intros w. unfold modify. eauto. Qed.
Lemma succeeds_get : succeeds (S := S) get.
Proof. intros w. unfold get. eauto. Qed.
Lemma succeeds_now : succeeds (S := S) now.
Proof. intros w. unfold now. repeat case_match; eauto. Qed.
Lemma succeeds_bind {A B} (m : go S A) (k : A → go S B) :
  succeeds m → (∀ a, succeeds (k a)) → succeeds (bind m k).
Proof.
  intros Hm Hk w. destruct (Hm w) as (a & w1 & E). unfold bind. rewrite E. apply Hk.
Qed.

Lemma preserves_readonly {A} I (m : go S A) : readonly m → preserves I m.
Proof. intros H w r w' E. by rewrite (H _ _ _ E). Qed.
Lemma preserves_put I s : I s → preserves I (put s).
Proof. intros H w r w'. unfold put. naive_solver. Qed.
Lemma preserves_modify I f : (∀ s, I s → I (f s)) → preserves I (modify f).
Proof. intros H w r w'. unfold modify. naive_solver. Qed.
Lemma preserves_bind {A B} I (m : go S A) (k : A → go S B) :
  preserves I m → (∀ a, preserves I (k a)) → preserves I (bind m k).
Proof.
  intros Hm Hk w r w' H HI.
  apply bind_res_inv in H as [(a & w1 & H1 & H2)|[(e & -> & H1)|[-> H1]]].
  - eapply Hk; [done|]. by eapply Hm.
  - by eapply Hm.
  - by eapply Hm.
Qed.

(** *** Never panicking *)

Definition safe {A} (m : go S A) : Prop := ∀ w w', m w ≠ (Panic, w').

Lemma safe_ret {A} (a : A) : safe (ret a).
Proof. done. Qed.
Lemma safe_fail {A} e : safe (A := A) (fail e).
Proof. done. Qed.
Lemma safe_get : safe get.
Proof. done. Qed.
Lemma safe_put s : safe (put s).
Proof. done. Qed.
Lemma safe_modify f : safe (modify f).
Proof. done. Qed.
Lemma safe_lift {A} (r : res A) : r ≠ Panic → safe (lift_res r).
Proof. intros Hr w w' E. unfold lift_res in E. congruence. Qed.
Lemma safe_ctx : safe ctx_check.
Proof. intros w w'. unfold ctx_check. by repeat case_match. Qed.
Lemma safe_now : safe now.
Proof. intros w w'. unfold now. by repeat case_match. Qed.
Lemma safe_bind {A B} (m : go S A) (k : A → go S B) :
  safe m → (∀ a, safe (k a)) → safe (bind m k).
Proof.
  intros Hm Hk w w' E. unfold bind in E. destruct (m w) as [[a|e|] w1] eqn:Em; [|done|].
  - by eapply Hk.
  - by eapply Hm.
Qed.

(** *** Which errors an operation can return *)

Definition errs_in {A} (P : gerr → Prop) (m : go S A) : Prop :=
  ∀ w e w', m w = (Err e, w') → P e.

Lemma errs_ret {A} P (a : A) : errs_in P (ret a).
Proof. done. Qed.
Lemma errs_fail {A} (P : gerr → Prop) e : P e → errs_in (A := A) P (fail e).
Proof. intros Hp w e' w' [= <- _]. done. Qed.
Lemma errs_lift {A} (P : gerr → Prop) (r : res A) : (∀ e, r = Err e → P e) → errs_in P (lift_res r).
Proof. intros Hp w e w' E. unfold lift_res in E. apply Hp. congruence. Qed.
Lemma errs_get P : errs_in P get.
Proof. done. Qed.
Lemma errs_put P s : errs_in P (put s).
Proof. done. Qed.
Lemma errs_modify P f : errs_in P (modify f).
Proof. done. Qed.
Lemma errs_now P : errs_in P now.
Proof. intros w e w'. unfold now. by repeat case_match. Qed.
Lemma errs_ctx (P : gerr → Prop) : (∀ e, P (ctx_gerr e)) → errs_in P ctx_check.
Proof. intros Hp w e w'. unfold ctx_check. repeat case_match; try done. by intros [= <- _]. Qed.
Lemma errs_bind {A B} P (m : go S A) (k : A → go S B) :
  errs_in P m → (∀ a, errs_in P (k a)) → errs_in P (bind m k).
Proof.
  intros Hm Hk w e w' Hr.
  apply bind_Err_inv in Hr as [Hr|(a & w1 & _ & Hr)]; [by eapply Hm|by eapply Hk].
Qed.
Lemma errs_on_error {A} P (m : go S A) c : errs_in P m → errs_in P c → errs_in P (on_error m c).
Proof.
  intros Hm Hc w e w'. unfold on_error. destruct (m w) as [[a|e1|] w1] eqn:E1; [done| |done].
  destruct (c w1) as [[u|e2|] w2] eqn:E2; intros [= <- <-]; [by eapply Hm|by eapply Hc].
Qed.
Lemma errs_iter {A} P (l : list A) m : (∀ a, errs_in P (m a)) → errs_in P (iter l m).
Proof. intros Hm. induction l as [|a l IH]; [done|]. cbn. by apply errs_bind. Qed.
End laws.

Lemma errs_zoom {S T A} P (proj : T → S) inj (m : go S A) :
  errs_in P m → errs_in P (zoom proj inj m).
Proof.
  intros Hm w e w'. unfold zoom. destruct (m (w.1, proj w.2)) as [r [e1 s1]] eqn:E.
  intros [= -> _]. by eapply Hm.
Qed.

Lemma zoom_inv {S T A} (proj : T → S) inj (m : go S A) (w : env * T) r w' :
  zoom proj inj m w = (r, w') →
  ∃ w1, m (w.1, proj w.2) = (r, w1) ∧ w' = (w1.1, inj w1.2 w.2).
Proof.
  unfold zoom. destruct (m _) as [r1 [e1 s1]] eqn:E. intros [= <- <-]. by exists (e1, s1).
Qed.

(** Forget what an operation returns. *)
Definition discard {S A} (m : go S A) : go S () := let! _ := m in ret ().

Lemma discard_inv {S A} (m : go S A) w r w' :
  discard m w = (r, w') →
  ∃ r0, m w = (r0, w') ∧ match r0 with Ok _ => r = Ok () | Err e => r = Err e | Panic => r = Panic end.
Proof. unfold discard, bind. destruct (m w) as [[] w1]; intros [= <- <-]; eexists; by split. Qed.

Lemma attempt_inv {S A} (m : go S A) (w : env * S) r w' :
  attempt m w = (r, w') →
  ∃ r0, m w = (r0, w') ∧
    match r0 with Ok a => r = Ok (inr a) | Err e => r = Ok (inl e) | Panic => r = Panic end.
Proof. unfold attempt. destruct (m w) as [r0 w1] eqn:E. exists r0. by destruct r0; simplify_eq. Qed.

(** What a reading of the context or of the clock leaves behind. *)
Lemma ctx_check_Ok {S} (w : env * S) u w' :
  ctx_check w = (Ok u, w') → w'.2 = w.2 ∧ env_clock w'.1 = env_clock w.1.
Proof. unfold ctx_check. repeat case_match; naive_solver. Qed.

Lemma now_inv {S} (w : env * S) r w' : now w = (r, w') → ∃ t, r = Ok t ∧ w'.2 = w.2.
Proof. unfold now. repeat case_match; naive_solver. Qed.

Lemma bind_ctx {S A} (k : () → go S A) w r w' :
  bind ctx_check k w = (r, w') →
  (∃ e, r = Err e ∧ w'.2 = w.2) ∨ ∃ e, k () (e, w.2) = (r, w').
Proof.
  unfold bind, ctx_check. destruct w as [[ctx clk] s]. cbn.
  destruct ctx as [|[err|] ctx]; [by eauto|intros [= <- <-]; left; eauto|by eauto].
Qed.

Lemma bind_Err_or_Ok {S A} (k : () → go S A) w r w' :
  bind ctx_check k w = (r, w') →
  (∃ e, r = Err e ∧ (∃ c, e = ctx_gerr c) ∧ w'.2 = w.2) ∨ ∃ e, k () (e, w.2) = (r, w').
Proof.
  unfold bind, ctx_check. destruct w as [[ctx clk] s]. cbn.
  destruct ctx as [|[err|] ctx]; [by eauto|intros [= <- <-]; left; eauto|by eauto].
Qed.

Lemma bind_now {S A} (k : time → go S A) w r w' :
  bind now k w = (r, w') → ∃ t e, k t (e, w.2) = (r, w').
Proof.
  unfold bind, now. destruct w as [[ctx clk] s]. cbn.
  destruct clk as [|t [|t' clk]]; eauto.
Qed.

(** The next reading of the clock; a context check does not move it. *)
Definition clock (e : env) : time :=
  match env_clock e with [] => 0 | t :: _ => t end.

Lemma bind_ctx_clock {S A} (k : () → go S A) w r w' :
  bind ctx_check k w = (r, w') →
  (∃ e, r = Err e ∧ w'.2 = w.2) ∨ ∃ e, clock e = clock w.1 ∧ k () (e, w.2) = (r, w').
Proof.
  unfold bind, ctx_check. destruct w as [[ctx clk] s]. cbn.
  destruct ctx as [|[err|] ctx]; [|by intros [= <- <-]; left; eauto|];
    intros Hk; right; eexists; (split; [|exact Hk]); done.
Qed.

Lemma bind_ctx_Ok {S A} (k : () → go S A) w a w' :
  bind ctx_check k w = (Ok a, w') → ∃ e, clock e = clock w.1 ∧ k () (e, w.2) = (Ok a, w').
Proof.
  unfold bind, ctx_check. destruct w as [[ctx clk] s]. cbn.
  destruct ctx as [|[err|] ctx]; [|done|]; intros Hk; eexists; (split; [|exact Hk]); done.
Qed.

Lemma bind_now_clock {S A} (k : time → go S A) w :
  ∃ e, bind now k w = k (clock w.1) (e, w.2).
Proof.
  unfold bind, now, clock. destruct w as [[ctx clk] s]. cbn.
  destruct clk as [|t [|t' clk]]; eauto.
Qed.

Lemma bind_now_at {S A} (k : time → go S A) w r w' :
  bind now k w = (r, w') → ∃ e, k (clock w.1) (e, w.2) = (r, w').
Proof. destruct (bind_now_clock k w) as [e ->]. eauto. Qed.

Lemma bind_get {S A} (k : S → go S A) (w : env * S) : bind get k w = k w.2 w.
Proof. done. Qed.

Lemma bind_ret {S A B} (a : A) (k : A → go S B) (w : env * S) : bind (ret a) k w = k a w.
Proof. done. Qed.

(** ** Readings of the clock *)

(** The readings an environment gives: with none left, the last one repeats. *)
Definition readings (e : env) : list time := match env_clock e with [] => [0] | l => l end.

Lemma now_reading {S} (w : env * S) (t : time) w' :
  now w = (Ok t, w') → t ∈ readings w.1 ∧ (∀ x, x ∈ readings w'.1 → x ∈ readings w.1) ∧ w'.2 = w.2.
Proof.
  unfold now, readings. destruct w as [[ctx clk] s]. cbn. destruct clk as [|x [|y clk]]; intros [= <- <-]; cbn;
    split_and!; set_solver.
Qed.

(** An operation takes its readings from the environment it is given. *)
Definition calm {S A} (m : go S A) : Prop := ∀ w r w', m w = (r, w') → ∀ x, x ∈ readings w'.1 → x ∈ readings w.1.

Section calm.
Context {S : Type}.

Lemma calm_pure {A} (r : res A) : calm (S := S) (lift_res r).
Proof. by intros w r' w' [= _ <-]. Qed.
Lemma calm_get : calm (S := S) get.
Proof. by intros w r' w' [= _ <-]. Qed.
Lemma calm_modify (f : S → S) : calm (modify f).
Proof. by intros w r' w' [= _ <-]. Qed.
Lemma calm_now : calm (S := S) now.
Proof.
  intros w r w' Hrun. destruct (now_inv _ _ _ Hrun) as (t & -> & _). by apply now_reading in Hrun as (_ & ? & _).
Qed.
Lemma calm_ctx : calm (S := S) ctx_check.
Proof. intros w r w'. unfold ctx_check. repeat case_match; intros [= _ <-]; done. Qed.
Lemma calm_bind {A B} (m : go S A) (k : A → go S B) : calm m → (∀ a, calm (k a)) → calm (bind m k).
Proof.
  intros Hm Hk w r w' [(a & w1 & H1 & H2)|[(e & -> & H1)|[-> H1]]]%bind_res_inv x Hx; [|by eapply Hm..].
  eapply Hm; [done|]. by eapply Hk.
Qed.
End calm.

(** ** Weakest preconditions

    [wp T m Q s]: from [s], in any environment whose readings satisfy [T], [m]
    answers, and what it answers and leaves behind satisfies [Q]. *)

Definition steady (T : time → Prop) (e : env) : Prop := ∀ t, t ∈ readings e → T t.

Definition wp {S A} (T : time → Prop) (m : go S A) (Q : A → S → Prop) (s : S) : Prop :=
  ∀ e, steady T e → ∃ a e' s', m (e, s) = (Ok a, (e', s')) ∧ steady T e' ∧ Q a s'.

Section wp.
Context {S : Type} (T : time → Prop).
Implicit Types (s : S).

Lemma wp_ret {A} (a : A) Q s : Q a s → wp T (ret a) Q s.
Proof. intros HQ e He. by exists a, e, s. Qed.
Lemma wp_get Q s : Q s s → wp T get Q s.
Proof. intros HQ e He. by exists s, e, s. Qed.
Lemma wp_put Q s s' : Q () s' → wp T (put s') Q s.
Proof. intros HQ e He. by exists (), e, s'. Qed.
Lemma wp_modify (f : S → S) Q s : Q () (f s) → wp T (modify f) Q s.
Proof. intros HQ e He. by exists (), e, (f s). Qed.
Lemma wp_now Q s : (∀ t, T t → Q t s) → wp T now Q s.
Proof.
  intros HQ e He. destruct (now (e, s)) as [r w'] eqn:E. destruct (now_inv _ _ _ E) as (t & -> & _).
  destruct w' as [e' s']. apply now_reading in E as (Ht & Hr & Hs). cbn in *. subst s'.
  exists t, e', s. split_and!; [done| |by apply HQ, He]. intros x Hx. by apply He, Hr.
Qed.
Lemma wp_bind {A B} (m : go S A) (k : A → go S B) Q s :
  wp T m (λ a, wp T (k a) Q) s → wp T (bind m k) Q s.
Proof.
  intros Hm e He. destruct (Hm e He) as (a & e1 & s1 & Hrun & He1 & Hk).
  destruct (Hk e1 He1) as (b & e2 & s2 & Hrun2 & ? & ?). exists b, e2, s2. split; [|done].
  unfold bind. by rewrite Hrun.
Qed.
Lemma wp_mono {A} (m : go S A) (Q Q' : A → S → Prop) s :
  wp T m Q s → (∀ a s', Q a s' → Q' a s') → wp T m Q' s.
Proof. intros Hm HQ e He. destruct (Hm e He) as (a & e' & s' & ? & ? & ?). exists a, e', s'. auto. Qed.

(** A call that may fail, on a part of the state. *)
Lemma wp_attempt_zoom {P A} (proj : S → P) inj (m : go P A) Q s :
  safe m → calm m →
  (∀ r e w', steady T e → m (e, proj s) = (r, w') →
     match r with Ok a => Q (inr a) (inj w'.2 s) | Err err => Q (inl err) (inj w'.2 s) | Panic => True end) →
  wp T (attempt (zoom proj inj m)) Q s.
Proof.
  intros Hs Hc HQ e He. unfold attempt, zoom. cbn.
  destruct (m (e, proj s)) as [r [e' p]] eqn:E. specialize (HQ r e _ He E). cbn in HQ.
  assert (steady T e') as He' by (intros x Hx; by apply He, (Hc _ _ _ E)).
  destruct r as [a|err|]; [by exists (inr a), e', (inj p s)|by exists (inl err), e', (inj p s)|].
  by apply Hs in E.
Qed.
End wp.

(** ** Arithmetic of 64-bit integers *)

Lemma i64_small z : - 2 ^ 63 ≤ z < 2 ^ 63 → i64 z = z.
Proof. intros Hz. unfold i64. rewrite Z.mod_small by lia. lia. Qed.

(** ** Counting the entries of a table *)

Definition countm {A} (P : A → bool) (m : gmap nat A) : nat :=
  size (filter (λ kv : nat * A, P kv.2 = true) m).

Section countm.
Context {A : Type}.
Implicit Types (P Q : A → bool) (m : gmap nat A).

Lemma countm_add P m k x :
  m !! k = None → countm P (<[k := x]> m) = ((if P x then 1 else 0) + countm P m)%nat.
Proof.
  intros Hk. unfold countm. rewrite map_filter_insert. cbn. destruct (P x).
  - rewrite decide_True by done. rewrite map_size_insert_None; [done|].
    apply map_lookup_filter_None. by left.
  - rewrite decide_False by done. by rewrite delete_id.
Qed.

Lemma countm_delete P m k x :
  m !! k = Some x → countm P m = ((if P x then 1 else 0) + countm P (delete k m))%nat.
Proof.
  intros Hk. rewrite <-(insert_delete_id m k x) at 1 by done.
  by rewrite countm_add by apply lookup_delete_eq.
Qed.

Lemma countm_update P m k x y :
  m !! k = Some x →
  ((if P y then 1 else 0) + countm P m = (if P x then 1 else 0) + countm P (<[k := y]> m))%nat.
Proof.
  intros Hk. rewrite (countm_delete P m k x) by done. rewrite <-insert_delete_eq.
  rewrite countm_add by apply lookup_delete_eq. lia.
Qed.

Lemma countm_zero P m : (∀ k x, m !! k = Some x → P x = false) → countm P m = 0%nat.
Proof.
  intros H. unfold countm. apply map_size_empty_iff, map_empty. intros k.
  apply map_lookup_filter_None. destruct (m !! k) as [x|] eqn:E; [right|by left].
  intros y [= <-]. cbn. by rewrite (H k x).
Qed.

Lemma countm_none P m k x : countm P m = 0%nat → m !! k = Some x → P x = false.
Proof. intros H Hk. rewrite (countm_delete P m k x) in H by done. by destruct (P x). Qed.

Lemma countm_ext P Q m : (∀ k x, m !! k = Some x → P x = Q x) → countm P m = countm Q m.
Proof.
  intros H. unfold countm. f_equal. apply map_eq. intros k. apply option_eq. intros x.
  rewrite !map_lookup_filter_Some. cbn. split; intros [Hk Hb]; (split; [done|]).
  - by rewrite <-(H k x).
  - by rewrite (H k x).
Qed.
End countm.

(** What one table counts is counted, place by place, by another. *)
Lemma countm_le {A B} (P : A → bool) (Q : B → bool) (m : gmap nat A) (m' : gmap nat B) :
  (∀ k x, m !! k = Some x → P x = true → ∃ y, m' !! k = Some y ∧ Q y = true) →
  (countm P m ≤ countm Q m')%nat.
Proof.
  intros H. unfold countm. rewrite <-!size_dom. apply subseteq_size. intros k.
  rewrite !elem_of_dom. intros [x [Hx HP]%map_lookup_filter_Some].
  destruct (H k x Hx HP) as (y & Hy & HQ). exists y. by apply map_lookup_filter_Some.
Qed.

(** [if n <= 1 { delete(m, key) } else { m[key]-- }] *)
Definition count_down (key : string) (m : gmap string Z) : gmap string Z :=
  let n := default 0 (m !! key) in
  if n <=? 1 then delete key m else <[key := n - 1]> m.

(** [count_down] undoes one of the units it counts. *)
Lemma count_down_spec key m :
  (∀ k n, m !! k = Some n → 0 < n) →
  (∀ k n, count_down key m !! k = Some n → 0 < n) ∧
  ∀ k, default 0 (count_down key m !! k)
       = if decide (k = key) then Z.max 0 (default 0 (m !! k) - 1) else default 0 (m !! k).
Proof.
  intros Hpos. unfold count_down. destruct (_ <=? 1) eqn:E.
  - apply Z.leb_le in E. split.
    + intros k n [_ Hk]%lookup_delete_Some. by eapply Hpos.
    + intros k. case_decide as Hk.
      * subst. rewrite lookup_delete_eq. cbn. lia.
      * by rewrite lookup_delete_ne by done.
  - apply Z.leb_gt in E. split.
    + intros k n [[<- <-]|[_ Hk]]%lookup_insert_Some; [lia|by eapply Hpos].
    + intros k. case_decide as Hk.
      * subst. rewrite lookup_insert_eq. cbn. lia.
      * by rewrite lookup_insert_ne by done.
Qed.

Create HintDb go_db.
#[export] Hint Resolve readonly_ret readonly_fail readonly_panic readonly_lift readonly_get
  readonly_ctx readonly_now readonly_bind readonly_attempt : go_db.
#[export] Hint Resolve readonly_atomic : go_db.
#[export] Hint Resolve succeeds_ret succeeds_put succeeds_modify succeeds_get succeeds_now
  succeeds_bind : go_db.
#[export] Hint Resolve safe_ret safe_fail safe_get safe_put safe_modify safe_ctx safe_now
  safe_bind : go_db.

(** Structural proof search for [readonly], [atomic], [succeeds] and
    [preserves]: descend through binds, conditionals and matches and close the
    leaves with the hint database. *)
Ltac go_struct :=
  intros;
  repeat first
    [ progress cbn beta iota
    | match goal with
      | |- context [match ?x with _ => _ end] =>
        lazymatch type of x with
        | _ => destruct x
        end
      end
    | eapply readonly_bind; intros
    | solve [eauto 3 with go_db nocore] ].

(** Decompose a run [m w = (r, w')] of a bound operation into its steps. *)
Ltac go_step H :=
  let a := fresh "a" in let w := fresh "w" in let H1 := fresh "Hrun" in
  lazymatch type of H with
  | bind _ _ _ = (Ok _, _) => apply bind_Ok_inv in H as (a & w & H1 & H)
  end.
