(* ===== verification/GoStrings.v ===== *)
(** * GoStrings: Go strings as the modelled code uses them

    A Go string is a sequence of bytes; it is a Rocq [string] here, whose
    [ascii] characters are the bytes.  The file models UTF-8 decoding, the
    [strings], [unicode/utf8] and [unicode] functions the validators call, the
    anchored character-class regular expressions they use, and sorting, with
    the lemmas the normalisation proofs share. *)

From Stdlib Require Import ZArith Lia Ascii.
From stdpp Require Import sorting pretty numbers gmap strings list_numbers list.
From S2P Require Import Prelude.

Open Scope Z_scope.

(** ** Bytes *)

Definition code (c : ascii) : Z := Z.of_N (N_of_ascii c).
Definition chr (z : Z) : ascii := ascii_of_N (Z.to_N z).
Definition chars (s : string) : list ascii := String.list_ascii_of_string s.
Definition of_chars (l : list ascii) : string := String.string_of_list_ascii l.
Definition bytes_of (s : string) : list Z := code <$> chars s.
Definition of_bytes (l : list Z) : string := of_chars (chr <$> l).
Definition slen (s : string) : Z := Z.of_nat (String.length s).

Lemma chr_code c : chr (code c) = c.
Proof. unfold chr, code. rewrite N2Z.id. apply ascii_N_embedding. Qed.

Lemma code_range c : 0 ≤ code c < 256.
Proof.
  unfold code. destruct c as [[] [] [] [] [] [] [] []]; vm_compute; split; congruence.
Qed.

Lemma code_chr z : 0 ≤ z < 256 → code (chr z) = z.
Proof. intros. unfold code, chr. rewrite N_ascii_embedding by lia. lia. Qed.

Lemma of_chars_chars s : of_chars (chars s) = s.
Proof. apply String.string_of_list_ascii_of_string. Qed.
Lemma chars_of_chars l : chars (of_chars l) = l.
Proof. apply String.list_ascii_of_string_of_list_ascii. Qed.
Lemma of_bytes_bytes_of s : of_bytes (bytes_of s) = s.
Proof.
  unfold of_bytes, bytes_of. rewrite <-list_fmap_compose.
  rewrite (list_fmap_ext _ id); [|intros; apply chr_code].
  rewrite list_fmap_id. apply of_chars_chars.
Qed.
Lemma bytes_of_of_bytes l : Forall (λ b, 0 ≤ b < 256) l → bytes_of (of_bytes l) = l.
Proof.
  intros Hl. unfold bytes_of, of_bytes. rewrite chars_of_chars, <-list_fmap_compose.
  induction Hl; [done|]. cbn. rewrite code_chr by done. by f_equal.
Qed.
Lemma bytes_of_range s : Forall (λ b, 0 ≤ b < 256) (bytes_of s).
Proof. apply Forall_fmap, Forall_true. intros. apply code_range. Qed.
Lemma chars_app s t : chars (s +:+ t) = chars s ++ chars t.
Proof. induction s; [done|]. change (String a s +:+ t) with (String a (s +:+ t)). cbn. by f_equal. Qed.
Lemma length_chars s : length (chars s) = String.length s.
Proof. induction s; cbn; auto. Qed.
Lemma slen_chars s : slen s = Z.of_nat (length (chars s)).
Proof. unfold slen. by rewrite length_chars. Qed.
Lemma slen_app s t : slen (s +:+ t) = slen s + slen t.
Proof. rewrite !slen_chars, chars_app, length_app. lia. Qed.
Lemma slen_of_bytes l : slen (of_bytes l) = Z.of_nat (length l).
Proof. unfold of_bytes. by rewrite slen_chars, chars_of_chars, length_fmap. Qed.
#[global] Instance chars_inj : Inj (=) (=) chars.
Proof. intros s t H. by rewrite <-(of_chars_chars s), H, of_chars_chars. Qed.

(** ** UTF-8 *)

Definition cont (b : Z) : bool := (128 <=? b) && (b <=? 191).

(** The well-formed two-, three- and four-byte sequences: no overlong form, no
    surrogate, nothing above U+10FFFF. *)
Definition utf8_ok2 (b0 b1 : Z) : bool := (194 <=? b0) && (b0 <=? 223) && cont b1.
Definition utf8_ok3 (b0 b1 b2 : Z) : bool :=
  (224 <=? b0) && (b0 <=? 239) && cont b1 && cont b2
  && (if b0 =? 224 then 160 <=? b1 else true)
  && (if b0 =? 237 then b1 <=? 159 else true).
Definition utf8_ok4 (b0 b1 b2 b3 : Z) : bool :=
  (240 <=? b0) && (b0 <=? 244) && cont b1 && cont b2 && cont b3
  && (if b0 =? 240 then 144 <=? b1 else true)
  && (if b0 =? 244 then b1 <=? 143 else true).

(** One step of ranging over a string: a code point with the bytes that encode
    it, or a byte that starts no well-formed sequence (Go yields
    [utf8.RuneError] with width 1 for it). *)
Inductive run :=
  | RRune (r : Z) (enc : list Z)
  | RBad (b : Z).

Definition run_bytes (x : run) : list Z :=
  match x with
  | RRune _ enc => enc
  | RBad b => [b]
  end.

Definition run_ok (x : run) : bool :=
  match x with
  | RRune _ _ => true
  | RBad _ => false
  end.

Definition RuneError : Z := 65533.

Definition rune_of (x : run) : Z :=
  match x with
  | RRune r _ => r
  | RBad _ => RuneError
  end.

Fixpoint decode (l : list Z) : list run :=
  match l with
  | [] => []
  | b0 :: r1 =>
    if b0 <? 128 then RRune b0 [b0] :: decode r1 else
    match r1 with
    | [] => RBad b0 :: decode r1
    | b1 :: r2 =>
      if utf8_ok2 b0 b1 then RRune ((b0 - 192) * 64 + (b1 - 128)) [b0; b1] :: decode r2 else
      match r2 with
      | [] => RBad b0 :: decode r1
      | b2 :: r3 =>
        if utf8_ok3 b0 b1 b2 then
          RRune ((b0 - 224) * 4096 + (b1 - 128) * 64 + (b2 - 128)) [b0; b1; b2] :: decode r3
        else
        match r3 with
        | [] => RBad b0 :: decode r1
        | b3 :: r4 =>
          if utf8_ok4 b0 b1 b2 b3 then
            RRune ((b0 - 240) * 262144 + (b1 - 128) * 4096 + (b2 - 128) * 64 + (b3 - 128))
              [b0; b1; b2; b3] :: decode r4
          else RBad b0 :: decode r1
        end
      end
    end
  end.

Definition runs (s : string) : list run := decode (bytes_of s).
Definition runes (s : string) : list Z := rune_of <$> runs s.
Definition utf8_ValidString (s : string) : bool := forallb run_ok (runs s).
Definition utf8_RuneCountInString (s : string) : Z := Z.of_nat (length (runs s)).

(** [utf8.AppendRune] *)
Definition encode_rune (r : Z) : list Z :=
  if (0 <=? r) && (r <? 128) then [r]
  else if (0 <=? r) && (r <? 2048) then [192 + r / 64; 128 + r mod 64]
  else if (r <? 0) || (1114111 <? r) || ((55296 <=? r) && (r <=? 57343)) then [239; 191; 189]
  else if r <? 65536 then [224 + r / 4096; 128 + (r / 64) mod 64; 128 + r mod 64]
  else [240 + r / 262144; 128 + (r / 4096) mod 64; 128 + (r / 64) mod 64; 128 + r mod 64].

(** ** unicode.IsSpace, unicode.IsControl, unicode.ToLower *)

Definition unicode_IsSpace (r : Z) : bool :=
  bool_decide (r ∈ [9; 10; 11; 12; 13; 32; 133; 160; 5760; 8232; 8233; 8239; 8287; 12288])
  || ((8192 <=? r) && (r <=? 8202)).

Definition unicode_IsControl (r : Z) : bool :=
  ((0 <=? r) && (r <=? 31)) || ((127 <=? r) && (r <=? 159)).

(** The lower-case mapping above ASCII is the Unicode table of the Go release
    the program is built with; it is a parameter. *)
Class UnicodeTables := { unicode_lower_table : Z → Z }.

Definition unicode_ToLower `{UnicodeTables} (r : Z) : Z :=
  if r <? 128 then (if (65 <=? r) && (r <=? 90) then r + 32 else r)
  else unicode_lower_table r.

(** ** strings *)

Fixpoint dropWhile {A} (p : A → bool) (l : list A) : list A :=
  match l with
  | [] => []
  | x :: l' => if p x then dropWhile p l' else l
  end.

Definition trim_runs (p : Z → bool) (l : list run) : list run :=
  let q x := p (rune_of x) in
  rev (dropWhile q (rev (dropWhile q l))).

Definition of_runs (l : list run) : string := of_bytes (concat (run_bytes <$> l)).

Definition strings_TrimSpace (s : string) : string := of_runs (trim_runs unicode_IsSpace (runs s)).

Definition strings_ToLower `{UnicodeTables} (s : string) : string :=
  of_bytes (concat ((λ r, encode_rune (unicode_ToLower r)) <$> runes s)).

(** *** strings.EqualFold

    The orbits of [unicode.SimpleFold] outside ASCII are a table: a
    representative of the orbit of each rune. *)
Class FoldTables := { unicode_fold_table : Z → Z }.

Definition ascii_lower_rune (r : Z) : Z := if (65 <=? r) && (r <=? 90) then r + 32 else r.
Definition rune_fold_eq `{FoldTables} (a b : Z) : bool :=
  bool_decide (a = b)
  || (if (a <? 128) && (b <? 128) then bool_decide (ascii_lower_rune a = ascii_lower_rune b)
      else bool_decide (unicode_fold_table a = unicode_fold_table b)).

Fixpoint runes_fold_eq `{FoldTables} (l l' : list Z) : bool :=
  match l, l' with
  | [], [] => true
  | a :: l, b :: l' => rune_fold_eq a b && runes_fold_eq l l'
  | _, _ => false
  end.
Definition strings_EqualFold `{FoldTables} (s t : string) : bool := runes_fold_eq (runes s) (runes t).

(** [strings.IndexFunc(s, unicode.IsControl) >= 0] *)
Definition has_control_rune (s : string) : bool := existsb unicode_IsControl (runes s).

(** [s == ""] and [slices.Contains(l, v)] *)
Definition isEmpty (s : string) : bool := bool_decide (s = "").

Definition slices_Contains (l : list string) (v : string) : bool := bool_decide (v ∈ l).

Definition strings_HasPrefix (s p : string) : bool := String.prefix p s.

Definition strings_HasSuffix (s suffix : string) : bool :=
  bool_decide (String.length suffix ≤ String.length s)%nat
  && String.eqb (String.substring (String.length s - String.length suffix) (String.length suffix) s)
       suffix.

Definition strings_CutPrefix (s p : string) : option string :=
  if strings_HasPrefix s p
  then Some (String.substring (String.length p) (String.length s - String.length p) s)
  else None.

Definition strings_CutSuffix (s suffix : string) : option string :=
  if strings_HasSuffix s suffix
  then Some (String.substring 0 (String.length s - String.length suffix) s)
  else None.

Definition strings_TrimPrefix (s p : string) : string :=
  match strings_CutPrefix s p with Some rest => rest | None => s end.

Definition strings_TrimSuffix (s suffix : string) : string :=
  match strings_CutSuffix s suffix with Some t => t | None => s end.

Fixpoint starts_with (p l : list ascii) : bool :=
  match p, l with
  | [], _ => true
  | a :: p', c :: l' => bool_decide (a = c) && starts_with p' l'
  | _ :: _, [] => false
  end.

(** [strings.ReplaceAll] on the characters of a string, for a non-empty [old]:
    [skip] characters are still to be dropped of the occurrence last replaced. *)
Fixpoint replace_chars (old new : list ascii) (skip : nat) (l : list ascii) : list ascii :=
  match l with
  | [] => []
  | c :: l' =>
    match skip with
    | S k => replace_chars old new k l'
    | O =>
      if starts_with old l then new ++ replace_chars old new (length old - 1) l'
      else c :: replace_chars old new 0 l'
    end
  end.

Definition strings_ReplaceAll (s old new : string) : string :=
  of_chars (replace_chars (chars old) (chars new) 0 (chars s)).

Fixpoint strings_Join (l : list string) (sep : string) : string :=
  match l with
  | [] => ""
  | [s] => s
  | s :: rest => s +:+ sep +:+ strings_Join rest sep
  end.

(** [s[n:]] and [s[:n]], for [n] at most the length of [s]. *)
Definition slice_from (s : string) (n : nat) : string := of_chars (drop n (chars s)).
Definition slice_upto (s : string) (n : nat) : string := of_chars (take n (chars s)).

(** [strings.Split] on a one-byte separator. *)
Fixpoint split_chars (sep : ascii) (l : list ascii) : list (list ascii) :=
  match l with
  | [] => [[]]
  | c :: l' =>
    match split_chars sep l' with
    | [] => [[]]
    | w :: ws => if bool_decide (c = sep) then [] :: w :: ws else (c :: w) :: ws
    end
  end.
Definition strings_Split (s : string) (sep : ascii) : list string :=
  of_chars <$> split_chars sep (chars s).

Definition strconv_Itoa (n : Z) : string := pretty n.

(** ** Character classes and the anchored patterns built from them *)

Definition between (lo hi : Z) (c : ascii) : bool := (lo <=? code c) && (code c <=? hi).
Definition is_digit (c : ascii) : bool := between 48 57 c.
Definition is_lower (c : ascii) : bool := between 97 122 c.
Definition is_upper (c : ascii) : bool := between 65 90 c.
Definition one_of (l : list ascii) (c : ascii) : bool := bool_decide (c ∈ l).

Definition all_chars (p : ascii → bool) (s : string) : bool := forallb p (chars s).

(** [^[class]{lo,hi}$] *)
Definition match_class (p : ascii → bool) (lo hi : Z) (s : string) : bool :=
  (lo <=? slen s) && (slen s <=? hi) && all_chars p s.

Definition hex_digit (n : Z) : ascii := if n <? 10 then chr (48 + n) else chr (87 + n).
Definition hex_byte (b : Z) : list ascii := [hex_digit (b / 16); hex_digit (b mod 16)].
(** [hex.EncodeToString] *)
Definition hex_EncodeToString (l : list Z) : string := of_chars (concat (hex_byte <$> l)).

(** [strconv.Atoi], [strconv.ParseInt] in base 10: an optional sign, decimal digits, and a value of 64 bits. *)
Fixpoint decimal (l : list ascii) (acc : Z) : option Z :=
  match l with
  | [] => Some acc
  | c :: l' => if is_digit c then decimal l' (10 * acc + (code c - 48)) else None
  end.
Definition strconv_Atoi (s : string) : option Z :=
  let '(sign, l) := match chars s with
    | "-"%char :: l => (-1, l)
    | "+"%char :: l => (1, l)
    | l => (1, l)
    end in
  match l, decimal l 0 with
  | [], _ | _, None => None
  | _, Some n => if bool_decide (- 2 ^ 63 <= sign * n < 2 ^ 63) then Some (sign * n) else None
  end.

(** ** Sorting *)

(** [sort.Strings], [slices.Sort]: ascending, compared byte by byte. *)
Definition sort_Strings (l : list string) : list string := merge_sort String.le l.

(** [slices.Compact]: drop an element equal to the one before it. *)
Fixpoint slices_Compact (l : list string) : list string :=
  match l with
  | [] => []
  | x :: l' =>
    match l' with
    | [] => [x]
    | y :: _ => if bool_decide (x = y) then slices_Compact l' else x :: slices_Compact l'
    end
  end.

(** Keep the first occurrence of each element: a [seen] map and an append. *)
Fixpoint dedup_go (seen : list string) (l : list string) : list string :=
  match l with
  | [] => []
  | x :: l' => if bool_decide (x ∈ seen) then dedup_go seen l' else x :: dedup_go (x :: seen) l'
  end.

(** ** Lemmas *)

(** One step of [decode]: a sequence that decodes does so whatever follows it,
    and a byte that starts no sequence starts none in any shorter text. *)
Lemma decode_cons b0 r1 :
  (∃ r enc rest, b0 :: r1 = enc ++ rest ∧ (length rest < S (length r1))%nat ∧
     ∀ rest', decode (enc ++ rest') = RRune r enc :: decode rest') ∨
  (∀ p t, r1 = p ++ t → decode (b0 :: p) = RBad b0 :: decode p).
Proof.
  destruct (b0 <? 128) eqn:E0.
  { left. exists b0, [b0], r1. repeat split; [cbn; lia|]. intros. cbn. by rewrite E0. }
  destruct r1 as [|b1 r2].
  { right. intros [|??] t ?; simplify_eq/=; by rewrite E0. }
  destruct (utf8_ok2 b0 b1) eqn:E2.
  { left. eexists _, [b0; b1], r2. repeat split; [cbn; lia|]. intros. cbn. by rewrite E0, E2. }
  destruct r2 as [|b2 r3].
  { right. intros [|? [|??]] t ?; simplify_eq/=; by rewrite E0, ?E2. }
  destruct (utf8_ok3 b0 b1 b2) eqn:E3.
  { left. eexists _, [b0; b1; b2], r3. repeat split; [cbn; lia|]. intros. cbn. by rewrite E0, E2, E3. }
  destruct r3 as [|b3 r4].
  { right. intros [|? [|? [|??]]] t ?; simplify_eq/=; by rewrite E0, ?E2, ?E3. }
  destruct (utf8_ok4 b0 b1 b2 b3) eqn:E4.
  { left. eexists _, [b0; b1; b2; b3], r4. repeat split; [cbn; lia|].
    intros. cbn. by rewrite E0, E2, E3, E4. }
  right. intros [|? [|? [|? [|??]]]] t ?; simplify_eq/=; by rewrite E0, ?E2, ?E3, ?E4.
Qed.

(** Ranging over a string visits every byte once, in order. *)
Lemma decode_bytes l : concat (run_bytes <$> decode l) = l.
Proof.
  induction l as [l IH] using (induction_ltof1 _ (@length Z)); unfold ltof in IH.
  destruct l as [|b0 r1]; [done|].
  destruct (decode_cons b0 r1) as [(r & enc & rest & Heq & Hlt & Hd)|Hbad].
  - rewrite Heq, Hd, fmap_cons. cbn [concat run_bytes]. rewrite IH by (cbn; lia). done.
  - rewrite (Hbad r1 []) by (by rewrite app_nil_r). rewrite fmap_cons. cbn [concat run_bytes app].
    by rewrite IH by (cbn; lia).
Qed.

(** Cutting a string at a boundary of its runs does not change how what is
    left decodes. *)
Lemma decode_take l k :
  decode (concat (run_bytes <$> take k (decode l))) = take k (decode l).
Proof.
  revert k. induction l as [l IH] using (induction_ltof1 _ (@length Z)); unfold ltof in IH.
  intros [|k]; [done|]. destruct l as [|b0 r1]; [done|].
  destruct (decode_cons b0 r1) as [(r & enc & rest & Heq & Hlt & Hd)|Hbad].
  - rewrite Heq, Hd, firstn_cons, fmap_cons. cbn [concat run_bytes].
    rewrite Hd, IH by (cbn; lia). done.
  - rewrite (Hbad r1 []) by (by rewrite app_nil_r).
    rewrite firstn_cons, fmap_cons. cbn [concat run_bytes app].
    rewrite (Hbad _ (concat (run_bytes <$> drop k (decode r1)))).
    + by rewrite IH by (cbn; lia).
    + by rewrite <-concat_app, <-fmap_app, take_drop, decode_bytes.
Qed.

Lemma decode_drop l k :
  decode (concat (run_bytes <$> drop k (decode l))) = drop k (decode l).
Proof.
  revert k. induction l as [l IH] using (induction_ltof1 _ (@length Z)); unfold ltof in IH.
  intros [|k]; [by rewrite !drop_0, decode_bytes|]. destruct l as [|b0 r1]; [done|].
  destruct (decode_cons b0 r1) as [(r & enc & rest & Heq & Hlt & Hd)|Hbad].
  - rewrite Heq, Hd, skipn_cons. rewrite IH by (cbn; lia). done.
  - rewrite (Hbad r1 []) by (by rewrite app_nil_r). rewrite skipn_cons. by rewrite IH by (cbn; lia).
Qed.

Lemma dropWhile_drop {A} (p : A → bool) l : ∃ k, dropWhile p l = drop k l.
Proof.
  induction l as [|x l [k IH]]; [by exists 0%nat|]. cbn.
  destruct (p x); [by exists (S k)|by exists 0%nat].
Qed.

Lemma dropWhile_id {A} (p : A → bool) l :
  match l with [] => True | x :: _ => p x = false end → dropWhile p l = l.
Proof. destruct l as [|x l]; [done|]. cbn. by intros ->. Qed.

Lemma dropWhile_head {A} (p : A → bool) l :
  match dropWhile p l with [] => True | x :: _ => p x = false end.
Proof. induction l as [|x l IH]; [done|]. cbn. destruct (p x) eqn:E; [done|by rewrite E]. Qed.

Lemma dropWhile_idemp {A} (p : A → bool) l : dropWhile p (dropWhile p l) = dropWhile p l.
Proof. apply dropWhile_id, dropWhile_head. Qed.

(** Removing a suffix of a list whose first element is kept keeps it first,
    unless nothing is left. *)
Lemma rev_dropWhile_rev_take {A} (p : A → bool) l :
  ∃ k, rev (dropWhile p (rev l)) = take k l.
Proof.
  destruct (dropWhile_drop p (rev l)) as [k ->].
  exists (length l - k)%nat. by rewrite skipn_rev, rev_involutive.
Qed.

Lemma trim_runs_idemp p l : trim_runs p (trim_runs p l) = trim_runs p l.
Proof.
  unfold trim_runs. set (q := λ x, p (rune_of x)).
  set (m := dropWhile q l).
  assert (dropWhile q (rev (dropWhile q (rev m))) = rev (dropWhile q (rev m))) as ->.
  { apply dropWhile_id. pose proof (dropWhile_head q l) as Hm. fold m in Hm.
    destruct (rev_dropWhile_rev_take q m) as [k ->].
    destruct m as [|x m']; [by rewrite take_nil|]. by destruct k. }
  rewrite rev_involutive, dropWhile_idemp. done.
Qed.

(** Trimming keeps a contiguous part of the runs, so the trimmed text decodes
    to exactly those runs. *)
Lemma decode_trim p l :
  decode (concat (run_bytes <$> trim_runs p (decode l))) = trim_runs p (decode l).
Proof.
  unfold trim_runs. set (q := λ x, p (rune_of x)).
  destruct (dropWhile_drop q (decode l)) as [k Hk]. rewrite Hk.
  destruct (rev_dropWhile_rev_take q (drop k (decode l))) as [j ->].
  rewrite <-(decode_drop l k). rewrite decode_take. by rewrite decode_drop.
Qed.

Lemma run_bytes_range l :
  Forall (λ b, 0 ≤ b < 256) l → Forall (λ x, Forall (λ b, 0 ≤ b < 256) (run_bytes x)) (decode l).
Proof.
  intros Hl. rewrite <-(decode_bytes l) in Hl. revert Hl.
  generalize (decode l). induction l0 as [|x l0 IH]; [constructor|].
  rewrite fmap_cons. cbn [concat]. rewrite Forall_app. intros [? ?]. constructor; auto.
Qed.

Lemma trim_runs_sub p l x : x ∈ trim_runs p l → x ∈ l.
Proof.
  unfold trim_runs. set (q := λ x, p (rune_of x)).
  destruct (dropWhile_drop q l) as [k ->].
  destruct (rev_dropWhile_rev_take q (drop k l)) as [j ->].
  rewrite elem_of_take. intros (i & Hi & _). rewrite lookup_drop in Hi.
  apply list_elem_of_lookup. eauto.
Qed.

Lemma runs_of_runs_trim p s : runs (of_runs (trim_runs p (runs s))) = trim_runs p (runs s).
Proof.
  unfold runs, of_runs. rewrite bytes_of_of_bytes; [apply decode_trim|].
  apply Forall_concat, Forall_fmap, Forall_forall. intros x Hx.
  apply trim_runs_sub in Hx.
  pose proof (run_bytes_range _ (bytes_of_range s)) as H. rewrite Forall_forall in H. by apply H.
Qed.

Lemma TrimSpace_idemp s : strings_TrimSpace (strings_TrimSpace s) = strings_TrimSpace s.
Proof. unfold strings_TrimSpace. by rewrite runs_of_runs_trim, trim_runs_idemp. Qed.

(** *** ASCII text *)

Definition ascii_string (s : string) : Prop := Forall (λ c, code c < 128) (chars s).

Lemma decode_ascii l : Forall (λ b, b < 128) l → decode l = (λ b, RRune b [b]) <$> l.
Proof.
  induction 1 as [|b l Hb _ IH]; [done|]. cbn.
  rewrite (proj2 (Z.ltb_lt _ _) Hb). by rewrite IH.
Qed.

Lemma runs_ascii s : ascii_string s → runs s = (λ b, RRune b [b]) <$> bytes_of s.
Proof. intros H. apply decode_ascii, Forall_fmap. exact H. Qed.

Lemma runes_ascii s : ascii_string s → runes s = bytes_of s.
Proof.
  intros H. unfold runes. rewrite runs_ascii by done. rewrite <-list_fmap_compose.
  rewrite (list_fmap_ext _ id); [apply list_fmap_id|done].
Qed.

Lemma concat_singletons {A} (l : list A) : concat ((λ x, [x]) <$> l) = l.
Proof. induction l; [done|]. rewrite fmap_cons. cbn [concat app]. by f_equal. Qed.

Lemma of_runs_runs s : of_runs (runs s) = s.
Proof. unfold of_runs, runs. by rewrite decode_bytes, of_bytes_bytes_of. Qed.

(** A text none of whose code points is a space is its own trimming. *)
Lemma TrimSpace_id s : Forall (λ r, unicode_IsSpace r = false) (runes s) → strings_TrimSpace s = s.
Proof.
  intros H. unfold strings_TrimSpace.
  assert (trim_runs unicode_IsSpace (runs s) = runs s) as ->; [|apply of_runs_runs].
  unfold runes in H. rewrite Forall_fmap in H. unfold trim_runs.
  rewrite (dropWhile_id _ (runs s)) by (destruct (runs s); [done|by apply Forall_cons in H as [? _]]).
  rewrite dropWhile_id; [apply rev_involutive|].
  apply List.Forall_rev in H.
  destruct (rev (runs s)); [done|]. by apply Forall_cons in H as [? _].
Qed.

Lemma ToLower_id `{UnicodeTables} s :
  Forall (λ c, code c < 128 ∧ is_upper c = false) (chars s) → strings_ToLower s = s.
Proof.
  intros Hs. unfold strings_ToLower. rewrite runes_ascii by (unfold ascii_string; eapply Forall_impl; [exact Hs|by intros ? [? ?]]).
  rewrite (Forall_fmap_ext_1 _ (λ x, [x])).
  - by rewrite concat_singletons, of_bytes_bytes_of.
  - unfold bytes_of. apply Forall_fmap. eapply Forall_impl; [exact Hs|].
    intros c [Hc Hu]. unfold is_upper, between in Hu. unfold unicode_ToLower, encode_rune. cbn.
    pose proof (code_range c). rewrite (proj2 (Z.ltb_lt _ _) Hc), Hu.
    by rewrite (proj2 (Z.leb_le 0 _)), (proj2 (Z.ltb_lt _ 128)) by lia.
Qed.

(** *** Character classes *)

Lemma forallb_Forall {A} (p : A → bool) l : forallb p l = true ↔ Forall (λ x, p x = true) l.
Proof. rewrite List.forallb_forall, Forall_forall. setoid_rewrite list_elem_of_In. done. Qed.

Lemma all_chars_Forall p s : all_chars p s = true ↔ Forall (λ c, p c = true) (chars s).
Proof. apply forallb_Forall. Qed.

Lemma all_chars_app p s t : all_chars p (s +:+ t) = all_chars p s && all_chars p t.
Proof. unfold all_chars. by rewrite chars_app, forallb_app. Qed.

Lemma all_chars_impl (p q : ascii → bool) s :
  (∀ c, p c = true → q c = true) → all_chars p s = true → all_chars q s = true.
Proof. rewrite !all_chars_Forall. intros H Hs. eapply Forall_impl; eauto. Qed.

Lemma match_class_spec p lo hi s :
  match_class p lo hi s = true ↔ lo ≤ slen s ≤ hi ∧ all_chars p s = true.
Proof. unfold match_class. rewrite !andb_true_iff, !Z.leb_le. naive_solver. Qed.

(** A class decided byte by byte: the 256 characters are enumerated once. *)
Definition all_ascii : list ascii := (λ n, ascii_of_N (N.of_nat n)) <$> seq 0 256.

Lemma ascii_in_all c : c ∈ all_ascii.
Proof.
  unfold all_ascii. apply list_elem_of_fmap. exists (N.to_nat (N_of_ascii c)).
  rewrite N2Nat.id, ascii_N_embedding. split; [done|].
  apply elem_of_seq. pose proof (code_range c) as H. unfold code in H. lia.
Qed.

Lemma ascii_forall (p : ascii → bool) : forallb p all_ascii = true → ∀ c, p c = true.
Proof. intros H c. rewrite forallb_Forall, Forall_forall in H. apply H, ascii_in_all. Qed.

(** A property of every character that satisfies a boolean class. *)
Lemma class_forall (p q : ascii → bool) :
  forallb (λ c, implb (p c) (q c)) all_ascii = true → ∀ c, p c = true → q c = true.
Proof. intros H c Hc. pose proof (ascii_forall _ H c) as E. cbn in E. by rewrite Hc in E. Qed.

(** Printable ASCII without white space: what every identifier pattern of the
    program stays inside. *)
Definition plain (c : ascii) : bool := (33 <=? code c) && (code c <=? 126).

Lemma plain_ascii s : all_chars plain s = true → ascii_string s.
Proof.
  rewrite all_chars_Forall. intros H. eapply Forall_impl; [exact H|]. intros c. unfold plain.
  rewrite andb_true_iff, !Z.leb_le. lia.
Qed.

Lemma plain_TrimSpace s : all_chars plain s = true → strings_TrimSpace s = s.
Proof.
  intros H. apply TrimSpace_id. rewrite runes_ascii by (by apply plain_ascii).
  unfold bytes_of. apply Forall_fmap. rewrite all_chars_Forall in H.
  eapply Forall_impl; [exact H|]. intros c Hc. cbn.
  apply negb_true_iff. revert c Hc.
  apply (class_forall plain (λ c, negb (unicode_IsSpace (code c)))). vm_compute. done.
Qed.

Lemma plain_lower `{UnicodeTables} s :
  all_chars (λ c, plain c && negb (is_upper c)) s = true → strings_ToLower s = s.
Proof.
  rewrite all_chars_Forall. intros H'. apply ToLower_id. eapply Forall_impl; [exact H'|].
  intros c. unfold plain. rewrite !andb_true_iff, !Z.leb_le, negb_true_iff.
  intros [[? ?] ?]; split; [lia|done].
Qed.

(** *** Sorting and deduplication *)

#[global] Instance String_lt_strict : StrictOrder (strict String.le).
Proof. apply _. Qed.

Lemma sort_Strings_perm l : sort_Strings l ≡ₚ l.
Proof. apply merge_sort_Permutation. Qed.

Lemma sort_Strings_sorted l : StronglySorted String.le (sort_Strings l).
Proof. apply StronglySorted_merge_sort; apply _. Qed.

Lemma sort_Strings_id l : StronglySorted String.le l → sort_Strings l = l.
Proof.
  intros Hl. eapply (StronglySorted_unique String.le).
  - apply sort_Strings_sorted.
  - done.
  - apply sort_Strings_perm.
Qed.

Lemma elem_of_sort_Strings x l : x ∈ sort_Strings l ↔ x ∈ l.
Proof. by rewrite sort_Strings_perm. Qed.

Lemma dedup_go_elem seen l x : x ∈ dedup_go seen l ↔ x ∈ l ∧ x ∉ seen.
Proof.
  revert seen. induction l as [|y l IH]; intros seen; cbn; [set_solver|].
  case_bool_decide as Hy; rewrite ?elem_of_cons, IH; [set_solver|].
  destruct (decide (x = y)) as [->|]; set_solver.
Qed.

Lemma dedup_go_NoDup seen l : NoDup (dedup_go seen l).
Proof.
  revert seen. induction l as [|y l IH]; intros seen; cbn; [constructor|].
  case_bool_decide; [apply IH|]. constructor; [|apply IH].
  rewrite dedup_go_elem. set_solver.
Qed.

Lemma dedup_go_id seen l : NoDup l → (∀ x, x ∈ l → x ∉ seen) → dedup_go seen l = l.
Proof.
  revert seen. induction l as [|y l IH]; intros seen Hl Hs; [done|]. cbn.
  rewrite bool_decide_false by set_solver. f_equal.
  apply NoDup_cons in Hl as [? ?]. apply IH; set_solver.
Qed.

(** ** Prefixes *)

Lemma substring_full (s : string) : String.substring 0 (String.length s) s = s.
Proof. induction s as [|c s IH]; cbn; [done|]. by rewrite IH. Qed.

Lemma string_prefix_app p s : String.prefix p (p +:+ s) = true.
Proof.
  induction p as [|a p IH]; [by destruct s|].
  change (String a p +:+ s) with (String a (p +:+ s)). cbn [String.prefix].
  by destruct (Ascii.ascii_dec a a).
Qed.

Lemma substring_app p s :
  String.substring (String.length p) (String.length (p +:+ s) - String.length p) (p +:+ s) = s.
Proof.
  induction p as [|a p IH]; [|exact IH].
  change ("" +:+ s) with s. cbn [String.length]. rewrite Nat.sub_0_r. apply substring_full.
Qed.

Lemma CutPrefix_app p s : strings_CutPrefix (p +:+ s) p = Some s.
Proof. unfold strings_CutPrefix, strings_HasPrefix. by rewrite string_prefix_app, substring_app. Qed.

Lemma TrimPrefix_app p s : strings_TrimPrefix (p +:+ s) p = s.
Proof. unfold strings_TrimPrefix. by rewrite CutPrefix_app. Qed.

Lemma prefix_split p s : String.prefix p s = true → s = p +:+ slice_from s (String.length p).
Proof.
  unfold slice_from. revert s. induction p as [|a p IH]; intros s Hp.
  { cbn. symmetry. apply of_chars_chars. }
  destruct s as [|b s]; [done|]. cbn in Hp. destruct (Ascii.ascii_dec a b) as [->|]; [|done].
  change (String b s = String b (p +:+ of_chars (drop (String.length p) (chars s)))).
  f_equal. by apply IH.
Qed.

Lemma CutPrefix_Some p s t : strings_CutPrefix s p = Some t → s = p +:+ t.
Proof.
  unfold strings_CutPrefix, strings_HasPrefix. intros Hc. destruct (String.prefix p s) eqn:E; [|done].
  injection Hc as <-. assert (∃ u, s = p +:+ u) as [u ->] by (eexists; by apply prefix_split).
  by rewrite substring_app.
Qed.

Lemma append_inv_tail a b s : a +:+ s = b +:+ s → a = b.
Proof.
  intros H. apply (f_equal chars) in H. rewrite !chars_app in H. apply app_inv_tail in H.
  by rewrite <-(of_chars_chars a), H, of_chars_chars.
Qed.

Lemma append_assoc a b c : (a +:+ b) +:+ c = a +:+ b +:+ c.
Proof. induction a as [|x a IH]; [done|]. exact (f_equal (String x) IH). Qed.

(** ** Numbers *)

Lemma Atoi_bound s n : strconv_Atoi s = Some n → - 2 ^ 63 ≤ n < 2 ^ 63.
Proof.
  unfold strconv_Atoi. destruct (match chars s with [] => _ | _ :: _ => _ end) as [sign l].
  destruct l as [|c l]; [done|]. destruct (decimal _ _) as [m|]; [|done]. case_bool_decide as Hb; [|done].
  by intros [= <-].
Qed.
