(* ===== verification/Regexp.v ===== *)
(** * Regexp: the anchored regular expressions of the validators

    Go's [regexp] decides membership of the whole input for the patterns the
    program uses, all of which are anchored with [^] and [$].  A pattern is
    written here as a syntax tree that reads like its source text; [lang] says
    which inputs it accepts and [re_match] decides it with derivatives, so the
    validators stay executable.  The classes are ASCII, so matching bytes and
    matching code points agree. *)

From Stdlib Require Import ZArith Lia Ascii.
From stdpp Require Import sorting pretty numbers gmap strings list_numbers list.
From S2P Require Import Prelude GoStrings.

Inductive re :=
  | Empty
  | Eps
  | Class (p : ascii → bool)
  | Cat (r1 r2 : re)
  | Alt (r1 r2 : re)
  | Rep (r : re) (lo : nat) (hi : option nat).

Definition Star (r : re) : re := Rep r 0 None.
Definition Plus (r : re) : re := Rep r 1 None.
Definition Opt (r : re) : re := Rep r 0 (Some 1%nat).
(** [r{lo,hi}] *)
Definition Times (r : re) (lo hi : nat) : re := Rep r lo (Some hi).
Definition Lit (s : string) : re :=
  foldr (λ c r, Cat (Class (λ d, bool_decide (d = c))) r) Eps (chars s).

Definition within (n : nat) (hi : option nat) : Prop :=
  match hi with
  | None => True
  | Some h => (n ≤ h)%nat
  end.

(** ** The language of an expression *)

Fixpoint lang (r : re) (s : list ascii) : Prop :=
  match r with
  | Empty => False
  | Eps => s = []
  | Class p => ∃ c, s = [c] ∧ p c = true
  | Cat r1 r2 => ∃ s1 s2, s = s1 ++ s2 ∧ lang r1 s1 ∧ lang r2 s2
  | Alt r1 r2 => lang r1 s ∨ lang r2 s
  | Rep r1 lo hi =>
    ∃ ls, s = concat ls ∧ Forall (lang r1) ls ∧ (lo ≤ length ls)%nat ∧ within (length ls) hi
  end.

(** ** The matcher *)

Definition withinb (n : nat) (hi : option nat) : bool :=
  match hi with
  | None => true
  | Some h => bool_decide (n ≤ h)%nat
  end.

Fixpoint nullable (r : re) : bool :=
  match r with
  | Empty => false
  | Eps => true
  | Class _ => false
  | Cat r1 r2 => nullable r1 && nullable r2
  | Alt r1 r2 => nullable r1 || nullable r2
  | Rep r1 lo hi => bool_decide (lo = 0)%nat || nullable r1 && withinb lo hi
  end.

Definition cat (r1 r2 : re) : re :=
  match r1, r2 with
  | Empty, _ => Empty
  | _, Empty => Empty
  | Eps, _ => r2
  | _, _ => Cat r1 r2
  end.

Definition alt (r1 r2 : re) : re :=
  match r1, r2 with
  | Empty, _ => r2
  | _, Empty => r1
  | _, _ => Alt r1 r2
  end.

Fixpoint deriv (c : ascii) (r : re) : re :=
  match r with
  | Empty => Empty
  | Eps => Empty
  | Class p => if p c then Eps else Empty
  | Cat r1 r2 =>
    if nullable r1 then alt (cat (deriv c r1) r2) (deriv c r2) else cat (deriv c r1) r2
  | Alt r1 r2 => alt (deriv c r1) (deriv c r2)
  | Rep r1 lo hi =>
    match hi with
    | Some 0%nat => Empty
    | _ => cat (deriv c r1) (Rep r1 (pred lo) (pred <$> hi))
    end
  end.

Definition re_match (r : re) (s : string) : bool :=
  nullable (foldl (λ r c, deriv c r) r (chars s)).

(** ** The matcher decides the language *)

Lemma within_iff n hi : withinb n hi = true ↔ within n hi.
Proof. destruct hi; cbn; [apply bool_decide_eq_true|done]. Qed.

Lemma lang_Cat_Empty_l r s : lang (Cat Empty r) s ↔ False.
Proof. cbn. split; [|done]. by intros (? & ? & _ & ? & _). Qed.
Lemma lang_Cat_Empty_r r s : lang (Cat r Empty) s ↔ False.
Proof. cbn. split; [|done]. by intros (? & ? & _ & _ & ?). Qed.
Lemma lang_Cat_Eps r s : lang (Cat Eps r) s ↔ lang r s.
Proof.
  cbn. split; [by intros (? & ? & -> & -> & ?)|]. intros. by exists [], s.
Qed.

Lemma cat_lang r1 r2 s : lang (cat r1 r2) s ↔ lang (Cat r1 r2) s.
Proof.
  destruct r1; [by rewrite lang_Cat_Empty_l|destruct r2; by rewrite ?lang_Cat_Eps|..];
    (destruct r2; [by rewrite lang_Cat_Empty_r|..]; done).
Qed.

Lemma alt_lang r1 r2 s : lang (alt r1 r2) s ↔ lang (Alt r1 r2) s.
Proof.
  destruct r1; [cbn; tauto|..]; (destruct r2; [cbn; tauto|..]; done).
Qed.

Lemma concat_replicate_nil {A} n : concat (replicate n ([] : list A)) = [].
Proof. induction n; done. Qed.

Lemma concat_nil_inv {A} (ls : list (list A)) : concat ls = [] → Forall (.= []) ls.
Proof.
  induction ls as [|l ls IH]; [constructor|]. cbn. intros [-> ?]%app_nil. constructor; auto.
Qed.

Lemma nullable_lang r : nullable r = true ↔ lang r [].
Proof.
  induction r as [| |p|r1 IH1 r2 IH2|r1 IH1 r2 IH2|r1 IH1 lo hi]; cbn.
  - done.
  - done.
  - naive_solver.
  - rewrite andb_true_iff, IH1, IH2. split.
    + intros [? ?]. by exists [], [].
    + intros (s1 & s2 & [-> ->]%eq_sym%app_nil & ? & ?). done.
  - by rewrite orb_true_iff, IH1, IH2.
  - rewrite orb_true_iff, bool_decide_eq_true, andb_true_iff, IH1, within_iff. split.
    + intros [->|[H Hw]].
      * exists []. repeat split; [constructor|done|]. destruct hi; cbn; [lia|done].
      * exists (replicate lo []). rewrite concat_replicate_nil, length_replicate.
        repeat split; [|done|done]. by apply Forall_replicate.
    + intros (ls & Hc & Hall & Hlo & Hw). destruct lo as [|lo]; [by left|right].
      destruct ls as [|l ls]; [cbn in Hlo; lia|].
      pose proof (concat_nil_inv _ (eq_sym Hc)) as Hnil.
      apply Forall_cons_1 in Hnil as [-> _].
      apply Forall_cons_1 in Hall as [? _]. split; [done|]. destruct hi; cbn in *; [lia|done].
Qed.

(** In a concatenation that starts with [c], the piece that holds it can be
    moved to the front: the pieces before it are empty. *)
Lemma concat_cons_inv {A} (c : A) s (ls : list (list A)) :
  c :: s = concat ls →
  ∃ t ls', (c :: t) ∈ ls ∧ s = t ++ concat ls' ∧ length ls = S (length ls') ∧
    ∀ P, Forall P ls → Forall P ls'.
Proof.
  induction ls as [|l ls IH]; [done|]. cbn. destruct l as [|d l].
  - intros H. destruct (IH H) as (t & ls' & Hin & -> & Hlen & Hall).
    exists t, ([] :: ls'). repeat split; [set_solver|cbn; lia|].
    intros P [? ?]%Forall_cons_1. constructor; auto.
  - intros [= <- ->]. exists l, ls. repeat split; [set_solver|].
    by intros P [? ?]%Forall_cons_1.
Qed.

Lemma deriv_lang c r s : lang (deriv c r) s ↔ lang r (c :: s).
Proof.
  revert s. induction r as [| |p|r1 IH1 r2 IH2|r1 IH1 r2 IH2|r1 IH1 lo hi]; intros s; cbn.
  - done.
  - done.
  - destruct (p c) eqn:E; cbn; split.
    + intros ->. eauto.
    + by intros (d & [= <- ->] & ?).
    + done.
    + intros (d & [= <- ->] & ?). congruence.
  - assert (lang (cat (deriv c r1) r2) s ↔
      ∃ s1 s2, s = s1 ++ s2 ∧ lang r1 (c :: s1) ∧ lang r2 s2) as Hcat.
    { rewrite cat_lang. cbn. by setoid_rewrite IH1. }
    destruct (nullable r1) eqn:E.
    + rewrite alt_lang. cbn. rewrite Hcat, IH2. apply nullable_lang in E. split.
      * intros [(s1 & s2 & -> & ? & ?)|?]; [by exists (c :: s1), s2|by exists [], (c :: s)].
      * intros ([|d s1] & s2 & Heq & ? & ?); cbn in Heq; [right; by rewrite Heq|].
        injection Heq as <- ->. left. eauto.
    + rewrite Hcat. split.
      * intros (s1 & s2 & -> & ? & ?). by exists (c :: s1), s2.
      * intros ([|d s1] & s2 & Heq & H1 & ?); cbn in Heq.
        { apply nullable_lang in H1. congruence. }
        injection Heq as <- ->. eauto.
  - rewrite alt_lang. cbn. by rewrite IH1, IH2.
  - assert (lang (cat (deriv c r1) (Rep r1 (pred lo) (pred <$> hi))) s ↔
      ∃ t ls, s = t ++ concat ls ∧ lang r1 (c :: t) ∧ Forall (lang r1) ls ∧
        (pred lo ≤ length ls)%nat ∧ within (length ls) (pred <$> hi)) as Hcat.
    { rewrite cat_lang. cbn. setoid_rewrite IH1. split.
      - intros (t & s2 & -> & ? & ls & -> & ? & ? & ?). by exists t, ls.
      - intros (t & ls & -> & ? & ? & ? & ?). exists t, (concat ls). repeat split; [done|].
        by exists ls. }
    assert ((∃ t ls, s = t ++ concat ls ∧ lang r1 (c :: t) ∧ Forall (lang r1) ls ∧
        (lo ≤ S (length ls))%nat ∧ within (S (length ls)) hi) ↔
      ∃ ls, c :: s = concat ls ∧ Forall (lang r1) ls ∧ (lo ≤ length ls)%nat ∧
        within (length ls) hi) as Hmid.
    { split.
      - intros (t & ls & -> & ? & ? & ? & ?). exists ((c :: t) :: ls). cbn. auto.
      - intros (ls & Hc & Hall & Hlo & Hw).
        destruct (concat_cons_inv _ _ _ Hc) as (t & ls' & Hin & -> & Hlen & Hsub).
        exists t, ls'. rewrite <-Hlen. repeat split; auto.
        rewrite Forall_forall in Hall. by apply Hall. }
    rewrite <-Hmid. destruct hi as [[|h]|]; cbn.
    + split; [done|]. intros (t & ls & _ & _ & _ & _ & Hw). cbn in Hw. lia.
    + rewrite Hcat. cbn. split; intros (t & ls & ? & ? & ? & ? & ?); exists t, ls; repeat split; auto; lia.
    + rewrite Hcat. cbn. split; intros (t & ls & ? & ? & ? & ? & ?); exists t, ls; repeat split; auto; lia.
Qed.

(** [re_match] accepts exactly the language of the expression. *)
Lemma re_match_lang r s : re_match r s = true ↔ lang r (chars s).
Proof.
  unfold re_match. generalize (chars s) as l. intros l. revert r.
  induction l as [|c l IH]; intros r; cbn; [apply nullable_lang|].
  by rewrite IH, deriv_lang.
Qed.

(** ** Shapes the patterns share *)

Lemma lang_class_rep p lo hi s :
  lang (Rep (Class p) lo hi) s ↔ Forall (λ c, p c = true) s ∧ (lo ≤ length s)%nat ∧ within (length s) hi.
Proof.
  assert (∀ ls, Forall (lang (Class p)) ls → length (concat ls) = length ls ∧
    Forall (λ c, p c = true) (concat ls)) as H.
  { induction 1 as [|l ls (c & -> & Hc) _ [IH1 IH2]]; [done|]. cbn. rewrite IH1. auto. }
  cbn. split.
  - intros (ls & -> & Hall & Hlo & Hw). destruct (H _ Hall) as [-> ?]. done.
  - intros (Hall & Hlo & Hw). exists ((λ c, [c]) <$> s). rewrite concat_singletons, length_fmap.
    repeat split; [|done|done]. apply Forall_fmap. eapply Forall_impl; [exact Hall|]. cbn. eauto.
Qed.

(** [^[class]{lo,hi}$] is the length test and the class test. *)
Lemma re_match_class p (lo hi : nat) s :
  re_match (Times (Class p) lo hi) s = match_class p (Z.of_nat lo) (Z.of_nat hi) s.
Proof.
  apply eq_bool_prop_intro. rewrite !Is_true_true, re_match_lang. unfold Times.
  rewrite lang_class_rep, match_class_spec, all_chars_Forall, slen_chars. cbn. split.
  - intros (? & ? & ?). repeat split; [lia|lia|done].
  - intros [[? ?] ?]. repeat split; [done|lia|lia].
Qed.

Lemma lang_lit t s : lang (Lit t) s ↔ s = chars t.
Proof.
  unfold Lit. revert s. induction (chars t) as [|c l IH]; intros s; cbn; [done|].
  setoid_rewrite IH. split.
  - intros (s1 & s2 & -> & (d & -> & Hd) & ->). apply bool_decide_eq_true in Hd as ->. done.
  - intros ->. exists [c], l. repeat split. exists c. split; [done|]. by apply bool_decide_eq_true.
Qed.

(** ** Renaming characters, and expressions whose classes agree *)

Fixpoint re_map (f : ascii → ascii) (r : re) : re :=
  match r with
  | Empty => Empty
  | Eps => Eps
  | Class p => Class (λ c, p (f c))
  | Cat r1 r2 => Cat (re_map f r1) (re_map f r2)
  | Alt r1 r2 => Alt (re_map f r1) (re_map f r2)
  | Rep r1 lo hi => Rep (re_map f r1) lo hi
  end.

Fixpoint re_eqb (r1 r2 : re) : bool :=
  match r1, r2 with
  | Empty, Empty => true
  | Eps, Eps => true
  | Class p, Class q => forallb (λ c, Bool.eqb (p c) (q c)) all_ascii
  | Cat a b, Cat a' b' => re_eqb a a' && re_eqb b b'
  | Alt a b, Alt a' b' => re_eqb a a' && re_eqb b b'
  | Rep a lo hi, Rep a' lo' hi' => re_eqb a a' && bool_decide (lo = lo') && bool_decide (hi = hi')
  | _, _ => false
  end.

Lemma fmap_concat_inv {A B} (f : A → B) (l : list A) (ls : list (list B)) :
  f <$> l = concat ls →
  ∃ ks : list (list A), l = concat ks ∧ ls = (λ k : list A, f <$> k) <$> ks.
Proof.
  revert l. induction ls as [|x ls IH]; intros l H; cbn in H.
  - apply fmap_nil_inv in H as ->. by exists [].
  - apply fmap_app_inv in H as (l1 & l2 & -> & H2 & ->).
    destruct (IH l2) as (ks & -> & ->); [done|]. by exists (l1 :: ks).
Qed.

Lemma re_map_lang f r (l : list ascii) : lang (re_map f r) l ↔ lang r ((f <$> l) : list ascii).
Proof.
  revert l. induction r as [| |p|r1 IH1 r2 IH2|r1 IH1 r2 IH2|r1 IH1 lo hi]; intros l; cbn.
  - done.
  - split; [by intros ->|]. apply fmap_nil_inv.
  - split.
    + intros (c & -> & H). by exists (f c).
    + intros (c & H & Hp). destruct l as [|d [|??]]; simplify_eq/=. eauto.
  - setoid_rewrite IH1. setoid_rewrite IH2. split.
    + intros (s1 & s2 & -> & ? & ?). rewrite fmap_app. eauto.
    + intros (s1 & s2 & H & ? & ?). apply fmap_app_inv in H as (l1 & l2 & -> & -> & ->). eauto.
  - by rewrite IH1, IH2.
  - split.
    + intros (ls & -> & Hall & ? & ?). exists ((λ k : list ascii, f <$> k) <$> ls). rewrite length_fmap.
      repeat split; [|apply Forall_fmap; eapply Forall_impl; [exact Hall|intros; by apply IH1]|done..].
      clear -f. induction ls; [done|]. cbn. by rewrite fmap_app, IHls.
    + intros (ls & H & Hall & ? & ?). apply fmap_concat_inv in H as (ks & -> & ->).
      exists ks. rewrite length_fmap in *. repeat split; [|done..].
      rewrite Forall_fmap in Hall. eapply Forall_impl; [exact Hall|]. intros k Hk. by apply IH1.
Qed.

Lemma re_eqb_lang r1 r2 : re_eqb r1 r2 = true → ∀ l, lang r1 l ↔ lang r2 l.
Proof.
  revert r2. induction r1 as [| |p|a IHa b IHb|a IHa b IHb|a IHa lo hi]; intros [] H l;
    try discriminate H; cbn in H |- *.
  - done.
  - done.
  - assert (∀ c, p c = p0 c) as E.
    { intros c. apply Bool.eqb_prop. revert c. by apply ascii_forall. }
    by setoid_rewrite E.
  - apply andb_true_iff in H as [H1 H2]. setoid_rewrite (IHa _ H1). by setoid_rewrite (IHb _ H2).
  - apply andb_true_iff in H as [H1 H2]. by rewrite (IHa _ H1), (IHb _ H2).
  - rewrite !andb_true_iff in H. destruct H as [[H1 ->%bool_decide_eq_true] ->%bool_decide_eq_true].
    assert (∀ ls, Forall (lang a) ls ↔ Forall (lang r) ls) as E.
    { intros ls. apply Forall_iff. intros x. by apply IHa. }
    by setoid_rewrite E.
Qed.

(** Every character of an accepted input belongs to some class of the
    expression. *)
Fixpoint re_alphabet (q : ascii → bool) (r : re) : bool :=
  match r with
  | Empty | Eps => true
  | Class p => forallb (λ c, implb (p c) (q c)) all_ascii
  | Cat r1 r2 | Alt r1 r2 => re_alphabet q r1 && re_alphabet q r2
  | Rep r1 _ _ => re_alphabet q r1
  end.

Lemma re_alphabet_lang q r l :
  re_alphabet q r = true → lang r l → Forall (λ c, q c = true) l.
Proof.
  revert l. induction r as [| |p|r1 IH1 r2 IH2|r1 IH1 r2 IH2|r1 IH1 lo hi]; intros l Hq; cbn in *.
  - done.
  - intros ->. constructor.
  - intros (c & -> & Hp). constructor; [|constructor]. by eapply (class_forall p q).
  - apply andb_true_iff in Hq as [? ?]. intros (s1 & s2 & -> & ? & ?). apply Forall_app. auto.
  - apply andb_true_iff in Hq as [? ?]. intros [?|?]; auto.
  - intros (ls & -> & Hall & _). apply Forall_concat. eapply Forall_impl; [exact Hall|]. auto.
Qed.

Lemma re_alphabet_match q r s :
  re_alphabet q r = true → re_match r s = true → all_chars q s = true.
Proof. rewrite re_match_lang, all_chars_Forall. apply re_alphabet_lang. Qed.
