(* ===== verification/RepoSlug.v ===== *)
(** * RepoSlug: the repository key grammar (internal/reposlug)

    One grammar decides which owner names, repository names, repository keys
    and repository scopes are valid, and every other component calls it.  The
    patterns are written as [re] trees; the published schema pattern, which is
    built by unrolling a repeat, is proved to accept exactly what the validator
    accepts. *)

From Stdlib Require Import ZArith Lia Ascii.
From stdpp Require Import sorting pretty numbers gmap strings list_numbers list.
From S2P Require Import Prelude GoStrings Regexp.

Open Scope Z_scope.

(** ** Patterns *)

Definition lower_alnum (c : ascii) : bool := is_lower c || is_digit c.
Definition name_char (c : ascii) : bool := lower_alnum c || one_of ["."; "_"; "-"]%char c.

(** [([a-z0-9]|[a-z0-9.][a-z0-9._-]{0,98}[a-z0-9])] *)
Definition NamePattern : re :=
  Alt (Class lower_alnum)
    (Cat (Class (λ c, lower_alnum c || one_of ["."]%char c))
       (Cat (Times (Class name_char) 0 98) (Class lower_alnum))).

(** [^[a-z0-9](?:[a-z0-9._-]{0,98}[a-z0-9])?$] *)
Definition ownerPattern : re :=
  Cat (Class lower_alnum)
    (Opt (Cat (Times (Class name_char) 0 98) (Class lower_alnum))).

Definition namePattern : re := NamePattern.

Definition ValidOwner (part : string) : bool := re_match ownerPattern part.
Definition ValidName (part : string) : bool := re_match namePattern part.

Definition Fault (part : string) (owner : bool) : string :=
  if bool_decide (part = "") then "empty"
  else if negb owner && (bool_decide (part = ".") || bool_decide (part = ".."))
  then "reserved path name"
  else if 100 <? slen part then "longer than 100 characters"
  else if (owner && ValidOwner part) || (negb owner && ValidName part) then ""
  else "must start with a letter or digit (a leading '.' is allowed for a repository name), end with a letter or digit, and contain only letters, digits, '.', '_' and '-'".

Definition MaxSlugSegments : nat := 20.
Definition MaxSlugBytes : Z := 255.

(** [([a-z0-9]|[a-z0-9][a-z0-9._-]*[a-z0-9])] *)
Definition groupPattern : re :=
  Alt (Class lower_alnum)
    (Cat (Class lower_alnum) (Cat (Star (Class name_char)) (Class lower_alnum))).

Definition SlugPattern : re :=
  Cat groupPattern
    (Cat (Times (Cat (Lit "/") groupPattern) 0 18) (Cat (Lit "/") NamePattern)).

Definition ValidSlug (slug : string) : bool :=
  if MaxSlugBytes <? slen slug then false
  else
    let parts := strings_Split slug "/"%char in
    if bool_decide (length parts < 2)%nat || bool_decide (MaxSlugSegments < length parts)%nat
    then false
    else forallb ValidOwner (take (length parts - 1) parts) && ValidName (default "" (last parts)).

Definition ValidScope (scope : string) : bool :=
  if bool_decide (scope = "*") then true
  else
    match strings_CutSuffix scope "/*" with
    | Some owner => ValidOwner owner
    | None => ValidSlug scope
    end.

Definition lower_byte (c : ascii) : ascii := if is_upper c then chr (code c + 32) else c.

(** The scan looks for the first upper-case byte and folds from there on. *)
Fixpoint Lower_scan (l : list ascii) : list ascii :=
  match l with
  | [] => []
  | c :: l' => if is_upper c then lower_byte <$> l else c :: Lower_scan l'
  end.
Definition Lower (s : string) : string := of_chars (Lower_scan (chars s)).

Definition ValidSlugFolded (slug : string) : bool := ValidSlug (Lower slug).

(** [SchemaSlugPattern]: the group repeat unrolled by the loop that builds the
    pattern text. *)
Definition any_alnum (c : ascii) : bool := is_upper c || is_lower c || is_digit c.
Definition any_name_char (c : ascii) : bool := any_alnum c || one_of ["."; "_"; "-"]%char c.

Definition schema_group : re :=
  Cat (Class any_alnum) (Opt (Cat (Times (Class any_name_char) 0 98) (Class any_alnum))).
Definition schema_last : re :=
  Alt (Class any_alnum)
    (Cat (Class (λ c, any_alnum c || one_of ["."]%char c))
       (Cat (Times (Class any_name_char) 0 98) (Class any_alnum))).

Fixpoint schema_nest (i : nat) : re :=
  match i with
  | O => Eps
  | S i' => Opt (Cat (Lit "/") (Cat schema_group (schema_nest i')))
  end.

Definition schemaSlugPattern : re :=
  Cat schema_group (Cat (schema_nest (MaxSlugSegments - 2)) (Cat (Lit "/") schema_last)).

(** ** Splitting on the separator *)

Fixpoint join_chars (sep : ascii) (ws : list (list ascii)) : list ascii :=
  match ws with
  | [] => []
  | [w] => w
  | w :: ws' => w ++ sep :: join_chars sep ws'
  end.

Lemma split_chars_ne sep l : split_chars sep l ≠ [].
Proof. destruct l; cbn; [done|]. destruct (split_chars sep l); [done|]. by case_bool_decide. Qed.

Lemma join_split sep l : join_chars sep (split_chars sep l) = l.
Proof.
  induction l as [|c l IH]; [done|]. cbn.
  destruct (split_chars sep l) as [|w ws] eqn:E; [by apply split_chars_ne in E|].
  case_bool_decide as Hc; subst.
  - done.
  - destruct ws; done.
Qed.

Lemma split_chars_pieces sep l : Forall (λ w, sep ∉ w) (split_chars sep l).
Proof.
  induction l as [|c l IH]; cbn; [repeat constructor; set_solver|].
  destruct (split_chars sep l) as [|w ws]; [repeat constructor; set_solver|].
  apply Forall_cons_1 in IH as [? ?]. case_bool_decide; repeat constructor; set_solver.
Qed.

Lemma split_chars_app sep w l :
  sep ∉ w → split_chars sep (w ++ sep :: l) = w :: split_chars sep l.
Proof.
  induction w as [|c w IH]; intros Hw; cbn.
  - destruct (split_chars sep l) eqn:E; [by apply split_chars_ne in E|]. by rewrite bool_decide_true.
  - rewrite IH by set_solver. by rewrite bool_decide_false by set_solver.
Qed.

Lemma split_chars_single sep w : sep ∉ w → split_chars sep w = [w].
Proof.
  induction w as [|c w IH]; intros Hw; cbn; [done|].
  rewrite IH by set_solver. by rewrite bool_decide_false by set_solver.
Qed.

Lemma split_join sep ws : ws ≠ [] → Forall (λ w, sep ∉ w) ws → split_chars sep (join_chars sep ws) = ws.
Proof.
  induction ws as [|w ws IH]; [done|]. intros _ [Hw Hws]%Forall_cons_1.
  destruct ws as [|w' ws].
  - by apply split_chars_single.
  - change (join_chars sep (w :: w' :: ws)) with (w ++ sep :: join_chars sep (w' :: ws)).
    rewrite split_chars_app by done. f_equal. by apply IH.
Qed.

(** A key is a list of groups and a final name, joined by the separator. *)
Lemma join_groups sep gs n :
  join_chars sep (gs ++ [n]) = concat ((λ g, g ++ [sep]) <$> gs) ++ n.
Proof.
  induction gs as [|g gs IH]; [done|]. rewrite fmap_cons. cbn [concat].
  rewrite <-!app_assoc. cbn [app]. rewrite <-IH. by destruct gs.
Qed.

Lemma groups_slash_shift (sep : ascii) (g : list ascii) gs :
  concat ((λ g, g ++ [sep]) <$> (g :: gs)) = g ++ concat ((λ g, sep :: g) <$> gs) ++ [sep].
Proof.
  revert g. induction gs as [|h gs IH]; intros g; [cbn; by rewrite app_nil_r|].
  change (concat ((λ g, g ++ [sep]) <$> (g :: h :: gs))) with
    ((g ++ [sep]) ++ concat ((λ g, g ++ [sep]) <$> (h :: gs))).
  rewrite IH, fmap_cons. cbn [concat]. by rewrite <-!app_assoc.
Qed.

Definition no_slash (c : ascii) : bool := negb (bool_decide (c = "/"%char)).

Lemma no_slash_not_elem l : Forall (λ c, no_slash c = true) l → "/"%char ∉ l.
Proof.
  intros H Hin. rewrite Forall_forall in H. apply H in Hin. by apply negb_true_iff, bool_decide_eq_false in Hin.
Qed.

(** The shape of a whole key: [groups] separated by slashes, then a name. *)
Lemma keys_lang g nm n l :
  re_alphabet no_slash g = true → re_alphabet no_slash nm = true →
  lang (Cat g (Cat (Times (Cat (Lit "/") g) 0 n) (Cat (Lit "/") nm))) l ↔
  ∃ gs x, split_chars "/" l = gs ++ [x] ∧ (1 ≤ length gs ≤ S n)%nat ∧
    Forall (lang g) gs ∧ lang nm x.
Proof.
  intros Hg Hnm.
  assert (∀ w, lang g w → "/"%char ∉ w) as Hg'
    by (intros w Hw; apply no_slash_not_elem; exact (re_alphabet_lang _ _ _ Hg Hw)).
  assert (∀ w, lang nm w → "/"%char ∉ w) as Hnm'
    by (intros w Hw; apply no_slash_not_elem; exact (re_alphabet_lang _ _ _ Hnm Hw)).
  assert (∀ w, lang (Cat (Lit "/") g) w ↔ ∃ v, w = "/"%char :: v ∧ lang g v) as Hsl.
  { intros w. split.
    - intros (s1 & s2 & -> & ->%lang_lit & ?). by exists s2.
    - intros (v & -> & ?). exists ["/"%char], v. repeat split; [|done]. by apply lang_lit. }
  split.
  - intros (s1 & s2 & -> & H1 & s3 & s4 & -> & (ls & -> & Hls & _ & Hlen) & s5 & s6 & -> & H5 & H6).
    apply lang_lit in H5 as ->.
    assert (∃ gs, ls = (λ v, "/"%char :: v) <$> gs ∧ Forall (lang g) gs) as (gs & -> & Hgs).
    { clear Hlen. induction Hls as [|w ls Hw _ (gs & -> & ?)]; [by exists []|].
      apply Hsl in Hw as (v & -> & ?). exists (v :: gs). split; [done|by constructor]. }
    exists (s1 :: gs), s6. rewrite length_fmap in Hlen. cbn in Hlen.
    repeat split; [|cbn; lia|cbn; lia|by constructor|done].
    rewrite <-(split_join "/"%char ((s1 :: gs) ++ [s6])).
    + f_equal. rewrite join_groups, groups_slash_shift, <-!app_assoc. done.
    + by destruct gs.
    + apply Forall_app. split; [|by constructor; auto].
      constructor; [auto|]. eapply Forall_impl; [exact Hgs|]. auto.
  - intros (gs & x & Hsp & Hlen & Hgs & Hx).
    assert (l = join_chars "/" (gs ++ [x])) as -> by (by rewrite <-Hsp, join_split).
    destruct gs as [|g0 gs]; [cbn in Hlen; lia|]. apply Forall_cons_1 in Hgs as [Hg0 Hgs].
    rewrite join_groups, groups_slash_shift, <-!app_assoc.
    eexists g0, _. split; [reflexivity|]. split; [done|].
    eexists _, ("/"%char :: x). split; [reflexivity|]. split.
    + exists ((λ v, "/"%char :: v) <$> gs). rewrite length_fmap. cbn in Hlen.
      repeat split; [|lia|cbn; lia]. apply Forall_fmap. eapply Forall_impl; [exact Hgs|].
      intros v Hv. apply Hsl. eauto.
    + exists ["/"%char], x. repeat split; [|done]. by apply lang_lit.
Qed.

Lemma last_split {A} (l : list A) :
  l ≠ [] → ∃ x, last l = Some x ∧ l = take (length l - 1) l ++ [x].
Proof.
  intros Hl. destruct (last l) as [x|] eqn:E.
  - exists x. split; [done|]. apply last_Some in E as [l' ->].
    rewrite length_app. cbn. replace (length l' + 1 - 1)%nat with (length l') by lia.
    by rewrite take_app_length.
  - by apply last_None in E.
Qed.

Lemma ValidSlug_spec s :
  ValidSlug s = true ↔ slen s ≤ MaxSlugBytes ∧
  ∃ gs x, split_chars "/" (chars s) = gs ++ [x] ∧ (1 ≤ length gs ≤ 19)%nat ∧
    Forall (lang ownerPattern) gs ∧ lang namePattern x.
Proof.
  unfold ValidSlug. destruct (MaxSlugBytes <? slen s) eqn:Eb.
  { apply Z.ltb_lt in Eb. split; [done|]. lia. }
  apply Z.ltb_ge in Eb. unfold strings_Split. rewrite length_fmap.
  destruct (last_split _ (split_chars_ne "/" (chars s))) as (x & Hlast & Hsp).
  revert Hlast Hsp. generalize (split_chars "/" (chars s)) as ws. intros ws Hlast Hsp.
  rewrite fmap_last, Hlast. cbn [fmap option_fmap option_map from_option].
  rewrite <-fmap_take.
  assert (ValidName (of_chars x) = true ↔ lang namePattern x) as Hn
    by (unfold ValidName; by rewrite re_match_lang, chars_of_chars).
  assert (∀ l, forallb ValidOwner (of_chars <$> l) = true ↔ Forall (lang ownerPattern) l) as Ho.
  { intros l. rewrite forallb_Forall, Forall_fmap. apply Forall_iff. intros w. cbn.
    unfold ValidOwner. by rewrite re_match_lang, chars_of_chars. }
  unfold MaxSlugSegments.
  destruct (bool_decide (length ws < 2)%nat || bool_decide (20 < length ws)%nat) eqn:El.
  - split; [done|]. intros (_ & gs & y & -> & Hlen & _). rewrite length_app in El. cbn in El.
    apply orb_true_iff in El. rewrite !bool_decide_eq_true in El. lia.
  - apply orb_false_iff in El. rewrite !bool_decide_eq_false in El.
    rewrite andb_true_iff, Ho, Hn. split.
    + intros [? ?]. split; [done|]. exists (take (length ws - 1) ws), x.
      repeat split; [done|rewrite length_take; lia|rewrite length_take; lia|done|done].
    + intros (_ & gs & y & -> & Hlen & Hgs & Hy). rewrite last_snoc in Hlast.
      injection Hlast as ->. rewrite length_app. cbn [length].
      replace (length gs + 1 - 1)%nat with (length gs) by lia. by rewrite take_app_length.
Qed.

(** ** The owner and name grammars *)

Lemma lang_ends p q r l :
  lang (Cat (Class p) (Cat (Times (Class q) 0 98) (Class r))) l ↔
  ∃ a m z, l = a :: m ++ [z] ∧ p a = true ∧ Forall (λ c, q c = true) m ∧ r z = true ∧
    (length m ≤ 98)%nat.
Proof.
  split.
  - intros (s1 & s2 & -> & (a & -> & Ha) & s3 & s4 & -> & H3 & (z & -> & Hz)).
    apply lang_class_rep in H3 as (? & _ & Hm). cbn in Hm. exists a, s3, z. auto.
  - intros (a & m & z & -> & Ha & Hm & Hz & Hlen). exists [a], (m ++ [z]).
    split; [done|]. split; [by exists a|]. exists m, [z]. split; [done|].
    split; [|by exists z]. apply lang_class_rep. repeat split; [done|lia|cbn; lia].
Qed.

Lemma lang_Opt r l : lang (Opt r) l ↔ l = [] ∨ lang r l.
Proof.
  unfold Opt. cbn. split.
  - intros ([|x [|??]] & -> & Hall & _ & Hlen); cbn in *; [by left| |lia].
    right. rewrite app_nil_r. by apply Forall_cons_1 in Hall as [? _].
  - intros [->|?]; [by exists []; repeat split; [constructor|lia|cbn; lia]|].
    exists [l]. cbn. rewrite app_nil_r. repeat split; [by repeat constructor|lia|lia].
Qed.

Lemma lang_Cat_Class p r l :
  lang (Cat (Class p) r) l ↔ ∃ a m, l = a :: m ∧ p a = true ∧ lang r m.
Proof.
  split.
  - intros (s1 & s2 & -> & (a & -> & Ha) & ?). by exists a, s2.
  - intros (a & m & -> & Ha & ?). exists [a], m. repeat split; [by exists a|done].
Qed.

Lemma lang_owner l :
  lang ownerPattern l ↔
  (∃ a, l = [a] ∧ lower_alnum a = true) ∨
  ∃ a m z, l = a :: m ++ [z] ∧ lower_alnum a = true ∧ Forall (λ c, name_char c = true) m ∧
    lower_alnum z = true ∧ (length m ≤ 98)%nat.
Proof.
  rewrite <-lang_ends. unfold ownerPattern. rewrite !lang_Cat_Class. setoid_rewrite lang_Opt. split.
  - intros (a & m & -> & Ha & [->|?]); [left; eauto|right; eauto].
  - intros [(a & -> & Ha)|(a & m & -> & Ha & ?)]; eauto 10.
Qed.

Lemma owner_length l : lang ownerPattern l → (1 ≤ length l ≤ 100)%nat.
Proof.
  intros [(a & -> & _)|(a & m & z & -> & _ & _ & _ & ?)]%lang_owner; cbn; [lia|].
  rewrite length_app. cbn. lia.
Qed.

Lemma name_length l : lang namePattern l → (1 ≤ length l ≤ 100)%nat.
Proof.
  intros [(a & -> & _)|(a & m & z & -> & _ & _ & _ & ?)%lang_ends]; cbn; [lia|].
  rewrite length_app. cbn. lia.
Qed.

(** A part is valid exactly when no fault is named for it: the explanation and
    the decision cannot disagree. *)
Lemma Fault_spec part owner :
  Fault part owner = "" ↔ (if owner then ValidOwner part else ValidName part) = true.
Proof.
  assert (∀ b, (if owner then ValidOwner part else ValidName part) = b →
    (owner && ValidOwner part || negb owner && ValidName part) = b) as Hv.
  { intros b <-. destruct owner; cbn; [by rewrite orb_false_r|done]. }
  unfold Fault. destruct (if owner then ValidOwner part else ValidName part) eqn:E.
  - rewrite (Hv _ eq_refl). split; [done|]. intros _.
    assert ((1 ≤ length (chars part) ≤ 100)%nat) as Hlen.
    { destruct owner; unfold ValidOwner, ValidName in E; rewrite re_match_lang in E;
        [by apply owner_length|by apply name_length]. }
    rewrite bool_decide_false by (intros ->; cbn in Hlen; lia).
    assert (negb owner && (bool_decide (part = ".") || bool_decide (part = "..")) = false) as ->.
    { destruct owner; [done|]. cbn. apply orb_false_iff.
      split; apply bool_decide_eq_false; intros ->; vm_compute in E; done. }
    rewrite slen_chars. by rewrite (proj2 (Z.ltb_ge _ _)) by lia.
  - rewrite (Hv _ eq_refl). repeat case_match; done.
Qed.

(** ** The published schema pattern *)

Lemma schema_nest_lang i l :
  lang (schema_nest i) l ↔ lang (Times (Cat (Lit "/") schema_group) 0 i) l.
Proof.
  revert l. induction i as [|i IH]; intros l.
  - split.
    + intros Hl. cbn in Hl. subst l. exists []. split; [done|].
      split; [apply List.Forall_nil|]. cbn; lia.
    + intros ([|??] & -> & _ & _ & ?); [done|]. cbn in *; lia.
  - cbn [schema_nest]. rewrite lang_Opt. split.
    + intros [->|(s1 & s2 & -> & H1 & s3 & s4 & -> & H3 & H4)].
      { exists []. split; [done|]. split; [apply List.Forall_nil|]. cbn; lia. }
      apply IH in H4 as (ls & -> & Hls & _ & Hlen). exists ((s1 ++ s3) :: ls).
      cbn [concat]. rewrite <-app_assoc. cbn in Hlen |- *. repeat split; [|lia|lia].
      constructor; [by exists s1, s3|done].
    + intros ([|x ls] & -> & Hls & _ & Hlen); [by left|right].
      apply Forall_cons_1 in Hls as [(s1 & s3 & -> & H1 & H3) Hls].
      cbn [concat]. rewrite <-app_assoc. eexists s1, _. split; [done|]. split; [done|].
      eexists s3, _. split; [done|]. split; [done|]. apply IH. exists ls. cbn in *.
      repeat split; [done|lia|lia].
Qed.

Lemma Lower_scan_fmap (l : list ascii) : Lower_scan l = (lower_byte <$> l : list ascii).
Proof.
  induction l as [|c l IH]; [done|]. cbn. destruct (is_upper c) eqn:E; [done|].
  rewrite IH. unfold lower_byte at 2. by rewrite E.
Qed.

Lemma Lower_chars s : chars (Lower s) = (lower_byte <$> chars s : list ascii).
Proof. unfold Lower. by rewrite chars_of_chars, Lower_scan_fmap. Qed.

Lemma Lower_slen s : slen (Lower s) = slen s.
Proof. by rewrite !slen_chars, Lower_chars, length_fmap. Qed.

Lemma lower_slash c : lower_byte c = "/"%char ↔ c = "/"%char.
Proof.
  split; [|by intros ->]. intros H. apply (bool_decide_eq_true (c = _)).
  revert H. rewrite <-(bool_decide_eq_true (lower_byte c = _)). revert c.
  apply (class_forall (λ c, bool_decide (lower_byte c = "/"%char)) (λ c, bool_decide (c = "/"%char))).
  by vm_compute.
Qed.

Lemma split_lower (l : list ascii) :
  split_chars "/" (lower_byte <$> l : list ascii) =
  ((λ w : list ascii, lower_byte <$> w : list ascii) <$> split_chars "/" l : list (list ascii)).
Proof.
  induction l as [|c l IH]; [done|]. cbn [fmap list_fmap split_chars] in *. rewrite IH.
  destruct (split_chars "/" l) as [|w ws]; [done|]. cbn [fmap list_fmap].
  destruct (bool_decide (c = "/"%char)) eqn:E.
  - apply bool_decide_eq_true in E as ->. by rewrite bool_decide_true.
  - rewrite bool_decide_false; [done|]. apply bool_decide_eq_false in E. by rewrite lower_slash.
Qed.

Lemma schema_group_lang (l : list ascii) :
  lang schema_group l ↔ lang ownerPattern (lower_byte <$> l : list ascii).
Proof.
  rewrite <-re_map_lang. apply re_eqb_lang. by vm_compute.
Qed.

Lemma schema_last_lang (l : list ascii) :
  lang schema_last l ↔ lang namePattern (lower_byte <$> l : list ascii).
Proof.
  rewrite <-re_map_lang. apply re_eqb_lang. by vm_compute.
Qed.

Lemma lang_Cat_ext r1 r1' r2 r2' l :
  (∀ x, lang r1 x ↔ lang r1' x) → (∀ x, lang r2 x ↔ lang r2' x) →
  lang (Cat r1 r2) l ↔ lang (Cat r1' r2') l.
Proof. intros H1 H2. cbn. by setoid_rewrite H1; setoid_rewrite H2. Qed.

Lemma schema_lang l :
  lang schemaSlugPattern l ↔
  ∃ gs x, split_chars "/" l = gs ++ [x] ∧ (1 ≤ length gs ≤ 19)%nat ∧
    Forall (lang schema_group) gs ∧ lang schema_last x.
Proof.
  rewrite <-keys_lang; [|by vm_compute..]. unfold schemaSlugPattern.
  apply lang_Cat_ext; [done|]. intros x. apply lang_Cat_ext; [|done].
  intros y. apply schema_nest_lang.
Qed.

(** The pattern every published schema carries for a repository key, with
    its length bound, accepts exactly the keys that [ValidSlugFolded] accepts:
    a request the schema admits is never refused by the validator and none it
    refuses is admitted. *)
Theorem schema_pattern_agrees s :
  (slen s <=? MaxSlugBytes) && re_match schemaSlugPattern s = ValidSlugFolded s.
Proof.
  apply eq_true_iff_eq. unfold ValidSlugFolded.
  rewrite andb_true_iff, Z.leb_le, re_match_lang, ValidSlug_spec, Lower_slen, schema_lang.
  apply and_iff_compat_l. rewrite Lower_chars, split_lower. split.
  - intros (gs & x & -> & Hlen & Hgs & Hx).
    exists (fmap (M := list) lower_byte <$> gs), (lower_byte <$> x).
    rewrite fmap_app, length_fmap. split; [done|]. split; [done|]. split.
    + apply Forall_fmap. eapply Forall_impl; [exact Hgs|]. intros w. apply schema_group_lang.
    + by apply schema_last_lang.
  - intros (gs & x & Heq & Hlen & Hgs & Hx).
    apply fmap_app_inv in Heq as (gs' & xs & -> & Hxs & ->).
    destruct xs as [|x' [|??]]; [done| |done]. injection Hxs as ->.
    rewrite length_fmap in Hlen. exists gs', x'. split; [done|]. split; [done|]. split.
    + rewrite Forall_fmap in Hgs. eapply Forall_impl; [exact Hgs|]. intros w. apply schema_group_lang.
    + by apply schema_last_lang.
Qed.

(** ** The query-side pattern *)

Lemma groupPattern_lang l :
  lang ownerPattern l ↔ lang groupPattern l ∧ (length l ≤ 100)%nat.
Proof.
  rewrite lang_owner. unfold groupPattern. cbn [lang].
  assert (lang (Cat (Class lower_alnum) (Cat (Star (Class name_char)) (Class lower_alnum))) l ↔
    ∃ a m z, l = a :: m ++ [z] ∧ lower_alnum a = true ∧ Forall (λ c, name_char c = true) m ∧
      lower_alnum z = true) as Hm.
  { split.
    - intros (s1 & s2 & -> & (a & -> & Ha) & s3 & s4 & -> & H3 & (z & -> & Hz)).
      apply lang_class_rep in H3 as (? & _ & _). exists a, s3, z. auto.
    - intros (a & m & z & -> & Ha & Hm & Hz). exists [a], (m ++ [z]).
      split; [done|]. split; [by exists a|]. exists m, [z]. split; [done|].
      split; [|by exists z]. apply lang_class_rep. repeat split; [done|lia]. }
  cbn [lang] in Hm. rewrite Hm. split.
  - intros [(a & -> & ?)|(a & m & z & -> & ? & ? & ? & ?)].
    + cbn. split; [eauto|lia].
    + cbn. rewrite length_app. cbn. split; [eauto 10|lia].
  - intros [[(a & -> & ?)|(a & m & z & -> & ? & ? & ?)] Hlen]; [eauto|].
    cbn in Hlen. rewrite length_app in Hlen. cbn in Hlen. right. exists a, m, z. repeat split; auto; lia.
Qed.

Lemma SlugPattern_segments s :
  slen s ≤ MaxSlugBytes →
  Forall (λ w, (length w ≤ 100)%nat) (split_chars "/" (chars s)) →
  re_match SlugPattern s = ValidSlug s.
Proof.
  intros Hb Hseg. apply eq_true_iff_eq. rewrite re_match_lang, ValidSlug_spec.
  unfold SlugPattern. rewrite keys_lang by (by vm_compute). split.
  - intros (gs & x & Hsp & Hlen & Hgs & Hx). split; [done|]. exists gs, x.
    rewrite Hsp, Forall_app in Hseg. destruct Hseg as [Hseg _].
    repeat split; [done|lia|lia| |done].
    rewrite Forall_forall in Hgs, Hseg |- *. intros w Hw. apply groupPattern_lang. auto.
  - intros (_ & gs & x & Hsp & Hlen & Hgs & Hx). exists gs, x.
    repeat split; [done|lia|lia| |done].
    eapply Forall_impl; [exact Hgs|]. intros w. by intros [? _]%groupPattern_lang.
Qed.

(** ** Scopes are already normal: folding and trimming leave them alone *)

Definition scope_char (c : ascii) : bool := name_char c || one_of ["/"; "*"]%char c.

Lemma scope_char_plain c : scope_char c = true → plain c && negb (is_upper c) = true.
Proof. revert c. apply class_forall. by vm_compute. Qed.

Lemma ValidOwner_chars part : ValidOwner part = true → all_chars scope_char part = true.
Proof.
  intros H. unfold ValidOwner in H. eapply re_alphabet_match; [|exact H]. by vm_compute.
Qed.

Lemma join_chars_Forall (P : ascii → Prop) sep ws :
  P sep → Forall (Forall P) ws → Forall P (join_chars sep ws).
Proof.
  intros Hs. induction 1 as [|w ws Hw Hws IH]; [constructor|]. cbn.
  destruct ws; [done|]. apply Forall_app. split; [done|]. by constructor.
Qed.

Lemma ValidSlug_chars s : ValidSlug s = true → all_chars scope_char s = true.
Proof.
  intros (_ & gs & x & Hsp & _ & Hgs & Hx)%ValidSlug_spec. apply all_chars_Forall.
  rewrite <-(join_split "/"%char (chars s)), Hsp. apply join_chars_Forall; [done|].
  apply Forall_app. split.
  - eapply Forall_impl; [exact Hgs|]. intros w Hw.
    eapply (re_alphabet_lang scope_char); [|exact Hw]. by vm_compute.
  - repeat constructor. eapply (re_alphabet_lang scope_char); [|exact Hx]. by vm_compute.
Qed.

Lemma substring_split (s : string) n : (n ≤ String.length s)%nat →
  s = String.substring 0 (String.length s - n) s
      +:+ String.substring (String.length s - n) n s.
Proof.
  induction s as [|c s IH]; intros Hn; cbn [String.length] in *.
  - by assert (n = 0%nat) as -> by lia.
  - destruct (decide (n = S (String.length s))) as [->|].
    + rewrite Nat.sub_diag. symmetry. apply (substring_full (String c s)).
    + replace (S (String.length s) - n)%nat with (S (String.length s - n)) by lia.
      change (String c s = String c (String.substring 0 (String.length s - n) s
        +:+ String.substring (String.length s - n) n s)). f_equal. apply IH. lia.
Qed.

Lemma CutSuffix_Some s suffix o : strings_CutSuffix s suffix = Some o → s = o +:+ suffix.
Proof.
  unfold strings_CutSuffix, strings_HasSuffix. case_match eqn:E; [|done]. intros [= <-].
  apply andb_true_iff in E as [Hlen%bool_decide_eq_true E%String.eqb_eq].
  rewrite <-E at 2. by apply substring_split.
Qed.

Lemma CutSuffix_app a s : strings_CutSuffix (a +:+ s) s = Some a.
Proof.
  unfold strings_CutSuffix. destruct (strings_HasSuffix (a +:+ s) s) eqn:E.
  - f_equal. apply (append_inv_tail _ _ s). symmetry. apply CutSuffix_Some.
    unfold strings_CutSuffix. by rewrite E.
  - exfalso. revert E. unfold strings_HasSuffix.
    assert (String.length (a +:+ s) = (String.length a + String.length s)%nat) as Hl.
    { rewrite <-!length_chars, chars_app, length_app. done. }
    rewrite Hl, bool_decide_true by lia. replace (String.length a + String.length s - String.length s)%nat
      with (String.length a) by lia.
    assert (String.substring (String.length a) (String.length s) (a +:+ s) = s) as ->.
    { rewrite <-(substring_app a s) at 3. f_equal. lia. }
    by rewrite String.eqb_refl.
Qed.

Lemma TrimSuffix_app a s : strings_TrimSuffix (a +:+ s) s = a.
Proof. unfold strings_TrimSuffix. by rewrite CutSuffix_app. Qed.

Lemma ValidScope_chars s : ValidScope s = true → all_chars scope_char s = true.
Proof.
  unfold ValidScope. case_bool_decide as Hs; [by subst|].
  destruct (strings_CutSuffix s "/*") as [o|] eqn:E; [|apply ValidSlug_chars].
  intros Ho%ValidOwner_chars. rewrite (CutSuffix_Some _ _ _ E), all_chars_app, Ho. done.
Qed.

(** A valid scope has no white space to trim and no letter to fold. *)
Lemma ValidScope_normal `{UnicodeTables} s :
  ValidScope s = true → strings_ToLower (strings_TrimSpace s) = s.
Proof.
  intros Hs%ValidScope_chars.
  assert (all_chars (λ c, plain c && negb (is_upper c)) s = true) as Hp
    by (eapply all_chars_impl; [|exact Hs]; apply scope_char_plain).
  rewrite plain_TrimSpace; [by apply plain_lower|].
  eapply all_chars_impl; [|exact Hp]. intros c. cbn. by intros [? _]%andb_true_iff.
Qed.
