(* ===== verification/Sha256.v ===== *)
(** * Sha256: crypto/sha256 and encoding/hex, as the program uses them

    [sha256_Sum256] is FIPS 180-4 on a byte string of less than 2^61 bytes,
    with 32-bit words kept in [Z] and every sum reduced modulo 2^32.  The
    program only uses the digest through its hexadecimal text, so the facts
    proved about it are the shape of that text and that it reads back. *)

From Stdlib Require Import ZArith Lia Ascii.
From stdpp Require Import sorting pretty numbers gmap strings list_numbers list.
From S2P Require Import Prelude GoStrings.

Open Scope Z_scope.

Definition w32 (x : Z) : Z := x mod 2 ^ 32.
Definition add32 (x y : Z) : Z := w32 (x + y).
Definition not32 (x : Z) : Z := 2 ^ 32 - 1 - x.
Definition rotr (x n : Z) : Z := Z.lor (Z.shiftr x n) (w32 (Z.shiftl x (32 - n))).

Definition Ch (x y z : Z) : Z := Z.lxor (Z.land x y) (Z.land (not32 x) z).
Definition Maj (x y z : Z) : Z := Z.lxor (Z.land x y) (Z.lxor (Z.land x z) (Z.land y z)).
Definition big_sigma0 (x : Z) : Z := Z.lxor (rotr x 2) (Z.lxor (rotr x 13) (rotr x 22)).
Definition big_sigma1 (x : Z) : Z := Z.lxor (rotr x 6) (Z.lxor (rotr x 11) (rotr x 25)).
Definition small_sigma0 (x : Z) : Z := Z.lxor (rotr x 7) (Z.lxor (rotr x 18) (Z.shiftr x 3)).
Definition small_sigma1 (x : Z) : Z := Z.lxor (rotr x 17) (Z.lxor (rotr x 19) (Z.shiftr x 10)).

(** The constants are the first 32 bits of the fractional parts of roots of
    primes: of the cube roots of the first 64 and of the square roots of the
    first 8. *)
Fixpoint int_root (k n : Z) (bits : nat) (acc : Z) : Z :=
  match bits with
  | O => acc
  | S bits' =>
    let candidate := acc + 2 ^ Z.of_nat bits' in
    int_root k n bits' (if candidate ^ k <=? n then candidate else acc)
  end.
Definition frac_root (k p : Z) : Z := w32 (int_root k (p * 2 ^ (32 * k)) 40 0).
Definition small_prime (n : nat) : bool := forallb (λ d, negb (n mod d =? 0)%nat) (seq 2 (n - 2)).
Definition primes : list Z := Eval vm_compute in Z.of_nat <$> filter small_prime (seq 2 310).

Definition round_constants : list Z := Eval vm_compute in frac_root 3 <$> take 64 primes.
Definition initial_hash : list Z := Eval vm_compute in frac_root 2 <$> take 8 primes.

(** The [k] big-endian bytes of [x]. *)
Definition be_bytes (k : nat) (x : Z) : list Z :=
  (λ i, (x / 2 ^ (8 * Z.of_nat (k - 1 - i))) mod 256) <$> seq 0 k.

Definition pad (l : list Z) : list Z :=
  let n := length l in
  l ++ 128 :: replicate ((119 - n mod 64) mod 64) 0 ++ be_bytes 8 (8 * Z.of_nat n).

Fixpoint words (l : list Z) : list Z :=
  match l with
  | a :: b :: c :: d :: l' => (a * 2 ^ 24 + b * 2 ^ 16 + c * 2 ^ 8 + d) :: words l'
  | _ => []
  end.

Fixpoint chunks (fuel : nat) (l : list Z) : list (list Z) :=
  match fuel, l with
  | S fuel', _ :: _ => take 64 l :: chunks fuel' (drop 64 l)
  | _, _ => []
  end.

(** The message schedule, kept newest word first. *)
Fixpoint extend (n : nat) (acc : list Z) : list Z :=
  match n with
  | O => acc
  | S n' =>
    let at_ i := nth i acc 0 in
    extend n' (add32 (add32 (small_sigma1 (at_ 1%nat)) (at_ 6%nat))
                     (add32 (small_sigma0 (at_ 14%nat)) (at_ 15%nat)) :: acc)
  end.
Definition schedule (block : list Z) : list Z := rev (extend 48 (rev (words block))).

Definition round (st : Z * Z * Z * Z * Z * Z * Z * Z) (kw : Z * Z) :=
  let '(a, b, c, d, e, f, g, h) := st in
  let t1 := add32 h (add32 (big_sigma1 e) (add32 (Ch e f g) (add32 kw.1 kw.2))) in
  let t2 := add32 (big_sigma0 a) (Maj a b c) in
  (add32 t1 t2, a, b, c, add32 d t1, e, f, g).

Definition compress (h : list Z) (block : list Z) : list Z :=
  match h with
  | [a; b; c; d; e; f; g; h'] =>
    let '(a', b', c', d', e', f', g', h'') :=
      fold_left round (zip round_constants (schedule block)) (a, b, c, d, e, f, g, h') in
    [add32 a a'; add32 b b'; add32 c c'; add32 d d'; add32 e e'; add32 f f'; add32 g g'; add32 h' h'']
  | _ => h
  end.

Definition sha256_Sum256 (l : list Z) : list Z :=
  concat (be_bytes 4 <$> fold_left compress (chunks (length l + 2) (pad l)) initial_hash).

Definition sha256_hex (s : string) : string := hex_EncodeToString (sha256_Sum256 (bytes_of s)).

(** ** The shape of the digest *)

Lemma be_bytes_length k x : length (be_bytes k x) = k.
Proof. unfold be_bytes. by rewrite length_fmap, length_seq. Qed.

Lemma be_bytes_range k x : Forall (λ b, 0 ≤ b < 256) (be_bytes k x).
Proof. apply Forall_fmap, Forall_true. intros i. cbn. apply Z.mod_pos_bound. lia. Qed.

Lemma compress_length h b : length h = 8%nat → length (compress h b) = 8%nat.
Proof.
  intros H. do 8 (destruct h as [|? h]; [done|]). destruct h; [|done].
  unfold compress. generalize (zip round_constants (schedule b)). intros l.
  destruct (fold_left _ _ _) as [[[[[[[]]]]]]]. reflexivity.
Qed.

Lemma fold_compress_length bs h :
  length h = 8%nat → length (fold_left compress bs h) = 8%nat.
Proof. revert h. induction bs; intros h Hh; cbn; [done|]. apply IHbs. by apply compress_length. Qed.

Lemma Sum256_length l : length (sha256_Sum256 l) = 32%nat.
Proof.
  unfold sha256_Sum256.
  assert (∀ ws, length (concat (be_bytes 4 <$> ws)) = (4 * length ws)%nat) as H.
  { induction ws; [done|]. cbn [fmap list_fmap concat]. rewrite length_app, be_bytes_length, IHws.
    cbn. lia. }
  by rewrite H, fold_compress_length.
Qed.

Lemma Sum256_range l : Forall (λ b, 0 ≤ b < 256) (sha256_Sum256 l).
Proof.
  apply Forall_concat, Forall_fmap, Forall_true. intros x. apply be_bytes_range.
Qed.

Definition hex_char (c : ascii) : bool := is_digit c || between 97 102 c.

Lemma hex_digit_char n : 0 ≤ n < 16 → hex_char (hex_digit n) = true.
Proof.
  intros Hn. assert (n ∈ seqZ 0 16) as Hin by (apply elem_of_seqZ; lia).
  revert n Hn Hin. cut (Forall (λ n, hex_char (hex_digit n) = true) (seqZ 0 16)).
  { intros H n _ Hin. rewrite Forall_forall in H. auto. }
  vm_compute. repeat constructor.
Qed.

Lemma hex_chars l :
  Forall (λ b, 0 ≤ b < 256) l → Forall (λ c, hex_char c = true) (concat (hex_byte <$> l)).
Proof.
  induction 1 as [|b l Hb Hl IH]; [constructor|]. cbn. constructor; [|constructor; [|done]].
  - apply hex_digit_char. split; [apply Z.div_pos; lia|apply Z.div_lt_upper_bound; lia].
  - apply hex_digit_char. apply Z.mod_pos_bound. lia.
Qed.

Lemma hex_length l : length (concat (hex_byte <$> l)) = (2 * length l)%nat.
Proof. induction l as [|b l IH]; [done|]. cbn. rewrite IH. lia. Qed.

(** ** Reading hexadecimal text: [encoding/hex] *)

Definition hex_value (c : ascii) : option Z :=
  if is_digit c then Some (code c - 48)
  else if between 97 102 c then Some (code c - 87)
  else if between 65 70 c then Some (code c - 55)
  else None.

Fixpoint hex_decode (l : list ascii) : option (list Z) :=
  match l with
  | [] => Some []
  | a :: b :: rest =>
    match hex_value a, hex_value b, hex_decode rest with
    | Some x, Some y, Some bytes => Some (16 * x + y :: bytes)
    | _, _, _ => None
    end
  | [_] => None
  end.

Definition hex_DecodeString (s : string) : option (list Z) := hex_decode (chars s).

Lemma hex_value_digit n : 0 ≤ n < 16 → hex_value (hex_digit n) = Some n.
Proof.
  intros Hn. assert (n ∈ seqZ 0 16) as Hin by (apply elem_of_seqZ; lia). clear Hn.
  revert n Hin. apply Forall_forall. vm_compute. repeat constructor.
Qed.

Lemma hex_decode_encode l :
  Forall (λ b, 0 ≤ b < 256) l → hex_decode (concat (hex_byte <$> l)) = Some l.
Proof.
  induction 1 as [|b l Hb Hl IH]; [done|]. cbn [fmap list_fmap concat hex_byte app hex_decode].
  rewrite !hex_value_digit, IH; [do 2 f_equal| |].
  - symmetry. apply Z.div_mod. lia.
  - apply Z.mod_pos_bound. lia.
  - split; [apply Z.div_pos; lia|apply Z.div_lt_upper_bound; lia].
Qed.

(** The digest text is 64 lower-case hexadecimal digits. *)
Lemma sha256_hex_shape s : match_class hex_char 64 64 (sha256_hex s) = true.
Proof.
  apply match_class_spec. unfold sha256_hex, hex_EncodeToString.
  rewrite slen_chars, all_chars_Forall, chars_of_chars, hex_length, Sum256_length.
  split; [lia|]. apply hex_chars, Sum256_range.
Qed.

(** The published test vectors of the standard. *)
Example sha256_abc :
  sha256_hex "abc" = "ba7816bf8f01cfea414140de5dae2223b00361a396177a9cb410ff61f20015ad".
Proof. vm_compute. reflexivity. Qed.

Example sha256_empty :
  sha256_hex "" = "e3b0c44298fc1c149afbf4c8996fb92427ae41e4649b934ca495991b7852b855".
Proof. vm_compute. reflexivity. Qed.

Example sha256_two_blocks :
  sha256_hex "abcdbcdecdefdefgefghfghighijhijkijkljklmklmnlmnomnopnopq" =
  "248d6a61d20638b8e5c026930c3e6039a33ce45964ff2167f6ecedd419db06c1".
Proof. vm_compute. reflexivity. Qed.
