(* ===== verification/GoText.v ===== *)
(** * GoText: time.Format and encoding/json, as the program uses them

    The wire form of an instant, and the JSON encoder on strings, integers,
    string arrays and structs with [omitempty] fields. *)

From Stdlib Require Import ZArith Lia Ascii.
From stdpp Require Import sorting pretty numbers gmap strings list_numbers list.
From S2P Require Import Prelude GoStrings.

Open Scope Z_scope.

(** ** Dates

    Days are counted from 0001-01-01 in the proleptic Gregorian calendar that
    [time] uses; the era arithmetic counts from the first of March so that the
    leap day comes last. *)

Definition ns_per_day : Z := 86400 * Second.

Definition civil_of_days (days : Z) : Z * Z * Z :=
  let z := days + 306 in
  let era := z / 146097 in
  let doe := z mod 146097 in
  let yoe := (doe - doe / 1460 + doe / 36524 - doe / 146096) / 365 in
  let doy := doe - (365 * yoe + yoe / 4 - yoe / 100) in
  let mp := (5 * doy + 2) / 153 in
  let d := doy - (153 * mp + 2) / 5 + 1 in
  let m := if mp <? 10 then mp + 3 else mp - 9 in
  let y := yoe + era * 400 in
  (if m <=? 2 then y + 1 else y, m, d).

(** [appendInt]: decimal digits, padded with zeros to [width] after the sign. *)
Definition digits (n : Z) : string := strconv_Itoa n.
Definition zeros (n : nat) : string := of_chars (replicate n "0"%char).
Definition appendInt (n : Z) (width : nat) : string :=
  let body := digits (Z.abs n) in
  (if n <? 0 then "-" else "") +:+ zeros (width - String.length body) +:+ body.

Definition trim_zeros (l : list ascii) : list ascii :=
  rev (dropWhile (λ c, bool_decide (c = "0"%char)) (rev l)).

(** The [.999999] verb: six digits of the fraction, trailing zeros and an empty
    fraction dropped. *)
Definition format_micros (ns : Z) : string :=
  let l := trim_zeros (chars (appendInt (ns / 1000) 6)) in
  match l with
  | [] => ""
  | _ => "." +:+ of_chars l
  end.

Definition time_Truncate (t : time) (d : duration) : time := t - t mod d.

(** [t.Format("2006-01-02T15:04:05.999999")] *)
Definition format_wire (t : time) : string :=
  let '(y, m, d) := civil_of_days (t / ns_per_day) in
  let in_day := t mod ns_per_day in
  let secs := in_day / Second in
  appendInt y 4 +:+ "-" +:+ appendInt m 2 +:+ "-" +:+ appendInt d 2 +:+ "T"
  +:+ appendInt (secs / 3600) 2 +:+ ":" +:+ appendInt (secs / 60 mod 60) 2 +:+ ":"
  +:+ appendInt (secs mod 60) 2 +:+ format_micros (in_day mod Second).

(** ** JSON *)

Definition hex4 (r : Z) : string :=
  of_chars (hex_digit <$> [r / 4096 mod 16; r / 256 mod 16; r / 16 mod 16; r mod 16]).
Definition json_u (r : Z) : string := "\u" +:+ hex4 r.

Definition dquote : ascii := chr 34.

(** One decoded run of the string: an escape, or the bytes as they are. *)
Definition json_escape (x : run) : string :=
  match x with
  | RRune r b =>
    if bool_decide (r = 34) then of_chars ["\"%char; dquote]
    else if bool_decide (r = 92) then "\\"
    else if bool_decide (r = 8) then "\b"
    else if bool_decide (r = 12) then "\f"
    else if bool_decide (r = 10) then "\n"
    else if bool_decide (r = 13) then "\r"
    else if bool_decide (r = 9) then "\t"
    else if (r <? 32) || bool_decide (r ∈ [60; 62; 38; 8232; 8233]) then json_u r
    else of_bytes b
  | RBad _ => "\ufffd"
  end.

Definition json_string (s : string) : string :=
  of_chars [dquote] +:+ foldr (λ x acc, json_escape x +:+ acc) "" (runs s) +:+ of_chars [dquote].

Fixpoint json_join (l : list string) : string :=
  match l with
  | [] => ""
  | [x] => x
  | x :: l' => x +:+ "," +:+ json_join l'
  end.

Definition json_array (l : list string) : string := "[" +:+ json_join (json_string <$> l) +:+ "]".

(** A struct: each field with its encoded value, or [None] for an omitted one. *)
Definition json_object (fields : list (string * option string)) : string :=
  "{" +:+ json_join (omap (λ f, match f.2 with
                                | Some v => Some (json_string f.1 +:+ ":" +:+ v)
                                | None => None
                                end) fields) +:+ "}".

Definition omitempty_string (s : string) : option string :=
  if bool_decide (s = "") then None else Some (json_string s).
Definition omitempty_strings (l : list string) : option string :=
  match l with [] => None | _ => Some (json_array l) end.

(** 2024-02-29T23:59:59.12Z is 738944 days after the epoch. *)
Example format_wire_leap :
  format_wire (738944 * ns_per_day + 86399 * Second + 120 * Millisecond)
  = "2024-02-29T23:59:59.12".
Proof. vm_compute. reflexivity. Qed.

Example format_wire_zero : format_wire 0 = "0001-01-01T00:00:00".
Proof. vm_compute. reflexivity. Qed.

Example json_string_html : json_string "a<b" = of_chars (dquote :: chars "a\u003cb" ++ [dquote]).
Proof. vm_compute. reflexivity. Qed.
