(* ===== verification/GoNet.v ===== *)
(** * GoNet: net/url.Parse and net.ParseIP, as the program uses them

    The program asks [url.Parse] for the scheme, the opaque part, the host, the
    presence of user info, the path, the port and the fragment, and asks [net.ParseIP] only whether
    a text is an address.  Both are the standard library's algorithms of the Go
    release the module names (1.27), written over lists of characters. *)

From Stdlib Require Import ZArith Lia Ascii.
From stdpp Require Import sorting pretty numbers gmap strings list_numbers list.
From S2P Require Import Prelude GoStrings.

Open Scope Z_scope.

(** ** Cutting *)

(** [strings.Cut] at the first [sep]. *)
Fixpoint cut (sep : ascii) (l : list ascii) : option (list ascii * list ascii) :=
  match l with
  | [] => None
  | c :: l' =>
    if bool_decide (c = sep) then Some ([], l')
    else prod_map (cons c) id <$> cut sep l'
  end.

(** [strings.Cut] at a separator of one character: what is before it, what is
    after it, and whether it was found. *)
Definition strings_Cut (s : string) (sep : ascii) : string * string * bool :=
  match cut sep (chars s) with
  | Some (before, after) => (of_chars before, of_chars after, true)
  | None => (s, "", false)
  end.

(** The same at the last [sep]. *)
Definition cut_last (sep : ascii) (l : list ascii) : option (list ascii * list ascii) :=
  (λ p, (rev p.2, rev p.1)) <$> cut sep (rev l).

Definition starts_with (p : string) (l : list ascii) : bool :=
  bool_decide (take (String.length p) l = chars p).

Fixpoint index_of (p : string) (l : list ascii) : option nat :=
  if starts_with p l then Some O
  else match l with [] => None | _ :: l' => S <$> index_of p l' end.

(** ** Addresses *)

Definition ishex (c : ascii) : bool := is_digit c || between 97 102 c || between 65 70 c.
Definition unhex (c : ascii) : Z :=
  if is_digit c then code c - 48
  else if between 97 102 c then code c - 87 else code c - 55.

Definition dec_value (l : list ascii) : Z := fold_left (λ v c, v * 10 + (code c - 48)) l 0.

(** [parseIPv4Fields]: four decimal octets with no leading zero. *)
Definition ipv4_octet (l : list ascii) : bool :=
  match l with
  | [] => false
  | c :: rest =>
    forallb is_digit l && (bool_decide (rest = []) || negb (bool_decide (c = "0"%char)))
    && bool_decide (length l ≤ 3)%nat && (dec_value l <=? 255)
  end.
Definition parseIPv4Fields (l : list ascii) : bool :=
  let fs := split_chars "." l in
  bool_decide (length fs = 4%nat) && forallb ipv4_octet fs.

(** The hexadecimal digits a group starts with: at most four. *)
Fixpoint hex_run (l : list ascii) : nat :=
  match l with
  | c :: l' => if ishex c then S (hex_run l') else O
  | [] => O
  end.

(** The group loop of [parseIPv6]: [i] counts the bytes written so far, and
    [fuel] is the number of groups that still fit. *)
Fixpoint ipv6_loop (fuel : nat) (i : Z) (ellipsis : bool) (s : list ascii) : bool :=
  let finish (i : Z) (ellipsis : bool) (s : list ascii) :=
    bool_decide (s = []) && (if i <? 16 then ellipsis else negb ellipsis) in
  match fuel with
  | O => finish i ellipsis s
  | S fuel' =>
    let off := hex_run s in
    if bool_decide (4 < off)%nat || bool_decide (off = O) then false
    else
      match drop off s with
      | [] => finish (i + 2) ellipsis []
      | c :: rest =>
        if bool_decide (c = "."%char) then
          (ellipsis || bool_decide (i = 12)) && (i + 4 <=? 16) && parseIPv4Fields s
          && finish (i + 4) ellipsis []
        else if negb (bool_decide (c = ":"%char)) then false
        else
          match rest with
          | [] => false
          | c' :: rest' =>
            if bool_decide (c' = ":"%char) then
              if ellipsis then false
              else match rest' with
                   | [] => finish (i + 2) true []
                   | _ => ipv6_loop fuel' (i + 2) true rest'
                   end
            else ipv6_loop fuel' (i + 2) ellipsis rest
          end
      end
  end.

Definition parseIPv6 (l : list ascii) : bool :=
  let '(s, zone_ok) :=
    match cut "%" l with
    | Some (s, zone) => (s, negb (bool_decide (zone = [])))
    | None => (l, true)
    end in
  zone_ok &&
  if starts_with "::" s then
    let s' := drop 2 s in
    if bool_decide (s' = []) then true else ipv6_loop 8 0 true s'
  else ipv6_loop 8 0 false s.

Inductive addr_kind := Addr4 | Addr6 | AddrNone.
#[global] Instance addr_kind_eq_dec : EqDecision addr_kind.
Proof. solve_decision. Defined.

Fixpoint addr_shape (l : list ascii) : addr_kind :=
  match l with
  | [] => AddrNone
  | c :: l' =>
    if bool_decide (c = "."%char) then Addr4
    else if bool_decide (c = ":"%char) then Addr6
    else if bool_decide (c = "%"%char) then AddrNone
    else addr_shape l'
  end.

(** [netip.ParseAddr] *)
Definition ParseAddr (l : list ascii) : option addr_kind :=
  match addr_shape l with
  | Addr4 => if parseIPv4Fields l then Some Addr4 else None
  | Addr6 => if parseIPv6 l then Some Addr6 else None
  | AddrNone => None
  end.

(** [net.ParseIP(s) != nil]: an address without a zone. *)
Definition net_ParseIP (s : string) : bool :=
  bool_decide (is_Some (ParseAddr (chars s))) && negb (bool_decide ("%"%char ∈ chars s)).

(** ** URLs *)

Inductive encoding :=
  | encodePath
  | encodeHost
  | encodeZone
  | encodeUserPassword
  | encodeFragment.
#[global] Instance encoding_eq_dec : EqDecision encoding.
Proof. solve_decision. Defined.

(** The bytes a host or zone may hold unescaped. *)
Definition host_char (c : ascii) : bool :=
  is_lower c || is_upper c || is_digit c
  || one_of (["!"; "$"; "&"; "'"; "("; ")"; "*"; "+"; ","; ";"; "="; ":"; "["; "]"; "<"; ">";
              "-"; "_"; "."; "~"; chr 34])%char c.

Definition is_host_mode (m : encoding) : bool := bool_decide (m = encodeHost ∨ m = encodeZone).

Fixpoint unescape (m : encoding) (l : list ascii) : option (list ascii) :=
  match l with
  | [] => Some []
  | c :: l' =>
    if bool_decide (c = "%"%char) then
      match l' with
      | a :: b :: rest =>
        let v := 16 * unhex a + unhex b in
        let pct := bool_decide (a = "2"%char) && bool_decide (b = "5"%char) in
        if negb (ishex a && ishex b) then None
        else if bool_decide (m = encodeHost) && (unhex a <? 8) && negb pct then None
        else if bool_decide (m = encodeZone) && negb pct && negb (bool_decide (v = 32))
                && negb (host_char (chr v)) then None
        else cons (chr v) <$> unescape m rest
      | _ => None
      end
    else if is_host_mode m && (code c <? 128) && negb (host_char c) then None
    else cons c <$> unescape m l'
  end.

Definition validOptionalPort (l : list ascii) : bool :=
  match l with
  | [] => true
  | c :: ds => bool_decide (c = ":"%char) && forallb is_digit ds
  end.

Definition parseHost_literal (host : list ascii) : option (list ascii) :=
  match host, cut_last "]" host with
  | _ :: _, Some (_ :: inner, colonPort) =>
    if negb (validOptionalPort colonPort) then None
    else
      match unescape encodeHost colonPort,
            match index_of "%25" inner with
            | Some z =>
              match unescape encodeHost (take z inner), unescape encodeZone (drop z inner) with
              | Some h, Some zn => Some (h ++ zn)
              | _, _ => None
              end
            | None => unescape encodeHost inner
            end with
      | Some port, Some h =>
        if bool_decide (ParseAddr h = Some Addr6)
        then Some ("["%char :: h ++ "]"%char :: port) else None
      | _, _ => None
      end
  | _, _ => None
  end.

(** A bracket may only open the host; a colon starts the port, and every other
    colon is refused except for PostgreSQL host lists, where the last one
    counts. *)
Definition parseHost (scheme : string) (host : list ascii) : option (list ascii) :=
  if bool_decide ("["%char ∈ host) then
    if starts_with "[" host && negb (bool_decide ("["%char ∈ drop 1 host))
    then parseHost_literal host else None
  else
    let postgres := bool_decide (scheme ∈ ["postgres"; "postgresql"]) in
    let port := match (if postgres then cut_last ":" host else cut ":" host) with
                | Some (_, p) => ":"%char :: p
                | None => []
                end in
    if validOptionalPort port then unescape encodeHost host else None.

Definition userinfo_char (c : ascii) : bool :=
  is_upper c || is_lower c || is_digit c
  || one_of ["-"; "."; "_"; ":"; "~"; "!"; "$"; "&"; "'"; "("; ")"; "*"; "+"; ","; ";"; "="; "%"; "@"]%char c.

Definition parse_userinfo (l : list ascii) : bool :=
  forallb userinfo_char l &&
  match cut ":" l with
  | None => bool_decide (is_Some (unescape encodeUserPassword l))
  | Some (u, p) =>
    bool_decide (is_Some (unescape encodeUserPassword u))
    && bool_decide (is_Some (unescape encodeUserPassword p))
  end.

(** The host and whether user info is present. *)
Definition parseAuthority (scheme : string) (authority : list ascii) : option (bool * list ascii) :=
  match cut_last "@" authority with
  | None => pair false <$> parseHost scheme authority
  | Some (user, host) =>
    match parseHost scheme host with
    | Some h => if parse_userinfo user then Some (true, h) else None
    | None => None
    end
  end.

(** [getScheme]: [None] for a missing scheme before a colon, otherwise the
    scheme, empty when there is none, and what follows it. *)
Fixpoint getScheme_scan (first : bool) (acc l : list ascii) : option (list ascii * list ascii) :=
  match l with
  | [] => Some ([], rev acc)
  | c :: l' =>
    if is_lower c || is_upper c then getScheme_scan false (c :: acc) l'
    else if is_digit c || one_of ["+"; "-"; "."]%char c then
      if first then Some ([], rev acc ++ l) else getScheme_scan false (c :: acc) l'
    else if bool_decide (c = ":"%char) then
      if first then None else Some (rev acc, l')
    else Some ([], rev acc ++ l)
  end.

Definition ascii_lower (c : ascii) : ascii := if is_upper c then chr (code c + 32) else c.

Record URL := {
  url_Scheme : string;
  url_Opaque : string;
  url_User : bool;
  url_Host : string;
  url_Fragment : string;
  url_Path : string;
  url_RawQuery : string;
}.

Definition ctl_byte (c : ascii) : bool := (code c <? 32) || bool_decide (code c = 127).

Definition url_parse (raw : list ascii) : option URL :=
  if existsb ctl_byte raw then None
  else if bool_decide (raw = ["*"%char]) then Some (Build_URL "" "" false "" "" "*" "")
  else
    match getScheme_scan true [] raw with
    | None => None
    | Some (sch, rest0) =>
      let scheme := of_chars (ascii_lower <$> sch) in
      let '(rest, query) := match cut "?" rest0 with Some (r, q) => (r, of_chars q) | None => (rest0, "") end in
      if negb (starts_with "/" rest) && negb (bool_decide (scheme = ""))
      then Some (Build_URL scheme (of_chars rest) false "" "" "" query)
      else if negb (starts_with "/" rest)
              && bool_decide (":"%char ∈ default rest (fst <$> cut "/" rest)) then None
      else
        let '(auth, path) :=
          if (negb (bool_decide (scheme = "")) || negb (starts_with "///" rest))
             && starts_with "//" rest then
            let a := drop 2 rest in
            match cut "/" a with
            | Some (h, p) => (parseAuthority scheme h, "/"%char :: p)
            | None => (parseAuthority scheme a, [])
            end
          else (Some (false, []), rest) in
        match auth, unescape encodePath path with
        | Some (user, host), Some p =>
          Some (Build_URL scheme "" user (of_chars host) "" (of_chars p) query)
        | _, _ => None
        end
    end.

Definition url_Parse (s : string) : option URL :=
  match cut "#" (chars s) with
  | None => url_parse (chars s)
  | Some (u, frag) =>
    match url_parse u, unescape encodeFragment frag with
    | Some p, Some f =>
      Some (Build_URL (url_Scheme p) (url_Opaque p) (url_User p) (url_Host p) (of_chars f) (url_Path p)
              (url_RawQuery p))
    | _, _ => None
    end
  end.

Definition url_IsAbs (u : URL) : bool := negb (bool_decide (url_Scheme u = "")).

(** [splitHostPort]: the port is what follows the last colon, when valid. *)
Definition splitHostPort (h : list ascii) : list ascii * list ascii :=
  match cut_last ":" h with
  | Some (x, p) => if validOptionalPort (":"%char :: p) then (x, p) else (h, [])
  | None => (h, [])
  end.

Definition url_Port (u : URL) : string := of_chars (splitHostPort (chars (url_Host u))).2.

(** [Hostname] drops a valid port and the brackets of an IPv6 literal. *)
Definition url_Hostname (u : URL) : string :=
  let host := (splitHostPort (chars (url_Host u))).1 in
  if starts_with "[" host && bool_decide (last host = Some "]"%char)
  then of_chars (take (length host - 2) (drop 1 host)) else of_chars host.

(** ** Examples of the two parsers *)

Example parse_https :
  url_Parse "https://api.example.com:8443/mcp?x=1" =
  Some (Build_URL "https" "" false "api.example.com:8443" "" "/mcp" "x=1").
Proof. vm_compute. reflexivity. Qed.

Example parse_ipv6_host :
  url_Hostname <$> url_Parse "http://[::1]:80/x" = Some "::1".
Proof. vm_compute. reflexivity. Qed.

Example parse_port : url_Port <$> url_Parse "http://[::1]:80/a%20b" = Some "80".
Proof. vm_compute. reflexivity. Qed.

Example parse_path : url_Path <$> url_Parse "http://[::1]:80/a%20b" = Some "/a b".
Proof. vm_compute. reflexivity. Qed.

Example parse_user : url_User <$> url_Parse "https://a@b/" = Some true.
Proof. vm_compute. reflexivity. Qed.

Example parse_opaque : url_Opaque <$> url_Parse "https:abc" = Some "abc".
Proof. vm_compute. reflexivity. Qed.

Example parse_bad_port : url_Parse "https://host:8o/" = None.
Proof. vm_compute. reflexivity. Qed.

Example ip_texts :
  net_ParseIP <$> ["10.0.0.1"; "2001:db8::1"; "::ffff:1.2.3.4"; "1.2.3"; "01.2.3.4"; "fe80::1%en0"; "::1::"; "1:2:3:4:5:6:7:8"]
  = [true; true; true; false; false; false; false; true].
Proof. vm_compute. reflexivity. Qed.

(** ** Lemmas *)

Lemma cut_Some sep l a b : cut sep l = Some (a, b) → l = a ++ sep :: b.
Proof.
  revert a. induction l as [|c l IH]; intros a; cbn; [done|]. case_bool_decide as Hc.
  - intros [= <- <-]. by rewrite Hc.
  - destruct (cut sep l) as [[x y]|] eqn:E; [|done]. intros [= <- <-]. cbn. f_equal. by apply IH.
Qed.

Lemma cut_app sep (a b : list ascii) : sep ∉ a → cut sep (a ++ sep :: b) = Some (a, b).
Proof.
  induction a as [|c a IH]; intros Hs; cbn; [by rewrite bool_decide_true|].
  rewrite bool_decide_false by set_solver. by rewrite IH by set_solver.
Qed.

Lemma strings_Cut_app a b (sep : ascii) :
  sep ∉ chars a → strings_Cut (a +:+ of_chars (sep :: chars b)) sep = (a, b, true).
Proof.
  intros Hs. unfold strings_Cut. rewrite chars_app, chars_of_chars, cut_app by done.
  by rewrite !of_chars_chars.
Qed.
