(* ===== verification/CredTypes.v ===== *)
(** * CredTypes: credentials and the inputs of their lifecycle

    [ClientCredential] and [CredentialProvenance] of internal/contracts/v1, and
    the inputs and closed vocabularies of
    internal/storage/internal/credentiallifecycle.  A [*time.Time] or [*string]
    is an option; the Go code never shares the pointee (every store method
    returns a clone), so the value is all there is to it. *)

From Stdlib Require Import ZArith Lia Ascii.
From stdpp Require Import sorting pretty numbers gmap strings list_numbers list.
From S2P Require Import Prelude GoStrings.

Open Scope Z_scope.

(** ** Vocabularies: Go string types with named constants *)

Definition MaximumOverlap : duration := 15 * Minute.

Definition IssuanceProvenance : Type := string.
Definition IssuanceProvenanceDeviceAuthorization : IssuanceProvenance := "device_authorization".
Definition IssuanceProvenanceWorkloadExchange : IssuanceProvenance := "workload_exchange".

Definition ClientClass : Type := string.
Definition ClientClassBrowser : ClientClass := "browser".
Definition ClientClassOAuthUser : ClientClass := "oauth_user".
Definition ClientClassNativeDevice : ClientClass := "native_device".
Definition ClientClassOrgBearer : ClientClass := "org_bearer".
Definition ClientClassOperator : ClientClass := "operator".
Definition ClientClassWorkload : ClientClass := "workload".

Definition ClientClass_Valid (c : ClientClass) : bool :=
  bool_decide (c ∈ [ClientClassBrowser; ClientClassOAuthUser; ClientClassNativeDevice;
                    ClientClassOrgBearer; ClientClassOperator; ClientClassWorkload]).

Definition ClientClass_UserApproved (c : ClientClass) : bool :=
  bool_decide (c = ClientClassBrowser) || bool_decide (c = ClientClassOAuthUser)
  || bool_decide (c = ClientClassNativeDevice).

(** ** Credentials *)

Record CredentialProvenance := Provenance {
  pv_ClientClass : string;
  pv_ApprovingUserID : string;
  pv_ClientID : string;
  pv_SessionID : string;
  pv_FamilyID : string;
  pv_FamilyExpiresAt : option time;
}.

Record ClientCredential := Credential {
  cc_SchemaVersion : string;
  cc_CredentialID : string;
  cc_Name : string;
  cc_TokenPrefix : string;
  cc_OrgID : string;
  cc_RepositoryScopes : list string;
  cc_Scopes : list string;
  cc_CreatedAt : time;
  cc_ExpiresAt : option time;
  cc_RevokedAt : option time;
  cc_LastUsedAt : option time;
  cc_WorkloadBindingID : option string;
  cc_Resource : string;
  cc_Provenance : CredentialProvenance;
}.

#[global] Instance CredentialProvenance_eq_dec : EqDecision CredentialProvenance.
Proof. solve_decision. Defined.
#[global] Instance ClientCredential_eq_dec : EqDecision ClientCredential.
Proof. solve_decision. Defined.

Definition ClientCredentialSchema : string := "acr_client_credential.v1".

Definition cc_set_RevokedAt (t : option time) (c : ClientCredential) : ClientCredential :=
  Credential (cc_SchemaVersion c) (cc_CredentialID c) (cc_Name c) (cc_TokenPrefix c) (cc_OrgID c)
    (cc_RepositoryScopes c) (cc_Scopes c) (cc_CreatedAt c) (cc_ExpiresAt c) t (cc_LastUsedAt c)
    (cc_WorkloadBindingID c) (cc_Resource c) (cc_Provenance c).
Definition cc_set_ExpiresAt (t : option time) (c : ClientCredential) : ClientCredential :=
  Credential (cc_SchemaVersion c) (cc_CredentialID c) (cc_Name c) (cc_TokenPrefix c) (cc_OrgID c)
    (cc_RepositoryScopes c) (cc_Scopes c) (cc_CreatedAt c) t (cc_RevokedAt c) (cc_LastUsedAt c)
    (cc_WorkloadBindingID c) (cc_Resource c) (cc_Provenance c).
Definition cc_set_LastUsedAt (t : option time) (c : ClientCredential) : ClientCredential :=
  Credential (cc_SchemaVersion c) (cc_CredentialID c) (cc_Name c) (cc_TokenPrefix c) (cc_OrgID c)
    (cc_RepositoryScopes c) (cc_Scopes c) (cc_CreatedAt c) (cc_ExpiresAt c) (cc_RevokedAt c) t
    (cc_WorkloadBindingID c) (cc_Resource c) (cc_Provenance c).
Definition cc_set_issuance (binding : option string) (resource : string)
    (p : CredentialProvenance) (c : ClientCredential) : ClientCredential :=
  Credential (cc_SchemaVersion c) (cc_CredentialID c) (cc_Name c) (cc_TokenPrefix c) (cc_OrgID c)
    (cc_RepositoryScopes c) (cc_Scopes c) (cc_CreatedAt c) (cc_ExpiresAt c) (cc_RevokedAt c)
    (cc_LastUsedAt c) binding resource p.

(** ** Inputs *)

Record CreateInput := Create {
  ci_CredentialID : string;
  ci_OrgID : string;
  ci_Name : string;
  ci_TokenPrefix : string;
  ci_TokenHash : string;
  ci_RepositoryScopes : list string;
  ci_Scopes : list string;
  ci_ActorID : string;
  ci_ExpiresAt : option time;
  ci_IssuanceProvenance : IssuanceProvenance;
  ci_WorkloadBindingID : string;
  ci_Resource : string;
  ci_ClientID : string;
  ci_ApprovingUserID : string;
  ci_ClientClass : ClientClass;
  ci_SessionID : string;
  ci_FamilyID : string;
  ci_FamilyExpiresAt : option time;
}.

Record RotationReplacement := Replacement {
  rr_CredentialID : string;
  rr_Name : string;
  rr_TokenPrefix : string;
  rr_TokenHash : string;
  rr_RepositoryScopes : list string;
  rr_Scopes : list string;
  rr_ExpiresAt : option time;
  rr_Overlap : duration;
  rr_Immediate : bool;
}.

Record RotationInput := Rotation {
  ri_OrgID : string;
  ri_SourceCredentialID : string;
  ri_ActorID : string;
  ri_SelfCredential : bool;
  ri_Replacement : RotationReplacement;
}.

Record RevocationInput := Revocation {
  vi_OrgID : string;
  vi_CredentialID : string;
  vi_ActorID : string;
  vi_ActorType : string;
  vi_Reason : string;
  vi_SelfCredential : bool;
}.

Record RotationRollbackInput := Rollback {
  bi_OrgID : string;
  bi_SourceCredentialID : string;
  bi_SuccessorCredentialID : string;
  bi_ActorID : string;
  bi_RollbackUntil : time;
}.

#[global] Instance CreateInput_eq_dec : EqDecision CreateInput.
Proof. solve_decision. Defined.
#[global] Instance RotationReplacement_eq_dec : EqDecision RotationReplacement.
Proof. solve_decision. Defined.
#[global] Instance RotationInput_eq_dec : EqDecision RotationInput.
Proof. solve_decision. Defined.
#[global] Instance RevocationInput_eq_dec : EqDecision RevocationInput.
Proof. solve_decision. Defined.
#[global] Instance RotationRollbackInput_eq_dec : EqDecision RotationRollbackInput.
Proof. solve_decision. Defined.
