(* ===== verification/Validation.v ===== *)
(** * Validation: the normalised form of every lifecycle input

    internal/storage/internal/credentiallifecycle/validation.go.  Each
    [normalize] function returns the value the store will hold or the error
    that names the first field refused.  The theorems show that normalising is
    a projection (a normal input is left exactly as it is) and which client
    class each issuance path gets. *)

From Stdlib Require Import ZArith Lia Ascii.
From stdpp Require Import sorting pretty numbers gmap strings list_numbers list.
From S2P Require Import Prelude GoStrings Regexp RepoSlug GoNet CredTypes.

Open Scope Z_scope.

Definition id_char (c : ascii) : bool :=
  is_upper c || is_lower c || is_digit c || one_of ["."; "_"; ":"; "-"]%char c.
Definition token_char (c : ascii) : bool :=
  is_upper c || is_lower c || is_digit c || one_of ["_"; "-"]%char c.
Definition any_alnum_char (c : ascii) : bool := is_upper c || is_lower c || is_digit c.

Definition credentialIDPattern : re :=
  Cat (Class any_alnum_char) (Times (Class id_char) 0 199).
Definition tokenHashPattern : re :=
  Times (Class (λ c, between 97 102 c || is_digit c)) 64 64.
Definition tokenPrefixPattern : re :=
  Cat (Lit "fcacr_") (Times (Class token_char) 6 64).

Definition maxResourceLength : Z := 2048.
Definition maxClientIDLength : Z := 2048.

Definition knownScopes : list string :=
  ["context:read"; "evidence:read"; "episode:write"; "data:read"; "credential_lifecycle:read";
   "credential_lifecycle:revoke"].

Definition invalid {A} (field : string) : res A := Err (ErrInvalidInput field).

(** ** Fields *)

Definition normalizeCredentialID (value0 : string) : res string :=
  let value := strings_TrimSpace value0 in
  if negb (re_match credentialIDPattern value) then invalid "credential id" else Ok value.

Definition normalizeText (name value0 : string) (maximum : Z) : res string :=
  let value := strings_TrimSpace value0 in
  if bool_decide (value = "") || (maximum <? slen value) || negb (utf8_ValidString value)
     || has_control_rune value
  then invalid name else Ok value.

Definition normalizeIdentifier (name value : string) : res string := normalizeText name value 200.

Definition normalizeOptionalText (field value : string) (maxLength : Z) : res string :=
  if bool_decide (strings_TrimSpace value = "") then Ok ""
  else normalizeText field value maxLength.

Definition normalizeTokenHash (value0 : string) : res string :=
  let value := strings_TrimSpace value0 in
  if negb (re_match tokenHashPattern value) then invalid "token hash" else Ok value.

Definition normalizeResource (value0 : string) : res string :=
  let value := strings_TrimSpace value0 in
  if bool_decide (value = "") then Ok ""
  else if (maxResourceLength <? slen value) || negb (utf8_ValidString value)
          || has_control_rune value
  then invalid "resource"
  else
    match url_Parse value with
    | None => invalid "resource"
    | Some parsed =>
      if negb (url_IsAbs parsed) || bool_decide (url_Host parsed = "")
         || negb (bool_decide (url_Fragment parsed = "")) || url_User parsed
         || negb (bool_decide (url_Opaque parsed = ""))
      then invalid "resource"
      else if bool_decide (url_Scheme parsed = "https") then Ok value
      else if bool_decide (url_Scheme parsed = "http") then
        if bool_decide (url_Hostname parsed ∈ ["localhost"; "127.0.0.1"; "::1"])
        then Ok value else invalid "resource"
      else invalid "resource"
    end.

(** The accumulation loop the repository and permission scopes share: fold each
    raw value, refuse the whole list at the first bad one, drop repeats. *)
Fixpoint fold_scopes (fold : string → string) (valid : string → bool) (what : string)
    (seen : list string) (raws : list string) : res (list string) :=
  match raws with
  | [] => Ok []
  | raw :: raws' =>
    let value := fold raw in
    if negb (valid value) then invalid what
    else if bool_decide (value ∈ seen) then fold_scopes fold valid what seen raws'
    else let? rest := fold_scopes fold valid what (value :: seen) raws' in Ok (value :: rest)
  end.

Section with_unicode.
Context `{UnicodeTables}.

Definition fold_repository (raw : string) : string := strings_ToLower (strings_TrimSpace raw).

Definition normalizeRepositories (values : list string) : res (list string) :=
  if bool_decide (values = []) then invalid "repository scopes"
  else let? result := fold_scopes fold_repository ValidScope "repository scope" [] values in
       Ok (sort_Strings result).

Definition normalizeScopes (values : list string) : res (list string) :=
  if bool_decide (values = []) then invalid "scopes"
  else let? result := fold_scopes strings_TrimSpace (λ v, bool_decide (v ∈ knownScopes)) "scope"
                        [] values in
       Ok (sort_Strings result).

Definition normalizeExpiry (value : option time) : res (option time) :=
  match value with
  | None => Ok None
  | Some t => if time_IsZero t then invalid "expiry" else Ok (Some t)
  end.

Definition normalizeUsage (ip0 userAgent0 : string) : res (string * string) :=
  let ip := strings_TrimSpace ip0 in
  reject! negb (bool_decide (ip = "")) && negb (net_ParseIP ip) with ErrInvalidInput "last-used ip" ;;
  let userAgent := strings_TrimSpace userAgent0 in
  reject! (512 <? slen userAgent) || negb (utf8_ValidString userAgent)
          || has_control_rune userAgent with ErrInvalidInput "last-used user agent" ;;
  Ok (ip, userAgent).

Definition validOverlap (input : RotationReplacement) : bool :=
  rr_Immediate input && bool_decide (rr_Overlap input = 0)
  || negb (rr_Immediate input) && bool_decide (0 < rr_Overlap input)
     && bool_decide (rr_Overlap input <= MaximumOverlap).

(** ** Inputs *)

Definition deriveClientClass (provenance resource clientID approvingUserID : string)
    : res ClientClass :=
  if bool_decide (provenance = "") then
    reject! negb (bool_decide (approvingUserID = "")) with ErrInvalidInput "approving user" ;;
    reject! negb (bool_decide (clientID = "")) with ErrInvalidInput "client id" ;;
    Ok ClientClassOrgBearer
  else if bool_decide (provenance = IssuanceProvenanceWorkloadExchange) then
    reject! negb (bool_decide (approvingUserID = "")) with ErrInvalidInput "approving user" ;;
    reject! negb (bool_decide (clientID = "")) with ErrInvalidInput "client id" ;;
    Ok ClientClassWorkload
  else if bool_decide (provenance = IssuanceProvenanceDeviceAuthorization) then
    reject! bool_decide (approvingUserID = "") with ErrInvalidInput "approving user" ;;
    if bool_decide (resource = "") then
      reject! negb (bool_decide (clientID = "")) with ErrInvalidInput "client id" ;;
      Ok ClientClassNativeDevice
    else
      reject! bool_decide (clientID = "") with ErrInvalidInput "client id" ;;
      Ok ClientClassOAuthUser
  else invalid "issuance provenance".

(** The switch on the issuance provenance: the workload binding it keeps. *)
Definition normalizeBinding (provenance binding resource : string) : res string :=
  if bool_decide (provenance = "") || bool_decide (provenance = IssuanceProvenanceDeviceAuthorization)
  then
    reject! negb (bool_decide (binding = "")) with ErrInvalidInput "workload binding id" ;;
    Ok binding
  else if bool_decide (provenance = IssuanceProvenanceWorkloadExchange) then
    let? b := normalizeText "workload binding id" binding 200 in
    reject! negb (bool_decide (resource = "")) with ErrInvalidInput "resource" ;;
    Ok b
  else invalid "issuance provenance".

(** The class and family checks that end [normalizeCreate]. *)
Definition decideClass (class named clientID session family : string)
    (familyExpires expires : option time) : res ClientClass :=
  let? class' :=
    if bool_decide (named = ClientClassBrowser) && bool_decide (class = ClientClassOAuthUser) then
      reject! bool_decide (clientID = "") || bool_decide (session = "") || bool_decide (family = "")
              || bool_decide (familyExpires = None) || bool_decide (expires = None)
        with ErrInvalidInput "browser credential" ;;
      reject! match familyExpires, expires with Some f, Some e => time_Before f e | _, _ => false end
        with ErrInvalidInput "family expiry" ;;
      Ok ClientClassBrowser
    else Ok class in
  reject! negb (bool_decide (named = "")) && negb (bool_decide (named = class'))
    with ErrInvalidInput "client class" ;;
  reject! negb (bool_decide (class' = ClientClassBrowser))
          && (negb (bool_decide (session = "")) || negb (bool_decide (family = ""))
              || negb (bool_decide (familyExpires = None)))
    with ErrInvalidInput "session or family" ;;
  Ok class'.

Definition normalizeCreate (input : CreateInput) : res CreateInput :=
  let? id := normalizeCredentialID (ci_CredentialID input) in
  let? org := normalizeIdentifier "organization" (ci_OrgID input) in
  let? name := normalizeText "name" (ci_Name input) 200 in
  let prefix := strings_TrimSpace (ci_TokenPrefix input) in
  reject! negb (re_match tokenPrefixPattern prefix) with ErrInvalidInput "token prefix" ;;
  let? hash := normalizeTokenHash (ci_TokenHash input) in
  let? repos := normalizeRepositories (ci_RepositoryScopes input) in
  let? scopes := normalizeScopes (ci_Scopes input) in
  let? actor := normalizeText "actor" (ci_ActorID input) 200 in
  let? expires := normalizeExpiry (ci_ExpiresAt input) in
  let? binding := normalizeBinding (ci_IssuanceProvenance input) (ci_WorkloadBindingID input)
                    (ci_Resource input) in
  let? resource := normalizeResource (ci_Resource input) in
  let? client := normalizeOptionalText "client id" (ci_ClientID input) maxClientIDLength in
  let? user := normalizeOptionalText "approving user" (ci_ApprovingUserID input) 200 in
  let? session := normalizeOptionalText "session id" (ci_SessionID input) 256 in
  let? family := normalizeOptionalText "family id" (ci_FamilyID input) 256 in
  let? derived := deriveClientClass (ci_IssuanceProvenance input) resource client user in
  let? class := decideClass derived (ci_ClientClass input) client session family
                  (ci_FamilyExpiresAt input) expires in
  Ok (Create id org name prefix hash repos scopes actor expires (ci_IssuanceProvenance input)
        binding resource client user class session family (ci_FamilyExpiresAt input)).

Definition ValidateCreateInput (input : CreateInput) : res () :=
  let? _ := normalizeCreate input in Ok ().

Definition NormalizeCreateInput (input : CreateInput) : res CreateInput := normalizeCreate input.

(** The create input a rotation validates its replacement as. *)
Definition rotation_create (org actor : string) (r : RotationReplacement) : CreateInput :=
  Create (rr_CredentialID r) org (rr_Name r) (rr_TokenPrefix r) (rr_TokenHash r)
    (rr_RepositoryScopes r) (rr_Scopes r) actor (rr_ExpiresAt r) "" "" "" "" "" "" "" "" None.

Definition normalizeRotation (input : RotationInput) : res RotationInput :=
  let? org := normalizeIdentifier "organization" (ri_OrgID input) in
  let? source := normalizeCredentialID (ri_SourceCredentialID input) in
  let? actor := normalizeText "actor" (ri_ActorID input) 200 in
  reject! ri_SelfCredential input && negb (bool_decide (actor = source))
    with ErrInvalidInput "self rotation actor" ;;
  let? create := normalizeCreate (rotation_create org actor (ri_Replacement input)) in
  reject! bool_decide (ci_CredentialID create = source)
    with ErrInvalidInput "replacement credential id" ;;
  reject! negb (validOverlap (ri_Replacement input)) with ErrInvalidInput "rotation overlap" ;;
  Ok (Rotation org source actor (ri_SelfCredential input)
        (Replacement (ci_CredentialID create) (ci_Name create) (ci_TokenPrefix create)
           (ci_TokenHash create) (ci_RepositoryScopes create) (ci_Scopes create)
           (ci_ExpiresAt create) (rr_Overlap (ri_Replacement input))
           (rr_Immediate (ri_Replacement input)))).

Definition normalizeRevocation (input : RevocationInput) : res RevocationInput :=
  let? org := normalizeIdentifier "organization" (vi_OrgID input) in
  let? id := normalizeCredentialID (vi_CredentialID input) in
  let? actor := normalizeText "actor" (vi_ActorID input) 200 in
  reject! vi_SelfCredential input && negb (bool_decide (actor = id))
    with ErrInvalidInput "self revocation actor" ;;
  let trimmed := strings_TrimSpace (vi_Reason input) in
  let? reason := if bool_decide (trimmed = "") then Ok "" else normalizeText "reason" trimmed 500 in
  Ok (Revocation org id actor (strings_TrimSpace (vi_ActorType input)) reason
        (vi_SelfCredential input)).

Definition normalizeRotationRollback (input : RotationRollbackInput) : res RotationRollbackInput :=
  let? org := normalizeIdentifier "organization" (bi_OrgID input) in
  let? source := normalizeCredentialID (bi_SourceCredentialID input) in
  let? successor :=
    match normalizeCredentialID (bi_SuccessorCredentialID input) with
    | Ok successor =>
      if bool_decide (source = successor) then invalid "rotation successor credential id"
      else Ok successor
    | _ => invalid "rotation successor credential id"
    end in
  let? actor := normalizeText "actor" (bi_ActorID input) 200 in
  reject! time_IsZero (bi_RollbackUntil input) with ErrInvalidInput "rotation rollback deadline" ;;
  Ok (Rollback org source successor actor (bi_RollbackUntil input)).
End with_unicode.

(** ** Normalising is a projection *)

Definition projection {A} (f : A → res A) : Prop := ∀ v r, f v = Ok r → f r = Ok r.

Lemma normalizeText_Ok name v r max :
  normalizeText name v max = Ok r ↔
  r = strings_TrimSpace v ∧ r ≠ "" ∧ slen r ≤ max ∧ utf8_ValidString r = true ∧ has_control_rune r = false.
Proof.
  unfold normalizeText, invalid. rewrite reject_Ok, !orb_false_iff, negb_false_iff,
    bool_decide_eq_false, Z.ltb_ge. naive_solver.
Qed.

Lemma normalizeText_proj name max : projection (λ v, normalizeText name v max).
Proof.
  intros v r. rewrite !normalizeText_Ok. intros (-> & ?). by rewrite TrimSpace_idemp.
Qed.

Lemma trim_pattern_proj p field v r :
  (let value := strings_TrimSpace v in
   if negb (re_match p value) then invalid field else Ok value) = Ok r →
  (let value := strings_TrimSpace r in
   if negb (re_match p value) then invalid field else Ok value) = Ok r ∧ re_match p r = true.
Proof.
  cbn. unfold invalid. rewrite !reject_Ok, !negb_false_iff. intros (? & [= <-]).
  by rewrite TrimSpace_idemp.
Qed.

Lemma normalizeCredentialID_proj : projection normalizeCredentialID.
Proof. intros v r H. by apply trim_pattern_proj in H as [? _]. Qed.

Lemma normalizeTokenHash_proj : projection normalizeTokenHash.
Proof. intros v r H. by apply trim_pattern_proj in H as [? _]. Qed.

Lemma normalizeOptionalText_proj field max :
  projection (λ v, normalizeOptionalText field v max).
Proof.
  intros v r. unfold normalizeOptionalText. case_bool_decide as Hv.
  - intros [= <-]. by rewrite bool_decide_true by reflexivity.
  - intros Hr. pose proof Hr as (-> & ?)%normalizeText_Ok.
    rewrite TrimSpace_idemp, bool_decide_false by done. by eapply normalizeText_proj.
Qed.

Lemma normalizeResource_trim v r : normalizeResource v = Ok r → r = strings_TrimSpace v.
Proof.
  unfold normalizeResource. case_bool_decide as Hv; [naive_solver|].
  unfold invalid. repeat case_match; naive_solver.
Qed.

Lemma normalizeResource_proj : projection normalizeResource.
Proof.
  intros v r Hr. pose proof (normalizeResource_trim _ _ Hr) as ->.
  revert Hr. unfold normalizeResource. by rewrite TrimSpace_idemp.
Qed.

Lemma normalizeExpiry_proj : projection normalizeExpiry.
Proof. intros [t|] r; cbn; unfold invalid; [case_match eqn:E|]; intros [= <-]; cbn; by rewrite ?E. Qed.

Section folds.
Context (fold : string → string) (valid : string → bool) (what : string).

Lemma fold_scopes_sound seen raws r :
  fold_scopes fold valid what seen raws = Ok r →
  NoDup r ∧ (∀ x, x ∈ r ↔ x ∈ fold <$> raws ∧ x ∉ seen) ∧ Forall (λ x, valid x = true) (fold <$> raws).
Proof.
  revert seen r. induction raws as [|raw raws IH]; intros seen r; cbn [fold_scopes].
  - intros [= <-]. repeat split; [constructor|set_solver..|constructor].
  - unfold invalid. rewrite reject_Ok, negb_false_iff. intros [Hv Hr].
    case_bool_decide as Hs.
    + apply IH in Hr as (? & Hin & ?). split; [done|]. split; [|by constructor].
      intros x. rewrite Hin. set_solver.
    + apply res_bind_Ok in Hr as (r' & Hr & [= <-]). apply IH in Hr as (? & Hin & ?).
      split; [constructor; [|done]|split; [|by constructor]].
      * rewrite Hin. set_solver.
      * intros x. rewrite fmap_cons, !elem_of_cons, Hin, not_elem_of_cons.
        destruct (decide (x = fold raw)) as [->|]; set_solver.
Qed.

Lemma fold_scopes_id seen l :
  NoDup l → (∀ x, x ∈ l → fold x = x ∧ valid x = true ∧ x ∉ seen) →
  fold_scopes fold valid what seen l = Ok l.
Proof.
  revert seen. induction l as [|a l IH]; intros seen Hnd Hl; [done|]. cbn.
  apply NoDup_cons in Hnd as [Ha Hnd]. destruct (Hl a ltac:(set_solver)) as (-> & -> & ?).
  cbn. rewrite bool_decide_false by done. rewrite IH; [done|done|].
  intros x Hx. destruct (Hl x ltac:(set_solver)) as (? & ? & ?). set_solver.
Qed.

(** A normalised list is sorted, without repeats, every element valid and in
    folded form; running the loop on it again changes nothing. *)
Lemma fold_scopes_sorted raws r :
  (∀ x, valid (fold x) = true → fold (fold x) = fold x) →
  fold_scopes fold valid what [] raws = Ok r →
  fold_scopes fold valid what [] (sort_Strings r) = Ok (sort_Strings r).
Proof.
  intros Hf (Hnd & Hin & Hv)%fold_scopes_sound. apply fold_scopes_id.
  - by rewrite sort_Strings_perm.
  - intros x. rewrite elem_of_sort_Strings, Hin. intros [Hx _].
    rewrite Forall_forall in Hv. pose proof (Hv _ Hx) as Hvx.
    apply list_elem_of_fmap in Hx as (y & -> & _). split; [by apply Hf|]. split; [done|set_solver].
Qed.

Lemma fold_scopes_nonempty raws r :
  raws ≠ [] → fold_scopes fold valid what [] raws = Ok r → sort_Strings r ≠ [].
Proof.
  intros Hne (_ & Hin & _)%fold_scopes_sound. destruct raws as [|a raws]; [done|].
  assert (fold a ∈ sort_Strings r) as Ha
    by (rewrite elem_of_sort_Strings, Hin; split; [apply list_elem_of_fmap; eauto with set_solver|];
        set_solver).
  intros E. rewrite E in Ha. set_solver.
Qed.
End folds.

Lemma known_scope_trim v : v ∈ knownScopes → strings_TrimSpace v = v.
Proof.
  intros Hv. apply plain_TrimSpace.
  assert (Forall (λ v, all_chars plain v = true) knownScopes) as H
    by (vm_compute; repeat constructor).
  rewrite Forall_forall in H. by apply H.
Qed.

Section projections.
Context `{UnicodeTables}.

Lemma normalizeRepositories_proj : projection normalizeRepositories.
Proof.
  intros v r. unfold normalizeRepositories, invalid. case_bool_decide as Hv; [done|].
  intros (l & Hl & [= <-])%res_bind_Ok.
  rewrite bool_decide_false by (by eapply fold_scopes_nonempty).
  erewrite fold_scopes_sorted; [|intros x; apply ValidScope_normal|exact Hl]. cbn.
  by rewrite sort_Strings_id by apply sort_Strings_sorted.
Qed.

Lemma normalizeScopes_proj : projection normalizeScopes.
Proof.
  intros v r. unfold normalizeScopes, invalid. case_bool_decide as Hv; [done|].
  intros (l & Hl & [= <-])%res_bind_Ok.
  rewrite bool_decide_false by (by eapply fold_scopes_nonempty).
  erewrite fold_scopes_sorted; [|intros x _; apply TrimSpace_idemp|exact Hl]. cbn.
  by rewrite sort_Strings_id by apply sort_Strings_sorted.
Qed.

Lemma normalizeBinding_proj p b r b' :
  normalizeBinding p b r = Ok b' →
  normalizeBinding p b' (if bool_decide (p = IssuanceProvenanceWorkloadExchange) then "" else r) = Ok b'.
Proof.
  unfold normalizeBinding, invalid. destruct (_ || _).
  - rewrite !reject_Ok. naive_solver.
  - case_bool_decide; [|done]. rewrite !res_bind_Ok. intros (x & Hx & Hr).
    apply reject_Ok in Hr as [_ [= ->]]. exists b'. by split; [eapply normalizeText_proj|].
Qed.

Lemma normalizeBinding_workload b r b' :
  normalizeBinding IssuanceProvenanceWorkloadExchange b r = Ok b' →
  normalizeText "workload binding id" b 200 = Ok b' ∧ r = "".
Proof.
  change (normalizeBinding IssuanceProvenanceWorkloadExchange b r) with
    (let? b := normalizeText "workload binding id" b 200 in
     reject! negb (bool_decide (r = "")) with ErrInvalidInput "resource" ;; Ok b).
  intros (x & Hx & Hr)%res_bind_Ok. apply reject_Ok in Hr as [Hr [= ->]].
  by apply negb_false_iff, bool_decide_eq_true in Hr.
Qed.

Lemma decideClass_proj derived named client session family fe e class :
  decideClass derived named client session family fe e = Ok class →
  decideClass derived class client session family fe e = Ok class ∧
  (class = derived ∨ class = ClientClassBrowser ∧ derived = ClientClassOAuthUser).
Proof.
  unfold decideClass. destruct (bool_decide (named = ClientClassBrowser)
    && bool_decide (derived = ClientClassOAuthUser)) eqn:E.
  - apply andb_true_iff in E as [->%bool_decide_eq_true ->%bool_decide_eq_true].
    intros (c & Hc & Hr)%res_bind_Ok. pose proof Hc as Hc'.
    rewrite !reject_Ok in Hc'. destruct Hc' as (_ & _ & [= <-]).
    rewrite !reject_Ok in Hr. destruct Hr as (_ & _ & [= <-]). split; [|auto].
    cbn in Hc |- *. rewrite Hc. reflexivity.
  - cbn [res_bind]. rewrite !reject_Ok. intros (Hn & Hs & [= ->]). split; [|auto].
    destruct (bool_decide (class = ClientClassBrowser :> string)
      && bool_decide (class = ClientClassOAuthUser :> string)) eqn:E'.
    + apply andb_true_iff in E' as [->%bool_decide_eq_true ?%bool_decide_eq_true]. done.
    + cbn [res_bind]. rewrite !reject_Ok. split; [|done].
      by rewrite (bool_decide_true (class = class)), andb_false_r.
Qed.
End projections.

Lemma deriveClientClass_Ok pv rs client user d :
  deriveClientClass pv rs client user = Ok d →
  (pv = "" ∧ user = "" ∧ client = "" ∧ d = ClientClassOrgBearer) ∨
  (pv = IssuanceProvenanceWorkloadExchange ∧ user = "" ∧ client = "" ∧ d = ClientClassWorkload) ∨
  (pv = IssuanceProvenanceDeviceAuthorization ∧ user ≠ "" ∧ rs = "" ∧ client = "" ∧
   d = ClientClassNativeDevice) ∨
  (pv = IssuanceProvenanceDeviceAuthorization ∧ user ≠ "" ∧ rs ≠ "" ∧ client ≠ "" ∧
   d = ClientClassOAuthUser).
Proof.
  unfold deriveClientClass, invalid.
  repeat (case_bool_decide; cbn [negb]; try done); intros [= <-]; naive_solver.
Qed.

Lemma decideClass_Ok d named client session family fe e class :
  d ≠ ClientClassBrowser →
  decideClass d named client session family fe e = Ok class →
  (class = d ∧ session = "" ∧ family = "" ∧ fe = None) ∨
  (class = ClientClassBrowser ∧ d = ClientClassOAuthUser ∧ session ≠ "" ∧ family ≠ "" ∧
   ∃ f x, fe = Some f ∧ e = Some x ∧ x ≤ f).
Proof.
  intros Hd. unfold decideClass. case_match eqn:E.
  - apply andb_true_iff in E as [_ ->%bool_decide_eq_true]. intros Hc. res_inv Hc. res_inv Ha.
    injection Ha as <-. injection Hc as <-. right. rewrite !orb_false_iff, !bool_decide_eq_false in Hb1.
    destruct Hb1 as [[[[? ?] ?] ?] ?]. destruct fe as [f|], e as [x|]; try done.
    repeat split; [done|done|]. exists f, x. repeat split.
    revert Hb2. unfold time_Before. rewrite bool_decide_eq_false. lia.
  - cbn [res_bind]. intros Hc. res_inv Hc. injection Hc as <-. left.
    revert Hb0. rewrite (bool_decide_false (d = _)) by done. cbn.
    rewrite !orb_false_iff, !negb_false_iff, !bool_decide_eq_true. naive_solver.
Qed.

Lemma normalizeBinding_Ok pv b rs b' :
  normalizeBinding pv b rs = Ok b' → (b' ≠ "" ↔ pv = IssuanceProvenanceWorkloadExchange).
Proof.
  destruct (decide (pv = IssuanceProvenanceWorkloadExchange)) as [->|Hpv].
  - intros [(_ & ? & _)%normalizeText_Ok _]%normalizeBinding_workload. done.
  - unfold normalizeBinding, invalid. case_match; [|by rewrite bool_decide_false by done].
    intros Hb. res_inv Hb. injection Hb as <-.
    apply negb_false_iff, bool_decide_eq_true in Hb0. done.
Qed.

Section create.
Context `{UnicodeTables}.

(** The facts a successful [normalizeCreate] establishes, field by field. *)
Record normalised (i n : CreateInput) : Prop := {
  nz_id : normalizeCredentialID (ci_CredentialID i) = Ok (ci_CredentialID n);
  nz_org : normalizeIdentifier "organization" (ci_OrgID i) = Ok (ci_OrgID n);
  nz_name : normalizeText "name" (ci_Name i) 200 = Ok (ci_Name n);
  nz_prefix : ci_TokenPrefix n = strings_TrimSpace (ci_TokenPrefix i);
  nz_prefix_ok : re_match tokenPrefixPattern (ci_TokenPrefix n) = true;
  nz_hash : normalizeTokenHash (ci_TokenHash i) = Ok (ci_TokenHash n);
  nz_repos : normalizeRepositories (ci_RepositoryScopes i) = Ok (ci_RepositoryScopes n);
  nz_scopes : normalizeScopes (ci_Scopes i) = Ok (ci_Scopes n);
  nz_actor : normalizeText "actor" (ci_ActorID i) 200 = Ok (ci_ActorID n);
  nz_expires : normalizeExpiry (ci_ExpiresAt i) = Ok (ci_ExpiresAt n);
  nz_provenance : ci_IssuanceProvenance n = ci_IssuanceProvenance i;
  nz_binding : normalizeBinding (ci_IssuanceProvenance i) (ci_WorkloadBindingID i) (ci_Resource i)
               = Ok (ci_WorkloadBindingID n);
  nz_resource : normalizeResource (ci_Resource i) = Ok (ci_Resource n);
  nz_client : normalizeOptionalText "client id" (ci_ClientID i) maxClientIDLength = Ok (ci_ClientID n);
  nz_user : normalizeOptionalText "approving user" (ci_ApprovingUserID i) 200
            = Ok (ci_ApprovingUserID n);
  nz_session : normalizeOptionalText "session id" (ci_SessionID i) 256 = Ok (ci_SessionID n);
  nz_family : normalizeOptionalText "family id" (ci_FamilyID i) 256 = Ok (ci_FamilyID n);
  nz_family_expires : ci_FamilyExpiresAt n = ci_FamilyExpiresAt i;
  nz_class : ∃ derived,
    deriveClientClass (ci_IssuanceProvenance i) (ci_Resource n) (ci_ClientID n)
      (ci_ApprovingUserID n) = Ok derived ∧
    decideClass derived (ci_ClientClass i) (ci_ClientID n) (ci_SessionID n) (ci_FamilyID n)
      (ci_FamilyExpiresAt i) (ci_ExpiresAt n) = Ok (ci_ClientClass n);
}.

Lemma normalizeCreate_Ok i n : normalizeCreate i = Ok n ↔ normalised i n.
Proof.
  split.
  - intros Hn. unfold normalizeCreate in Hn. res_inv Hn. injection Hn as <-.
    rewrite negb_false_iff in Hb. split; cbn; eauto.
  - intros [? ? ? Hp Hpo ? ? ? ? ? Hpv ? ? ? ? ? ? Hfe (d & ? & ?)]. unfold normalizeCreate.
    repeat match goal with
    | E : ?x = Ok _ |- context [res_bind ?x _] => rewrite E; cbn [res_bind]
    | |- context [re_match tokenPrefixPattern _] => rewrite <-Hp, Hpo; cbn [negb]
    end.
    rewrite <-Hpv, <-Hfe. by destruct n.
Qed.

(** Normalising is a projection.  A create input in normal form is
    returned exactly as it is, class and family included, so the stored value
    is the same whether an adapter normalises once or again. *)
Theorem normalizeCreate_projection i n :
  normalizeCreate i = Ok n → normalizeCreate n = Ok n.
Proof.
  rewrite !normalizeCreate_Ok. intros [? ? ? Hp Hpo ? ? ? ? ? Hpv Hbind Hres ? ? ? ? Hfe (d & Hd & Hc)].
  split; eauto using normalizeCredentialID_proj, normalizeTokenHash_proj, normalizeRepositories_proj,
    normalizeScopes_proj, normalizeExpiry_proj, normalizeResource_proj.
  - by eapply normalizeText_proj.
  - by eapply normalizeText_proj.
  - by rewrite Hp, TrimSpace_idemp.
  - by eapply normalizeRepositories_proj.
  - by eapply normalizeText_proj.
  - pose proof (normalizeBinding_proj _ _ _ _ Hbind) as Hb. rewrite Hpv.
    case_bool_decide as E.
    + assert (ci_Resource i = "") as E2.
      { rewrite E in Hbind. by apply normalizeBinding_workload in Hbind as [_ ?]. }
      rewrite E2 in Hres. cbn in Hres. injection Hres as <-. done.
    + revert Hb. unfold normalizeBinding. destruct (_ || _); [done|]. by rewrite bool_decide_false.
  - by eapply (normalizeOptionalText_proj "client id" maxClientIDLength).
  - by eapply (normalizeOptionalText_proj "approving user" 200).
  - by eapply (normalizeOptionalText_proj "session id" 256).
  - by eapply (normalizeOptionalText_proj "family id" 256).
  - exists d. rewrite Hpv, Hfe. split; [done|]. by apply decideClass_proj in Hc as [? _].
Qed.

(** The issuance path alone decides the class, and the class decides which
    provenance a credential carries.  Exactly the user-approved classes have an
    approving user, exactly the OAuth classes have a client and a resource,
    exactly the browser class has a session, a family and a family end no
    earlier than the credential's own expiry, exactly a workload credential has
    a workload binding, and no path yields the operator class. *)
Theorem normalizeCreate_class i n :
  normalizeCreate i = Ok n →
  let class := ci_ClientClass n in
  (ClientClass_Valid class = true ∧ class ≠ ClientClassOperator) ∧
  (ClientClass_UserApproved class = true ↔ ci_ApprovingUserID n ≠ "") ∧
  (class = ClientClassBrowser ∨ class = ClientClassOAuthUser ↔ ci_ClientID n ≠ "") ∧
  (ci_ClientID n ≠ "" → ci_Resource n ≠ "") ∧
  (class = ClientClassWorkload ↔ ci_WorkloadBindingID n ≠ "") ∧
  (class = ClientClassBrowser ↔ ci_FamilyID n ≠ "") ∧
  (class = ClientClassBrowser ↔ ci_SessionID n ≠ "") ∧
  (class = ClientClassBrowser → ∃ f e,
    ci_FamilyExpiresAt n = Some f ∧ ci_ExpiresAt n = Some e ∧ e ≤ f).
Proof.
  intros Hn%normalizeCreate_Ok. cbn zeta.
  destruct (nz_class _ _ Hn) as (d & Hd & Hc). rewrite <-(nz_family_expires _ _ Hn) in Hc.
  pose proof (nz_binding _ _ Hn) as Hb.
  destruct n as [id org name prefix hash repos scopes actor ex pv bind rs client user class session
    family fe]; cbn in *. clear Hn.
  apply normalizeBinding_Ok in Hb. apply deriveClientClass_Ok in Hd.
  apply decideClass_Ok in Hc; [|by destruct Hd as [(_&_&_&->)|[(_&_&_&->)|[(_&_&_&_&->)|(_&_&_&_&->)]]]].
  revert Hd Hb. generalize (ci_IssuanceProvenance i) as p. intros p Hd Hb.
  destruct Hd as [(->&->&->&->)|[(->&->&->&->)|[(->&?&->&->&->)|(->&?&?&?&->)]]];
    destruct Hc as [(->&->&->&->)|(->&?&?&?&?)]; try done;
    split_and!; try done; naive_solver.
Qed.
End create.

(** Normalising returns a value or an error; it never dereferences a nil. *)
Lemma normalizeCreate_safe `{UnicodeTables} i : normalizeCreate i ≠ Panic.
Proof.
  assert (∀ {A B} (m : res A) (k : A → res B), m ≠ Panic → (∀ a, k a ≠ Panic) → res_bind m k ≠ Panic)
    as Hbind by (intros A B [] k; cbn; auto).
  assert (∀ name v max, normalizeText name v max ≠ Panic) as Ht
    by (intros; unfold normalizeText; by case_match).
  assert (∀ name v max, normalizeOptionalText name v max ≠ Panic) as Ho
    by (intros; unfold normalizeOptionalText; by case_match).
  assert (∀ f v w s l, fold_scopes f v w s l ≠ Panic) as Hf.
  { intros f v w s l. revert s. induction l as [|x l IH]; intros s; cbn; [done|].
    do 2 (case_match; [done|]). apply Hbind; [apply IH|done]. }
  unfold normalizeCreate.
  apply Hbind; [unfold normalizeCredentialID; by case_match|intros id].
  apply Hbind; [apply Ht|intros org]. apply Hbind; [apply Ht|intros name]. case_match; [done|].
  apply Hbind; [unfold normalizeTokenHash; by case_match|intros hash].
  apply Hbind; [unfold normalizeRepositories; case_match; [done|by apply Hbind]|intros repos].
  apply Hbind; [unfold normalizeScopes; case_match; [done|by apply Hbind]|intros scopes].
  apply Hbind; [apply Ht|intros actor].
  apply Hbind; [unfold normalizeExpiry; by repeat case_match|intros ex].
  apply Hbind; [unfold normalizeBinding; case_match; [by case_match|case_match; [|done]];
                apply Hbind; [apply Ht|intros; by case_match]|intros bind].
  apply Hbind; [unfold normalizeResource; by repeat case_match|intros res].
  do 4 (apply Hbind; [apply Ho|intros ?]).
  apply Hbind; [unfold deriveClientClass; by repeat case_match|intros d].
  apply Hbind; [|done]. unfold decideClass. apply Hbind; [by repeat case_match|].
  intros c. by repeat case_match.
Qed.

(** ** A concrete browser credential *)

(** The two code points above ASCII whose lower-case form is ASCII. *)
Definition sample_tables : UnicodeTables :=
  {| unicode_lower_table := λ r, if bool_decide (r = 8490) then 107
                                 else if bool_decide (r = 304) then 105 else r |}.

Definition sample_hash : string :=
  "00112233445566778899aabbccddeeff00112233445566778899aabbccddeeff".

Definition sample_create : CreateInput :=
  Create " cred-1 " "org-1" "Laptop" "fcacr_abcdef" sample_hash
    ["Full-Chaos/*"; "acme/web"; "acme/web"] ["evidence:read"; "context:read"] "user-1"
    (Some 1000) IssuanceProvenanceDeviceAuthorization "" "https://api.example.com/mcp"
    "https://client.example.com/id" "user-1" ClientClassBrowser "session-1" "family-1" (Some 2000).

Definition sample_normal : CreateInput :=
  Create "cred-1" "org-1" "Laptop" "fcacr_abcdef" sample_hash
    ["acme/web"; "full-chaos/*"] ["context:read"; "evidence:read"] "user-1"
    (Some 1000) IssuanceProvenanceDeviceAuthorization "" "https://api.example.com/mcp"
    "https://client.example.com/id" "user-1" ClientClassBrowser "session-1" "family-1" (Some 2000).

Lemma normalizeCreate_projection_witness :
  @normalizeCreate sample_tables sample_create = Ok sample_normal ∧
  @normalizeCreate sample_tables sample_normal = Ok sample_normal.
Proof.
  split; [vm_compute; reflexivity|].
  apply (@normalizeCreate_projection sample_tables sample_create). vm_compute. reflexivity.
Defined.

Lemma normalizeCreate_class_witness :
  ∃ f e, ci_FamilyExpiresAt sample_normal = Some f ∧ ci_ExpiresAt sample_normal = Some e ∧ e ≤ f.
Proof.
  destruct (@normalizeCreate_class sample_tables sample_create sample_normal)
    as (_ & _ & _ & _ & _ & _ & _ & Hb); [vm_compute; reflexivity|].
  apply Hb. reflexivity.
Defined.
