(* ===== verification/Tokens.v ===== *)
(** * Tokens: the shape of an access token (internal/auth/token.go)

    A token is the marker [fcacr_] and 32 random bytes in unpadded base64url.
    The encodings are the ones of Go's encoding/base64 (RawURLEncoding, with
    [Strict] decoding) and encoding/base32 (StdEncoding without padding); the
    bytes that crypto/rand reads are an argument, [None] when the read fails.
    The theorems: the shape check accepts exactly the tokens the generator
    makes, each from one secret, and what the generator makes passes every
    check of the credential store. *)

From Stdlib Require Import ZArith Lia Ascii.
From stdpp Require Import sorting pretty numbers gmap strings list_numbers list.
From S2P Require Import Prelude GoStrings Regexp Sha256 Validation.

Open Scope Z_scope.

(** ** encoding/base64 and encoding/base32 *)

Definition pick (alphabet : string) (n : Z) : ascii := default "000"%char (chars alphabet !! Z.to_nat n).

Definition encodeURL : string := "ABCDEFGHIJKLMNOPQRSTUVWXYZabcdefghijklmnopqrstuvwxyz0123456789-_".
Definition encodeStd32 : string := "ABCDEFGHIJKLMNOPQRSTUVWXYZ234567".

Definition url_digit (n : Z) : ascii := pick encodeURL n.

(** The six-bit groups of the bytes, the last one filled with zeros. *)
Fixpoint base64_groups (src : list Z) : list Z :=
  match src with
  | [] => []
  | [a] => [a / 4; a mod 4 * 16]
  | [a; b] => [a / 4; a mod 4 * 16 + b / 16; b mod 16 * 4]
  | a :: b :: c :: rest =>
    a / 4 :: a mod 4 * 16 + b / 16 :: b mod 16 * 4 + c / 64 :: c mod 64 :: base64_groups rest
  end.

(** [base64.RawURLEncoding.EncodeToString] *)
Definition RawURLEncoding_EncodeToString (src : list Z) : string := of_chars (url_digit <$> base64_groups src).

(** The decode map: the position of a character in the alphabet. *)
Definition url_value (c : ascii) : option Z :=
  (λ p : nat * ascii, Z.of_nat p.1) <$> list_find (eq c) (chars encodeURL).

Fixpoint all_some {A} (l : list (option A)) : option (list A) :=
  match l with
  | [] => Some []
  | None :: _ => None
  | Some a :: l' => cons a <$> all_some l'
  end.

(** Strict: the bits a short last group leaves over must be zero. *)
Fixpoint base64_quanta (strict : bool) (digits : list Z) : option (list Z) :=
  match digits with
  | [] => Some []
  | [_] => None
  | [v; w] => if negb strict || (w mod 16 =? 0) then Some [v * 4 + w / 16] else None
  | [v; w; x] => if negb strict || (x mod 4 =? 0) then Some [v * 4 + w / 16; w mod 16 * 16 + x / 4] else None
  | v :: w :: x :: y :: rest =>
    (λ l, v * 4 + w / 16 :: w mod 16 * 16 + x / 4 :: x mod 4 * 64 + y :: l) <$> base64_quanta strict rest
  end.

(** [base64.RawURLEncoding.DecodeString], and the same after [Strict()]: CR and
    LF are skipped. *)
Definition base64_decode (strict : bool) (s : string) : option (list Z) :=
  let skipped (c : ascii) := bool_decide (code c = 10) || bool_decide (code c = 13) in
  all_some (url_value <$> filter (λ c, skipped c = false) (chars s)) ≫= base64_quanta strict.
Definition RawURLEncoding_DecodeString (s : string) : option (list Z) := base64_decode false s.
Definition RawURLEncoding_Strict_DecodeString (s : string) : option (list Z) := base64_decode true s.

(** [base32.StdEncoding.WithPadding(base32.NoPadding).EncodeToString]: the bits
    of the bytes, five by five, the last group filled with zeros. *)
Fixpoint be_bits (k : nat) (x : Z) : list Z :=
  match k with O => [] | S k' => (x / 2 ^ Z.of_nat k') mod 2 :: be_bits k' x end.
Fixpoint base32_groups (bits : list Z) : list ascii :=
  let digit a b c d e := pick encodeStd32 (16 * a + 8 * b + 4 * c + 2 * d + e) in
  match bits with
  | [] => []
  | [a] => [digit a 0 0 0 0]
  | [a; b] => [digit a b 0 0 0]
  | [a; b; c] => [digit a b c 0 0]
  | [a; b; c; d] => [digit a b c d 0]
  | a :: b :: c :: d :: e :: rest => digit a b c d e :: base32_groups rest
  end.
Definition StdEncoding_EncodeToString (src : list Z) : string :=
  of_chars (base32_groups (concat (be_bits 8 <$> src))).

(** ** token.go *)

Definition TokenPrefix : string := "fcacr_".
Definition tokenSecretBytes : Z := 32.

(** [rand.Read] into a buffer of the given length. *)
Definition random_source : Type := Z → option (list Z).

Definition GenerateToken (rand_Read : random_source) : res string :=
  match rand_Read tokenSecretBytes with
  | None => Err (ErrText "generate token")
  | Some secret => Ok (TokenPrefix +:+ RawURLEncoding_EncodeToString secret)
  end.

Definition GenerateCredentialID `{UnicodeTables} (rand_Read : random_source) : res string :=
  match rand_Read 10 with
  | None => Err (ErrText "generate credential id")
  | Some random => Ok ("cred_" +:+ strings_ToLower (StdEncoding_EncodeToString random))
  end.

Definition HashToken (token : string) : string := sha256_hex token.

Definition DisplayPrefix (token : string) : string :=
  let displayLength := slen TokenPrefix + 10 in
  if slen token <=? displayLength then token else slice_upto token (Z.to_nat displayLength).

Definition tokenEncodedLen : Z := (tokenSecretBytes * 8 + 5) / 6.

Definition isRawURLAlphabet (value : string) : bool :=
  all_chars (λ c, is_upper c || is_lower c || is_digit c || one_of ["-"; "_"]%char c) value.

Definition IsTokenShapeValid (token : string) : bool :=
  if negb (strings_HasPrefix token TokenPrefix) then false
  else
    let secret := strings_TrimPrefix token TokenPrefix in
    if negb (slen secret =? tokenEncodedLen) || negb (isRawURLAlphabet secret) then false
    else
      match RawURLEncoding_Strict_DecodeString secret with
      | None => false
      | Some decoded => Z.of_nat (length decoded) =? tokenSecretBytes
      end.

(** ** Digits *)

(** What crypto/rand promises: as many bytes as were asked for. *)
Definition fills (rand_Read : random_source) : Prop :=
  ∀ n l, rand_Read n = Some l → Z.of_nat (length l) = n ∧ Forall (λ b, 0 ≤ b < 256) l.

Lemma Z_range_forall (n : nat) (p : Z → bool) :
  forallb p (Z.of_nat <$> seq 0 n) = true → ∀ z, 0 ≤ z < Z.of_nat n → p z = true.
Proof.
  rewrite forallb_Forall, Forall_forall. intros Hp z Hz. apply (Hp z). apply list_elem_of_fmap.
  exists (Z.to_nat z). rewrite elem_of_seq. lia.
Qed.

Lemma url_value_digit n : 0 ≤ n < 64 → url_value (url_digit n) = Some n.
Proof.
  intros Hn. pose proof (Z_range_forall 64
    (λ n, bool_decide (url_value (url_digit n) = Some n)) ltac:(by vm_compute) n Hn) as H.
  by apply bool_decide_eq_true in H.
Qed.

(** A character of the alphabet. *)
Definition url_char (c : ascii) : bool :=
  is_upper c || is_lower c || is_digit c || one_of ["-"; "_"]%char c.

Lemma url_char_value c : url_char c = true → ∃ n, url_value c = Some n ∧ 0 ≤ n < 64 ∧ url_digit n = c.
Proof.
  intros Hc. pose proof (class_forall url_char (λ c, match url_value c with
    | Some n => (0 <=? n) && (n <? 64) && bool_decide (url_digit n = c)
    | None => false
    end) ltac:(by vm_compute) c Hc) as Hv. cbv beta in Hv.
  destruct (url_value c) as [n|]; [|done]. rewrite !andb_true_iff, bool_decide_eq_true in Hv.
  exists n. split; [done|]. split; [lia|tauto].
Qed.

Lemma url_digit_char n : 0 ≤ n < 64 → url_char (url_digit n) = true.
Proof. apply (Z_range_forall 64 (λ n, url_char (url_digit n))). by vm_compute. Qed.

(** ** Encoding and decoding *)

Notation byte_list l := (Forall (λ b, 0 ≤ b < 256) l).
Notation digit_list l := (Forall (λ d, 0 ≤ d < 64) l).

(** Bytes three by three, digits four by four. *)
Lemma triple_ind {A} (P : list A → Prop) :
  P [] → (∀ a, P [a]) → (∀ a b, P [a; b]) → (∀ a b c l, P l → P (a :: b :: c :: l)) → ∀ l, P l.
Proof.
  intros H0 H1 H2 H3. fix IH 1. intros [|a [|b [|c l]]]; [done|apply H1|apply H2|]. apply H3, IH.
Qed.

Lemma quad_ind {A} (P : list A → Prop) :
  P [] → (∀ a, P [a]) → (∀ a b, P [a; b]) → (∀ a b c, P [a; b; c]) →
  (∀ a b c d l, P l → P (a :: b :: c :: d :: l)) → ∀ l, P l.
Proof.
  intros H0 H1 H2 H3 H4. fix IH 1. intros [|a [|b [|c [|d l]]]]; [done|apply H1|apply H2|apply H3|].
  apply H4, IH.
Qed.

(** Linear arithmetic with quotients and remainders by constants. *)
Ltac bits := Z.to_euclidean_division_equations; lia.
Ltac split_bytes := repeat match goal with H : Forall _ (_ :: _) |- _ => apply Forall_cons in H as [??] end.

Lemma groups_quanta strict src : byte_list src → base64_quanta strict (base64_groups src) = Some src.
Proof.
  induction src as [|a|a b|a b c l IH] using triple_ind; intros Hb; split_bytes; [done|..]; cbn.
  - rewrite (proj2 (Z.eqb_eq _ _)), orb_true_r by bits. do 2 f_equal. bits.
  - rewrite (proj2 (Z.eqb_eq _ _)), orb_true_r by bits. do 2 f_equal; [bits|]. f_equal. bits.
  - rewrite IH by done. cbn. do 2 f_equal; [bits|]. f_equal; [bits|]. f_equal. bits.
Qed.

Lemma groups_digits src : byte_list src → digit_list (base64_groups src).
Proof.
  induction src as [|a|a b|a b c l IH] using triple_ind; intros Hb; split_bytes; cbn;
    repeat constructor; try bits. auto.
Qed.

Lemma groups_length src :
  Z.of_nat (length (base64_groups src)) = (Z.of_nat (length src) * 8 + 5) / 6.
Proof. induction src as [|a|a b|a b c l IH] using triple_ind; cbn [length base64_groups]; bits. Qed.

Lemma quanta_groups ds src :
  digit_list ds → base64_quanta true ds = Some src → base64_groups src = ds ∧ byte_list src.
Proof.
  revert src. induction ds as [|v|v w|v w x|v w x y l IH] using quad_ind; intros src Hd Hq;
    split_bytes; cbn in Hq.
  - injection Hq as <-. done.
  - done.
  - case_match; [|done]. injection Hq as <-. split; [|repeat constructor; bits].
    cbn. f_equal; [bits|]. f_equal. bits.
  - case_match; [|done]. injection Hq as <-. split; [|repeat constructor; bits].
    cbn. f_equal; [bits|]. f_equal; [bits|]. f_equal. bits.
  - destruct (base64_quanta true l) as [rest|]; [|done]. injection Hq as <-.
    destruct (IH rest) as [Hg Hb]; [done..|]. split; [|repeat constructor; (done || bits)].
    cbn. rewrite Hg. f_equal; [bits|]. f_equal; [bits|]. f_equal; [bits|]. f_equal. bits.
Qed.

Lemma all_some_map {A B} (f : A → option B) (g : B → A) l :
  (∀ x, x ∈ l → f (g x) = Some x) → all_some (f <$> (g <$> l)) = Some l.
Proof.
  induction l as [|x l IH]; intros Hf; [done|]. cbn. rewrite (Hf x) by set_solver.
  rewrite IH; [done|]. intros y Hy. apply Hf. set_solver.
Qed.

Lemma url_char_kept l :
  Forall (λ c, url_char c = true) l →
  filter (λ c, bool_decide (code c = 10) || bool_decide (code c = 13) = false) l = l.
Proof.
  induction 1 as [|c l Hc _ IH]; [done|]. rewrite filter_cons_True; [by rewrite IH|].
  pose proof (class_forall url_char (λ c, negb (bool_decide (code c = 10) || bool_decide (code c = 13)))
    ltac:(by vm_compute) c Hc) as H. by apply negb_true_iff in H.
Qed.

Lemma encode_alphabet src : byte_list src → isRawURLAlphabet (RawURLEncoding_EncodeToString src) = true.
Proof.
  intros Hb. apply all_chars_Forall. unfold RawURLEncoding_EncodeToString. rewrite chars_of_chars.
  apply Forall_fmap. eapply Forall_impl; [by apply groups_digits|]. intros d Hd. by apply url_digit_char.
Qed.

Lemma decode_encode src :
  byte_list src → RawURLEncoding_Strict_DecodeString (RawURLEncoding_EncodeToString src) = Some src.
Proof.
  intros Hb. pose proof (encode_alphabet _ Hb) as Ha%all_chars_Forall. revert Ha.
  unfold RawURLEncoding_Strict_DecodeString, base64_decode, RawURLEncoding_EncodeToString. rewrite chars_of_chars.
  intros Ha. rewrite url_char_kept by done. pose proof (groups_digits _ Hb) as Hd.
  rewrite all_some_map; [by apply groups_quanta|]. intros d Hin. rewrite Forall_forall in Hd.
  by apply url_value_digit, Hd.
Qed.

(** A strict decoding has one encoding. *)
Lemma decode_inv s src :
  isRawURLAlphabet s = true → RawURLEncoding_Strict_DecodeString s = Some src →
  byte_list src ∧ s = RawURLEncoding_EncodeToString src.
Proof.
  intros Ha%all_chars_Forall. unfold RawURLEncoding_Strict_DecodeString, base64_decode, RawURLEncoding_EncodeToString.
  rewrite url_char_kept by done.
  assert (∃ ds, all_some (url_value <$> chars s) = Some ds ∧ digit_list ds ∧ url_digit <$> ds = chars s)
    as (ds & -> & Hd & Hs).
  { induction Ha as [|c l Hc _ (ds & Hv & Hd & Hs)]; [by exists []|].
    destruct (url_char_value c Hc) as (n & Hn & Hr & Hdig). exists (n :: ds).
    rewrite !fmap_cons, Hn. cbn [all_some]. rewrite Hv. split_and!; [done|by constructor|].
    by rewrite Hs, Hdig. }
  cbn. intros Hq. destruct (quanta_groups _ _ Hd Hq) as [Hg Hb]. split; [done|].
  by rewrite Hg, Hs, of_chars_chars.
Qed.

Lemma encode_length src :
  slen (RawURLEncoding_EncodeToString src) = (Z.of_nat (length src) * 8 + 5) / 6.
Proof.
  unfold RawURLEncoding_EncodeToString. rewrite slen_chars, chars_of_chars, length_fmap.
  apply groups_length.
Qed.

Lemma generated_shape secret :
  byte_list secret → Z.of_nat (length secret) = tokenSecretBytes →
  IsTokenShapeValid (TokenPrefix +:+ RawURLEncoding_EncodeToString secret) = true.
Proof.
  intros Hb Hl. unfold IsTokenShapeValid, strings_HasPrefix. rewrite string_prefix_app, TrimPrefix_app.
  cbn [negb]. rewrite encode_length, Hl, encode_alphabet by done. cbn [negb orb].
  rewrite decode_encode, Hl by done. done.
Qed.

Lemma shape_generated token :
  IsTokenShapeValid token = true →
  ∃ secret, byte_list secret ∧ Z.of_nat (length secret) = tokenSecretBytes
    ∧ token = TokenPrefix +:+ RawURLEncoding_EncodeToString secret.
Proof.
  unfold IsTokenShapeValid, strings_HasPrefix.
  destruct (String.prefix TokenPrefix token) eqn:Hp; [|done]. cbn [negb].
  apply prefix_split in Hp. rewrite Hp, TrimPrefix_app.
  set (s := slice_from token _). destruct (_ || _) eqn:Hg; [done|].
  apply orb_false_iff in Hg as [_ Ha%negb_false_iff].
  destruct (RawURLEncoding_Strict_DecodeString s) as [secret|] eqn:Hd; [|done].
  intros Hl%Z.eqb_eq. apply decode_inv in Hd as [Hb ->]; [|done]. by exists secret.
Qed.

(** The shape check accepts exactly the tokens the generator can make, and
    a token that passes was made from one secret only: no two spellings of a
    secret, a line break, a padding or a loose last character included, are
    ever both tokens. *)
Theorem token_shape_exact token :
  IsTokenShapeValid token = true ↔
  exists! secret : list Z, Z.of_nat (length secret) = tokenSecretBytes ∧ Forall (λ b, 0 ≤ b < 256) secret
    ∧ GenerateToken (λ _, Some secret) = Ok token.
Proof.
  split.
  - intros (secret & Hb & Hl & ->)%shape_generated. exists secret. split; [done|].
    intros other (_ & Ho & Heq). unfold GenerateToken in Heq.
    apply (f_equal (λ r, match r with Ok t => strings_TrimPrefix t TokenPrefix | _ => "" end)) in Heq.
    cbv beta iota in Heq. rewrite !TrimPrefix_app in Heq.
    apply (f_equal RawURLEncoding_Strict_DecodeString) in Heq.
    rewrite !decode_encode in Heq by done. by injection Heq.
  - intros (secret & (Hl & Hb & Ht) & _). unfold GenerateToken in Ht.
    assert (token = TokenPrefix +:+ RawURLEncoding_EncodeToString secret) as -> by congruence.
    by apply generated_shape.
Qed.

(** ** What the credential store is given *)

Lemma ToLower_ascii `{UnicodeTables} s :
  ascii_string s → strings_ToLower s = of_chars (RepoSlug.lower_byte <$> chars s).
Proof.
  intros Hs. unfold strings_ToLower, of_bytes. rewrite runes_ascii by done. f_equal.
  unfold bytes_of. rewrite <-list_fmap_compose. unfold ascii_string in Hs.
  induction Hs as [|c l Hc _ IH]; [done|]. cbn. rewrite fmap_app, IH. clear IH.
  unfold RepoSlug.lower_byte, is_upper, between, unicode_ToLower. cbn. pose proof (code_range c).
  rewrite (proj2 (Z.ltb_lt _ _) Hc).
  destruct ((65 <=? code c) && (code c <=? 90)) eqn:Hu; unfold encode_rune.
  - rewrite andb_true_iff, !Z.leb_le in Hu.
    by rewrite (proj2 (Z.leb_le 0 _)), (proj2 (Z.ltb_lt _ 128)) by lia.
  - rewrite (proj2 (Z.leb_le 0 _)), (proj2 (Z.ltb_lt _ 128)) by lia. cbn. by rewrite chr_code.
Qed.

Lemma token_plain token : IsTokenShapeValid token = true → all_chars token_char token = true.
Proof.
  intros (secret & Hb & _ & ->)%shape_generated. rewrite all_chars_app. apply andb_true_iff. split; [done|].
  eapply all_chars_impl; [|by apply encode_alphabet]. apply (class_forall url_char token_char). by vm_compute.
Qed.

(** The prefix of a token that is shown and stored: the marker and ten of the
    forty-three characters of the secret. *)
Lemma display_prefix token :
  IsTokenShapeValid token = true →
  ∃ shown hidden, token = TokenPrefix +:+ shown +:+ hidden ∧ DisplayPrefix token = TokenPrefix +:+ shown
    ∧ slen shown = 10 ∧ slen hidden = 33.
Proof.
  intros (secret & Hb & Hl & ->)%shape_generated. set (e := RawURLEncoding_EncodeToString secret).
  assert (slen e = 43) as He by (unfold e; rewrite encode_length, Hl; done).
  exists (slice_upto e 10), (slice_from e 10).
  assert (length (chars e) = 43%nat) as Hc by (rewrite slen_chars in He; lia).
  assert (slice_upto e 10 +:+ slice_from e 10 = e) as Hsplit.
  { rewrite <-(of_chars_chars (_ +:+ _)), chars_app. unfold slice_upto, slice_from.
    by rewrite !chars_of_chars, take_drop, of_chars_chars. }
  split_and!; [by rewrite Hsplit| |..].
  - unfold DisplayPrefix. rewrite slen_app, He, (proj2 (Z.leb_gt _ _)) by (cbn; lia).
    unfold slice_upto. rewrite chars_app, take_app_ge by (vm_compute; lia).
    change (Z.to_nat (slen TokenPrefix + 10) - length (chars TokenPrefix))%nat with 10%nat.
    rewrite <-(of_chars_chars (TokenPrefix +:+ _)), chars_app, chars_of_chars. done.
  - rewrite slen_chars. unfold slice_upto. rewrite chars_of_chars, length_take. lia.
  - rewrite slen_chars. unfold slice_from. rewrite chars_of_chars, length_drop. lia.
Qed.

Lemma token_char_plain c : token_char c = true → plain c = true.
Proof. apply class_forall. by vm_compute. Qed.

Lemma lang_token_prefix shown :
  all_chars token_char shown = true → 6 ≤ slen shown ≤ 64 →
  re_match tokenPrefixPattern (TokenPrefix +:+ shown) = true.
Proof.
  rewrite all_chars_Forall. intros Hc Hl. apply re_match_lang. exists (chars TokenPrefix), (chars shown).
  split; [by rewrite chars_app|]. split; [by apply lang_lit|]. unfold Times. apply lang_class_rep.
  rewrite slen_chars in Hl. split; [done|]. split; [lia|]. cbn [within]. lia.
Qed.

(** The store's checks of a prefix and of a hash never refuse a generated token. *)
Lemma display_prefix_accepted token :
  IsTokenShapeValid token = true →
  strings_TrimSpace (DisplayPrefix token) = DisplayPrefix token
  ∧ re_match tokenPrefixPattern (DisplayPrefix token) = true.
Proof.
  intros Ht. pose proof (token_plain _ Ht) as Hp.
  destruct (display_prefix _ Ht) as (shown & hidden & -> & -> & Hs & _).
  rewrite !all_chars_app, !andb_true_iff in Hp. destruct Hp as (Hm & Hsh & _). split.
  - apply plain_TrimSpace. rewrite all_chars_app. apply andb_true_iff.
    split; [done|]. eapply all_chars_impl; [|exact Hsh]. apply token_char_plain.
  - apply lang_token_prefix; [done|lia].
Qed.

Lemma hash_accepted token : normalizeTokenHash (HashToken token) = Ok (HashToken token).
Proof.
  pose proof (sha256_hex_shape token) as Hh. unfold normalizeTokenHash, HashToken.
  pose proof Hh as [_ Hc]%match_class_spec. rewrite plain_TrimSpace.
  - unfold tokenHashPattern. rewrite re_match_class.
    assert (match_class (λ c, between 97 102 c || is_digit c) (Z.of_nat 64) (Z.of_nat 64) (sha256_hex token) = true)
      as ->; [|done].
    apply match_class_spec in Hh as [Hl _]. apply match_class_spec. split; [exact Hl|].
    eapply all_chars_impl; [|exact Hc]. apply class_forall. by vm_compute.
  - eapply all_chars_impl; [|exact Hc]. apply class_forall. by vm_compute.
Qed.

Lemma base32_alphabet bits :
  Forall (λ b, 0 ≤ b < 2) bits →
  Forall (λ c, is_upper c || between 50 55 c = true) (base32_groups bits).
Proof.
  assert (∀ n, 0 ≤ n < 32 → is_upper (pick encodeStd32 n) || between 50 55 (pick encodeStd32 n) = true) as Hd
    by (apply (Z_range_forall 32 (λ n, is_upper (pick encodeStd32 n) || between 50 55 (pick encodeStd32 n)));
        by vm_compute).
  revert bits. fix IH 1. intros [|a [|b [|c [|d [|e l]]]]] Hb; cbn [base32_groups]; split_bytes; repeat constructor;
    try (apply Hd; lia). by apply IH.
Qed.

Lemma base32_length bits : Z.of_nat (length (base32_groups bits)) = (Z.of_nat (length bits) + 4) / 5.
Proof.
  revert bits. fix IH 1. intros [|a [|b [|c [|d [|e l]]]]]; cbn [base32_groups length]; try bits.
  rewrite Nat2Z.inj_succ, (IH l). bits.
Qed.

Lemma be_bits_range k x : Forall (λ b, 0 ≤ b < 2) (be_bits k x).
Proof. induction k; cbn; constructor; [apply Z.mod_pos_bound; lia|done]. Qed.

Lemma be_bits_length k x : length (be_bits k x) = k.
Proof. induction k; cbn; congruence. Qed.

Lemma concat_length_const {A B} (f : A → list B) k l :
  (∀ x, length (f x) = k) → length (concat (f <$> l)) = (k * length l)%nat.
Proof. intros Hf. induction l; cbn; [lia|]. rewrite length_app, Hf, IHl. lia. Qed.

(** A credential id is its marker and lower-case base32. *)
Lemma credential_id_accepted `{UnicodeTables} rand_Read id :
  fills rand_Read → GenerateCredentialID rand_Read = Ok id → normalizeCredentialID id = Ok id.
Proof.
  intros Hf. unfold GenerateCredentialID. destruct (rand_Read 10) as [bytes|] eqn:Hr; [|done].
  destruct (Hf _ _ Hr) as [Hl _]. intros [= <-].
  set (e := StdEncoding_EncodeToString bytes).
  assert (chars e = base32_groups (concat (be_bits 8 <$> bytes))) as Hce by apply chars_of_chars.
  assert (Forall (λ c, is_upper c || between 50 55 c = true) (chars e)) as He.
  { rewrite Hce. apply base32_alphabet.
    apply Forall_concat, Forall_fmap, Forall_forall. intros b _. apply be_bits_range. }
  assert (length (chars e) = 16%nat) as H16.
  { pose proof (base32_length (concat (be_bits 8 <$> bytes))) as Hb. rewrite <-Hce in Hb.
    rewrite (concat_length_const _ 8) in Hb by apply be_bits_length. bits. }
  assert (strings_ToLower e = of_chars (RepoSlug.lower_byte <$> chars e)) as ->.
  { apply ToLower_ascii. eapply Forall_impl; [exact He|]. intros c Hc. cbv beta in Hc.
    pose proof (class_forall (λ c, is_upper c || between 50 55 c) (λ c, code c <? 128) ltac:(by vm_compute) c Hc).
    by apply Z.ltb_lt. }
  assert (Forall (λ c, id_char c && plain c = true) (RepoSlug.lower_byte <$> chars e)) as Hlow.
  { apply Forall_fmap. eapply Forall_impl; [exact He|]. intros c Hc. cbv beta in Hc.
    exact (class_forall (λ c, is_upper c || between 50 55 c)
      (λ c, id_char (RepoSlug.lower_byte c) && plain (RepoSlug.lower_byte c)) ltac:(by vm_compute) c Hc). }
  set (l := RepoSlug.lower_byte <$> chars e) in *.
  assert (length l = 16%nat) as Hlen by (unfold l; by rewrite length_fmap).
  unfold normalizeCredentialID. rewrite plain_TrimSpace.
  - assert (re_match credentialIDPattern ("cred_" +:+ of_chars l) = true) as ->; [|done].
    apply re_match_lang. exists ["c"%char], (chars "red_" ++ l).
    split; [by rewrite chars_app, chars_of_chars|]. split; [by exists "c"%char|]. apply lang_class_rep.
    split; [|split; [lia|]; cbn [within]; rewrite length_app; cbn; lia].
    apply Forall_app. split; [by repeat constructor|]. eapply Forall_impl; [exact Hlow|].
    intros c [? _]%andb_true_iff. done.
  - rewrite all_chars_app. apply andb_true_iff. split; [done|]. apply all_chars_Forall.
    rewrite chars_of_chars. eapply Forall_impl; [exact Hlow|]. by intros c [_ ?]%andb_true_iff.
Qed.
