(* ===== verification/Grants.v ===== *)
(** * Grants: what a caller's grant lets it read

    internal/auth/repository.go, grant_class.go and work_item_grant.go, the
    reserved scopes of internal/contracts/v1/reserved_repository_scope.go, and
    the narrowing of an authenticated principal in internal/auth/middleware.go.
    [Principal] is storage.Principal.  The selector set is a type of
    full-chaos/dev-health-go/readers: the three fields the program fills in and
    reads.  A set that Go keeps in a map and only asks for membership is a list
    or a [gset]. *)

From Stdlib Require Import ZArith Lia Ascii.
From stdpp Require Import sorting pretty numbers gmap strings list_numbers list.
From S2P Require Import Prelude GoStrings RepoSlug GoNet CredTypes.

Open Scope Z_scope.

(** ** Principals *)

Definition AuthenticationMethod : Type := string.
Definition AuthenticationMethodCredential : AuthenticationMethod := "credential".
Definition AuthenticationMethodWebAssertion : AuthenticationMethod := "web_assertion".

Record Principal := MkPrincipal {
  pr_AuthenticationMethod : AuthenticationMethod;
  pr_Subject : string;
  pr_OrgID : string;
  pr_CredentialID : string;
  pr_RepositoryScopes : list string;
  pr_Permissions : list string;
  pr_ProductEntitlements : list string;
  pr_ClientClass : ClientClass;
  pr_ApprovingUserID : string;
  pr_SessionID : string;
  pr_Impersonating : bool;
  pr_CredentialSessionID : string;
  pr_ProjectScopes : list string;
}.
#[global] Instance Principal_eq_dec : EqDecision Principal.
Proof. solve_decision. Defined.

Definition pr_set_grant (repositories projects : list string) (p : Principal) : Principal :=
  MkPrincipal (pr_AuthenticationMethod p) (pr_Subject p) (pr_OrgID p) (pr_CredentialID p) repositories
    (pr_Permissions p) (pr_ProductEntitlements p) (pr_ClientClass p) (pr_ApprovingUserID p) (pr_SessionID p)
    (pr_Impersonating p) (pr_CredentialSessionID p) projects.

Definition HoldsProjectGrant (p : Principal) : bool := negb (bool_decide (pr_ProjectScopes p = [])).

(** [Principal.AuditActor] *)
Definition AuditActor (p : Principal) : string * string :=
  if bool_decide (pr_AuthenticationMethod p = AuthenticationMethodWebAssertion)
  then (AuthenticationMethodWebAssertion, pr_Subject p)
  else (AuthenticationMethodCredential, pr_Subject p).

(** ** Classes of grants *)

Definition GrantClass : Type := string.
Definition GrantUnrestricted : GrantClass := "unrestricted".
Definition GrantUniversal : GrantClass := "universal".
Definition GrantRestricted : GrantClass := "restricted".
Definition GrantProjectOnly : GrantClass := "project_only".

Definition GrantClassVocabulary : list GrantClass :=
  [GrantUnrestricted; GrantUniversal; GrantRestricted; GrantProjectOnly].

Definition IsRestricted (c : GrantClass) : bool :=
  if bool_decide (c = GrantUnrestricted) || bool_decide (c = GrantUniversal) then false
  else if bool_decide (c = GrantRestricted) || bool_decide (c = GrantProjectOnly) then true
  else true.

Definition ClassifyGrant (principal : Principal) : GrantClass :=
  if HoldsProjectGrant principal then GrantProjectOnly
  else if bool_decide (pr_RepositoryScopes principal = []) then GrantUnrestricted
  else if existsb (λ scope, bool_decide (strings_TrimSpace scope = "*")) (pr_RepositoryScopes principal)
  then GrantUniversal
  else GrantRestricted.

(** ** Requests for a credential (internal/auth/types.go) *)

Record CreateCredentialRequest := CreateRequest {
  cq_OrgID : string;
  cq_Name : string;
  cq_RepositoryScopes : list string;
  cq_Scopes : list string;
  cq_CreatedBy : string;
  cq_ExpiresAt : option time;
  cq_IssuanceProvenance : IssuanceProvenance;
  cq_WorkloadBindingID : string;
  cq_Resource : string;
  cq_ClientID : string;
  cq_ClientClass : ClientClass;
  cq_FamilyID : string;
  cq_FamilyExpiresAt : option time;
}.

(** ** Repository scopes *)

Definition ReservedRepositoryScopePrefix : string := "acr-reserved:".
Definition ProjectOnlyRepositoryScope : string := ReservedRepositoryScopePrefix +:+ "project-only".

Section grants.
Context `{UnicodeTables}.

Definition IsReservedRepositoryScope (value : string) : bool :=
  strings_HasPrefix (strings_ToLower (strings_TrimSpace value)) ReservedRepositoryScopePrefix.

Definition containsReservedRepositoryScope (values : list string) : bool :=
  existsb IsReservedRepositoryScope values.

Definition validRepositoryScope (scope : string) : bool := ValidScope scope.

(** The loop of [NormalizeRepositoryScopes]. *)
Fixpoint repository_scopes_loop (seen : gset string) (result scopes : list string) : res (list string) :=
  match scopes with
  | [] => Ok result
  | raw :: scopes' =>
    let scope := strings_ToLower (strings_TrimSpace raw) in
    reject! IsReservedRepositoryScope scope
      with ErrInvalidCredential "reserved repository scope prefix" ;;
    reject! negb (validRepositoryScope scope) with ErrInvalidCredential "invalid repository scope" ;;
    if bool_decide (scope ∈ seen) then repository_scopes_loop seen result scopes'
    else repository_scopes_loop ({[scope]} ∪ seen) (result ++ [scope]) scopes'
  end.

Definition NormalizeRepositoryScopes (scopes : list string) : res (list string) :=
  reject! bool_decide (scopes = []) with ErrInvalidCredential "at least one repository scope is required" ;;
  let? result := repository_scopes_loop ∅ [] scopes in
  Ok (sort_Strings result).

Definition NormalizeRepositorySlug (slug : string) : res string :=
  let normalized := strings_ToLower (strings_TrimSpace slug) in
  reject! negb (ValidSlug normalized) with ErrRepositoryForbidden "invalid repository slug" ;;
  Ok normalized.

(** One turn of the loop of [RepositoryAllowed]. *)
Definition scope_grants (normalized owner raw : string) : bool :=
  let scope := strings_ToLower (strings_TrimSpace raw) in
  if IsReservedRepositoryScope scope then false
  else if bool_decide (scope = "*") then true
  else if bool_decide (scope = normalized) then true
  else bool_decide (scope = owner +:+ "/*").

Definition RepositoryAllowed (scopes : list string) (slug : string) : bool :=
  match NormalizeRepositorySlug slug with
  | Ok normalized =>
    let '(owner, _, _) := strings_Cut normalized "/" in
    existsb (scope_grants normalized owner) scopes
  | _ => false
  end.

Definition AuthorizeRepository (principal : Principal) (slug : string) : res () :=
  reject! bool_decide (ClassifyGrant principal = GrantProjectOnly)
          || negb (RepositoryAllowed (pr_RepositoryScopes principal) slug)
    with ErrRepositoryForbidden "" ;;
  Ok ().

(** The loop over the middle parts: the first fault of a group. *)
Fixpoint group_fault (groups : list string) : string :=
  match groups with
  | [] => ""
  | group :: groups' =>
    let fault := Fault group true in
    if bool_decide (fault ≠ "") then "group " +:+ fault else group_fault groups'
  end.

Definition repositorySlugFault (slug : string) : string :=
  let normalized := strings_ToLower (strings_TrimSpace slug) in
  let parts := strings_Split normalized "/" in
  if bool_decide (length parts < 2)%nat then "not of the form owner/repo"
  else if bool_decide (MaxSlugSegments < length parts)%nat then "more than 20 segments"
  else if MaxSlugBytes <? slen normalized then "longer than 255 characters"
  else
    let fault := Fault (default "" (head parts)) true in
    if bool_decide (fault ≠ "") then "owner " +:+ fault
    else
      let group := group_fault (take (length parts - 2) (drop 1 parts)) in
      if bool_decide (group ≠ "") then group
      else
        let fault := Fault (default "" (last parts)) false in
        if bool_decide (fault ≠ "") then "repository " +:+ fault else "invalid repository slug".

Definition repositoryScopeCovers (parent requested : string) : bool :=
  if bool_decide (parent = "*") || bool_decide (parent = requested) then true
  else if strings_HasSuffix parent "/*" then
    let '(owner, _, found) := strings_Cut requested "/" in
    found && bool_decide (owner = strings_TrimSuffix parent "/*")
  else false.

Definition rotationWithinParent (parent : ClientCredential) (successor : CreateCredentialRequest) : bool :=
  let parentScopes : gset string := list_to_set (strings_TrimSpace <$> cc_Scopes parent) in
  forallb (λ scope, bool_decide (scope ∈ parentScopes)) (cq_Scopes successor)
  && forallb (λ requested,
       existsb (λ held, repositoryScopeCovers (strings_ToLower (strings_TrimSpace held)) requested)
         (cc_RepositoryScopes parent))
       (cq_RepositoryScopes successor).

(** ** Work item selectors *)

(** [readers.RepositorySelectorSet] *)
Record RepositorySelectorSet := Selectors {
  rs_All : bool;
  rs_ExactSlugs : list string;
  rs_Owners : list string;
}.

Inductive workItemSelectorKind := workItemSelectorExact | workItemSelectorOwner | workItemSelectorAll.

(** [None] is [ok == false]. *)
Definition workItemRepositorySelector (raw : string) : option (workItemSelectorKind * string) :=
  let trimmed := strings_TrimSpace raw in
  if bool_decide (trimmed = "*") then Some (workItemSelectorAll, "")
  else if strings_HasSuffix (strings_ToLower trimmed) "/*" then
    match NormalizeRepositoryScopes [trimmed] with
    | Ok [scope] =>
      match strings_CutSuffix scope "/*" with
      | None => None
      | Some owner => if bool_decide (owner = "") then None else Some (workItemSelectorOwner, owner)
      end
    | _ => None
    end
  else
    match NormalizeRepositorySlug trimmed with
    | Ok normalized => Some (workItemSelectorExact, normalized)
    | _ => None
    end.

(** The loop; the two maps are sets of keys.  [None] is the early return of the
    universal set. *)
Fixpoint selector_loop (exact owners : gset string) (values : list string)
    : option (gset string * gset string) :=
  match values with
  | [] => Some (exact, owners)
  | raw :: values' =>
    match workItemRepositorySelector raw with
    | None => selector_loop exact owners values'
    | Some (workItemSelectorAll, _) => None
    | Some (workItemSelectorOwner, value) => selector_loop exact ({[value]} ∪ owners) values'
    | Some (workItemSelectorExact, value) => selector_loop ({[value]} ∪ exact) owners values'
    end
  end.

Definition WorkItemRepositorySelectorSet (values : list string) (grants : bool) : RepositorySelectorSet :=
  if grants && bool_decide (values = []) then Selectors true [] []
  else
    match selector_loop ∅ ∅ values with
    | None => Selectors true [] []
    | Some (exact, owners) =>
      Selectors false (sort_Strings (elements exact)) (sort_Strings (elements owners))
    end.

Definition WorkItemGrantSelectorSet (principal : Principal) : RepositorySelectorSet :=
  if bool_decide (ClassifyGrant principal = GrantProjectOnly) then Selectors false [] []
  else WorkItemRepositorySelectorSet (pr_RepositoryScopes principal) true.

(** ** Narrowing an authenticated principal

    The principal lives in the request's context; each function returns the
    principal of the context it answers with. *)

(** [if principal, ok := PrincipalFromContext(ctx); !ok] *)
Definition principal_of (ctx : option Principal) : res Principal :=
  match ctx with
  | None => Err (ErrText "no authenticated principal")
  | Some principal => Ok principal
  end.

Definition NarrowRepositoryScopes (ctx : option Principal) (scopes : list string) : res Principal :=
  let? principal := principal_of ctx in
  reject! bool_decide (scopes = []) with ErrEmptyRepositoryScope ;;
  reject! negb (forallb (RepositoryAllowed (pr_RepositoryScopes principal)) scopes)
    with ErrText "repository scope widens the principal" ;;
  Ok (pr_set_grant scopes (pr_ProjectScopes principal) principal).

Definition KeepUniversalGrant (ctx : option Principal) : res Principal :=
  let? principal := principal_of ctx in
  reject! negb (bool_decide (ClassifyGrant principal = GrantUniversal)) with ErrGrantNotUniversal ;;
  Ok (pr_set_grant ["*"] (pr_ProjectScopes principal) principal).

Definition NarrowToProjectScopes (ctx : option Principal) (projects : list string) : res Principal :=
  let? principal := principal_of ctx in
  reject! bool_decide (projects = []) with ErrEmptyProjectScope ;;
  reject! negb (bool_decide (ClassifyGrant principal = GrantUniversal)) with ErrProjectScopeNeedsStarGrant ;;
  Ok (pr_set_grant [ProjectOnlyRepositoryScope] projects principal).
End grants.
