(* ===== verification/GrantTheorems.v ===== *)
(** * GrantTheorems: what the grant rules guarantee

    The rules of [Grants] agree with one another: normalising a list of scopes
    keeps what it grants, a rotation's scopes grant no more than its parent's,
    a principal that is narrowed loses access and never gains any, the
    selectors of work items of a restricted principal name the repositories it
    is authorized for, and every
    refused repository key has its fault named. *)

From Stdlib Require Import ZArith Lia Ascii.
From stdpp Require Import sorting pretty numbers gmap strings list_numbers list relations.
From S2P Require Import Prelude GoStrings Regexp RepoSlug GoNet CredTypes Grants.

Open Scope Z_scope.

(** ** Folding *)

(** What the program relies on of the Unicode tables: a character outside ASCII
    whose lower case is in ASCII folds to a letter (U+212A and U+0130 are the
    ones there are). *)
Class UnicodeLaws `{UnicodeTables} :=
  lower_table_letter : ∀ r, 128 ≤ r → unicode_lower_table r < 128 → 97 ≤ unicode_lower_table r ≤ 122.

(** A code point below 128 is decoded from that one byte. *)
Lemma decode_below_128 l x :
  Forall (λ b, 0 ≤ b < 256) l → x ∈ decode l → rune_of x < 128 → run_bytes x = [rune_of x].
Proof.
  induction l as [l IH] using (induction_ltof1 _ (@length Z)); unfold ltof in IH.
  destruct l as [|b0 r1]; [set_solver|]. intros Hl.
  assert (∀ rest enc r, b0 :: r1 = enc ++ rest → (length rest < S (length r1))%nat →
    (r < 128 → enc = [r]) → x ∈ RRune r enc :: decode rest → rune_of x < 128 → run_bytes x = [rune_of x])
    as Hgood.
  { intros rest enc r Heq Hlt Hr [->|Hin]%elem_of_cons Hx; [by apply Hr|].
    apply (IH rest); [done| |done|done]. rewrite Heq in Hl. by apply Forall_app in Hl as [_ ?]. }
  assert (x ∈ RBad b0 :: decode r1 → rune_of x < 128 → run_bytes x = [rune_of x]) as Hbad.
  { intros [->|Hin]%elem_of_cons Hx; [by cbn in Hx|]. apply (IH r1); [cbn; lia| |done|done].
    by apply Forall_cons in Hl as [_ ?]. }
  cbn [decode]. destruct (b0 <? 128) eqn:E0; [apply (Hgood r1); [done|lia|done]|].
  destruct r1 as [|b1 r2]; [done|]. destruct (utf8_ok2 b0 b1) eqn:E2.
  { apply (Hgood r2); [done|cbn; lia|]. unfold utf8_ok2, cont in E2. lia. }
  destruct r2 as [|b2 r3]; [done|]. destruct (utf8_ok3 b0 b1 b2) eqn:E3.
  { apply (Hgood r3); [done|cbn; lia|]. unfold utf8_ok3, cont in E3. destruct (b0 =? 224) eqn:?; lia. }
  destruct r3 as [|b3 r4]; [done|]. destruct (utf8_ok4 b0 b1 b2 b3) eqn:E4; [|done].
  apply (Hgood r4); [done|cbn; lia|]. unfold utf8_ok4, cont in E4. destruct (b0 =? 240) eqn:?; lia.
Qed.

Lemma encode_rune_single r b : encode_rune r = [b] → r = b ∧ 0 ≤ r < 128.
Proof. unfold encode_rune. repeat case_match; intros [= <-]; lia. Qed.

Lemma encode_rune_ne r : encode_rune r ≠ [].
Proof. unfold encode_rune. repeat case_match; done. Qed.

(** Only ["*"] folds to ["*"]. *)
Lemma lower_star `{UnicodeLaws} s : strings_ToLower s = "*" → s = "*".
Proof.
  unfold strings_ToLower. intros Hs.
  assert (concat ((λ r, encode_rune (unicode_ToLower r)) <$> runes s) = [42]) as Hc.
  { apply (f_equal bytes_of) in Hs. rewrite bytes_of_of_bytes in Hs; [exact Hs|].
    apply Forall_concat, Forall_fmap, Forall_forall. intros r _. cbn. unfold encode_rune.
    repeat case_match; repeat constructor; Z.to_euclidean_division_equations; lia. }
  rewrite <-(of_runs_runs s). unfold runes in Hc.
  destruct (runs s) as [|x xs] eqn:Hr; [done|]. rewrite !fmap_cons in Hc. cbn [concat] in Hc.
  pose proof (encode_rune_ne (unicode_ToLower (rune_of x))) as Hne.
  destruct (encode_rune (unicode_ToLower (rune_of x))) as [|b bs] eqn:He; [done|].
  injection Hc as -> Htl. apply app_eq_nil in Htl as [-> Htl].
  apply encode_rune_single in He as [He _].
  assert (rune_of x = 42) as Hx.
  { unfold unicode_ToLower in He. destruct (rune_of x <? 128) eqn:E.
    - destruct ((65 <=? rune_of x) && (rune_of x <=? 90)) eqn:?; lia.
    - pose proof (lower_table_letter (rune_of x)). lia. }
  assert (run_bytes x = [42]) as Hb.
  { rewrite <-Hx. apply (decode_below_128 (bytes_of s)); [apply bytes_of_range| |by rewrite Hx].
    change (x ∈ runs s). rewrite Hr. set_solver. }
  destruct xs as [|y ys].
  - unfold of_runs. cbn. by rewrite Hb.
  - rewrite fmap_cons in Htl. cbn in Htl. apply app_eq_nil in Htl as [Hy _]. by apply encode_rune_ne in Hy.
Qed.

(** ** Keys and their owners *)

Definition slug_char (c : ascii) : bool := name_char c || bool_decide (c = "/"%char).

Lemma ValidSlug_slug_chars s : ValidSlug s = true → all_chars slug_char s = true.
Proof.
  intros (_ & gs & x & Hsp & _ & Hgs & Hx)%ValidSlug_spec. apply all_chars_Forall.
  rewrite <-(join_split "/"%char (chars s)), Hsp. apply join_chars_Forall; [done|].
  apply Forall_app. split.
  - eapply Forall_impl; [exact Hgs|]. intros w Hw.
    eapply (re_alphabet_lang slug_char); [|exact Hw]. by vm_compute.
  - repeat constructor. eapply (re_alphabet_lang slug_char); [|exact Hx]. by vm_compute.
Qed.

Lemma owner_no_slash o : ValidOwner o = true → "/"%char ∉ chars o.
Proof.
  intros Ho. unfold ValidOwner in Ho. apply no_slash_not_elem, all_chars_Forall.
  eapply re_alphabet_match; [|exact Ho]. by vm_compute.
Qed.

(** The owner of a valid key is its first group, and valid. *)
Lemma slug_owner n :
  ValidSlug n = true →
  ∃ owner rest, strings_Cut n "/" = (owner, rest, true) ∧ ValidOwner owner = true
    ∧ n = owner +:+ "/" +:+ rest.
Proof.
  intros (_ & gs & x & Hsp & Hlen & Hgs & _)%ValidSlug_spec.
  destruct gs as [|g gs]; [cbn in Hlen; lia|]. apply Forall_cons in Hgs as [Hg _].
  assert (ValidOwner (of_chars g) = true) as Ho
    by (unfold ValidOwner; by rewrite re_match_lang, chars_of_chars).
  set (rest := of_chars (join_chars "/" (gs ++ [x]))). exists (of_chars g), rest.
  assert (n = of_chars g +:+ of_chars ("/"%char :: chars rest)) as Hn.
  { apply chars_inj. rewrite chars_app, !chars_of_chars, <-(join_split "/"%char (chars n)), Hsp.
    unfold rest. rewrite chars_of_chars. by destruct gs. }
  split_and!; [|done|].
  - rewrite Hn at 1. apply strings_Cut_app. by apply owner_no_slash.
  - rewrite Hn at 1. f_equal. apply chars_inj. by rewrite chars_of_chars.
Qed.

Lemma slug_scope n : ValidSlug n = true → ValidScope n = true.
Proof.
  intros Hn. unfold ValidScope. case_bool_decide; [done|].
  destruct (strings_CutSuffix n "/*") as [o|] eqn:E; [|done]. exfalso.
  apply CutSuffix_Some in E as ->. apply ValidSlug_slug_chars in Hn.
  rewrite all_chars_app, andb_true_iff in Hn. by destruct Hn.
Qed.

Lemma owner_scope o : ValidOwner o = true → ValidScope (o +:+ "/*") = true.
Proof. intros Ho. unfold ValidScope. rewrite CutSuffix_app. by case_bool_decide. Qed.

Lemma owner_ne o : ValidOwner o = true → o ≠ "".
Proof. intros Ho ->. by vm_compute in Ho. Qed.

Lemma slug_ne_star n : ValidSlug n = true → n ≠ "*".
Proof. intros Hn ->. by vm_compute in Hn. Qed.

Lemma slug_ne_owner n o : ValidSlug n = true → n ≠ o +:+ "/*".
Proof.
  intros Hn%ValidSlug_slug_chars ->. rewrite all_chars_app, andb_true_iff in Hn. by destruct Hn.
Qed.

Section grants.
Context `{UnicodeTables}.

(** The form in which scopes are compared. *)
Definition folded (raw : string) : string := strings_ToLower (strings_TrimSpace raw).

Lemma valid_not_reserved v : ValidScope v = true → IsReservedRepositoryScope v = false.
Proof.
  intros Hv. unfold IsReservedRepositoryScope, strings_HasPrefix. rewrite ValidScope_normal by done.
  destruct (String.prefix _ v) eqn:E; [|done]. apply prefix_split in E. apply ValidScope_chars in Hv.
  rewrite E, all_chars_app, andb_true_iff in Hv. by destruct Hv.
Qed.

Lemma scope_grants_iff n o raw :
  ValidSlug n = true → ValidOwner o = true →
  scope_grants n o raw = true ↔ folded raw = "*" ∨ folded raw = n ∨ folded raw = o +:+ "/*".
Proof.
  intros Hn Ho. unfold scope_grants. fold (folded raw).
  pose proof (valid_not_reserved _ (slug_scope _ Hn)). pose proof (valid_not_reserved _ (owner_scope _ Ho)).
  destruct (IsReservedRepositoryScope (folded raw)) eqn:Hr.
  - split; [done|]. intros [E|[E|E]]; rewrite E in Hr; [by rewrite valid_not_reserved in Hr|congruence..].
  - repeat case_bool_decide; naive_solver.
Qed.

(** A list of scopes allows a key exactly when one of them names everything,
    the key, or the owner of the key. *)
Lemma allowed_iff scopes slug :
  RepositoryAllowed scopes slug = true ↔
  ∃ n o rest raw, NormalizeRepositorySlug slug = Ok n ∧ ValidSlug n = true ∧ ValidOwner o = true
    ∧ strings_Cut n "/" = (o, rest, true) ∧ raw ∈ scopes
    ∧ (folded raw = "*" ∨ folded raw = n ∨ folded raw = o +:+ "/*").
Proof.
  unfold RepositoryAllowed. split.
  - destruct (NormalizeRepositorySlug slug) as [n|e|] eqn:Hnorm; [|done..].
    assert (ValidSlug n = true) as Hn.
    { revert Hnorm. unfold NormalizeRepositorySlug. rewrite reject_Ok. intros [Hv%negb_false_iff [= <-]]. done. }
    destruct (slug_owner _ Hn) as (o & rest & Hcut & Ho & _). rewrite Hcut.
    intros (raw & Hin & Hg)%existsb_exists. exists n, o, rest, raw. apply list_elem_of_In in Hin.
    rewrite scope_grants_iff in Hg by done. done.
  - intros (n & o & rest & raw & -> & Hn & Ho & -> & Hin & Hg). apply existsb_exists.
    exists raw. split; [by apply list_elem_of_In|]. by apply scope_grants_iff.
Qed.

(** ** Normalised scopes *)

Lemma scopes_loop_spec seen result scopes l :
  repository_scopes_loop seen result scopes = Ok l →
  (∀ x, x ∈ seen ↔ x ∈ result) → NoDup result → Forall (λ v, ValidScope v = true) result →
  NoDup l ∧ Forall (λ v, ValidScope v = true) l
  ∧ ∀ x, x ∈ l ↔ x ∈ result ∨ ∃ raw, raw ∈ scopes ∧ x = folded raw.
Proof.
  revert seen result. induction scopes as [|raw scopes IH]; intros seen result Hl Hs Hn Hv; cbn in Hl.
  { injection Hl as <-. split_and!; [done..|]. set_solver. }
  rewrite !reject_Ok in Hl. destruct Hl as (_ & Hval%negb_false_iff & Hl). fold (folded raw) in Hl, Hval.
  case_bool_decide as Hin.
  - apply IH in Hl as (? & ? & Hx); [|done..]. split_and!; [done..|]. intros x. rewrite Hx.
    apply Hs in Hin. set_solver.
  - rewrite Hs in Hin. apply IH in Hl as (? & ? & Hx).
    + split_and!; [done..|]. intros x. rewrite Hx. set_solver.
    + set_solver.
    + apply NoDup_app. split_and!; [done|set_solver|apply NoDup_singleton].
    + apply Forall_app. split; [done|]. by constructor.
Qed.

Lemma scopes_loop_id seen result l :
  Forall (λ v, ValidScope v = true) l → NoDup l → (∀ x, x ∈ l → x ∉ seen) →
  repository_scopes_loop seen result l = Ok (result ++ l).
Proof.
  intros Hv. revert seen result. induction Hv as [|v l Hv _ IH]; intros seen result Hn Hs; cbn.
  { by rewrite app_nil_r. }
  rewrite ValidScope_normal by done. rewrite valid_not_reserved by done. unfold validRepositoryScope.
  rewrite Hv. cbn [negb]. rewrite bool_decide_false by set_solver. apply NoDup_cons in Hn as [Hvl Hn].
  rewrite IH; [|done|set_solver]. by rewrite <-app_assoc.
Qed.

(** What normalising keeps: a sorted list without repeats of the folded scopes. *)
Lemma normalized_scopes raw l :
  NormalizeRepositoryScopes raw = Ok l →
  StronglySorted String.le l ∧ NoDup l ∧ Forall (λ v, ValidScope v = true) l
  ∧ l ≠ [] ∧ ∀ x, x ∈ l ↔ ∃ r, r ∈ raw ∧ x = folded r.
Proof.
  unfold NormalizeRepositoryScopes. rewrite reject_Ok, res_bind_Ok.
  intros (Hne%bool_decide_eq_false & m & Hm & [= <-]).
  apply scopes_loop_spec in Hm as (Hn & Hv & Hx); [|set_solver|constructor|constructor].
  assert (∀ x, x ∈ sort_Strings m ↔ ∃ r, r ∈ raw ∧ x = folded r) as Hin.
  { intros x. rewrite elem_of_sort_Strings, Hx. set_solver. }
  split_and!; [apply sort_Strings_sorted|by rewrite sort_Strings_perm|by rewrite sort_Strings_perm| |done].
  destruct raw as [|r raw]; [done|]. intros Hnil. specialize (Hin (folded r)). rewrite Hnil in Hin.
  assert (folded r ∈ []) as H0%elem_of_nil by (apply Hin; set_solver). done.
Qed.

(** Normalising the repository scopes of a credential changes their
    spelling and nothing else.  What it answers is sorted, has no repeats, is
    its own normal form, and allows exactly the repositories the list it was
    given allows. *)
Theorem normalizing_keeps_grant raw l :
  NormalizeRepositoryScopes raw = Ok l →
  NormalizeRepositoryScopes l = Ok l ∧ StronglySorted String.le l ∧ NoDup l
  ∧ ∀ slug, RepositoryAllowed l slug = RepositoryAllowed raw slug.
Proof.
  intros (Hs & Hn & Hv & Hne & Hx)%normalized_scopes. split_and!; [|done..|].
  - unfold NormalizeRepositoryScopes. rewrite bool_decide_false by done.
    rewrite scopes_loop_id by (done || set_solver). cbn. by rewrite sort_Strings_id.
  - intros slug. apply eq_bool_prop_intro. rewrite !Is_true_true, !allowed_iff.
    assert (∀ v, v ∈ l → folded v = v) as Hid.
    { intros v Hv'. rewrite Forall_forall in Hv. by apply ValidScope_normal, Hv. }
    split; intros (n & o & rest & v & Hnorm & ? & ? & ? & Hin & Hg).
    + rewrite Hid in Hg by done. apply Hx in Hin as (r & Hr & ->). by exists n, o, rest, r.
    + exists n, o, rest, (folded v). assert (folded v ∈ l) as Hv' by (apply Hx; eauto).
      by rewrite (Hid _ Hv').
Qed.

(** ** Rotations *)

Lemma covers_grant parent requested n o rest :
  ValidSlug n = true → ValidOwner o = true → strings_Cut n "/" = (o, rest, true) →
  repositoryScopeCovers parent requested = true →
  requested = "*" ∨ requested = n ∨ requested = o +:+ "/*" →
  parent = "*" ∨ parent = n ∨ parent = o +:+ "/*".
Proof.
  intros Hn Ho Hcut. unfold repositoryScopeCovers.
  destruct (bool_decide (parent = "*") || bool_decide (parent = requested)) eqn:E.
  { apply orb_true_iff in E as [->%bool_decide_eq_true| ->%bool_decide_eq_true]; naive_solver. }
  destruct (strings_HasSuffix parent "/*") eqn:Hs; [|done].
  assert (parent = strings_TrimSuffix parent "/*" +:+ "/*") as Hp.
  { unfold strings_TrimSuffix. destruct (strings_CutSuffix parent "/*") as [p|] eqn:Hc.
    - by apply CutSuffix_Some in Hc.
    - unfold strings_CutSuffix in Hc. by rewrite Hs in Hc. }
  assert (strings_Cut (o +:+ "/*") "/" = (o, "*", true)) as Hcut'
    by (apply (strings_Cut_app o "*" "/"), owner_no_slash, Ho).
  intros Hc [->|[->| ->]].
  - cbn in Hc. done.
  - rewrite Hcut in Hc. apply bool_decide_eq_true in Hc as ->. auto.
  - rewrite Hcut' in Hc. apply bool_decide_eq_true in Hc as ->. auto.
Qed.

Lemma rotation_covers parent successor raw :
  rotationWithinParent parent successor = true →
  NormalizeRepositoryScopes raw = Ok (cq_RepositoryScopes successor) →
  (∀ slug, RepositoryAllowed (cq_RepositoryScopes successor) slug = true →
     RepositoryAllowed (cc_RepositoryScopes parent) slug = true)
  ∧ ∀ scope, scope ∈ cq_Scopes successor → scope ∈ strings_TrimSpace <$> cc_Scopes parent.
Proof.
  unfold rotationWithinParent. rewrite andb_true_iff, !forallb_Forall, !Forall_forall.
  intros [Hsc Hrepo] (_ & _ & Hv & _)%normalized_scopes. split.
  - intros slug. rewrite !allowed_iff. intros (n & o & rest & req & Hnorm & Hn & Ho & Hcut & Hin & Hg).
    rewrite Forall_forall in Hv. unfold folded in Hg. rewrite ValidScope_normal in Hg by (by apply Hv).
    specialize (Hrepo _ Hin). apply existsb_exists in Hrepo as (held & Hheld%list_elem_of_In & Hc).
    exists n, o, rest, held. split_and!; [done..|]. by eapply covers_grant.
  - intros scope Hs. specialize (Hsc _ Hs). apply bool_decide_eq_true in Hsc. by apply elem_of_list_to_set in Hsc.
Qed.

(** C20: a rotation never widens its parent.  When the check of a rotation
    passes for a successor whose scopes are normalised, every repository the
    successor allows is one the parent allows, and every permission of the
    successor is one of the parent's. *)
Theorem rotation_never_widens parent successor raw :
  rotationWithinParent parent successor = true →
  NormalizeRepositoryScopes raw = Ok (cq_RepositoryScopes successor) →
  (∀ slug, RepositoryAllowed (cq_RepositoryScopes successor) slug = true →
     RepositoryAllowed (cc_RepositoryScopes parent) slug = true)
  ∧ ∀ scope, scope ∈ cq_Scopes successor → scope ∈ strings_TrimSpace <$> cc_Scopes parent.
Proof. apply rotation_covers. Qed.

(** ** Selectors of work items *)

Lemma HasSuffix_true s x : strings_HasSuffix s x = true → ∃ o, strings_CutSuffix s x = Some o ∧ s = o +:+ x.
Proof.
  intros Hs. assert (∃ o, strings_CutSuffix s x = Some o) as [o Ho]
    by (unfold strings_CutSuffix; rewrite Hs; by eexists).
  exists o. split; [done|]. by apply CutSuffix_Some.
Qed.

Lemma HasSuffix_false s x o : strings_HasSuffix s x = false → s ≠ o +:+ x.
Proof.
  intros Hs Ho. pose proof (CutSuffix_app o x) as Hc. rewrite <-Ho in Hc. unfold strings_CutSuffix in Hc.
  rewrite Hs in Hc. discriminate Hc.
Qed.

Lemma normalize_one t v :
  folded t = v →
  NormalizeRepositoryScopes [t] = if ValidScope v then Ok [v] else NormalizeRepositoryScopes [t].
Proof.
  intros Hv. destruct (ValidScope v) eqn:Hval; [|done]. unfold NormalizeRepositoryScopes.
  rewrite bool_decide_false by done. cbn [repository_scopes_loop]. fold (folded t). rewrite Hv.
  rewrite valid_not_reserved by done. unfold validRepositoryScope. rewrite Hval. cbn [negb].
  rewrite bool_decide_false by set_solver. cbn [res_bind app]. do 2 f_equal.
Qed.

Lemma normalize_one_ok t l : NormalizeRepositoryScopes [t] = Ok l → ValidScope (folded t) = true ∧ l = [folded t].
Proof.
  intros Hl. pose proof (normalized_scopes _ _ Hl) as (_ & Hn & Hv & Hne & Hx).
  assert (folded t ∈ l) as Hin by (apply Hx; exists t; split; [set_solver|done]).
  split; [rewrite Forall_forall in Hv; by apply Hv|].
  destruct l as [|x [|y l]]; [done| |].
  - apply list_elem_of_singleton in Hin. by rewrite Hin.
  - exfalso. assert (x = folded t ∧ y = folded t) as [-> ->].
    { split; [specialize (Hx x)|specialize (Hx y)]; destruct (proj1 Hx ltac:(set_solver)) as (r & Hr & ->);
        apply list_elem_of_singleton in Hr; by rewrite Hr. }
    apply NoDup_cons in Hn as [Hn _]. set_solver.
Qed.

(** The selector a raw scope stands for, by the form it folds to. *)
Lemma selector_spec `{!UnicodeLaws} raw :
  match workItemRepositorySelector raw with
  | Some (workItemSelectorAll, _) => folded raw = "*"
  | Some (workItemSelectorOwner, o) => ValidOwner o = true ∧ folded raw = o +:+ "/*"
  | Some (workItemSelectorExact, n) => ValidSlug n = true ∧ folded raw = n
  | None => folded raw ≠ "*" ∧ ValidSlug (folded raw) = false
      ∧ ∀ o, ValidOwner o = true → folded raw ≠ o +:+ "/*"
  end.
Proof.
  assert (folded (strings_TrimSpace raw) = folded raw) as Hf by (unfold folded; by rewrite TrimSpace_idemp).
  unfold workItemRepositorySelector. case_bool_decide as Hstar.
  { unfold folded. rewrite Hstar. by apply plain_lower. }
  assert (folded raw ≠ "*") as Hns by (by intros ?%lower_star).
  fold (folded raw). unfold NormalizeRepositorySlug. fold (folded (strings_TrimSpace raw)).
  pose proof (normalize_one_ok (strings_TrimSpace raw)) as Hone.
  pose proof (normalize_one (strings_TrimSpace raw) _ Hf) as Hone'. rewrite Hf in *.
  clear Hstar Hf. set (t := strings_TrimSpace raw) in *. clearbody t. revert Hns Hone Hone'.
  generalize (folded raw) as v. intros v Hns Hone Hone'.
  destruct (strings_HasSuffix v "/*") eqn:Hs.
  - apply HasSuffix_true in Hs as (o & Hc & Hv).
    assert (ValidScope v = ValidOwner o) as Hvs.
    { unfold ValidScope. rewrite bool_decide_false by done. by rewrite Hc. }
    rewrite Hvs in Hone'. destruct (ValidOwner o) eqn:Ho.
    + rewrite Hone', Hc, bool_decide_false by (by apply owner_ne). done.
    + assert (ValidSlug v = false) as Hslug.
      { apply not_true_iff_false. intros Hsl. by apply (slug_ne_owner v o). }
      assert (∀ o', ValidOwner o' = true → v ≠ o' +:+ "/*") as Hno.
      { intros o' Ho' Hv'. rewrite Hv in Hv'. apply append_inv_tail in Hv'. congruence. }
      destruct (NormalizeRepositoryScopes [t]) as [l|e|] eqn:El; [|done..].
      destruct (Hone l eq_refl) as [Hval _]. congruence.
  - pose proof (λ o, HasSuffix_false v "/*" o Hs) as Hno.
    destruct (ValidSlug v) eqn:Hv; cbn [negb]; [done|]. split_and!; [done..|]. auto.
Qed.

Lemma selector_loop_spec `{!UnicodeLaws} exact owners values :
  match selector_loop exact owners values with
  | None => ∃ raw, raw ∈ values ∧ folded raw = "*"
  | Some (e, w) =>
    (∀ raw, raw ∈ values → folded raw ≠ "*")
    ∧ (∀ n, ValidSlug n = true → n ∈ e ↔ n ∈ exact ∨ ∃ raw, raw ∈ values ∧ folded raw = n)
    ∧ (∀ o, ValidOwner o = true → o ∈ w ↔ o ∈ owners ∨ ∃ raw, raw ∈ values ∧ folded raw = o +:+ "/*")
  end.
Proof.
  revert exact owners. induction values as [|raw values IH]; intros exact owners; cbn [selector_loop].
  { split_and!; set_solver. }
  pose proof (selector_spec raw) as Hs.
  destruct (workItemRepositorySelector raw) as [[[] v]|].
  - specialize (IH ({[v]} ∪ exact) owners). destruct (selector_loop _ _ _) as [[e w]|]; [|set_solver].
    destruct Hs as [Hv Hf], IH as (I1 & I2 & I3). split_and!.
    + intros r [->|Hr]%elem_of_cons; [by rewrite Hf; apply slug_ne_star|by apply I1].
    + intros n Hn. rewrite I2 by done. set_solver.
    + intros o Ho. rewrite I3 by done. pose proof (slug_ne_owner _ o Hv). set_solver.
  - specialize (IH exact ({[v]} ∪ owners)). destruct (selector_loop _ _ _) as [[e w]|]; [|set_solver].
    destruct Hs as [Hv Hf], IH as (I1 & I2 & I3). split_and!.
    + intros r [->|Hr]%elem_of_cons; [|by apply I1]. rewrite Hf. intros Hbad.
      apply owner_scope in Hv. rewrite Hbad in Hf. destruct v as [|c [|? ?]]; discriminate Hbad.
    + intros n Hn. rewrite I2 by done. pose proof (slug_ne_owner _ v Hn). set_solver.
    + intros o Ho. rewrite I3 by done. split; [|]; intros Hin.
      * set_solver.
      * destruct Hin as [?|(r & [->|?]%elem_of_cons & Hr)]; [set_solver| |set_solver].
        rewrite Hf in Hr. apply append_inv_tail in Hr as ->. set_solver.
  - eauto with set_solver. exists raw. set_solver.
  - specialize (IH exact owners). destruct (selector_loop _ _ _) as [[e w]|]; [|set_solver].
    destruct Hs as (H1 & H2 & H3), IH as (I1 & I2 & I3). split_and!.
    + intros r [->|Hr]%elem_of_cons; [done|by apply I1].
    + intros n Hn. rewrite I2 by done. split; intros [?|(r & Hr & E)]; [set_solver..| |].
      * set_solver.
      * apply elem_of_cons in Hr as [->|Hr]; [congruence|set_solver].
    + intros o Ho. rewrite I3 by done. split; intros [?|(r & Hr & E)]; [set_solver..| |].
      * set_solver.
      * apply elem_of_cons in Hr as [->|Hr]; [by destruct (H3 o Ho)|set_solver].
Qed.

Lemma classify_project p : ClassifyGrant p = GrantProjectOnly ↔ HoldsProjectGrant p = true.
Proof. unfold ClassifyGrant. destruct (HoldsProjectGrant p); [done|]. repeat case_match; done. Qed.

Lemma classify_unrestricted p :
  ClassifyGrant p = GrantUnrestricted ↔ HoldsProjectGrant p = false ∧ pr_RepositoryScopes p = [].
Proof.
  unfold ClassifyGrant. destruct (HoldsProjectGrant p); [naive_solver|].
  case_bool_decide; [naive_solver|]. case_match; naive_solver.
Qed.

Lemma authorize_iff p slug :
  AuthorizeRepository p slug = Ok () ↔
  HoldsProjectGrant p = false ∧ RepositoryAllowed (pr_RepositoryScopes p) slug = true.
Proof.
  unfold AuthorizeRepository. rewrite reject_Ok, orb_false_iff, bool_decide_eq_false, negb_false_iff,
    classify_project, not_true_iff_false. naive_solver.
Qed.

(** The selectors of a restricted principal: for every repository key, the
    principal is authorized for it if and only if its selector set is the
    universal one, lists the key, or lists the key's owner.  An empty scope list
    is the case left out: its set is the universal one, and authorization admits
    no repository. *)
Theorem selectors_follow_grant `{!UnicodeLaws} p slug n :
  ClassifyGrant p ≠ GrantUnrestricted → NormalizeRepositorySlug slug = Ok n →
  let set := WorkItemGrantSelectorSet p in
  (rs_All set = true ∨ n ∈ rs_ExactSlugs set ∨ (strings_Cut n "/").1.1 ∈ rs_Owners set) ↔ AuthorizeRepository p slug = Ok ().
Proof.
  cbv zeta. rewrite classify_unrestricted. intros Hr Hn. rewrite authorize_iff. unfold WorkItemGrantSelectorSet.
  case_bool_decide as Hc; [apply classify_project in Hc; rewrite Hc; cbn; set_solver|].
  rewrite classify_project, not_true_iff_false in Hc.
  assert (pr_RepositoryScopes p ≠ []) as Hne by naive_solver. clear Hr.
  assert (ValidSlug n = true) as Hv.
  { revert Hn. unfold NormalizeRepositorySlug. rewrite reject_Ok. by intros [Hv%negb_false_iff [= <-]]. }
  destruct (slug_owner _ Hv) as (o & rest & Hcut & Ho & _).
  assert (RepositoryAllowed (pr_RepositoryScopes p) slug = true ↔
    ∃ raw, raw ∈ pr_RepositoryScopes p ∧ (folded raw = "*" ∨ folded raw = n ∨ folded raw = o +:+ "/*")) as ->.
  { rewrite allowed_iff. split.
    - intros (n' & o' & rest' & raw & Hn' & _ & _ & Hcut' & Hin & Hg). exists raw.
      assert (n' = n) as -> by congruence. assert (o' = o) as -> by congruence. done.
    - intros (raw & Hin & Hg). exists n, o, rest, raw. done. }
  unfold WorkItemRepositorySelectorSet. rewrite bool_decide_false by done. cbn [andb].
  pose proof (selector_loop_spec ∅ ∅ (pr_RepositoryScopes p)) as Hl.
  rewrite Hcut. destruct (selector_loop _ _ _) as [[e w]|]; cbn.
  - destruct Hl as (H1 & H2 & H3).
    rewrite !elem_of_sort_Strings, !elem_of_elements, H2, H3 by done.
    set_solver.
  - destruct Hl as (raw & ? & ?). naive_solver.
Qed.

(** ** Narrowing *)

(** A step that replaces the principal of a request. *)
Inductive narrows (p p' : Principal) : Prop :=
  | narrows_repositories scopes : NarrowRepositoryScopes (Some p) scopes = Ok p' → narrows p p'
  | narrows_universal : KeepUniversalGrant (Some p) = Ok p' → narrows p p'
  | narrows_projects projects : NarrowToProjectScopes (Some p) projects = Ok p' → narrows p p'.

Record less_access (p p' : Principal) : Prop := {
  la_repositories : ∀ slug, AuthorizeRepository p' slug = Ok () → AuthorizeRepository p slug = Ok ();
  la_unrestricted : ClassifyGrant p' = GrantUnrestricted → p' = p;
  la_project : ClassifyGrant p = GrantProjectOnly → ClassifyGrant p' = GrantProjectOnly;
  la_identity : pr_OrgID p' = pr_OrgID p ∧ pr_Subject p' = pr_Subject p
    ∧ pr_CredentialID p' = pr_CredentialID p ∧ pr_Permissions p' = pr_Permissions p;
}.

#[global] Instance less_access_preorder : PreOrder less_access.
Proof.
  split; [by split|]. intros p q r [A1 B1 C1 D1] [A2 B2 C2 D2]. split; [eauto|..|naive_solver congruence].
  - intros Hr. specialize (B2 Hr) as ->. by apply B1.
  - auto.
Qed.

Lemma narrowed_keys scopes held slug :
  Forall (λ s, RepositoryAllowed held s = true) scopes → RepositoryAllowed scopes slug = true →
  RepositoryAllowed held slug = true.
Proof.
  rewrite Forall_forall, (allowed_iff scopes). intros Hs (n & o & rest & raw & Hn & Hv & Ho & Hcut & Hin & Hg).
  specialize (Hs _ Hin). apply allowed_iff in Hs as (m & o' & rest' & h & Hm & Hvm & Ho' & Hcut' & Hh & Hg').
  assert (m = folded raw) as ->.
  { revert Hm. unfold NormalizeRepositorySlug. rewrite reject_Ok. by intros [_ [= <-]]. }
  destruct Hg as [E|[E|E]]; [by apply slug_ne_star in Hvm| |by apply (slug_ne_owner _ o) in Hvm].
  rewrite E in *. apply allowed_iff. assert (o' = o) as -> by congruence. by exists n, o, rest, h.
Qed.

Lemma reserved_grants_nothing slug : RepositoryAllowed [ProjectOnlyRepositoryScope] slug = false.
Proof.
  apply not_true_iff_false. rewrite allowed_iff. intros (n & o & rest & raw & _ & Hv & Ho & _ & Hin & Hg).
  apply list_elem_of_singleton in Hin as ->.
  assert (ValidScope ProjectOnlyRepositoryScope = false) as Hf by (by vm_compute).
  assert (folded ProjectOnlyRepositoryScope = ProjectOnlyRepositoryScope) as Hid.
  { unfold folded. rewrite plain_TrimSpace by (by vm_compute). apply plain_lower. by vm_compute. }
  rewrite Hid in Hg. destruct Hg as [Hg|[Hg|Hg]]; [done| |]; rewrite Hg in Hf.
  - by rewrite slug_scope in Hf.
  - by rewrite owner_scope in Hf.
Qed.

Lemma universal_star p :
  ClassifyGrant p = GrantUniversal →
  HoldsProjectGrant p = false ∧ ∃ raw, raw ∈ pr_RepositoryScopes p ∧ folded raw = "*".
Proof.
  unfold ClassifyGrant. destruct (HoldsProjectGrant p); [done|]. case_bool_decide; [done|].
  destruct (existsb _ _) eqn:Hs; [|done]. intros _. split; [done|].
  apply existsb_exists in Hs as (raw & Hin%list_elem_of_In & Ht%bool_decide_eq_true).
  exists raw. split; [done|]. unfold folded. rewrite Ht. by apply plain_lower.
Qed.

Lemma narrows_less p p' : narrows p p' → less_access p p'.
Proof.
  intros [scopes Hs|Hs|projects Hs]; cbn in Hs; rewrite !reject_Ok in Hs.
  - destruct Hs as (Hne%bool_decide_eq_false & Hall & [= <-]).
    apply negb_false_iff, forallb_Forall in Hall. split.
    + intros slug. rewrite !authorize_iff. intros [Hp Ha]. split; [done|]. by eapply narrowed_keys.
    + rewrite classify_unrestricted. by intros [_ ?].
    + by rewrite !classify_project.
    + done.
  - destruct Hs as [Hu [= <-]]. apply negb_false_iff, bool_decide_eq_true, universal_star in Hu as [Hp (raw & Hin & Hf)].
    split; [| |by rewrite !classify_project|done].
    + intros slug. rewrite !authorize_iff. intros [_ Ha]. split; [done|].
      apply allowed_iff in Ha as (n & o & rest & r & ? & ? & ? & ? & _). apply allowed_iff.
      exists n, o, rest, raw. auto 10.
    + rewrite classify_unrestricted. by intros [_ ?].
  - destruct Hs as (Hne%bool_decide_eq_false & Hu & [= <-]). split; [| | |done].
    + intros slug. rewrite !authorize_iff. cbn. rewrite reserved_grants_nothing. by intros [_ ?].
    + rewrite classify_unrestricted. by intros [_ ?].
    + intros _. apply classify_project. unfold HoldsProjectGrant. cbn. by rewrite bool_decide_false.
Qed.

(** Whatever sequence of narrowings a request's principal goes through, it
    only loses access.  Every repository the narrowed principal is authorized
    for is one the first was authorized for, it is never left with the empty
    grant that reads as unrestricted, a project-only principal stays
    project-only, and it is still the same caller with the same permissions. *)
Theorem narrowing_never_widens p p' : rtc narrows p p' → less_access p p'.
Proof.
  induction 1 as [|p q r Hs _ IH]; [reflexivity|]. etrans; [by apply narrows_less|done].
Qed.

(** ** Refused keys *)

Lemma group_fault_spec groups :
  (group_fault groups = "" ∧ Forall (λ g, ValidOwner g = true) groups)
  ∨ ∃ fault, group_fault groups = "group " +:+ fault.
Proof.
  induction groups as [|g groups IH]; [by left|]. cbn [group_fault]. case_bool_decide as Hf; [right; by eexists|].
  apply (Fault_spec g true) in Hf.
  destruct IH as [[-> ?]|[f ->]]; [left; split; [done|by constructor]|right; by eexists].
Qed.

(** Every refused repository key is explained.  For each text that is not
    a repository key, the description that goes to the logs names a concrete
    fault of the whole key or of the first part that is wrong; the catch-all
    text is never reached. *)
Theorem refusals_are_explained slug e :
  NormalizeRepositorySlug slug = Err e → repositorySlugFault slug ≠ "invalid repository slug".
Proof.
  unfold NormalizeRepositorySlug, repositorySlugFault. fold (folded slug).
  destruct (ValidSlug (folded slug)) eqn:Hv; [done|]. intros _. revert Hv.
  generalize (folded slug) as v. intros v. unfold ValidSlug.
  set (parts := strings_Split v "/").
  destruct (bool_decide (length parts < 2)%nat) eqn:E2; [done|].
  destruct (bool_decide (MaxSlugSegments < length parts)%nat) eqn:E20; [done|].
  destruct (MaxSlugBytes <? slen v) eqn:E255; [done|]. cbn [orb].
  apply bool_decide_eq_false in E2. clear E20. destruct parts as [|g parts]; [cbn in E2; lia|]. cbn [head default from_option]. unfold id.
  destruct (last_split parts) as (x & Hlast & Hsp); [intros ->; cbn in E2; lia|].
  assert (last (g :: parts) = Some x) as ->.
  { rewrite last_cons, Hlast. done. }
  case_bool_decide as Hg; [done|]. apply (Fault_spec g true) in Hg.
  cbn [default from_option]. unfold id.
  replace (take (length (g :: parts) - 2) (drop 1 (g :: parts))) with (take (length parts - 1) parts)
    by (cbn; f_equal; lia).
  destruct (group_fault_spec (take (length parts - 1) parts)) as [[-> Hgs]|[f ->]];
    [|by rewrite bool_decide_true].
  rewrite bool_decide_false by naive_solver. case_bool_decide as Hx; [done|].
  apply (Fault_spec x false) in Hx. rewrite Hx, andb_true_r. intros Hf. exfalso.
  apply not_true_iff_false in Hf. apply Hf. apply forallb_Forall.
  replace (length (g :: parts) - 1)%nat with (S (length parts - 1))
    by (destruct parts; cbn in *; lia). cbn [take]. by constructor.
Qed.
End grants.
