(* ===== verification/Outbox.v ===== *)
(** * Outbox: the credential lifecycle event stream

    internal/storage/internal/credentiallifecycle/event.go and ledger.go.  A
    lifecycle change writes one row of the outbox: [BuildRow] maps the facts of
    the change to the wire event, [Append] gives it its revision.  [Sink] is
    the interface [Append] writes through and [SinkLaws] what it promises; the
    in-memory [Ledger] is shown to keep it.  The invariant of the stream is
    that the rows of one credential carry the revisions 1, 2, 3, ... in write
    order and that nothing follows a terminal event. *)

From Stdlib Require Import ZArith Lia Ascii.
From stdpp Require Import sorting pretty numbers gmap strings list_numbers list.
From S2P Require Import Prelude GoStrings Regexp Sha256 GoText CredTypes.

Open Scope Z_scope.

(** ** Vocabulary *)

Definition eventSchemaVersion : string := "acr-credential-lifecycle-event.v1".
Definition eventAggregateType : string := "acr_credential".
Definition eventTypePrefix : string := "acr_credential.".
Definition encodedRefPrefix : string := "sha256_".

Definition wire_char (c : ascii) : bool :=
  is_upper c || is_lower c || is_digit c || one_of ["_"; "-"]%char c.
Definition wireRefPattern : re := Times (Class wire_char) 1 128.
Definition orgIDPattern : re := Times (Class wire_char) 1 64.

Definition scope_word : re :=
  Cat (Class is_lower) (Star (Class (λ c, is_lower c || is_digit c || one_of ["_"]%char c))).
Definition scopePattern : re := Cat scope_word (Plus (Cat (Lit ":") scope_word)).

Definition EventKind : Type := string.
Definition KindIssued : EventKind := "issued".
Definition KindDeviceRedeemed : EventKind := "device_redeemed".
Definition KindRotated : EventKind := "rotated".
Definition KindRevoked : EventKind := "revoked".
Definition KindExpired : EventKind := "expired".

Definition ActorType : Type := string.
Definition ActorUser : ActorType := "user".
Definition ActorOperator : ActorType := "operator".
Definition ActorCredential : ActorType := "credential".
Definition ActorSystem : ActorType := "system".

Record Actor := MkActor { ac_Type : ActorType; ac_Ref : string }.

Record Facts := MkFacts {
  f_Kind : EventKind;
  f_Credential : ClientCredential;
  f_Revision : Z;
  f_ParentID : string;
  f_At : time;
  f_Actor : Actor;
}.

Record Row := MkRow {
  row_OrgID : string;
  row_AggregateID : string;
  row_Revision : Z;
  row_EventType : string;
  row_Payload : string;
  row_CreatedAt : time;
}.

#[global] Instance Actor_eq_dec : EqDecision Actor.
Proof. solve_decision. Defined.
#[global] Instance Facts_eq_dec : EqDecision Facts.
Proof. solve_decision. Defined.
#[global] Instance Row_eq_dec : EqDecision Row.
Proof. solve_decision. Defined.

Definition invalidEvent {A} (what : string) : res A := Err (ErrInvalidEvent what).

(** [github.com/google/uuid]: the canonical text of a UUID text that parses. *)
Class UUIDLib := { uuid_Parse : string → option string }.

(** ** Mapping facts to a row *)

Section build.
Context `{UUIDLib}.

Definition OrgWireID (orgID : string) : res string :=
  match (if bool_decide (slen orgID = 36) then uuid_Parse orgID else None) with
  | Some canonical => Ok ("org_" +:+ canonical)
  | None =>
    if negb (re_match orgIDPattern orgID) then invalidEvent "organization id"
    else Ok ("org_" +:+ orgID)
  end.

Definition WireRef (value : string) : res string :=
  if bool_decide (value = "") then invalidEvent "empty reference"
  else if re_match wireRefPattern value then Ok value
  else Ok (encodedRefPrefix +:+ sha256_hex value).

Definition ClassOf (c : ClientCredential) : ClientClass :=
  if ClientClass_Valid (pv_ClientClass (cc_Provenance c)) then pv_ClientClass (cc_Provenance c)
  else if match cc_WorkloadBindingID c with
          | Some b => negb (bool_decide (b = ""))
          | None => false
          end then ClientClassWorkload
  else if negb (bool_decide (pv_ApprovingUserID (cc_Provenance c) = "")) then
    if negb (bool_decide (pv_ClientID (cc_Provenance c) = ""))
       || negb (bool_decide (cc_Resource c = ""))
    then ClientClassOAuthUser else ClientClassNativeDevice
  else ClientClassOrgBearer.

Record wireChange := WireChange {
  wc_Status : string;
  wc_AcrClass : string;
  wc_Scopes : list string;
  wc_OwnerSubject : string;
  wc_ExpiresAt : string;
  wc_RotationParentID : string;
}.

Record wirePayload := WirePayload {
  wp_Revision : Z;
  wp_OrganizationID : string;
  wp_ActorType : ActorType;
  wp_ActorRef : string;
  wp_Change : wireChange;
}.

Record wireEvent := WireEvent {
  we_SchemaVersion : string;
  we_AggregateType : string;
  we_AggregateID : string;
  we_EventType : string;
  we_IdempotencyKey : string;
  we_CreatedAt : string;
  we_Payload : wirePayload;
}.

(** [json.Marshal] on the three structs, in field order, [omitempty] honoured. *)
Definition marshal_change (c : wireChange) : string :=
  json_object
    [("status", Some (json_string (wc_Status c)));
     ("acr_class", omitempty_string (wc_AcrClass c));
     ("scopes", omitempty_strings (wc_Scopes c));
     ("owner_subject", omitempty_string (wc_OwnerSubject c));
     ("expires_at", omitempty_string (wc_ExpiresAt c));
     ("rotation_parent_id", omitempty_string (wc_RotationParentID c))].

Definition marshal_payload (p : wirePayload) : string :=
  json_object
    [("revision", Some (strconv_Itoa (wp_Revision p)));
     ("organization_id", Some (json_string (wp_OrganizationID p)));
     ("actor_type", Some (json_string (wp_ActorType p)));
     ("actor_ref", omitempty_string (wp_ActorRef p));
     ("change", Some (marshal_change (wp_Change p)))].

Definition marshal_event (e : wireEvent) : string :=
  json_object
    [("schema_version", Some (json_string (we_SchemaVersion e)));
     ("aggregate_type", Some (json_string (we_AggregateType e)));
     ("aggregate_id", Some (json_string (we_AggregateID e)));
     ("event_type", Some (json_string (we_EventType e)));
     ("idempotency_key", Some (json_string (we_IdempotencyKey e)));
     ("created_at", Some (json_string (we_CreatedAt e)));
     ("payload", Some (marshal_payload (we_Payload e)))].

Definition wireTime (t : time) : string := format_wire (time_Truncate t Microsecond) +:+ "Z".

Definition actorRef (f : Facts) (kind : EventKind) : res string :=
  let ty := ac_Type (f_Actor f) in
  if bool_decide (ty = ActorSystem) then
    reject! negb (bool_decide (ac_Ref (f_Actor f) = ""))
      with ErrInvalidEvent "system actor reference" ;;
    Ok ""
  else if bool_decide (ty = ActorCredential) then
    if bool_decide (kind = KindRevoked) then Ok (cc_CredentialID (f_Credential f))
    else if bool_decide (kind = KindRotated) then Ok (f_ParentID f)
    else invalidEvent ("credential actor on " +:+ kind)
  else if bool_decide (ty = ActorUser) || bool_decide (ty = ActorOperator)
  then WireRef (ac_Ref (f_Actor f))
  else invalidEvent "actor type".

(** The switch on the kind: the kind written and its revision. *)
Definition eventKindRevision (f : Facts) : res (EventKind * Z) :=
  let class := ClassOf (f_Credential f) in
  if bool_decide (f_Kind f ∈ [KindIssued; KindDeviceRedeemed; KindRotated]) then
    let kind := if bool_decide (f_Kind f = KindDeviceRedeemed)
                   && bool_decide (class = ClientClassBrowser)
                then KindIssued else f_Kind f in
    reject! bool_decide (kind = KindDeviceRedeemed)
            && negb (bool_decide (class = ClientClassNativeDevice))
            && negb (bool_decide (class = ClientClassOAuthUser))
      with ErrInvalidEvent "device_redeemed class" ;;
    reject! bool_decide (kind = KindRotated) && bool_decide (class = ClientClassBrowser)
      with ErrInvalidEvent "rotated browser credential" ;;
    Ok (kind, 1)
  else if bool_decide (f_Kind f = KindRevoked) then
    reject! f_Revision f <? 2 with ErrInvalidEvent "revoked revision" ;;
    Ok (f_Kind f, f_Revision f)
  else if bool_decide (f_Kind f = KindExpired) then
    reject! f_Revision f <? 2 with ErrInvalidEvent "expired revision" ;;
    reject! negb (bool_decide (ac_Type (f_Actor f) = ActorSystem))
            || bool_decide (cc_ExpiresAt (f_Credential f) = None)
      with ErrInvalidEvent "expired actor or expiry" ;;
    Ok (f_Kind f, f_Revision f)
  else invalidEvent "event kind".

(** The scope loop. *)
Fixpoint checkScopes (scopes : list string) : res () :=
  match scopes with
  | [] => Ok ()
  | scope :: rest =>
    reject! (64 <? slen scope) || negb (re_match scopePattern scope)
      with ErrInvalidEvent "scope" ;;
    checkScopes rest
  end.

(** The [change] object of the event. *)
Definition buildChange (f : Facts) (kind : EventKind) : res wireChange :=
  let c := f_Credential f in
  let expires := match cc_ExpiresAt c with Some t => wireTime t | None => "" end in
  if bool_decide (kind = KindRevoked) then Ok (WireChange "revoked" "" [] "" "" "")
  else if bool_decide (kind = KindExpired) then Ok (WireChange "expired" "" [] "" expires "")
  else
    let scopes := slices_Compact (sort_Strings (cc_Scopes c)) in
    reject! bool_decide (length scopes = 0)%nat || bool_decide (64 < length scopes)%nat
      with ErrInvalidEvent "scopes" ;;
    let? _ := checkScopes scopes in
    let? owner := if negb (bool_decide (pv_ApprovingUserID (cc_Provenance c) = ""))
                  then WireRef (pv_ApprovingUserID (cc_Provenance c)) else Ok "" in
    Ok (WireChange "active" (ClassOf c) scopes owner expires
          (if bool_decide (kind = KindRotated) then f_ParentID f else "")).

Definition BuildRow (f : Facts) : res Row :=
  let c := f_Credential f in
  reject! time_IsZero (f_At f) with ErrInvalidEvent "time" ;;
  let? org := OrgWireID (cc_OrgID c) in
  reject! negb (re_match wireRefPattern (cc_CredentialID c)) with ErrInvalidEvent "aggregate id" ;;
  let? kr := eventKindRevision f in
  let '(kind, revision) := kr in
  reject! bool_decide (kind = KindRotated) && negb (re_match wireRefPattern (f_ParentID f))
    with ErrInvalidEvent "rotation parent" ;;
  let? actor_ref := actorRef f kind in
  let? change := buildChange f kind in
  let eventType := eventTypePrefix +:+ kind in
  let event := WireEvent eventSchemaVersion eventAggregateType (cc_CredentialID c) eventType
    (eventAggregateType +:+ ":" +:+ cc_CredentialID c +:+ ":" +:+ strconv_Itoa revision)
    (wireTime (f_At f))
    (WirePayload revision org (ac_Type (f_Actor f)) actor_ref change) in
  Ok (MkRow (cc_OrgID c) (cc_CredentialID c) revision eventType (marshal_event event) (f_At f)).
End build.

(** ** The sink interface *)

Class Sink (S : Type) := {
  sink_MaxRevision : string → go S Z;
  sink_LatestEventType : string → go S string;
  sink_Insert : Row → go S ();
}.

Definition isTerminalEventType (eventType : string) : bool :=
  bool_decide (eventType = eventTypePrefix +:+ KindRevoked)
  || bool_decide (eventType = eventTypePrefix +:+ KindExpired).

Definition StatusOfEventType (eventType : string) : option string :=
  if bool_decide (eventType = eventTypePrefix +:+ KindRevoked) then Some "revoked"
  else if bool_decide (eventType = eventTypePrefix +:+ KindExpired) then Some "expired"
  else if bool_decide (eventType ∈ [eventTypePrefix +:+ KindIssued;
            eventTypePrefix +:+ KindDeviceRedeemed; eventTypePrefix +:+ KindRotated])
  then Some "active"
  else None.

Section append.
Context `{UUIDLib} {S : Type} `{Sink S}.

Definition insertFacts (f : Facts) : go S () :=
  let! row := lift_res (BuildRow f) in
  sink_Insert row.

Definition EnsureIssued (c : ClientCredential) : go S () :=
  let! max := sink_MaxRevision (cc_CredentialID c) in
  if bool_decide (max > 0) then ret ()
  else insertFacts (MkFacts KindIssued c 0 "" (cc_CreatedAt c) (MkActor ActorSystem "")).

Definition Append (f : Facts) : go S () :=
  if bool_decide (f_Kind f = KindRevoked) || bool_decide (f_Kind f = KindExpired) then
    EnsureIssued (f_Credential f) ;;
    let! latest := sink_LatestEventType (cc_CredentialID (f_Credential f)) in
    if isTerminalEventType latest then ret ()
    else
      let! max := sink_MaxRevision (cc_CredentialID (f_Credential f)) in
      insertFacts (MkFacts (f_Kind f) (f_Credential f) (max + 1) (f_ParentID f) (f_At f) (f_Actor f))
  else insertFacts f.
End append.

(** ** Who acted *)

Definition CreateKind (in_ : CreateInput) : EventKind :=
  if bool_decide (ci_IssuanceProvenance in_ = IssuanceProvenanceDeviceAuthorization)
  then KindDeviceRedeemed else KindIssued.

Definition CreateActor (in_ : CreateInput) : Actor :=
  if bool_decide (ci_IssuanceProvenance in_ = IssuanceProvenanceWorkloadExchange)
  then MkActor ActorSystem ""
  else if bool_decide (ci_IssuanceProvenance in_ = IssuanceProvenanceDeviceAuthorization)
          && negb (bool_decide (ci_ApprovingUserID in_ = ""))
          && negb (bool_decide (ci_ActorID in_ = ci_ApprovingUserID in_))
  then MkActor ActorSystem ""
  else MkActor ActorUser (ci_ActorID in_).

Definition RotationActor (in_ : RotationInput) : Actor :=
  if ri_SelfCredential in_ then MkActor ActorCredential "" else MkActor ActorUser (ri_ActorID in_).

Definition RevocationActor (in_ : RevocationInput) : Actor :=
  if vi_SelfCredential in_ then MkActor ActorCredential ""
  else if bool_decide (vi_ActorType in_ = ActorSystem) then MkActor ActorSystem ""
  else if bool_decide (vi_ActorType in_ = ActorOperator) then MkActor ActorOperator (vi_ActorID in_)
  else MkActor ActorUser (vi_ActorID in_).

Definition RollbackActor (in_ : RotationRollbackInput) : Actor :=
  if bool_decide (bi_ActorID in_ = bi_SuccessorCredentialID in_) then MkActor ActorCredential ""
  else MkActor ActorUser (bi_ActorID in_).

Definition FamilyMemberActor (initiator : Actor) : Actor :=
  if bool_decide (ac_Type initiator = ActorCredential) then MkActor ActorSystem "" else initiator.

(** ** The in-memory ledger *)

Module Ledger.
Record Ledger := MkLedger { rows : list Row }.

Definition NewLedger : Ledger := MkLedger [].

Definition MaxRevision (aggregateID : string) : go Ledger Z :=
  let! l := get in
  ret (fold_left (λ max row, if bool_decide (row_AggregateID row = aggregateID)
                                && bool_decide (row_Revision row > max)
                             then row_Revision row else max) (rows l) 0).

Definition Insert (row : Row) : go Ledger () :=
  let! l := get in
  refuse! existsb (λ existing, bool_decide (row_AggregateID existing = row_AggregateID row)
                               && bool_decide (row_Revision existing = row_Revision row)) (rows l)
    with ErrRevisionConflict ;;
  put (MkLedger (rows l ++ [row])).

Definition Rows : go Ledger (list Row) := let! l := get in ret (rows l).

Definition Len : go Ledger Z := let! l := get in ret (Z.of_nat (length (rows l))).

Definition TruncateTo (n : Z) : go Ledger () :=
  modify (λ l, if bool_decide (0 <= n) && bool_decide (n < Z.of_nat (length (rows l)))
               then MkLedger (take (Z.to_nat n) (rows l)) else l).

Definition LatestEventType (aggregateID : string) : go Ledger string :=
  let! l := get in
  ret (fold_left (λ acc row, if bool_decide (row_AggregateID row = aggregateID)
                                && bool_decide (row_Revision row > acc.2)
                             then (row_EventType row, row_Revision row) else acc)
         (rows l) ("", 0)).1.

#[global] Instance ledger_sink : Sink Ledger := {
  sink_MaxRevision := MaxRevision;
  sink_LatestEventType := LatestEventType;
  sink_Insert := Insert;
}.
End Ledger.

(** ** What a sink promises *)

Definition stream (a : string) (rows : list Row) : list Row :=
  filter (λ r, row_AggregateID r = a) rows.

Definition is_max_revision (l : list Row) (m : Z) : Prop :=
  (∀ r, r ∈ l → row_Revision r ≤ m) ∧ (m = 0 ∨ ∃ r, r ∈ l ∧ row_Revision r = m).

Definition is_latest (l : list Row) (e : string) : Prop :=
  ((∀ r, r ∈ l → row_Revision r ≤ 0) ∧ e = "") ∨
  (∃ r, r ∈ l ∧ row_EventType r = e ∧ 0 < row_Revision r ∧
        ∀ r', r' ∈ l → row_Revision r' ≤ row_Revision r).

Class SinkLaws (S : Type) `{Sink S} := {
  sink_rows : S → list Row;
  max_readonly : ∀ a, readonly (S := S) (sink_MaxRevision a);
  max_spec : ∀ a w m w', sink_MaxRevision a w = (Ok m, w') →
    is_max_revision (stream a (sink_rows w.2)) m;
  latest_readonly : ∀ a, readonly (S := S) (sink_LatestEventType a);
  latest_spec : ∀ a w e w', sink_LatestEventType a w = (Ok e, w') →
    is_latest (stream a (sink_rows w.2)) e;
  insert_spec : ∀ row w u w', sink_Insert row w = (Ok u, w') →
    sink_rows w'.2 = sink_rows w.2 ++ [row] ∧
    ∀ r, r ∈ stream (row_AggregateID row) (sink_rows w.2) → row_Revision r ≠ row_Revision row;
  insert_failed : ∀ row w w' r, sink_Insert row w = (r, w') → (∀ u, r ≠ Ok u) →
    sink_rows w'.2 = sink_rows w.2;
}.

(** ** The invariant of the stream *)

Definition opening_type (e : string) : Prop :=
  e ∈ [eventTypePrefix +:+ KindIssued; eventTypePrefix +:+ KindDeviceRedeemed;
       eventTypePrefix +:+ KindRotated].

Record contiguous (l : list Row) : Prop := {
  contiguous_revision : ∀ i r, l !! i = Some r → row_Revision r = Z.of_nat i + 1;
  contiguous_kinds : ∀ i r, l !! i = Some r → opening_type (row_EventType r) ∧ i = 0%nat ∨
    isTerminalEventType (row_EventType r) = true ∧ i = 1%nat;
}.

Definition stream_ok (rows : list Row) : Prop := ∀ a, contiguous (stream a rows).

Lemma opening_not_terminal e : opening_type e → isTerminalEventType e = false.
Proof. unfold opening_type. rewrite !list_elem_of_In. cbn. by intros [<-|[<-|[<-|[]]]]. Qed.

Lemma contiguous_nil : contiguous [].
Proof. split; intros; by rewrite lookup_nil in *. Qed.

(** A stream has at most two rows: the one that opens it and a terminal one. *)
Lemma contiguous_length l : contiguous l → (length l ≤ 2)%nat.
Proof.
  intros Hl. destruct (decide (length l ≤ 2)%nat); [done|].
  destruct (lookup_lt_is_Some_2 l 2) as [r Hr]; [lia|].
  destruct (contiguous_kinds _ Hl _ _ Hr) as [[_ ?]|[_ ?]]; done.
Qed.

Lemma contiguous_max l m : contiguous l → is_max_revision l m → m = Z.of_nat (length l).
Proof.
  intros Hl [Hub Hm]. destruct (decide (l = [])) as [->|Hne].
  { destruct Hm as [->|(r & Hr & _)]; [done|set_solver]. }
  destruct (lookup_lt_is_Some_2 l (length l - 1)) as [r Hr]; [destruct l; [done|cbn; lia]|].
  pose proof (contiguous_revision _ Hl _ _ Hr) as Hrev.
  pose proof (Hub _ (list_elem_of_lookup_2 _ _ _ Hr)) as Hle.
  assert (0 < length l)%nat by (destruct l; [done|cbn; lia]).
  destruct Hm as [->|(r' & Hr' & <-)]; [lia|].
  apply list_elem_of_lookup in Hr' as [i Hi].
  pose proof (contiguous_revision _ Hl _ _ Hi). apply lookup_lt_Some in Hi. lia.
Qed.

Lemma contiguous_latest l e :
  contiguous l → is_latest l e → e = default "" (row_EventType <$> last l).
Proof.
  intros Hl [[Hle ->]|(r & Hr & <- & Hpos & Hub)].
  - destruct l as [|r l]; [done|]. exfalso.
    pose proof (contiguous_revision _ Hl 0 r eq_refl). assert (row_Revision r ≤ 0) by (apply Hle; set_solver). lia.
  - apply list_elem_of_lookup in Hr as [i Hi].
    pose proof (contiguous_revision _ Hl _ _ Hi) as Hrev. pose proof (lookup_lt_Some _ _ _ Hi).
    destruct (lookup_lt_is_Some_2 l (length l - 1)) as [r' Hr']; [lia|].
    pose proof (contiguous_revision _ Hl _ _ Hr'). pose proof (Hub _ (list_elem_of_lookup_2 _ _ _ Hr')).
    assert (i = length l - 1)%nat as -> by lia. by rewrite last_lookup, <-Nat.sub_1_r, Hi.
Qed.

Lemma contiguous_open r : row_Revision r = 1 → opening_type (row_EventType r) → contiguous [r].
Proof. intros Hr Ho. split; intros [|i] r' Hi; naive_solver. Qed.

Lemma contiguous_close l r :
  contiguous l → l ≠ [] → isTerminalEventType (default "" (row_EventType <$> last l)) = false →
  row_Revision r = Z.of_nat (length l) + 1 → isTerminalEventType (row_EventType r) = true →
  contiguous (l ++ [r]).
Proof.
  intros Hl Hne Hlast Hrev Hterm. assert (length l = 1%nat) as Hlen.
  { pose proof (contiguous_length _ Hl). destruct l as [|r1 [|r2 [|??]]]; cbn in *; try done; [|lia].
    destruct (contiguous_kinds _ Hl 1 r2 eq_refl) as [[_ ?]|[? _]]; [done|congruence]. }
  split; intros i r' [Hi|[Hi E]]%lookup_app_Some.
  - by eapply contiguous_revision.
  - apply list_lookup_singleton_Some in E as [E <-]. lia.
  - by eapply contiguous_kinds.
  - apply list_lookup_singleton_Some in E as [E <-]. right. split; [done|lia].
Qed.

Lemma stream_snoc a rows r :
  stream a (rows ++ [r]) = if decide (row_AggregateID r = a) then stream a rows ++ [r] else stream a rows.
Proof.
  unfold stream. rewrite filter_app, filter_cons. destruct (decide _); [done|by rewrite app_nil_r].
Qed.

Lemma stream_ok_snoc rows r :
  stream_ok rows → contiguous (stream (row_AggregateID r) rows ++ [r]) → stream_ok (rows ++ [r]).
Proof. intros Hok Hr a. rewrite stream_snoc. destruct (decide _) as [<-|]; auto. Qed.

Lemma eventKindRevision_Ok `{UUIDLib} f kind revision :
  eventKindRevision f = Ok (kind, revision) →
  (opening_type (eventTypePrefix +:+ kind) ∧ revision = 1 ∧
   f_Kind f ≠ KindRevoked ∧ f_Kind f ≠ KindExpired) ∨
  (isTerminalEventType (eventTypePrefix +:+ kind) = true ∧ kind = f_Kind f ∧
   revision = f_Revision f ∧ 2 ≤ revision).
Proof.
  unfold eventKindRevision, invalidEvent. case_bool_decide as Hk.
  - intros Hr. left. res_inv Hr. injection Hr as <- <-.
    assert (f_Kind f = KindIssued ∨ f_Kind f = KindDeviceRedeemed ∨ f_Kind f = KindRotated) as Hk'
      by (clear -Hk; rewrite !elem_of_cons, elem_of_nil in Hk; tauto).
    split; [|by destruct Hk' as [-> | [-> | ->]]].
    unfold opening_type. apply list_elem_of_In. cbn [In].
    destruct Hk' as [-> | [-> | ->]];
      match goal with |- context [if ?b then KindIssued else _] => destruct b end; auto.
  - case_bool_decide as Hk'; [|case_bool_decide as Hk''; [|done]]; intros Hr;
      res_inv Hr; injection Hr as <- <-; right; rewrite ?Hk', ?Hk'';
      repeat split; apply Z.ltb_ge; done.
Qed.

Lemma BuildRow_Ok `{UUIDLib} f row :
  BuildRow f = Ok row →
  row_AggregateID row = cc_CredentialID (f_Credential f) ∧
  row_OrgID row = cc_OrgID (f_Credential f) ∧ row_CreatedAt row = f_At f ∧
  ((opening_type (row_EventType row) ∧ row_Revision row = 1 ∧
    f_Kind f ≠ KindRevoked ∧ f_Kind f ≠ KindExpired) ∨
   (isTerminalEventType (row_EventType row) = true ∧ row_Revision row = f_Revision f ∧
    row_EventType row = eventTypePrefix +:+ f_Kind f)).
Proof.
  unfold BuildRow. intros Hr. res_inv Hr. destruct a0 as [kind revision]. res_inv Hr.
  injection Hr as <-. cbn. repeat split; [done..|].
  apply eventKindRevision_Ok in Ha0 as [(? & ? & ? & ?)|(? & -> & ? & ?)]; eauto.
Qed.

Definition terminated (a : string) (rows : list Row) : Prop :=
  isTerminalEventType (default "" (row_EventType <$> last (stream a rows))) = true.

#[global] Instance terminated_dec a rows : Decision (terminated a rows).
Proof. unfold terminated. apply _. Defined.

Lemma res_bind_safe {A B} (m : res A) (k : A → res B) :
  m ≠ Panic → (∀ a, k a ≠ Panic) → res_bind m k ≠ Panic.
Proof. destruct m; cbn; auto. Qed.

(** Mapping facts to a row never dereferences a nil pointer. *)
Lemma BuildRow_safe `{UUIDLib} f : BuildRow f ≠ Panic.
Proof.
  assert (∀ v, WireRef v ≠ Panic) as Hw by (intros v; unfold WireRef; by repeat case_match).
  assert (∀ l, checkScopes l ≠ Panic) as Hs by (induction l; cbn; [done|by case_match]).
  unfold BuildRow. case_match; [done|]. apply res_bind_safe.
  { unfold OrgWireID. by repeat case_match. }
  intros org. case_match; [done|]. apply res_bind_safe.
  { unfold eventKindRevision. by repeat case_match. }
  intros [kind revision]. case_match; [done|]. apply res_bind_safe.
  { unfold actorRef. repeat case_match; done || apply Hw. }
  intros ref. apply res_bind_safe; [|done]. unfold buildChange.
  destruct (bool_decide (kind = KindRevoked)); [done|].
  destruct (bool_decide (kind = KindExpired)); [done|]. destruct (_ || _); [done|].
  apply res_bind_safe; [done|].
  intros _. apply res_bind_safe; [|done].
  match goal with |- (if ?b then _ else _) ≠ _ => destruct b end; [apply Hw|done].
Qed.

Definition outbox_error (e : gerr) : Prop :=
  (∃ what, e = ErrInvalidEvent what) ∨ e = ErrRevisionConflict.

Lemma res_bind_errs {A B} (P : gerr → Prop) (m : res A) (k : A → res B) e :
  (∀ e, m = Err e → P e) → (∀ a e, k a = Err e → P e) → res_bind m k = Err e → P e.
Proof. destruct m as [a|e1|]; cbn; [eauto| |done]. intros Hm _ [= <-]. by apply Hm. Qed.

Lemma reject_errs {A} (P : gerr → Prop) (b : bool) e0 (k : res A) e :
  P e0 → (∀ e, k = Err e → P e) → (if b then Err e0 else k) = Err e → P e.
Proof. intros Hp Hk. destruct b; [by intros [= <-]|apply Hk]. Qed.

Lemma WireRef_errs v e : WireRef v = Err e → outbox_error e.
Proof. unfold WireRef, invalidEvent. repeat case_match; try done. intros [= <-]. left. eauto. Qed.

Lemma checkScopes_errs l e : checkScopes l = Err e → outbox_error e.
Proof.
  revert e. induction l as [|x l IH]; cbn; [done|]. intros e. apply reject_errs; [left; eauto|apply IH].
Qed.

Lemma BuildRow_errs `{UUIDLib} f e : BuildRow f = Err e → outbox_error e.
Proof.
  assert (∀ what, outbox_error (ErrInvalidEvent what)) as Hi by (left; eauto).
  unfold BuildRow. apply reject_errs; [done|]. clear e. intros e.
  apply res_bind_errs.
  { intros e'. unfold OrgWireID, invalidEvent. repeat case_match; try done; by intros [= <-]. }
  clear e. intros org e. apply reject_errs; [done|]. clear e. intros e. apply res_bind_errs.
  { intros e'. unfold eventKindRevision, invalidEvent. repeat case_match; try done; by intros [= <-]. }
  clear e. intros [kind revision] e. apply reject_errs; [done|]. clear e. intros e. apply res_bind_errs.
  { intros e'. unfold actorRef, invalidEvent.
    repeat case_match; try done; (apply WireRef_errs || by intros [= <-]). }
  clear e. intros ref e. apply res_bind_errs; [|done].
  clear e. intros e. unfold buildChange.
  destruct (bool_decide (kind = KindRevoked)); [done|].
  destruct (bool_decide (kind = KindExpired)); [done|]. apply reject_errs; [done|].
  clear e. intros e. apply res_bind_errs; [apply checkScopes_errs|].
  clear e. intros _ e. apply res_bind_errs; [|done]. clear e. intros e.
  match goal with |- (if ?b then _ else _) = _ → _ => destruct b end; [apply WireRef_errs|done].
Qed.

Section append_laws.
Context `{UUIDLib} {S : Type} `{SinkLaws S}.

Definition sink_ok (s : S) : Prop := stream_ok (sink_rows s).

(** A row that opens a stream is only ever written to an empty one. *)
Lemma insertFacts_ok f w r w' :
  insertFacts f w = (r, w') → sink_ok w.2 →
  let l := stream (cc_CredentialID (f_Credential f)) (sink_rows w.2) in
  (f_Kind f = KindRevoked ∨ f_Kind f = KindExpired →
   f_Revision f = Z.of_nat (length l) + 1 ∧ l ≠ [] ∧
   isTerminalEventType (default "" (row_EventType <$> last l)) = false) →
  sink_ok w'.2 ∧
  ((∃ u row, r = Ok u ∧ BuildRow f = Ok row ∧ sink_rows w'.2 = sink_rows w.2 ++ [row]) ∨
   ((∀ u, r ≠ Ok u) ∧ sink_rows w'.2 = sink_rows w.2)).
Proof.
  intros Hrun Hok l Hterm. unfold insertFacts in Hrun.
  apply bind_res_inv in Hrun as [(row & w1 & Hrow & Hins)|[(e & -> & Hrow)|[-> Hrow]]];
    unfold lift_res in Hrow; injection Hrow as Hrow <-; [|by split; [|right]..].
  pose proof (BuildRow_Ok _ _ Hrow) as (Hagg & _ & _ & Hkind).
  destruct r as [u|e|].
  - apply insert_spec in Hins as [Hrows Hfresh]. split; [|by eauto 10]. unfold sink_ok. rewrite Hrows.
    apply stream_ok_snoc; [done|]. rewrite Hagg in *. fold l in Hfresh |- *.
    destruct Hkind as [(Hopen & Hrev & _)|(Ht & Hrev & Htype)].
    + assert (l = []) as ->; [|by apply contiguous_open].
      destruct l as [|r0 l0] eqn:E; [done|]. exfalso. apply (Hfresh r0); [set_solver|].
      rewrite Hrev. apply (contiguous_revision _ (Hok (cc_CredentialID (f_Credential f))) 0).
      change (l !! 0%nat = Some r0). by rewrite E.
    + assert (f_Kind f = KindRevoked ∨ f_Kind f = KindExpired) as Hk.
      { rewrite Htype in Ht. apply orb_true_iff in Ht. rewrite !bool_decide_eq_true in Ht.
        destruct Ht as [Ht|Ht]; [left|right]; by apply (inj (String.app eventTypePrefix)) in Ht. }
      destruct (Hterm Hk) as (? & ? & ?). apply contiguous_close; [apply Hok|done..|congruence|done].
  - unfold sink_ok. rewrite (insert_failed _ _ _ _ Hins) by done. by split; [|right].
  - unfold sink_ok. rewrite (insert_failed _ _ _ _ Hins) by done. by split; [|right].
Qed.


Lemma EnsureIssued_ok c w r w' :
  EnsureIssued c w = (r, w') → sink_ok w.2 →
  sink_ok w'.2 ∧ sink_rows w.2 `prefix_of` sink_rows w'.2 ∧
  ∀ u, r = Ok u → stream (cc_CredentialID c) (sink_rows w'.2) ≠ [] ∧
    (stream (cc_CredentialID c) (sink_rows w.2) ≠ [] → sink_rows w'.2 = sink_rows w.2).
Proof.
  unfold EnsureIssued. intros Hrun Hok.
  apply bind_res_inv in Hrun as [(m & w1 & Hm & Hrun)|[(e & -> & Hm)|[-> Hm]]];
    pose proof (max_readonly _ _ _ _ Hm) as Hro; [|unfold sink_ok; rewrite Hro; by split_and!..].
  apply max_spec, (contiguous_max _ _ (Hok _)) in Hm. case_bool_decide as Hpos.
  - injection Hrun as <- <-. unfold sink_ok. rewrite Hro. split; [done|]. split; [done|].
    intros _ _. split; [|done]. intros E. rewrite E in Hm. cbn in Hm. lia.
  - apply insertFacts_ok in Hrun as [Hok' Hrows]; unfold sink_ok; rewrite ?Hro; [|done|by intros [?|?]].
    assert (stream (cc_CredentialID c) (sink_rows w.2) = []) as Hnil
      by (apply length_zero_iff_nil; lia).
    split; [done|]. destruct Hrows as [(u & row & -> & Hrow & ->)|[Hno ->]]; rewrite Hro.
    + split; [by apply prefix_app_r|]. intros _ _. rewrite Hnil, stream_snoc.
      rewrite decide_True by (by apply BuildRow_Ok in Hrow as [? _]).
      split; [by destruct (stream _ _)|done].
    + split; [done|]. intros u ->. by destruct (Hno u).
Qed.

Lemma terminal_kind f :
  bool_decide (f_Kind f = KindRevoked) || bool_decide (f_Kind f = KindExpired) = true ↔
  f_Kind f = KindRevoked ∨ f_Kind f = KindExpired.
Proof. by rewrite orb_true_iff, !bool_decide_eq_true. Qed.

Lemma Append_ok f w r w' :
  Append f w = (r, w') → sink_ok w.2 →
  let a := cc_CredentialID (f_Credential f) in
  sink_ok w'.2 ∧ sink_rows w.2 `prefix_of` sink_rows w'.2 ∧
  (f_Kind f = KindRevoked ∨ f_Kind f = KindExpired → ∀ u, r = Ok u →
    terminated a (sink_rows w'.2) ∧
    (terminated a (sink_rows w.2) → sink_rows w'.2 = sink_rows w.2)).
Proof.
  intros Hrun Hok a. unfold Append in Hrun.
  destruct (bool_decide (f_Kind f = KindRevoked) || bool_decide (f_Kind f = KindExpired)) eqn:Ek.
  2:{ apply insertFacts_ok in Hrun as [Hok' Hrows]; [|done|].
      - split; [done|]. split; [|intros Hk; apply terminal_kind in Hk; congruence].
        destruct Hrows as [(u & row & _ & _ & ->)|[_ ->]]; [by apply prefix_app_r|done].
      - intros Hk. apply terminal_kind in Hk. congruence. }
  apply bind_res_inv in Hrun as [(u & w1 & He & Hrun)|[(e & -> & He)|[-> He]]];
    apply EnsureIssued_ok in He as (Hok1 & Hpre1 & Hne); [|done|by split_and!|done|by split_and!|done].
  destruct (Hne u eq_refl) as [Hne1 Hsame].
  apply bind_res_inv in Hrun as [(latest & w2 & Hl & Hrun)|[(e & -> & Hl)|[-> Hl]]];
    pose proof (latest_readonly _ _ _ _ Hl) as Hro; [|unfold sink_ok; rewrite Hro; by split_and!..].
  apply latest_spec, (contiguous_latest _ _ (Hok1 _)) in Hl. fold a in Hl, Hne1, Hsame.
  assert (terminated a (sink_rows w.2) → sink_rows w1.2 = sink_rows w.2) as Hsame'.
  { intros Ht. apply Hsame. intros E. unfold terminated in Ht. rewrite E in Ht. done. }
  destruct (isTerminalEventType latest) eqn:Et.
  { injection Hrun as <- <-. unfold sink_ok, terminated. rewrite Hro, <-Hl. by split_and!. }
  assert (¬ terminated a (sink_rows w1.2)) as Hnt by (unfold terminated; rewrite <-Hl, Et; done).
  apply bind_res_inv in Hrun as [(m & w3 & Hm & Hrun)|[(e & -> & Hm)|[-> Hm]]];
    pose proof (max_readonly _ _ _ _ Hm) as Hro2;
    [|unfold sink_ok; rewrite Hro2, Hro; by split_and!..].
  apply max_spec in Hm. rewrite Hro in Hm. apply (contiguous_max _ _ (Hok1 _)) in Hm.
  rewrite Hro in Hro2.
  apply insertFacts_ok in Hrun as [Hok' Hrows]; unfold sink_ok; rewrite ?Hro2; [|done|].
  2:{ intros _. cbn [f_Revision f_Credential]. fold a. rewrite Hm. split; [done|].
      split; [done|]. by apply not_true_iff_false. }
  split; [done|]. rewrite Hro2 in Hrows.
  destruct Hrows as [(u' & row & -> & Hrow & ->)|[Hno ->]].
  - split; [by eapply transitivity, prefix_app_r|]. intros _ _ _.
    assert (terminated a (sink_rows w1.2 ++ [row])) as Hterm.
    { apply BuildRow_Ok in Hrow as (Hagg & _ & _ & Hk). cbn [f_Credential f_Kind] in *.
      unfold terminated. rewrite stream_snoc, decide_True, last_snoc by done. cbn.
      apply terminal_kind in Ek. destruct Hk as [(_ & _ & ? & ?)|(? & _)]; [|done].
      by destruct Ek. }
    split; [done|]. intros Ht. specialize (Hsame' Ht). rewrite Hsame' in Hnt. done.
  - split; [done|]. intros _ u' ->. by destruct (Hno u').
Qed.

(** *** Rows are only ever added *)

Definition grows {A} (m : go S A) : Prop :=
  ∀ w r w', m w = (r, w') → sink_rows w.2 `prefix_of` sink_rows w'.2.

Lemma grows_readonly {A} (m : go S A) : readonly m → grows m.
Proof. intros Hm w r w' Hr. by rewrite (Hm _ _ _ Hr). Qed.

Lemma grows_bind {A B} (m : go S A) (k : A → go S B) :
  grows m → (∀ a, grows (k a)) → grows (bind m k).
Proof.
  intros Hm Hk w r w' Hr.
  apply bind_res_inv in Hr as [(a & w1 & Hr1 & Hr2)|[(e & -> & Hr1)|[-> Hr1]]]; [|by eapply Hm..].
  etrans; [by eapply Hm|by eapply Hk].
Qed.

Lemma grows_insert row : grows (sink_Insert row).
Proof.
  intros w r w' Hr. destruct r as [u|e|].
  - apply insert_spec in Hr as [-> _]. by apply prefix_app_r.
  - by rewrite (insert_failed _ _ _ _ Hr).
  - by rewrite (insert_failed _ _ _ _ Hr).
Qed.

Lemma insertFacts_grows f : grows (insertFacts f).
Proof.
  apply grows_bind; [apply grows_readonly, readonly_lift|]. intros row. apply grows_insert.
Qed.

Lemma EnsureIssued_grows c : grows (EnsureIssued c).
Proof.
  apply grows_bind; [apply grows_readonly, max_readonly|]. intros m. case_match.
  - apply grows_readonly, readonly_ret.
  - apply insertFacts_grows.
Qed.

Lemma Append_grows f : grows (Append f).
Proof.
  unfold Append. case_match; [|apply insertFacts_grows].
  apply grows_bind; [apply EnsureIssued_grows|intros _].
  apply grows_bind; [apply grows_readonly, latest_readonly|intros latest].
  case_match; [apply grows_readonly, readonly_ret|].
  apply grows_bind; [apply grows_readonly, max_readonly|intros m]. apply insertFacts_grows.
Qed.

(** *** What a run does to the streams: which it opens and which it closes *)

Definition effect (opens closes : list string) (rows rows' : list Row) : Prop :=
  ∀ b, (terminated b rows' ↔ terminated b rows ∨ b ∈ closes) ∧
       (stream b rows' ≠ [] ↔ stream b rows ≠ [] ∨ b ∈ opens).

Lemma effect_refl rows : effect [] [] rows rows.
Proof. intros b. set_solver. Qed.

Lemma effect_trans o1 c1 o2 c2 rows1 rows2 rows3 :
  effect o1 c1 rows1 rows2 → effect o2 c2 rows2 rows3 → effect (o1 ++ o2) (c1 ++ c2) rows1 rows3.
Proof.
  intros He1 He2 b. destruct (He1 b) as [Ht1 Ho1], (He2 b) as [Ht2 Ho2].
  rewrite Ht2, Ht1, Ho2, Ho1, !elem_of_app. tauto.
Qed.

Lemma effect_ext o1 c1 o2 c2 rows rows' :
  (∀ b, b ∈ o1 ↔ b ∈ o2) → (∀ b, b ∈ c1 ↔ b ∈ c2) → effect o1 c1 rows rows' → effect o2 c2 rows rows'.
Proof. intros Ho Hc He b. destruct (He b) as [-> ->]. by rewrite Ho, Hc. Qed.

Lemma effect_row rows row :
  effect [row_AggregateID row]
    (if isTerminalEventType (row_EventType row) then [row_AggregateID row] else [])
    rows (rows ++ [row]) ∨ terminated (row_AggregateID row) rows.
Proof.
  destruct (decide (terminated (row_AggregateID row) rows)) as [|Hn]; [by right|left].
  assert (∀ a : string, a ∈ [a]) as Hin by (intros; by apply list_elem_of_singleton).
  intros b. unfold terminated in *. rewrite stream_snoc. destruct (decide _) as [<-|Hb].
  - rewrite last_snoc. cbn [fmap option_fmap option_map default from_option]. split.
    + unfold id. destruct (isTerminalEventType (row_EventType row)); [by split; auto|].
      split; [done|]. intros [?|[]%elem_of_nil]; done.
    + split; [by auto|]. intros _. by destruct (stream _ _).
  - assert (b ∉ [row_AggregateID row]) as Hnin by (by rewrite list_elem_of_singleton).
    split; [|tauto]. destruct (isTerminalEventType (row_EventType row)); [tauto|].
    pose proof (not_elem_of_nil b). tauto.
Qed.

Lemma insertFacts_effect f w u w' :
  insertFacts f w = (Ok u, w') → ¬ terminated (cc_CredentialID (f_Credential f)) (sink_rows w.2) →
  effect [cc_CredentialID (f_Credential f)]
    (if bool_decide (f_Kind f = KindRevoked) || bool_decide (f_Kind f = KindExpired)
     then [cc_CredentialID (f_Credential f)] else []) (sink_rows w.2) (sink_rows w'.2).
Proof.
  intros (row & w1 & Hrow & Hins)%bind_Ok_inv Hn. injection Hrow as Hrow <-.
  apply insert_spec in Hins as [-> _].
  apply BuildRow_Ok in Hrow as (Ha & _ & _ & Hk). rewrite <-Ha in *.
  destruct (effect_row (sink_rows w.2) row) as [He|?]; [|done].
  destruct Hk as [(Ho%opening_not_terminal & _ & Hk1 & Hk2)|(Ht & _ & Htype)].
  - rewrite Ho in He. by rewrite !bool_decide_false.
  - rewrite Ht in He. assert (f_Kind f = KindRevoked ∨ f_Kind f = KindExpired) as Hk.
    { rewrite Htype in Ht. apply orb_true_iff in Ht. rewrite !bool_decide_eq_true in Ht.
      destruct Ht as [Ht|Ht]; [left|right]; by apply (inj (String.app eventTypePrefix)) in Ht. }
    apply terminal_kind in Hk. by rewrite Hk.
Qed.

Lemma EnsureIssued_effect c w u w' :
  EnsureIssued c w = (Ok u, w') → sink_ok w.2 →
  effect [cc_CredentialID c] [] (sink_rows w.2) (sink_rows w'.2).
Proof.
  intros (m & w1 & Hm & Hrun)%bind_Ok_inv Hok. pose proof (max_readonly _ _ _ _ Hm) as Hro.
  apply max_spec, (contiguous_max _ _ (Hok _)) in Hm. case_bool_decide as Hpos.
  - injection Hrun as _ <-. rewrite Hro. intros b. split; [set_solver|]. split; [auto|].
    intros [?| ->%list_elem_of_singleton]; [done|]. intros E. rewrite E in Hm. cbn in Hm. lia.
  - apply insertFacts_effect in Hrun; rewrite Hro in *; [done|].
    unfold terminated. rewrite (proj1 (length_zero_iff_nil _)); [done|]. cbn in *. lia.
Qed.

Lemma Append_effect f w u w' :
  Append f w = (Ok u, w') → sink_ok w.2 →
  effect [cc_CredentialID (f_Credential f)]
    (if bool_decide (f_Kind f = KindRevoked) || bool_decide (f_Kind f = KindExpired)
     then [cc_CredentialID (f_Credential f)] else []) (sink_rows w.2) (sink_rows w'.2).
Proof.
  intros Hrun Hok. pose proof (Append_ok _ _ _ _ Hrun Hok) as (_ & _ & Hterm).
  unfold Append in Hrun.
  destruct (bool_decide (f_Kind f = KindRevoked) || bool_decide (f_Kind f = KindExpired)) eqn:Ek.
  - apply bind_Ok_inv in Hrun as (v & w1 & He & Hrun).
    pose proof (EnsureIssued_ok _ _ _ _ He Hok) as (Hok1 & _ & _).
    apply EnsureIssued_effect in He; [|done].
    apply bind_Ok_inv in Hrun as (latest & w2 & Hl & Hrun).
    pose proof (latest_readonly _ _ _ _ Hl) as Hro.
    apply latest_spec, (contiguous_latest _ _ (Hok1 _)) in Hl.
    destruct (isTerminalEventType latest) eqn:Et.
    + injection Hrun as _ <-. rewrite Hro. rewrite Hl in Et. fold (terminated (cc_CredentialID (f_Credential f)) (sink_rows w1.2)) in Et.
      intros b. destruct (He b) as [Ht Ho]. split; [|done]. rewrite Ht.
      split; [set_solver|]. intros [?| ->%list_elem_of_singleton]; [by left|].
      apply (proj1 (He _)) in Et. set_solver.
    + apply bind_Ok_inv in Hrun as (m & w3 & Hm & Hrun).
      pose proof (max_readonly _ _ _ _ Hm) as Hro2. rewrite Hro in Hro2.
      apply insertFacts_effect in Hrun; rewrite Hro2 in *; cbn [f_Credential f_Kind] in *.
      * rewrite Ek in Hrun. intros b. pose proof (effect_trans _ _ _ _ _ _ _ He Hrun b) as Hb.
        set_solver.
      * unfold terminated. rewrite <-Hl. by rewrite Et.
  - destruct (decide (terminated (cc_CredentialID (f_Credential f)) (sink_rows w.2))) as [Ht|Ht].
    + exfalso. apply bind_Ok_inv in Hrun as (row & w1 & Hrow & Hins). injection Hrow as Hrow <-.
      apply BuildRow_Ok in Hrow as (Ha & _ & _ & Hk).
      destruct Hk as [(_ & Hrev & _)|(Hterm' & _ & Htype)].
      * apply insert_spec in Hins as [_ Hfresh]. rewrite Ha in Hfresh.
        destruct (stream (cc_CredentialID (f_Credential f)) (sink_rows w.2)) as [|r0 l] eqn:E;
          [by unfold terminated in Ht; rewrite E in Ht|].
        apply (Hfresh r0); [set_solver|]. rewrite Hrev.
        apply (contiguous_revision _ (Hok (cc_CredentialID (f_Credential f))) 0). by rewrite E.
      * rewrite Htype in Hterm'. unfold isTerminalEventType in Hterm'.
        apply orb_false_iff in Ek as [E1%bool_decide_eq_false E2%bool_decide_eq_false].
        apply orb_true_iff in Hterm' as [E%bool_decide_eq_true|E%bool_decide_eq_true];
          by apply (inj (String.app eventTypePrefix)) in E.
    + apply insertFacts_effect in Hrun; [|done]. by rewrite Ek in Hrun.
Qed.
End append_laws.

(** ** The ledger keeps the promise *)

Module LedgerLaws.
Import Ledger.

Definition max_step (a : string) (max : Z) (row : Row) : Z :=
  if bool_decide (row_AggregateID row = a) && bool_decide (row_Revision row > max)
  then row_Revision row else max.

Lemma max_fold a rs m0 :
  let m := fold_left (max_step a) rs m0 in
  m0 ≤ m ∧ (∀ r, r ∈ stream a rs → row_Revision r ≤ m) ∧
  (m = m0 ∨ ∃ r, r ∈ stream a rs ∧ row_Revision r = m).
Proof.
  revert m0. induction rs as [|r rs IH]; intros m0; cbn [fold_left].
  { unfold stream. rewrite filter_nil. set_solver by lia. }
  destruct (IH (max_step a m0 r)) as (Hle & Hub & Hat). unfold stream in *. rewrite filter_cons.
  remember (max_step a m0 r) as m1 eqn:E1. unfold max_step in E1.
  destruct (decide (row_AggregateID r = a)) as [Ha|Ha].
  - rewrite bool_decide_true in E1 by done. cbn in E1.
    revert E1. case_bool_decide as Hr; intros ->;
      (split; [lia|]; split; [intros x [->|?]%elem_of_cons; [lia|auto]|]).
    + right. destruct Hat as [E|(x & ? & ?)]; [exists r|exists x]; set_solver.
    + destruct Hat as [?|(x & ? & ?)]; [by left|right; exists x; set_solver].
  - rewrite bool_decide_false in E1 by done. cbn in E1. subst m1. auto.
Qed.

Definition latest_step (a : string) (acc : string * Z) (row : Row) : string * Z :=
  if bool_decide (row_AggregateID row = a) && bool_decide (row_Revision row > acc.2)
  then (row_EventType row, row_Revision row) else acc.

Lemma latest_fold a rs acc0 :
  let acc := fold_left (latest_step a) rs acc0 in
  acc0.2 ≤ acc.2 ∧ (∀ r, r ∈ stream a rs → row_Revision r ≤ acc.2) ∧
  (acc = acc0 ∨ ∃ r, r ∈ stream a rs ∧ row_Revision r = acc.2 ∧ row_EventType r = acc.1 ∧
     acc0.2 < acc.2).
Proof.
  revert acc0. induction rs as [|r rs IH]; intros acc0; cbn [fold_left].
  { unfold stream. rewrite filter_nil. set_solver by lia. }
  destruct (IH (latest_step a acc0 r)) as (Hle & Hub & Hat). unfold stream in *. rewrite filter_cons.
  remember (latest_step a acc0 r) as acc1 eqn:E1. unfold latest_step in E1.
  destruct (decide (row_AggregateID r = a)) as [Ha|Ha].
  - rewrite bool_decide_true in E1 by done. cbn in E1.
    revert E1. case_bool_decide as Hr; intros ->; cbn in Hle, Hat;
      (split; [lia|]; split; [intros x [->|?]%elem_of_cons; [lia|auto]|]).
    + right. destruct Hat as [E|(x & ? & ? & ? & ?)]; [exists r|exists x].
      * rewrite E. cbn. split; [set_solver|]. repeat split; lia.
      * split; [set_solver|]. repeat split; [done..|lia].
    + destruct Hat as [?|(x & ? & ? & ? & ?)]; [by left|right; exists x].
      split; [set_solver|]. by repeat split.
  - rewrite bool_decide_false in E1 by done. cbn in E1. subst acc1. auto.
Qed.

#[global] Program Instance ledger_laws : SinkLaws Ledger := { sink_rows := rows }.
Next Obligation. intros a. unfold sink_MaxRevision; cbn. unfold MaxRevision. go_struct. Qed.
Next Obligation.
  intros a [e l] m w'. cbn. unfold MaxRevision, bind, get, ret. cbn. intros [= <- _].
  destruct (max_fold a (rows l) 0) as (_ & ? & ?). by split.
Qed.
Next Obligation. intros a. unfold sink_LatestEventType; cbn. unfold LatestEventType. go_struct. Qed.
Next Obligation.
  intros a [e l] m w'. cbn. unfold LatestEventType, bind, get, ret. cbn. intros [= <- _].
  destruct (latest_fold a (rows l) ("", 0)) as (_ & Hub & [E|(r & ? & Hr & ? & ?)]).
  - left. split; [|by change ((fold_left (latest_step a) (rows l) ("", 0)).1 = ""); rewrite E].
    intros r Hr. apply Hub in Hr. by rewrite E in Hr.
  - right. exists r. rewrite Hr. auto.
Qed.
Next Obligation.
  intros row [e l] u w'. cbn. unfold Insert, bind, get. cbn.
  case_match eqn:E; [done|]. intros [= _ <-]. cbn. split; [done|].
  intros r [Ha Hr]%list_elem_of_filter Hrev. apply not_true_iff_false in E. apply E.
  apply existsb_exists. exists r. rewrite <-list_elem_of_In. split; [done|].
  by rewrite !bool_decide_true.
Qed.
Next Obligation.
  intros row [e l] w' r. cbn. unfold Insert, bind, get. cbn.
  case_match; [by intros [= <- <-]|]. intros [= <- <-] Hno. by destruct (Hno ()).
Qed.

Section safety.
Context `{UUIDLib}.

Lemma insertFacts_safe f : safe (S := Ledger) (insertFacts f).
Proof.
  apply safe_bind; [apply safe_lift, BuildRow_safe|]. intros row.
  cbn. unfold Insert. apply safe_bind; [apply safe_get|]. intros l. by case_match.
Qed.

Lemma Append_errs f : errs_in (S := Ledger) outbox_error (Append f).
Proof.
  assert (∀ f, errs_in (S := Ledger) outbox_error (insertFacts f)) as Hi.
  { intros f'. apply errs_bind; [apply errs_lift; apply BuildRow_errs|]. intros row. cbn.
    unfold Insert. apply errs_bind; [apply errs_get|]. intros l. case_match; [|done].
    apply errs_fail. by right. }
  assert (∀ a, errs_in (S := Ledger) outbox_error (sink_MaxRevision a)) as Hm
    by (intros a; by apply errs_bind).
  unfold Append, EnsureIssued. case_match; [|apply Hi].
  apply errs_bind; [apply errs_bind; [apply Hm|intros m; case_match; [done|apply Hi]]|intros _].
  apply errs_bind; [by apply errs_bind|intros latest]. case_match; [done|].
  apply errs_bind; [apply Hm|intros m; apply Hi].
Qed.

Lemma EnsureIssued_errs c : errs_in (S := Ledger) outbox_error (EnsureIssued c).
Proof.
  unfold EnsureIssued. apply errs_bind; [by apply errs_bind|]. intros m. case_match; [done|].
  apply errs_bind; [apply errs_lift; apply BuildRow_errs|]. intros row. cbn.
  unfold Insert. apply errs_bind; [apply errs_get|]. intros l. case_match; [|done].
  apply errs_fail. by right.
Qed.

Lemma MaxRevision_safe a : safe (S := Ledger) (sink_MaxRevision a).
Proof. cbn. by apply safe_bind. Qed.

Lemma EnsureIssued_safe c : safe (S := Ledger) (EnsureIssued c).
Proof.
  apply safe_bind; [apply MaxRevision_safe|]. intros m. case_match; [done|apply insertFacts_safe].
Qed.

Lemma Append_safe f : safe (S := Ledger) (Append f).
Proof.
  unfold Append. case_match; [|apply insertFacts_safe].
  apply safe_bind; [apply EnsureIssued_safe|intros _].
  apply safe_bind; [by apply safe_bind|intros latest]. case_match; [done|].
  apply safe_bind; [apply MaxRevision_safe|intros m]. apply insertFacts_safe.
Qed.
End safety.
End LedgerLaws.

(** ** Theorems *)

(** Whatever is appended and whether or not it succeeds, through any sink
    that keeps its laws the rows of every credential stay in order: revision 1
    opens the stream, the only other row is one terminal event at revision 2,
    and rows already written are never changed or dropped. *)
Theorem append_keeps_stream `{UUIDLib} {S : Type} `{SinkLaws S} f (w : env * S) r w' :
  Append f w = (r, w') → stream_ok (sink_rows w.2) →
  stream_ok (sink_rows w'.2) ∧ sink_rows w.2 `prefix_of` sink_rows w'.2.
Proof. intros Hrun Hok. by apply Append_ok in Hrun as (? & ? & _). Qed.

(** A revoked or expired event that is appended successfully leaves the
    credential's stream closed by a terminal event, and on a stream that is
    already closed it writes nothing: exactly one terminal row per credential,
    whichever path arrives second. *)
Theorem append_terminal_once `{UUIDLib} {S : Type} `{SinkLaws S} f (w : env * S) u w' :
  f_Kind f = KindRevoked ∨ f_Kind f = KindExpired →
  Append f w = (Ok u, w') → stream_ok (sink_rows w.2) →
  terminated (cc_CredentialID (f_Credential f)) (sink_rows w'.2) ∧
  (terminated (cc_CredentialID (f_Credential f)) (sink_rows w.2) →
   sink_rows w'.2 = sink_rows w.2).
Proof. intros Hk Hrun Hok. apply Append_ok in Hrun as (_ & _ & Ht); [by eapply Ht|done]. Qed.

Lemma wire_hex_ref v : re_match wireRefPattern (encodedRefPrefix +:+ sha256_hex v) = true.
Proof.
  pose proof (sha256_hex_shape v) as [Hlen Hc]%match_class_spec.
  unfold wireRefPattern. rewrite re_match_class, match_class_spec, slen_app, all_chars_app, andb_true_iff.
  split; [|split; [done|]].
  - change (slen encodedRefPrefix) with 7. lia.
  - eapply all_chars_impl; [|exact Hc]. apply class_forall. by vm_compute.
Qed.

(** The wire form of an owner or actor string always fits the opaque-id
    pattern of the contract (1 to 128 of the 64 characters); a string that fits
    already is left as it is, any other is replaced by its digest, and only the
    empty string is refused. *)
Theorem WireRef_shape v :
  match WireRef v with
  | Ok r => re_match wireRefPattern r = true ∧ v ≠ "" ∧
            (re_match wireRefPattern v = true → r = v) ∧
            (re_match wireRefPattern v = false → r = encodedRefPrefix +:+ sha256_hex v)
  | Err e => v = "" ∧ e = ErrInvalidEvent "empty reference"
  | Panic => False
  end.
Proof.
  unfold WireRef, invalidEvent. case_bool_decide as Hv; [done|].
  destruct (re_match wireRefPattern v) eqn:E; [done|].
  split; [apply wire_hex_ref|done].
Qed.

(** The event does not depend on the token prefix of the credential. *)
Definition with_token_prefix (p : string) (c : ClientCredential) : ClientCredential :=
  Credential (cc_SchemaVersion c) (cc_CredentialID c) (cc_Name c) p (cc_OrgID c)
    (cc_RepositoryScopes c) (cc_Scopes c) (cc_CreatedAt c) (cc_ExpiresAt c) (cc_RevokedAt c)
    (cc_LastUsedAt c) (cc_WorkloadBindingID c) (cc_Resource c) (cc_Provenance c).

(** No part of the token reaches the outbox: rows (payload bytes included,
    and the refusals) are the same for any two credentials that differ in the
    token prefix only. *)
Theorem BuildRow_ignores_token `{UUIDLib} f p :
  BuildRow (MkFacts (f_Kind f) (with_token_prefix p (f_Credential f)) (f_Revision f)
              (f_ParentID f) (f_At f) (f_Actor f)) = BuildRow f.
Proof. by destruct f as [k [] rv par at_ ac]. Qed.

(** ** A concrete stream *)

Definition no_uuid : UUIDLib := {| uuid_Parse := λ _, None |}.

Definition sample_credential : ClientCredential :=
  Credential ClientCredentialSchema "cred-1" "Laptop" "fcacr_abcdef" "org-1" ["acme/web"]
    ["context:read"] 1000 (Some 9000) None None None ""
    (Provenance ClientClassOrgBearer "" "" "" "" None).

Definition sample_revoke : Facts :=
  MkFacts KindRevoked sample_credential 0 "" 5000 (MkActor ActorUser "admin@example.com").

Definition quiet : env := Env [] [].

Definition sample_ledger : Ledger.Ledger :=
  (@Append no_uuid _ Ledger.ledger_sink sample_revoke (quiet, Ledger.NewLedger)).2.2.

Lemma append_keeps_stream_witness :
  row_Revision <$> Ledger.rows sample_ledger = [1; 2] ∧ stream_ok (Ledger.rows sample_ledger).
Proof.
  split; [vm_compute; reflexivity|].
  refine (proj1 (@append_keeps_stream no_uuid Ledger.Ledger _ _ sample_revoke
    (quiet, Ledger.NewLedger) (Ok ()) (quiet, sample_ledger) _ _)); [vm_compute; reflexivity|].
  intros a. apply contiguous_nil.
Defined.

Lemma append_terminal_once_witness :
  terminated "cred-1" (Ledger.rows sample_ledger).
Proof.
  refine (proj1 (@append_terminal_once no_uuid Ledger.Ledger _ _ sample_revoke
    (quiet, Ledger.NewLedger) () (quiet, sample_ledger) _ _ _)).
  - by left.
  - vm_compute; reflexivity.
  - intros a. apply contiguous_nil.
Defined.
