(* ===== verification/AuditStore.v ===== *)
(** * AuditStore: the in-memory audit trail and lifecycle listing

    internal/storage/memory/audit.go and credentials_lifecycle_list.go.  The
    store keeps the audit events and the lifecycle outbox.  An event's metadata
    is an arbitrary Go value, so recording it deep-copies it: the copy is
    modelled on a heap of cells, with the traversal stack the code keeps against
    cyclic values, and is shown to terminate on every heap and to return exactly
    the finite tree the value denotes. *)

From Stdlib Require Import ZArith Lia Ascii.
From stdpp Require Import sorting pretty numbers gmap strings list_numbers list.
From S2P Require Import Prelude GoStrings CredTypes Outbox.

Open Scope Z_scope.

(** ** Metadata values

    A value is a scalar, a [time.Time], a nil of a nillable kind, a value of a
    kind the copy refuses (struct, array, function, ...), or a reference to a
    heap cell, which is named by the pair of its type and its address, the
    [visit] key of the code.  Interfaces are transparent: the copy of an
    interface is the copy of what it holds. *)

Inductive scalar :=
  | SBool (b : bool)
  | SString (s : string)
  | SInt (z : Z)
  | SUint (z : Z)
  | SFloat (bits : Z).

Record visit := Visit { visit_typ : string; visit_ptr : Z }.

Inductive mval :=
  | MScalar (s : scalar)
  | MTime (t : time)
  | MNil
  | MOther (typ : string)
  | MRef (v : visit).

Inductive cell :=
  | CPointer (v : mval)
  | CSlice (l : list mval)
  | CMap (string_key : bool) (l : list (string * mval)).

#[global] Instance visit_eq_dec : EqDecision visit.
Proof. solve_decision. Defined.
#[global] Instance visit_countable : Countable visit.
Proof.
  apply (inj_countable' (λ v, (visit_typ v, visit_ptr v)) (λ p, Visit p.1 p.2)). by intros [].
Defined.

Definition heap : Type := gmap visit cell.

(** The copy: a value with no shared or cyclic part. *)
Inductive mtree :=
  | TScalar (s : scalar)
  | TTime (t : time)
  | TNil
  | TPointer (t : mtree)
  | TSlice (l : list mtree)
  | TMap (l : list (string * mtree)).

Definition Metadata : Type := option (list (string * mtree)).

(** [mapM] over a list of results, stopping at the first error; [None] is a
    run out of fuel. *)
Fixpoint clone_list {A B} (f : A → option (res B)) (l : list A) : option (res (list B)) :=
  match l with
  | [] => Some (Ok [])
  | a :: l' =>
    match f a with
    | Some (Ok b) =>
      match clone_list f l' with
      | Some (Ok bs) => Some (Ok (b :: bs))
      | r => r
      end
    | Some (Err e) => Some (Err e)
    | Some Panic => Some Panic
    | None => None
    end
  end.

Definition res_map {A B} (g : A → B) (r : option (res A)) : option (res B) :=
  match r with
  | Some (Ok a) => Some (Ok (g a))
  | Some (Err e) => Some (Err e)
  | Some Panic => Some Panic
  | None => None
  end.

(** [cloneMetadataValue]; [stack] holds the cells entered and not yet left.  A
    reference outside the heap is a dangling pointer, which Go has not. *)
Fixpoint cloneMetadataValue (fuel : nat) (h : heap) (stack : gset visit) (value : mval)
    : option (res mtree) :=
  match fuel with
  | O => None
  | S fuel' =>
    match value with
    | MScalar s => Some (Ok (TScalar s))
    | MTime t => Some (Ok (TTime t))
    | MNil => Some (Ok TNil)
    | MOther typ => Some (Err (ErrInvalidAuditMetadata ("unsupported " +:+ typ)))
    | MRef key =>
      match h !! key with
      | None => Some Panic
      | Some (CMap false _) => Some (Err (ErrInvalidAuditMetadata "map key must be string"))
      | Some c =>
        if bool_decide (key ∈ stack) then Some (Err (ErrInvalidAuditMetadata "cyclic value"))
        else
          let clone := cloneMetadataValue fuel' h ({[key]} ∪ stack) in
          match c with
          | CPointer v => res_map TPointer (clone v)
          | CSlice l => res_map TSlice (clone_list clone l)
          | CMap _ l =>
            res_map TMap (clone_list (λ kv, res_map (pair kv.1) (clone kv.2)) l)
          end
      end
    end
  end.

(** The cells of the heap bound how deep the traversal can go. *)
Definition clone_fuel (h : heap) : nat := S (size h).

Definition cloneMetadata (h : heap) (value : option mval) : option (res Metadata) :=
  match value with
  | None => Some (Ok None)
  | Some v =>
    res_map (λ t, match t with TMap l => Some l | _ => None end)
      (cloneMetadataValue (clone_fuel h) h ∅ v)
  end.

(** [map[string]any{key: value, ...}] of scalars, on the heap of its caller. *)
Definition literal_ref : visit := Visit "map[string]interface {}" 1.
Definition literal (entries : list (string * scalar)) : heap :=
  {[literal_ref := CMap true (prod_map id MScalar <$> entries)]}.

(** ** The store *)

Record AuditEvent := Event {
  ae_OrgID : string;
  ae_RepoID : string;
  ae_ActorType : string;
  ae_ActorID : string;
  ae_Action : string;
  ae_ResourceType : string;
  ae_ResourceID : string;
  ae_Status : string;
  ae_RequestID : string;
  ae_Metadata : Metadata;
  ae_CreatedAt : time;
}.

Definition ae_set_Metadata (m : Metadata) (e : AuditEvent) : AuditEvent :=
  Event (ae_OrgID e) (ae_RepoID e) (ae_ActorType e) (ae_ActorID e) (ae_Action e) (ae_ResourceType e)
    (ae_ResourceID e) (ae_Status e) (ae_RequestID e) m (ae_CreatedAt e).
Definition ae_set_ActorType (t : string) (e : AuditEvent) : AuditEvent :=
  Event (ae_OrgID e) (ae_RepoID e) t (ae_ActorID e) (ae_Action e) (ae_ResourceType e)
    (ae_ResourceID e) (ae_Status e) (ae_RequestID e) (ae_Metadata e) (ae_CreatedAt e).

Definition AuditActionCredentialCreated : string := "credential_created".
Definition AuditActionCredentialRotated : string := "credential_rotated".
Definition AuditActionCredentialRevoked : string := "credential_revoked".

Definition IsCredentialLifecycleAuditAction (action : string) : bool :=
  bool_decide (action ∈ [AuditActionCredentialCreated; AuditActionCredentialRotated;
                         AuditActionCredentialRevoked]).

(** [as_bound] is whether a credential store has taken the audit store as its
    trail ([lifecycle != nil]). *)
Record AuditStore := MkAuditStore {
  as_events : list AuditEvent;
  as_ledger : Ledger.Ledger;
  as_bound : bool;
}.

Definition NewAuditStore : AuditStore := MkAuditStore [] Ledger.NewLedger false.

Definition as_set_events (l : list AuditEvent) (s : AuditStore) : AuditStore :=
  MkAuditStore l (as_ledger s) (as_bound s).
Definition as_set_ledger (l : Ledger.Ledger) (s : AuditStore) : AuditStore :=
  MkAuditStore (as_events s) l (as_bound s).

Definition bindLifecycle : go AuditStore () :=
  let! s := get in
  refuse! as_bound s with ErrConflict ;;
  put (MkAuditStore (as_events s) (as_ledger s) true).

(** [recordLocked] on an event whose metadata has been copied: the outcome of
    the copy is its argument. *)
Definition recordLocked (event : AuditEvent) (metadata : res Metadata) : go AuditStore () :=
  let! m := lift_res metadata in
  modify (λ s, as_set_events (as_events s ++ [ae_set_Metadata m event]) s).

(** [Record]: the caller's metadata lives on the caller's heap. *)
Definition Record_ (h : heap) (event : AuditEvent) (metadata : option mval) : go AuditStore () :=
  ctx_check ;;
  refuse! IsCredentialLifecycleAuditAction (ae_Action event) with ErrInvalidInput "" ;;
  let! s := get in
  (if as_bound s then ctx_check else ret ()) ;;
  ctx_check ;;
  recordLocked event (default Panic (cloneMetadata h metadata)).

Definition Events : go AuditStore (list AuditEvent) := let! s := get in ret (as_events s).

Definition eventCount : go AuditStore Z :=
  let! s := get in ret (Z.of_nat (length (as_events s))).

Definition truncateEvents (n : Z) : go AuditStore () :=
  modify (λ s, if bool_decide (0 <= n) && bool_decide (n < Z.of_nat (length (as_events s)))
               then as_set_events (take (Z.to_nat n) (as_events s)) s else s).

Definition LifecycleOutbox : go AuditStore (list Row) := let! s := get in ret (Ledger.rows (as_ledger s)).

(** ** The lifecycle listing *)

Record CredentialLifecycleItem := Item {
  it_CredentialID : string;
  it_Revision : Z;
  it_Status : string;
}.

(** The latest row of every credential of the organization after the cursor. *)
Definition latestRows (orgID after : string) (rows : list Row) : gmap string Row :=
  fold_left (λ latest row,
    if negb (bool_decide (row_OrgID row = orgID)) || negb (bool_decide (strict String.le after (row_AggregateID row)))
    then latest
    else
      match latest !! row_AggregateID row with
      | Some current => if bool_decide (row_Revision row > row_Revision current)
                        then <[row_AggregateID row := row]> latest else latest
      | None => <[row_AggregateID row := row]> latest
      end) rows ∅.

Fixpoint listItems (latest : gmap string Row) (ids : list string)
    : res (list CredentialLifecycleItem) :=
  match ids with
  | [] => Ok []
  | id :: ids' =>
    match latest !! id with
    | None => Panic
    | Some row =>
      match StatusOfEventType (row_EventType row) with
      | None => Err (ErrText ("list credential lifecycle: unknown event type for " +:+ id))
      | Some status =>
        let? items := listItems latest ids' in
        Ok (Item id (row_Revision row) status :: items)
      end
    end
  end.

(** The ids are sorted, so the order the map yields them in does not matter. *)
Definition ListCredentialLifecycle (orgID after : string) (limit : Z)
    : go AuditStore (list CredentialLifecycleItem) :=
  let! s := get in
  let latest := latestRows orgID after (Ledger.rows (as_ledger s)) in
  let ids := sort_Strings (map_to_list latest).*1 in
  if bool_decide (limit < Z.of_nat (length ids)) then
    if bool_decide (limit < 0) then panic
    else lift_res (listItems latest (take (Z.to_nat limit) ids))
  else lift_res (listItems latest ids).

(** ** The copy terminates and is right *)

Lemma clone_list_None {A B} (f : A → option (res B)) l :
  (∀ a, a ∈ l → f a ≠ None) → clone_list f l ≠ None.
Proof.
  induction l as [|a l IH]; intros Hf; cbn; [done|].
  pose proof (Hf a ltac:(set_solver)). destruct (f a) as [[]|]; try done.
  destruct (clone_list f l) as [[]|]; try done. exfalso. apply IH; [|done]. set_solver.
Qed.

Lemma clone_list_mono {A B} (f g : A → option (res B)) l r :
  (∀ a r, a ∈ l → f a = Some r → g a = Some r) → clone_list f l = Some r → clone_list g l = Some r.
Proof.
  revert r. induction l as [|a l IH]; intros r Hf; cbn; [done|].
  destruct (f a) as [x|] eqn:E; [|done]. rewrite (Hf a x) by set_solver. destruct x; [|done..].
  destruct (clone_list f l) as [y|] eqn:El; [|done].
  rewrite (IH y); [done|set_solver|done].
Qed.

Lemma clone_list_Ok {A B} (f : A → option (res B)) l bs :
  clone_list f l = Some (Ok bs) ↔ Forall2 (λ a b, f a = Some (Ok b)) l bs.
Proof.
  revert bs. induction l as [|a l IH]; intros bs; cbn.
  - split; [by intros [= <-]|]. by intros ->%Forall2_nil_inv_l.
  - split.
    + destruct (f a) as [[b|e|]|] eqn:E; try done. destruct (clone_list f l) as [[bs'|e|]|]; try done.
      intros [= <-]. constructor; [done|]. by apply IH.
    + intros (b & bs' & Hab & Hl & ->)%Forall2_cons_inv_l. rewrite Hab. by apply IH in Hl as ->.
Qed.

Lemma res_map_None {A B} (g : A → B) r : r ≠ None → res_map g r ≠ None.
Proof. by destruct r as [[]|]. Qed.

Lemma res_map_mono {A B} (g : A → B) r r' x :
  (∀ y, r = Some y → r' = Some y) → res_map g r = Some x → res_map g r' = Some x.
Proof. destruct r as [y|]; [|done]. intros H. by rewrite (H y eq_refl). Qed.

Lemma res_map_Ok {A B} (g : A → B) r b :
  res_map g r = Some (Ok b) ↔ ∃ a, r = Some (Ok a) ∧ b = g a.
Proof. destruct r as [[]|]; cbn; naive_solver. Qed.

Lemma stack_grows (h : heap) stack key c :
  h !! key = Some c → key ∉ stack →
  (size (dom h ∖ ({[key]} ∪ stack)) < size (dom h ∖ stack))%nat.
Proof.
  intros Hk Hs. apply subset_size. apply elem_of_dom_2 in Hk. set_solver.
Qed.

Lemma clone_total fuel h stack v :
  (size (dom h ∖ stack) < fuel)%nat → cloneMetadataValue fuel h stack v ≠ None.
Proof.
  revert stack v. induction fuel as [|fuel IH]; intros stack v Hf; [lia|].
  destruct v as [| | | |key]; cbn; try done.
  destruct (h !! key) as [c|] eqn:E; [|done].
  destruct (bool_decide (key ∈ stack)) eqn:Es; [by destruct c as [| |[]]|].
  apply bool_decide_eq_false in Es. pose proof (stack_grows _ _ _ _ E Es) as Hlt.
  assert (∀ v, cloneMetadataValue fuel h ({[key]} ∪ stack) v ≠ None) as Hrec by (intros; apply IH; lia).
  destruct c as [v|l|[] l]; [| | |done].
  - by apply res_map_None.
  - apply res_map_None, clone_list_None. auto.
  - apply res_map_None, clone_list_None. intros. by apply res_map_None.
Qed.

Lemma clone_mono fuel fuel' h stack v r :
  (fuel ≤ fuel')%nat → cloneMetadataValue fuel h stack v = Some r →
  cloneMetadataValue fuel' h stack v = Some r.
Proof.
  revert fuel' stack v r. induction fuel as [|fuel IH]; intros [|fuel'] stack v r Hf; [done..|lia|].
  destruct v as [| | | |key]; cbn; try done.
  destruct (h !! key) as [c|]; [|done].
  destruct (bool_decide (key ∈ stack)); [done|].
  assert (∀ v r, cloneMetadataValue fuel h ({[key]} ∪ stack) v = Some r →
    cloneMetadataValue fuel' h ({[key]} ∪ stack) v = Some r) as Hrec
    by (intros; apply IH; [lia|done]).
  destruct c as [v|l|[] l]; [| | |done]; apply res_map_mono; auto.
  - intros y. apply clone_list_mono. auto.
  - intros y. apply clone_list_mono. intros a x _. apply res_map_mono. auto.
Qed.

(** What a value denotes: the tree reached by following references, if there is
    one of height below [n]. *)
Fixpoint denote (n : nat) (h : heap) (v : mval) : option mtree :=
  match n with
  | O => None
  | S n' =>
    match v with
    | MScalar s => Some (TScalar s)
    | MTime t => Some (TTime t)
    | MNil => Some TNil
    | MOther _ => None
    | MRef key =>
      match h !! key with
      | Some (CPointer v') => TPointer <$> denote n' h v'
      | Some (CSlice l) => TSlice <$> mapM (denote n' h) l
      | Some (CMap true l) => TMap <$> mapM (λ kv, pair kv.1 <$> denote n' h kv.2) l
      | _ => None
      end
    end
  end.

Lemma mapM_mono {A B} (f g : A → option B) l bs :
  (∀ a b, f a = Some b → g a = Some b) → mapM f l = Some bs → mapM g l = Some bs.
Proof.
  intros Hf Hm. apply mapM_Some. apply mapM_Some in Hm. eapply Forall2_impl; [exact Hm|]. auto.
Qed.

Lemma denote_mono n n' h v t : (n ≤ n')%nat → denote n h v = Some t → denote n' h v = Some t.
Proof.
  revert n' v t. induction n as [|n IH]; intros [|n'] v t Hn; [done..|lia|].
  destruct v as [| | | |key]; cbn; try done.
  assert (∀ v t, denote n h v = Some t → denote n' h v = Some t) as Hrec
    by (intros; apply IH; [lia|done]).
  destruct (h !! key) as [[v|l|[] l]|]; try done; intros (x & Hx & ->)%fmap_Some; apply fmap_Some;
    exists x; (split; [|done]); auto.
  - by eapply mapM_mono.
  - eapply mapM_mono; [|exact Hx]. intros a b (y & Hy & ->)%fmap_Some. apply fmap_Some. eauto.
Qed.

(** A value that denotes a tree is copied to that tree.  The cells on the stack
    denote nothing at the current height, so none of them is met again. *)
Lemma clone_denotes n h stack v t :
  denote n h v = Some t → (∀ k, k ∈ stack → denote n h (MRef k) = None) →
  cloneMetadataValue n h stack v = Some (Ok t).
Proof.
  revert stack v t. induction n as [|n IH]; intros stack v t; [done|].
  intros Ht Hst. destruct v as [| | | |key]; [cbn in *; by simplify_eq..|].
  destruct (denote n h (MRef key)) as [t'|] eqn:Elow.
  { assert (t' = t) as -> by (apply (denote_mono _ (S n)) in Elow; [congruence|lia]).
    apply (clone_mono n); [lia|]. apply IH; [done|]. intros k Hk.
    apply Hst in Hk. apply eq_None_not_Some. intros [x Hx].
    apply (denote_mono _ (S n)) in Hx; [congruence|lia]. }
  assert (key ∉ stack) as Hk by (intros Hin; apply Hst in Hin; congruence).
  assert (∀ v t, denote n h v = Some t →
    cloneMetadataValue n h ({[key]} ∪ stack) v = Some (Ok t)) as Hrec.
  { intros v' t' Hv. apply IH; [done|]. intros k [->%elem_of_singleton|Hin]%elem_of_union; [done|].
    apply Hst in Hin. apply eq_None_not_Some. intros [x Hx].
    apply (denote_mono _ (S n)) in Hx; [congruence|lia]. }
  clear Elow Hst IH. cbn in *. rewrite bool_decide_false by done.
  destruct (h !! key) as [[v'|l|[] l]|]; try done; apply fmap_Some in Ht as (x & Hx & ->);
    apply res_map_Ok; exists x; (split; [|done]); auto; apply clone_list_Ok; apply mapM_Some in Hx;
    (eapply Forall2_impl; [exact Hx|]); auto.
  intros a b (y & Hy & ->)%fmap_Some. apply res_map_Ok. eauto.
Qed.

Lemma clone_denotes_inv n h stack v t :
  cloneMetadataValue n h stack v = Some (Ok t) → denote n h v = Some t.
Proof.
  revert stack v t. induction n as [|n IH]; intros stack v t; [done|].
  destruct v as [| | | |key]; [cbn; naive_solver..|]. cbn.
  destruct (h !! key) as [c|]; [|done].
  destruct (bool_decide (key ∈ stack)); [by destruct c as [| |[]]|].
  destruct c as [v|l|[] l]; [| | |done]; intros (x & Hx & ->)%res_map_Ok; apply fmap_Some; exists x;
    (split; [|done]); [by eapply IH| |]; apply clone_list_Ok in Hx; apply mapM_Some;
    (eapply Forall2_impl; [exact Hx|]).
  - intros a b. apply IH.
  - intros a b (y & Hy & ->)%res_map_Ok. apply fmap_Some. eauto.
Qed.

(** The deep copy of audit metadata always finishes, whatever is shared or
    cyclic in the caller's value, and it returns a tree exactly when the value
    denotes one, namely that tree: nothing of the caller's memory is shared
    with the stored event, and a cyclic or unsupported value is refused. *)
Theorem clone_correct h v :
  cloneMetadataValue (clone_fuel h) h ∅ v ≠ None ∧
  ∀ t, cloneMetadataValue (clone_fuel h) h ∅ v = Some (Ok t) ↔ ∃ n, denote n h v = Some t.
Proof.
  assert (cloneMetadataValue (clone_fuel h) h ∅ v ≠ None) as Htot.
  { apply clone_total. unfold clone_fuel. rewrite difference_empty_L. unfold heap in *. rewrite size_dom. lia. }
  split; [done|]. intros t. split.
  - intros Ht. exists (clone_fuel h). by eapply clone_denotes_inv.
  - intros [n Hn]. apply (clone_denotes _ _ ∅) in Hn; [|set_solver].
    destruct (cloneMetadataValue (clone_fuel h) h ∅ v) as [r|] eqn:E; [|done].
    destruct (Nat.le_ge_cases n (clone_fuel h)) as [Hle|Hle].
    + apply (clone_mono _ _ _ _ _ _ Hle) in Hn. congruence.
    + apply (clone_mono _ _ _ _ _ _ Hle) in E. congruence.
Qed.

(** A literal of scalars is copied as it is. *)
Lemma literal_copied entries :
  cloneMetadata (literal entries) (Some (MRef literal_ref)) = Some (Ok (Some (prod_map id TScalar <$> entries))).
Proof.
  unfold cloneMetadata. assert (clone_fuel (literal entries) = 2%nat) as -> by reflexivity.
  assert (literal entries !! literal_ref = Some (CMap true (prod_map id MScalar <$> entries))) as Hl by reflexivity.
  assert (∀ h stack l, clone_list (λ kv : string * mval, res_map (pair kv.1) (cloneMetadataValue 1 h stack kv.2))
    (prod_map id MScalar <$> l) = Some (Ok (prod_map id TScalar <$> l))) as Hc.
  { intros h stack l. induction l as [|[k x] l IH]; [done|]. cbn in IH |- *. by rewrite IH. }
  cbn [cloneMetadataValue] in Hc |- *. rewrite Hl, bool_decide_false by set_solver. by rewrite Hc.
Qed.
