(* ===== verification/CredentialStore.v ===== *)
(** * CredentialStore: the in-memory credential store

    internal/storage/memory/credentials.go, credentials_lifecycle.go and
    credential_values.go.  The state is the two maps of the store and the audit
    store it is bound to; each operation is the whole method, its context
    checks, its clock reading and its writes in the order of the code.  The
    mutex makes every operation one step, so a run is a sequence of operations.

    Cloning a record, a credential or a time is the identity on values: every
    method clones on the way in and on the way out, so no caller holds a
    reference into the store. *)

From Stdlib Require Import ZArith Lia Ascii.
From stdpp Require Import sorting pretty numbers gmap strings list_numbers list.
From S2P Require Import Prelude GoStrings GoText CredTypes Outbox AuditStore.

Open Scope Z_scope.

(** ** State *)

Record CredentialRecord := CredRecord {
  cr_Metadata : ClientCredential;
  cr_TokenHash : string;
  cr_CreatedBy : string;
  cr_RotatedAt : option time;
  cr_LastUsedIP : string;
  cr_LastUsedUserAgent : string;
  cr_IssuanceProvenance : IssuanceProvenance;
}.

Definition cr_set_Metadata (c : ClientCredential) (r : CredentialRecord) : CredentialRecord :=
  CredRecord c (cr_TokenHash r) (cr_CreatedBy r) (cr_RotatedAt r) (cr_LastUsedIP r)
    (cr_LastUsedUserAgent r) (cr_IssuanceProvenance r).

(** [record.Metadata.RevokedAt = ptrTime(now)] *)
Definition revoke_record (now : time) (r : CredentialRecord) : CredentialRecord :=
  cr_set_Metadata (cc_set_RevokedAt (Some now) (cr_Metadata r)) r.

Record credentialStore := Store {
  cs_audit : AuditStore;
  cs_byID : gmap string CredentialRecord;
  cs_byHash : gmap string string;
}.

Definition cs_set_audit (a : AuditStore) (s : credentialStore) : credentialStore :=
  Store a (cs_byID s) (cs_byHash s).
Definition cs_set_byID (m : gmap string CredentialRecord) (s : credentialStore) : credentialStore :=
  Store (cs_audit s) m (cs_byHash s).

(** ** Values *)

Definition nonEmptyPtr (value : string) : option string :=
  if bool_decide (value = "") then None else Some value.

Definition credentialFromCreate (input : CreateInput) (createdAt : time) : ClientCredential :=
  Credential ClientCredentialSchema (ci_CredentialID input) (ci_Name input) (ci_TokenPrefix input)
    (ci_OrgID input) (ci_RepositoryScopes input) (ci_Scopes input) createdAt (ci_ExpiresAt input)
    None None (nonEmptyPtr (ci_WorkloadBindingID input)) (ci_Resource input)
    (Provenance (ci_ClientClass input) (ci_ApprovingUserID input) (ci_ClientID input)
       (ci_SessionID input) (ci_FamilyID input) (ci_FamilyExpiresAt input)).

Definition credentialFromRotation (input : RotationReplacement) (orgID : string) (createdAt : time)
    (resource : string) (provenance : CredentialProvenance) : ClientCredential :=
  let credential := credentialFromCreate
    (Create (rr_CredentialID input) orgID (rr_Name input) (rr_TokenPrefix input) ""
       (rr_RepositoryScopes input) (rr_Scopes input) "" (rr_ExpiresAt input) "" "" resource "" ""
       "" "" "" None) createdAt in
  cc_set_issuance (cc_WorkloadBindingID credential) (cc_Resource credential) provenance credential.

Definition overlapExpiry (now : time) (overlap : duration) : option time :=
  if bool_decide (overlap <= 0) then None else Some (time_Add now overlap).

Definition text (s : string) : mtree := TScalar (SString s).
Definition texts (l : list string) : mtree := TSlice (text <$> l).
Definition when {A} (b : bool) (x : A) : list A := if b then [x] else [].

(** [t.UTC().Format(time.RFC3339)] *)
Definition format_RFC3339 (t : time) : string := format_wire (time_Truncate t Second) +:+ "Z".

Definition credentialCreatedEvent (record : CredentialRecord) : AuditEvent :=
  let credential := cr_Metadata record in
  let pv := cc_Provenance credential in
  let metadata :=
    [("name", text (cc_Name credential)); ("token_prefix", text (cc_TokenPrefix credential));
     ("repository_scopes", texts (cc_RepositoryScopes credential));
     ("scopes", texts (cc_Scopes credential));
     ("expires_at", match cc_ExpiresAt credential with
                    | Some t => TPointer (TTime t)
                    | None => TNil
                    end)]
    ++ when (negb (bool_decide (cr_IssuanceProvenance record = "")))
         ("issuance_provenance", text (cr_IssuanceProvenance record))
    ++ match cc_WorkloadBindingID credential with
       | Some b => [("workload_binding_id", text b)]
       | None => []
       end
    ++ when (negb (bool_decide (cc_Resource credential = "")))
         ("resource", text (cc_Resource credential))
    ++ when (negb (bool_decide (pv_ClientClass pv = ""))) ("client_class", text (pv_ClientClass pv))
    ++ when (negb (bool_decide (pv_ApprovingUserID pv = "")))
         ("approving_user_id", text (pv_ApprovingUserID pv))
    ++ when (negb (bool_decide (pv_ClientID pv = ""))) ("client_id", text (pv_ClientID pv))
    ++ match pv_FamilyExpiresAt pv with
       | Some t =>
         if bool_decide (pv_FamilyID pv = "") then []
         else [("family_id", text (pv_FamilyID pv)); ("family_expires_at", text (format_RFC3339 t))]
       | None => []
       end in
  Event (cc_OrgID credential) "" "user" (cr_CreatedBy record) AuditActionCredentialCreated
    "acr_credential" (cc_CredentialID credential) "success" "" (Some metadata)
    (cc_CreatedAt credential).

Definition credentialRotatedEvent (source replacement : ClientCredential) (actorID : string)
    (overlap : duration) (occurredAt : time) : AuditEvent :=
  Event (cc_OrgID source) "" "user" actorID AuditActionCredentialRotated "acr_credential"
    (cc_CredentialID source) "success" ""
    (Some [("replacement_credential_id", text (cc_CredentialID replacement));
           ("overlap_seconds", TScalar (SInt (Z.quot overlap Second)))]) occurredAt.

Definition credentialRevokedEvent (credential : ClientCredential) (actorID : string)
    (occurredAt : time) : AuditEvent :=
  Event (cc_OrgID credential) "" "user" actorID AuditActionCredentialRevoked "acr_credential"
    (cc_CredentialID credential) "success" "" None occurredAt.

Definition withRevocationDetails (event : AuditEvent) (input : RevocationInput) : AuditEvent :=
  let event := if negb (bool_decide (vi_ActorType input = ""))
               then ae_set_ActorType (vi_ActorType input) event else event in
  if negb (bool_decide (vi_Reason input = ""))
  then ae_set_Metadata (Some [("reason", text (vi_Reason input))]) event else event.

Definition browserFamilyOf (credential : ClientCredential) : option string :=
  if negb (bool_decide (pv_ClientClass (cc_Provenance credential) = ClientClassBrowser))
     || bool_decide (pv_FamilyID (cc_Provenance credential) = "")
  then None else Some (pv_FamilyID (cc_Provenance credential)).

(** ** Recording a mutation *)

Section store.
Context `{UUIDLib}.

Definition on_audit {A} : go AuditStore A → go credentialStore A := zoom cs_audit cs_set_audit.
Definition on_ledger {A} (m : go Ledger.Ledger A) : go credentialStore A :=
  on_audit (zoom as_ledger as_set_ledger m).

(** [s.ready(ctx)]: the store is built, so what is left is the context. *)
Definition ready : go credentialStore () := ctx_check.

Definition appendLifecycle (parent : option ClientCredential) (steps : list Facts)
    : go credentialStore () :=
  let! mark := on_ledger Ledger.Len in
  match parent with
  | Some p => on_error (on_ledger (EnsureIssued p)) (on_ledger (Ledger.TruncateTo mark))
  | None => ret ()
  end ;;
  iter steps (λ step, on_error (on_ledger (Append step)) (on_ledger (Ledger.TruncateTo mark))).

(** The metadata of a lifecycle event is a literal built on the spot, a finite
    tree, so its copy is itself. *)
Definition recordAudit (event : AuditEvent) : go credentialStore () :=
  ctx_check ;;
  ctx_check ;;
  on_audit (recordLocked event (Ok (ae_Metadata event))).

Definition recordMutation (event : AuditEvent) (parent : option ClientCredential)
    (steps : list Facts) : go credentialStore () :=
  let! mark := on_ledger Ledger.Len in
  appendLifecycle parent steps ;;
  on_error (recordAudit event) (on_ledger (Ledger.TruncateTo mark)).

(** ** Operations *)

Definition expired_at (now : time) (expiresAt : option time) : bool :=
  match expiresAt with Some t => negb (time_After t now) | None => false end.

Definition createCredential (input : CreateInput) : go credentialStore ClientCredential :=
  ready ;;
  ctx_check ;;
  let! s := get in
  refuse! bool_decide (is_Some (cs_byID s !! ci_CredentialID input)) with ErrConflict ;;
  refuse! bool_decide (is_Some (cs_byHash s !! ci_TokenHash input)) with ErrConflict ;;
  let! now := now in
  refuse! expired_at now (ci_ExpiresAt input) with ErrInvalidInput "" ;;
  let credential := credentialFromCreate input now in
  let record := CredRecord credential (ci_TokenHash input) (ci_ActorID input) None "" ""
                  (ci_IssuanceProvenance input) in
  recordMutation (credentialCreatedEvent record) None
    [MkFacts (CreateKind input) credential 0 "" now (CreateActor input)] ;;
  modify (λ s, Store (cs_audit s) (<[ci_CredentialID input := record]> (cs_byID s))
                 (<[ci_TokenHash input := ci_CredentialID input]> (cs_byHash s))) ;;
  ret credential.

Fixpoint meta_lookup (key : string) (l : list (string * mtree)) : option mtree :=
  match l with
  | [] => None
  | (k, v) :: l' => if bool_decide (k = key) then Some v else meta_lookup key l'
  end.

Definition rotation_names (sourceID successorID : string) (event : AuditEvent) : bool :=
  bool_decide (ae_Action event = AuditActionCredentialRotated)
  && bool_decide (ae_ResourceID event = sourceID)
  && match ae_Metadata event with
     | Some m => match meta_lookup "replacement_credential_id" m with
                 | Some (TScalar (SString replacement)) => bool_decide (replacement = successorID)
                 | _ => false
                 end
     | None => false
     end.

Definition rotationRelates (sourceID successorID : string) : go credentialStore bool :=
  let! s := get in
  ret (existsb (rotation_names sourceID successorID) (as_events (cs_audit s))).

(** The guard of a rollback on the two records. *)
Definition rollback_refused (now : time) (orgID : string) (source successor : CredentialRecord)
    (related : bool) : bool :=
  let a := cr_Metadata source in
  let b := cr_Metadata successor in
  negb (bool_decide (cc_OrgID a = orgID)) || negb (bool_decide (cc_OrgID b = orgID))
  || bool_decide (is_Some (cc_RevokedAt a)) || bool_decide (is_Some (cc_RevokedAt b))
  || bool_decide (is_Some (cr_RotatedAt successor))
  || match cc_ExpiresAt a with Some t => negb (time_After t now) | None => true end
  || negb (bool_decide (cc_RepositoryScopes a = cc_RepositoryScopes b))
  || negb (bool_decide (cc_Scopes a = cc_Scopes b)) || negb related.

Definition rollbackCredentialRotation (input : RotationRollbackInput)
    : go credentialStore ClientCredential :=
  ready ;;
  ctx_check ;;
  let! now := now in
  refuse! negb (time_After (bi_RollbackUntil input) now) with ErrConflict ;;
  let! s := get in
  match cs_byID s !! bi_SourceCredentialID input, cs_byID s !! bi_SuccessorCredentialID input with
  | Some source, Some successor =>
    let! related := rotationRelates (cc_CredentialID (cr_Metadata source))
                      (cc_CredentialID (cr_Metadata successor)) in
    refuse! rollback_refused now (bi_OrgID input) source successor related with ErrConflict ;;
    recordMutation (credentialRevokedEvent (cr_Metadata successor) (bi_ActorID input) now) None
      [MkFacts KindRevoked (cr_Metadata successor) 0 "" now (RollbackActor input)] ;;
    let revoked := revoke_record now successor in
    modify (λ s, cs_set_byID (<[cc_CredentialID (cr_Metadata successor) := revoked]> (cs_byID s)) s) ;;
    ret (cr_Metadata revoked)
  | _, _ => fail ErrConflict
  end.

(** The source record of a rotation once it is replaced: revoked at once, or
    left to expire at the end of the overlap, never later than it would have. *)
Definition retire_source (now : time) (previousValidUntil : option time) (old : CredentialRecord)
    : CredentialRecord :=
  let c := cr_Metadata old in
  let c' :=
    match previousValidUntil with
    | None => cc_set_RevokedAt (Some now) c
    | Some t =>
      if negb (time_After t now) then cc_set_RevokedAt (Some now) c
      else
        match cc_ExpiresAt c with
        | None => cc_set_ExpiresAt (Some t) c
        | Some e => if time_Before t e then cc_set_ExpiresAt (Some t) c else c
        end
    end in
  CredRecord c' (cr_TokenHash old) (cr_CreatedBy old) (Some now) (cr_LastUsedIP old)
    (cr_LastUsedUserAgent old) (cr_IssuanceProvenance old).

Definition rotateCredential (input : RotationInput) : go credentialStore ClientCredential :=
  ready ;;
  ctx_check ;;
  let! s := get in
  match cs_byID s !! ri_SourceCredentialID input with
  | None => fail ErrNotFound
  | Some old =>
    refuse! negb (bool_decide (cc_OrgID (cr_Metadata old) = ri_OrgID input)) with ErrNotFound ;;
    let! now := now in
    refuse! bool_decide (is_Some (cr_RotatedAt old)) with ErrConflict ;;
    refuse! bool_decide (is_Some (cc_RevokedAt (cr_Metadata old))) with ErrNotFound ;;
    let r := ri_Replacement input in
    refuse! expired_at now (rr_ExpiresAt r) with ErrInvalidInput "" ;;
    refuse! bool_decide (is_Some (cs_byID s !! rr_CredentialID r)) with ErrConflict ;;
    refuse! bool_decide (is_Some (cs_byHash s !! rr_TokenHash r)) with ErrConflict ;;
    let replacement := credentialFromRotation r (cc_OrgID (cr_Metadata old)) now
                         (cc_Resource (cr_Metadata old)) (cc_Provenance (cr_Metadata old)) in
    let previousValidUntil := overlapExpiry now (rr_Overlap r) in
    let actor := RotationActor input in
    let immediate := match previousValidUntil with
                     | None => true
                     | Some t => negb (time_After t now)
                     end in
    let steps := MkFacts KindRotated replacement 0 (cc_CredentialID (cr_Metadata old)) now actor
                 :: when immediate (MkFacts KindRevoked (cr_Metadata old) 0 "" now actor) in
    recordMutation (credentialRotatedEvent (cr_Metadata old) replacement (ri_ActorID input)
                      (rr_Overlap r) now) (Some (cr_Metadata old)) steps ;;
    modify (λ s, Store (cs_audit s)
      (<[rr_CredentialID r := CredRecord replacement (rr_TokenHash r) (ri_ActorID input) None "" "" ""]>
        (<[ri_SourceCredentialID input := retire_source now previousValidUntil old]> (cs_byID s)))
      (<[rr_TokenHash r := rr_CredentialID r]> (cs_byHash s))) ;;
    ret replacement
  end.

(** The live members of a family other than the credential named; the loop
    runs over the map and sorts, so its order does not matter. *)
Definition is_sibling (orgID credentialID familyID : string) (kv : string * CredentialRecord) : bool :=
  negb (bool_decide (kv.1 = credentialID) || negb (bool_decide (cc_OrgID (cr_Metadata kv.2) = orgID))
        || negb (bool_decide (pv_FamilyID (cc_Provenance (cr_Metadata kv.2)) = familyID))
        || bool_decide (is_Some (cc_RevokedAt (cr_Metadata kv.2)))).

Definition siblings (orgID credentialID familyID : string) (m : gmap string CredentialRecord)
    : list string :=
  sort_Strings (filter (λ kv, is_sibling orgID credentialID familyID kv = true) (map_to_list m)).*1.

Definition revocation_event (input : RevocationInput) (now : time) (family : option string)
    (id : string) (member : CredentialRecord) : AuditEvent :=
  let event := credentialRevokedEvent (cr_Metadata member) (vi_ActorID input) now in
  if bool_decide (id = vi_CredentialID input) then withRevocationDetails event input
  else ae_set_Metadata
         (Some [("family_id", text (default "" family)); ("family_revoke_reason", text "member_revoked")])
         event.

Definition revokeCredential (input : RevocationInput) : go credentialStore ClientCredential :=
  ready ;;
  ctx_check ;;
  let! s := get in
  match cs_byID s !! vi_CredentialID input with
  | None => fail ErrNotFound
  | Some record =>
    refuse! negb (bool_decide (cc_OrgID (cr_Metadata record) = vi_OrgID input)) with ErrNotFound ;;
    refuse! bool_decide (is_Some (cc_RevokedAt (cr_Metadata record))) with ErrConflict ;;
    let! now := now in
    let actor := RevocationActor input in
    let family := browserFamilyOf (cr_Metadata record) in
    let ids := vi_CredentialID input ::
               match family with
               | Some familyID => siblings (vi_OrgID input) (vi_CredentialID input) familyID (cs_byID s)
               | None => []
               end in
    let memberActor id := if bool_decide (id = vi_CredentialID input) then actor
                          else FamilyMemberActor actor in
    let! ledgerMark := on_ledger Ledger.Len in
    let! eventMark := on_audit eventCount in
    iter ids (λ id,
      match cs_byID s !! id with
      | None => panic
      | Some member =>
        on_error
          (recordMutation (revocation_event input now family id member) None
             [MkFacts KindRevoked (cr_Metadata member) 0 "" now (memberActor id)])
          (on_ledger (Ledger.TruncateTo ledgerMark) ;; on_audit (truncateEvents eventMark))
      end) ;;
    modify (λ s, cs_set_byID (foldr (λ id m, alter (revoke_record now) id m) (cs_byID s) ids) s) ;;
    ret (cr_Metadata (revoke_record now record))
  end.

(** ** Reads *)

Definition created_le (a b : ClientCredential) : Prop := cc_CreatedAt a ≤ cc_CreatedAt b.
#[global] Instance created_le_dec a b : Decision (created_le a b).
Proof. unfold created_le. apply _. Defined.

(** [order] is the order the map yields its keys in; the sort is not stable, so
    any order of equal creation times can come out, as any [order] can. *)
Definition List_ (order : list string) (orgID : string) : go credentialStore (list ClientCredential) :=
  ready ;;
  ctx_check ;;
  let! s := get in
  let values := filter (λ c, cc_OrgID c = orgID)
                  (cr_Metadata <$> omap (λ id, cs_byID s !! id) order) in
  ret (merge_sort created_le values).

Definition GetByID (orgID credentialID : string) : go credentialStore ClientCredential :=
  ready ;;
  ctx_check ;;
  let! s := get in
  match cs_byID s !! credentialID with
  | None => fail ErrNotFound
  | Some record =>
    refuse! negb (bool_decide (cc_OrgID (cr_Metadata record) = orgID)) with ErrNotFound ;;
    ret (cr_Metadata record)
  end.

Definition FindByTokenHash (tokenHash : string) : go credentialStore ClientCredential :=
  ready ;;
  ctx_check ;;
  let! s := get in
  match cs_byHash s !! tokenHash with
  | None => fail ErrNotFound
  | Some credentialID =>
    let! now := now in
    match cs_byID s !! credentialID with
    | None => fail ErrNotFound
    | Some record =>
      refuse! bool_decide (is_Some (cc_RevokedAt (cr_Metadata record)))
              || expired_at now (cc_ExpiresAt (cr_Metadata record)) with ErrNotFound ;;
      ret (cr_Metadata record)
    end
  end.

Definition TouchLastUsed (orgID credentialID ip userAgent : string) (usedAt : time)
    : go credentialStore () :=
  ready ;;
  ctx_check ;;
  let! s := get in
  match cs_byID s !! credentialID with
  | None => fail ErrNotFound
  | Some record =>
    refuse! negb (bool_decide (cc_OrgID (cr_Metadata record) = orgID)) with ErrNotFound ;;
    let newer := match cc_LastUsedAt (cr_Metadata record) with
                 | None => true
                 | Some t => time_After usedAt t
                 end in
    if newer then
      modify (λ s, cs_set_byID (<[credentialID :=
        CredRecord (cc_set_LastUsedAt (Some usedAt) (cr_Metadata record)) (cr_TokenHash record)
          (cr_CreatedBy record) (cr_RotatedAt record) ip userAgent (cr_IssuanceProvenance record)]>
        (cs_byID s)) s)
    else ret ()
  end.

(** [newCredentialStore]: a store bound to an audit store no other store has. *)
Definition newCredentialStore (audit : AuditStore) : res credentialStore :=
  if as_bound audit then Err ErrConflict
  else Ok (Store (MkAuditStore (as_events audit) (as_ledger audit) true) ∅ ∅).
End store.
