(* ===== verification/CredentialStoreProofs.v ===== *)
(** * CredentialStoreProofs: what the credential store guarantees

    The lemmas on recording a mutation (all of it or nothing), the invariant
    [store_ok] that ties the two maps and the outbox together, and the theorems:
    a failed operation changes nothing, the invariant is kept, records only
    evolve in the allowed direction, and a token hash finds a credential only
    while it is live. *)

From Stdlib Require Import ZArith Lia Ascii.
From stdpp Require Import sorting pretty numbers gmap strings list_numbers list.
From S2P Require Import Prelude GoStrings GoText CredTypes Outbox AuditStore CredentialStore.

Open Scope Z_scope.

Section proofs.
Context `{UUIDLib}.

(** ** Recording a mutation *)

Definition cs_rows (s : credentialStore) : list Row := Ledger.rows (as_ledger (cs_audit s)).
Definition with_rows (rows : list Row) (s : credentialStore) : credentialStore :=
  cs_set_audit (as_set_ledger (Ledger.MkLedger rows) (cs_audit s)) s.
Definition with_event (ev : AuditEvent) (s : credentialStore) : credentialStore :=
  cs_set_audit (as_set_events (as_events (cs_audit s) ++ [ev]) (cs_audit s)) s.

Lemma cs_rows_with_rows rows s : cs_rows (with_rows rows s) = rows.
Proof. done. Qed.
Lemma with_rows_twice rows rows' s : with_rows rows (with_rows rows' s) = with_rows rows s.
Proof. done. Qed.
Lemma with_rows_id s : with_rows (cs_rows s) s = s.
Proof. by destruct s as [[? [] ?] ? ?]. Qed.

Lemma on_ledger_inv {A} (m : go Ledger.Ledger A) w r w' :
  on_ledger m w = (r, w') →
  ∃ e l, m (w.1, Ledger.MkLedger (cs_rows w.2)) = (r, (e, l)) ∧ w' = (e, with_rows (Ledger.rows l) w.2).
Proof.
  unfold on_ledger, on_audit, zoom, cs_rows. cbn. destruct w as [e [[evs [rows] b] m1 m2]]. cbn.
  destruct (m (e, Ledger.MkLedger rows)) as [r' [e' [rows']]] eqn:E. intros [= <- <-].
  exists e', (Ledger.MkLedger rows'). done.
Qed.

Lemma truncate_prefix {A} (l l' : list A) :
  l `prefix_of` l' →
  (if bool_decide (0 <= Z.of_nat (length l)) && bool_decide (Z.of_nat (length l) < Z.of_nat (length l'))
   then take (Z.to_nat (Z.of_nat (length l))) l' else l') = l.
Proof.
  intros [k ->]. rewrite Nat2Z.id, take_app_length. rewrite bool_decide_true by lia. cbn.
  case_bool_decide as Hlt; [done|]. rewrite length_app in Hlt.
  destruct k; [by rewrite app_nil_r|cbn in Hlt; lia].
Qed.

Lemma truncate_ledger l w w' r :
  l `prefix_of` cs_rows w.2 →
  on_ledger (Ledger.TruncateTo (Z.of_nat (length l))) w = (r, w') →
  r = Ok () ∧ w' = (w.1, with_rows l w.2).
Proof.
  intros Hl (e & l' & Hrun & ->)%on_ledger_inv. revert Hrun. unfold Ledger.TruncateTo, modify. cbn.
  intros [= <- <- <-]. split; [done|]. do 2 f_equal. pose proof (truncate_prefix l (cs_rows w.2) Hl) as Ht.
  cbn in Ht. by destruct (_ && _).
Qed.

Definition step_id (f : Facts) : string := cc_CredentialID (f_Credential f).
Definition step_closes (f : Facts) : list string :=
  if bool_decide (f_Kind f = KindRevoked) || bool_decide (f_Kind f = KindExpired)
  then [step_id f] else [].

Lemma step_closes_revoked c rv parent at_ actor :
  step_closes (MkFacts KindRevoked c rv parent at_ actor) = [cc_CredentialID c].
Proof. reflexivity. Qed.

Lemma list_bind_singleton {A B} (f : A → list B) x : [x] ≫= f = f x.
Proof. cbn. by rewrite app_nil_r. Qed.

(** A write to the ledger that is undone back to [l0] when it fails. *)
Lemma undone_write (m : go Ledger.Ledger ()) opens closes l0 w r w' :
  grows (S := Ledger.Ledger) m →
  (∀ w u w', m w = (Ok u, w') → stream_ok (Ledger.rows w.2) →
     stream_ok (Ledger.rows w'.2) ∧ effect opens closes (Ledger.rows w.2) (Ledger.rows w'.2)) →
  (∀ w w', m w ≠ (Panic, w')) →
  l0 `prefix_of` cs_rows w.2 →
  on_error (on_ledger m) (on_ledger (Ledger.TruncateTo (Z.of_nat (length l0)))) w = (r, w') →
  (r = Ok () ∧ ∃ rows, w'.2 = with_rows rows w.2 ∧ cs_rows w.2 `prefix_of` rows ∧
     (stream_ok (cs_rows w.2) → stream_ok rows ∧ effect opens closes (cs_rows w.2) rows)) ∨
  (∃ e, r = Err e ∧ w'.2 = with_rows l0 w.2).
Proof.
  intros Hgrow Heff Hnp Hl0 Hrun. unfold on_error in Hrun.
  destruct (on_ledger m w) as [r1 w1] eqn:E. apply on_ledger_inv in E as (e1 & l1 & Hm & ->).
  pose proof (Hgrow _ _ _ Hm) as Hpre. cbn in Hpre. destruct r1 as [[]|err|].
  - injection Hrun as <- <-. left. split; [done|]. exists (Ledger.rows l1). split; [done|].
    split; [done|]. intros Hok. by destruct (Heff _ _ _ Hm Hok).
  - right. destruct (on_ledger _ _) as [r2 w2] eqn:E2.
    apply truncate_ledger in E2 as [-> ->]; [|cbn; by etrans]. injection Hrun as <- <-. eauto.
  - by destruct (Hnp _ _ Hm).
Qed.

Lemma undone_append f l0 w r w' :
  l0 `prefix_of` cs_rows w.2 →
  on_error (on_ledger (Append f)) (on_ledger (Ledger.TruncateTo (Z.of_nat (length l0)))) w = (r, w') →
  (r = Ok () ∧ ∃ rows, w'.2 = with_rows rows w.2 ∧ cs_rows w.2 `prefix_of` rows ∧
     (stream_ok (cs_rows w.2) → stream_ok rows ∧ effect [step_id f] (step_closes f) (cs_rows w.2) rows)) ∨
  (∃ e, r = Err e ∧ w'.2 = with_rows l0 w.2).
Proof.
  apply undone_write.
  - apply Append_grows.
  - intros w0 u w0' Hrun Hok. split; [by apply Append_ok in Hrun as [? _]|exact (Append_effect f _ _ _ Hrun Hok)].
  - apply LedgerLaws.Append_safe.
Qed.

Lemma undone_issue c l0 w r w' :
  l0 `prefix_of` cs_rows w.2 →
  on_error (on_ledger (EnsureIssued c)) (on_ledger (Ledger.TruncateTo (Z.of_nat (length l0)))) w
    = (r, w') →
  (r = Ok () ∧ ∃ rows, w'.2 = with_rows rows w.2 ∧ cs_rows w.2 `prefix_of` rows ∧
     (stream_ok (cs_rows w.2) → stream_ok rows ∧ effect [cc_CredentialID c] [] (cs_rows w.2) rows)) ∨
  (∃ e, r = Err e ∧ w'.2 = with_rows l0 w.2).
Proof.
  apply undone_write.
  - apply EnsureIssued_grows.
  - intros w0 u w0' Hrun Hok. split; [by apply EnsureIssued_ok in Hrun as [? _]|].
    exact (EnsureIssued_effect c _ _ _ Hrun Hok).
  - apply LedgerLaws.EnsureIssued_safe.
Qed.

Lemma append_steps steps l0 w r w' :
  l0 `prefix_of` cs_rows w.2 →
  iter steps (λ step, on_error (on_ledger (Append step))
                        (on_ledger (Ledger.TruncateTo (Z.of_nat (length l0))))) w = (r, w') →
  (r = Ok () ∧ ∃ rows, w'.2 = with_rows rows w.2 ∧ cs_rows w.2 `prefix_of` rows ∧
     (stream_ok (cs_rows w.2) →
      stream_ok rows ∧ effect (step_id <$> steps) (steps ≫= step_closes) (cs_rows w.2) rows)) ∨
  (∃ e, r = Err e ∧ w'.2 = with_rows l0 w.2).
Proof.
  revert w. induction steps as [|f steps IH]; intros w Hl0 Hrun; cbn [iter] in Hrun.
  - injection Hrun as <- <-. left. split; [done|]. exists (cs_rows w.2). rewrite with_rows_id.
    split; [done|]. split; [done|]. intros Hok. split; [done|apply effect_refl].
  - apply bind_res_inv in Hrun as [(u & w1 & H1 & H2)|[(e & -> & H1)|[-> H1]]];
      apply undone_append in H1 as [(Hr & rows & Hw1 & Hpre & Heff)|(e' & Hr & Hw1)]; try done;
      [|right; eauto..].
    apply IH in H2; rewrite ?Hw1, ?cs_rows_with_rows in *; [|by etrans].
    destruct H2 as [(-> & rows' & Hw' & Hpre' & Heff')|(e & -> & Hw')].
    + left. split; [done|]. exists rows'. rewrite with_rows_twice in Hw'. split; [done|].
      split; [by etrans|]. intros Hok. destruct (Heff Hok) as [Hok1 He1].
      destruct (Heff' Hok1) as [Hok2 He2]. split; [done|].
      exact (effect_trans _ _ _ _ _ _ _ He1 He2).
    + right. exists e. by rewrite with_rows_twice in Hw'.
Qed.

Lemma with_len {A} (k : Z → go credentialStore A) w :
  bind (on_ledger Ledger.Len) k w = k (Z.of_nat (length (cs_rows w.2))) w.
Proof. by destruct w as [e [[evs [rows] b] m1 m2]]. Qed.

Lemma recordAudit_spec ev w r w' :
  recordAudit ev w = (r, w') →
  match r with
  | Ok _ => w'.2 = with_event ev w.2
  | Err _ => w'.2 = w.2
  | Panic => False
  end.
Proof.
  unfold recordAudit. intros Hrun.
  apply bind_res_inv in Hrun as [(u & w1 & H1 & Hrun)|[(e & -> & H1)|[-> H1]]];
    [|by eapply readonly_ctx|by apply safe_ctx in H1].
  apply bind_res_inv in Hrun as [(u2 & w2 & H2 & Hrun)|[(e & -> & H2)|[-> H2]]];
    [| |by apply safe_ctx in H2].
  - apply readonly_ctx in H1, H2. rewrite <-H1, <-H2. destruct w2 as [e2 [[evs l b] m1 m2]].
    injection Hrun as <- <-. by destruct ev.
  - apply readonly_ctx in H1, H2. congruence.
Qed.

(** [appendLifecycle] writes every row of the mutation or none. *)
Lemma appendLifecycle_spec parent steps w r w' :
  appendLifecycle parent steps w = (r, w') →
  (r = Ok () ∧ ∃ rows, w'.2 = with_rows rows w.2 ∧ cs_rows w.2 `prefix_of` rows ∧
     (stream_ok (cs_rows w.2) → stream_ok rows ∧
      effect (match parent with Some p => [cc_CredentialID p] | None => [] end ++ (step_id <$> steps))
        (steps ≫= step_closes) (cs_rows w.2) rows)) ∨
  (∃ e, r = Err e ∧ w'.2 = w.2).
Proof.
  unfold appendLifecycle. rewrite with_len. intros Hrun.
  apply bind_res_inv in Hrun as [(u & w1 & H1 & H2)|Hfail].
  - assert (∃ rows, w1.2 = with_rows rows w.2 ∧ cs_rows w.2 `prefix_of` rows ∧
      (stream_ok (cs_rows w.2) → stream_ok rows ∧
       effect match parent with Some p => [cc_CredentialID p] | None => [] end [] (cs_rows w.2) rows))
      as (rows & Hw1 & Hpre & Heff).
    { destruct parent as [p|].
      - by apply undone_issue in H1 as [(_ & ?)|(e & ? & _)].
      - injection H1 as _ <-. exists (cs_rows w.2). rewrite with_rows_id. split; [done|].
        split; [done|]. intros Hok. split; [done|apply effect_refl]. }
    apply append_steps in H2; rewrite ?Hw1, ?cs_rows_with_rows in *; [|done].
    destruct H2 as [(-> & rows' & Hw' & Hpre' & Heff')|(e & -> & Hw')];
      rewrite with_rows_twice in Hw'.
    + left. split; [done|]. exists rows'. split; [done|]. split; [by etrans|]. intros Hok.
      destruct (Heff Hok) as [Hok1 He1], (Heff' (proj1 (Heff Hok))) as [Hok2 He2]. split; [done|].
      exact (effect_trans _ _ _ _ _ _ _ He1 He2).
    + right. exists e. by rewrite with_rows_id in Hw'.
  - destruct parent as [p|]; [|by destruct Hfail as [(e & -> & H1)|[-> H1]]].
    assert (on_error (on_ledger (EnsureIssued p))
      (on_ledger (Ledger.TruncateTo (Z.of_nat (length (cs_rows w.2))))) w
      = (match r with Ok _ => Panic | Err e => Err e | Panic => Panic end, w')) as H1
      by (by destruct Hfail as [(e & -> & H1)|[-> H1]]).
    destruct Hfail as [(e & -> & _)|[-> _]];
      apply undone_issue in H1 as [(? & _)|(e' & [= <-] & Hw')]; try done.
    right. exists e. by rewrite with_rows_id in Hw'.
Qed.

(** [recordMutation] writes the outbox rows and the audit event, or neither. *)
Lemma recordMutation_spec ev parent steps w r w' :
  recordMutation ev parent steps w = (r, w') →
  (r = Ok () ∧ ∃ rows, w'.2 = with_event ev (with_rows rows w.2) ∧ cs_rows w.2 `prefix_of` rows ∧
     (stream_ok (cs_rows w.2) → stream_ok rows ∧
      effect (match parent with Some p => [cc_CredentialID p] | None => [] end ++ (step_id <$> steps))
        (steps ≫= step_closes) (cs_rows w.2) rows)) ∨
  (∃ e, r = Err e ∧ w'.2 = w.2).
Proof.
  unfold recordMutation. rewrite with_len. intros Hrun.
  apply bind_res_inv in Hrun as [(u & w1 & H1 & H2)|[(e & -> & H1)|[-> H1]]];
    apply appendLifecycle_spec in H1 as [(Hr & rows & Hw1 & Hpre & Heff)|(e' & Hr & Hw1)];
    try done; [|right; eauto..].
  unfold on_error in H2. destruct (recordAudit ev w1) as [r2 w2] eqn:E2.
  pose proof (recordAudit_spec _ _ _ _ E2) as Ha. destruct r2 as [[]|e|]; [| |done].
  - injection H2 as <- <-. left. split; [done|]. exists rows. by rewrite Ha, Hw1.
  - destruct (on_ledger _ _) as [r3 w3] eqn:E3.
    apply truncate_ledger in E3 as [-> ->]; [|by rewrite Ha, Hw1]. injection H2 as <- <-.
    right. exists e. split; [done|]. cbn. by rewrite Ha, Hw1, with_rows_twice, with_rows_id.
Qed.

(** The errors of recording are the outbox's and the context's. *)
Definition record_error (e : gerr) : Prop := outbox_error e ∨ ∃ c, e = ctx_gerr c.

Lemma errs_weaken {S A} (P Q : gerr → Prop) (m : go S A) :
  (∀ e, P e → Q e) → errs_in P m → errs_in Q m.
Proof. intros HPQ Hm w e w' Hr. by eapply HPQ, Hm. Qed.

Lemma recordMutation_errs ev parent steps : errs_in record_error (recordMutation ev parent steps).
Proof.
  assert (∀ n, errs_in record_error (on_ledger (Ledger.TruncateTo n))) as Ht
    by (intros n; by apply errs_zoom, errs_zoom).
  assert (errs_in (S := credentialStore) record_error ctx_check) as Hc
    by (apply errs_ctx; intros e; right; eauto).
  assert (errs_in record_error (on_ledger Ledger.Len)) as Hl
    by (apply errs_zoom, errs_zoom; by apply errs_bind).
  unfold recordMutation, appendLifecycle. apply errs_bind; [done|intros mark].
  apply errs_bind; [apply errs_bind; [done|intros mark']|intros _].
  - apply errs_bind; [case_match; [|done]|intros _].
    + apply errs_on_error; [|done]. apply errs_zoom, errs_zoom.
      eapply errs_weaken; [|apply LedgerLaws.EnsureIssued_errs]. by left.
    + apply errs_iter. intros f. apply errs_on_error; [|done]. apply errs_zoom, errs_zoom.
      eapply errs_weaken; [|apply LedgerLaws.Append_errs]. by left.
  - apply errs_on_error; [|done]. unfold recordAudit.
    apply errs_bind; [done|intros _]. apply errs_bind; [done|intros _].
    apply errs_zoom. by apply errs_bind.
Qed.

(** ** What each operation does *)

(** The two maps and the outbox of a state after a recorded mutation. *)
Record recorded (s s' : credentialStore) (ev : AuditEvent) (opens closes : list string)
    (byID : gmap string CredentialRecord) (byHash : gmap string string) : Prop := {
  rec_byID : cs_byID s' = byID;
  rec_byHash : cs_byHash s' = byHash;
  rec_events : as_events (cs_audit s') = as_events (cs_audit s) ++ [ev];
  rec_prefix : cs_rows s `prefix_of` cs_rows s';
  rec_stream : stream_ok (cs_rows s) →
    stream_ok (cs_rows s') ∧ effect opens closes (cs_rows s) (cs_rows s');
}.

Definition created (input : CreateInput) (now : time) : CredentialRecord :=
  CredRecord (credentialFromCreate input now) (ci_TokenHash input) (ci_ActorID input) None "" ""
    (ci_IssuanceProvenance input).

Ltac failed := right; eexists; split; [reflexivity|done].

Lemma create_spec input w r w' :
  createCredential input w = (r, w') →
  (∃ now, r = Ok (credentialFromCreate input now) ∧
     cs_byID w.2 !! ci_CredentialID input = None ∧ cs_byHash w.2 !! ci_TokenHash input = None ∧
     expired_at now (ci_ExpiresAt input) = false ∧
     recorded w.2 w'.2 (credentialCreatedEvent (created input now)) [ci_CredentialID input] []
       (<[ci_CredentialID input := created input now]> (cs_byID w.2))
       (<[ci_TokenHash input := ci_CredentialID input]> (cs_byHash w.2))) ∨
  (∃ e, r = Err e ∧ w'.2 = w.2).
Proof.
  unfold createCredential, ready. intros Hrun.
  apply bind_ctx in Hrun as [?|(e1 & Hrun)]; [by right|].
  apply bind_ctx in Hrun as [?|(e2 & Hrun)]; [by right|]. rewrite bind_get in Hrun. cbn in Hrun.
  case_bool_decide as Hid; [injection Hrun as <- <-; failed|].
  case_bool_decide as Hhash; [injection Hrun as <- <-; failed|].
  apply bind_now in Hrun as (now & e3 & Hrun). cbn in Hrun.
  destruct (expired_at now (ci_ExpiresAt input)) eqn:Hexp; [injection Hrun as <- <-; failed|].
  apply bind_res_inv in Hrun as [(u & w1 & H1 & H2)|[(e & -> & H1)|[-> H1]]];
    apply recordMutation_spec in H1 as [(Hr & rows & Hw1 & Hpre & Heff)|(e' & Hr & Hw1)];
    try done; [|right; eauto..].
  injection H2 as <- <-. left. exists now. rewrite !eq_None_not_Some. cbn in Hw1. rewrite Hw1.
  split_and!; [done..|]. split; try done. cbn in Heff. intros Hok.
  destruct (Heff Hok) as [? He]. split; [done|]. unfold step_closes in He. cbn in He.
  replace (bool_decide (CreateKind input = KindRevoked) || bool_decide (CreateKind input = KindExpired))
    with false in He by (unfold CreateKind; by destruct (bool_decide (ci_IssuanceProvenance input = _))).
  done.
Qed.

Lemma rollback_spec input w r w' :
  rollbackCredentialRotation input w = (r, w') →
  (∃ now source successor,
     cs_byID w.2 !! bi_SourceCredentialID input = Some source ∧
     cs_byID w.2 !! bi_SuccessorCredentialID input = Some successor ∧
     now < bi_RollbackUntil input ∧
     r = Ok (cr_Metadata (revoke_record now successor)) ∧
     rollback_refused now (bi_OrgID input) source successor
       (existsb (rotation_names (cc_CredentialID (cr_Metadata source))
          (cc_CredentialID (cr_Metadata successor))) (as_events (cs_audit w.2))) = false ∧
     let id := cc_CredentialID (cr_Metadata successor) in
     recorded w.2 w'.2 (credentialRevokedEvent (cr_Metadata successor) (bi_ActorID input) now)
       [id] [id] (<[id := revoke_record now successor]> (cs_byID w.2)) (cs_byHash w.2)) ∨
  (∃ e, r = Err e ∧ w'.2 = w.2).
Proof.
  unfold rollbackCredentialRotation, ready. intros Hrun.
  apply bind_ctx in Hrun as [?|(e1 & Hrun)]; [by right|].
  apply bind_ctx in Hrun as [?|(e2 & Hrun)]; [by right|].
  apply bind_now in Hrun as (now & e3 & Hrun).
  destruct (time_After (bi_RollbackUntil input) now) eqn:Huntil; cbn [negb] in Hrun;
    [|injection Hrun as <- <-; failed].
  rewrite bind_get in Hrun. cbn [snd] in Hrun.
  destruct (cs_byID w.2 !! bi_SourceCredentialID input) as [source|] eqn:Hsrc;
    [|injection Hrun as <- <-; failed].
  destruct (cs_byID w.2 !! bi_SuccessorCredentialID input) as [successor|] eqn:Hsuc;
    [|injection Hrun as <- <-; failed].
  unfold rotationRelates in Hrun. unfold bind at 1 in Hrun. cbn [get ret bind snd] in Hrun.
  case_match eqn:Hguard; [injection Hrun as <- <-; failed|].
  apply bind_res_inv in Hrun as [(u & w1 & H1 & H2)|[(e & -> & H1)|[-> H1]]];
    apply recordMutation_spec in H1 as [(Hr & rows & Hw1 & Hpre & Heff)|(e' & Hr & Hw1)];
    try done; [|right; eauto..].
  injection H2 as <- <-. left. exists now, source, successor. cbn in Hw1. rewrite Hw1.
  apply bool_decide_eq_true in Huntil. split_and!; [done..|]. split; done.
Qed.

Definition rotated_replacement (input : RotationInput) (old : CredentialRecord) (now : time)
    : ClientCredential :=
  credentialFromRotation (ri_Replacement input) (cc_OrgID (cr_Metadata old)) now
    (cc_Resource (cr_Metadata old)) (cc_Provenance (cr_Metadata old)).

Definition immediate (now : time) (previousValidUntil : option time) : bool :=
  match previousValidUntil with None => true | Some t => negb (time_After t now) end.

Lemma rotate_spec input w r w' :
  rotateCredential input w = (r, w') →
  let rp := ri_Replacement input in
  (∃ now old,
     cs_byID w.2 !! ri_SourceCredentialID input = Some old ∧
     cc_OrgID (cr_Metadata old) = ri_OrgID input ∧
     cr_RotatedAt old = None ∧ cc_RevokedAt (cr_Metadata old) = None ∧
     expired_at now (rr_ExpiresAt rp) = false ∧
     cs_byID w.2 !! rr_CredentialID rp = None ∧ cs_byHash w.2 !! rr_TokenHash rp = None ∧
     r = Ok (rotated_replacement input old now) ∧
     let until := overlapExpiry now (rr_Overlap rp) in
     let oldID := cc_CredentialID (cr_Metadata old) in
     recorded w.2 w'.2
       (credentialRotatedEvent (cr_Metadata old) (rotated_replacement input old now)
          (ri_ActorID input) (rr_Overlap rp) now)
       [oldID; rr_CredentialID rp] (when (immediate now until) oldID)
       (<[rr_CredentialID rp :=
          CredRecord (rotated_replacement input old now) (rr_TokenHash rp) (ri_ActorID input) None "" "" ""]>
         (<[ri_SourceCredentialID input := retire_source now until old]> (cs_byID w.2)))
       (<[rr_TokenHash rp := rr_CredentialID rp]> (cs_byHash w.2))) ∨
  (∃ e, r = Err e ∧ w'.2 = w.2).
Proof.
  intros Hrun rp. unfold rotateCredential, ready in Hrun.
  apply bind_ctx in Hrun as [?|(e1 & Hrun)]; [by right|].
  apply bind_ctx in Hrun as [?|(e2 & Hrun)]; [by right|]. rewrite bind_get in Hrun. cbn [snd] in Hrun.
  destruct (cs_byID w.2 !! ri_SourceCredentialID input) as [old|] eqn:Hold;
    [|injection Hrun as <- <-; failed].
  case_bool_decide as Horg; cbn [negb] in Hrun; [|injection Hrun as <- <-; failed].
  apply bind_now in Hrun as (now & e3 & Hrun).
  case_bool_decide as Hrot; [injection Hrun as <- <-; failed|].
  case_bool_decide as Hrev; [injection Hrun as <- <-; failed|].
  fold rp in Hrun. destruct (expired_at now (rr_ExpiresAt rp)) eqn:Hexp; [injection Hrun as <- <-; failed|].
  case_bool_decide as Hid; [injection Hrun as <- <-; failed|].
  case_bool_decide as Hhash; [injection Hrun as <- <-; failed|].
  fold (rotated_replacement input old now) in Hrun.
  fold (immediate now (overlapExpiry now (rr_Overlap rp))) in Hrun.
  apply bind_res_inv in Hrun as [(u & w1 & H1 & H2)|[(e & -> & H1)|[-> H1]]];
    apply recordMutation_spec in H1 as [(Hr & rows & Hw1 & Hpre & Heff)|(e' & Hr & Hw1)];
    try done; [|right; eauto..].
  injection H2 as <- <-. left. exists now, old. rewrite !eq_None_not_Some. cbn [snd] in Hw1.
  rewrite Hw1. split_and!; [done..|]. split; try done. intros Hok.
  destruct (Heff Hok) as [Hs He]. split; [done|]. eapply effect_ext; [| |exact He].
  - intros b. destruct (immediate _ _); set_solver.
  - intros b. destruct (immediate _ _); set_solver.
Qed.

(** *** Revocation: a family is revoked as one *)

Record extends (s s' : credentialStore) : Prop := {
  ext_byID : cs_byID s' = cs_byID s;
  ext_byHash : cs_byHash s' = cs_byHash s;
  ext_bound : as_bound (cs_audit s') = as_bound (cs_audit s);
  ext_rows : cs_rows s `prefix_of` cs_rows s';
  ext_events : as_events (cs_audit s) `prefix_of` as_events (cs_audit s');
}.

Lemma restore s w r w' :
  extends s w.2 →
  (on_ledger (Ledger.TruncateTo (Z.of_nat (length (cs_rows s)))) ;;
   on_audit (truncateEvents (Z.of_nat (length (as_events (cs_audit s)))))) w = (r, w') →
  r = Ok () ∧ w'.2 = s.
Proof.
  intros Hext Hrun. unfold bind in Hrun.
  destruct (on_ledger _ w) as [r1 w1] eqn:E. apply truncate_ledger in E as [-> ->]; [|apply Hext].
  revert Hrun. unfold on_audit, zoom, truncateEvents, modify. cbn. intros [= <- <-]. split; [done|].
  destruct w as [e s']. cbn in *. destruct Hext as [Hid Hhash Hb _ Hev].
  pose proof (truncate_prefix _ _ Hev) as Ht. unfold cs_set_audit, as_set_events, as_set_ledger. cbn.
  destruct s as [[evs [rows] b] m1 m2], s' as [[evs' [rows'] b'] m1' m2']. cbn in *. subst.
  destruct (_ && _); cbn in *; by rewrite Ht.
Qed.

Lemma revoke_steps s input now family memberActor ids w r w' :
  extends s w.2 → (∀ id, id ∈ ids → is_Some (cs_byID s !! id)) →
  iter ids (λ id,
    match cs_byID s !! id with
    | None => panic
    | Some member =>
      on_error
        (recordMutation (revocation_event input now family id member) None
           [MkFacts KindRevoked (cr_Metadata member) 0 "" now (memberActor id)])
        (on_ledger (Ledger.TruncateTo (Z.of_nat (length (cs_rows s)))) ;;
         on_audit (truncateEvents (Z.of_nat (length (as_events (cs_audit s))))))
    end) w = (r, w') →
  (r = Ok () ∧ extends w.2 w'.2 ∧
    (stream_ok (cs_rows w.2) →
     (∀ id member, cs_byID s !! id = Some member → cc_CredentialID (cr_Metadata member) = id) →
     stream_ok (cs_rows w'.2) ∧ effect ids ids (cs_rows w.2) (cs_rows w'.2))) ∨
  (∃ e, r = Err e ∧ w'.2 = s).
Proof.
  intros Hext Hids. revert w Hext. induction ids as [|id ids IH]; intros w Hext Hrun;
    cbn [iter] in Hrun.
  { injection Hrun as <- <-. left. split; [done|]. split; [by split|]. intros Hok. split; [done|].
    apply effect_refl. }
  destruct (Hids id ltac:(set_solver)) as [member Hm].
  apply bind_res_inv in Hrun. rewrite Hm in Hrun. unfold on_error in Hrun.
  destruct (recordMutation _ _ _ w) as [r1 w1] eqn:E1.
  apply recordMutation_spec in E1 as [(-> & rows & Hw1 & Hpre & Heff)|(e & -> & Hw1)].
  - destruct Hrun as [(u & w2 & [= <- <-] & Hrun)|[(e & -> & ?)|[-> ?]]]; [|done..].
    assert (extends w.2 w1.2) as Hext1 by (rewrite Hw1; split; try done; cbn; by apply prefix_app_r).
    assert (extends s w1.2) as Hext2.
    { destruct Hext, Hext1. split; [congruence..|by etrans|by etrans]. }
    apply IH in Hrun as [(-> & Hext3 & Heff3)|?]; [|by right|set_solver|done].
    left. split; [done|]. split.
    { destruct Hext1, Hext3. split; [congruence..|by etrans|by etrans]. }
    intros Hok Hkey. destruct (Heff Hok) as [Hok1 He1].
    assert (cs_rows w1.2 = rows) as Hrows by (by rewrite Hw1).
    rewrite Hrows in Heff3. destruct (Heff3 Hok1 Hkey) as [Hok3 He3]. split; [done|].
    eapply effect_ext; [| |exact (effect_trans _ _ _ _ _ _ _ He1 He3)];
      rewrite ?list_bind_singleton, ?step_closes_revoked; cbn; unfold step_id; cbn;
      rewrite (Hkey _ _ Hm); set_solver.
  - destruct (bind _ _ w1) as [r2 w2] eqn:E2.
    apply restore in E2 as [-> Hw2]; [|by rewrite Hw1].
    destruct Hrun as [(u & w3 & ? & Hrun)|[(e' & -> & [= <- <-])|[-> ?]]]; [done| |done].
    right. eauto.
Qed.

Lemma elem_of_siblings org cid fid (m : gmap string CredentialRecord) id :
  id ∈ siblings org cid fid m ↔ ∃ r, m !! id = Some r ∧ is_sibling org cid fid (id, r) = true.
Proof.
  unfold siblings. rewrite elem_of_sort_Strings, list_elem_of_fmap. split.
  - intros ([k r] & -> & [Hs Hin%elem_of_map_to_list]%list_elem_of_filter). eauto.
  - intros (r & Hr & Hs). exists (id, r). split; [done|]. apply list_elem_of_filter.
    by rewrite elem_of_map_to_list.
Qed.

Lemma is_sibling_true org cid fid id r :
  is_sibling org cid fid (id, r) = true ↔
  id ≠ cid ∧ cc_OrgID (cr_Metadata r) = org ∧ pv_FamilyID (cc_Provenance (cr_Metadata r)) = fid ∧
  cc_RevokedAt (cr_Metadata r) = None.
Proof.
  unfold is_sibling. cbn [fst snd].
  rewrite negb_true_iff, !orb_false_iff, !negb_false_iff, !bool_decide_eq_true, !bool_decide_eq_false.
  rewrite <-eq_None_not_Some. tauto.
Qed.

Lemma lookup_revoke_all now ids (m : gmap string CredentialRecord) k :
  foldr (λ id m, alter (revoke_record now) id m) m ids !! k =
  (if decide (k ∈ ids) then revoke_record now <$> m !! k else m !! k).
Proof.
  induction ids as [|id ids IH]; [by rewrite decide_False by set_solver|]. cbn [foldr].
  destruct (decide (k = id)) as [->|Hne].
  - rewrite lookup_alter_eq, IH, (decide_True (P := id ∈ id :: ids)) by set_solver.
    destruct (decide (id ∈ ids)); [|done]. by destruct (m !! id).
  - rewrite lookup_alter_ne, IH by done.
    destruct (decide (k ∈ ids)), (decide (k ∈ id :: ids)); set_solver.
Qed.

Definition revoked_ids (input : RevocationInput) (record : CredentialRecord)
    (m : gmap string CredentialRecord) : list string :=
  vi_CredentialID input ::
  match browserFamilyOf (cr_Metadata record) with
  | Some familyID => siblings (vi_OrgID input) (vi_CredentialID input) familyID m
  | None => []
  end.

Lemma revoke_spec input w r w' :
  revokeCredential input w = (r, w') →
  (∃ now record,
     cs_byID w.2 !! vi_CredentialID input = Some record ∧
     cc_OrgID (cr_Metadata record) = vi_OrgID input ∧ cc_RevokedAt (cr_Metadata record) = None ∧
     r = Ok (cr_Metadata (revoke_record now record)) ∧
     let ids := revoked_ids input record (cs_byID w.2) in
     cs_byID w'.2 = foldr (λ id m, alter (revoke_record now) id m) (cs_byID w.2) ids ∧
     cs_byHash w'.2 = cs_byHash w.2 ∧ as_events (cs_audit w.2) `prefix_of` as_events (cs_audit w'.2) ∧
     cs_rows w.2 `prefix_of` cs_rows w'.2 ∧
     (stream_ok (cs_rows w.2) →
      (∀ id member, cs_byID w.2 !! id = Some member → cc_CredentialID (cr_Metadata member) = id) →
      stream_ok (cs_rows w'.2) ∧ effect ids ids (cs_rows w.2) (cs_rows w'.2))) ∨
  (∃ e, r = Err e ∧ w'.2 = w.2).
Proof.
  unfold revokeCredential, ready. intros Hrun.
  apply bind_ctx in Hrun as [?|(e1 & Hrun)]; [by right|].
  apply bind_ctx in Hrun as [?|(e2 & Hrun)]; [by right|]. rewrite bind_get in Hrun. cbn [snd] in Hrun.
  destruct (cs_byID w.2 !! vi_CredentialID input) as [record|] eqn:Hrec;
    [|injection Hrun as <- <-; failed].
  case_bool_decide as Horg; cbn [negb] in Hrun; [|injection Hrun as <- <-; failed].
  case_bool_decide as Hrev; [injection Hrun as <- <-; failed|].
  apply bind_now in Hrun as (now & e3 & Hrun). rewrite with_len in Hrun. cbn [snd] in Hrun.
  unfold bind at 1 in Hrun. cbn [on_audit zoom eventCount get ret bind fst snd] in Hrun.
  change (cs_set_audit (cs_audit w.2) w.2) with (Store (cs_audit w.2) (cs_byID w.2) (cs_byHash w.2)) in Hrun.
  replace (Store (cs_audit w.2) (cs_byID w.2) (cs_byHash w.2)) with w.2 in Hrun by (by destruct w.2).
  fold (revoked_ids input record (cs_byID w.2)) in Hrun.
  assert (∀ id, id ∈ revoked_ids input record (cs_byID w.2) → is_Some (cs_byID w.2 !! id)) as Hids.
  { intros id [->|Hin]%elem_of_cons; [by eauto|]. case_match; [|set_solver].
    apply elem_of_siblings in Hin as (? & ? & _). eauto. }
  assert (∀ s, extends s s) as Hrefl by (by split).
  apply bind_res_inv in Hrun as [(u & w1 & H1 & H2)|[(e & -> & H1)|[-> H1]]];
    apply (revoke_steps _ _ _ _ (λ id, if bool_decide (id = vi_CredentialID input)
      then RevocationActor input else FamilyMemberActor (RevocationActor input))) in H1
      as [(Hr & Hext & Heff)|(e' & Hr & Hw1)]; try done; [|right; eauto..].
  injection H2 as <- <-. left. exists now, record. cbn in Hext, Heff. destruct Hext.
  split_and!; try done; [by apply eq_None_not_Some|]. cbn. by rewrite ext_byID0.
Qed.

(** ** The invariant *)

(** The hash index and the records name each other, every stored credential has
    an open outbox stream and no other has one, and a stream ends in a terminal
    event exactly when its credential is revoked. *)
Record store_ok (s : credentialStore) : Prop := {
  ok_key : ∀ id r, cs_byID s !! id = Some r →
    cc_CredentialID (cr_Metadata r) = id ∧ cs_byHash s !! cr_TokenHash r = Some id;
  ok_hash : ∀ h id, cs_byHash s !! h = Some id → ∃ r, cs_byID s !! id = Some r ∧ cr_TokenHash r = h;
  ok_stream : stream_ok (cs_rows s);
  ok_opened : ∀ id, stream id (cs_rows s) ≠ [] ↔ is_Some (cs_byID s !! id);
  ok_revoked : ∀ id, terminated id (cs_rows s) ↔
    ∃ r, cs_byID s !! id = Some r ∧ is_Some (cc_RevokedAt (cr_Metadata r));
}.

Lemma not_opened_not_terminated id rows : stream id rows = [] → ¬ terminated id rows.
Proof. unfold terminated. by intros ->. Qed.

Lemma create_keeps input w r w' :
  createCredential input w = (r, w') → store_ok w.2 → store_ok w'.2.
Proof.
  intros Hrun [Hkey Hhash Hst Hop Hrv].
  apply create_spec in Hrun as [(now & -> & Hid & Hh & _ & [Eid Ehash _ _ Heff])|(e & -> & ->)]; [|done].
  destruct (Heff Hst) as [Hst' He]. split; rewrite ?Eid, ?Ehash.
  - intros id rec [[<- <-]|[Hne Hl]]%lookup_insert_Some; [by rewrite lookup_insert_eq|].
    destruct (Hkey _ _ Hl) as [? Hx]. split; [done|]. rewrite lookup_insert_ne; [done|]. congruence.
  - intros h id [[<- <-]|[Hne Hl]]%lookup_insert_Some.
    + eexists. by rewrite lookup_insert_eq.
    + destruct (Hhash _ _ Hl) as (rec & Hr & ?). exists rec. rewrite lookup_insert_ne; [done|]. congruence.
  - done.
  - intros id. rewrite (proj2 (He id)), Hop, lookup_insert_is_Some, list_elem_of_singleton.
    destruct (decide (ci_CredentialID input = id)); naive_solver.
  - intros id. rewrite (proj1 (He id)), Hrv. split.
    + intros [(rec & Hr & ?)|[]%elem_of_nil]. exists rec. rewrite lookup_insert_ne; [done|]. congruence.
    + intros (rec & [[<- <-]|[Hne Hl]]%lookup_insert_Some & Hx); [by destruct Hx|]. left. eauto.
Qed.

(** Replacing a record by one with the same id and token hash. *)
Lemma update_index (m : gmap string CredentialRecord) (hs : gmap string string) k r r' :
  (∀ id r, m !! id = Some r → cc_CredentialID (cr_Metadata r) = id ∧ hs !! cr_TokenHash r = Some id) →
  (∀ h id, hs !! h = Some id → ∃ r, m !! id = Some r ∧ cr_TokenHash r = h) →
  m !! k = Some r → cc_CredentialID (cr_Metadata r') = k → cr_TokenHash r' = cr_TokenHash r →
  (∀ id r, <[k := r']> m !! id = Some r →
     cc_CredentialID (cr_Metadata r) = id ∧ hs !! cr_TokenHash r = Some id) ∧
  (∀ h id, hs !! h = Some id → ∃ r, <[k := r']> m !! id = Some r ∧ cr_TokenHash r = h).
Proof.
  intros Hkey Hhash Hk Hid Hth. split.
  - intros id x [[<- <-]|[Hne Hl]]%lookup_insert_Some; [|by apply Hkey].
    split; [done|]. rewrite Hth. by apply Hkey.
  - intros h id (x & Hx & Hxh)%Hhash. destruct (decide (id = k)) as [->|].
    + exists r'. rewrite lookup_insert_eq. split; [done|]. congruence.
    + exists x. by rewrite lookup_insert_ne.
Qed.

Lemma rollback_keeps input w r w' :
  rollbackCredentialRotation input w = (r, w') → store_ok w.2 → store_ok w'.2.
Proof.
  intros Hrun [Hkey Hhash Hst Hop Hrv].
  apply rollback_spec in Hrun
    as [(now & src & suc & _ & Hsuc & _ & _ & _ & [Eid Ehash _ _ Heff])|(e & -> & ->)]; [|done].
  destruct (Hkey _ _ Hsuc) as [Hid _]. rewrite Hid in *.
  destruct (Heff Hst) as [Hst' He].
  destruct (update_index (cs_byID w.2) (cs_byHash w.2) (bi_SuccessorCredentialID input) suc
    (revoke_record now suc) Hkey Hhash Hsuc Hid eq_refl) as [Hkey' Hhash'].
  split; rewrite ?Eid, ?Ehash; [done..| |].
  - intros id. rewrite (proj2 (He id)), Hop, lookup_insert_is_Some, list_elem_of_singleton.
    destruct (decide (bi_SuccessorCredentialID input = id)) as [<-|]; naive_solver.
  - intros id. rewrite (proj1 (He id)), Hrv, list_elem_of_singleton. split.
    + intros [(rec & Hr & ?)| ->]; [|eexists; by rewrite lookup_insert_eq].
      destruct (decide (id = bi_SuccessorCredentialID input)) as [->|];
        [eexists; by rewrite lookup_insert_eq|]. exists rec. by rewrite lookup_insert_ne.
    + intros (rec & [[<- <-]|[Hne Hl]]%lookup_insert_Some & Hx); [by right|]. left. eauto.
Qed.

Lemma retire_source_fields now until old :
  cc_CredentialID (cr_Metadata (retire_source now until old)) = cc_CredentialID (cr_Metadata old) ∧
  cr_TokenHash (retire_source now until old) = cr_TokenHash old ∧
  (cc_RevokedAt (cr_Metadata old) = None →
   (is_Some (cc_RevokedAt (cr_Metadata (retire_source now until old))) ↔ immediate now until = true)).
Proof.
  unfold retire_source, immediate. repeat case_match; cbn in *; split_and!; try done;
    intros Hn; rewrite ?Hn; split; try done; by intros [].
Qed.

Lemma rotate_keeps input w r w' :
  rotateCredential input w = (r, w') → store_ok w.2 → store_ok w'.2.
Proof.
  intros Hrun [Hkey Hhash Hst Hop Hrv]. apply rotate_spec in Hrun
    as [(now & old & Hold & _ & _ & Hnrev & _ & Hid & Hh & _ & [Eid Ehash _ _ Heff])|(e & -> & ->)];
    [|done].
  destruct (Hkey _ _ Hold) as [Hoid _]. rewrite Hoid in *. destruct (Heff Hst) as [Hst' He].
  set (src := ri_SourceCredentialID input) in *. set (rp := ri_Replacement input) in *.
  set (until := overlapExpiry now (rr_Overlap rp)) in *.
  destruct (retire_source_fields now until old) as (Hrid & Hrh & Hrr). specialize (Hrr Hnrev).
  rewrite Hoid in Hrid.
  destruct (update_index _ _ src old (retire_source now until old) Hkey Hhash Hold Hrid Hrh)
    as [Hkey' Hhash'].
  assert (rr_CredentialID rp ≠ src) as Hne by congruence.
  split; rewrite ?Eid, ?Ehash.
  - intros id rec [[<- <-]|[Hne' Hl]]%lookup_insert_Some; [by rewrite lookup_insert_eq|].
    destruct (Hkey' _ _ Hl) as [? Hx]. split; [done|]. rewrite lookup_insert_ne; [done|]. congruence.
  - intros h id [[<- <-]|[Hne' Hl]]%lookup_insert_Some; [eexists; by rewrite lookup_insert_eq|].
    destruct (Hhash' _ _ Hl) as (rec & Hr & ?). exists rec. rewrite lookup_insert_ne; [done|].
    intros <-. rewrite lookup_insert_ne in Hr by done. congruence.
  - done.
  - intros id. rewrite (proj2 (He id)), Hop, !lookup_insert_is_Some, !elem_of_cons, elem_of_nil.
    destruct (decide (rr_CredentialID rp = id)), (decide (src = id)); naive_solver.
  - intros id. rewrite (proj1 (He id)), Hrv. split.
    + intros [(rec & Hr & ?)|Hin].
      * exists rec. rewrite lookup_insert_ne by congruence. destruct (decide (id = src)) as [->|].
        -- assert (rec = old) as -> by congruence. by rewrite Hnrev in *.
        -- by rewrite lookup_insert_ne.
      * destruct (immediate now until) eqn:Ei; cbn in Hin; [|set_solver].
        apply list_elem_of_singleton in Hin as ->. eexists. rewrite lookup_insert_ne by done.
        rewrite lookup_insert_eq. split; [done|]. by apply Hrr.
    + intros (rec & [[<- <-]|[Hne' Hl]]%lookup_insert_Some & Hx); [by destruct Hx|].
      apply lookup_insert_Some in Hl as [[<- <-]|[Hne2 Hl]]; [|left; eauto].
      right. apply Hrr in Hx as ->. by apply list_elem_of_singleton.
Qed.

Lemma revoke_keeps input w r w' :
  revokeCredential input w = (r, w') → store_ok w.2 → store_ok w'.2.
Proof.
  intros Hrun [Hkey Hhash Hst Hop Hrv]. apply revoke_spec in Hrun
    as [(now & record & Hrec & _ & _ & _ & Eid & Ehash & _ & _ & Heff)|(e & -> & ->)]; [|done].
  destruct (Heff Hst (λ id m Hm, proj1 (Hkey id m Hm))) as [Hst' He].
  assert (∀ id, id ∈ revoked_ids input record (cs_byID w.2) → is_Some (cs_byID w.2 !! id)) as Hids.
  { intros id [->|Hin]%elem_of_cons; [by eauto|]. case_match; [|set_solver].
    apply elem_of_siblings in Hin as (? & ? & _). eauto. }
  set (ids := revoked_ids _ _ _) in *. split; rewrite ?Ehash, ?Eid.
  - intros id rec. rewrite lookup_revoke_all. case_decide; [|by apply Hkey].
    intros (x & Hx & ->)%fmap_Some. apply (Hkey _ _ Hx).
  - intros h id (x & Hx & ?)%Hhash. rewrite lookup_revoke_all. case_decide; [|eauto].
    rewrite Hx. eexists. by split.
  - done.
  - intros id. rewrite (proj2 (He id)), Hop, lookup_revoke_all. case_decide; [|naive_solver].
    rewrite fmap_is_Some. naive_solver.
  - intros id. rewrite (proj1 (He id)), Hrv, lookup_revoke_all. case_decide as Hin; [|naive_solver].
    split; [intros _|by right]. destruct (Hids id Hin) as [x Hx]. rewrite Hx. eexists. by split.
Qed.

Lemma touch_keeps org id ip ua used w r w' :
  TouchLastUsed org id ip ua used w = (r, w') → store_ok w.2 → store_ok w'.2.
Proof.
  unfold TouchLastUsed, ready. intros Hrun Hok.
  apply bind_ctx in Hrun as [(? & _ & ->)|(e1 & Hrun)]; [done|].
  apply bind_ctx in Hrun as [(? & _ & ->)|(e2 & Hrun)]; [done|]. rewrite bind_get in Hrun. cbn [snd] in Hrun.
  destruct (cs_byID w.2 !! id) as [rec|] eqn:Hrec; [|by injection Hrun as <- <-].
  case_match; [by injection Hrun as <- <-|]. case_match; [|by injection Hrun as <- <-].
  injection Hrun as <- <-. destruct Hok as [Hkey Hhash Hst Hop Hrv]. cbn.
  destruct (Hkey _ _ Hrec) as [Hid _].
  destruct (update_index _ _ id rec (CredRecord (cc_set_LastUsedAt (Some used) (cr_Metadata rec))
    (cr_TokenHash rec) (cr_CreatedBy rec) (cr_RotatedAt rec) ip ua (cr_IssuanceProvenance rec))
    Hkey Hhash Hrec Hid eq_refl) as [Hkey' Hhash'].
  split; [done..| |]; cbn.
  - intros k. rewrite Hop, lookup_insert_is_Some. destruct (decide (id = k)) as [<-|]; naive_solver.
  - intros k. rewrite Hrv. destruct (decide (k = id)) as [->|].
    + rewrite lookup_insert_eq, Hrec. naive_solver.
    + by rewrite lookup_insert_ne.
Qed.
End proofs.
