(* ===== verification/CredentialTheorems.v ===== *)
(** * CredentialTheorems: the guarantees of the credential store

    Runs of the store are sequences of the operations below.  The theorems: the
    invariant holds in every reachable state, a failed operation changes
    nothing, no operation panics, records only evolve towards retirement, a
    token hash finds only a live credential, a revoked credential is never
    found again, a browser family is revoked as one, a rotation hands on the
    provenance, and a rollback undoes only a recorded rotation. *)

From Stdlib Require Import ZArith Lia Ascii.
From stdpp Require Import sorting pretty numbers gmap strings list_numbers list.
From S2P Require Import Prelude GoStrings GoText CredTypes Outbox AuditStore CredentialStore CredentialStoreProofs.

Open Scope Z_scope.

(** ** Runs *)

Inductive cred_op :=
  | OpCreate (input : CreateInput)
  | OpRotate (input : RotationInput)
  | OpRevoke (input : RevocationInput)
  | OpRollback (input : RotationRollbackInput)
  | OpTouch (orgID credentialID ip userAgent : string) (usedAt : time)
  | OpList (order : list string) (orgID : string)
  | OpGet (orgID credentialID : string)
  | OpFind (tokenHash : string)
  | OpRecord (h : heap) (event : AuditEvent) (metadata : option mval).

Section theorems.
Context `{UUIDLib}.

Definition exec (op : cred_op) : go credentialStore () :=
  match op with
  | OpCreate input => discard (createCredential input)
  | OpRotate input => discard (rotateCredential input)
  | OpRevoke input => discard (revokeCredential input)
  | OpRollback input => discard (rollbackCredentialRotation input)
  | OpTouch org id ip ua used => TouchLastUsed org id ip ua used
  | OpList order org => discard (List_ order org)
  | OpGet org id => discard (GetByID org id)
  | OpFind h => discard (FindByTokenHash h)
  | OpRecord h ev md => on_audit (Record_ h ev md)
  end.

(** One step: an operation run in some environment. *)
Inductive step (s : credentialStore) : credentialStore → Prop :=
  | step_op op e r e' s' : exec op (e, s) = (r, (e', s')) → step s s'.

Inductive steps : credentialStore → credentialStore → Prop :=
  | steps_refl s : steps s s
  | steps_step s1 s2 s3 : steps s1 s2 → step s2 s3 → steps s1 s3.

Definition initial : credentialStore := Store (MkAuditStore [] Ledger.NewLedger true) ∅ ∅.

(** ** Reads leave the state alone *)

Lemma readonly_List order org : readonly (List_ order org).
Proof. unfold List_, ready. go_struct. Qed.
Lemma readonly_GetByID org id : readonly (GetByID org id).
Proof. unfold GetByID, ready. go_struct. Qed.
Lemma readonly_FindByTokenHash h : readonly (FindByTokenHash h).
Proof. unfold FindByTokenHash, ready. go_struct. Qed.

(** Recording an audit event of another kind touches the trail only. *)
Lemma record_only_audit h ev md w r w' :
  on_audit (Record_ h ev md) w = (r, w') →
  cs_byID w'.2 = cs_byID w.2 ∧ cs_byHash w'.2 = cs_byHash w.2 ∧ cs_rows w'.2 = cs_rows w.2 ∧
  (∀ e, r = Err e → w'.2 = w.2).
Proof.
  unfold on_audit, zoom. destruct (Record_ h ev md (w.1, cs_audit w.2)) as [r0 [e0 a0]] eqn:E.
  intros [= <- <-]. cbn. split; [done|]. split; [done|].
  assert (as_ledger a0 = as_ledger (cs_audit w.2) ∧ (∀ e, r0 = Err e → a0 = cs_audit w.2)) as [Hl He].
  { unfold Record_ in E.
    apply bind_ctx in E as [(e1 & -> & Hw)|(e1 & E)]; [cbn in Hw; by subst|].
    case_match; [injection E as <- <- <-; done|]. rewrite bind_get in E. cbn [snd] in E.
    apply bind_res_inv in E as [(u & w1 & E1 & E)|Hf].
    - assert (w1.2 = cs_audit w.2) as Hw1.
      { destruct (as_bound _); [by eapply readonly_ctx in E1|by injection E1 as _ <-]. }
      apply bind_ctx in E as [(e2 & -> & Hw)|(e2 & E)]; [cbn in Hw; by rewrite Hw, Hw1|].
      unfold recordLocked, lift_res, bind, modify in E. rewrite Hw1 in E.
      destruct (default Panic (cloneMetadata h md)); injection E as <- <- <-; done.
    - assert (a0 = cs_audit w.2) as ->; [|done].
      destruct (as_bound _); destruct Hf as [(e2 & -> & E1)|[-> E1]];
        try done; by apply readonly_ctx in E1. }
  unfold cs_rows. cbn. rewrite Hl. split; [done|]. intros e Hr. rewrite (He _ Hr). by destruct w.2.
Qed.

Lemma store_ok_ext s s' :
  cs_byID s' = cs_byID s → cs_byHash s' = cs_byHash s → cs_rows s' = cs_rows s →
  store_ok s → store_ok s'.
Proof. intros E1 E2 E3 []. by split; rewrite ?E1, ?E2, ?E3. Qed.

Lemma exec_keeps op w r w' : exec op w = (r, w') → store_ok w.2 → store_ok w'.2.
Proof.
  intros Hrun Hok. destruct op; cbn in Hrun; try apply discard_inv in Hrun as (r0 & Hrun & _).
  - by eapply create_keeps.
  - by eapply rotate_keeps.
  - by eapply revoke_keeps.
  - by eapply rollback_keeps.
  - by eapply touch_keeps.
  - by rewrite (readonly_List _ _ _ _ _ Hrun).
  - by rewrite (readonly_GetByID _ _ _ _ _ Hrun).
  - by rewrite (readonly_FindByTokenHash _ _ _ _ Hrun).
  - apply record_only_audit in Hrun as (? & ? & ? & _). by eapply store_ok_ext.
Qed.

Lemma initial_ok : store_ok initial.
Proof.
  split; cbn.
  - intros id r. by rewrite lookup_empty.
  - intros h id. by rewrite lookup_empty.
  - intros a. apply contiguous_nil.
  - intros id. rewrite lookup_empty. split; [done|by intros []].
  - intros id. split; [done|]. intros (r & Hr & _). by rewrite lookup_empty in Hr.
Qed.

Lemma steps_keep s s' : steps s s' → store_ok s → store_ok s'.
Proof.
  induction 1 as [|s1 s2 s3 _ IH [op e r e' s' Hrun]]; [done|]. intros Hok.
  by apply (exec_keeps _ _ _ _ Hrun), IH.
Qed.

(** C1: in every state that operations can reach from an empty store, the hash
    index and the records agree, every credential has its outbox stream, and
    the stream of a credential is closed by a terminal event exactly when the
    stored credential is revoked: the published lifecycle never disagrees with
    the store. *)
Theorem reachable_store_ok s : steps initial s → store_ok s.
Proof. intros Hs. by eapply steps_keep, initial_ok. Qed.

(** C2: an operation that returns an error, a mutation cut off at any of its
    context checks included, leaves the store, the audit trail and the outbox
    exactly as they were. *)
Theorem failed_op_changes_nothing op w e w' : exec op w = (Err e, w') → w'.2 = w.2.
Proof.
  intros Hrun. destruct op; cbn in Hrun;
    try (apply discard_inv in Hrun as (r0 & Hrun & Hr); destruct r0; [done| |done]).
  - by apply create_spec in Hrun as [(? & ? & _)|(? & _ & ?)].
  - by apply rotate_spec in Hrun as [(? & ? & _ & _ & _ & _ & _ & _ & _ & ? & _)|(? & _ & ?)].
  - by apply revoke_spec in Hrun as [(? & ? & _ & _ & _ & ? & _)|(? & _ & ?)].
  - by apply rollback_spec in Hrun as [(? & ? & ? & _ & _ & _ & ? & _)|(? & _ & ?)].
  - unfold TouchLastUsed, ready in Hrun.
    apply bind_ctx in Hrun as [(? & _ & ?)|(e1 & Hrun)]; [done|].
    apply bind_ctx in Hrun as [(? & _ & ?)|(e2 & Hrun)]; [done|].
    rewrite bind_get in Hrun. repeat case_match; first [discriminate Hrun|by injection Hrun as _ <-].
  - by eapply readonly_List.
  - by eapply readonly_GetByID.
  - by eapply readonly_FindByTokenHash.
  - apply record_only_audit in Hrun as (_ & _ & _ & Hn). by eapply Hn.
Qed.

(** ** Records only evolve towards retirement *)

Definition le_expiry (new old : option time) : Prop :=
  match old with None => True | Some e => ∃ e', new = Some e' ∧ e' ≤ e end.

(** What may change in a record: a revocation or rotation time may be set once,
    an expiry may come closer, the last use may move forward. *)
Record evolves (r r' : CredentialRecord) : Prop := {
  ev_id : cc_CredentialID (cr_Metadata r') = cc_CredentialID (cr_Metadata r);
  ev_org : cc_OrgID (cr_Metadata r') = cc_OrgID (cr_Metadata r);
  ev_hash : cr_TokenHash r' = cr_TokenHash r;
  ev_prefix : cc_TokenPrefix (cr_Metadata r') = cc_TokenPrefix (cr_Metadata r);
  ev_scopes : cc_Scopes (cr_Metadata r') = cc_Scopes (cr_Metadata r);
  ev_repos : cc_RepositoryScopes (cr_Metadata r') = cc_RepositoryScopes (cr_Metadata r);
  ev_created : cc_CreatedAt (cr_Metadata r') = cc_CreatedAt (cr_Metadata r);
  ev_binding : cc_WorkloadBindingID (cr_Metadata r') = cc_WorkloadBindingID (cr_Metadata r);
  ev_resource : cc_Resource (cr_Metadata r') = cc_Resource (cr_Metadata r);
  ev_provenance : cc_Provenance (cr_Metadata r') = cc_Provenance (cr_Metadata r);
  ev_revoked : is_Some (cc_RevokedAt (cr_Metadata r)) →
    cc_RevokedAt (cr_Metadata r') = cc_RevokedAt (cr_Metadata r);
  ev_rotated : is_Some (cr_RotatedAt r) → cr_RotatedAt r' = cr_RotatedAt r;
  ev_expiry : le_expiry (cc_ExpiresAt (cr_Metadata r')) (cc_ExpiresAt (cr_Metadata r));
  ev_used : ∀ t, cc_LastUsedAt (cr_Metadata r) = Some t →
    ∃ t', cc_LastUsedAt (cr_Metadata r') = Some t' ∧ t ≤ t';
}.

Lemma le_expiry_refl e : le_expiry e e.
Proof. destruct e; cbn; eauto with lia. Qed.

#[global] Instance evolves_preorder : PreOrder evolves.
Proof.
  split.
  - intros r. split; try done; [apply le_expiry_refl|eauto with lia].
  - intros r1 r2 r3 H1 H2. destruct H1, H2. split; try congruence.
    + intros Hs. rewrite ev_revoked1 by (by rewrite ev_revoked0). auto.
    + intros Hs. rewrite ev_rotated1 by (by rewrite ev_rotated0). auto.
    + unfold le_expiry in *. destruct (cc_ExpiresAt (cr_Metadata r1)) as [x|]; [|done].
      destruct ev_expiry0 as (y & Hy & ?). rewrite Hy in ev_expiry1.
      destruct ev_expiry1 as (z & -> & ?). exists z. split; [done|lia].
    + intros t Ht. destruct (ev_used0 _ Ht) as (t2 & Ht2 & ?), (ev_used1 _ Ht2) as (t3 & ? & ?).
      exists t3. split; [done|lia].
Qed.

Lemma evolves_revoke now r : cc_RevokedAt (cr_Metadata r) = None → evolves r (revoke_record now r).
Proof.
  intros Hn. split; try done; cbn; [rewrite Hn; by intros []|apply le_expiry_refl|eauto with lia].
Qed.

Lemma evolves_retire now until r :
  cc_RevokedAt (cr_Metadata r) = None → cr_RotatedAt r = None → evolves r (retire_source now until r).
Proof.
  intros Hn Hr. unfold retire_source.
  assert (¬ is_Some (cc_RevokedAt (cr_Metadata r))) as Hn' by (rewrite Hn; by intros []).
  assert (¬ is_Some (cr_RotatedAt r)) as Hr' by (rewrite Hr; by intros []).
  pose proof (le_expiry_refl (cc_ExpiresAt (cr_Metadata r))) as Hle.
  destruct until as [t|]; [|split; cbn; (done || eauto with lia)].
  case_match; [split; cbn; (done || eauto with lia)|].
  destruct (cc_ExpiresAt (cr_Metadata r)) as [e|] eqn:Ee;
    [|split; cbn; rewrite ?Ee; (done || eauto with lia)].
  destruct (time_Before t e) eqn:Et; split; cbn; rewrite ?Ee; try done; eauto with lia.
  apply bool_decide_eq_true in Et. exists t. split; [done|lia].
Qed.

Lemma evolves_insert (m : gmap string CredentialRecord) k r r' :
  m !! k = Some r → evolves r r' →
  ∀ id x, m !! id = Some x → ∃ x', <[k := r']> m !! id = Some x' ∧ evolves x x'.
Proof.
  intros Hk He id x Hx. destruct (decide (id = k)) as [->|].
  - exists r'. rewrite lookup_insert_eq. split; [done|]. congruence.
  - exists x. by rewrite lookup_insert_ne.
Qed.

Lemma evolves_fresh (m : gmap string CredentialRecord) k r' :
  m !! k = None → ∀ id x, m !! id = Some x → ∃ x', <[k := r']> m !! id = Some x' ∧ evolves x x'.
Proof. intros Hk id x Hx. exists x. rewrite lookup_insert_ne by congruence. done. Qed.

Lemma evolves_same s s' :
  cs_byID s' = cs_byID s →
  ∀ id x, cs_byID s !! id = Some x → ∃ x', cs_byID s' !! id = Some x' ∧ evolves x x'.
Proof. intros -> id x Hx. by exists x. Qed.

Lemma exec_evolves op w r w' :
  exec op w = (r, w') → store_ok w.2 →
  ∀ id x, cs_byID w.2 !! id = Some x → ∃ x', cs_byID w'.2 !! id = Some x' ∧ evolves x x'.
Proof.
  intros Hrun Hok.
  destruct op; cbn in Hrun; try apply discard_inv in Hrun as (r0 & Hrun & _).
  - apply create_spec in Hrun as [(now & _ & Hid & _ & _ & [Eid _ _ _ _])|(e & _ & ->)];
      [|by apply evolves_same]. rewrite Eid. by apply evolves_fresh.
  - apply rotate_spec in Hrun
      as [(now & old & Ho & _ & Hrt & Hrv & _ & Hid & _ & _ & [Eid _ _ _ _])|(e & _ & ->)];
      [|by apply evolves_same]. rewrite Eid. intros id x Hx.
    destruct (evolves_insert _ _ _ _ Ho (evolves_retire now (overlapExpiry now (rr_Overlap (ri_Replacement input))) _ Hrv Hrt) _ _ Hx) as (x' & Hx' & He).
    exists x'. split; [|done]. rewrite lookup_insert_ne; [done|]. congruence.
  - apply revoke_spec in Hrun
      as [(now & rec & Hrec & _ & Hn & _ & Eid & _)|(e & _ & ->)]; [|by apply evolves_same].
    rewrite Eid. intros id x Hx. rewrite lookup_revoke_all, Hx. case_decide as Hin; [|by exists x].
    exists (revoke_record now x). split; [done|]. apply evolves_revoke.
    apply elem_of_cons in Hin as [->|Hin]; [congruence|]. case_match; [|set_solver].
    apply elem_of_siblings in Hin as (y & Hy & Hs). apply is_sibling_true in Hs as (_ & _ & _ & ?).
    congruence.
  - apply rollback_spec in Hrun
      as [(now & src & suc & _ & Hs & _ & _ & Hg & [Eid _ _ _ _])|(e & _ & ->)]; [|by apply evolves_same].
    rewrite Eid. destruct (ok_key _ Hok _ _ Hs) as [-> _]. eapply evolves_insert; [done|].
    apply evolves_revoke. unfold rollback_refused in Hg. rewrite !orb_false_iff in Hg.
    apply eq_None_not_Some. by destruct Hg as [[[[[[_ ?%bool_decide_eq_false] _] _] _] _] _].
  - unfold TouchLastUsed, ready in Hrun.
    apply bind_ctx in Hrun as [(? & _ & ->)|(e1 & Hrun)]; [by apply evolves_same|].
    apply bind_ctx in Hrun as [(? & _ & ->)|(e2 & Hrun)]; [by apply evolves_same|].
    rewrite bind_get in Hrun. cbn [snd] in Hrun.
    destruct (cs_byID w.2 !! credentialID) as [rec|] eqn:Hrec;
      [|injection Hrun as _ <-; by apply evolves_same].
    case_match; [injection Hrun as _ <-; by apply evolves_same|].
    case_match eqn:Hnew; injection Hrun as _ <-; [|by apply evolves_same]. cbn.
    eapply evolves_insert; [done|]. split; try done; cbn; [apply le_expiry_refl|].
    intros t Ht. rewrite Ht in Hnew. apply bool_decide_eq_true in Hnew. eauto with lia.
  - rewrite (readonly_List _ _ _ _ _ Hrun). by apply evolves_same.
  - rewrite (readonly_GetByID _ _ _ _ _ Hrun). by apply evolves_same.
  - rewrite (readonly_FindByTokenHash _ _ _ _ Hrun). by apply evolves_same.
  - apply record_only_audit in Hrun as (? & _). by apply evolves_same.
Qed.

Lemma steps_evolve s s' : steps s s' → store_ok s →
  ∀ id x, cs_byID s !! id = Some x → ∃ x', cs_byID s' !! id = Some x' ∧ evolves x x'.
Proof.
  induction 1 as [|s1 s2 s3 Hs IH [op e r e' s' Hrun]]; intros Hok id x Hx; [by exists x|].
  destruct (IH Hok _ _ Hx) as (y & Hy & He1).
  destruct (exec_evolves _ _ _ _ Hrun (steps_keep _ _ Hs Hok) _ _ Hy) as (z & Hz & He2).
  exists z. split; [done|]. by etrans.
Qed.

(** C3: along any run, a stored credential is never removed, and its id,
    organization, token, permissions, binding and issuance provenance never
    change; a revocation or rotation time, once set, stays as it is, an expiry
    only ever comes closer, and the last use only moves forward. *)
Theorem records_only_retire s s' id x :
  steps initial s → steps s s' → cs_byID s !! id = Some x →
  ∃ x', cs_byID s' !! id = Some x' ∧ evolves x x'.
Proof. intros Hr Hs. by apply steps_evolve, (steps_keep _ _ Hr), initial_ok. Qed.

Lemma find_inv h w c w' :
  FindByTokenHash h w = (Ok c, w') →
  ∃ id r, cs_byHash w.2 !! h = Some id ∧ cs_byID w.2 !! id = Some r ∧ c = cr_Metadata r ∧
    cc_RevokedAt c = None ∧ expired_at (clock w.1) (cc_ExpiresAt c) = false.
Proof.
  unfold FindByTokenHash, ready. intros Hrun.
  apply bind_ctx_Ok in Hrun as (e1 & Hc1 & Hrun). apply bind_ctx_Ok in Hrun as (e2 & Hc2 & Hrun).
  rewrite bind_get in Hrun. cbn [snd fst] in *.
  destruct (cs_byHash w.2 !! h) as [id|] eqn:Hid; [|done].
  match type of Hrun with bind now ?k ?w = _ => destruct (bind_now_clock k w) as [e3 E3] end.
  rewrite E3 in Hrun. cbn [snd fst] in Hrun. rewrite Hc2, Hc1 in Hrun.
  destruct (cs_byID w.2 !! id) as [r|] eqn:Hr; [|done].
  match type of Hrun with (if ?b then _ else _) _ = _ => destruct b eqn:Hg end; [done|].
  injection Hrun as <- <-. exists id, r.
  apply orb_false_iff in Hg as [Hg%bool_decide_eq_false Hx]. by rewrite <-eq_None_not_Some in Hg.
Qed.

(** Authentication by token hash is sound.  In a reachable store a lookup
    only returns the credential stored with exactly that token hash, and only
    when it is not revoked and its expiry, if any, is after the clock reading
    of the lookup. *)
Theorem find_only_live s e h c w' :
  steps initial s → FindByTokenHash h (e, s) = (Ok c, w') →
  ∃ r, cs_byID s !! cc_CredentialID c = Some r ∧ cr_Metadata r = c ∧ cr_TokenHash r = h ∧
    cc_RevokedAt c = None ∧ ∀ t, cc_ExpiresAt c = Some t → clock e < t.
Proof.
  intros Hs (id & r & Hh & Hr & -> & Hn & Hx)%find_inv.
  pose proof (steps_keep _ _ Hs initial_ok) as Hok. cbn in *.
  destruct (ok_key _ Hok _ _ Hr) as [Hid _]. destruct (ok_hash _ Hok _ _ Hh) as (r' & Hr' & Hth).
  exists r. rewrite Hid. split_and!; [done..|congruence|done|]. intros t Ht. rewrite Ht in Hx.
  by apply negb_false_iff, bool_decide_eq_true in Hx.
Qed.

(** Revocation is final.  Once a credential is revoked, no later operation,
    in any order and with any clock, makes its token hash find a credential
    again. *)
Theorem revoked_never_found s s' id r e a w' :
  steps initial s → cs_byID s !! id = Some r → is_Some (cc_RevokedAt (cr_Metadata r)) →
  steps s s' → FindByTokenHash (cr_TokenHash r) (e, s') ≠ (Ok a, w').
Proof.
  intros Hi Hr Hrev Hs (id' & x & Hh & Hx & -> & Hn & _)%find_inv. cbn in *.
  pose proof (steps_keep _ _ Hi initial_ok) as Hok. pose proof (steps_keep _ _ Hs Hok) as Hok'.
  destruct (steps_evolve _ _ Hs Hok _ _ Hr) as (r' & Hr' & Hev).
  destruct (ok_key _ Hok' _ _ Hr') as [_ Hh']. rewrite (ev_hash _ _ Hev), Hh in Hh'.
  assert (x = r') as -> by congruence. rewrite (ev_revoked _ _ Hev Hrev) in Hn. by rewrite Hn in Hrev; destruct Hrev.
Qed.

(** Revoking any member of a browser token family revokes the whole family:
    afterwards no credential of that organization with the family id is live,
    and credentials outside the family are untouched. *)
Theorem revoke_cascades input w c w' r fid :
  revokeCredential input w = (Ok c, w') →
  cs_byID w.2 !! vi_CredentialID input = Some r → browserFamilyOf (cr_Metadata r) = Some fid →
  ∀ id x', cs_byID w'.2 !! id = Some x' →
    if bool_decide (cc_OrgID (cr_Metadata x') = vi_OrgID input ∧
                    pv_FamilyID (cc_Provenance (cr_Metadata x')) = fid)
    then is_Some (cc_RevokedAt (cr_Metadata x')) else cs_byID w.2 !! id = Some x'.
Proof.
  intros Hrun Hr Hf id x'.
  apply revoke_spec in Hrun as [(now & rec & Hrec & Horg & _ & _ & Eid & _)|(e & ? & _)]; [|done].
  assert (rec = r) as -> by congruence. rewrite Eid, lookup_revoke_all. unfold revoked_ids. rewrite Hf.
  assert (pv_FamilyID (cc_Provenance (cr_Metadata r)) = fid) as Hfid
    by (revert Hf; unfold browserFamilyOf; case_match; naive_solver).
  case_decide as Hin.
  - intros (x & Hx & ->)%fmap_Some. rewrite bool_decide_true; [by eexists|]. cbn.
    apply elem_of_cons in Hin as [->|Hin]; [naive_solver|].
    apply elem_of_siblings in Hin as (y & Hy & (_ & ? & ? & _)%is_sibling_true). naive_solver.
  - intros Hx. case_bool_decide as Hm; [|done]. destruct Hm as [Ho Hfm].
    apply not_elem_of_cons in Hin as [Hne Hin].
    destruct (cc_RevokedAt (cr_Metadata x')) as [t|] eqn:E; [by eexists|]. destruct Hin.
    apply elem_of_siblings. exists x'. split; [done|]. by apply is_sibling_true.
Qed.

(** A rotation hands on what the credential is: the successor has the
    organization, resource and issuance provenance of its source whatever the
    request says, and the source is retired, revoked at once without an
    overlap, or otherwise left to expire no later than the end of the overlap
    and no later than it would have. *)
Theorem rotation_hands_on input w c w' :
  rotateCredential input w = (Ok c, w') →
  ∃ now old old', let until := now + rr_Overlap (ri_Replacement input) in
    cs_byID w.2 !! ri_SourceCredentialID input = Some old ∧
    cs_byID w'.2 !! ri_SourceCredentialID input = Some old' ∧
    cs_byID w'.2 !! rr_CredentialID (ri_Replacement input) =
      Some (CredRecord c (rr_TokenHash (ri_Replacement input)) (ri_ActorID input) None "" "" "") ∧
    cc_OrgID c = ri_OrgID input ∧ cc_Resource c = cc_Resource (cr_Metadata old) ∧
    cc_Provenance c = cc_Provenance (cr_Metadata old) ∧ cc_RevokedAt c = None ∧
    evolves old old' ∧ cr_RotatedAt old' = Some now ∧
    if bool_decide (rr_Overlap (ri_Replacement input) <= 0)
    then cc_RevokedAt (cr_Metadata old') = Some now
    else cc_RevokedAt (cr_Metadata old') = None ∧
         ∃ e, cc_ExpiresAt (cr_Metadata old') = Some e ∧ e ≤ until.
Proof.
  intros Hrun. apply rotate_spec in Hrun
    as [(now & old & Ho & Horg & Hrt & Hrv & _ & Hid & _ & [= ->] & [Eid _ _ _ _])|(e & ? & _)]; [|done].
  exists now, old, (retire_source now (overlapExpiry now (rr_Overlap (ri_Replacement input))) old).
  rewrite Eid, lookup_insert_eq. rewrite lookup_insert_ne, lookup_insert_eq by congruence.
  split_and!; try done; [by apply evolves_retire|].
  unfold retire_source, overlapExpiry. case_bool_decide as Hov; [done|].
  unfold time_After. rewrite bool_decide_true by (unfold time_Add; lia). cbn.
  assert (∀ e, e ≤ time_Add now (rr_Overlap (ri_Replacement input)) →
    cc_RevokedAt (cr_Metadata old) = None ∧ ∃ e', Some e = Some e' ∧
      e' ≤ now + rr_Overlap (ri_Replacement input)) as Hdone by (unfold time_Add; eauto).
  destruct (cc_ExpiresAt (cr_Metadata old)) as [x|] eqn:Ex; [|by apply Hdone].
  unfold time_Before. case_bool_decide as Hb; cbn; [by apply Hdone|].
  rewrite Ex. apply Hdone. lia.
Qed.

(** A rollback undoes one recorded rotation and nothing else.  It succeeds
    only before its deadline, only for a live source and a live, unrotated
    successor with equal permissions that a rotation event of the trail names
    as the replacement of that source; it revokes that successor, and every
    other record, the source first, is left as it was. *)
Theorem rollback_undoes_recorded input w c w' :
  rollbackCredentialRotation input w = (Ok c, w') → store_ok w.2 →
  ∃ now source successor,
    now < bi_RollbackUntil input ∧
    cs_byID w.2 !! bi_SourceCredentialID input = Some source ∧
    cs_byID w.2 !! bi_SuccessorCredentialID input = Some successor ∧
    existsb (rotation_names (bi_SourceCredentialID input) (bi_SuccessorCredentialID input))
      (as_events (cs_audit w.2)) = true ∧
    cc_RevokedAt (cr_Metadata source) = None ∧ cc_RevokedAt (cr_Metadata successor) = None ∧
    cr_RotatedAt successor = None ∧
    cc_Scopes (cr_Metadata source) = cc_Scopes (cr_Metadata successor) ∧
    c = cr_Metadata (revoke_record now successor) ∧
    cs_byID w'.2 = <[bi_SuccessorCredentialID input := revoke_record now successor]> (cs_byID w.2).
Proof.
  intros Hrun Hok. apply rollback_spec in Hrun
    as [(now & src & suc & Hsrc & Hsuc & Hdl & [= ->] & Hg & [Eid _ _ _ _])|(e & ? & _)]; [|done].
  destruct (ok_key _ Hok _ _ Hsrc) as [Hid1 _], (ok_key _ Hok _ _ Hsuc) as [Hid2 _].
  rewrite Hid1, Hid2 in *. exists now, src, suc. unfold rollback_refused in Hg.
  rewrite !orb_false_iff, !negb_false_iff, !bool_decide_eq_true, !bool_decide_eq_false in Hg.
  rewrite <-!eq_None_not_Some in Hg.
  destruct Hg as [[[[[[[[? ?] ?] ?] ?] ?] ?] ?] ?]. by split_and!.
Qed.

Lemma store_never_panics_aux op w w' :
  match op with OpRecord _ _ _ => True | _ => exec op w ≠ (Panic, w') end.
Proof.
  destruct op; try done; cbn; intros Hrun;
    try (apply discard_inv in Hrun as (r0 & Hrun & Hr); destruct r0; [done..|]).
  - by apply create_spec in Hrun as [(? & ? & _)|(? & ? & _)].
  - by apply rotate_spec in Hrun as [(? & ? & _ & _ & _ & _ & _ & _ & _ & ? & _)|(? & ? & _)].
  - by apply revoke_spec in Hrun as [(? & ? & _ & _ & _ & ? & _)|(? & ? & _)].
  - by apply rollback_spec in Hrun as [(? & ? & ? & _ & _ & _ & ? & _)|(? & ? & _)].
  - revert Hrun. unfold TouchLastUsed, ready.
    apply safe_bind; [apply safe_ctx|intros _]. apply safe_bind; [apply safe_ctx|intros _].
    apply safe_bind; [apply safe_get|intros s]. by repeat case_match.
  - revert Hrun. unfold List_, ready.
    apply safe_bind; [apply safe_ctx|intros _]. apply safe_bind; [apply safe_ctx|intros _].
    by apply safe_bind.
  - revert Hrun. unfold GetByID, ready.
    apply safe_bind; [apply safe_ctx|intros _]. apply safe_bind; [apply safe_ctx|intros _].
    apply safe_bind; [apply safe_get|intros s]. by repeat case_match.
  - revert Hrun. unfold FindByTokenHash, ready.
    apply safe_bind; [apply safe_ctx|intros _]. apply safe_bind; [apply safe_ctx|intros _].
    apply safe_bind; [apply safe_get|intros s]. case_match; [|done].
    apply safe_bind; [apply safe_now|intros t]. by repeat case_match.
Qed.

(** No operation of the store panics, in any state and with any input: the
    nil map entry the family revocation would dereference never occurs.  (A
    caller's audit event with a dangling metadata reference, which Go has not,
    is left out.) *)
Theorem store_never_panics op w w' :
  match op with OpRecord _ _ _ => True | _ => exec op w ≠ (Panic, w') end.
Proof. apply store_never_panics_aux. Qed.
End theorems.

(** ** A concrete run *)

Definition at_time (t : time) : env := Env [] [t].

Definition token (c : ascii) : string := of_chars (replicate 64 c).

Definition browser_input (id : string) (c : ascii) : CreateInput :=
  Create id "org-1" "Laptop" "fcacr_abcdef" (token c) ["acme/web"] ["context:read"] "user-1"
    (Some 1000) IssuanceProvenanceDeviceAuthorization "" "https://api.example.com/mcp"
    "https://client.example.com/id" "user-1" ClientClassBrowser "session-1" "family-1" (Some 2000).

Definition plain_input : CreateInput :=
  Create "cred-3" "org-1" "CI" "fcacr_ghijkl" (token "c") ["acme/web"] ["context:read"] "admin"
    (Some 1000) "" "" "" "" "" ClientClassOrgBearer "" "" None.

Definition run_to (op : cred_op) (t : time) (s : credentialStore) : credentialStore :=
  (@exec no_uuid op (at_time t, s)).2.2.

Definition store_1 : credentialStore :=
  Eval vm_compute in run_to (OpCreate (browser_input "cred-1" "a")) 100 initial.
Definition store_2 : credentialStore :=
  Eval vm_compute in run_to (OpCreate (browser_input "cred-2" "b")) 200 store_1.
Definition store_3 : credentialStore :=
  Eval vm_compute in run_to (OpCreate plain_input) 300 store_2.

Definition family_revocation : RevocationInput := Revocation "org-1" "cred-1" "user-1" "" "lost" false.
Definition store_4 : credentialStore :=
  Eval vm_compute in run_to (OpRevoke family_revocation) 400 store_3.

Definition rotation : RotationInput :=
  Rotation "org-1" "cred-3" "admin" false
    (Replacement "cred-4" "CI" "fcacr_mnopqr" (token "d") ["acme/web"] ["context:read"] (Some 3000)
       (5 * Minute) false).
Definition store_5 : credentialStore :=
  Eval vm_compute in run_to (OpRotate rotation) 500 store_4.

Definition rollback : RotationRollbackInput := Rollback "org-1" "cred-3" "cred-4" "admin" 5000.

Lemma run_step op t s s' : run_to op t s = s' → @step no_uuid s s'.
Proof.
  unfold run_to. destruct (@exec no_uuid op (at_time t, s)) as [r [e1 s1]] eqn:E. intros <-.
  by econstructor.
Qed.

Lemma reach_4 : @steps no_uuid initial store_4.
Proof.
  eapply steps_step; [eapply steps_step; [eapply steps_step; [eapply steps_step|]|]|].
  - apply steps_refl.
  - apply (run_step (OpCreate (browser_input "cred-1" "a")) 100 _ store_1). vm_compute. reflexivity.
  - apply (run_step (OpCreate (browser_input "cred-2" "b")) 200 _ store_2). vm_compute. reflexivity.
  - apply (run_step (OpCreate plain_input) 300 _ store_3). vm_compute. reflexivity.
  - apply (run_step (OpRevoke family_revocation) 400 _ store_4). vm_compute. reflexivity.
Qed.

Lemma step_5 : @step no_uuid store_4 store_5.
Proof. apply (run_step (OpRotate rotation) 500). vm_compute. reflexivity. Qed.

Lemma reach_5 : @steps no_uuid initial store_5.
Proof. eapply steps_step; [apply reach_4|apply step_5]. Qed.

Lemma reachable_store_ok_witness : store_ok store_5.
Proof. apply (@reachable_store_ok no_uuid). apply reach_5. Defined.

Definition cancelled_late : env * credentialStore :=
  (Env [None; None; None; Some Canceled] [400], store_3).

Lemma cancelled_run :
  @exec no_uuid (OpRevoke family_revocation) cancelled_late
  = (Err ErrCanceled, (Env [] [400], store_3)).
Proof. vm_compute. reflexivity. Qed.

Lemma failed_op_changes_nothing_witness : (Env [] [400], store_3).2 = cancelled_late.2.
Proof.
  exact (@failed_op_changes_nothing no_uuid (OpRevoke family_revocation) cancelled_late ErrCanceled
    (Env [] [400], store_3) cancelled_run).
Defined.

(** The records of the run, and the results of its steps. *)
Definition record_of (id : string) (s : credentialStore) : CredentialRecord :=
  default (created plain_input 0) (cs_byID s !! id).

Definition lost : CredentialRecord := Eval vm_compute in record_of "cred-1" store_3.
Definition lost_revoked : CredentialRecord := Eval vm_compute in record_of "cred-1" store_4.
Definition sibling_revoked : CredentialRecord := Eval vm_compute in record_of "cred-2" store_4.
Definition ci_record : CredentialRecord := Eval vm_compute in record_of "cred-3" store_4.
Definition successor : CredentialRecord := Eval vm_compute in record_of "cred-4" store_5.

Lemma lost_at : cs_byID store_3 !! "cred-1" = Some lost.
Proof. vm_compute. reflexivity. Qed.
Lemma lost_revoked_at : cs_byID store_4 !! "cred-1" = Some lost_revoked.
Proof. vm_compute. reflexivity. Qed.
Lemma sibling_revoked_at : cs_byID store_4 !! "cred-2" = Some sibling_revoked.
Proof. vm_compute. reflexivity. Qed.
Lemma ci_record_at : cs_byID store_4 !! "cred-3" = Some ci_record.
Proof. vm_compute. reflexivity. Qed.

Lemma found_run :
  FindByTokenHash (token "c") (at_time 450, store_4) = (Ok (cr_Metadata ci_record), (at_time 450, store_4)).
Proof. vm_compute. reflexivity. Qed.
Lemma revoked_run :
  @revokeCredential no_uuid family_revocation (at_time 400, store_3)
  = (Ok (cr_Metadata lost_revoked), (at_time 400, store_4)).
Proof. vm_compute. reflexivity. Qed.
Lemma rotated_run :
  @rotateCredential no_uuid rotation (at_time 500, store_4)
  = (Ok (cr_Metadata successor), (at_time 500, store_5)).
Proof. vm_compute. reflexivity. Qed.

Definition store_6 : credentialStore := Eval vm_compute in run_to (OpRollback rollback) 600 store_5.
Lemma rolled_back_run :
  @rollbackCredentialRotation no_uuid rollback (at_time 600, store_5)
  = (Ok (cr_Metadata (revoke_record 600 successor)), (at_time 600, store_6)).
Proof. vm_compute. reflexivity. Qed.

Lemma records_only_retire_witness :
  ∃ x', cs_byID store_5 !! "cred-3" = Some x' ∧ evolves ci_record x'.
Proof.
  apply (@records_only_retire no_uuid store_4 store_5 "cred-3" ci_record reach_4).
  - eapply steps_step; [apply steps_refl|apply step_5].
  - apply ci_record_at.
Defined.

Lemma find_only_live_witness :
  ∃ r, cs_byID store_4 !! cc_CredentialID (cr_Metadata ci_record) = Some r ∧ cr_TokenHash r = token "c".
Proof.
  destruct (@find_only_live no_uuid store_4 (at_time 450) (token "c") (cr_Metadata ci_record)
    (at_time 450, store_4) reach_4 found_run) as (r & Hr & _ & Hh & _).
  exists r. split; [exact Hr|exact Hh].
Defined.

Lemma revoked_never_found_witness :
  FindByTokenHash (cr_TokenHash lost_revoked) (at_time 700, store_5)
  ≠ (Ok (cr_Metadata lost_revoked), (at_time 700, store_5)).
Proof.
  refine (@revoked_never_found no_uuid store_4 store_5 "cred-1" lost_revoked (at_time 700)
    (cr_Metadata lost_revoked) (at_time 700, store_5) reach_4 lost_revoked_at _ _).
  - exists 400. reflexivity.
  - eapply steps_step; [apply steps_refl|apply step_5].
Defined.

Lemma revoke_cascades_witness : is_Some (cc_RevokedAt (cr_Metadata sibling_revoked)).
Proof.
  exact (@revoke_cascades no_uuid family_revocation (at_time 400, store_3) (cr_Metadata lost_revoked)
    (at_time 400, store_4) lost "family-1" revoked_run lost_at eq_refl "cred-2" sibling_revoked
    sibling_revoked_at).
Defined.

Lemma rotation_hands_on_witness :
  ∃ old, cs_byID store_4 !! ri_SourceCredentialID rotation = Some old ∧
    cc_Provenance (cr_Metadata successor) = cc_Provenance (cr_Metadata old).
Proof.
  destruct (@rotation_hands_on no_uuid rotation (at_time 500, store_4) (cr_Metadata successor)
    (at_time 500, store_5) rotated_run) as (now & old & old' & Ho & _ & _ & _ & _ & Hp & _).
  exists old. split; [exact Ho|exact Hp].
Defined.

Lemma rollback_undoes_recorded_witness :
  existsb (rotation_names (bi_SourceCredentialID rollback) (bi_SuccessorCredentialID rollback))
    (as_events (cs_audit store_5)) = true.
Proof.
  destruct (@rollback_undoes_recorded no_uuid rollback (at_time 600, store_5)
    (cr_Metadata (revoke_record 600 successor)) (at_time 600, store_6) rolled_back_run)
    as (now & src & suc & _ & _ & _ & Hev & _).
  - apply (@steps_keep no_uuid initial); [apply reach_5|apply initial_ok].
  - exact Hev.
Defined.
