(* ===== verification/Lifecycle.v ===== *)
(** * Lifecycle: the validated front of a credential store

    internal/storage/internal/credentiallifecycle/lifecycle.go.  [Backend] is the
    interface of a credential store (the Go [Store] interface and the four
    mutation functions); [Lifecycle] normalises every argument and calls it.
    [BackendLaws] states what the clients of a lifecycle rely on, in terms of
    the credentials the store holds; the in-memory store is shown to keep it, so
    the theorems of the clients hold for it.

    The [order] argument of the listing is the order in which the store's map
    yields its keys. *)

From Stdlib Require Import ZArith Lia Ascii.
From stdpp Require Import sorting pretty numbers gmap strings list_numbers list.
From S2P Require Import Prelude GoStrings CredTypes Validation Outbox AuditStore CredentialStore CredentialStoreProofs CredentialTheorems.

Open Scope Z_scope.

Class Backend (S : Type) := {
  be_List : list string → string → go S (list ClientCredential);
  be_GetByID : string → string → go S ClientCredential;
  be_FindByTokenHash : string → go S ClientCredential;
  be_TouchLastUsed : string → string → string → string → time → go S ();
  be_Create : CreateInput → go S ClientCredential;
  be_Rotate : RotationInput → go S ClientCredential;
  be_Revoke : RevocationInput → go S ClientCredential;
  be_Rollback : RotationRollbackInput → go S ClientCredential;
}.

Module Lifecycle.
Section lifecycle.
Context `{UnicodeTables} {S : Type} `{Backend S}.

(** The lifecycle and the context are not nil: what is left of
    [operationContext] is the context's own error. *)
Definition operationContext : go S () := ctx_check.

Definition CreateCredential (input : CreateInput) : go S ClientCredential :=
  operationContext ;;
  let! normalized := lift_res (normalizeCreate input) in
  be_Create normalized.

Definition RotateCredential (input : RotationInput) : go S ClientCredential :=
  operationContext ;;
  let! normalized := lift_res (normalizeRotation input) in
  be_Rotate normalized.

Definition RevokeCredential (input : RevocationInput) : go S ClientCredential :=
  operationContext ;;
  let! normalized := lift_res (normalizeRevocation input) in
  be_Revoke normalized.

Definition RollbackCredentialRotation (input : RotationRollbackInput) : go S ClientCredential :=
  operationContext ;;
  let! normalized := lift_res (normalizeRotationRollback input) in
  be_Rollback normalized.

Definition List_ (order : list string) (orgID : string) : go S (list ClientCredential) :=
  operationContext ;;
  let! normalized := lift_res (normalizeIdentifier "organization" orgID) in
  be_List order normalized.

Definition GetByID (orgID credentialID : string) : go S ClientCredential :=
  operationContext ;;
  let! normalizedOrg := lift_res (normalizeIdentifier "organization" orgID) in
  let! normalizedID := lift_res (normalizeCredentialID credentialID) in
  be_GetByID normalizedOrg normalizedID.

Definition FindByTokenHash (tokenHash : string) : go S ClientCredential :=
  operationContext ;;
  let! normalized := lift_res (normalizeTokenHash tokenHash) in
  be_FindByTokenHash normalized.

Definition TouchLastUsed (orgID credentialID ip userAgent : string) (usedAt : time) : go S () :=
  operationContext ;;
  let! normalizedID := lift_res (normalizeCredentialID credentialID) in
  let! normalizedOrg := lift_res (normalizeIdentifier "organization" orgID) in
  refuse! time_IsZero usedAt with ErrInvalidInput "" ;;
  let! usage := lift_res (normalizeUsage ip userAgent) in
  be_TouchLastUsed normalizedOrg normalizedID usage.1 usage.2 usedAt.
End lifecycle.
End Lifecycle.

(** ** What a lifecycle promises its clients

    [be_view] is the credentials the store holds, by id, and [be_ok] its own
    invariant. *)

Definition revoked_in (m : gmap string ClientCredential) (id : string) : Prop :=
  ∃ c, m !! id = Some c ∧ is_Some (cc_RevokedAt c).

(** Nothing is removed or un-revoked, and what a credential is stays. *)
Definition grows_to (m m' : gmap string ClientCredential) : Prop :=
  ∀ id c, m !! id = Some c → ∃ c', m' !! id = Some c' ∧
    cc_CredentialID c' = cc_CredentialID c ∧ cc_OrgID c' = cc_OrgID c ∧
    cc_Provenance c' = cc_Provenance c ∧
    (is_Some (cc_RevokedAt c) → cc_RevokedAt c' = cc_RevokedAt c).

Class BackendLaws (S : Type) `{Backend S} := {
  be_view : S → gmap string ClientCredential;
  be_ok : S → Prop;
  be_key : ∀ s id c, be_ok s → be_view s !! id = Some c → cc_CredentialID c = id;
  be_get_spec : ∀ org id w r w', be_GetByID org id w = (r, w') →
    w'.2 = w.2 ∧ r ≠ Panic ∧ ∀ c, r = Ok c → be_view w.2 !! id = Some c ∧ cc_OrgID c = org;
  be_list_spec : ∀ order org w r w', be_List order org w = (r, w') →
    w'.2 = w.2 ∧ r ≠ Panic ∧
    ∀ l, r = Ok l → (∀ id, id ∈ order ↔ is_Some (be_view w.2 !! id)) →
      ∀ c, c ∈ l ↔ cc_OrgID c = org ∧ ∃ id, be_view w.2 !! id = Some c;
  be_create_spec : ∀ input w r w', be_Create input w = (r, w') → be_ok w.2 →
    be_ok w'.2 ∧ r ≠ Panic ∧ (∀ e, r = Err e → w'.2 = w.2) ∧
    grows_to (be_view w.2) (be_view w'.2) ∧
    ∀ c, r = Ok c → ∃ now, c = credentialFromCreate input now ∧
      be_view w.2 !! ci_CredentialID input = None ∧
      be_view w'.2 = <[ci_CredentialID input := c]> (be_view w.2);
  be_revoke_spec : ∀ input w r w', be_Revoke input w = (r, w') → be_ok w.2 →
    be_ok w'.2 ∧ r ≠ Panic ∧ (∀ e, r = Err e → w'.2 = w.2) ∧
    grows_to (be_view w.2) (be_view w'.2) ∧
    (∀ id, is_Some (be_view w'.2 !! id) → is_Some (be_view w.2 !! id)) ∧
    (r = Err ErrConflict → revoked_in (be_view w.2) (vi_CredentialID input)) ∧
    (∀ c, r = Ok c → ¬ revoked_in (be_view w.2) (vi_CredentialID input) ∧
       revoked_in (be_view w'.2) (vi_CredentialID input));
  be_get_live : ∀ org id w, env_ctx w.1 = [] →
    be_GetByID org id w =
      (match be_view w.2 !! id with
       | Some c => if bool_decide (cc_OrgID c = org) then Ok c else Err ErrNotFound
       | None => Err ErrNotFound
       end, w);
}.

Lemma grows_to_refl m : grows_to m m.
Proof. intros id c Hc. exists c. by split_and!. Qed.

Lemma grows_to_trans m1 m2 m3 : grows_to m1 m2 → grows_to m2 m3 → grows_to m1 m3.
Proof.
  intros H12 H23 id c Hc. destruct (H12 _ _ Hc) as (c2 & Hc2 & ? & ? & ? & Hr2).
  destruct (H23 _ _ Hc2) as (c3 & Hc3 & ? & ? & ? & Hr3). exists c3. split_and!; try congruence.
  intros Hr. rewrite Hr3 by (by rewrite Hr2). auto.
Qed.

Lemma revoked_in_grows m m' id : grows_to m m' → revoked_in m id → revoked_in m' id.
Proof.
  intros Hg (c & Hc & Hr). destruct (Hg _ _ Hc) as (c' & Hc' & _ & _ & _ & He).
  exists c'. split; [done|]. by rewrite He.
Qed.

(** ** The front keeps it too *)

Lemma normalizeText_spec name v max :
  match normalizeText name v max with
  | Ok r => r = strings_TrimSpace v
  | Err e => ∃ field, e = ErrInvalidInput field
  | Panic => False
  end.
Proof. unfold normalizeText, invalid. destruct (_ || has_control_rune _); eauto. Qed.

Lemma normalizeCredentialID_spec v :
  match normalizeCredentialID v with
  | Ok r => r = strings_TrimSpace v
  | Err e => ∃ field, e = ErrInvalidInput field
  | Panic => False
  end.
Proof. unfold normalizeCredentialID, invalid. destruct (negb _); eauto. Qed.

Lemma normalizeRevocation_spec i :
  match normalizeRevocation i with
  | Ok n => vi_CredentialID n = strings_TrimSpace (vi_CredentialID i)
  | Err e => ∃ field, e = ErrInvalidInput field
  | Panic => False
  end.
Proof.
  unfold normalizeRevocation, normalizeIdentifier.
  pose proof (normalizeText_spec "organization" (vi_OrgID i) 200) as Ho.
  destruct (normalizeText "organization" _ _) as [o|e|]; cbn [res_bind]; [|done..].
  pose proof (normalizeCredentialID_spec (vi_CredentialID i)) as Hi.
  destruct (normalizeCredentialID _) as [id|e|]; cbn [res_bind]; [|done..].
  pose proof (normalizeText_spec "actor" (vi_ActorID i) 200) as Ha.
  destruct (normalizeText "actor" _ _) as [a|e|]; cbn [res_bind]; [|done..].
  destruct (_ && _); [by eauto|].
  destruct (bool_decide (strings_TrimSpace (vi_Reason i) = "")); cbn [res_bind]; [done|].
  pose proof (normalizeText_spec "reason" (strings_TrimSpace (vi_Reason i)) 500) as Hr.
  by destruct (normalizeText "reason" _ _) as [r|e|]; cbn [res_bind].
Qed.

Section front.
Context `{UnicodeTables} {S : Type} `{BackendLaws S}.

Lemma bind_lift {A B} (x : res A) (k : A → go S B) w :
  bind (lift_res x) k w = match x with
                          | Ok a => k a w
                          | Err e => (Err e, w)
                          | Panic => (Panic, w)
                          end.
Proof. by destruct x. Qed.

Lemma front_get org id w r w' :
  Lifecycle.GetByID org id w = (r, w') →
  w'.2 = w.2 ∧ r ≠ Panic ∧ ∀ c, r = Ok c → be_view w.2 !! strings_TrimSpace id = Some c.
Proof.
  unfold Lifecycle.GetByID, Lifecycle.operationContext, normalizeIdentifier. intros Hrun.
  apply bind_ctx in Hrun as [(e & -> & Hw)|(e & Hrun)]; [by split_and!|].
  rewrite bind_lift in Hrun. pose proof (normalizeText_spec "organization" org 200) as Ho.
  destruct (normalizeText _ org 200) as [o|e1|]; [|injection Hrun as <- <-; by split_and!|done].
  rewrite bind_lift in Hrun. pose proof (normalizeCredentialID_spec id) as Hi.
  destruct (normalizeCredentialID id) as [i|e1|]; [|injection Hrun as <- <-; by split_and!|done].
  subst. apply be_get_spec in Hrun as (? & ? & Hc). split_and!; [done..|].
  intros c Hr. by apply Hc.
Qed.

(** With a live context a lookup leaves the environment too, and finds a
    credential of the organization that is there. *)
Lemma front_get_live org id w :
  env_ctx w.1 = [] → ∃ r, Lifecycle.GetByID org id w = (r, w) ∧
    ((∃ c, r = Ok c) → normalizeIdentifier "organization" org = Ok (strings_TrimSpace org)) ∧
    ∀ c, normalizeIdentifier "organization" org = Ok (strings_TrimSpace org) →
      normalizeCredentialID id = Ok (cc_CredentialID c) → be_view w.2 !! cc_CredentialID c = Some c →
      cc_OrgID c = strings_TrimSpace org → r = Ok c.
Proof.
  intros Hlive. unfold Lifecycle.GetByID, Lifecycle.operationContext, normalizeIdentifier.
  assert (∀ A (k : () → go S A), (let! u := ctx_check in k u) w = k () w) as Hctx.
  { intros A k. unfold bind, ctx_check. by rewrite Hlive. }
  rewrite Hctx, bind_lift. pose proof (normalizeText_spec "organization" org 200) as Ho.
  destruct (normalizeText _ org 200) as [o|e1|]; [|by eexists; split_and!; [done|intros []|]|done].
  subst o. rewrite bind_lift. pose proof (normalizeCredentialID_spec id) as Hi.
  destruct (normalizeCredentialID id) as [i|e1|]; [|by eexists; split_and!|done].
  rewrite be_get_live by done. eexists. split; [done|]. split; [done|].
  intros c _ [= ->] Hc Horg. by rewrite Hc, bool_decide_true.
Qed.

Lemma front_list order org w r w' :
  Lifecycle.List_ order org w = (r, w') →
  w'.2 = w.2 ∧ r ≠ Panic ∧
  ∀ l, r = Ok l → (∀ id, id ∈ order ↔ is_Some (be_view w.2 !! id)) →
    ∀ c, c ∈ l ↔ cc_OrgID c = strings_TrimSpace org ∧ ∃ id, be_view w.2 !! id = Some c.
Proof.
  unfold Lifecycle.List_, Lifecycle.operationContext, normalizeIdentifier. intros Hrun.
  apply bind_ctx in Hrun as [(e & -> & Hw)|(e & Hrun)]; [by split_and!|].
  rewrite bind_lift in Hrun. pose proof (normalizeText_spec "organization" org 200) as Ho.
  destruct (normalizeText _ org 200) as [o|e1|]; [|injection Hrun as <- <-; by split_and!|done].
  subst. by apply be_list_spec in Hrun.
Qed.

Lemma front_revoke input w r w' :
  Lifecycle.RevokeCredential input w = (r, w') → be_ok w.2 →
  let id := strings_TrimSpace (vi_CredentialID input) in
  be_ok w'.2 ∧ r ≠ Panic ∧ (∀ e, r = Err e → w'.2 = w.2) ∧
  grows_to (be_view w.2) (be_view w'.2) ∧
  (∀ k, is_Some (be_view w'.2 !! k) → is_Some (be_view w.2 !! k)) ∧
  (r = Err ErrConflict → revoked_in (be_view w.2) id) ∧
  (∀ c, r = Ok c → revoked_in (be_view w'.2) id).
Proof.
  intros Hrun Hok id. unfold Lifecycle.RevokeCredential, Lifecycle.operationContext in Hrun.
  assert (∀ e (w1 : env * S), r = Err e → e ≠ ErrConflict → w1.2 = w.2 →
    be_ok w1.2 ∧ r ≠ Panic ∧ (∀ e, r = Err e → w1.2 = w.2) ∧
    grows_to (be_view w.2) (be_view w1.2) ∧
    (∀ k, is_Some (be_view w1.2 !! k) → is_Some (be_view w.2 !! k)) ∧
    (r = Err ErrConflict → revoked_in (be_view w.2) id) ∧
    (∀ c, r = Ok c → revoked_in (be_view w1.2) id)) as Hfail.
  { intros e w1 -> He ->. split_and!; try done; [apply grows_to_refl|congruence]. }
  apply bind_Err_or_Ok in Hrun as [(e & -> & Hc & Hw)|(e & Hrun)].
  { eapply Hfail; [done| |done]. by destruct Hc as [[] ->]. }
  rewrite bind_lift in Hrun. pose proof (normalizeRevocation_spec input) as Hn.
  destruct (normalizeRevocation input) as [n|e1|]; [| |done].
  - apply be_revoke_spec in Hrun as (? & ? & ? & ? & ? & Hcf & Hr); [|done]. rewrite Hn in Hcf, Hr.
    split_and!; try done. intros c Hc. by apply (Hr c).
  - injection Hrun as <- <-. destruct Hn as [field ->]. by eapply Hfail.
Qed.

Lemma front_create input w r w' :
  Lifecycle.CreateCredential input w = (r, w') → be_ok w.2 →
  be_ok w'.2 ∧ r ≠ Panic ∧ (∀ e, r = Err e → w'.2 = w.2) ∧
  grows_to (be_view w.2) (be_view w'.2) ∧
  ∀ c, r = Ok c → ∃ n now, normalizeCreate input = Ok n ∧ c = credentialFromCreate n now ∧
    be_view w.2 !! ci_CredentialID n = None ∧
    be_view w'.2 = <[ci_CredentialID n := c]> (be_view w.2).
Proof.
  intros Hrun Hok. unfold Lifecycle.CreateCredential, Lifecycle.operationContext in Hrun.
  apply bind_ctx in Hrun as [(e & -> & ->)|(e & Hrun)].
  { split_and!; try done. apply grows_to_refl. }
  rewrite bind_lift in Hrun. pose proof (normalizeCreate_safe input) as Hs.
  destruct (normalizeCreate input) as [n|e1|] eqn:En; [| |done].
  - apply be_create_spec in Hrun as (? & ? & ? & ? & Hc); [|done]. split_and!; try done.
    intros c Hr. destruct (Hc c Hr) as (now & ? & ? & ?). exists n, now. by split_and!.
  - injection Hrun as <- <-. split_and!; try done. apply grows_to_refl.
Qed.
End front.

(** ** The in-memory store keeps the promise *)

Section memory.
Context `{UUIDLib}.

#[global] Instance memory_backend : Backend credentialStore := {
  be_List := List_;
  be_GetByID := GetByID;
  be_FindByTokenHash := FindByTokenHash;
  be_TouchLastUsed := TouchLastUsed;
  be_Create := createCredential;
  be_Rotate := rotateCredential;
  be_Revoke := revokeCredential;
  be_Rollback := rollbackCredentialRotation;
}.

Definition cs_view (s : credentialStore) : gmap string ClientCredential := cr_Metadata <$> cs_byID s.

Lemma cs_view_Some s id c :
  cs_view s !! id = Some c ↔ ∃ r, cs_byID s !! id = Some r ∧ c = cr_Metadata r.
Proof. unfold cs_view. rewrite lookup_fmap, fmap_Some. done. Qed.

Lemma evolves_view s s' :
  (∀ id x, cs_byID s !! id = Some x → ∃ x', cs_byID s' !! id = Some x' ∧ evolves x x') →
  grows_to (cs_view s) (cs_view s').
Proof.
  intros Hev id c (r & Hr & ->)%cs_view_Some. destruct (Hev _ _ Hr) as (r' & Hr' & He).
  exists (cr_Metadata r'). split; [apply cs_view_Some; eauto|]. destruct He. by split_and!.
Qed.

Lemma exec_discard {A} (m : go credentialStore A) w r w' :
  m w = (r, w') →
  discard m w = (match r with Ok _ => Ok () | Err e => Err e | Panic => Panic end, w').
Proof. unfold discard, bind. intros ->. by destruct r. Qed.

Lemma list_order_spec order org s c :
  (∀ id, id ∈ order ↔ is_Some (cs_view s !! id)) →
  c ∈ merge_sort created_le (filter (λ c, cc_OrgID c = org)
        (cr_Metadata <$> omap (λ id, cs_byID s !! id) order)) ↔
  cc_OrgID c = org ∧ ∃ id, cs_view s !! id = Some c.
Proof.
  intros Ho. rewrite merge_sort_Permutation, list_elem_of_filter, list_elem_of_fmap.
  apply and_iff_compat_l. split.
  - intros (r & -> & (id & _ & Hid)%list_elem_of_omap). exists id. apply cs_view_Some. eauto.
  - intros (id & Hid). pose proof Hid as (r & Hr & ->)%cs_view_Some. exists r. split; [done|].
    apply list_elem_of_omap. exists id. split; [|done]. apply Ho. eauto.
Qed.

(** A conflict means the credential is revoked already. *)
Lemma revoke_conflict input w w' :
  revokeCredential input w = (Err ErrConflict, w') → revoked_in (cs_view w.2) (vi_CredentialID input).
Proof.
  unfold revokeCredential, ready. intros Hrun.
  apply bind_Err_inv in Hrun as [Hrun|(u & w1 & E1 & Hrun)].
  { apply errs_ctx with (P := λ e, e ≠ ErrConflict) in Hrun; [done|by intros []]. }
  apply bind_Err_inv in Hrun as [Hrun|(u2 & w2 & E2 & Hrun)].
  { apply errs_ctx with (P := λ e, e ≠ ErrConflict) in Hrun; [done|by intros []]. }
  apply readonly_ctx in E1, E2. rewrite bind_get in Hrun. rewrite E2, E1 in Hrun.
  destruct (cs_byID w.2 !! vi_CredentialID input) as [record|] eqn:Hrec; [|done].
  case_bool_decide; cbn [negb] in Hrun; [|done].
  case_bool_decide as Hrev.
  { exists (cr_Metadata record). split; [apply cs_view_Some; eauto|done]. }
  exfalso. revert Hrun. match goal with |- ?m w2 = _ → _ => cut (errs_in (λ e, e ≠ ErrConflict) m) end.
  { intros Herr Hrun. by apply Herr in Hrun. }
  apply errs_bind; [apply errs_now|intros now].
  apply errs_bind; [apply errs_zoom, errs_zoom; by apply errs_bind|intros mark].
  apply errs_bind; [apply errs_zoom; by apply errs_bind|intros mark2].
  apply errs_bind; [|intros _; by apply errs_bind]. apply errs_iter. intros id. case_match; [|done].
  apply errs_on_error.
  - eapply errs_weaken; [|apply recordMutation_errs].
    intros e [[[what ->]| ->]|[ce ->]]; [done..|by destruct ce].
  - apply errs_bind; [by apply errs_zoom, errs_zoom|intros _; by apply errs_zoom].
Qed.

#[global] Program Instance memory_laws : BackendLaws credentialStore :=
  { be_view := cs_view; be_ok := store_ok }.
Next Obligation. intros s id c Hok (r & Hr & ->)%cs_view_Some. by apply (ok_key _ Hok) in Hr as [? _]. Qed.
Next Obligation.
  intros org id w r w' Hrun. cbn in Hrun. split; [by eapply readonly_GetByID|]. split.
  { intros ->. apply (exec_discard _ _ _ _) in Hrun.
    by apply (store_never_panics_aux (OpGet org id)) in Hrun. }
  intros c ->. unfold GetByID, ready in Hrun.
  apply bind_ctx_Ok in Hrun as (e1 & _ & Hrun). apply bind_ctx_Ok in Hrun as (e2 & _ & Hrun).
  rewrite bind_get in Hrun. cbn [snd] in Hrun.
  destruct (cs_byID w.2 !! id) as [r|] eqn:Hr; [|done].
  case_bool_decide as Horg; cbn [negb] in Hrun; [|done]. injection Hrun as <- _.
  split; [apply cs_view_Some; eauto|done].
Qed.
Next Obligation.
  intros order org w r w' Hrun. cbn in Hrun. split; [by eapply readonly_List|]. split.
  { intros ->. apply (exec_discard _ _ _ _) in Hrun.
    by apply (store_never_panics_aux (OpList order org)) in Hrun. }
  intros l -> Ho c. unfold List_, ready in Hrun.
  apply bind_ctx_Ok in Hrun as (e1 & _ & Hrun). apply bind_ctx_Ok in Hrun as (e2 & _ & Hrun).
  rewrite bind_get in Hrun. injection Hrun as <- _. by apply list_order_spec.
Qed.
Next Obligation.
  intros input w r w' Hrun Hok. cbn in Hrun. split; [by eapply create_keeps|].
  pose proof (exec_discard _ _ _ _ Hrun) as Hx. 
  pose proof (evolves_view _ _ (exec_evolves (OpCreate input) _ _ _ Hx Hok)) as Hview.
  apply create_spec in Hrun as [(now & -> & Hid & _ & _ & [Eid _ _ _ _])|(e & -> & Hw)].
  - split_and!; [done..|]. intros c [= <-]. exists now. split; [done|].
    unfold cs_view. rewrite lookup_fmap, Hid, Eid, fmap_insert. done.
  - by split_and!.
Qed.
Next Obligation.
  intros input w r w' Hrun Hok. cbn in Hrun. split; [by eapply revoke_keeps|].
  pose proof (exec_discard _ _ _ _ Hrun) as Hx. 
  pose proof (evolves_view _ _ (exec_evolves (OpRevoke input) _ _ _ Hx Hok)) as Hview. pose proof Hrun as Hrun'.
  apply revoke_spec in Hrun as [(now & rec & Hrec & _ & Hn & -> & Eid & _)|(e & -> & Hw)].
  - split_and!; [done..| |done|].
    { intros id. unfold cs_view. rewrite !lookup_fmap, !fmap_is_Some, Eid, lookup_revoke_all.
      case_decide; [|done]. by rewrite fmap_is_Some. }
    intros c _. split.
    + intros (c' & (r & Hr & ->)%cs_view_Some & [t Ht]). congruence.
    + exists (cr_Metadata (revoke_record now rec)). split; [|by eexists]. apply cs_view_Some.
      exists (revoke_record now rec). rewrite Eid, lookup_revoke_all, Hrec.
      by rewrite decide_True by (unfold revoked_ids; set_solver).
  - split_and!; try done; [by rewrite Hw|]. intros [= ->]. by eapply revoke_conflict.
Qed.
Next Obligation.
  intros org id w Hlive. cbn. unfold GetByID, ready, bind at 1 2, ctx_check. rewrite Hlive. cbn.
  rewrite Hlive. cbn. unfold cs_view. rewrite lookup_fmap.
  destruct (cs_byID w.2 !! id) as [r|]; cbn; [|done]. by case_bool_decide.
Qed.
End memory.
