(* ===== verification/AuthService.v ===== *)
(** * AuthService: the credential service (internal/auth)

    types.go, service.go, self_lifecycle.go and revoke_on_behalf.go: the layer
    between the HTTP handlers, the device and the OAuth flows and the credential
    lifecycle.  The two generators of a [Service] are asked at most once in an
    operation, so each is the answer it gives.  An operation that reads a
    credential and then changes it calls the store twice, and others may use
    the store between the two calls: [between] is what they do to it.

    An error wraps the sentinel it names: [ErrBrowserCredentialRotation] and
    [ErrRotationWiderThanParent] are each also an [ErrInvalidCredential] to
    [errors.Is].  The nil checks of receivers and stores have no counterpart. *)

From Stdlib Require Import ZArith Lia Ascii.
From stdpp Require Import sorting pretty numbers gmap strings list_numbers list.
From S2P Require Import Prelude GoStrings CredTypes Validation Tokens Grants Lifecycle.

Open Scope Z_scope.

(** ** types.go *)

Definition ScopeContextRead : string := "context:read".
Definition ScopeEvidenceRead : string := "evidence:read".
Definition ScopeEpisodeWrite : string := "episode:write".
Definition ScopeDataRead : string := "data:read".
Definition ScopeCredentialLifecycleRead : string := "credential_lifecycle:read".
Definition ScopeCredentialLifecycleRevoke : string := "credential_lifecycle:revoke".

Definition AdvertisedScopes : list string := [ScopeContextRead; ScopeEvidenceRead; ScopeDataRead].

Definition auth_knownScopes : list string :=
  [ScopeContextRead; ScopeEvidenceRead; ScopeEpisodeWrite; ScopeDataRead; ScopeCredentialLifecycleRead;
   ScopeCredentialLifecycleRevoke].

Definition HasScope (scopes : list string) (required : string) : bool := slices_Contains scopes required.

Record RotateCredentialRequest := RotateRequest {
  rq_OrgID : string;
  rq_CredentialID : string;
  rq_Name : string;
  rq_RepositoryScopes : list string;
  rq_Scopes : list string;
  rq_CreatedBy : string;
  rq_ExpiresAt : option time;
  rq_Overlap : duration;
  rq_SelfCredential : bool;
}.

Record IssuedCredential := Issued {
  ic_Credential : ClientCredential;
  ic_Token : string;
}.

(** The loop of [normalizeScopes]. *)
Fixpoint scopes_loop (seen : gset string) (result scopes : list string) : res (list string) :=
  match scopes with
  | [] => Ok result
  | raw :: scopes' =>
    let scope := strings_TrimSpace raw in
    reject! negb (slices_Contains auth_knownScopes scope) with ErrInvalidCredential "unknown scope" ;;
    if bool_decide (scope ∈ seen) then scopes_loop seen result scopes'
    else scopes_loop ({[scope]} ∪ seen) (result ++ [scope]) scopes'
  end.

Definition auth_normalizeScopes (scopes : list string) : res (list string) :=
  if bool_decide (scopes = []) then Ok [ScopeContextRead; ScopeEvidenceRead]
  else
    let? result := scopes_loop ∅ [] scopes in
    reject! bool_decide (result = []) with ErrInvalidCredential "at least one scope is required" ;;
    Ok result.

Section requests.
Context `{UnicodeTables}.

Definition normalizeCreateRequest (request : CreateCredentialRequest) : res CreateCredentialRequest :=
  let orgID := strings_TrimSpace (cq_OrgID request) in
  let name := strings_TrimSpace (cq_Name request) in
  let createdBy := strings_TrimSpace (cq_CreatedBy request) in
  reject! isEmpty orgID || isEmpty name || isEmpty createdBy
    with ErrInvalidCredential "org_id, name, and actor are required" ;;
  reject! 200 <? slen name with ErrInvalidCredential "name exceeds 200 characters" ;;
  let? repositoryScopes := NormalizeRepositoryScopes (cq_RepositoryScopes request) in
  let? scopes := auth_normalizeScopes (cq_Scopes request) in
  let clientID := strings_TrimSpace (cq_ClientID request) in
  reject! negb (isEmpty clientID) && isEmpty (cq_Resource request)
    with ErrInvalidCredential "client_id requires a resource" ;;
  Ok (CreateRequest orgID name repositoryScopes scopes createdBy (cq_ExpiresAt request)
        (cq_IssuanceProvenance request) (cq_WorkloadBindingID request) (cq_Resource request) clientID
        (cq_ClientClass request) (cq_FamilyID request) (cq_FamilyExpiresAt request)).

Definition ValidateCreateCredentialRequest (request : CreateCredentialRequest) : res () :=
  let? _ := normalizeCreateRequest request in Ok ().
End requests.

(** ** service.go *)

Record Service := MkService {
  sv_generateToken : res string;
  sv_generateCredentialID : res string;
  sv_maximumOverlap : duration;
}.

Definition NewService (generateToken generateCredentialID : res string) (maximumOverlap : duration) : Service :=
  MkService generateToken generateCredentialID
    (if maximumOverlap <=? 0 then 15 * Minute else maximumOverlap).

(** [complete] is the closure that keeps the token; [None] is nil. *)
Record PreparedCredential := Prepared {
  pc_complete : option (ClientCredential → IssuedCredential);
  pc_input : CreateInput;
}.

Definition StorageInput (p : PreparedCredential) : CreateInput := pc_input p.

Definition Complete_ (p : PreparedCredential) (credential : ClientCredential) : res IssuedCredential :=
  match pc_complete p with
  | None => Err (ErrInvalidCredential "")
  | Some complete =>
    reject! negb (bool_decide (cc_CredentialID credential = ci_CredentialID (pc_input p)))
            || negb (bool_decide (cc_OrgID credential = ci_OrgID (pc_input p)))
      with ErrInvalidCredential "" ;;
    Ok (complete credential)
  end.

Definition issueCreateInput (s : Service) (request : CreateCredentialRequest) : res (string * CreateInput) :=
  let? token := sv_generateToken s in
  reject! negb (IsTokenShapeValid token) with ErrText "token generator returned an invalid ACR token" ;;
  let? credentialID := sv_generateCredentialID s in
  Ok (token,
      Create credentialID (cq_OrgID request) (cq_Name request) (DisplayPrefix token) (HashToken token)
        (cq_RepositoryScopes request) (cq_Scopes request) (cq_CreatedBy request) (cq_ExpiresAt request)
        (cq_IssuanceProvenance request) (cq_WorkloadBindingID request) (cq_Resource request)
        (cq_ClientID request) "" (cq_ClientClass request) "" (cq_FamilyID request)
        (cq_FamilyExpiresAt request)).

Definition issueRotationInput (s : Service) (request : CreateCredentialRequest) (overlap : duration)
    : res (string * RotationReplacement) :=
  let? issued := issueCreateInput s request in
  let input := issued.2 in
  Ok (issued.1,
      Replacement (ci_CredentialID input) (ci_Name input) (ci_TokenPrefix input) (ci_TokenHash input)
        (ci_RepositoryScopes input) (ci_Scopes input) (ci_ExpiresAt input) overlap
        (bool_decide (overlap = 0))).

(** [expiresAt != nil && !expiresAt.After(now)] *)
Definition past_expiry (expiresAt : option time) (now : time) : bool :=
  match expiresAt with Some t => negb (time_After t now) | None => false end.

Section service.
Context `{UnicodeTables} {S : Type} `{Backend S}.
Implicit Types (s : Service) (between : S → S).

Definition PrepareCreate s (request : CreateCredentialRequest) : go S PreparedCredential :=
  let! normalized := lift_res (normalizeCreateRequest request) in
  let! now := now in
  refuse! past_expiry (cq_ExpiresAt normalized) now
    with ErrInvalidCredential "expires_at must be in the future" ;;
  let! issued := lift_res (issueCreateInput s normalized) in
  ret (Prepared (Some (λ credential, Issued credential issued.1)) issued.2).

Definition Service_Create s (request : CreateCredentialRequest) : go S IssuedCredential :=
  let! prepared := PrepareCreate s request in
  let! credential := Lifecycle.CreateCredential (StorageInput prepared) in
  lift_res (Complete_ prepared credential).

Definition Service_List (order : list string) (orgID : string) : go S (list ClientCredential) :=
  refuse! isEmpty orgID with ErrInvalidCredential "org_id is required" ;;
  Lifecycle.List_ order orgID.

Definition Service_Rotate s between (request : RotateCredentialRequest) : go S IssuedCredential :=
  refuse! (rq_Overlap request <? 0) || (sv_maximumOverlap s <? rq_Overlap request)
    with ErrInvalidCredential "overlap" ;;
  let orgID := strings_TrimSpace (rq_OrgID request) in
  let credentialID := strings_TrimSpace (rq_CredentialID request) in
  let createdBy := strings_TrimSpace (rq_CreatedBy request) in
  refuse! isEmpty orgID || isEmpty credentialID || isEmpty createdBy
    with ErrInvalidCredential "org_id, credential_id, and actor are required" ;;
  let! current := Lifecycle.GetByID orgID credentialID in
  let! now := now in
  refuse! bool_decide (is_Some (cc_RevokedAt current))
    with ErrInvalidCredential "source credential is no longer active" ;;
  refuse! bool_decide (pv_ClientClass (cc_Provenance current) = ClientClassBrowser)
    with ErrBrowserCredentialRotation ;;
  let create :=
    CreateRequest (cc_OrgID current)
      (if isEmpty (rq_Name request) then cc_Name current else rq_Name request)
      (if bool_decide (rq_RepositoryScopes request = []) then cc_RepositoryScopes current
       else rq_RepositoryScopes request)
      (if bool_decide (rq_Scopes request = []) then cc_Scopes current else rq_Scopes request)
      createdBy (rq_ExpiresAt request) "" "" "" "" "" "" None in
  let! normalized := lift_res (normalizeCreateRequest create) in
  refuse! negb (rotationWithinParent current normalized) with ErrRotationWiderThanParent ;;
  refuse! past_expiry (cq_ExpiresAt normalized) now
    with ErrInvalidCredential "expires_at must be in the future" ;;
  let! issued := lift_res (issueRotationInput s normalized (rq_Overlap request)) in
  modify between ;;
  let! credential := Lifecycle.RotateCredential
    (Rotation orgID credentialID createdBy (rq_SelfCredential request) issued.2) in
  ret (Issued credential issued.1).

(** The one revocation path. *)
Definition revokeWithActor (input : RevocationInput) : go S ClientCredential :=
  Lifecycle.RevokeCredential input.

Definition service_revoke (orgID0 credentialID0 actorID0 : string) (self : bool) : go S ClientCredential :=
  let orgID := strings_TrimSpace orgID0 in
  let credentialID := strings_TrimSpace credentialID0 in
  let actorID := strings_TrimSpace actorID0 in
  refuse! isEmpty orgID || isEmpty credentialID || isEmpty actorID
    with ErrInvalidCredential "org_id, credential_id, and actor are required" ;;
  revokeWithActor (Revocation orgID credentialID actorID "" "" self).

Definition Service_Revoke (orgID credentialID actorID : string) : go S ClientCredential :=
  service_revoke orgID credentialID actorID false.

Definition RevokeAsOperator (orgID0 credentialID0 actorID0 reason : string) : go S ClientCredential :=
  let orgID := strings_TrimSpace orgID0 in
  let credentialID := strings_TrimSpace credentialID0 in
  let actorID := strings_TrimSpace actorID0 in
  refuse! isEmpty orgID || isEmpty credentialID || isEmpty actorID
    with ErrInvalidCredential "org_id, credential_id, and actor are required" ;;
  revokeWithActor (Revocation orgID credentialID actorID "operator" reason false).

(** ** self_lifecycle.go *)

Definition DeviceCredentialLifetime : duration := 30 * 24 * Hour.

Record SelfRotationReceipt := Receipt {
  sr_SourceCredentialID : string;
  sr_SuccessorCredentialID : string;
  sr_RollbackUntil : time;
}.
Record SelfRotation := MkSelfRotation { sr_Issued : IssuedCredential; sr_Receipt : SelfRotationReceipt }.
Record SelfRevocation := MkSelfRevocation { sl_CredentialID : string; sl_Credential : ClientCredential }.

Record credentialSnapshot := Snapshot {
  sn_CredentialID : string;
  sn_RepositoryScopes : list string;
  sn_Scopes : list string;
  sn_CreatedAt : time;
  sn_ExpiresAt : option time;
  sn_RevokedAt : option time;
}.

(** A list is in normal form: [err != nil || !slices.Equal(normalized, list)]
    is false. *)
Definition in_normal_form (normalized : res (list string)) (list : list string) : bool :=
  match normalized with Ok l => bool_decide (l = list) | _ => false end.

Definition validateSelfLifecyclePrincipal (principal : Principal) : res () :=
  reject! negb (bool_decide (pr_AuthenticationMethod principal = AuthenticationMethodCredential))
          || isEmpty (strings_TrimSpace (pr_Subject principal))
          || negb (bool_decide (pr_Subject principal = pr_CredentialID principal))
          || isEmpty (strings_TrimSpace (pr_OrgID principal)) with ErrInvalidCredential "" ;;
  reject! negb (in_normal_form (NormalizeRepositoryScopes (pr_RepositoryScopes principal))
                  (pr_RepositoryScopes principal)) with ErrInvalidCredential "" ;;
  reject! negb (in_normal_form (auth_normalizeScopes (pr_Permissions principal)) (pr_Permissions principal))
    with ErrInvalidCredential "" ;;
  Ok ().

Definition authenticatedCredential (principal : Principal) : go S credentialSnapshot :=
  refuse! negb (bool_decide (pr_AuthenticationMethod principal = AuthenticationMethodCredential))
          || isEmpty (strings_TrimSpace (pr_Subject principal))
          || negb (bool_decide (pr_Subject principal = pr_CredentialID principal))
          || isEmpty (strings_TrimSpace (pr_OrgID principal)) with ErrInvalidCredential "" ;;
  refuse! negb (in_normal_form (NormalizeRepositoryScopes (pr_RepositoryScopes principal))
                  (pr_RepositoryScopes principal)) with ErrInvalidCredential "" ;;
  refuse! negb (in_normal_form (auth_normalizeScopes (pr_Permissions principal)) (pr_Permissions principal))
    with ErrInvalidCredential "" ;;
  let! credential := Lifecycle.GetByID (pr_OrgID principal) (pr_CredentialID principal) in
  refuse! bool_decide (is_Some (cc_RevokedAt credential)) with ErrInvalidCredential "" ;;
  let! expired :=
    match cc_ExpiresAt credential with
    | Some t => let! now := now in ret (negb (time_After t now))
    | None => ret false
    end in
  refuse! expired || negb (bool_decide (cc_RepositoryScopes credential = pr_RepositoryScopes principal))
          || negb (bool_decide (cc_Scopes credential = pr_Permissions principal))
    with ErrInvalidCredential "" ;;
  ret (Snapshot (cc_CredentialID credential) (cc_RepositoryScopes credential) (cc_Scopes credential)
         (cc_CreatedAt credential) (cc_ExpiresAt credential) (cc_RevokedAt credential)).

(** [before] and [between] are what others do to the store before and inside
    the rotation. *)
Definition RotateSelf s (before between : S → S) (principal : Principal) : go S SelfRotation :=
  let! source := authenticatedCredential principal in
  let! t := now in
  modify before ;;
  let! outcome := attempt (Service_Rotate s between
    (RotateRequest (pr_OrgID principal) (pr_CredentialID principal) "" [] [] (pr_Subject principal)
       (Some (time_Add t DeviceCredentialLifetime)) MaximumOverlap true)) in
  match outcome with
  | inl ErrNotFound => fail ErrStaleSelfCredential
  | inl e => fail e
  | inr issued =>
    let until := time_Add (cc_CreatedAt (ic_Credential issued)) MaximumOverlap in
    let rollbackUntil :=
      match sn_ExpiresAt source with
      | Some e => if time_Before e until then e else until
      | None => until
      end in
    ret (MkSelfRotation issued
           (Receipt (pr_CredentialID principal) (cc_CredentialID (ic_Credential issued)) rollbackUntil))
  end.

Definition RollbackSelfRotation between (principal : Principal) (receipt : SelfRotationReceipt)
    : go S SelfRevocation :=
  lift_res (validateSelfLifecyclePrincipal principal) ;;
  let! credential := Lifecycle.GetByID (pr_OrgID principal) (pr_CredentialID principal) in
  refuse! negb (bool_decide (cc_RepositoryScopes credential = pr_RepositoryScopes principal))
          || negb (bool_decide (cc_Scopes credential = pr_Permissions principal))
    with ErrInvalidCredential "" ;;
  refuse! isEmpty (strings_TrimSpace (sr_SourceCredentialID receipt))
          || negb (bool_decide (strings_TrimSpace (sr_SuccessorCredentialID receipt) = pr_CredentialID principal))
          || bool_decide (sr_SourceCredentialID receipt = pr_CredentialID principal)
    with ErrInvalidCredential "" ;;
  let! now := now in
  refuse! negb (time_After (sr_RollbackUntil receipt) now) with ErrInvalidCredential "" ;;
  modify between ;;
  let! revoked := Lifecycle.RollbackCredentialRotation
    (Rollback (pr_OrgID principal) (sr_SourceCredentialID receipt) (sr_SuccessorCredentialID receipt)
       (pr_Subject principal) (sr_RollbackUntil receipt)) in
  ret (MkSelfRevocation (cc_CredentialID revoked) revoked).

Definition RevokeSelf between (principal : Principal) : go S SelfRevocation :=
  authenticatedCredential principal ;;
  modify between ;;
  let! outcome := attempt (service_revoke (pr_OrgID principal) (pr_CredentialID principal)
                             (pr_Subject principal) true) in
  match outcome with
  | inl ErrNotFound => fail ErrStaleSelfCredential
  | inl e => fail e
  | inr credential => ret (MkSelfRevocation (cc_CredentialID credential) credential)
  end.

Definition OutcomeOK : string := "ok".
Definition OutcomeInvalidGrant : string := "invalid_grant".
Definition OutcomeClientMismatch : string := "client_mismatch".

Record PresentedRevocation := Presented { pv_Outcome : string; pv_CredentialID : string }.

Definition RevokePresentedAccessToken between (token clientID : string) : go S PresentedRevocation :=
  refuse! isEmpty (strings_TrimSpace clientID) with ErrInvalidCredential "" ;;
  if negb (IsTokenShapeValid token) then ret (Presented OutcomeInvalidGrant "")
  else
    let! found := attempt (Lifecycle.FindByTokenHash (HashToken token)) in
    match found with
    | inl ErrNotFound => ret (Presented OutcomeInvalidGrant "")
    | inl e => fail e
    | inr credential =>
      let id := cc_CredentialID credential in
      if negb (bool_decide (pv_ClientID (cc_Provenance credential) = clientID))
      then ret (Presented OutcomeClientMismatch id)
      else
        modify between ;;
        let! revoked := attempt (service_revoke (cc_OrgID credential) id id true) in
        match revoked with
        | inl ErrNotFound | inl ErrConflict => ret (Presented OutcomeInvalidGrant id)
        | inl e => fail e
        | inr _ => ret (Presented OutcomeOK id)
        end
    end.

(** ** revoke_on_behalf.go *)

Definition OnBehalfActorUser : string := "user".
Definition OnBehalfActorAdmin : string := "admin".
Definition OnBehalfRefusedUnknownCredential : string := "unknown_credential".
Definition OnBehalfRefusedNotMCPBound : string := "not_mcp_bound".
Definition OnBehalfRefusedNotApprover : string := "not_approver".

Definition RevokeOnBehalf between (orgID0 credentialID0 actorType actorID0 : string) : go S ClientCredential :=
  let orgID := strings_TrimSpace orgID0 in
  let credentialID := strings_TrimSpace credentialID0 in
  let actorID := strings_TrimSpace actorID0 in
  refuse! isEmpty orgID || isEmpty actorID
          || negb (bool_decide (actorType = OnBehalfActorUser)) && negb (bool_decide (actorType = OnBehalfActorAdmin))
    with ErrInvalidCredential "org_id, a known actor type and actor are required" ;;
  let! found := attempt (Lifecycle.GetByID orgID credentialID) in
  match found with
  | inl ErrNotFound | inl (ErrInvalidInput _) => fail (ErrRevokeOnBehalfRefused OnBehalfRefusedUnknownCredential)
  | inl e => fail e
  | inr credential =>
    refuse! negb (bool_decide (pv_ClientClass (cc_Provenance credential) = ClientClassOAuthUser))
            || isEmpty (cc_Resource credential)
      with ErrRevokeOnBehalfRefused OnBehalfRefusedNotMCPBound ;;
    refuse! bool_decide (actorType = OnBehalfActorUser)
            && negb (bool_decide (pv_ApprovingUserID (cc_Provenance credential) = actorID))
      with ErrRevokeOnBehalfRefused OnBehalfRefusedNotApprover ;;
    modify between ;;
    revokeWithActor (Revocation orgID (cc_CredentialID credential) actorID actorType "" false)
  end.
End service.
