(* ===== verification/AuthServiceTheorems.v ===== *)
(** * AuthServiceTheorems: what the credential service guarantees

    The service over the in-memory credential store.  Its operations compose
    the grant rules of [Grants], the tokens of [Tokens] and the store: a token
    it issues keeps authenticating until its credential is revoked or expires,
    a rotation never hands on more than its parent holds, a self rotation hands
    on exactly that, and a revocation on behalf of somebody or by a presented
    token reaches only the credentials it may.  Other callers may run any
    operations of the store between the two store calls of one operation. *)

From Stdlib Require Import ZArith Lia Ascii.
From stdpp Require Import sorting pretty numbers gmap strings list_numbers list.
From S2P Require Import Prelude GoStrings RepoSlug GoNet CredTypes Validation Tokens Grants GrantTheorems Outbox AuditStore CredentialStore CredentialStoreProofs CredentialTheorems Lifecycle AuthService.

Open Scope Z_scope.

Section service.
Context `{UnicodeTables} `{UUIDLib}.
Implicit Types (sv : Service) (s : credentialStore) (between : credentialStore → credentialStore).

(** What others do to a store is a run of its operations. *)
Definition others between : Prop := ∀ s, store_ok s → steps s (between s).

Lemma others_ok between s : others between → store_ok s → store_ok (between s).
Proof. intros Hb Hok. by eapply steps_keep; [apply Hb|]. Qed.

Lemma others_evolve between s id x :
  others between → store_ok s → cs_byID s !! id = Some x →
  ∃ x', cs_byID (between s) !! id = Some x' ∧ evolves x x'.
Proof. intros Hb Hok Hx. by eapply steps_evolve; [apply Hb| |]. Qed.

Lemma others_nothing : others id.
Proof. intros s _. apply steps_refl. Qed.

Lemma bind_modify {A} (f : credentialStore → credentialStore) (k : () → go credentialStore A) w :
  bind (modify f) k w = k () (w.1, f w.2).
Proof. done. Qed.

(** ** The calls of the lifecycle *)

Lemma lifecycle_get org id w c w' :
  Lifecycle.GetByID org id w = (Ok c, w') →
  ∃ r, cs_byID w.2 !! strings_TrimSpace id = Some r ∧ cr_Metadata r = c.
Proof.
  intros Hrun. apply front_get in Hrun as (_ & _ & Hc). specialize (Hc c eq_refl).
  apply cs_view_Some in Hc as (r & Hr & ->). eauto.
Qed.

Lemma lifecycle_get_state org id w r w' : Lifecycle.GetByID org id w = (r, w') → w'.2 = w.2 ∧ r ≠ Panic.
Proof. intros Hrun. by apply front_get in Hrun as (? & ? & _). Qed.

Lemma normalizeText_trim name v max r : normalizeText name v max = Ok r → r = strings_TrimSpace v.
Proof. by intros (-> & _)%normalizeText_Ok. Qed.

Lemma normalizeCredentialID_trim v r : normalizeCredentialID v = Ok r → r = strings_TrimSpace v.
Proof. pose proof (normalizeCredentialID_spec v) as Hs. intros E. by rewrite E in Hs. Qed.

Lemma lifecycle_find h w r w' :
  Lifecycle.FindByTokenHash h w = (r, w') →
  w'.2 = w.2 ∧ r ≠ Panic
  ∧ ∀ c, r = Ok c → ∃ id rec, cs_byHash w.2 !! strings_TrimSpace h = Some id ∧ cs_byID w.2 !! id = Some rec
      ∧ c = cr_Metadata rec ∧ cc_RevokedAt c = None.
Proof.
  unfold Lifecycle.FindByTokenHash, Lifecycle.operationContext. intros Hrun.
  apply bind_ctx in Hrun as [(e & -> & Hw)|(e & Hrun)]; [by split_and!|]. rewrite bind_lift in Hrun.
  destruct (normalizeTokenHash h) as [n|err|] eqn:Hn; [|injection Hrun as <- <-; by split_and!|].
  - assert (n = strings_TrimSpace h) as ->.
    { revert Hn. unfold normalizeTokenHash, invalid. rewrite reject_Ok. by intros [_ [= <-]]. }
    split; [by eapply readonly_FindByTokenHash in Hrun|]. split.
    + intros ->. apply (exec_discard _ _ _ _) in Hrun.
      by apply (store_never_panics_aux (OpFind (strings_TrimSpace h))) in Hrun.
    + intros c ->. apply find_inv in Hrun as (id & rec & ? & ? & ? & ? & _). eauto 10.
  - unfold normalizeTokenHash, invalid in Hn. by destruct (negb _) in Hn.
Qed.

Lemma lifecycle_revoke input w r w' :
  Lifecycle.RevokeCredential input w = (r, w') → store_ok w.2 →
  r ≠ Panic ∧ (∀ e, r = Err e → w'.2 = w.2)
  ∧ ∀ c, r = Ok c → ∃ rec rec', cs_byID w.2 !! strings_TrimSpace (vi_CredentialID input) = Some rec
      ∧ cc_OrgID (cr_Metadata rec) = strings_TrimSpace (vi_OrgID input)
      ∧ cc_RevokedAt (cr_Metadata rec) = None
      ∧ cs_byID w'.2 !! strings_TrimSpace (vi_CredentialID input) = Some rec' ∧ c = cr_Metadata rec'
      ∧ is_Some (cc_RevokedAt c) ∧ evolves rec rec'.
Proof.
  intros Hrun Hok. pose proof Hrun as Hfront. apply front_revoke in Hfront as (_ & Hp & He & _); [|done].
  split; [done|]. split; [done|]. intros c ->. clear Hp He.
  unfold Lifecycle.RevokeCredential, Lifecycle.operationContext in Hrun.
  apply bind_ctx in Hrun as [(e & ? & Hw)|(e & Hrun)]; [done|]. rewrite bind_lift in Hrun.
  pose proof (normalizeRevocation_spec input) as Hn.
  destruct (normalizeRevocation input) as [n|err|] eqn:En; [|done..].
  assert (vi_OrgID n = strings_TrimSpace (vi_OrgID input)) as Horg.
  { unfold normalizeRevocation in En. res_inv En. injection En as <-. cbn. by eapply normalizeText_trim. }
  apply revoke_spec in Hrun as [(now & rec & Hrec & Ho & Hnr & Hr & Eid & _)|(err & ? & _)]; [|done].
  rewrite Hn in *. cbn [snd] in *. exists rec, (revoke_record now rec).
  split_and!; [done|congruence|done| |congruence| |by apply evolves_revoke].
  - rewrite Eid, lookup_revoke_all, Hrec, decide_True; [done|]. unfold revoked_ids. rewrite Hn. set_solver.
  - injection Hr as ->. by eexists.
Qed.

(** ** Revocation on behalf of somebody *)

(** Who may have a credential revoked through the Auth Control Plane: an admin
    or the user who approved it, and only a credential that a user approved for
    an OAuth client on a resource. *)
Definition on_behalf_admits (actorType actorID : string) (c : ClientCredential) : Prop :=
  pv_ClientClass (cc_Provenance c) = ClientClassOAuthUser ∧ cc_Resource c ≠ ""
  ∧ (actorType = OnBehalfActorAdmin
     ∨ actorType = OnBehalfActorUser ∧ pv_ApprovingUserID (cc_Provenance c) = actorID).

(** C19: a revocation on behalf of somebody reaches only what it may, whatever
    others do to the store between its check and its revocation.  When it
    succeeds, the credential of that id was, when it was read, one that a user
    approved for an OAuth client, in the named organization, and the actor is
    an admin or that very user; it is revoked now and is otherwise the same
    credential.  When it is refused or fails, it has changed nothing. *)
Theorem on_behalf_revokes_only_admitted between orgID id actorType actorID e s r e' s' :
  others between → store_ok s →
  RevokeOnBehalf between orgID id actorType actorID (e, s) = (r, (e', s')) →
  match r with
  | Ok c => ∃ rec rec', cs_byID s !! strings_TrimSpace id = Some rec
      ∧ on_behalf_admits actorType (strings_TrimSpace actorID) (cr_Metadata rec)
      ∧ cc_OrgID (cr_Metadata rec) = strings_TrimSpace orgID
      ∧ cs_byID s' !! strings_TrimSpace id = Some rec' ∧ c = cr_Metadata rec'
      ∧ is_Some (cc_RevokedAt c) ∧ evolves rec rec'
  | Err _ => s' = s ∨ s' = between s
  | Panic => False
  end.
Proof.
  intros Hb Hok. unfold RevokeOnBehalf. cbv zeta.
  destruct (isEmpty _ || isEmpty _ || _) eqn:Hg.
  { intros [= <- _ <-]. by left. }
  intros Hrun. apply bind_res_inv in Hrun as [(found & [e1 s1] & Hget & Hrun)|[(err & -> & Hget)|[-> Hget]]];
    apply attempt_inv in Hget as (r0 & Hget & Hr0); pose proof Hget as [Hs1 Hnp]%lifecycle_get_state;
    [|by destruct r0..]. cbn in Hs1. subst s1.
  destruct r0 as [c0|err|]; [| |done]; injection Hr0 as ->.
  2: { destruct err; injection Hrun as <- _ <-; by left. }
  apply lifecycle_get in Hget as (rec & Hrec & <-). cbn [snd] in Hrec. rewrite TrimSpace_idemp in Hrec.
  destruct (negb _ || isEmpty (cc_Resource _)) eqn:Hclass; [injection Hrun as <- _ <-; by left|].
  destruct (bool_decide (actorType = OnBehalfActorUser) && _) eqn:Huser; [injection Hrun as <- _ <-; by left|].
  rewrite bind_modify in Hrun. cbn [fst snd] in Hrun.
  pose proof (others_ok _ _ Hb Hok) as Hok1. destruct (others_evolve _ _ _ _ Hb Hok Hrec) as (rec1 & Hrec1 & Hev).
  apply lifecycle_revoke in Hrun as (Hp & He & Hc); [|done]. cbn [fst snd vi_CredentialID vi_OrgID] in *.
  destruct (ok_key _ Hok _ _ Hrec) as [Hid _]. rewrite Hid, !TrimSpace_idemp in Hc.
  destruct r as [c|err|]; [|by right; eapply He|done].
  destruct (Hc c eq_refl) as (rec2 & rec' & Hrec2 & Horg & _ & Hrec' & -> & Hrev & Hev').
  assert (rec2 = rec1) as -> by congruence. exists rec, rec'.
  apply orb_false_iff in Hclass as [Hcl%negb_false_iff%bool_decide_eq_true Hres%bool_decide_eq_false].
  split_and!; [done| |rewrite <-Horg; symmetry; apply Hev|done|done|done|by etrans].
  split_and!; [done|done|].
  rewrite !orb_false_iff, !andb_false_iff, !negb_false_iff, !bool_decide_eq_true in Hg.
  apply andb_false_iff in Huser. rewrite bool_decide_eq_false, negb_false_iff, bool_decide_eq_true in Huser.
  naive_solver.
Qed.

(** ** Revocation by the token itself *)

Lemma service_revoke_spec org id actor self w r w' :
  service_revoke org id actor self w = (r, w') → store_ok w.2 →
  r ≠ Panic ∧ (∀ e, r = Err e → w'.2 = w.2)
  ∧ ∀ c, r = Ok c → ∃ rec rec', cs_byID w.2 !! strings_TrimSpace id = Some rec
      ∧ cc_OrgID (cr_Metadata rec) = strings_TrimSpace org
      ∧ cc_RevokedAt (cr_Metadata rec) = None
      ∧ cs_byID w'.2 !! strings_TrimSpace id = Some rec' ∧ c = cr_Metadata rec'
      ∧ is_Some (cc_RevokedAt c) ∧ evolves rec rec'.
Proof.
  unfold service_revoke. cbv zeta. destruct (_ || _ || _); [by intros [= <- <-]|].
  intros Hrun Hok. apply lifecycle_revoke in Hrun as (Hp & He & Hc); [|done]. split_and!; [done..|].
  intros c Hr. specialize (Hc c Hr). cbn [vi_CredentialID vi_OrgID] in Hc. by rewrite !TrimSpace_idemp in Hc.
Qed.

Lemma hash_token_trim token : strings_TrimSpace (HashToken token) = HashToken token.
Proof.
  pose proof (hash_accepted token) as Hh. unfold normalizeTokenHash, invalid in Hh.
  rewrite reject_Ok in Hh. by destruct Hh as [_ [= ->]].
Qed.

(** The ids of a store are in the form the lifecycle lets in. *)
Definition ids_normal s : Prop := ∀ id, is_Some (cs_byID s !! id) → strings_TrimSpace id = id.

(** Presenting a token for revocation reveals and changes nothing but its
    own credential, whatever others do in between.  The answer is ok only when
    the token is the one of a live credential issued to the named client, and
    then that credential is revoked and is otherwise as it was; every other
    answer leaves the store alone. *)
Theorem presented_token_revokes_itself between token clientID e s p e' s' :
  others between → store_ok s → ids_normal s →
  RevokePresentedAccessToken between token clientID (e, s) = (Ok p, (e', s')) →
  if bool_decide (pv_Outcome p = OutcomeOK) then
    ∃ rec rec', cs_byID s !! pv_CredentialID p = Some rec
      ∧ cr_TokenHash rec = HashToken token
      ∧ pv_ClientID (cc_Provenance (cr_Metadata rec)) = clientID ∧ cc_RevokedAt (cr_Metadata rec) = None
      ∧ cs_byID s' !! pv_CredentialID p = Some rec'
      ∧ is_Some (cc_RevokedAt (cr_Metadata rec')) ∧ evolves rec rec'
  else s' = s ∨ s' = between s.
Proof.
  intros Hb Hok Hids. unfold RevokePresentedAccessToken. destruct (isEmpty _); [done|].
  destruct (negb _); [intros [= <- _ <-]; by left|].
  intros Hrun. apply bind_Ok_inv in Hrun as (found & [e1 s1] & Hfind & Hrun).
  apply attempt_inv in Hfind as (r0 & Hfind & Hr0). apply lifecycle_find in Hfind as (Hs1 & _ & Hfound).
  cbn [snd] in Hs1, Hfound. subst s1. destruct r0 as [c|err|]; [| |done]; injection Hr0 as ->.
  2: { destruct err; try discriminate Hrun. injection Hrun as <- _ <-. by left. }
  destruct (Hfound c eq_refl) as (id & rec & Hh & Hrec & -> & Hnr). rewrite hash_token_trim in Hh. clear Hfound.
  destruct (ok_key _ Hok _ _ Hrec) as [Hid _].
  destruct (ok_hash _ Hok _ _ Hh) as (rec' & Hrec' & Hth). assert (rec' = rec) as -> by congruence.
  rewrite Hid in Hrun. case_bool_decide as Hclient; cbn [negb] in Hrun; [|injection Hrun as <- _ <-; by left].
  rewrite bind_modify in Hrun. cbn [fst snd] in Hrun. pose proof (others_ok _ _ Hb Hok) as Hok1.
  apply bind_Ok_inv in Hrun as (revoked & [e2 s2] & Hrev & Hrun).
  apply attempt_inv in Hrev as (r0 & Hrev & Hr0). apply service_revoke_spec in Hrev as (_ & He & Hc); [|done].
  cbn [snd] in He, Hc. destruct r0 as [c2|err|]; [| |done]; injection Hr0 as ->.
  2: { specialize (He err eq_refl). destruct err; try discriminate Hrun;
         injection Hrun as <- _ <-; right; exact He. }
  injection Hrun as <- _ <-. cbn.
  destruct (Hc c2 eq_refl) as (rec1 & rec2 & Hrec1 & _ & _ & Hrec2 & -> & Hrv & Hev2).
  rewrite Hids in Hrec1, Hrec2 by eauto. destruct (others_evolve _ _ _ _ Hb Hok Hrec) as (x & Hx & Hev).
  assert (x = rec1) as -> by congruence. exists rec, rec2. split_and!; try done. by etrans.
Qed.

(** ** Issuing *)

Lemma lifecycle_create input w c w' :
  Lifecycle.CreateCredential input w = (Ok c, w') →
  ∃ n now rec, normalizeCreate input = Ok n ∧ c = credentialFromCreate n now
    ∧ cs_byID w'.2 !! ci_CredentialID n = Some rec ∧ cr_Metadata rec = c ∧ cr_TokenHash rec = ci_TokenHash n.
Proof.
  unfold Lifecycle.CreateCredential, Lifecycle.operationContext. intros Hrun.
  apply bind_ctx in Hrun as [(e & ? & _)|(e & Hrun)]; [done|]. rewrite bind_lift in Hrun.
  destruct (normalizeCreate input) as [n|err|] eqn:En; [|done..].
  apply create_spec in Hrun as [(now & [= ->] & _ & _ & _ & [Eid _ _ _ _])|(err & ? & _)]; [|done].
  exists n, now, (created n now). split_and!; [done..| |done|done]. by rewrite Eid, lookup_insert_eq.
Qed.

Lemma lifecycle_create_keeps input w r w' :
  Lifecycle.CreateCredential input w = (r, w') → store_ok w.2 → store_ok w'.2.
Proof. intros Hrun Hok. by apply front_create in Hrun as [? _]. Qed.

(** The credential is neither revoked nor expired. *)
Definition usable (now : time) (c : ClientCredential) : Prop :=
  cc_RevokedAt c = None ∧ ∀ t, cc_ExpiresAt c = Some t → now < t.

(** A token finds its credential just while that is usable. *)
Lemma find_live token e s rec id :
  store_ok s → cs_byID s !! id = Some rec → cr_TokenHash rec = HashToken token → env_ctx e = [] →
  let found := (Lifecycle.FindByTokenHash (HashToken token) (e, s)).1 in
  (usable (clock e) (cr_Metadata rec) → found = Ok (cr_Metadata rec)) ∧
  (¬ usable (clock e) (cr_Metadata rec) → found = Err ErrNotFound).
Proof.
  intros Hok Hrec Hh Hctx. destruct (ok_key _ Hok _ _ Hrec) as [_ Hkey]. rewrite Hh in Hkey.
  destruct e as [ctx clk]. cbn in Hctx. subst ctx.
  unfold Lifecycle.FindByTokenHash, Lifecycle.operationContext.
  match goal with |- context [bind ctx_check ?k ?w] => change (bind ctx_check k w) with (k () w) end.
  cbv beta. rewrite bind_lift, hash_accepted. cbn [be_FindByTokenHash memory_backend]. unfold FindByTokenHash, ready.
  match goal with |- context [bind ctx_check ?k ?w] => change (bind ctx_check k w) with (k () w) end.
  cbv beta. match goal with |- context [bind ctx_check ?k ?w] => change (bind ctx_check k w) with (k () w) end.
  cbv beta. rewrite bind_get. cbn [snd]. rewrite Hkey.
  match goal with |- context [bind now ?k ?w] => destruct (bind_now_clock k w) as [e3 ->] end.
  cbn [fst snd]. rewrite Hrec. unfold usable. destruct (_ || expired_at _ _) eqn:Hg; cbn.
  - split; [|done]. intros [Hr Hx]. exfalso. apply orb_true_iff in Hg as [Hg%bool_decide_eq_true|Hg].
    + rewrite Hr in Hg. by destruct Hg.
    + unfold expired_at in Hg. destruct (cc_ExpiresAt (cr_Metadata rec)) as [t|]; [|done].
      specialize (Hx t eq_refl). apply negb_true_iff, bool_decide_eq_false in Hg. lia.
  - split; [done|]. intros Hn. exfalso. apply Hn. apply orb_false_iff in Hg as [Hg%bool_decide_eq_false Hx].
    split; [by apply eq_None_not_Some|]. intros t Ht. unfold expired_at in Hx. rewrite Ht in Hx.
    by apply negb_false_iff, bool_decide_eq_true in Hx.
Qed.

(** C18: an issued token works exactly as long as its credential lives.  After
    the service has created a credential, in every state that later operations
    reach, whoever runs them, a lookup of its token whose context is alive answers
    with that credential while it is neither revoked nor past its expiry, and
    is refused as soon as it is. *)
Theorem issued_token_authenticates sv request e s issued e' s' s'' e2 :
  store_ok s → Service_Create sv request (e, s) = (Ok issued, (e', s')) → steps s' s'' → env_ctx e2 = [] →
  ∃ rec rec', cs_byID s' !! cc_CredentialID (ic_Credential issued) = Some rec ∧ cr_Metadata rec = ic_Credential issued
    ∧ cs_byID s'' !! cc_CredentialID (ic_Credential issued) = Some rec' ∧ evolves rec rec' ∧
    let found := (Lifecycle.FindByTokenHash (HashToken (ic_Token issued)) (e2, s'')).1 in
    (usable (clock e2) (cr_Metadata rec') → found = Ok (cr_Metadata rec')) ∧
    (¬ usable (clock e2) (cr_Metadata rec') → found = Err ErrNotFound).
Proof.
  intros Hok Hrun Hs Hctx. unfold Service_Create in Hrun.
  apply bind_Ok_inv in Hrun as (prepared & [e1 s1] & Hprep & Hrun).
  unfold PrepareCreate in Hprep. rewrite bind_lift in Hprep.
  destruct (normalizeCreateRequest request) as [normalized|err|]; [|done..].
  apply bind_now in Hprep as (t & e3 & Hprep). destruct (past_expiry _ t); [done|]. rewrite bind_lift in Hprep.
  destruct (issueCreateInput sv normalized) as [[token input]|err|] eqn:Hissue; [|done..].
  injection Hprep as <- -> <-. cbn [StorageInput pc_input snd fst] in Hrun.
  apply bind_Ok_inv in Hrun as (c & [e4 s4] & Hcreate & Hrun). pose proof Hcreate as Hkeep.
  apply lifecycle_create_keeps in Hkeep; [|done]. cbn in Hkeep.
  apply lifecycle_create in Hcreate as (n & now' & rec & Hn & Hc & Hrec & Hmeta & Hhash). cbn in Hrec.
  unfold Complete_ in Hrun. cbn [pc_complete pc_input] in Hrun.
  destruct (_ || _) eqn:Hids in Hrun; [done|]. cbn in Hrun. injection Hrun as <- -> <-. cbn [ic_Credential ic_Token].
  assert (cc_CredentialID c = ci_CredentialID n) as Hid by (by rewrite Hc).
  assert (cr_TokenHash rec = HashToken token) as Hh.
  { rewrite Hhash. apply normalizeCreate_Ok in Hn. pose proof (nz_hash _ _ Hn) as Hz.
    unfold issueCreateInput in Hissue. res_inv Hissue. injection Hissue as <- <-. cbn in Hz.
    rewrite hash_accepted in Hz. by injection Hz. }
  destruct (steps_evolve _ _ Hs Hkeep _ _ Hrec) as (rec' & Hrec' & Hev).
  exists rec, rec'. rewrite Hid. do 4 (split; [done|]).
  apply find_live with (id := ci_CredentialID n); [by eapply steps_keep|done| |done].
  by rewrite (ev_hash _ _ Hev).
Qed.

(** ** Rotation *)

Lemma lifecycle_rotate input w r w' :
  Lifecycle.RotateCredential input w = (r, w') →
  r ≠ Panic ∧ (∀ e, r = Err e → w'.2 = w.2)
  ∧ ∀ c, r = Ok c → ∃ n now old rec, normalizeRotation input = Ok n
      ∧ cs_byID w.2 !! ri_SourceCredentialID n = Some old ∧ cc_OrgID (cr_Metadata old) = ri_OrgID n
      ∧ c = rotated_replacement n old now
      ∧ cs_byID w'.2 !! rr_CredentialID (ri_Replacement n) = Some rec ∧ cr_Metadata rec = c
      ∧ cr_TokenHash rec = rr_TokenHash (ri_Replacement n).
Proof.
  unfold Lifecycle.RotateCredential, Lifecycle.operationContext. intros Hrun.
  apply bind_ctx in Hrun as [(e & -> & Hw)|(e & Hrun)]; [by split_and!|]. rewrite bind_lift in Hrun.
  destruct (normalizeRotation input) as [n|err|] eqn:En.
  - apply rotate_spec in Hrun as [(now & old & Hold & Horg & _ & _ & _ & _ & _ & -> & Hrec)|(err & -> & Hw)];
      [|by split_and!].
    split; [discriminate|]. split; [discriminate|]. intros c [= <-]. 
    exists n, now, old, (CredRecord (rotated_replacement n old now) (rr_TokenHash (ri_Replacement n)) (ri_ActorID n)
      None "" "" ""). destruct Hrec as [Eid _ _ _ _].
    split_and!; [done|done|done|done|by rewrite Eid, lookup_insert_eq|done|done].
  - injection Hrun as <- <-. by split_and!.
  - exfalso. revert En. unfold normalizeRotation. pose proof (normalizeText_spec "organization" (ri_OrgID input) 200).
    unfold normalizeIdentifier. destruct (normalizeText "organization" _ _) as [org|err|]; cbn [res_bind]; [|done..].
    pose proof (normalizeCredentialID_spec (ri_SourceCredentialID input)).
    destruct (normalizeCredentialID _) as [src|err|]; cbn [res_bind]; [|done..].
    pose proof (normalizeText_spec "actor" (ri_ActorID input) 200).
    destruct (normalizeText "actor" _ _) as [actor|err|]; cbn [res_bind]; [|done..]. destruct (_ && _); [done|].
    pose proof (normalizeCreate_safe (rotation_create org actor (ri_Replacement input))) as Hs.
    destruct (normalizeCreate _) as [n|err|]; cbn [res_bind]; [|done..]. by repeat destruct (negb _); repeat case_bool_decide.
Qed.

Lemma normalizeRepositories_elem l l' :
  normalizeRepositories l = Ok l' →
  StronglySorted String.le l' ∧ NoDup l' ∧ Forall (λ v, ValidScope v = true) l'
  ∧ ∀ x, x ∈ l' ↔ ∃ r, r ∈ l ∧ x = folded r.
Proof.
  unfold normalizeRepositories, invalid. case_bool_decide; [done|].
  intros (m & (Hn & Hx & Hv)%fold_scopes_sound & [= <-])%res_bind_Ok.
  assert (∀ x, x ∈ sort_Strings m ↔ ∃ r, r ∈ l ∧ x = folded r) as Hin.
  { intros x. rewrite elem_of_sort_Strings, Hx, list_elem_of_fmap. unfold folded, fold_repository. set_solver. }
  split_and!; [apply sort_Strings_sorted|by rewrite sort_Strings_perm| |done].
  apply Forall_forall. intros x (r & Hr & ->)%Hin. rewrite Forall_forall in Hv. apply Hv.
  apply list_elem_of_fmap. by exists r.
Qed.

(** The two normalisations of repository scopes allow the same repositories. *)
Lemma twice_normalized l l' slug :
  Forall (λ v, ValidScope v = true) l → normalizeRepositories l = Ok l' →
  RepositoryAllowed l' slug = true → RepositoryAllowed l slug = true.
Proof.
  rewrite Forall_forall, !allowed_iff. intros Hl (_ & _ & _ & Hx)%normalizeRepositories_elem.
  intros (n & o & rest & v & ? & ? & ? & ? & (r & Hr & ->)%Hx & Hg).
  exists n, o, rest, r. assert (folded r = r) as Hid by (by apply ValidScope_normal, Hl). rewrite Hid in *.
  by rewrite Hid in Hg.
Qed.

Lemma normalizeScopes_elem l l' :
  normalizeScopes l = Ok l' → NoDup l' ∧ StronglySorted String.le l' ∧ ∀ x, x ∈ l' ↔ x ∈ strings_TrimSpace <$> l.
Proof.
  unfold normalizeScopes, invalid. case_bool_decide; [done|].
  intros (m & (Hn & Hx & _)%fold_scopes_sound & [= <-])%res_bind_Ok.
  split_and!; [by rewrite sort_Strings_perm|apply sort_Strings_sorted|].
  intros x. rewrite elem_of_sort_Strings, Hx. set_solver.
Qed.

Lemma auth_scopes_elem seen result raws l :
  scopes_loop seen result raws = Ok l → (∀ x, x ∈ seen ↔ x ∈ result) → NoDup result →
  NoDup l ∧ (∀ x, x ∈ l ↔ x ∈ result ∨ x ∈ strings_TrimSpace <$> raws)
  ∧ ∀ x, x ∈ strings_TrimSpace <$> raws → x ∈ knownScopes.
Proof.
  revert seen result. induction raws as [|raw raws IH]; intros seen result Hl Hs Hn; cbn in Hl.
  { injection Hl as <-. split_and!; [done|set_solver|set_solver]. }
  rewrite reject_Ok in Hl. destruct Hl as [Hk%negb_false_iff%bool_decide_eq_true Hl].
  assert (strings_TrimSpace raw ∈ knownScopes) as Hknown by exact Hk.
  case_bool_decide as Hin.
  - apply IH in Hl as (? & Hx & ?); [|done..]. apply Hs in Hin. split_and!; [done| |set_solver].
    intros x. rewrite Hx. set_solver.
  - rewrite Hs in Hin. apply IH in Hl as (? & Hx & ?); [|set_solver|].
    + split_and!; [done| |set_solver]. intros x. rewrite Hx. set_solver.
    + apply NoDup_app. split_and!; [done|set_solver|apply NoDup_singleton].
Qed.

(** What the service hands to the lifecycle as a successor. *)
Lemma rotation_input sv normalized overlap token replacement orgID source actor self n :
  issueRotationInput sv normalized overlap = Ok (token, replacement) →
  normalizeRotation (Rotation orgID source actor self replacement) = Ok n →
  ri_SourceCredentialID n = strings_TrimSpace source ∧ ri_OrgID n = strings_TrimSpace orgID
  ∧ rr_TokenHash (ri_Replacement n) = HashToken token
  ∧ normalizeRepositories (cq_RepositoryScopes normalized) = Ok (rr_RepositoryScopes (ri_Replacement n))
  ∧ normalizeScopes (cq_Scopes normalized) = Ok (rr_Scopes (ri_Replacement n)).
Proof.
  unfold issueRotationInput. intros Hi Hn. res_inv Hi. injection Hi as <- <-.
  unfold issueCreateInput in Ha. res_inv Ha. injection Ha as <-.
  unfold normalizeRotation in Hn. res_inv Hn. injection Hn as <-. cbn [fst snd] in *. cbn in *.
  apply normalizeCreate_Ok in Ha4 as [? ? ? _ _ Hhash Hr Hs ? ? ? ? ? ? ? ? ? ? ?]. cbn in Hhash, Hr, Hs.
  rewrite hash_accepted in Hhash. injection Hhash as Hhash.
  split_and!; [by eapply normalizeCredentialID_trim|by eapply normalizeText_trim|done|done|done].
Qed.

(** What a request for a successor asks for, the parent's where it is silent. *)
Definition or_parent {A} (asked parent : list A) : list A :=
  if bool_decide (asked = []) then parent else asked.

(** A successful rotation, step by step. *)
Record rotated between (request : RotateCredentialRequest) s s' (issued : IssuedCredential)
    (parent old rec : CredentialRecord) : Prop := {
  rt_parent : cs_byID s !! strings_TrimSpace (rq_CredentialID request) = Some parent;
  rt_class : pv_ClientClass (cc_Provenance (cr_Metadata parent)) ≠ ClientClassBrowser;
  rt_live : cc_RevokedAt (cr_Metadata parent) = None;
  rt_old : cs_byID (between s) !! strings_TrimSpace (rq_CredentialID request) = Some old;
  rt_evolved : evolves parent old;
  rt_within : ∃ normalized, rotationWithinParent (cr_Metadata parent) normalized = true
    ∧ NormalizeRepositoryScopes (or_parent (rq_RepositoryScopes request) (cc_RepositoryScopes (cr_Metadata parent)))
      = Ok (cq_RepositoryScopes normalized)
    ∧ auth_normalizeScopes (or_parent (rq_Scopes request) (cc_Scopes (cr_Metadata parent))) = Ok (cq_Scopes normalized)
    ∧ normalizeRepositories (cq_RepositoryScopes normalized) = Ok (cc_RepositoryScopes (ic_Credential issued))
    ∧ normalizeScopes (cq_Scopes normalized) = Ok (cc_Scopes (ic_Credential issued));
  rt_org : cc_OrgID (ic_Credential issued) = cc_OrgID (cr_Metadata parent);
  rt_provenance : cc_Provenance (ic_Credential issued) = cc_Provenance (cr_Metadata parent);
  rt_resource : cc_Resource (ic_Credential issued) = cc_Resource (cr_Metadata parent);
  rt_stored : cs_byID s' !! cc_CredentialID (ic_Credential issued) = Some rec;
  rt_metadata : cr_Metadata rec = ic_Credential issued;
  rt_hash : cr_TokenHash rec = HashToken (ic_Token issued);
}.

Lemma normalizeCreateRequest_scopes request normalized :
  normalizeCreateRequest request = Ok normalized →
  NormalizeRepositoryScopes (cq_RepositoryScopes request) = Ok (cq_RepositoryScopes normalized)
  ∧ auth_normalizeScopes (cq_Scopes request) = Ok (cq_Scopes normalized).
Proof. unfold normalizeCreateRequest. intros Hn. res_inv Hn. injection Hn as <-. done. Qed.

Lemma service_rotate_inv sv between request e s issued e' s' :
  others between → store_ok s → Service_Rotate sv between request (e, s) = (Ok issued, (e', s')) →
  ∃ parent old rec, rotated between request s s' issued parent old rec.
Proof.
  intros Hb Hok Hrun. unfold Service_Rotate in Hrun. cbv zeta in Hrun.
  destruct (_ || _) in Hrun; [done|]. destruct (_ || _ || _) in Hrun; [done|].
  apply bind_Ok_inv in Hrun as (current & [e1 s1] & Hget & Hrun).
  pose proof Hget as [Hs1 _]%lifecycle_get_state. cbn in Hs1. subst s1.
  apply lifecycle_get in Hget as (parent & Hparent & <-). cbn [snd] in Hparent. rewrite TrimSpace_idemp in Hparent.
  apply bind_now in Hrun as (t & e2 & Hrun). cbn [fst snd] in Hrun.
  case_bool_decide as Hlive; [done|]. case_bool_decide as Hclass; [done|]. rewrite bind_lift in Hrun.
  set (create := CreateRequest _ _ _ _ _ _ _ _ _ _ _ _ _) in Hrun.
  destruct (normalizeCreateRequest create) as [normalized|err|] eqn:Hn; [|done..].
  destruct (negb (rotationWithinParent _ _)) eqn:Hw; [done|]. apply negb_false_iff in Hw.
  destruct (past_expiry _ _); [done|]. rewrite bind_lift in Hrun.
  destruct (issueRotationInput sv normalized (rq_Overlap request)) as [[token replacement]|err|] eqn:Hissue; [|done..].
  rewrite bind_modify in Hrun. cbn [fst snd] in Hrun.
  apply bind_Ok_inv in Hrun as (c & [e3 s3] & Hrot & Hrun). injection Hrun as <- -> <-.
  apply lifecycle_rotate in Hrot as (_ & _ & Hc). cbn [snd] in Hc.
  destruct (Hc c eq_refl) as (n & now' & old & rec & Hnr & Hold & _ & Hcr & Hrec & Hmeta & Hhash).
  pose proof (rotation_input _ _ _ _ _ _ _ _ _ _ Hissue Hnr) as (Hsrc & _ & Hth & Hrepo & Hsc).
  rewrite Hsrc, TrimSpace_idemp in Hold. destruct (others_evolve _ _ _ _ Hb Hok Hparent) as (old' & Hold' & Hev).
  assert (old' = old) as -> by congruence. destruct (normalizeCreateRequest_scopes _ _ Hn) as [Hr1 Hr2].
  exists parent, old, rec. rewrite Hcr in *. split; cbn [ic_Credential ic_Token]; try done.
  - by apply eq_None_not_Some.
  - exists normalized. by split_and!.
  - apply (ev_org _ _ Hev).
  - apply (ev_provenance _ _ Hev).
  - apply (ev_resource _ _ Hev).
  - by rewrite Hhash, Hth.
Qed.

(** A rotation through the service never hands on more than the parent
    holds, whatever others do in between.  The successor belongs to the same
    organization, carries the same issuance provenance and the same resource,
    allows no repository and has no permission its parent, as it was when the
    rotation began, did not, and is stored under the hash of the token handed
    out; a browser credential and a revoked one are never rotated. *)
Theorem service_rotation_bounded sv between request e s issued e' s' :
  others between → store_ok s → Service_Rotate sv between request (e, s) = (Ok issued, (e', s')) →
  let new := ic_Credential issued in
  ∃ parent rec, cs_byID s !! strings_TrimSpace (rq_CredentialID request) = Some parent
    ∧ cs_byID s' !! cc_CredentialID new = Some rec ∧ cr_Metadata rec = new
    ∧ cr_TokenHash rec = HashToken (ic_Token issued)
    ∧ (let old := cr_Metadata parent in
       cc_RevokedAt old = None ∧ pv_ClientClass (cc_Provenance old) ≠ ClientClassBrowser
       ∧ cc_OrgID new = cc_OrgID old ∧ cc_Provenance new = cc_Provenance old ∧ cc_Resource new = cc_Resource old
       ∧ (∀ slug, RepositoryAllowed (cc_RepositoryScopes new) slug = true →
            RepositoryAllowed (cc_RepositoryScopes old) slug = true)
       ∧ ∀ scope, scope ∈ cc_Scopes new → scope ∈ strings_TrimSpace <$> cc_Scopes old).
Proof.
  intros Hb Hok Hrun new. destruct (service_rotate_inv _ _ _ _ _ _ _ _ Hb Hok Hrun) as (parent & old & rec & [Hp Hc Hl _ _ Hw Ho Hpv Hr Hst Hm Hh]).
  exists parent, rec. cbv zeta. split_and!; try done.
  - intros slug Ha. destruct Hw as (normalized & Hin & Hn & _ & Hrepo & _).
    pose proof (rotation_covers _ _ _ Hin Hn) as [Hwider _]. apply Hwider.
    apply normalized_scopes in Hn as (_ & _ & Hv & _). by eapply twice_normalized.
  - intros scope Hs. destruct Hw as (normalized & Hin & Hn & _ & _ & Hsc).
    pose proof (rotation_covers _ _ _ Hin Hn) as [_ Hwider].
    apply normalizeScopes_elem in Hsc as (_ & _ & Hx). apply Hx in Hs.
    apply list_elem_of_fmap in Hs as (y & -> & Hy). apply Hwider in Hy.
    apply list_elem_of_fmap in Hy as (z & -> & Hz). rewrite TrimSpace_idemp. apply list_elem_of_fmap. by exists z.
Qed.

(** ** Self rotation *)

Lemma sorted_unique (l l' : list string) :
  StronglySorted String.le l → StronglySorted String.le l' → NoDup l → NoDup l' →
  (∀ x, x ∈ l ↔ x ∈ l') → l = l'.
Proof.
  intros Hs Hs' Hn Hn' Hx. eapply (StronglySorted_unique String.le); [done|done|]. by apply NoDup_Permutation.
Qed.

Lemma in_normal_form_true r l : in_normal_form r l = true ↔ r = Ok l.
Proof. unfold in_normal_form. destruct r; [rewrite bool_decide_eq_true|..]; naive_solver. Qed.

Lemma auth_normal_scopes l :
  auth_normalizeScopes l = Ok l → NoDup l ∧ ∀ x, x ∈ l → x ∈ knownScopes.
Proof.
  unfold auth_normalizeScopes. case_bool_decide as He; [by rewrite He|].
  intros (m & Hm & Hr)%res_bind_Ok. apply reject_Ok in Hr as [_ [= ->]].
  apply auth_scopes_elem in Hm as (Hn & Hx & Hk); [|set_solver|constructor]. split; [done|].
  intros x Hin. apply Hk. apply Hx in Hin as [?%elem_of_nil|?]; done.
Qed.

(** The credential a principal authenticated with, as it is now. *)
Lemma authenticated_inv principal e s sn e' s' :
  authenticatedCredential principal (e, s) = (Ok sn, (e', s')) →
  s' = s ∧ ∃ rec, cs_byID s !! strings_TrimSpace (pr_CredentialID principal) = Some rec
    ∧ cc_RevokedAt (cr_Metadata rec) = None
    ∧ cc_RepositoryScopes (cr_Metadata rec) = pr_RepositoryScopes principal
    ∧ cc_Scopes (cr_Metadata rec) = pr_Permissions principal
    ∧ sn_ExpiresAt sn = cc_ExpiresAt (cr_Metadata rec)
    ∧ NormalizeRepositoryScopes (pr_RepositoryScopes principal) = Ok (pr_RepositoryScopes principal)
    ∧ auth_normalizeScopes (pr_Permissions principal) = Ok (pr_Permissions principal).
Proof.
  unfold authenticatedCredential. destruct (_ || _ || _ || _); [done|].
  destruct (negb _) eqn:Hr; [done|]. apply negb_false_iff, in_normal_form_true in Hr.
  destruct (negb _) eqn:Hp; [done|]. apply negb_false_iff, in_normal_form_true in Hp. intros Hrun.
  apply bind_Ok_inv in Hrun as (c & [e1 s1] & Hget & Hrun). pose proof Hget as [Hs1 _]%lifecycle_get_state.
  cbn in Hs1. subst s1. apply lifecycle_get in Hget as (rec & Hrec & <-). cbn [snd] in Hrec.
  case_bool_decide as Hlive; [done|].
  apply bind_Ok_inv in Hrun as (expired & [e2 s2] & Hclock & Hrun).
  assert (s2 = s) as ->.
  { destruct (cc_ExpiresAt _) as [t|]; [|by injection Hclock].
    apply bind_now in Hclock as (t' & e3 & Hclock). by injection Hclock. }
  destruct (_ || _ || _) eqn:Hg in Hrun; [done|]. injection Hrun as <- <- <-.
  rewrite !orb_false_iff, !negb_false_iff, !bool_decide_eq_true in Hg. destruct Hg as [[_ Hrepo] Hsc].
  split; [done|]. exists rec. split_and!; try done. by apply eq_None_not_Some.
Qed.

(** A self rotation hands on exactly what its caller has.  The successor
    has the caller's repository scopes to the letter, the caller's permissions
    and no others, and the organization, provenance and resource of the
    credential it replaces; the receipt names the two, and its rollback
    deadline lies within the overlap and within the old credential's life. *)
Theorem self_rotation_hands_on_exactly sv before between principal e s rotation e' s' :
  others before → others between → store_ok s →
  RotateSelf sv before between principal (e, s) = (Ok rotation, (e', s')) →
  let new := ic_Credential (sr_Issued rotation) in
  let receipt := sr_Receipt rotation in
  ∃ source, cs_byID s !! strings_TrimSpace (pr_CredentialID principal) = Some source
    ∧ cc_RepositoryScopes new = pr_RepositoryScopes principal ∧ cc_Scopes new ≡ₚ pr_Permissions principal
    ∧ cc_OrgID new = cc_OrgID (cr_Metadata source) ∧ cc_Provenance new = cc_Provenance (cr_Metadata source)
    ∧ cc_Resource new = cc_Resource (cr_Metadata source)
    ∧ sr_SourceCredentialID receipt = pr_CredentialID principal
    ∧ sr_SuccessorCredentialID receipt = cc_CredentialID new
    ∧ sr_RollbackUntil receipt ≤ cc_CreatedAt new + MaximumOverlap
    ∧ ∀ t, cc_ExpiresAt (cr_Metadata source) = Some t → sr_RollbackUntil receipt ≤ t.
Proof.
  intros Hbf Hb Hok Hrun. unfold RotateSelf in Hrun.
  apply bind_Ok_inv in Hrun as (sn & [e1 s1] & Hauth & Hrun).
  apply authenticated_inv in Hauth as (-> & source & Hsrc & _ & Hrepo & Hsc & Hexp & Hnr & Hnp).
  apply bind_now in Hrun as (t & e2 & Hrun). cbn [fst snd] in Hrun. rewrite bind_modify in Hrun. cbn [fst snd] in Hrun.
  apply bind_Ok_inv in Hrun as (outcome & [e3 s3] & Hrot & Hrun).
  apply attempt_inv in Hrot as (r0 & Hrot & Hr0). destruct r0 as [issued|err|]; [| |done]; injection Hr0 as ->.
  2: { by destruct err. }
  injection Hrun as <- _ _. cbn [sr_Issued sr_Receipt sr_SourceCredentialID sr_SuccessorCredentialID sr_RollbackUntil].
  pose proof (others_ok _ _ Hbf Hok) as Hok1. destruct (others_evolve _ _ _ _ Hbf Hok Hsrc) as (x & Hx & Hev).
  apply service_rotate_inv in Hrot as (parent & old & rec & [Hp _ _ _ _ Hw Ho Hpv Hrs _ _ _]); [|done..].
  cbn [rq_CredentialID] in Hp. assert (x = parent) as -> by congruence.
  destruct Hw as (normalized & _ & Hn & Hs & Hlr & Hls). cbn [rq_RepositoryScopes rq_Scopes or_parent] in Hn, Hs.
  unfold or_parent in Hn, Hs. rewrite bool_decide_true in Hn, Hs by done.
  rewrite (ev_repos _ _ Hev), Hrepo, Hnr in Hn. rewrite (ev_scopes _ _ Hev), Hsc, Hnp in Hs.
  injection Hn as Hn. injection Hs as Hs. rewrite <-Hn in Hlr. rewrite <-Hs in Hls.
  exists source. rewrite Hexp. split_and!; try done.
  - pose proof (normalized_scopes _ _ Hnr) as (H1 & H2 & _ & _ & H3).
    apply normalizeRepositories_elem in Hlr as (H4 & H5 & _ & H6). apply sorted_unique; [done..|].
    intros y. by rewrite H6, H3.
  - apply auth_normal_scopes in Hnp as [Hnd Hk]. apply normalizeScopes_elem in Hls as (Hnd' & _ & Hin).
    apply NoDup_Permutation; [done..|]. intros y. rewrite Hin, list_elem_of_fmap. split.
    + intros (z & -> & Hz). by rewrite known_scope_trim by auto.
    + intros Hy. exists y. by rewrite known_scope_trim by auto.
  - rewrite Ho. apply (ev_org _ _ Hev).
  - rewrite Hpv. apply (ev_provenance _ _ Hev).
  - rewrite Hrs. apply (ev_resource _ _ Hev).
  - unfold time_Before, time_Add. destruct (cc_ExpiresAt (cr_Metadata source)); [case_bool_decide|]; lia.
  - intros t' ->. unfold time_Before, time_Add. case_bool_decide; lia.
Qed.
End service.
