(* ===== verification/AuthServiceRuns.v ===== *)
(** * AuthServiceRuns: a concrete history of the credential service

    Two credentials of one organization over the in-memory store, one issued by
    the service and one that a user approved for an OAuth client; the theorems
    of the grants and of the service are applied at their states. *)

From Stdlib Require Import ZArith Lia Ascii.
From stdpp Require Import sorting pretty numbers gmap strings list_numbers list relations.
From S2P Require Import Prelude GoStrings RepoSlug GoNet CredTypes Validation Tokens Grants GrantTheorems Outbox AuditStore CredentialStore CredentialStoreProofs CredentialTheorems Lifecycle AuthService AuthServiceTheorems.

Open Scope Z_scope.

#[local] Existing Instance no_uuid.
#[local] Existing Instance sample_tables.

#[local] Instance sample_laws : UnicodeLaws.
Proof. intros r Hr. cbn. repeat case_bool_decide; lia. Qed.

(** ** Grants *)

Definition raw_scopes : list string := [" Full-Chaos/* "; "ACME/web"; "acme/web"].
Definition kept_scopes : list string := ["acme/web"; "full-chaos/*"].

Lemma normalizing_keeps_grant_witness : RepositoryAllowed kept_scopes "Full-Chaos/acr" = RepositoryAllowed raw_scopes "Full-Chaos/acr".
Proof.
  assert (NormalizeRepositoryScopes raw_scopes = Ok kept_scopes) as Hn by (vm_compute; reflexivity).
  exact (proj2 (proj2 (proj2 (normalizing_keeps_grant raw_scopes kept_scopes Hn))) "Full-Chaos/acr").
Defined.

(** A caller restricted to one owner and one repository. *)
Definition caller : Principal :=
  MkPrincipal AuthenticationMethodCredential "cred-1" "org-1" "cred-1" raw_scopes ["context:read"] []
    ClientClassOrgBearer "" "" false "" [].
Definition everyone : Principal := pr_set_grant ["*"] [] caller.

Lemma selectors_follow_grant_witness :
  "full-chaos" ∈ rs_Owners (WorkItemGrantSelectorSet caller) ∧ AuthorizeRepository caller "Full-Chaos/acr" = Ok ().
Proof.
  assert (ClassifyGrant caller ≠ GrantUnrestricted) as Hc by (vm_compute; discriminate).
  assert (NormalizeRepositorySlug "Full-Chaos/acr" = Ok "full-chaos/acr") as Hn by (vm_compute; reflexivity).
  assert ("full-chaos" ∈ rs_Owners (WorkItemGrantSelectorSet caller)) as Hs
    by (apply (bool_decide_eq_true_1 _); vm_compute; reflexivity).
  exact (conj Hs (proj1 (selectors_follow_grant caller "Full-Chaos/acr" "full-chaos/acr" Hc Hn) (or_intror (or_intror Hs)))).
Defined.

Definition narrowed : Principal := pr_set_grant ["acme/web"] [] everyone.
Definition project_only : Principal := pr_set_grant [ProjectOnlyRepositoryScope] ["ATLAS"] everyone.

Lemma narrowing_never_widens_witness :
  ClassifyGrant everyone = GrantUniversal ∧ less_access everyone narrowed ∧ less_access everyone project_only.
Proof.
  split; [vm_compute; reflexivity|]. split.
  - apply (narrowing_never_widens everyone narrowed). apply rtc_once, (narrows_repositories _ _ ["acme/web"]).
    vm_compute. reflexivity.
  - apply (narrowing_never_widens everyone project_only). eapply rtc_l; [apply narrows_universal; vm_compute; reflexivity|].
    apply rtc_once, (narrows_projects _ _ ["ATLAS"]). vm_compute. reflexivity.
Defined.

Lemma refusals_are_explained_witness :
  repositorySlugFault "acme//web" = "group empty" ∧ repositorySlugFault "acme//web" ≠ "invalid repository slug".
Proof.
  split; [vm_compute; reflexivity|].
  refine (refusals_are_explained "acme//web" (ErrRepositoryForbidden "invalid repository slug") _). vm_compute. reflexivity.
Defined.

(** ** The service *)

Definition token_of (b : Z) : string := TokenPrefix +:+ RawURLEncoding_EncodeToString (replicate 32 b).
Definition service_with (b : Z) (id : string) : Service := NewService (Ok (token_of b)) (Ok id) 0.

Definition at_h (n : Z) : env := at_time (n * Hour).

(** What somebody else does in between: another credential is created. *)
Definition meanwhile (s : credentialStore) : credentialStore := (exec (OpCreate plain_input) (at_h 0, s)).2.2.

Lemma meanwhile_others : others meanwhile.
Proof.
  intros s _. unfold meanwhile. destruct (exec _ _) as [r [e' s']] eqn:E.
  eapply steps_step; [apply steps_refl|]. by econstructor.
Qed.

Definition bearer_request : CreateCredentialRequest :=
  CreateRequest " org-1 " "CI" raw_scopes ["context:read"; "data:read"] "admin" (Some (400 * Hour)) "" "" "" "" "" "" None.
Definition issue := Eval vm_compute in Service_Create (service_with 7 "cred-1") bearer_request (at_h 100, initial).
Definition issued_1 : IssuedCredential :=
  Eval vm_compute in match issue.1 with Ok c => c | _ => Issued (cr_Metadata lost) "" end.
Definition svc_1 : credentialStore := Eval vm_compute in issue.2.2.

Definition user_input : CreateInput :=
  Create "cred-2" "org-1" "Editor" "fcacr_CAgICAgICA" (HashToken (token_of 8)) ["acme/web"] ["context:read"] "user-1"
    (Some (500 * Hour)) IssuanceProvenanceDeviceAuthorization "" "https://api.example.com/mcp"
    "https://client.example.com/id" "user-1" "" "" "" None.
Definition svc_2 : credentialStore := Eval vm_compute in (Lifecycle.CreateCredential user_input (at_h 101, svc_1)).2.2.

Definition on_behalf := Eval vm_compute in RevokeOnBehalf meanwhile "org-1" "cred-2" OnBehalfActorUser "user-1" (at_h 110, svc_2).
Definition presented := Eval vm_compute in
  RevokePresentedAccessToken meanwhile (token_of 8) "https://client.example.com/id" (at_h 111, svc_2).
Definition rotate_request : RotateCredentialRequest :=
  RotateRequest "org-1" "cred-1" "" ["acme/web"] ["context:read"] "admin" (Some (300 * Hour)) (5 * Minute) false.
Definition rotate := Eval vm_compute in Service_Rotate (service_with 9 "cred-4") meanwhile rotate_request (at_h 120, svc_2).
Definition self_principal : Principal :=
  MkPrincipal AuthenticationMethodCredential "cred-1" "org-1" "cred-1" kept_scopes ["context:read"; "data:read"] []
    ClientClassOrgBearer "" "" false "" [].
Definition self := Eval vm_compute in RotateSelf (service_with 9 "cred-4") id meanwhile self_principal (at_h 130, svc_2).

Lemma issue_run : Service_Create (service_with 7 "cred-1") bearer_request (at_h 100, initial) = (Ok issued_1, issue.2).
Proof. vm_compute. reflexivity. Qed.

Lemma svc_1_ok : store_ok svc_1.
Proof.
  assert (∃ input, (Lifecycle.CreateCredential input (at_h 100, initial)).2.2 = svc_1) as [input <-].
  { exists (Create "cred-1" "org-1" "CI" (DisplayPrefix (token_of 7)) (HashToken (token_of 7)) kept_scopes
      ["context:read"; "data:read"] "admin" (Some (400 * Hour)) "" "" "" "" "" "" "" "" None).
    vm_compute. reflexivity. }
  destruct (Lifecycle.CreateCredential input (at_h 100, initial)) as [r [e s]] eqn:E.
  exact (lifecycle_create_keeps input (at_h 100, initial) r (e, s) E initial_ok).
Qed.

Lemma svc_2_ok : store_ok svc_2.
Proof.
  assert ((Lifecycle.CreateCredential user_input (at_h 101, svc_1)).2.2 = svc_2) as <- by (vm_compute; reflexivity).
  destruct (Lifecycle.CreateCredential user_input (at_h 101, svc_1)) as [r [e s]] eqn:E.
  exact (lifecycle_create_keeps user_input (at_h 101, svc_1) r (e, s) E svc_1_ok).
Qed.

Lemma svc_2_ids : ids_normal svc_2.
Proof.
  assert (bool_decide (map_Forall (λ id _, strings_TrimSpace id = id) (cs_byID svc_2)) = true) as Hm
    by (vm_compute; reflexivity).
  apply bool_decide_eq_true in Hm.
  intros id [r Hr]. exact (Hm id r Hr).
Qed.

Definition revoked_2 : ClientCredential :=
  Eval vm_compute in match on_behalf.1 with Ok c => c | _ => cr_Metadata lost end.
Definition shown_2 : PresentedRevocation :=
  Eval vm_compute in match presented.1 with Ok p => p | _ => Presented "" "" end.
Definition rotated_4 : IssuedCredential :=
  Eval vm_compute in match rotate.1 with Ok c => c | _ => Issued (cr_Metadata lost) "" end.
Definition self_4 : SelfRotation :=
  Eval vm_compute in match self.1 with Ok c => c | _ => MkSelfRotation (Issued (cr_Metadata lost) "") (Receipt "" "" 0) end.

(** ** The theorems at these states *)

Lemma on_behalf_revokes_only_admitted_witness :
  ∃ rec, cs_byID svc_2 !! "cred-2" = Some rec ∧ on_behalf_admits OnBehalfActorUser "user-1" (cr_Metadata rec)
    ∧ is_Some (cc_RevokedAt revoked_2).
Proof.
  assert (RevokeOnBehalf meanwhile "org-1" "cred-2" OnBehalfActorUser "user-1" (at_h 110, svc_2)
    = (Ok revoked_2, (on_behalf.2.1, on_behalf.2.2))) as Hrun by (vm_compute; reflexivity).
  destruct (on_behalf_revokes_only_admitted meanwhile "org-1" "cred-2" OnBehalfActorUser "user-1" (at_h 110) svc_2
    (Ok revoked_2) on_behalf.2.1 on_behalf.2.2 meanwhile_others svc_2_ok Hrun)
    as (rec & rec' & Hrec & Ha & _ & _ & _ & Hrev & _).
  exact (ex_intro _ rec (conj Hrec (conj Ha Hrev))).
Defined.

Lemma presented_token_revokes_itself_witness :
  ∃ rec, cs_byID svc_2 !! "cred-2" = Some rec ∧ cr_TokenHash rec = HashToken (token_of 8).
Proof.
  assert (RevokePresentedAccessToken meanwhile (token_of 8) "https://client.example.com/id" (at_h 111, svc_2)
    = (Ok shown_2, (presented.2.1, presented.2.2))) as Hrun by (vm_compute; reflexivity).
  destruct (presented_token_revokes_itself meanwhile (token_of 8) "https://client.example.com/id" (at_h 111) svc_2
    shown_2 presented.2.1 presented.2.2 meanwhile_others svc_2_ok svc_2_ids Hrun)
    as (rec & rec' & Hrec & Hh & _).
  exact (ex_intro _ rec (conj Hrec Hh)).
Defined.

(** The token still finds its credential after the other was revoked. *)
Definition svc_3 : credentialStore :=
  Eval vm_compute in (exec (OpRevoke (Revocation "org-1" "cred-2" "admin" "" "" false))
    (at_h 140, (exec (OpCreate user_input) (at_h 101, svc_1)).2.2)).2.2.

Lemma reach_svc_3 : steps svc_1 svc_3.
Proof.
  assert (svc_3 = (exec (OpRevoke (Revocation "org-1" "cred-2" "admin" "" "" false))
    (at_h 140, (exec (OpCreate user_input) (at_h 101, svc_1)).2.2)).2.2) as -> by (vm_compute; reflexivity).
  destruct (exec (OpCreate user_input) (at_h 101, svc_1)) as [r1 [e1 s1]] eqn:E1. cbn [snd].
  destruct (exec (OpRevoke _) (at_h 140, s1)) as [r2 [e2 s2]] eqn:E2. cbn [snd].
  eapply steps_step; [eapply steps_step; [apply steps_refl|]|]; by econstructor.
Qed.

Lemma cred_1_usable rec :
  cs_byID svc_3 !! cc_CredentialID (ic_Credential issued_1) = Some rec → usable (clock (at_h 150)) (cr_Metadata rec).
Proof. intros Hrec. vm_compute in Hrec. injection Hrec as <-. split; [done|]. intros t [= <-]. done. Qed.

Lemma issued_token_authenticates_witness :
  ∃ c, (Lifecycle.FindByTokenHash (HashToken (ic_Token issued_1)) (at_h 150, svc_3)).1 = Ok c
    ∧ ∃ rec, cs_byID svc_3 !! "cred-1" = Some rec ∧ c = cr_Metadata rec.
Proof.
  destruct (issued_token_authenticates (service_with 7 "cred-1") bearer_request (at_h 100) initial issued_1
    issue.2.1 svc_1 svc_3 (at_h 150) initial_ok issue_run reach_svc_3 eq_refl)
    as (rec & rec' & _ & _ & Hrec' & _ & Hfind).
  assert (usable (clock (at_h 150)) (cr_Metadata rec')) as Hu by exact (cred_1_usable rec' Hrec').
  exact (ex_intro _ (cr_Metadata rec') (conj (proj1 Hfind Hu) (ex_intro _ rec' (conj Hrec' eq_refl)))).
Defined.

Lemma service_rotation_bounded_witness :
  ∃ parent, cs_byID svc_2 !! "cred-1" = Some parent ∧ cc_OrgID (ic_Credential rotated_4) = cc_OrgID (cr_Metadata parent).
Proof.
  assert (Service_Rotate (service_with 9 "cred-4") meanwhile rotate_request (at_h 120, svc_2)
    = (Ok rotated_4, (rotate.2.1, rotate.2.2))) as Hrun by (vm_compute; reflexivity).
  destruct (service_rotation_bounded (service_with 9 "cred-4") meanwhile rotate_request (at_h 120) svc_2 rotated_4
    rotate.2.1 rotate.2.2 meanwhile_others svc_2_ok Hrun) as (parent & rec & Hp & _ & _ & _ & _ & _ & Ho & _).
  exact (ex_intro _ parent (conj Hp Ho)).
Defined.

Lemma self_rotation_hands_on_exactly_witness :
  cc_RepositoryScopes (ic_Credential (sr_Issued self_4)) = kept_scopes
  ∧ sr_RollbackUntil (sr_Receipt self_4) ≤ cc_CreatedAt (ic_Credential (sr_Issued self_4)) + MaximumOverlap.
Proof.
  assert (RotateSelf (service_with 9 "cred-4") id meanwhile self_principal (at_h 130, svc_2)
    = (Ok self_4, (self.2.1, self.2.2))) as Hrun by (vm_compute; reflexivity).
  destruct (self_rotation_hands_on_exactly (service_with 9 "cred-4") id meanwhile self_principal (at_h 130) svc_2 self_4
    self.2.1 self.2.2 others_nothing meanwhile_others svc_2_ok Hrun) as (source & _ & Hr & _ & _ & _ & _ & _ & _ & Hu & _).
  exact (conj Hr Hu).
Defined.

Lemma rotation_never_widens_witness :
  RepositoryAllowed kept_scopes "full-chaos/acr" = true.
Proof.
  set (successor := CreateRequest "org-1" "CI" ["full-chaos/acr"] ["context:read"] "admin" None "" "" "" "" "" "" None).
  assert (rotationWithinParent (ic_Credential issued_1) successor = true) as Hw by (vm_compute; reflexivity).
  assert (NormalizeRepositoryScopes [" Full-Chaos/ACR"] = Ok (cq_RepositoryScopes successor)) as Hn
    by (vm_compute; reflexivity).
  refine (proj1 (rotation_never_widens (ic_Credential issued_1) successor [" Full-Chaos/ACR"] Hw Hn) "full-chaos/acr" _).
  vm_compute. reflexivity.
Defined.
