(* ===== verification/MCPHop.v ===== *)
(** * MCPHop: the proof that a call came through the MCP server

    internal/auth/mcp_hop.go, and [SameResource] and [resourceAdmitted] of
    middleware.go.  A credential bound to an MCP resource is admitted only on a
    call that carries a live token of the MCP server's own service account.  The
    validator of such tokens (authverify) is asked over the network: its answer
    to a call is an argument, and so is what other calls do to the cache while
    it is asked.

    Theorems: the hop lets a call pass only on a token the validator has named
    as the MCP server's and that has not expired; the cache is bounded; and the
    aliases of a resource form classes. *)

From Stdlib Require Import ZArith Lia Ascii.
From stdpp Require Import sorting pretty numbers gmap strings list_numbers list relations.
From S2P Require Import Prelude GoStrings GoNet Sha256.

Open Scope Z_scope.

(** ** Resources (middleware.go) *)

Definition aliasPath (p : string) : bool := bool_decide (p = "") || bool_decide (p = "/") || bool_decide (p = "/mcp").

Definition SameResource `{FoldTables} (a b : string) : bool :=
  if bool_decide (a = b) then true
  else
    match url_Parse a, url_Parse b with
    | Some ua, Some ub =>
      if isEmpty (url_Host ua) || negb (bool_decide (url_Scheme ua = url_Scheme ub))
         || negb (strings_EqualFold (url_Host ua) (url_Host ub)) then false
      else if negb (isEmpty (url_RawQuery ua)) || negb (isEmpty (url_RawQuery ub))
              || negb (isEmpty (url_Fragment ua)) || negb (isEmpty (url_Fragment ub))
              || url_User ua || url_User ub then false
      else aliasPath (url_Path ua) && aliasPath (url_Path ub)
    | _, _ => false
    end.

Definition resourceAdmitted `{FoldTables} (bound : string) (presented : list string) : bool :=
  if isEmpty bound then true
  else match presented with [value] => SameResource bound value | _ => false end.

(** ** The policy *)

Definition mcpHopCacheLimit : Z := 256.

(** [authverify.SubjectIdentity] *)
Record SubjectIdentity := Identity {
  si_Namespace : string;
  si_ServiceAccountName : string;
  si_ExpiresAt : time;
}.

(** The answer of [Validate]: an identity, [ErrSubjectTokenInvalid], or another
    error. *)
Inductive validation :=
  | Validated (subject : SubjectIdentity)
  | SubjectTokenInvalid
  | ValidationFailed (e : gerr).

Record MCPHopPolicy := HopPolicy {
  hp_namespace : string;
  hp_serviceAccount : string;
  hp_issuer : string;
}.

Definition NewMCPHopPolicy (namespace serviceAccount issuer : string) : res MCPHopPolicy :=
  reject! isEmpty (strings_TrimSpace namespace) || isEmpty (strings_TrimSpace serviceAccount)
    with ErrText "mcp hop: the acr-mcp service account namespace and name are required" ;;
  reject! isEmpty (strings_TrimSpace issuer)
    with ErrText "mcp hop: the acr-api resource (the OAuth issuer) is required" ;;
  Ok (HopPolicy namespace serviceAccount issuer).

(** A nil policy requires nothing. *)
Definition requires `{FoldTables} (p : option MCPHopPolicy) (resource : string) : bool :=
  match p with
  | None => false
  | Some p => negb (isEmpty resource) && negb (SameResource resource (hp_issuer p))
  end.

(** The cache: sha256(token) to the expiry of the token. *)
Abbreviation hop_cache := (gmap string time).

Definition remember (key : string) (expiry now : time) (cache : hop_cache) : hop_cache :=
  let cache :=
    if mcpHopCacheLimit <=? Z.of_nat (size cache)
    then filter (λ kv : string * time, time_Before now kv.2 = true) cache else cache in
  let cache := if mcpHopCacheLimit <=? Z.of_nat (size cache) then ∅ else cache in
  <[key := expiry]> cache.

(** The identity is a live one of the configured service account. *)
Definition accepts_identity (p : MCPHopPolicy) (now : time) (subject : SubjectIdentity) : bool :=
  negb (negb (bool_decide (si_Namespace subject = hp_namespace p))
        || negb (bool_decide (si_ServiceAccountName subject = hp_serviceAccount p))
        || negb (time_Before now (si_ExpiresAt subject))).

Definition verify (p : MCPHopPolicy) (between : hop_cache → hop_cache) (Validate : string → validation)
    (values : list string) : go hop_cache () :=
  match values with
  | [value] =>
    if isEmpty (strings_TrimSpace value) then fail ErrMCPHopMissing
    else
      let token := strings_TrimSpace value in
      let key := sha256_hex token in
      let! now := now in
      let! cache := get in
      if match cache !! key with Some expiry => time_Before now expiry | None => false end then ret ()
      else
        modify between ;;
        match Validate token with
        | SubjectTokenInvalid => fail ErrMCPHopRefused
        | ValidationFailed e => fail e
        | Validated subject =>
          refuse! negb (accepts_identity p now subject) with ErrMCPHopRefused ;;
          modify (remember key (si_ExpiresAt subject) now)
        end
  | _ => fail ErrMCPHopMissing
  end.

(** ** What a hop proves *)

Section hop.
Context (p : MCPHopPolicy).
Implicit Types (cache : hop_cache) (log : list (string * SubjectIdentity)).

(** The life of the cache: each call that is validated writes one entry; the
    log keeps the tokens and what the validator named them. *)
Inductive hop_step : hop_cache * list (string * SubjectIdentity) → hop_cache * list (string * SubjectIdentity) → Prop :=
  | hop_remembered cache log token subject now :
      accepts_identity p now subject = true →
      hop_step (cache, log) (remember (sha256_hex token) (si_ExpiresAt subject) now cache, (token, subject) :: log).

Definition hop_reach cache log : Prop := rtc hop_step (∅, []) (cache, log).

(** A token of the log vouches for a key until an instant. *)
Definition vouched log (key : string) (expiry : time) : Prop :=
  ∃ token subject, (token, subject) ∈ log ∧ sha256_hex token = key ∧ si_ExpiresAt subject = expiry
    ∧ si_Namespace subject = hp_namespace p ∧ si_ServiceAccountName subject = hp_serviceAccount p.

Definition hop_ok (w : hop_cache * list (string * SubjectIdentity)) : Prop :=
  Z.of_nat (size w.1) ≤ mcpHopCacheLimit ∧ ∀ key expiry, w.1 !! key = Some expiry → vouched w.2 key expiry.

Lemma remember_lookup key (expiry now : time) cache k (x : time) :
  remember key expiry now cache !! k = Some x → (k = key ∧ x = expiry) ∨ cache !! k = Some x.
Proof.
  unfold remember. rewrite lookup_insert_Some. intros [[-> ->]|[_ Hk]]; [by left|right]. revert Hk.
  repeat case_match; rewrite ?lookup_empty, ?map_lookup_filter_Some; naive_solver.
Qed.

Lemma remember_size key expiry now cache : Z.of_nat (size (remember key expiry now cache)) ≤ mcpHopCacheLimit.
Proof.
  assert (∀ c : hop_cache, Z.of_nat (size (if mcpHopCacheLimit <=? Z.of_nat (size c) then ∅ else c)) < mcpHopCacheLimit)
    as Hsmall.
  { intros c. destruct (mcpHopCacheLimit <=? Z.of_nat (size c)) eqn:E; [by rewrite map_size_empty|by apply Z.leb_gt]. }
  unfold remember. cbv zeta.
  match goal with |- context [<[_:=_]> (if _ then ∅ else ?c)] => pose proof (Hsmall c) as Hs end.
  rewrite map_size_insert. destruct (_ !! key); unfold id; lia.
Qed.

Lemma accepts_inv now subject :
  accepts_identity p now subject = true ↔
  si_Namespace subject = hp_namespace p ∧ si_ServiceAccountName subject = hp_serviceAccount p
  ∧ now < si_ExpiresAt subject.
Proof.
  unfold accepts_identity, time_Before. rewrite negb_true_iff, !orb_false_iff, !negb_false_iff, !bool_decide_eq_true. tauto.
Qed.

Lemma hop_step_ok w w' : hop_step w w' → hop_ok w → hop_ok w'.
Proof.
  intros [cache log token subject t (Hn & Ha & _)%accepts_inv] [_ Hv]. split; [apply remember_size|].
  intros key expiry [[-> ->]|Hk]%remember_lookup.
  - exists token, subject. split_and!; [cbn; set_solver|done..].
  - destruct (Hv _ _ Hk) as (tok & i & Hin & ?). exists tok, i. split; [cbn; set_solver|done].
Qed.

Lemma hop_reach_ok cache log : hop_reach cache log → hop_ok (cache, log).
Proof.
  assert (∀ w w', rtc hop_step w w' → hop_ok w → hop_ok w') as Hkeep.
  { induction 1 as [|w1 w2 w3 Hs _ IH]; [done|]. intros Hok. by apply IH, (hop_step_ok w1). }
  intros Hr. apply (Hkeep _ _ Hr). split; [by cbn; rewrite map_size_empty|]. intros key x. cbn. by rewrite lookup_empty.
Qed.
End hop.

(** C21: a call passes the hop only when it proves who forwarded it.  In any
    history of the cache, a verification that succeeds was given exactly one
    hop value, and the token in it is one the validator has named, now or at an
    earlier call, as the configured service account's, up to the digest the
    cache compares; the token has not expired at the reading of the clock.  A
    verification that fails leaves the cache to the other calls. *)
Theorem hop_proves_identity p between Validate values cache log t r w :
  hop_reach p cache log →
  verify p between Validate values (Env [] [t], cache) = (r, w) →
  match r with
  | Ok _ => ∃ value token subject, values = [value] ∧ sha256_hex token = sha256_hex (strings_TrimSpace value)
      ∧ ((token, subject) ∈ log ∨ token = strings_TrimSpace value ∧ Validate token = Validated subject)
      ∧ si_Namespace subject = hp_namespace p ∧ si_ServiceAccountName subject = hp_serviceAccount p
      ∧ t < si_ExpiresAt subject
  | Err e => (w.2 = cache ∨ w.2 = between cache)
      ∧ (e = ErrMCPHopMissing ∧ (∀ value, values = [value] → strings_TrimSpace value = "")
         ∨ ∃ value, values = [value] ∧ strings_TrimSpace value ≠ ""
             ∧ (e = ErrMCPHopRefused ∨ Validate (strings_TrimSpace value) = ValidationFailed e))
  | Panic => False
  end.
Proof.
  intros [_ Hv]%hop_reach_ok Hrun. unfold verify in Hrun.
  destruct values as [|value [|v2 values]]; try (injection Hrun as <- <-; split; [by left|left; naive_solver]).
  unfold isEmpty in Hrun. case_bool_decide as Hempty; [injection Hrun as <- <-; split; [by left|left; naive_solver]|].
  cbn in Hrun. set (key := sha256_hex (strings_TrimSpace value)) in *.
  destruct (match cache !! key with Some e => _ | None => _ end) eqn:Hhit.
  { injection Hrun as <- <-. destruct (cache !! key) as [expiry|] eqn:Hk; [|done].
    apply bool_decide_eq_true in Hhit. destruct (Hv _ _ Hk) as (token & subject & Hin & Hkey & <- & Hn & Ha).
    exists value, token, subject. by split_and!; [..|left| | |]. }
  destruct (Validate (strings_TrimSpace value)) as [subject| |err] eqn:Hval; cbn in Hrun.
  - destruct (accepts_identity p t subject) eqn:Ha; injection Hrun as <- <-.
    + apply accepts_inv in Ha as (Hn & Hs & Hlt). exists value, (strings_TrimSpace value), subject.
      split_and!; [done|done|by right|done..].
    + split; [by right|right]. exists value. auto.
  - injection Hrun as <- <-. split; [by right|right]. exists value. auto.
  - injection Hrun as <- <-. split; [by right|right]. exists value. auto.
Qed.

(** The cache of hops is bounded and forgets by itself.  In every history it
    holds at most 256 entries, the last token validated is among them, and each
    entry lives until the expiry the validator gave with its token and no
    longer. *)
Theorem hop_cache_bounded p cache log :
  hop_reach p cache log →
  Z.of_nat (size cache) ≤ mcpHopCacheLimit
  ∧ (∀ key expiry, cache !! key = Some expiry →
       ∃ token subject, (token, subject) ∈ log ∧ sha256_hex token = key ∧ si_ExpiresAt subject = expiry)
  ∧ match log with
    | [] => cache = ∅
    | (token, subject) :: _ => cache !! sha256_hex token = Some (si_ExpiresAt subject)
    end.
Proof.
  intros Hr. destruct (hop_reach_ok _ _ _ Hr) as [Hs Hv]. split_and!; [done| |].
  - intros key expiry Hk. destruct (Hv _ _ Hk) as (token & subject & Hin & Hkey & He & _). by exists token, subject.
  - apply rtc_inv_r in Hr as [Heq|([c l] & _ & Hstep)]; [by injection Heq as <- <-|].
    inversion Hstep; subst. unfold remember. by rewrite lookup_insert_eq.
Qed.

(** ** The classes of resources *)

(** What the program relies on of the folding table: on ASCII it agrees with the
    fold of letters. *)
Class FoldLaws `{FoldTables} :=
  fold_table_ascii : ∀ a b, a < 128 → b < 128 →
    unicode_fold_table a = unicode_fold_table b ↔ ascii_lower_rune a = ascii_lower_rune b.

Section resources.
Context `{FoldLaws}.

Lemma rune_fold_iff a b : rune_fold_eq a b = true ↔ unicode_fold_table a = unicode_fold_table b.
Proof.
  unfold rune_fold_eq. rewrite orb_true_iff, bool_decide_eq_true. destruct (_ && _) eqn:E; rewrite bool_decide_eq_true.
  - rewrite fold_table_ascii by lia. naive_solver.
  - naive_solver.
Qed.

Lemma runes_fold_iff l l' : runes_fold_eq l l' = true ↔ unicode_fold_table <$> l = unicode_fold_table <$> l'.
Proof.
  revert l'. induction l as [|a l IH]; intros [|b l']; cbn; [done|done|done|].
  rewrite andb_true_iff, rune_fold_iff, IH. split; [by intros [-> ->]|by intros [= -> ->]].
Qed.

(** An identifier of a hosted endpoint, and what its aliases share. *)
Definition endpoint (u : URL) : option (string * list Z) :=
  if isEmpty (url_Host u) || negb (isEmpty (url_RawQuery u)) || negb (isEmpty (url_Fragment u)) || url_User u
     || negb (aliasPath (url_Path u)) then None
  else Some (url_Scheme u, unicode_fold_table <$> runes (url_Host u)).

Lemma same_resource_iff a b :
  SameResource a b = true ↔ a = b ∨ ∃ c, (url_Parse a ≫= endpoint) = Some c ∧ (url_Parse b ≫= endpoint) = Some c.
Proof.
  unfold SameResource. case_bool_decide as Hab; [naive_solver|].
  destruct (url_Parse a) as [ua|]; [|naive_solver]. destruct (url_Parse b) as [ub|]; [|naive_solver]. cbn.
  unfold endpoint, strings_EqualFold. pose proof (runes_fold_iff (runes (url_Host ua)) (runes (url_Host ub))) as Hf.
  assert (isEmpty (url_Host ua) = false → unicode_fold_table <$> runes (url_Host ua) = unicode_fold_table <$> runes (url_Host ub) →
    isEmpty (url_Host ub) = false) as Hempty.
  { unfold isEmpty. rewrite !bool_decide_eq_false. intros Hne Heq Hub. apply Hne. rewrite Hub in Heq.
    destruct (runes (url_Host ua)) eqn:Hr; [|done]. apply fmap_nil_inv in Hr.
    by rewrite <-(of_runs_runs (url_Host ua)), Hr. }
  destruct (runes_fold_eq _ _) eqn:E; cbn [negb].
  - pose proof (proj1 Hf eq_refl) as He. specialize (Hempty). rewrite He in *.
    destruct (isEmpty (url_Host ua)); cbn; [naive_solver|]. rewrite Hempty by done. cbn.
    case_bool_decide as Hs; cbn; [rewrite Hs|];
      destruct (isEmpty (url_RawQuery ua)), (isEmpty (url_RawQuery ub)), (isEmpty (url_Fragment ua)),
        (isEmpty (url_Fragment ub)), (url_User ua), (url_User ub), (aliasPath (url_Path ua)), (aliasPath (url_Path ub));
      cbn; naive_solver.
  - rewrite orb_true_r. split; [done|]. intros [|(c & Ha & Hb)]; [done|]. exfalso.
    repeat case_match; naive_solver.
Qed.

(** The aliases of a resource form classes.  [SameResource] is an
    equivalence: whichever alias a credential was bound to, and whichever the
    server presents, the answer is the same for all of them, so a binding names
    one endpoint. *)
Theorem same_resource_equivalence : Equivalence (λ a b, SameResource a b = true).
Proof.
  split.
  - intros a. apply same_resource_iff. by left.
  - intros a b. rewrite !same_resource_iff. naive_solver.
  - intros a b c. rewrite !same_resource_iff. naive_solver.
Qed.
End resources.

(** ** A concrete hop *)

Module SampleHop.

(** A table in which only ASCII letters have another case. *)
#[export] Instance ascii_fold : FoldTables := {| unicode_fold_table := ascii_lower_rune |}.
#[export] Instance ascii_fold_laws : FoldLaws.
Proof. done. Qed.

Definition policy : MCPHopPolicy := HopPolicy "acr" "acr-mcp" "https://api.example.com".
Definition mcp_subject : SubjectIdentity := Identity "acr" "acr-mcp" 1000.
Definition answers (token : string) : validation :=
  if bool_decide (token = "token-1") then Validated mcp_subject else SubjectTokenInvalid.

Definition cache_1 : hop_cache := Eval vm_compute in (verify policy id answers ["token-1"] (Env [] [900], ∅)).2.2.

Lemma reach_1 : hop_reach policy cache_1 [("token-1", mcp_subject)].
Proof.
  assert (cache_1 = remember (sha256_hex "token-1") (si_ExpiresAt mcp_subject) 900 ∅) as -> by (vm_compute; reflexivity).
  apply rtc_once. apply (hop_remembered policy ∅ [] "token-1" mcp_subject 900). vm_compute. reflexivity.
Qed.

(** A second call with the same token is not asked again, and one after its
    expiry is. *)
Lemma hop_proves_identity_witness :
  (∃ value token subject, [" token-1"] = [value] ∧ sha256_hex token = sha256_hex (strings_TrimSpace value)
      ∧ si_ServiceAccountName subject = "acr-mcp" ∧ 950 < si_ExpiresAt subject)
  ∧ (verify policy id (λ _, SubjectTokenInvalid) ["token-1"] (Env [] [1000], cache_1)).1 = Err ErrMCPHopRefused.
Proof.
  split; [|vm_compute; reflexivity].
  destruct (hop_proves_identity policy id (λ _, SubjectTokenInvalid) [" token-1"] cache_1 [("token-1", mcp_subject)] 950
    (Ok ()) (Env [] [950], cache_1) reach_1) as (value & token & subject & Hv & Hh & _ & _ & Ha & Hlt).
  { vm_compute. reflexivity. }
  exact (ex_intro _ value (ex_intro _ token (ex_intro _ subject (conj Hv (conj Hh (conj Ha Hlt)))))).
Defined.

Lemma hop_cache_bounded_witness : Z.of_nat (size cache_1) ≤ mcpHopCacheLimit.
Proof. exact (proj1 (hop_cache_bounded policy cache_1 [("token-1", mcp_subject)] reach_1)). Defined.

Lemma same_resource_equivalence_witness :
  SameResource "https://api.example.com/mcp" "HTTPS://API.example.com" = true
  ∧ SameResource "HTTPS://API.example.com" "https://api.example.com/mcp" = true.
Proof.
  assert (SameResource "https://api.example.com/mcp" "HTTPS://API.example.com" = true) as Hs by (vm_compute; reflexivity).
  exact (conj Hs (@Equivalence_Symmetric _ _ same_resource_equivalence _ _ Hs)).
Defined.
End SampleHop.
