(* ===== verification/GoHTTP.v ===== *)
(** * GoHTTP: what the program uses of net/http

    Header fields, the body a handler reads, and the parts of a request that
    authentication looks at. *)

From Stdlib Require Import ZArith Lia Ascii.
From stdpp Require Import sorting pretty numbers gmap strings list_numbers list.
From S2P Require Import Prelude GoStrings.

Open Scope Z_scope.

(** ** Header fields (net/textproto) *)

Definition validHeaderFieldByte (c : ascii) : bool :=
  is_digit c || is_lower c || is_upper c
  || one_of ["!"; "#"; "$"; "%"; "&"; "'"; "*"; "+"; "-"; "."; "^"; "_"; "`"; "|"; "~"]%char c.

Fixpoint canonical_bytes (upper : bool) (l : list ascii) : list ascii :=
  match l with
  | [] => []
  | c :: l' =>
    let c' := if upper && is_lower c then chr (code c - 32)
              else if negb upper && is_upper c then chr (code c + 32)
              else c in
    c' :: canonical_bytes (bool_decide (c' = "-"%char)) l'
  end.

(** A name with a byte no field name has is left as it is. *)
Definition CanonicalMIMEHeaderKey (s : string) : string :=
  if forallb validHeaderFieldByte (chars s) then of_chars (canonical_bytes true (chars s)) else s.

Definition Header : Type := gmap string (list string).

Definition Header_Values (h : Header) (key : string) : list string :=
  default [] (h !! CanonicalMIMEHeaderKey key).
Definition Header_Get (h : Header) (key : string) : string := default "" (head (Header_Values h key)).

(** ** Bodies *)

(** What a body still has to give: its bytes, whether reading them ends in an
    error instead of the end of the stream, and whether closing it fails. *)
Record Body := MkBody {
  bd_content : string;
  bd_fails : bool;
  bd_close_fails : bool;
}.

(** [io.ReadAll(io.LimitReader(b, n))]: the bytes and whether the read failed,
    and what is left of the body. *)
Definition read_limited (n : Z) (b : Body) : (string * bool) * Body :=
  let k := Z.to_nat n in
  if slen (bd_content b) <? n
  then ((bd_content b, bd_fails b), MkBody "" (bd_fails b) (bd_close_fails b))
  else ((slice_upto (bd_content b) k, false), MkBody (slice_from (bd_content b) k) (bd_fails b) (bd_close_fails b)).

(** [io.NopCloser(bytes.NewReader(data))] *)
Definition bytes_body (data : string) : Body := MkBody data false false.

(** ** Requests *)

(** [r_EscapedPath] and [r_RawQuery] are [URL.EscapedPath()] and
    [URL.RawQuery]; a nil body is [None]. *)
Record Request := MkRequest {
  r_Method : string;
  r_EscapedPath : string;
  r_RawQuery : string;
  r_RemoteAddr : string;
  r_Header : Header;
  r_Body : option Body;
}.

Definition r_set_Body (b : option Body) (r : Request) : Request :=
  MkRequest (r_Method r) (r_EscapedPath r) (r_RawQuery r) (r_RemoteAddr r) (r_Header r) b.

Definition r_Values (r : Request) (name : string) : list string := Header_Values (r_Header r) name.

Definition MethodPost : string := "POST".
Definition StatusOK : Z := 200.
Definition StatusBadRequest : Z := 400.
Definition StatusUnauthorized : Z := 401.
Definition StatusForbidden : Z := 403.
Definition StatusTooManyRequests : Z := 429.
Definition StatusServiceUnavailable : Z := 503.

Lemma canonical_web_assertion : CanonicalMIMEHeaderKey "X-ACR-Web-Assertion" = "X-Acr-Web-Assertion".
Proof. vm_compute. reflexivity. Qed.
