(* ===== verification/WebAssertion.v ===== *)
(** * WebAssertion: requests signed by the web server

    internal/auth/web_assertion.go, web_assertion_jwks.go,
    web_assertion_binding.go and web_assertion_replay.go.  The web server signs
    a short-lived statement about one request; [Verify] checks the signature,
    the claims and that the statement's id was not used before.

    Parameters: encoding/json's decoding of a segment into each of the two
    structs and crypto/ed25519's verification ([AssertionLib]); the answer of
    authverify's key set, which is read from a file at each call.  The record of
    used ids is any store of the class [ReplayStore]; the one kept in the process
    is [webAssertionReplays], the other is a PostgreSQL table.  What goes only
    to the logs has no counterpart. *)

From Stdlib Require Import ZArith Lia Ascii.
From stdpp Require Import sorting pretty numbers gmap strings list_numbers list.
From S2P Require Import Prelude GoStrings Sha256 GoHTTP Tokens Grants AuthService.

Open Scope Z_scope.

(** ** Constants and data *)

Definition WebAssertionHeader : string := "X-ACR-Web-Assertion".
Definition maxWebAssertionLifetime : duration := 30 * Second.
Definition webAssertionClockSkew : duration := 5 * Second.
Definition webAssertionOverlapCeiling : duration := 24 * Hour.
Definition defaultReplayCapacity : Z := 10000.
Definition defaultWebAssertionBodyBytes : Z := 2 ^ 20.
Definition WebAssertionPermissionCredentialIssue : string := "credential:issue".

Definition webAssertionOrganizationWidePaths : list string :=
  ["/api/v1/oauth/device_approval"; "/authorize/consent"; "/authorize/first-party"].

Record webAssertionHeader := AssertionHeader {
  ah_Algorithm : string;
  ah_Type : string;
  ah_KeyID : string;
}.

(** A [json.Number] is its text. *)
Record parsedWebAssertionClaims := Claims {
  wc_Issuer : string;
  wc_Audience : string;
  wc_Subject : string;
  wc_OrganizationID : string;
  wc_RepositoryScopes : list string;
  wc_Permissions : list string;
  wc_IssuedAt : string;
  wc_NotBefore : string;
  wc_ExpiresAt : string;
  wc_JWTID : string;
  wc_Method : string;
  wc_Path : string;
  wc_BodySHA256 : string;
  wc_SessionID : string;
  wc_Impersonating : bool;
}.

(** [authverify.JWKSKey] *)
Record JWKSKey := MkJWKSKey { jk_Public : list Z; jk_RetireAfter : option time }.
Definition key_set : Type := res (gmap string JWKSKey).

Class AssertionLib := {
  json_header : list Z → option webAssertionHeader;
  json_claims : list Z → option parsedWebAssertionClaims;
  ed25519_Verify : list Z → string → list Z → bool;
}.

(** [Observe] of a [WebAssertionReplayStore]. *)
Class ReplayStore (S : Type) := {
  Observe : string → string → time → time → go S bool;
}.

Record WebAssertionVerifier := MkVerifier {
  wv_issuer : string;
  wv_audience : string;
  wv_maxBodyBytes : Z;
}.

Definition NewWebAssertionVerifier (issuer audience jwksPath : string) (maxBodyBytes : Z) (keys : key_set)
    : res WebAssertionVerifier :=
  reject! isEmpty (strings_TrimSpace issuer) || isEmpty (strings_TrimSpace audience)
          || isEmpty (strings_TrimSpace jwksPath) with ErrInvalidWebAssertion ;;
  match keys with
  | Ok _ =>
    Ok (MkVerifier (strings_TrimSpace issuer) (strings_TrimSpace audience)
          (if maxBodyBytes <=? 0 then defaultWebAssertionBodyBytes else maxBodyBytes))
  | _ => Err ErrInvalidWebAssertion
  end.

(** ** web_assertion_jwks.go *)

Definition singleHeader (r : Request) (name : string) : option string :=
  match r_Values r name with
  | [value] =>
    if negb (bool_decide (strings_TrimSpace value = value)) || isEmpty value then None else Some value
  | _ => None
  end.

Definition validWebAssertionID (value0 : string) : bool :=
  let value := strings_TrimSpace value0 in
  negb (isEmpty value) && (slen value <=? 256).

(** [decodeWebAssertion] at each of its two types. *)
Definition decodeHeader `{AssertionLib} (segment : string) : option webAssertionHeader :=
  RawURLEncoding_DecodeString segment ≫= json_header.
Definition decodeClaims `{AssertionLib} (segment : string) : option parsedWebAssertionClaims :=
  RawURLEncoding_DecodeString segment ≫= json_claims.

(** ** web_assertion_binding.go *)

Definition readAssertionBody (r : Request) (maximum : Z) : option string * Request :=
  match r_Body r with
  | None => (Some "", r)
  | Some b =>
    let '((body, failed), rest) := read_limited (i64 (maximum + 1)) b in
    if failed || (maximum <? slen body) then (None, r_set_Body (Some rest) r)
    else if bd_close_fails b then (None, r_set_Body (Some rest) r)
    else (Some body, r_set_Body (Some (bytes_body body)) r)
  end.

Definition assertionBodyDigest (body : string) : string :=
  RawURLEncoding_EncodeToString (sha256_Sum256 (bytes_of body)).

Section binding.
Context `{UnicodeTables}.

(** The loop of [webRepositoryScopeFault]: the scope refused and why. *)
Fixpoint scope_fault_loop (seen : gset string) (scopes : list string) : option (string * string) :=
  match scopes with
  | [] => None
  | candidate :: scopes' =>
    match NormalizeRepositorySlug candidate with
    | Ok normalized =>
      if negb (bool_decide (normalized = candidate))
      then Some (candidate, "not in normalized (lower-case, trimmed) form")
      else if bool_decide (normalized ∈ seen) then Some (candidate, "duplicate scope")
      else scope_fault_loop ({[normalized]} ∪ seen) scopes'
    | _ => Some (candidate, repositorySlugFault candidate)
    end
  end.

Definition webRepositoryScopeFault (scopes : list string) : option (string * string) := scope_fault_loop ∅ scopes.

Definition validWebRepositories (scopes permissions : list string) (method path : string) : bool :=
  if bool_decide (scopes = []) then false
  else if bool_decide (scopes = ["*"]) then
    bool_decide (permissions = [WebAssertionPermissionCredentialIssue])
    && bool_decide (method = MethodPost) && slices_Contains webAssertionOrganizationWidePaths path
  else bool_decide (webRepositoryScopeFault scopes = None).
End binding.

Definition normalizeWebRepositoryScopes (scopes : list string) : list string := sort_Strings scopes.

(** The loop of [validWebPermissions]. *)
Fixpoint permissions_loop (seen : gset string) (permissions : list string) : bool :=
  match permissions with
  | [] => true
  | permission :: permissions' =>
    if negb (bool_decide (permission = ScopeContextRead)) && negb (bool_decide (permission = ScopeEvidenceRead))
       && negb (bool_decide (permission = WebAssertionPermissionCredentialIssue)) then false
    else if bool_decide (permission ∈ seen) then false
    else permissions_loop ({[permission]} ∪ seen) permissions'
  end.

Definition validWebPermissions (permissions : list string) : bool :=
  if bool_decide (permissions = []) then false else permissions_loop ∅ permissions.

Definition normalizeWebPermissions (permissions : list string) : list string := sort_Strings permissions.

(** ** web_assertion_replay.go *)

Record webAssertionReplays := Replays {
  wr_byJTI : gmap string time;
  wr_capacity : Z;
}.

(** [observe]: the ids that have expired leave, then the answer. *)
Definition observe (jti : string) (expiresAt now : time) (r : webAssertionReplays) : bool * webAssertionReplays :=
  let byJTI := filter (λ kv : string * time, time_After kv.2 now = true) (wr_byJTI r) in
  if bool_decide (is_Some (byJTI !! jti)) then (true, Replays byJTI (wr_capacity r))
  else if wr_capacity r <=? Z.of_nat (size byJTI) then (true, Replays byJTI (wr_capacity r))
  else (false, Replays (<[jti := expiresAt]> byJTI) (wr_capacity r)).

#[global] Instance memory_replays : ReplayStore webAssertionReplays := {|
  Observe := λ _ jti expiresAt now w,
    let '(replay, r) := observe jti expiresAt now w.2 in (Ok replay, (w.1, r))
|}.

(** ** web_assertion.go *)

(** What [Verify] answers: a principal, an error or both, and the request with
    the body the next handler will read. *)
Record verdict := Verdict {
  vd_principal : Principal;
  vd_error : option gerr;
  vd_request : Request;
}.

Definition zero_Principal : Principal := MkPrincipal "" "" "" "" [] [] [] "" "" "" false "" [].

Section verify.
Context `{UnicodeTables} `{AssertionLib} {S : Type} `{ReplayStore S}.
Implicit Types (v : WebAssertionVerifier).

Definition keyInTimeBound (key : JWKSKey) : go S bool :=
  match jk_RetireAfter key with
  | None => ret true
  | Some retireAfter =>
    let! now := now in
    ret (time_Before now retireAfter && negb (time_After retireAfter (time_Add now webAssertionOverlapCeiling)))
  end.

(** The checks that need nothing but the claims: [false] is the early return. *)
Definition claims_in_order v (now : time) (claims : parsedWebAssertionClaims) (r : Request) : bool :=
  match strconv_Atoi (wc_IssuedAt claims), strconv_Atoi (wc_NotBefore claims), strconv_Atoi (wc_ExpiresAt claims) with
  | Some issuedAt, Some notBefore, Some expiresAt =>
    negb (negb (bool_decide (wc_Issuer claims = wv_issuer v)) || negb (bool_decide (wc_Audience claims = wv_audience v))
      || negb (validWebAssertionID (wc_Subject claims)) || negb (validWebAssertionID (wc_OrganizationID claims))
      || negb (validWebAssertionID (wc_JWTID claims))
      || (time_seconds (time_Add now webAssertionClockSkew) <? issuedAt)
      || (time_seconds (time_Add now webAssertionClockSkew) <? notBefore)
      || (expiresAt <? time_seconds (time_Add now (- webAssertionClockSkew)))
      || (expiresAt <? issuedAt)
      || (maxWebAssertionLifetime / Second <? i64 (expiresAt - issuedAt))
      || negb (bool_decide (wc_Method claims = r_Method r)) || negb (bool_decide (wc_Path claims = r_EscapedPath r))
      || negb (isEmpty (r_RawQuery r))
      || negb (validWebRepositories (wc_RepositoryScopes claims) (wc_Permissions claims) (wc_Method claims)
                 (wc_Path claims))
      || negb (validWebPermissions (wc_Permissions claims))
      || negb (isEmpty (wc_SessionID claims)) && negb (validWebAssertionID (wc_SessionID claims)))
  | _, _, _ => false
  end.

Definition validClaims v (claims : parsedWebAssertionClaims) (r : Request) : go S (bool * Request) :=
  let! now := now in
  if negb (claims_in_order v now claims r) then ret (false, r)
  else
    match readAssertionBody r (wv_maxBodyBytes v) with
    | (None, r') => ret (false, r')
    | (Some body, r') => ret (bool_decide (wc_BodySHA256 claims = assertionBodyDigest body), r')
    end.

(** The principal of accepted claims. *)
Definition claims_principal (claims : parsedWebAssertionClaims) : Principal :=
  MkPrincipal AuthenticationMethodWebAssertion (wc_Subject claims) (wc_OrganizationID claims) ""
    (normalizeWebRepositoryScopes (wc_RepositoryScopes claims)) (normalizeWebPermissions (wc_Permissions claims)) []
    "" "" (strings_TrimSpace (wc_SessionID claims)) (wc_Impersonating claims) "" [].

(** The principal of a replay: who it claims to be, and nothing else. *)
Definition replayed_principal (claims : parsedWebAssertionClaims) : Principal :=
  MkPrincipal AuthenticationMethodWebAssertion (wc_Subject claims) (wc_OrganizationID claims) "" [] [] []
    "" "" "" false "" [].

Definition refused (r : Request) : verdict := Verdict zero_Principal (Some ErrInvalidWebAssertion) r.

(** The end of [Verify]: the claims hold, and the id is asked for. *)
Definition observed v (claims : parsedWebAssertionClaims) (r : Request) : go S verdict :=
  let expiresAt := default 0 (strconv_Atoi (wc_ExpiresAt claims)) in
  let! now := now in
  let! answer := attempt (Observe (wv_issuer v) (wc_JWTID claims) (time_Unix expiresAt) now) in
  match answer with
  | inl _ => ret (Verdict zero_Principal (Some ErrWebAssertionStoreUnavailable) r)
  | inr true => ret (Verdict (replayed_principal claims) (Some ErrWebAssertionReplay) r)
  | inr false => ret (Verdict (claims_principal claims) None r)
  end.

Definition Verify v (keys : key_set) (r : Request) : go S verdict :=
  match singleHeader r WebAssertionHeader with
  | None => ret (refused r)
  | Some raw =>
    match strings_Split raw "." with
    | [part0; part1; part2] =>
      if isEmpty part0 || isEmpty part1 || isEmpty part2 then ret (refused r)
      else
        match decodeHeader part0 with
        | None => ret (refused r)
        | Some header =>
          if negb (bool_decide (ah_Algorithm header = "EdDSA")) || negb (bool_decide (ah_Type header = "JWT"))
             || negb (validWebAssertionID (ah_KeyID header)) then ret (refused r)
          else
            match keys with
            | Ok keys =>
              match keys !! ah_KeyID header, RawURLEncoding_DecodeString part2 with
              | Some key, Some signature =>
                if negb (ed25519_Verify (jk_Public key) (part0 +:+ "." +:+ part1) signature) then ret (refused r)
                else
                  let! inBound := keyInTimeBound key in
                  if negb inBound then ret (refused r)
                  else
                    match decodeClaims part1 with
                    | None => ret (refused r)
                    | Some claims =>
                      let! valid := validClaims v claims r in
                      if negb valid.1 then ret (refused valid.2)
                      else observed v claims valid.2
                    end
              | _, _ => ret (refused r)
              end
            | _ => ret (refused r)
            end
        end
    | _ => ret (refused r)
    end
  end.
End verify.
