(* ===== verification/WebAssertionTheorems.v ===== *)
(** * WebAssertionTheorems: what a verified web assertion means

    A verified assertion was signed for this very request, gives a grant that is
    never unrestricted, and is verified once while it has not expired, over any
    store of used ids with the laws of [ReplayLaws]; the record kept in the
    process has them.  Two places fall short of what the code means to do, and
    each has its run: after its expiry and within the accepted clock skew an
    assertion is accepted again and again by the record in the process, and the
    bound on the lifetime of an assertion wraps around. *)

From Stdlib Require Import ZArith Lia Ascii.
From stdpp Require Import sorting pretty numbers gmap strings list_numbers list relations.
From S2P Require Import Prelude GoStrings RepoSlug GoNet Sha256 GoHTTP Validation Tokens Grants GrantTheorems AuthService WebAssertion.

Open Scope Z_scope.

(** ** The record of used ids in the process *)

Lemma observe_spec jti exp t r :
  let alive := filter (λ kv : string * time, time_After kv.2 t = true) (wr_byJTI r) in
  observe jti exp t r =
    if bool_decide (is_Some (alive !! jti)) || (wr_capacity r <=? Z.of_nat (size alive))
    then (true, Replays alive (wr_capacity r))
    else (false, Replays (<[jti := exp]> alive) (wr_capacity r)).
Proof. cbv zeta. unfold observe. destruct (bool_decide _); cbn [orb]; [done|]. by destruct (_ <=? _). Qed.

Lemma alive_lookup (m : gmap string time) t id x :
  filter (λ kv : string * time, time_After kv.2 t = true) m !! id = Some x ↔ m !! id = Some x ∧ t < x.
Proof.
  rewrite map_lookup_filter_Some. cbn. unfold time_After. by rewrite bool_decide_eq_true.
Qed.

(** The record of used ids in the process never holds more than its
    capacity, and fails closed.  One call forgets exactly the ids that have
    expired; it answers no replay only for an id the rest does not hold while
    there is room, and then it holds that id; in every other case, a table full
    of unexpired ids included, it answers replay and keeps the rest as it is. *)
Theorem replay_record_exact jti exp t r :
  let '(replay, r') := observe jti exp t r in
  (∀ id x, wr_byJTI r' !! id = Some x ↔
     (wr_byJTI r !! id = Some x ∧ t < x) ∨ (replay = false ∧ id = jti ∧ x = exp))
  ∧ (replay = false → (∀ x, wr_byJTI r !! jti = Some x → x ≤ t) ∧ Z.of_nat (size (wr_byJTI r')) ≤ wr_capacity r)
  ∧ (replay = true → (∃ x, wr_byJTI r !! jti = Some x ∧ t < x) ∨ wr_capacity r ≤ Z.of_nat (size (wr_byJTI r')))
  ∧ (size (wr_byJTI r') ≤ S (size (wr_byJTI r)))%nat ∧ wr_capacity r' = wr_capacity r
  ∧ (Z.of_nat (size (wr_byJTI r)) ≤ wr_capacity r → Z.of_nat (size (wr_byJTI r')) ≤ wr_capacity r).
Proof.
  rewrite observe_spec. set (alive := filter _ _).
  assert (size alive ≤ size (wr_byJTI r))%nat as Hsub by (apply map_subseteq_size, map_filter_subseteq).
  assert (∀ id x, alive !! id = Some x ↔ wr_byJTI r !! id = Some x ∧ t < x) as Ha by apply alive_lookup.
  destruct (_ || _) eqn:Hg; cbn.
  - split_and!; [intros id x; rewrite Ha; naive_solver|done| |lia|done|lia].
    intros _. apply orb_true_iff in Hg as [[x Hx]%bool_decide_eq_true|Hg]; [left|right; lia].
    exists x. by apply Ha.
  - apply orb_false_iff in Hg as [Hn%bool_decide_eq_false Hc%Z.leb_gt].
    rewrite map_size_insert_None by (by apply eq_None_not_Some). split_and!; [| |done|lia|done|lia].
    + intros id x. destruct (decide (id = jti)) as [->|Hne].
      * rewrite lookup_insert_eq. split; [intros [= ->]; by right|]. intros [Hin|(_ & _ & ->)]; [|done]. destruct Hn. exists x. by apply (Ha jti x).
      * rewrite lookup_insert_ne, Ha by done. naive_solver.
    + intros _. split; [|lia]. intros x Hx. destruct (decide (t < x)); [|lia].
      destruct Hn. exists x. by apply (Ha jti x).
Qed.

(** ** Stores of used ids *)

(** What the verifier relies on of a store of used ids: an id it has taken is
    [spent] until its expiry, whatever else is observed before that. *)
Class ReplayLaws (S : Type) `{ReplayStore S} := {
  spent : S → string → string → time → Prop;
  spent_taken issuer jti exp t e s w :
    Observe issuer jti exp t (e, s) = (Ok false, w) → spent w.2 issuer jti exp;
  spent_kept issuer jti until issuer' jti' exp t e s r w :
    spent s issuer jti until → t < until → Observe issuer' jti' exp t (e, s) = (r, w) → spent w.2 issuer jti until;
  spent_refused issuer jti until exp t e s w :
    spent s issuer jti until → t < until → Observe issuer jti exp t (e, s) ≠ (Ok false, w);
}.

#[global] Instance memory_replay_laws : ReplayLaws webAssertionReplays.
Proof.
  exists (λ r _ jti until, ∃ x, wr_byJTI r !! jti = Some x ∧ until ≤ x); cbn [Observe memory_replays];
    intros; match goal with Hrun : context [observe ?j ?x ?t ?s] |- _ => pose proof (observe_spec j x t s) as Hs
                       | |- context [observe ?j ?x ?t ?s] => pose proof (observe_spec j x t s) as Hs end;
    cbv zeta in Hs; cbn [snd] in *; rewrite Hs in *; clear Hs; set (alive := filter _ _) in *.
  - destruct (_ || _); [done|]. simplify_eq. cbn. exists exp. by rewrite lookup_insert_eq.
  - destruct H as (x & Hx & Hle).
    assert (alive !! jti = Some x) as Hal by (apply alive_lookup; split; [done|lia]).
    destruct (_ || _) eqn:Hg; simplify_eq; cbn; [by exists x|].
    apply orb_false_iff in Hg as [Hg%bool_decide_eq_false _].
    exists x. rewrite lookup_insert_ne; [done|]. intros ->. apply Hg. by eexists.
  - destruct H as (x & Hx & Hle).
    assert (alive !! jti = Some x) as Hal by (apply alive_lookup; split; [done|lia]).
    rewrite bool_decide_true by eauto. done.
Qed.

Section verify.
Context `{UnicodeTables} `{AssertionLib} {S : Type} `{ReplayStore S}.
Implicit Types (v : WebAssertionVerifier) (r : Request) (s : S).

(** ** A run that verifies *)

(** The claims the header of a request carries. *)
Definition carries r (claims : parsedWebAssertionClaims) : Prop :=
  ∃ raw part0 part1 part2, singleHeader r WebAssertionHeader = Some raw
    ∧ strings_Split raw "." = [part0; part1; part2] ∧ decodeClaims part1 = Some claims.

Record verifies v (keys : key_set) r (e : env) s (p : Principal) r' s' (claims : parsedWebAssertionClaims) (t : time) : Prop := {
  vf_signed : ∃ raw part0 part1 part2 header known key signature,
    singleHeader r WebAssertionHeader = Some raw ∧ strings_Split raw "." = [part0; part1; part2]
    ∧ decodeHeader part0 = Some header ∧ keys = Ok known ∧ known !! ah_KeyID header = Some key
    ∧ ed25519_Verify (jk_Public key) (part0 +:+ "." +:+ part1) signature = true
    ∧ RawURLEncoding_DecodeString part2 = Some signature ∧ decodeClaims part1 = Some claims;
  vf_at : t ∈ readings e;
  vf_order : claims_in_order v t claims r = true;
  vf_body : ∃ body, readAssertionBody r (wv_maxBodyBytes v) = (Some body, r')
    ∧ wc_BodySHA256 claims = assertionBodyDigest body;
  vf_fresh : ∃ t1 e1 e2, t1 ∈ readings e
    ∧ Observe (wv_issuer v) (wc_JWTID claims) (time_Unix (default 0 (strconv_Atoi (wc_ExpiresAt claims)))) t1 (e1, s)
      = (Ok false, (e2, s'));
  vf_principal : p = claims_principal claims;
}.

Lemma in_time_bound_inv key (w : env * S) b w' :
  keyInTimeBound key w = (Ok b, w') → w'.2 = w.2 ∧ ∀ x, x ∈ readings w'.1 → x ∈ readings w.1.
Proof.
  unfold keyInTimeBound. destruct (jk_RetireAfter key) as [until|]; [|by intros [= <- <-]].
  intros (t & w1 & (_ & Hr & Hs)%now_reading & [= <- <-])%bind_Ok_inv. done.
Qed.

Lemma valid_claims_inv v claims r (w : env * S) valid w' :
  validClaims v claims r w = (Ok valid, w') →
  w'.2 = w.2 ∧ (∀ x, x ∈ readings w'.1 → x ∈ readings w.1)
  ∧ (valid.1 = true → ∃ t body, t ∈ readings w.1 ∧ claims_in_order v t claims r = true
      ∧ readAssertionBody r (wv_maxBodyBytes v) = (Some body, valid.2)
      ∧ wc_BodySHA256 claims = assertionBodyDigest body).
Proof.
  unfold validClaims. intros (t & w1 & (Ht & Hr & Hs)%now_reading & Hrun)%bind_Ok_inv.
  destruct (claims_in_order v t claims r) eqn:Ho; cbn [negb] in Hrun; [|by injection Hrun as <- <-].
  destruct (readAssertionBody r (wv_maxBodyBytes v)) as [[body|] r1]; injection Hrun as <- <-; [|done].
  split_and!; [done..|]. cbn. rewrite bool_decide_eq_true. eauto 10.
Qed.

Lemma observed_inv v claims r (w : env * S) p r' w' :
  observed v claims r w = (Ok (Verdict p None r'), w') →
  r' = r ∧ p = claims_principal claims ∧ ∃ t1 e1 e2, t1 ∈ readings w.1
    ∧ Observe (wv_issuer v) (wc_JWTID claims) (time_Unix (default 0 (strconv_Atoi (wc_ExpiresAt claims)))) t1 (e1, w.2)
      = (Ok false, (e2, w'.2)).
Proof.
  unfold observed. cbv zeta. intros (t & [e1 s1] & (Ht & _ & Hs)%now_reading & Hrun)%bind_Ok_inv. cbn in Hs. subst s1.
  apply bind_Ok_inv in Hrun as (answer & [e2 s2] & (r0 & Hobs & Hr0)%attempt_inv & Hrun).
  destruct r0 as [[|]|err|]; [| | |done]; injection Hr0 as ->; cbn in Hrun; try done.
  injection Hrun as <- <- <-. split_and!; [done..|]. by exists t, e1, e2.
Qed.

Lemma verify_inv v keys r e s p r' w' :
  Verify v keys r (e, s) = (Ok (Verdict p None r'), w') →
  ∃ claims t, verifies v keys r e s p r' w'.2 claims t.
Proof.
  unfold Verify. destruct (singleHeader r WebAssertionHeader) as [raw|] eqn:Hraw; [|done].
  destruct (strings_Split raw ".") as [|part0 [|part1 [|part2 [|]]]] eqn:Hsplit; try done.
  destruct (_ || _ || _); [done|]. destruct (decodeHeader part0) as [header|] eqn:Hh; [|done].
  destruct (_ || _ || _); [done|]. destruct keys as [known|err|]; [|done..].
  destruct (known !! ah_KeyID header) as [key|] eqn:Hk; [|done].
  destruct (RawURLEncoding_DecodeString part2) as [signature|] eqn:Hsig; [|done].
  destruct (ed25519_Verify _ _ _) eqn:Hv; [|done]. cbn [negb].
  intros (b & [e1 s1] & [Hs1 Hr1]%in_time_bound_inv & Hrun)%bind_Ok_inv. cbn in Hs1. subst s1.
  destruct b; [|done]. cbn [negb] in Hrun. destruct (decodeClaims part1) as [claims|] eqn:Hc; [|done].
  apply bind_Ok_inv in Hrun as (valid & [e2 s2] & (Hs2 & Hr2 & Hvalid)%valid_claims_inv & Hrun).
  cbn [fst snd] in *. subst s2. destruct valid as [ok r1]. cbn in Hrun, Hvalid. destruct ok; [|done].
  apply observed_inv in Hrun as (-> & -> & t1 & e3 & e4 & Ht1 & Hobs).
  destruct (Hvalid eq_refl) as (t & body & Ht & Ho & Hb & Hd).
  exists claims, t. split; [|by apply Hr1|done|by exists body| |done].
  - by exists raw, part0, part1, part2, header, known, key, signature.
  - exists t1, e3, e4. split; [by apply Hr1, Hr2|done].
Qed.

(** ** The grant of an assertion *)

(** A key in normal form. *)
Definition plain_slug (c : string) : Prop := NormalizeRepositorySlug c = Ok c.

Lemma plain_slug_spec c : plain_slug c ↔ ValidSlug c = true ∧ folded c = c.
Proof.
  unfold plain_slug, NormalizeRepositorySlug. fold (folded c). rewrite reject_Ok, negb_false_iff. split.
  - intros [Hv [= Hc]]. by rewrite Hc in Hv.
  - intros [Hv Hc]. by rewrite Hc.
Qed.

Lemma scope_fault_none seen scopes :
  scope_fault_loop seen scopes = None → Forall plain_slug scopes ∧ NoDup scopes ∧ ∀ c, c ∈ scopes → c ∉ seen.
Proof.
  revert seen. induction scopes as [|c scopes IH]; intros seen; cbn [scope_fault_loop].
  { intros _. split_and!; [constructor|constructor|set_solver]. }
  destruct (NormalizeRepositorySlug c) as [n|err|] eqn:Hn; [|done..].
  destruct (negb _) eqn:Hc; [done|]. apply negb_false_iff, bool_decide_eq_true in Hc as ->.
  case_bool_decide as Hin; [done|]. intros (Hf & Hnd & Hs)%IH. split_and!.
  - by constructor.
  - apply NoDup_cons. split; [|done]. intros Hcs. by apply (Hs c Hcs); set_solver.
  - intros c' [->|Hc']%elem_of_cons; [done|]. specialize (Hs _ Hc'). set_solver.
Qed.

Lemma valid_repositories scopes permissions method path :
  validWebRepositories scopes permissions method path = true →
  (scopes = ["*"] ∧ permissions = [WebAssertionPermissionCredentialIssue] ∧ method = MethodPost
     ∧ path ∈ webAssertionOrganizationWidePaths)
  ∨ (scopes ≠ [] ∧ Forall plain_slug scopes).
Proof.
  unfold validWebRepositories, slices_Contains. repeat case_bool_decide; cbn; try done; [naive_solver|].
  intros _. right. split; [done|]. by apply scope_fault_none in H4 as [? _].
Qed.

Lemma permissions_known seen permissions :
  permissions_loop seen permissions = true →
  ∀ x, x ∈ permissions → x ∈ [ScopeContextRead; ScopeEvidenceRead; WebAssertionPermissionCredentialIssue].
Proof.
  revert seen. induction permissions as [|p ps IH]; intros seen; cbn [permissions_loop]; [set_solver|].
  destruct (_ && _ && _) eqn:Hp; [done|]. destruct (bool_decide (p ∈ seen)); [done|].
  rewrite !andb_false_iff, !negb_false_iff, !bool_decide_eq_true in Hp.
  intros Hrest x [->|Hx]%elem_of_cons; [set_solver|by apply (IH _ Hrest)].
Qed.

Lemma plain_allowed scopes slug :
  Forall plain_slug scopes →
  RepositoryAllowed scopes slug = true ↔ ∃ n, NormalizeRepositorySlug slug = Ok n ∧ n ∈ scopes.
Proof.
  rewrite Forall_forall. intros Hs. rewrite allowed_iff. split.
  - intros (n & o & rest & raw & Hn & Hv & Ho & _ & Hin & Hg). exists n. split; [done|].
    apply Hs in Hin as Hp. apply plain_slug_spec in Hp as [Hvr Hf]. rewrite Hf in Hg.
    destruct Hg as [->|[<-| ->]]; [by apply slug_ne_star in Hvr|done|].
    by apply (slug_ne_owner _ o) in Hvr.
  - intros (n & Hn & Hin). apply Hs in Hin as Hp. apply plain_slug_spec in Hp as [Hv Hf].
    destruct (slug_owner _ Hv) as (o & rest & Hcut & Ho & _). exists n, o, rest, n. auto 10.
Qed.

Lemma plain_restricted p :
  pr_ProjectScopes p = [] → pr_RepositoryScopes p ≠ [] → Forall plain_slug (pr_RepositoryScopes p) →
  ClassifyGrant p = GrantRestricted.
Proof.
  intros Hp Hne Hs. unfold ClassifyGrant, HoldsProjectGrant. rewrite Hp. cbn.
  rewrite bool_decide_false by done. destruct (existsb _ _) eqn:He; [|done].
  apply existsb_exists in He as (c & Hin%list_elem_of_In & Hc%bool_decide_eq_true).
  rewrite Forall_forall in Hs. apply Hs, plain_slug_spec in Hin as [Hv Hf].
  unfold folded in Hf. rewrite Hc in Hf. rewrite (plain_lower "*") in Hf by reflexivity. by rewrite <-Hf in Hv.
Qed.

Lemma in_order_inv v t claims r :
  claims_in_order v t claims r = true →
  ∃ iat nbf exp, strconv_Atoi (wc_IssuedAt claims) = Some iat ∧ strconv_Atoi (wc_NotBefore claims) = Some nbf
    ∧ strconv_Atoi (wc_ExpiresAt claims) = Some exp
    ∧ wc_Issuer claims = wv_issuer v ∧ wc_Audience claims = wv_audience v
    ∧ wc_Method claims = r_Method r ∧ wc_Path claims = r_EscapedPath r ∧ r_RawQuery r = ""
    ∧ iat ≤ time_seconds (t + webAssertionClockSkew) ∧ nbf ≤ time_seconds (t + webAssertionClockSkew)
    ∧ time_seconds (t - webAssertionClockSkew) ≤ exp ∧ iat ≤ exp ∧ i64 (exp - iat) ≤ 30
    ∧ validWebRepositories (wc_RepositoryScopes claims) (wc_Permissions claims) (wc_Method claims) (wc_Path claims) = true
    ∧ validWebPermissions (wc_Permissions claims) = true.
Proof.
  unfold claims_in_order. destruct (strconv_Atoi (wc_IssuedAt claims)) as [iat|]; [|done].
  destruct (strconv_Atoi (wc_NotBefore claims)) as [nbf|]; [|done].
  destruct (strconv_Atoi (wc_ExpiresAt claims)) as [exp|]; [|done].
  rewrite negb_true_iff, !orb_false_iff, !negb_false_iff, !bool_decide_eq_true, !Z.ltb_ge. unfold isEmpty.
  rewrite !bool_decide_eq_true. change (maxWebAssertionLifetime / Second) with 30. unfold time_Add.
  intros (((((((((((((((? & ?) & ?) & ?) & ?) & ?) & ?) & ?) & ?) & ?) & ?) & ?) & ?) & ?) & ?) & _).
  exists iat, nbf, exp. split_and!; done.
Qed.

(** C23: a verified assertion gives a restricted grant for the request it was
    signed for.  The grant allows exactly the repositories the claims list, in
    normal form; the one exception is the grant of the whole organization, and
    it comes with the permission to issue credentials alone, on a POST to one
    of the organization-wide paths.  It is never the empty grant that reads as
    unrestricted, and no permission is outside the three an assertion may have.
    The signed method, path and body are the ones of the request, whose query is
    empty, and the handler reads the very body that was signed. *)
Theorem assertion_grant_restricted v keys r e s p r' w' :
  Verify v keys r (e, s) = (Ok (Verdict p None r'), w') →
  (∀ x, x ∈ pr_Permissions p → x ∈ [ScopeContextRead; ScopeEvidenceRead; WebAssertionPermissionCredentialIssue])
  ∧ ∃ claims, carries r claims ∧ wc_Method claims = r_Method r ∧ wc_Path claims = r_EscapedPath r ∧ r_RawQuery r = ""
  ∧ (∃ body, wc_BodySHA256 claims = assertionBodyDigest body ∧ r' = r_set_Body (r_Body r') r
       ∧ from_option (λ b, b = bytes_body body) (body = "") (r_Body r'))
  ∧ (ClassifyGrant p = GrantUniversal ∧ pr_Permissions p = [WebAssertionPermissionCredentialIssue]
       ∧ r_Method r = MethodPost ∧ r_EscapedPath r ∈ webAssertionOrganizationWidePaths
     ∨ ClassifyGrant p = GrantRestricted
       ∧ ∀ slug, AuthorizeRepository p slug = Ok () ↔
           ∃ n, NormalizeRepositorySlug slug = Ok n ∧ n ∈ wc_RepositoryScopes claims).
Proof.
  intros (claims & t & [Hsig _ Ho (body & Hb & Hd) _ ->])%verify_inv.
  apply in_order_inv in Ho as (iat & nbf & exp & _ & _ & _ & _ & _ & Hm & Hp & Hq & _ & _ & _ & _ & _ & Hrepo & Hperm).
  split.
  { intros x. cbn. unfold normalizeWebPermissions. rewrite elem_of_sort_Strings. unfold validWebPermissions in Hperm.
    case_bool_decide; [done|]. by apply permissions_known with (seen := ∅). }
  exists claims. split_and!; [|done|done|done| |].
  { destruct Hsig as (raw & p0 & p1 & p2 & header & known & key & sig & ? & ? & _ & _ & _ & _ & _ & ?).
    by exists raw, p0, p1, p2. }
  { exists body. split; [exact Hd|]. clear Hd. unfold readAssertionBody in Hb. destruct r as [m pa q ra h [b|]]; cbn in Hb.
    - destruct (read_limited _ b) as [[content failed] rest]. destruct (_ || _); [done|].
      destruct (bd_close_fails b); [done|]. by injection Hb as <- <-.
    - by injection Hb as <- <-. }
  rewrite Hm, Hp in Hrepo.
  apply valid_repositories in Hrepo as [(Hr & Hpm & Hmeth & Hpath)|[Hne Hs]].
  - left. split_and!; [|cbn; by rewrite Hpm|done|done]. unfold ClassifyGrant, claims_principal. cbn. by rewrite Hr.
  - right. assert (Forall plain_slug (pr_RepositoryScopes (claims_principal claims))) as Hs'.
    { cbn. unfold normalizeWebRepositoryScopes. by rewrite sort_Strings_perm. }
    split.
    + apply plain_restricted; [done| |done]. cbn. unfold normalizeWebRepositoryScopes. intros Hnil. apply Hne.
      apply Permutation_nil_r. by rewrite <-(sort_Strings_perm (wc_RepositoryScopes claims)), Hnil.
    + intros slug. rewrite authorize_iff, (plain_allowed _ _ Hs'). cbn [pr_RepositoryScopes claims_principal].
      unfold normalizeWebRepositoryScopes. split.
      * intros (_ & n & Hn & Hin). rewrite elem_of_sort_Strings in Hin. by exists n.
      * intros (n & Hn & Hin). split; [done|]. exists n. by rewrite elem_of_sort_Strings.
Qed.

(** ** Once *)

(** Other observations, each made before [until]. *)
Inductive observes (until : time) s : S → Prop :=
  | observes_call issuer jti exp t e answer e' s' :
      t < until → Observe issuer jti exp t (e, s) = (answer, (e', s')) → observes until s s'.

Lemma spent_runs `{!ReplayLaws S} issuer jti until s s' :
  rtc (observes until) s s' → spent s issuer jti until → spent s' issuer jti until.
Proof.
  induction 1 as [|s s1 s2 [i j x t e r e' s'' Ht Hrun] _ IH]; intros Hs; [done|].
  apply IH. by apply (spent_kept _ _ _ _ _ _ _ _ _ _ _ Hs Ht Hrun).
Qed.

(** C22: an assertion is verified at most once while it has not expired.  After
    a verified request, whatever requests are made meanwhile, by whomever and
    through any instance, no request that carries an assertion with the same id
    is verified before the first one's expiry, whichever keys are in force. *)
Theorem assertion_verified_once `{!ReplayLaws S} v keys r e s p r' w' :
  Verify v keys r (e, s) = (Ok (Verdict p None r'), w') →
  ∃ claims exp, carries r claims ∧ strconv_Atoi (wc_ExpiresAt claims) = Some exp ∧
    ∀ v2 keys2 r2 claims2 e2 s2, wv_issuer v2 = wv_issuer v → carries r2 claims2 →
      wc_JWTID claims2 = wc_JWTID claims → rtc (observes (time_Unix exp)) w'.2 s2 →
      (∀ t, t ∈ readings e2 → t < time_Unix exp) →
      ∀ p2 r2' w2, Verify v2 keys2 r2 (e2, s2) ≠ (Ok (Verdict p2 None r2'), w2).
Proof.
  intros (claims & t & [Hsig _ Ho _ (t1 & e1 & e2 & _ & Hobs) _])%verify_inv.
  apply in_order_inv in Ho as (iat & nbf & exp & _ & _ & Hexp & _). rewrite Hexp in Hobs. cbn in Hobs.
  assert (carries r claims) as Hc.
  { destruct Hsig as (raw & p0 & p1 & p2 & header & known & key & sig & ? & ? & _ & _ & _ & _ & _ & ?).
    by exists raw, p0, p1, p2. }
  exists claims, exp. split_and!; [done|done|].
  intros v2 keys2 r2 claims2 e3 s2 Hiss Hc2 Hid Hruns Hbefore p2 r2' w2 Hagain.
  apply verify_inv in Hagain as (claims3 & t3 & [Hsig3 _ _ _ (t4 & e4 & e5 & Ht4 & Hobs2) _]).
  assert (claims3 = claims2) as ->.
  { destruct Hsig3 as (raw & a & b & c & header & known & key & sig & Hraw & Hsp & _ & _ & _ & _ & _ & Hd).
    destruct Hc2 as (raw2 & a2 & b2 & c2 & Hraw2 & Hsp2 & Hd2). congruence. }
  pose proof (spent_taken _ _ _ _ _ _ _ Hobs) as Hspent. cbn in Hspent.
  apply (spent_runs _ _ _ _ s2) in Hspent; [|done]. rewrite Hiss, Hid in Hobs2.
  by apply (spent_refused _ _ _ _ _ _ _ _ Hspent (Hbefore _ Ht4) Hobs2).
Qed.

(** A verified assertion is fresh.  The clock the claims were checked with
    lies between its issue and its expiry, but for the five seconds the clocks
    may differ by, and for the claims of a signer that counts from 1970 its life
    is at most thirty seconds; so no assertion is verified later than thirty-six
    seconds after it was issued. *)
Theorem assertion_fresh v keys r e s p r' w' :
  Verify v keys r (e, s) = (Ok (Verdict p None r'), w') →
  ∃ claims iat exp t, carries r claims ∧ t ∈ readings e
    ∧ strconv_Atoi (wc_IssuedAt claims) = Some iat ∧ strconv_Atoi (wc_ExpiresAt claims) = Some exp
    ∧ iat ≤ time_seconds t + 5 ∧ time_seconds t - 5 ≤ exp ∧ iat ≤ exp
    ∧ (0 ≤ iat → exp ≤ iat + 30 ∧ time_seconds t ≤ iat + 35).
Proof.
  intros (claims & t & [Hsig Ht Ho _ _ _])%verify_inv.
  apply in_order_inv in Ho as (iat & nbf & exp & Hi & _ & He & _ & _ & _ & _ & _ & Hle & _ & Hge & Hie & Hlife & _).
  exists claims, iat, exp, t.
  assert (time_seconds (t + webAssertionClockSkew) = time_seconds t + 5) as Hs5.
  { unfold time_seconds. change (webAssertionClockSkew) with (5 * Second). rewrite Z.div_add by done. lia. }
  assert (time_seconds (t - webAssertionClockSkew) = time_seconds t - 5) as Hm5.
  { unfold time_seconds. change (webAssertionClockSkew) with (5 * Second).
    replace (t - 5 * Second) with (t + -5 * Second) by lia. rewrite Z.div_add by done. lia. }
  rewrite Hs5 in Hle. rewrite Hm5 in Hge. split_and!; try done.
  - destruct Hsig as (raw & p0 & p1 & p2 & header & known & key & sig & ? & ? & _ & _ & _ & _ & _ & ?).
    by exists raw, p0, p1, p2.
  - intros Hpos. pose proof (Atoi_bound _ _ He) as Hbound.
    rewrite i64_small in Hlife by lia. lia.
Qed.
End verify.

(** ** A concrete web server

    Its claims are named by one byte each, and one signature is the good one. *)

Module SampleAssertions.

Definition claims_of (id iat exp : string) : parsedWebAssertionClaims :=
  Claims "https://web.example.com" "acr-api" "user-1" "org-1" ["acme/web"; "acme/api"]
    [ScopeEvidenceRead; ScopeContextRead] iat iat exp id MethodPost "/api/v1/agent-context/context-packets"
    (assertionBodyDigest "{}") "session-1" false.

(** An assertion of thirty seconds from 2025-01-01T00:00:00Z, and one whose
    issue is as early as an integer can be. *)
Definition claims_1 := Eval vm_compute in claims_of "jti-1" "1735689600" "1735689630".
Definition claims_2 := Eval vm_compute in claims_of "jti-2" "-9223372036854775808" "9223372036".

#[export] Instance lib : AssertionLib := {|
  json_header := λ _, Some (AssertionHeader "EdDSA" "JWT" "key-1");
  json_claims := λ bytes, match bytes with [1] => Some claims_1 | [2] => Some claims_2 | _ => None end;
  ed25519_Verify := λ _ _ signature, bool_decide (signature = [7]);
|}.
#[export] Existing Instance sample_tables.

Definition web : WebAssertionVerifier := MkVerifier "https://web.example.com" "acr-api" defaultWebAssertionBodyBytes.
Definition keys : key_set := Ok {["key-1" := MkJWKSKey [] None]}.
Definition request (assertion : string) : Request :=
  MkRequest MethodPost "/api/v1/agent-context/context-packets" "" "192.0.2.1:4000"
    {["X-Acr-Web-Assertion" := [assertion]]} (Some (bytes_body "{}")).
(** [AQ] and [Ag] are the bytes 1 and 2, [Bw] is the byte 7. *)
Definition request_1 : Request := request "AA.AQ.Bw".
Definition request_2 : Request := request "AA.Ag.Bw".
Definition unix (sec : Z) : env := Env [] [time_Unix sec].
Definition none_used : webAssertionReplays := Replays ∅ defaultReplayCapacity.

Definition run_1 := Eval vm_compute in Verify web keys request_1 (unix 1735689601, none_used).
Definition used_1 : webAssertionReplays := Eval vm_compute in run_1.2.2.
Definition web_principal : Principal := Eval vm_compute in claims_principal claims_1.

Lemma verified_1_eq :
  Verify web keys request_1 (unix 1735689601, none_used)
  = (Ok (Verdict web_principal None request_1), (unix 1735689601, used_1)).
Proof. vm_compute. reflexivity. Qed.

Lemma carries_1 : carries request_1 claims_1.
Proof. exists "AA.AQ.Bw", "AA", "AQ", "Bw". vm_compute. done. Qed.

Lemma assertion_grant_restricted_witness :
  ClassifyGrant web_principal = GrantRestricted ∧
  ∀ x, x ∈ pr_Permissions web_principal → x ∈ [ScopeContextRead; ScopeEvidenceRead; WebAssertionPermissionCredentialIssue].
Proof.
  split; [vm_compute; reflexivity|].
  exact (proj1 (assertion_grant_restricted web keys request_1 (unix 1735689601) none_used web_principal request_1
    (unix 1735689601, used_1) verified_1_eq)).
Defined.

Lemma before_expiry t : t ∈ readings (unix 1735689620) → t < time_Unix 1735689630.
Proof. intros ->%list_elem_of_singleton. by vm_compute. Qed.

Lemma assertion_verified_once_witness :
  ∃ claims exp, carries request_1 claims ∧ strconv_Atoi (wc_ExpiresAt claims) = Some exp
    ∧ (Verify web keys request_1 (unix 1735689620, used_1)).1 = Ok (Verdict (replayed_principal claims_1)
         (Some ErrWebAssertionReplay) request_1).
Proof.
  destruct (assertion_verified_once web keys request_1 (unix 1735689601) none_used web_principal request_1
    (unix 1735689601, used_1) verified_1_eq) as (claims & exp & Hc & He & _).
  exists claims, exp. split; [exact Hc|]. split; [exact He|]. vm_compute. reflexivity.
Defined.

Lemma assertion_fresh_witness :
  ∃ claims iat exp t, carries request_1 claims ∧ t ∈ readings (unix 1735689601) ∧ (0 ≤ iat → exp ≤ iat + 30).
Proof.
  destruct (assertion_fresh web keys request_1 (unix 1735689601) none_used web_principal request_1
    (unix 1735689601, used_1) verified_1_eq) as (claims & iat & exp & t & Hc & Ht & _ & _ & _ & _ & _ & Hl).
  exists claims, iat, exp, t. split; [exact Hc|]. split; [exact Ht|]. exact (λ H, proj1 (Hl H)).
Defined.

(** A run in which the record of used ids lets an assertion be used again after
    its expiry.  The claims of an assertion are accepted
    until five seconds after its expiry, but the record forgets its id at the
    expiry itself: the assertion of this run, verified once in its life, is
    verified again one second after its expiry, and once more a second later. *)
Example expired_assertion_replays :
  ∃ exp s1 s2 s3, strconv_Atoi (wc_ExpiresAt claims_1) = Some exp
    ∧ Verify web keys request_1 (unix (exp - 29), none_used) = (Ok (Verdict web_principal None request_1), (unix (exp - 29), s1))
    ∧ Verify web keys request_1 (unix (exp + 1), s1) = (Ok (Verdict web_principal None request_1), (unix (exp + 1), s2))
    ∧ Verify web keys request_1 (unix (exp + 2), s2) = (Ok (Verdict web_principal None request_1), (unix (exp + 2), s3)).
Proof.
  exists 1735689630, used_1, (Verify web keys request_1 (unix 1735689631, used_1)).2.2,
    (Verify web keys request_1 (unix 1735689632, (Verify web keys request_1 (unix 1735689631, used_1)).2.2)).2.2.
  split_and!; vm_compute; reflexivity.
Qed.

(** The bound on the lifetime of an assertion wraps around.  The difference
    between the two instants is an int64; for an issue early enough it is
    negative, so the bound of thirty seconds holds of an assertion that is
    verified two centuries before its expiry. *)
Theorem assertion_lifetime_wraps :
  ∃ iat exp s, strconv_Atoi (wc_IssuedAt claims_2) = Some iat ∧ strconv_Atoi (wc_ExpiresAt claims_2) = Some exp
    ∧ 30 < exp - iat ∧ 1735689600 + 200 * 365 * 24 * 3600 < exp
    ∧ Verify web keys request_2 (unix 1735689600, none_used) = (Ok (Verdict web_principal None request_2), (unix 1735689600, s)).
Proof.
  exists (-9223372036854775808), 9223372036, (Verify web keys request_2 (unix 1735689600, none_used)).2.2.
  split_and!; vm_compute; reflexivity.
Qed.
End SampleAssertions.
