(* ===== verification/BrowserRefresh.v ===== *)
(** * BrowserRefresh: browser token families and their single-use refresh tokens

    internal/storage/browser_refresh.go and internal/storage/memory/browser_refresh.go.
    A family is a row with its end and its revocation; a refresh token names its
    family and the access credential issued with it, and, once consumed, its
    successor.  The store holds pointers to rows that nothing else holds, so an
    assignment through a pointer is an update of the map entry.  A family the
    map has no row for would be a nil dereference, which is [Panic].

    The store calls the credential lifecycle through the [Backend] interface. *)

From Stdlib Require Import ZArith Lia Ascii.
From stdpp Require Import sorting pretty numbers gmap strings list_numbers list.
From S2P Require Import Prelude GoStrings CredTypes Validation Outbox AuditStore CredentialStore Lifecycle.

Open Scope Z_scope.

(** ** Data *)

Inductive BrowserRefreshDecision :=
  | BrowserRefreshRotated
  | BrowserRefreshGraceReplay
  | BrowserRefreshReuseRevoked
  | BrowserRefreshFamilyExpired
  | BrowserRefreshFamilyRevoked
  | BrowserRefreshUnknownToken
  | BrowserRefreshClientMismatch
  | BrowserFamilyRevokedNow.
#[global] Instance BrowserRefreshDecision_eq_dec : EqDecision BrowserRefreshDecision.
Proof. solve_decision. Defined.

Definition BrowserRefreshDecisionVocabulary : list BrowserRefreshDecision :=
  [BrowserRefreshRotated; BrowserRefreshGraceReplay; BrowserRefreshReuseRevoked;
   BrowserRefreshFamilyExpired; BrowserRefreshFamilyRevoked; BrowserRefreshUnknownToken;
   BrowserRefreshClientMismatch; BrowserFamilyRevokedNow].

Record BrowserFamilyStart := FamilyStart {
  fs_OrgID : string;
  fs_FamilyID : string;
  fs_ClientID : string;
  fs_CredentialID : string;
  fs_RefreshTokenHash : string;
  fs_CreatedAt : time;
  fs_ExpiresAt : time;
}.

Record BrowserRefreshRotation := RefreshRotation {
  rt_PresentedHash : string;
  rt_ClientID : string;
  rt_Now : time;
  rt_Grace : duration;
  rt_AccessLifetime : duration;
  rt_Seed : list Z;
  rt_SuccessorCredential : string;
  rt_SuccessorTokenHash : string;
  rt_SuccessorPrefix : string;
  rt_SuccessorRefresh : string;
  rt_ActorID : string;
}.

Record BrowserRefreshOutcome := RefreshOutcome {
  oc_Decision : BrowserRefreshDecision;
  oc_OrgID : string;
  oc_FamilyID : string;
  oc_Credential : option ClientCredential;
  oc_Seed : list Z;
  oc_SuccessorTokenHash : string;
  oc_SuccessorRefreshHash : string;
  oc_RevokedCredentials : Z;
}.

Record BrowserFamilyRevocationOutcome := FamilyRevocationOutcome {
  fo_Decision : BrowserRefreshDecision;
  fo_OrgID : string;
  fo_FamilyID : string;
  fo_RevokedCredentials : Z;
}.

Record browserFamily := Family {
  fm_orgID : string;
  fm_clientID : string;
  fm_expiresAt : time;
  fm_revokedAt : option time;
  fm_revokedReason : string;
}.

Record browserRefreshToken := RefreshToken {
  tk_familyID : string;
  tk_credentialID : string;
  tk_consumedAt : option time;
  tk_successorHash : string;
  tk_seed : list Z;
  tk_accessHash : string;
}.

(** ** Pure parts *)

Definition is_empty (s : string) : bool := bool_decide (s = "").

Definition ValidateBrowserRefreshRotation (r : BrowserRefreshRotation) : res () :=
  if is_empty (rt_PresentedHash r) || is_empty (rt_ClientID r) || time_IsZero (rt_Now r)
     || bool_decide (rt_Grace r < 0) || bool_decide (rt_AccessLifetime r <= 0)
     || negb (bool_decide (length (rt_Seed r) = 32%nat)) || is_empty (rt_SuccessorCredential r)
     || is_empty (rt_SuccessorTokenHash r) || is_empty (rt_SuccessorPrefix r)
     || is_empty (rt_SuccessorRefresh r) || is_empty (rt_ActorID r)
  then Err ErrInvalidBrowserRefresh else Ok ().

Definition ValidateBrowserFamilyStart (s : BrowserFamilyStart) : res () :=
  if is_empty (fs_OrgID s) || is_empty (fs_FamilyID s) || is_empty (fs_ClientID s)
     || is_empty (fs_CredentialID s) || is_empty (fs_RefreshTokenHash s)
     || time_IsZero (fs_CreatedAt s) || negb (time_After (fs_ExpiresAt s) (fs_CreatedAt s))
  then Err ErrInvalidBrowserRefresh else Ok ().

Definition BrowserRefreshSuccessorExpiry (now : time) (lifetime : duration) (familyEnd : time) : time :=
  let end_ := time_Add now lifetime in
  if time_Before familyEnd end_ then familyEnd else end_.

Definition BrowserRefreshInGrace (consumedAt now : time) (grace : duration) : bool :=
  negb (time_Before now consumedAt) && bool_decide (time_Sub now consumedAt <= grace).

Definition BrowserRefreshSuccessorInput (rotation : BrowserRefreshRotation)
    (source : ClientCredential) (familyEnd now : time) : CreateInput :=
  let expires := BrowserRefreshSuccessorExpiry now (rt_AccessLifetime rotation) familyEnd in
  Create (rt_SuccessorCredential rotation) (cc_OrgID source) (cc_Name source)
    (rt_SuccessorPrefix rotation) (rt_SuccessorTokenHash rotation) (cc_RepositoryScopes source)
    (cc_Scopes source) (rt_ActorID rotation) (Some expires)
    IssuanceProvenanceDeviceAuthorization "" (cc_Resource source)
    (pv_ClientID (cc_Provenance source)) (pv_ApprovingUserID (cc_Provenance source))
    ClientClassBrowser (pv_SessionID (cc_Provenance source)) (pv_FamilyID (cc_Provenance source))
    (Some familyEnd).

(** ** The store *)

Section store.
Context `{UnicodeTables} {S : Type} `{Backend S}.

Record BrowserRefreshStore := RefreshStore {
  bs_credentials : S;
  bs_families : gmap string browserFamily;
  bs_tokens : gmap string browserRefreshToken;
}.

Definition bs_set_credentials (c : S) (s : BrowserRefreshStore) : BrowserRefreshStore :=
  RefreshStore c (bs_families s) (bs_tokens s).

Definition on_credentials {A} : go S A → go BrowserRefreshStore A :=
  zoom bs_credentials bs_set_credentials.

Definition StartBrowserFamily (start : BrowserFamilyStart) : go BrowserRefreshStore () :=
  ctx_check ;;
  lift_res (ValidateBrowserFamilyStart start) ;;
  let! s := get in
  refuse! bool_decide (is_Some (bs_families s !! fs_FamilyID start)) with ErrConflict ;;
  refuse! bool_decide (is_Some (bs_tokens s !! fs_RefreshTokenHash start)) with ErrConflict ;;
  put (RefreshStore (bs_credentials s)
    (<[fs_FamilyID start := Family (fs_OrgID start) (fs_ClientID start) (fs_ExpiresAt start) None ""]>
       (bs_families s))
    (<[fs_RefreshTokenHash start := RefreshToken (fs_FamilyID start) (fs_CredentialID start) None "" [] ""]>
       (bs_tokens s))).

(** The loop of [revokeFamilyCredentials]: [live] counts the members met. *)
Fixpoint revokeMembers (orgID familyID actorID reason : string) (live : Z)
    (members : list ClientCredential) : go S Z :=
  match members with
  | [] => ret live
  | member :: rest =>
    if negb (bool_decide (pv_FamilyID (cc_Provenance member) = familyID))
       || bool_decide (is_Some (cc_RevokedAt member))
    then revokeMembers orgID familyID actorID reason live rest
    else
      let! r := attempt (Lifecycle.RevokeCredential
        (Revocation orgID (cc_CredentialID member) actorID "" ("browser family " +:+ reason) false)) in
      match r with
      | inl e => if bool_decide (e = ErrConflict)
                 then revokeMembers orgID familyID actorID reason (live + 1) rest else fail e
      | inr _ => revokeMembers orgID familyID actorID reason (live + 1) rest
      end
  end.

Definition revokeFamilyCredentials (order : list string) (orgID familyID actorID reason : string)
    : go S Z :=
  let! members := Lifecycle.List_ order orgID in
  revokeMembers orgID familyID actorID reason 0 members.

Definition revokeFamilyLocked (order : list string) (familyID reason actorID : string) (now : time)
    : go BrowserRefreshStore Z :=
  let! s := get in
  match bs_families s !! familyID with
  | None => panic
  | Some family =>
    (if bool_decide (fm_revokedAt family = None)
     then put (RefreshStore (bs_credentials s)
            (<[familyID := Family (fm_orgID family) (fm_clientID family) (fm_expiresAt family)
                             (Some now) reason]> (bs_families s)) (bs_tokens s))
     else ret ()) ;;
    on_credentials (revokeFamilyCredentials order (fm_orgID family) familyID actorID reason)
  end.

(** [ok = false] is [None]. *)
Definition graceReplayLocked (family : browserFamily) (token : browserRefreshToken)
    (grace : duration) (now : time) : go BrowserRefreshStore (option BrowserRefreshOutcome) :=
  match tk_consumedAt token with
  | None => if is_empty (tk_successorHash token) || negb (bool_decide (length (tk_seed token) = 32%nat))
            then ret None else panic
  | Some consumedAt =>
    if is_empty (tk_successorHash token) || negb (bool_decide (length (tk_seed token) = 32%nat))
       || negb (BrowserRefreshInGrace consumedAt now grace)
    then ret None
    else
      let! s := get in
      match bs_tokens s !! tk_successorHash token with
      | None => ret None
      | Some successorToken =>
        if bool_decide (is_Some (tk_consumedAt successorToken)) then ret None
        else
          let! r := attempt (on_credentials (Lifecycle.GetByID (fm_orgID family)
                                               (tk_credentialID successorToken))) in
          match r with
          | inl _ => ret None
          | inr successor =>
            if bool_decide (is_Some (cc_RevokedAt successor)) then ret None
            else ret (Some (RefreshOutcome BrowserRefreshGraceReplay "" "" (Some successor)
                   (tk_seed token) (tk_accessHash successorToken) (tk_successorHash token) 0))
          end
      end
  end.

Definition decided (d : BrowserRefreshDecision) (orgID familyID : string) (revoked : Z)
    : BrowserRefreshOutcome := RefreshOutcome d orgID familyID None [] "" "" revoked.

Definition consume_token (now : time) (rotation : BrowserRefreshRotation) (token : browserRefreshToken)
    : browserRefreshToken :=
  RefreshToken (tk_familyID token) (tk_credentialID token) (Some now) (rt_SuccessorRefresh rotation)
    (rt_Seed rotation) (tk_accessHash token).

Definition RotateBrowserRefresh (order : list string) (rotation : BrowserRefreshRotation)
    : go BrowserRefreshStore BrowserRefreshOutcome :=
  ctx_check ;;
  lift_res (ValidateBrowserRefreshRotation rotation) ;;
  let now := rt_Now rotation in
  let! s := get in
  match bs_tokens s !! rt_PresentedHash rotation with
  | None => ret (decided BrowserRefreshUnknownToken "" "" 0)
  | Some token =>
    match bs_families s !! tk_familyID token with
    | None => panic
    | Some family =>
      let outcome d n := decided d (fm_orgID family) (tk_familyID token) n in
      if negb (bool_decide (fm_clientID family = rt_ClientID rotation))
      then ret (outcome BrowserRefreshClientMismatch 0)
      else if bool_decide (is_Some (fm_revokedAt family))
      then ret (outcome BrowserRefreshFamilyRevoked 0)
      else if negb (time_Before now (fm_expiresAt family))
      then ret (outcome BrowserRefreshFamilyExpired 0)
      else
        let! source := on_credentials (Lifecycle.GetByID (fm_orgID family) (tk_credentialID token)) in
        if bool_decide (is_Some (cc_RevokedAt source)) then
          let! revoked := revokeFamilyLocked order (tk_familyID token) "member_revoked"
                            (rt_ActorID rotation) now in
          ret (outcome BrowserRefreshFamilyRevoked revoked)
        else if bool_decide (tk_consumedAt token = None) then
          refuse! bool_decide (is_Some (bs_tokens s !! rt_SuccessorRefresh rotation))
            with ErrConflict ;;
          let! successor := on_credentials (Lifecycle.CreateCredential
            (BrowserRefreshSuccessorInput rotation source (fm_expiresAt family) now)) in
          modify (λ s, RefreshStore (bs_credentials s) (bs_families s)
            (<[rt_SuccessorRefresh rotation :=
                 RefreshToken (tk_familyID token) (cc_CredentialID successor) None "" []
                   (rt_SuccessorTokenHash rotation)]>
               (<[rt_PresentedHash rotation := consume_token now rotation token]> (bs_tokens s)))) ;;
          ret (RefreshOutcome BrowserRefreshRotated (fm_orgID family) (tk_familyID token)
                 (Some successor) (rt_Seed rotation) (rt_SuccessorTokenHash rotation)
                 (rt_SuccessorRefresh rotation) 0)
        else
          let! replay := graceReplayLocked family token (rt_Grace rotation) now in
          match replay with
          | Some o => ret (RefreshOutcome (oc_Decision o) (fm_orgID family) (tk_familyID token)
                             (oc_Credential o) (oc_Seed o) (oc_SuccessorTokenHash o)
                             (oc_SuccessorRefreshHash o) (oc_RevokedCredentials o))
          | None =>
            let! revoked := revokeFamilyLocked order (tk_familyID token) "reuse"
                              (rt_ActorID rotation) now in
            ret (outcome BrowserRefreshReuseRevoked revoked)
          end
    end
  end.

Definition RevokeBrowserFamilyByToken (order : list string) (presentedHash clientID actorID : string)
    (now : time) : go BrowserRefreshStore BrowserFamilyRevocationOutcome :=
  ctx_check ;;
  refuse! is_empty presentedHash || is_empty clientID || is_empty actorID || time_IsZero now
    with ErrInvalidBrowserRefresh ;;
  let! s := get in
  match bs_tokens s !! presentedHash with
  | None => ret (FamilyRevocationOutcome BrowserRefreshUnknownToken "" "" 0)
  | Some token =>
    match bs_families s !! tk_familyID token with
    | None => panic
    | Some family =>
      if negb (bool_decide (fm_clientID family = clientID))
      then ret (FamilyRevocationOutcome BrowserRefreshClientMismatch (fm_orgID family) (tk_familyID token) 0)
      else if bool_decide (is_Some (fm_revokedAt family))
      then ret (FamilyRevocationOutcome BrowserRefreshFamilyRevoked (fm_orgID family) (tk_familyID token) 0)
      else
        let! revoked := revokeFamilyLocked order (tk_familyID token) "sign_out" actorID now in
        ret (FamilyRevocationOutcome BrowserFamilyRevokedNow (fm_orgID family) (tk_familyID token) revoked)
    end
  end.
End store.
Arguments BrowserRefreshStore : clear implicits.
