(* ===== verification/BrowserTheorems.v ===== *)
(** * BrowserTheorems: the guarantees of the refresh store

    Proved against [BackendLaws], so for any credential store that keeps it:
    the rows stay consistent and no operation dereferences a missing family,
    a refresh token is exchanged at most once, a token presented again after
    its grace window (and a sign-out) revokes the whole family, and a successor
    never outlives the family. *)

From Stdlib Require Import ZArith Lia Ascii.
From stdpp Require Import sorting pretty numbers gmap strings list_numbers list.
From S2P Require Import Prelude GoStrings CredTypes Validation Outbox AuditStore CredentialStore CredentialStoreProofs CredentialTheorems Lifecycle BrowserRefresh.

Open Scope Z_scope.

Section theorems.
Context `{UnicodeTables} {S : Type} `{BackendLaws S}.

(** ** Revoking the members of a family *)

(** Stored ids are in normal form: every credential is created through the
    lifecycle. *)
Definition ids_normal (m : gmap string ClientCredential) : Prop :=
  ∀ id, is_Some (m !! id) → strings_TrimSpace id = id.

Record members_step (w w' : env * S) : Prop := {
  ms_ok : be_ok w'.2;
  ms_grows : grows_to (be_view w.2) (be_view w'.2);
  ms_dom : ∀ k, is_Some (be_view w'.2 !! k) → is_Some (be_view w.2 !! k);
}.

Lemma members_step_refl w w' : be_ok w.2 → w'.2 = w.2 → members_step w w'.
Proof. intros Hok E. split; rewrite E; [done|apply grows_to_refl|done]. Qed.

Lemma members_step_trans w1 w2 w3 : members_step w1 w2 → members_step w2 w3 → members_step w1 w3.
Proof. intros [] []. split; [done|by eapply grows_to_trans|auto]. Qed.

Lemma revokeMembers_spec org fid actor reason members live w r w' :
  revokeMembers org fid actor reason live members w = (r, w') →
  be_ok w.2 → ids_normal (be_view w.2) →
  (∀ c, c ∈ members → ∃ c', be_view w.2 !! cc_CredentialID c = Some c' ∧
     (is_Some (cc_RevokedAt c) → is_Some (cc_RevokedAt c'))) →
  members_step w w' ∧ r ≠ Panic ∧
  ∀ n, r = Ok n → ∀ c, c ∈ members → pv_FamilyID (cc_Provenance c) = fid →
    revoked_in (be_view w'.2) (cc_CredentialID c).
Proof.
  revert live w. induction members as [|m members IH]; intros live w Hrun Hok Hnorm Hmem;
    cbn [revokeMembers] in Hrun.
  { injection Hrun as <- <-. split; [by apply members_step_refl|]. split; [done|]. set_solver. }
  destruct (Hmem m ltac:(set_solver)) as (m' & Hm' & Hrev).
  destruct (negb _ || _) eqn:Eskip.
  - apply IH in Hrun as (Hs & Hp & Hall); [|done|done|set_solver]. split_and!; [done..|].
    intros n Hn c [->|Hc]%elem_of_cons Hf; [|by eapply Hall].
    apply orb_true_iff in Eskip as [Hx%negb_true_iff|Hx%bool_decide_eq_true].
    { apply bool_decide_eq_false in Hx. done. }
    eapply revoked_in_grows; [apply Hs|]. exists m'. auto.
  - unfold bind at 1, attempt in Hrun.
    destruct (Lifecycle.RevokeCredential _ w) as [r1 w1] eqn:E1.
    apply front_revoke in E1 as (Hok1 & Hp1 & Herr1 & Hg1 & Hd1 & Hcf & Hr1); [|done].
    cbn [vi_CredentialID] in *. rewrite (Hnorm (cc_CredentialID m)) in Hcf, Hr1 by eauto.
    assert (members_step w w1) as Hs1 by done.
    assert (ids_normal (be_view w1.2)) as Hnorm1 by (intros k Hk; auto).
    assert (∀ c, c ∈ members → ∃ c', be_view w1.2 !! cc_CredentialID c = Some c' ∧
      (is_Some (cc_RevokedAt c) → is_Some (cc_RevokedAt c'))) as Hmem1.
    { intros c Hc. destruct (Hmem c ltac:(set_solver)) as (c1 & Hc1 & Hr).
      destruct (Hg1 _ _ Hc1) as (c2 & Hc2 & _ & _ & _ & He). exists c2. split; [done|].
      intros Hx. rewrite He by auto. auto. }
    assert (revoked_in (be_view w1.2) (cc_CredentialID m) → ∀ l,
      revokeMembers org fid actor reason l members w1 = (r, w') →
      members_step w w' ∧ r ≠ Panic ∧ ∀ n, r = Ok n → ∀ c, c ∈ m :: members →
        pv_FamilyID (cc_Provenance c) = fid → revoked_in (be_view w'.2) (cc_CredentialID c)) as Hgo.
    { intros Hm1 l Hrun'. apply IH in Hrun' as (Hs & Hp & Hall); [|done..].
      split; [by eapply members_step_trans|]. split; [done|].
      intros n Hn c [->|Hc]%elem_of_cons Hf; [|by eapply Hall].
      eapply revoked_in_grows; [apply Hs|done]. }
    destruct r1 as [c1|e1|]; cbn in Hrun; [| |done].
    + eapply Hgo; [|done]. by eapply Hr1.
    + case_bool_decide as He.
      * eapply Hgo; [|done]. rewrite He in *. eapply revoked_in_grows; [done|]. by apply Hcf.
      * injection Hrun as <- <-. by split_and!.
Qed.

(** Every credential of the organization with the family id is revoked. *)
Definition family_dead (org fid : string) (m : gmap string ClientCredential) : Prop :=
  ∀ id c, m !! id = Some c → cc_OrgID c = org → pv_FamilyID (cc_Provenance c) = fid →
    is_Some (cc_RevokedAt c).

Definition complete (order : list string) (m : gmap string ClientCredential) : Prop :=
  ∀ id, id ∈ order ↔ is_Some (m !! id).

Lemma revokeFamilyCredentials_spec order org fid actor reason w r w' :
  revokeFamilyCredentials order org fid actor reason w = (r, w') →
  be_ok w.2 → ids_normal (be_view w.2) → complete order (be_view w.2) →
  members_step w w' ∧ r ≠ Panic ∧
  ∀ n, r = Ok n → family_dead (strings_TrimSpace org) fid (be_view w'.2).
Proof.
  unfold revokeFamilyCredentials. intros Hrun Hok Hnorm Hord.
  apply bind_res_inv in Hrun as [(l & w1 & E1 & Hrun)|[(e & -> & E1)|[-> E1]]];
    apply front_list in E1 as (Hw & Hp & Hl); [| |done].
  - specialize (Hl l eq_refl Hord).
    apply revokeMembers_spec in Hrun as (Hs & Hp2 & Hall); rewrite ?Hw; [|done|done|].
    + split; [eapply members_step_trans; [by apply members_step_refl|done]|]. split; [done|].
      intros n Hn id c' Hc' Horg Hfam.
      destruct (ms_dom _ _ Hs id ltac:(eauto)) as [c Hc]. rewrite Hw in Hc.
      destruct (ms_grows _ _ Hs id c) as (c2 & Hc2 & ? & Ho & Hpv & _); [by rewrite Hw|].
      assert (c2 = c') as -> by congruence.
      assert (c ∈ l) as Hin by (apply Hl; split; [congruence|eauto]).
      destruct (Hall n Hn c Hin) as (x & Hx & Hrx); [congruence|].
      rewrite (be_key _ _ _ Hok Hc) in Hx. congruence.
    + intros c Hc. apply Hl in Hc as (_ & id & Hid). exists c.
      by rewrite (be_key _ _ _ Hok Hid).
  - split; [by apply members_step_refl|]. by split.
Qed.

(** ** The invariant and the direction of change *)

Abbreviation T := (BrowserRefreshStore S).
Definition creds (s : T) : gmap string ClientCredential := be_view (bs_credentials s).

(** Every refresh token has its family, a consumed one has a successor in the
    same family, and an unconsumed one has none. *)
Record refresh_ok (s : T) : Prop := {
  rk_cred : be_ok (bs_credentials s);
  rk_norm : ids_normal (creds s);
  rk_family : ∀ h t, bs_tokens s !! h = Some t → is_Some (bs_families s !! tk_familyID t);
  rk_consumed : ∀ h t, bs_tokens s !! h = Some t → is_Some (tk_consumedAt t) →
    tk_successorHash t ≠ "" ∧ length (tk_seed t) = 32%nat ∧
    ∃ t', bs_tokens s !! tk_successorHash t = Some t' ∧ tk_familyID t' = tk_familyID t;
  rk_unused : ∀ h t, bs_tokens s !! h = Some t → tk_consumedAt t = None → tk_successorHash t = "";
}.

(** A consumed token and a revoked family never change; nothing is removed. *)
Record rows_evolve (s s' : T) : Prop := {
  re_tokens : ∀ h t, bs_tokens s !! h = Some t → ∃ t', bs_tokens s' !! h = Some t' ∧
    tk_familyID t' = tk_familyID t ∧ tk_credentialID t' = tk_credentialID t ∧
    (is_Some (tk_consumedAt t) → t' = t);
  re_families : ∀ f x, bs_families s !! f = Some x → ∃ x', bs_families s' !! f = Some x' ∧
    fm_orgID x' = fm_orgID x ∧ fm_clientID x' = fm_clientID x ∧ fm_expiresAt x' = fm_expiresAt x ∧
    (is_Some (fm_revokedAt x) → x' = x);
  re_creds : grows_to (creds s) (creds s');
}.

Lemma rows_evolve_refl s : rows_evolve s s.
Proof. split; [intros; eexists; by split_and!..|apply grows_to_refl]. Qed.

Lemma on_credentials_inv {A} (m : go S A) (w : env * T) r w' :
  on_credentials m w = (r, w') →
  ∃ w1, m (w.1, bs_credentials w.2) = (r, w1) ∧ w' = (w1.1, bs_set_credentials w1.2 w.2).
Proof. apply zoom_inv. Qed.

Lemma set_credentials_id (s : T) : bs_set_credentials (bs_credentials s) s = s.
Proof. by destruct s. Qed.

Lemma on_get org id (w : env * T) r w' :
  on_credentials (Lifecycle.GetByID org id) w = (r, w') →
  w'.2 = w.2 ∧ r ≠ Panic ∧ ∀ c, r = Ok c → creds w.2 !! strings_TrimSpace id = Some c.
Proof.
  intros (w1 & Hrun & ->)%on_credentials_inv. apply front_get in Hrun as (Hw & Hp & Hc).
  cbn in *. rewrite Hw. split; [apply set_credentials_id|done].
Qed.

Lemma revokeFamilyLocked_spec order fid reason actor now (w : env * T) r w' fam :
  revokeFamilyLocked order fid reason actor now w = (r, w') → refresh_ok w.2 →
  complete order (creds w.2) → bs_families w.2 !! fid = Some fam →
  refresh_ok w'.2 ∧ r ≠ Panic ∧ rows_evolve w.2 w'.2 ∧ bs_tokens w'.2 = bs_tokens w.2 ∧
  (∃ fam', bs_families w'.2 !! fid = Some fam' ∧ is_Some (fm_revokedAt fam')) ∧
  ∀ n, r = Ok n → family_dead (strings_TrimSpace (fm_orgID fam)) fid (creds w'.2).
Proof.
  unfold revokeFamilyLocked. rewrite bind_get. intros Hrun Hok Hord Hfam. rewrite Hfam in Hrun.
  set (fams := if bool_decide (fm_revokedAt fam = None)
    then <[fid := Family (fm_orgID fam) (fm_clientID fam) (fm_expiresAt fam) (Some now) reason]>
           (bs_families w.2) else bs_families w.2).
  assert (on_credentials (revokeFamilyCredentials order (fm_orgID fam) fid actor reason)
    (w.1, RefreshStore (bs_credentials w.2) fams (bs_tokens w.2)) = (r, w')) as Hcred.
  { subst fams. unfold bind in Hrun. case_bool_decide; [exact Hrun|].
    destruct w as [e []]. exact Hrun. }
  clear Hrun. apply on_credentials_inv in Hcred as (w1 & Hrun & ->).
  pose proof (rk_norm _ Hok) as Hnorm.
  apply revokeFamilyCredentials_spec in Hrun as (Hs & Hp & Hdead); [|apply Hok|done|done].
  assert (∀ f x, bs_families w.2 !! f = Some x → ∃ x', fams !! f = Some x' ∧
    fm_orgID x' = fm_orgID x ∧ fm_clientID x' = fm_clientID x ∧ fm_expiresAt x' = fm_expiresAt x ∧
    (is_Some (fm_revokedAt x) → x' = x)) as Hfams.
  { subst fams. intros f x Hx. case_bool_decide as Hn; [|exists x; by split_and!].
    destruct (decide (f = fid)) as [->|].
    - assert (x = fam) as -> by congruence. eexists. rewrite lookup_insert_eq. split_and!; try done.
      rewrite Hn. by intros [].
    - exists x. rewrite lookup_insert_ne by done. by split_and!. }
  split_and!; try done.
  - destruct Hok as [_ _ Hf Hc Hu]. split; try done; [apply Hs| |].
    + intros id Hid. apply Hnorm. by apply (ms_dom _ _ Hs).
    + intros h t Ht. destruct (Hf _ _ Ht) as [x Hx]. destruct (Hfams _ _ Hx) as (x' & ? & _).
      cbn. eauto.
  - split; [intros h t Ht; exists t; by split_and!|done|apply Hs].
  - subst fams. cbn. case_bool_decide as Hn.
    + eexists. rewrite lookup_insert_eq. split; [done|by eexists].
    + exists fam. split; [done|]. by apply not_eq_None_Some.
Qed.

(** ** One refresh *)

(** The token presented, with its family, both as the client presents them. *)
Record presented (rotation : BrowserRefreshRotation) (s : T) (token : browserRefreshToken)
    (family : browserFamily) : Prop := {
  pr_token : bs_tokens s !! rt_PresentedHash rotation = Some token;
  pr_family : bs_families s !! tk_familyID token = Some family;
  pr_client : fm_clientID family = rt_ClientID rotation;
}.

(** The family may still refresh. *)
Definition refreshable (rotation : BrowserRefreshRotation) (family : browserFamily) : Prop :=
  fm_revokedAt family = None ∧ rt_Now rotation < fm_expiresAt family.

(** The credential the token belongs to. *)
Definition token_member (s : T) (token : browserRefreshToken) (c : ClientCredential) : Prop :=
  creds s !! strings_TrimSpace (tk_credentialID token) = Some c.

(** The family is revoked, with every credential of it. *)
Definition ended (s s' : T) (token : browserRefreshToken) (family : browserFamily) : Prop :=
  ∃ family', bs_families s' !! tk_familyID token = Some family' ∧ is_Some (fm_revokedAt family') ∧
    family_dead (strings_TrimSpace (fm_orgID family)) (tk_familyID token) (creds s').

(** What each decision says about the state before and after. *)
Definition refresh_meaning (rotation : BrowserRefreshRotation) (s s' : T)
    (o : BrowserRefreshOutcome) : Prop :=
  match oc_Decision o with
  | BrowserRefreshUnknownToken => bs_tokens s !! rt_PresentedHash rotation = None ∧ s' = s
  | BrowserRefreshClientMismatch => s' = s ∧
      ∃ token family, bs_tokens s !! rt_PresentedHash rotation = Some token ∧
      bs_families s !! tk_familyID token = Some family ∧ fm_clientID family ≠ rt_ClientID rotation
  | BrowserRefreshFamilyExpired => s' = s ∧
      ∃ token family, presented rotation s token family ∧
      fm_revokedAt family = None ∧ fm_expiresAt family ≤ rt_Now rotation
  | BrowserRefreshFamilyRevoked => bs_tokens s' = bs_tokens s ∧
      ∃ token family, presented rotation s token family ∧
      (is_Some (fm_revokedAt family) ∧ s' = s ∨
       refreshable rotation family ∧
       (∃ source, token_member s token source ∧ is_Some (cc_RevokedAt source)) ∧ ended s s' token family)
  | BrowserRefreshGraceReplay => s' = s ∧
      ∃ token family source consumedAt successor c, presented rotation s token family ∧
      refreshable rotation family ∧ token_member s token source ∧ cc_RevokedAt source = None ∧
      tk_consumedAt token = Some consumedAt ∧
      BrowserRefreshInGrace consumedAt (rt_Now rotation) (rt_Grace rotation) = true ∧
      bs_tokens s !! tk_successorHash token = Some successor ∧ tk_consumedAt successor = None ∧
      token_member s successor c ∧ cc_RevokedAt c = None ∧ oc_Credential o = Some c ∧
      oc_Seed o = tk_seed token ∧ oc_SuccessorTokenHash o = tk_accessHash successor ∧
      oc_SuccessorRefreshHash o = tk_successorHash token
  | BrowserRefreshReuseRevoked => bs_tokens s' = bs_tokens s ∧
      ∃ token family source, presented rotation s token family ∧
      refreshable rotation family ∧ token_member s token source ∧ cc_RevokedAt source = None ∧
      is_Some (tk_consumedAt token) ∧ ended s s' token family
  | BrowserRefreshRotated =>
      ∃ token family source c expires, presented rotation s token family ∧
      refreshable rotation family ∧ token_member s token source ∧ cc_RevokedAt source = None ∧
      tk_consumedAt token = None ∧ oc_Credential o = Some c ∧ cc_RevokedAt c = None ∧
      creds s !! cc_CredentialID c = None ∧ creds s' = <[cc_CredentialID c := c]> (creds s) ∧
      cc_ExpiresAt c = Some expires ∧ expires ≤ fm_expiresAt family ∧
      pv_ClientClass (cc_Provenance c) = ClientClassBrowser ∧
      pv_FamilyExpiresAt (cc_Provenance c) = Some (fm_expiresAt family) ∧
      bs_tokens s !! rt_SuccessorRefresh rotation = None ∧
      bs_tokens s' = <[rt_SuccessorRefresh rotation :=
          RefreshToken (tk_familyID token) (cc_CredentialID c) None "" [] (rt_SuccessorTokenHash rotation)]>
        (<[rt_PresentedHash rotation := consume_token (rt_Now rotation) rotation token]> (bs_tokens s)) ∧
      bs_families s' = bs_families s
  | BrowserFamilyRevokedNow => False
  end.

Lemma successor_expiry_le now life fend : BrowserRefreshSuccessorExpiry now life fend ≤ fend.
Proof.
  unfold BrowserRefreshSuccessorExpiry, time_Before. case_bool_decide; [lia|]. unfold time in *. lia.
Qed.

Lemma normalizeExpiry_id v r : normalizeExpiry v = Ok r → r = v.
Proof. destruct v as [t|]; cbn; unfold invalid; [destruct (time_IsZero t)|]; by intros [= <-]. Qed.

Lemma decideClass_named d named client session family fe e class :
  decideClass d named client session family fe e = Ok class → named ≠ "" → class = named.
Proof.
  unfold decideClass. intros Hc Hn. apply res_bind_Ok in Hc as (c & _ & Hc).
  rewrite !reject_Ok in Hc. destruct Hc as (Hb & _ & [= <-]).
  apply andb_false_iff in Hb as [Hb|Hb]; apply negb_false_iff, bool_decide_eq_true in Hb; done.
Qed.

(** The successor credential a rotation creates. *)
Lemma create_successor rotation source fend now (w : env * T) c w' :
  on_credentials (Lifecycle.CreateCredential (BrowserRefreshSuccessorInput rotation source fend now)) w
    = (Ok c, w') → refresh_ok w.2 →
  bs_tokens w'.2 = bs_tokens w.2 ∧ bs_families w'.2 = bs_families w.2 ∧
  be_ok (bs_credentials w'.2) ∧ ids_normal (creds w'.2) ∧ grows_to (creds w.2) (creds w'.2) ∧
  cc_RevokedAt c = None ∧ cc_ExpiresAt c = Some (BrowserRefreshSuccessorExpiry now (rt_AccessLifetime rotation) fend) ∧
  pv_ClientClass (cc_Provenance c) = ClientClassBrowser ∧
  pv_FamilyExpiresAt (cc_Provenance c) = Some fend ∧
  creds w.2 !! cc_CredentialID c = None ∧ creds w'.2 = <[cc_CredentialID c := c]> (creds w.2).
Proof.
  intros (w1 & Hrun & ->)%on_credentials_inv Hok.
  apply front_create in Hrun as (Hok1 & _ & _ & Hg & Hc); [|apply Hok].
  destruct (Hc c eq_refl) as (n & t & Hn & -> & Hnone & Hview). apply normalizeCreate_Ok in Hn.
  assert (ci_ExpiresAt n = Some (BrowserRefreshSuccessorExpiry now (rt_AccessLifetime rotation) fend)) as He.
  { by pose proof (normalizeExpiry_id _ _ (nz_expires _ _ Hn)) as ->. }
  assert (ci_ClientClass n = ClientClassBrowser) as Hcl.
  { destruct (nz_class _ _ Hn) as (d & _ & Hdc). by apply decideClass_named in Hdc. }
  split_and!; try done.
  - cbn. unfold creds. cbn. rewrite Hview. intros id [<-|[_ Hid]]%lookup_insert_is_Some.
    + pose proof (nz_id _ _ Hn) as Hx. apply trim_pattern_proj in Hx as [Hx _].
      unfold invalid in Hx. cbn in Hx. by case_match; simplify_eq.
    + by apply (rk_norm _ Hok).
  - cbn. pose proof (nz_family_expires _ _ Hn) as ->. done.
Qed.

Lemma no_replay (w w' : env * T) (P : BrowserRefreshOutcome → Prop) :
  w'.2 = w.2 → w'.2 = w.2 ∧ (∃ o : option BrowserRefreshOutcome, Ok None = Ok o) ∧ ∀ o, Ok None = Ok (Some o) → P o.
Proof. intros. split; [done|]. split; [by eexists|done]. Qed.

Lemma graceReplay_spec family token grace now (w : env * T) r w' consumedAt :
  graceReplayLocked family token grace now w = (r, w') → tk_consumedAt token = Some consumedAt →
  w'.2 = w.2 ∧ (∃ o, r = Ok o) ∧
  ∀ o, r = Ok (Some o) → oc_Decision o = BrowserRefreshGraceReplay ∧
    BrowserRefreshInGrace consumedAt now grace = true ∧
    oc_SuccessorRefreshHash o = tk_successorHash token ∧ oc_Seed o = tk_seed token ∧
    ∃ successor c, bs_tokens w.2 !! tk_successorHash token = Some successor ∧ tk_consumedAt successor = None ∧
      token_member w.2 successor c ∧ cc_RevokedAt c = None ∧ oc_Credential o = Some c ∧
      oc_SuccessorTokenHash o = tk_accessHash successor.
Proof.
  unfold graceReplayLocked. intros Hrun Hc. rewrite Hc in Hrun.
  destruct (_ || _ || _) eqn:Eg; [injection Hrun as <- <-; by apply no_replay|]. rewrite bind_get in Hrun.
  destruct (bs_tokens w.2 !! tk_successorHash token) as [st|] eqn:Est; [|injection Hrun as <- <-; by apply no_replay].
  case_bool_decide as Hst; [injection Hrun as <- <-; by apply no_replay|].
  unfold bind at 1, attempt in Hrun. destruct (on_credentials _ w) as [r1 w1] eqn:E1.
  apply on_get in E1 as (Hw1 & Hp1 & Hmem).
  destruct r1 as [c|e|]; cbn in Hrun; [|injection Hrun as <- <-; by apply no_replay|done].
  case_bool_decide as Hr; injection Hrun as <- <-; [by apply no_replay|]. split; [done|]. split; [by eauto|].
  intros o [= <-]. split; [done|]. apply orb_false_iff in Eg as [_ Eg%negb_false_iff].
  split_and!; [done..|]. exists st, c. apply eq_None_not_Some in Hst, Hr. split_and!; try done. by apply Hmem.
Qed.

Lemma rotated_rows rotation token c (s s' : T) :
  refresh_ok s → bs_tokens s !! rt_PresentedHash rotation = Some token →
  tk_consumedAt token = None → bs_tokens s !! rt_SuccessorRefresh rotation = None →
  ValidateBrowserRefreshRotation rotation = Ok () →
  bs_families s' = bs_families s → be_ok (bs_credentials s') → ids_normal (creds s') →
  grows_to (creds s) (creds s') →
  bs_tokens s' = <[rt_SuccessorRefresh rotation :=
      RefreshToken (tk_familyID token) (cc_CredentialID c) None "" [] (rt_SuccessorTokenHash rotation)]>
    (<[rt_PresentedHash rotation := consume_token (rt_Now rotation) rotation token]> (bs_tokens s)) →
  refresh_ok s' ∧ rows_evolve s s'.
Proof.
  intros Hok Htok Hcons Hnew Hval Hfam Hcred Hnorm Hg Htoks.
  assert (rt_SuccessorRefresh rotation ≠ rt_PresentedHash rotation) as Hne by congruence.
  unfold ValidateBrowserRefreshRotation in Hval. apply reject_Ok in Hval as [Hv _].
  rewrite !orb_false_iff, negb_false_iff, bool_decide_eq_true in Hv.
  assert (length (rt_Seed rotation) = 32%nat ∧ rt_SuccessorRefresh rotation ≠ "") as [Hseed Hsr].
  { destruct Hv as [[[[[[[[[[_ _] _] _] _] ?] _] _] _] Hx] _]. split; [done|].
    by apply bool_decide_eq_false in Hx. }
  destruct Hok as [_ _ Hf Hc Hu]. split.
  - split; rewrite ?Htoks, ?Hfam; try done.
    + intros h t [[<- <-]|[_ [[<- <-]|[_ Ht]]%lookup_insert_Some]]%lookup_insert_Some; cbn; eauto.
    + intros h t [[<- <-]|[Hh [[<- <-]|[Hh2 Ht]]%lookup_insert_Some]]%lookup_insert_Some Hx.
      * by destruct Hx.
      * cbn. split; [done|]. split; [done|]. eexists. by rewrite lookup_insert_eq.
      * destruct (Hc _ _ Ht Hx) as (? & ? & t' & Ht' & Hft). split_and!; [done..|].
        destruct (decide (tk_successorHash t = rt_PresentedHash rotation)) as [E|].
        -- eexists. rewrite lookup_insert_ne, E, lookup_insert_eq by congruence. split; [done|].
           cbn. congruence.
        -- exists t'. rewrite !lookup_insert_ne by congruence. done.
    + intros h t [[<- <-]|[_ [[<- <-]|[_ Ht]]%lookup_insert_Some]]%lookup_insert_Some Hx; [done|done|].
      by eapply Hu.
  - split; rewrite ?Htoks, ?Hfam; [| |done].
    + intros h t Ht. destruct (decide (h = rt_PresentedHash rotation)) as [->|].
      * eexists. rewrite lookup_insert_ne, lookup_insert_eq by done.
        assert (t = token) as -> by congruence. split_and!; try done. rewrite Hcons. by intros [].
      * exists t. rewrite !lookup_insert_ne by congruence. by split_and!.
    + intros f x Hx. exists x. by split_and!.
Qed.

(** What a rotation guarantees, whatever it answers. *)
Definition rotate_post (rotation : BrowserRefreshRotation) (s : T) (r : res BrowserRefreshOutcome)
    (s' : T) : Prop :=
  refresh_ok s' ∧ rows_evolve s s' ∧ r ≠ Panic ∧ ∀ o, r = Ok o → refresh_meaning rotation s s' o.

Lemma rotate_same rotation s r s' :
  refresh_ok s → s' = s → r ≠ Panic → (∀ o, r = Ok o → refresh_meaning rotation s s o) →
  rotate_post rotation s r s'.
Proof. intros ? -> ? ?. split_and!; try done. apply rows_evolve_refl. Qed.

Lemma rotate_kills order rotation token family source reason d (w w1 : env * T) r w' :
  (let! n := revokeFamilyLocked order (tk_familyID token) reason (rt_ActorID rotation) (rt_Now rotation) in
   ret (decided d (fm_orgID family) (tk_familyID token) n)) w1 = (r, w') →
  w1.2 = w.2 → refresh_ok w.2 → complete order (creds w.2) →
  presented rotation w.2 token family → refreshable rotation family → token_member w.2 token source →
  (d = BrowserRefreshFamilyRevoked ∧ is_Some (cc_RevokedAt source)) ∨
    (d = BrowserRefreshReuseRevoked ∧ cc_RevokedAt source = None ∧ is_Some (tk_consumedAt token)) →
  rotate_post rotation w.2 r w'.2.
Proof.
  intros Hrun Hw Hok Hord Hpres Hlive Hmem Hd. pose proof (pr_family _ _ _ _ Hpres) as Hfam.
  apply bind_res_inv in Hrun as [(n & w2 & Hr & Hrun)|[(e & -> & Hr)|[-> Hr]]];
    apply (revokeFamilyLocked_spec _ _ _ _ _ _ _ _ family) in Hr
      as (Hok2 & Hp2 & Hev & Htk & (fam' & Hf' & Hrf) & Hdead);
    rewrite ?Hw in *; try done.
  injection Hrun as <- <-. split_and!; try done. intros o [= <-].
  assert (ended w.2 w2.2 token family) as Hend by (exists fam'; split_and!; [done..|by eapply Hdead]).
  destruct Hd as [[-> Hr]|(-> & Hr & Hc)]; unfold refresh_meaning; cbn; (split; [done|]).
  - exists token, family. split; [done|]. right. split_and!; [done|by exists source|done].
  - by exists token, family, source.
Qed.

Lemma rotate_exchange rotation token family source (w w1 : env * T) r w' :
  (let! successor := on_credentials (Lifecycle.CreateCredential
      (BrowserRefreshSuccessorInput rotation source (fm_expiresAt family) (rt_Now rotation))) in
   modify (λ s, RefreshStore (bs_credentials s) (bs_families s)
     (<[rt_SuccessorRefresh rotation :=
          RefreshToken (tk_familyID token) (cc_CredentialID successor) None "" []
            (rt_SuccessorTokenHash rotation)]>
        (<[rt_PresentedHash rotation := consume_token (rt_Now rotation) rotation token]> (bs_tokens s)))) ;;
   ret (RefreshOutcome BrowserRefreshRotated (fm_orgID family) (tk_familyID token)
          (Some successor) (rt_Seed rotation) (rt_SuccessorTokenHash rotation)
          (rt_SuccessorRefresh rotation) 0)) w1 = (r, w') →
  w1.2 = w.2 → refresh_ok w.2 → ValidateBrowserRefreshRotation rotation = Ok () →
  presented rotation w.2 token family → refreshable rotation family → token_member w.2 token source →
  tk_consumedAt token = None → cc_RevokedAt source = None → bs_tokens w.2 !! rt_SuccessorRefresh rotation = None →
  rotate_post rotation w.2 r w'.2.
Proof.
  intros Hrun Hw Hok Hval Hpres Hlive Hmem Hcons Hsr Hnew. pose proof (pr_token _ _ _ _ Hpres) as Htok.
  apply bind_res_inv in Hrun as [(c & w2 & Hcr & Hrun)|[(e & -> & Hcr)|[-> Hcr]]].
  - apply create_successor in Hcr as (Htk & Hfm & Hbe & Hno & Hgr & Hcn & Hce & Hcc & Hcf & Hfresh & Hadd);
      rewrite ?Hw in *; [|done].
    injection Hrun as <- <-. cbn [snd].
    lazymatch goal with |- rotate_post _ _ _ ?s' =>
      destruct (rotated_rows rotation token c w.2 s') as [Hok' Hev']; try done; [cbn; by rewrite Htk|]
    end.
    split; [exact Hok'|]. split; [exact Hev'|]. split; [done|]. intros o [= <-].
    unfold refresh_meaning. cbn -[BrowserRefreshSuccessorExpiry].
    exists token, family, source, c,
      (BrowserRefreshSuccessorExpiry (rt_Now rotation) (rt_AccessLifetime rotation) (fm_expiresAt family)).
    split_and!; try done; [apply successor_expiry_le|by rewrite Htk].
  - apply on_credentials_inv in Hcr as (w2 & Hcr & ->).
    apply front_create in Hcr as (_ & _ & Hsm & _); [|rewrite Hw; apply Hok].
    apply rotate_same; [done| |done|done].
    cbn in *. rewrite (Hsm e eq_refl), Hw. apply set_credentials_id.
  - apply on_credentials_inv in Hcr as (w2 & Hcr & ->).
    by apply front_create in Hcr as (_ & ? & _); [|rewrite Hw; apply Hok].
Qed.

Lemma rotate_replay order rotation token family source consumedAt (w w1 : env * T) r w' :
  (let! replay := graceReplayLocked family token (rt_Grace rotation) (rt_Now rotation) in
   match replay with
   | Some o => ret (RefreshOutcome (oc_Decision o) (fm_orgID family) (tk_familyID token)
                      (oc_Credential o) (oc_Seed o) (oc_SuccessorTokenHash o)
                      (oc_SuccessorRefreshHash o) (oc_RevokedCredentials o))
   | None =>
     let! revoked := revokeFamilyLocked order (tk_familyID token) "reuse"
                       (rt_ActorID rotation) (rt_Now rotation) in
     ret (decided BrowserRefreshReuseRevoked (fm_orgID family) (tk_familyID token) revoked)
   end) w1 = (r, w') →
  w1.2 = w.2 → refresh_ok w.2 → complete order (creds w.2) →
  presented rotation w.2 token family → refreshable rotation family → token_member w.2 token source →
  cc_RevokedAt source = None → tk_consumedAt token = Some consumedAt →
  rotate_post rotation w.2 r w'.2.
Proof.
  intros Hrun Hw Hok Hord Hpres Hlive Hmem Hsr Hcons.
  apply bind_res_inv in Hrun as [(replay & w2 & Hg & Hrun)|[(e & -> & Hg)|[-> Hg]]];
    apply (graceReplay_spec _ _ _ _ _ _ _ consumedAt) in Hg as (Hw2 & [? Hx] & Hrep); [|done..].
  rewrite Hw in Hw2. destruct replay as [o|].
  - injection Hrun as <- <-. apply rotate_same; [done..|]. intros o' [= <-].
    destruct (Hrep o eq_refl) as (Hd & Hgr & Hh & Hseed & successor & c & Hst & Hun & Hc & Hcr & Hoc & Hacc).
    rewrite Hw in Hst, Hc. unfold refresh_meaning. cbn. rewrite Hd. split; [done|].
    exists token, family, source, consumedAt, successor, c. by split_and!.
  - eapply rotate_kills; try done. right. by rewrite Hcons.
Qed.

Lemma rotate_meaning order rotation (w : env * T) r w' :
  RotateBrowserRefresh order rotation w = (r, w') → refresh_ok w.2 → complete order (creds w.2) →
  rotate_post rotation w.2 r w'.2.
Proof.
  unfold RotateBrowserRefresh. intros Hrun Hok Hord.
  apply bind_ctx in Hrun as [(e & -> & Hw)|(e & Hrun)]; [by apply rotate_same|].
  rewrite bind_lift in Hrun.
  destruct (ValidateBrowserRefreshRotation rotation) as [[]|e1|] eqn:Hval;
    [|by injection Hrun as <- <-; apply rotate_same
     |unfold ValidateBrowserRefreshRotation in Hval; by case_match].
  rewrite bind_get in Hrun. cbn [snd] in Hrun.
  destruct (bs_tokens w.2 !! rt_PresentedHash rotation) as [token|] eqn:Htok.
  2:{ injection Hrun as <- <-. apply rotate_same; try done. by intros o [= <-]. }
  destruct (rk_family _ Hok _ _ Htok) as [family Hfam]. rewrite Hfam in Hrun.
  case_bool_decide as Hcl; cbn [negb] in Hrun.
  2:{ injection Hrun as <- <-. apply rotate_same; try done. intros o [= <-]. by split; [|exists token, family]. }
  assert (presented rotation w.2 token family) as Hpres by done.
  case_bool_decide as Hrv.
  { injection Hrun as <- <-. apply rotate_same; try done. intros o [= <-]. split; [done|].
    exists token, family. by split; [|left]. }
  apply eq_None_not_Some in Hrv.
  destruct (time_Before (rt_Now rotation) (fm_expiresAt family)) eqn:Hexp; cbn [negb] in Hrun.
  2:{ apply bool_decide_eq_false in Hexp. injection Hrun as <- <-. apply rotate_same; try done. intros o [= <-].
      split; [done|]. exists token, family. split_and!; [done..|lia]. }
  apply bool_decide_eq_true in Hexp. assert (refreshable rotation family) as Hlive by done.
  apply bind_res_inv in Hrun as [(source & w1 & Hsrc & Hrun)|[(e2 & -> & Hsrc)|[-> Hsrc]]];
    apply on_get in Hsrc as (Hw1 & Hp1 & Hview); cbn [snd] in Hw1, Hview; [| |done].
  2:{ by apply rotate_same. }
  assert (token_member w.2 token source) as Hmem by (by apply Hview).
  case_bool_decide as Hsr; [eapply rotate_kills; eauto|].
  case_bool_decide as Hcons.
  - case_bool_decide as Hnew; [by injection Hrun as <- <-; apply rotate_same|].
    apply eq_None_not_Some in Hnew, Hsr. eapply rotate_exchange; eauto.
  - destruct (tk_consumedAt token) as [consumedAt|] eqn:Ect; [|done]. apply eq_None_not_Some in Hsr.
    eapply rotate_replay; eauto.
Qed.

(** *** When a reuse is not a replay *)

(** The token was used within the window, and the successor it was exchanged for
    is unused and its credential there and not revoked. *)
Definition replayable (rotation : BrowserRefreshRotation) (s : T) : Prop :=
  ∃ token family consumedAt successor c, presented rotation s token family ∧
    tk_consumedAt token = Some consumedAt ∧
    BrowserRefreshInGrace consumedAt (rt_Now rotation) (rt_Grace rotation) = true ∧
    bs_tokens s !! tk_successorHash token = Some successor ∧ tk_consumedAt successor = None ∧
    normalizeCredentialID (tk_credentialID successor) = Ok (cc_CredentialID c) ∧
    creds s !! cc_CredentialID c = Some c ∧ cc_OrgID c = strings_TrimSpace (fm_orgID family) ∧
    cc_RevokedAt c = None.

Lemma on_get_live org id (w : env * T) :
  env_ctx w.1 = [] → ∃ r, on_credentials (Lifecycle.GetByID org id) w = (r, w) ∧
    ((∃ c, r = Ok c) → normalizeIdentifier "organization" org = Ok (strings_TrimSpace org)) ∧
    ∀ c, normalizeIdentifier "organization" org = Ok (strings_TrimSpace org) →
      normalizeCredentialID id = Ok (cc_CredentialID c) → creds w.2 !! cc_CredentialID c = Some c →
      cc_OrgID c = strings_TrimSpace org → r = Ok c.
Proof.
  intros Hlive. destruct (front_get_live org id (w.1, bs_credentials w.2) Hlive) as (r & Hr & Ho & Hc).
  exists r. split; [|done]. unfold on_credentials, zoom. rewrite Hr. cbn. rewrite set_credentials_id.
  by destruct w.
Qed.

Lemma replay_answers token family consumedAt successor c grace now (w : env * T) :
  refresh_ok w.2 → env_ctx w.1 = [] → (∃ h, bs_tokens w.2 !! h = Some token) → tk_consumedAt token = Some consumedAt →
  BrowserRefreshInGrace consumedAt now grace = true →
  bs_tokens w.2 !! tk_successorHash token = Some successor → tk_consumedAt successor = None →
  normalizeCredentialID (tk_credentialID successor) = Ok (cc_CredentialID c) →
  creds w.2 !! cc_CredentialID c = Some c → cc_OrgID c = strings_TrimSpace (fm_orgID family) → cc_RevokedAt c = None →
  normalizeIdentifier "organization" (fm_orgID family) = Ok (strings_TrimSpace (fm_orgID family)) →
  ∃ o, graceReplayLocked family token grace now w = (Ok (Some o), w) ∧ oc_Decision o = BrowserRefreshGraceReplay.
Proof.
  intros Hok Hlive [h Htok] Hc Hgr Hs Hun Hid Hcr Horg Hr Hno.
  destruct (rk_consumed _ Hok _ _ Htok) as (Hne & Hlen & _); [by rewrite Hc|].
  destruct (on_get_live (fm_orgID family) (tk_credentialID successor) w Hlive) as (r & Hg & _ & Hfind).
  rewrite (Hfind c) in Hg by done.
  unfold graceReplayLocked. rewrite Hc. unfold is_empty.
  rewrite (bool_decide_false (tk_successorHash token = "")), (bool_decide_true (length (tk_seed token) = 32%nat)), Hgr by done.
  cbn [orb negb]. rewrite bind_get, Hs, Hun. cbn.
  unfold bind at 1, attempt. rewrite Hg. cbn. rewrite Hr. by eexists.
Qed.

(** A token is not taken for reused when its exchange could be replayed. *)
Lemma reuse_not_replayable order rotation (w : env * T) o w' :
  RotateBrowserRefresh order rotation w = (Ok o, w') → refresh_ok w.2 → env_ctx w.1 = [] →
  oc_Decision o = BrowserRefreshReuseRevoked → ¬ replayable rotation w.2.
Proof.
  unfold RotateBrowserRefresh. intros Hrun Hok Hlive Hd
    (token & family & consumedAt & successor & c & [Htok Hfam Hcl] & Hcons & Hgr & Hs & Hun & Hid & Hcr & Horg & Hr).
  assert (∀ A (k : () → go T A), (let! u := ctx_check in k u) w = k () w) as Hctx.
  { intros A k. unfold bind, ctx_check. by rewrite Hlive. }
  rewrite Hctx, bind_lift in Hrun. destruct (ValidateBrowserRefreshRotation rotation) as [[]|e1|]; [|done..].
  rewrite bind_get, Htok, Hfam, (bool_decide_true _ Hcl) in Hrun. cbn [negb] in Hrun.
  case_bool_decide; [by injection Hrun as <- _|].
  destruct (negb _); [by injection Hrun as <- _|].
  destruct (on_get_live (fm_orgID family) (tk_credentialID token) w Hlive) as (r & Hg & Ho & _).
  unfold bind at 1 in Hrun. rewrite Hg in Hrun. destruct r as [source|e|]; [|done..].
  case_bool_decide.
  { by apply bind_res_inv in Hrun as [(n & w2 & _ & [= <- _])|[(e & ? & _)|[? _]]]. }
  rewrite Hcons in Hrun. cbn in Hrun.
  destruct (replay_answers token family consumedAt successor c (rt_Grace rotation) (rt_Now rotation) w)
    as (o1 & Hrep & Hdec); [eauto..|].
  unfold bind at 1 in Hrun. rewrite Hrep in Hrun. injection Hrun as <- _. cbn in Hd. congruence.
Qed.

(** ** Starting and ending a family *)

Lemma start_spec start (w : env * T) r w' :
  StartBrowserFamily start w = (r, w') → refresh_ok w.2 →
  refresh_ok w'.2 ∧ rows_evolve w.2 w'.2 ∧ r ≠ Panic.
Proof.
  unfold StartBrowserFamily. intros Hrun Hok.
  assert (∀ s, s = w.2 → r ≠ Panic → refresh_ok s ∧ rows_evolve w.2 s ∧ r ≠ Panic) as Hsame.
  { intros s -> ?. split_and!; [done|apply rows_evolve_refl|done]. }
  apply bind_ctx in Hrun as [(e & -> & Hw)|(e & Hrun)]; [by apply Hsame|].
  rewrite bind_lift in Hrun. destruct (ValidateBrowserFamilyStart start) as [[]|e1|] eqn:Hv;
    [|by injection Hrun as <- <-; apply Hsame|unfold ValidateBrowserFamilyStart in Hv; by case_match].
  rewrite bind_get in Hrun. cbn [snd] in Hrun.
  case_bool_decide as Hf; [by injection Hrun as <- <-; apply Hsame|].
  case_bool_decide as Ht; injection Hrun as <- <-; [by apply Hsame|].
  apply eq_None_not_Some in Hf, Ht. destruct Hok as [Hc Hn Hfam Hcons Hun].
  split_and!; [| |done]; split; try done; cbn.
  - intros h t [[<- <-]|[_ Hh]]%lookup_insert_Some; cbn; [by rewrite lookup_insert_eq; eexists|].
    apply lookup_insert_is_Some'. eauto.
  - intros h t [[<- <-]|[_ Hh]]%lookup_insert_Some Hx; [by destruct Hx|].
    destruct (Hcons _ _ Hh Hx) as (? & ? & t' & Ht' & ?). split_and!; [done..|].
    exists t'. by rewrite lookup_insert_ne by congruence.
  - intros h t [[<- <-]|[_ Hh]]%lookup_insert_Some; [done|by apply (Hun h)].
  - intros h t Hh. exists t. rewrite lookup_insert_ne by congruence. by split_and!.
  - intros f x Hx. exists x. rewrite lookup_insert_ne by congruence. by split_and!.
  - apply grows_to_refl.
Qed.

Lemma sign_out_spec order h client actor now (w : env * T) r w' :
  RevokeBrowserFamilyByToken order h client actor now w = (r, w') → refresh_ok w.2 →
  complete order (creds w.2) →
  refresh_ok w'.2 ∧ rows_evolve w.2 w'.2 ∧ r ≠ Panic ∧
  ∀ o, r = Ok o → fo_Decision o = BrowserFamilyRevokedNow →
    ∃ token family family', bs_tokens w.2 !! h = Some token ∧
      bs_families w.2 !! tk_familyID token = Some family ∧ fm_clientID family = client ∧
      bs_families w'.2 !! tk_familyID token = Some family' ∧ is_Some (fm_revokedAt family') ∧
      family_dead (strings_TrimSpace (fm_orgID family)) (tk_familyID token) (creds w'.2).
Proof.
  unfold RevokeBrowserFamilyByToken. intros Hrun Hok Hord.
  assert (∀ s, s = w.2 → refresh_ok s ∧ rows_evolve w.2 s) as Hsame.
  { intros s ->. split; [done|apply rows_evolve_refl]. }
  apply bind_ctx in Hrun as [(e & -> & Hw)|(e & Hrun)]; [by destruct (Hsame _ Hw); split_and!|].
  destruct (_ || _); [injection Hrun as <- <-; by destruct (Hsame w.2 eq_refl); split_and!|].
  rewrite bind_get in Hrun. cbn [snd] in Hrun.
  destruct (bs_tokens w.2 !! h) as [token|] eqn:Htok.
  2:{ injection Hrun as <- <-. destruct (Hsame w.2 eq_refl). split_and!; try done. by intros o [= <-]. }
  destruct (rk_family _ Hok _ _ Htok) as [family Hfam]. rewrite Hfam in Hrun.
  case_bool_decide as Hcl; cbn [negb] in Hrun.
  2:{ injection Hrun as <- <-. destruct (Hsame w.2 eq_refl). split_and!; try done. by intros o [= <-]. }
  case_bool_decide as Hrv.
  { injection Hrun as <- <-. destruct (Hsame w.2 eq_refl). split_and!; try done. by intros o [= <-]. }
  apply bind_res_inv in Hrun as [(n & w2 & Hr & Hrun)|[(e2 & -> & Hr)|[-> Hr]]];
    apply (revokeFamilyLocked_spec _ _ _ _ _ _ _ _ family) in Hr
      as (Hok2 & Hp2 & Hev & Htk & (fam' & Hf' & Hrf) & Hdead); try done.
  injection Hrun as <- <-. split_and!; try done. intros o [= <-] _.
  exists token, family, fam'. split_and!; try done. by eapply Hdead.
Qed.

(** ** Histories

    One step is an operation of the store, whatever it answers, or a change of
    the credential store by another of its users, which the interface bounds. *)
Inductive refresh_step (s : T) : T → Prop :=
  | step_start start e r w' : StartBrowserFamily start (e, s) = (r, w') → refresh_step s w'.2
  | step_rotate order rotation e r w' : complete order (creds s) →
      RotateBrowserRefresh order rotation (e, s) = (r, w') → refresh_step s w'.2
  | step_sign_out order h client actor now e r w' : complete order (creds s) →
      RevokeBrowserFamilyByToken order h client actor now (e, s) = (r, w') → refresh_step s w'.2
  | step_elsewhere c : be_ok c → ids_normal (be_view c) → grows_to (creds s) (be_view c) →
      refresh_step s (bs_set_credentials c s).

Inductive refresh_steps : T → T → Prop :=
  | rsteps_refl s : refresh_steps s s
  | rsteps_step s1 s2 s3 : refresh_steps s1 s2 → refresh_step s2 s3 → refresh_steps s1 s3.

Lemma rows_evolve_trans s1 s2 s3 : rows_evolve s1 s2 → rows_evolve s2 s3 → rows_evolve s1 s3.
Proof.
  intros [Ht1 Hf1 Hc1] [Ht2 Hf2 Hc2]. split; [| |by eapply grows_to_trans].
  - intros h t Ht. destruct (Ht1 _ _ Ht) as (t1 & Hy1 & Ha1 & Hb1 & Hd1).
    destruct (Ht2 _ _ Hy1) as (t2 & Hy2 & Ha2 & Hb2 & Hd2). exists t2.
    split_and!; [done|congruence..|]. intros Hs. specialize (Hd1 Hs). subst t1. auto.
  - intros f x Hx. destruct (Hf1 _ _ Hx) as (x1 & Hy1 & Ha1 & Hb1 & He1 & Hd1).
    destruct (Hf2 _ _ Hy1) as (x2 & Hy2 & Ha2 & Hb2 & He2 & Hd2). exists x2.
    split_and!; [done|congruence..|]. intros Hs. specialize (Hd1 Hs). subst x1. auto.
Qed.

Lemma refresh_step_keeps s s' : refresh_step s s' → refresh_ok s → refresh_ok s' ∧ rows_evolve s s'.
Proof.
  intros Hstep Hok. destruct Hstep as [start e r w' Hrun|o rot e r w' Hord Hrun|o h c a n e r w' Hord Hrun|c Hc Hn Hg].
  - apply start_spec in Hrun as (? & ? & _); done.
  - apply rotate_meaning in Hrun as (? & ? & _); done.
  - apply sign_out_spec in Hrun as (? & ? & _); done.
  - destruct Hok as [_ _ ? ? ?]. split; [done|]. split; [intros; eexists; by split_and!..|done].
Qed.

Lemma refresh_steps_keep s s' : refresh_steps s s' → refresh_ok s → refresh_ok s' ∧ rows_evolve s s'.
Proof.
  induction 1 as [s|s1 s2 s3 _ IH Hstep]; intros Hok; [split; [done|apply rows_evolve_refl]|].
  destruct (IH Hok) as [Hok2 Hev]. destruct (refresh_step_keeps _ _ Hstep Hok2).
  split; [done|by eapply rows_evolve_trans].
Qed.

(** *** Properties *)

(** C26: the meaning of every decision of a refresh.  From a consistent state,
    with the listing visiting every stored credential, RotateBrowserRefresh
    keeps the state consistent, never panics and only moves rows forward
    (tokens are consumed once, families revoked once), and each answer says what
    was the case.  Rotated: the client is the family's, the family is neither
    revoked nor expired, the token's credential is not revoked, the token was
    unused, and it was exchanged for a fresh token and one new browser credential
    that ends no later than the family.  Grace replay: nothing changes; the same,
    but the token was used within the window, and its successor is still unused
    and the successor's credential not revoked.  Reuse: the token of a family
    that could refresh was used before, and the family and every credential of
    it are now revoked; with a live context, it could not be replayed.  Family
    revoked: it was revoked before, and nothing changes, or the token's
    credential was, and it is now.  Expired, client mismatch and unknown token:
    just that, and nothing changes. *)
Theorem refresh_decisions order rotation (w : env * T) r w' :
  RotateBrowserRefresh order rotation w = (r, w') → refresh_ok w.2 → complete order (creds w.2) →
  rotate_post rotation w.2 r w'.2 ∧
  (∀ o, r = Ok o → oc_Decision o = BrowserRefreshReuseRevoked → env_ctx w.1 = [] → ¬ replayable rotation w.2).
Proof.
  intros Hrun Hok Hord. split; [by eapply rotate_meaning|]. intros o -> Hd Hlive. by eapply reuse_not_replayable.
Qed.

(** C27: a refresh token is exchanged at most once.  After a refresh that
    rotated a token, whatever happens to the store in between, no refresh that
    presents the same token answers rotated again. *)
Theorem refresh_single_use order1 order2 rot1 rot2 (w w1 w2 w3 : env * T) o1 o2 :
  refresh_ok w.2 → complete order1 (creds w.2) →
  RotateBrowserRefresh order1 rot1 w = (Ok o1, w1) → oc_Decision o1 = BrowserRefreshRotated →
  refresh_steps w1.2 w2.2 → complete order2 (creds w2.2) →
  rt_PresentedHash rot2 = rt_PresentedHash rot1 →
  RotateBrowserRefresh order2 rot2 w2 = (Ok o2, w3) →
  oc_Decision o2 ≠ BrowserRefreshRotated.
Proof.
  intros Hok Hord1 Hr1 Hd1 Hsteps Hord2 Hsame Hr2 Hd2.
  apply rotate_meaning in Hr1 as (Hok1 & _ & _ & Hm1); [|done..].
  apply refresh_steps_keep in Hsteps as [Hok2 Hev]; [|done].
  apply rotate_meaning in Hr2 as (_ & _ & _ & Hm2); [|done..].
  specialize (Hm1 _ eq_refl). specialize (Hm2 _ eq_refl). unfold refresh_meaning in Hm1, Hm2.
  rewrite Hd1 in Hm1. rewrite Hd2, Hsame in Hm2.
  destruct Hm1 as (token & family & source & c & ex & [Htok _ _] & _ & _ & _ & _ & _ & _ & _ & _ & _ & _ & _ & _ & Hnew & Htk & _).
  destruct Hm2 as (token2 & _ & _ & _ & _ & [Htok2 _ _] & _ & _ & _ & Hc2 & _). rewrite Hsame in Htok2.
  destruct (re_tokens _ _ Hev (rt_PresentedHash rot1) (consume_token (rt_Now rot1) rot1 token))
    as (t' & Ht' & _ & _ & He).
  { rewrite Htk, lookup_insert_ne, lookup_insert_eq by congruence. done. }
  rewrite He in Ht' by (by eexists). rewrite Ht' in Htok2. by injection Htok2 as <-.
Qed.

(** A revoked family never issues again.  Once a family is marked revoked,
    no later refresh with any token of that family rotates or replays, however
    the store was used in between. *)
Theorem revoked_family_never_issues (s : T) (w w' : env * T) order rotation fid family h token o :
  refresh_ok s → bs_families s !! fid = Some family → is_Some (fm_revokedAt family) →
  bs_tokens s !! h = Some token → tk_familyID token = fid →
  refresh_steps s w.2 → complete order (creds w.2) → rt_PresentedHash rotation = h →
  RotateBrowserRefresh order rotation w = (Ok o, w') →
  oc_Decision o = BrowserRefreshClientMismatch ∨ oc_Decision o = BrowserRefreshFamilyRevoked.
Proof.
  intros Hok Hfam Hrv Htok Hfid Hsteps Hord Hh Hrun.
  apply refresh_steps_keep in Hsteps as [Hok2 Hev]; [|done].
  destruct (re_tokens _ _ Hev _ _ Htok) as (t' & Ht' & Hft & _).
  destruct (re_families _ _ Hev _ _ Hfam) as (x' & Hx' & _ & _ & _ & Hxx).
  specialize (Hxx Hrv). subst x'.
  unfold RotateBrowserRefresh in Hrun.
  apply bind_ctx_Ok in Hrun as (e & _ & Hrun). rewrite bind_lift in Hrun.
  destruct (ValidateBrowserRefreshRotation rotation); [|done..].
  rewrite bind_get in Hrun. cbn [snd] in Hrun. rewrite Hh, Ht', Hft, Hfid, Hx' in Hrun.
  destruct (negb _); [injection Hrun as <- _; by left|].
  rewrite bool_decide_true in Hrun by done. injection Hrun as <- _. by right.
Qed.

(** Signing out with a refresh token that succeeds leaves the family row
    revoked and every access credential of the family, in the organization the
    family was started for, revoked. *)
Theorem sign_out_ends_family order h client actor now (w w' : env * T) o :
  refresh_ok w.2 → complete order (creds w.2) →
  RevokeBrowserFamilyByToken order h client actor now w = (Ok o, w') →
  fo_Decision o = BrowserFamilyRevokedNow →
  ∃ token family family', bs_tokens w.2 !! h = Some token ∧
    bs_families w.2 !! tk_familyID token = Some family ∧ fm_clientID family = client ∧
    bs_families w'.2 !! tk_familyID token = Some family' ∧ is_Some (fm_revokedAt family') ∧
    family_dead (strings_TrimSpace (fm_orgID family)) (tk_familyID token) (creds w'.2).
Proof.
  intros Hok Hord Hrun Hd. apply sign_out_spec in Hrun as (_ & _ & _ & Ho); [|done..]. by apply (Ho o).
Qed.
End theorems.

(** ** A concrete family over the in-memory credential store *)

Abbreviation MemT := (BrowserRefreshStore credentialStore).
#[local] Existing Instance no_uuid.
#[local] Existing Instance sample_tables.

Definition family_start : BrowserFamilyStart :=
  FamilyStart "org-1" "family-1" "https://client.example.com/id" "cred-1" "refresh-1" 100 2000.

Definition refresh_with (presented cred : string) (c : ascii) (successor : string) (now : time)
    : BrowserRefreshRotation :=
  RefreshRotation presented "https://client.example.com/id" now 50 500 (replicate 32 7) cred (token c)
    "fcacr_rotated" successor "user-1".

Definition bstore_0 : MemT := RefreshStore store_1 ∅ ∅.
Definition bstore_1 : MemT :=
  Eval vm_compute in (StartBrowserFamily family_start (at_time 100, bstore_0)).2.2.

Definition first_refresh : BrowserRefreshRotation := refresh_with "refresh-1" "cred-9" "e" "refresh-2" 300.
Definition late_refresh : BrowserRefreshRotation := refresh_with "refresh-1" "cred-8" "f" "refresh-3" 400.

Definition run_1 : res BrowserRefreshOutcome * (env * MemT) :=
  Eval vm_compute in RotateBrowserRefresh ["cred-1"] first_refresh (at_time 300, bstore_1).
Definition run_2 : res BrowserRefreshOutcome * (env * MemT) :=
  Eval vm_compute in RotateBrowserRefresh ["cred-9"; "cred-1"] late_refresh (at_time 400, run_1.2.2).
Definition run_3 : res BrowserFamilyRevocationOutcome * (env * MemT) :=
  Eval vm_compute in RevokeBrowserFamilyByToken ["cred-9"; "cred-1"] "refresh-2"
    "https://client.example.com/id" "user-1" 400 (at_time 400, run_1.2.2).

Definition outcome_1 : BrowserRefreshOutcome :=
  Eval vm_compute in match run_1.1 with Ok o => o | _ => decided BrowserRefreshUnknownToken "" "" 0 end.
Definition outcome_2 : BrowserRefreshOutcome :=
  Eval vm_compute in match run_2.1 with Ok o => o | _ => decided BrowserRefreshUnknownToken "" "" 0 end.
Definition outcome_3 : BrowserFamilyRevocationOutcome :=
  Eval vm_compute in match run_3.1 with Ok o => o | _ => FamilyRevocationOutcome BrowserRefreshUnknownToken "" "" 0 end.

Lemma store_1_ok : store_ok store_1.
Proof.
  eapply steps_keep; [|apply initial_ok]. eapply steps_step; [apply steps_refl|].
  apply (run_step (OpCreate (browser_input "cred-1" "a")) 100 _ store_1). vm_compute. reflexivity.
Qed.

Lemma bstore_0_ok : refresh_ok bstore_0.
Proof.
  split; [apply store_1_ok| |done..]. intros id Hid.
  enough (map_Forall (λ k _, strings_TrimSpace k = k) (cs_view store_1)) as Hall.
  { destruct Hid as [c Hc]. by apply (Hall id c). }
  refine (bool_decide_unpack _ _). vm_compute. exact I.
Qed.

Lemma bstore_1_run : StartBrowserFamily family_start (at_time 100, bstore_0) = (Ok (), (at_time 100, bstore_1)).
Proof. vm_compute. reflexivity. Qed.

Lemma bstore_1_ok : refresh_ok bstore_1.
Proof. exact (proj1 (start_spec _ _ _ _ bstore_1_run bstore_0_ok)). Qed.

Lemma complete_by (order : list string) (m : gmap string ClientCredential) :
  dom m = list_to_set order → complete order m.
Proof. intros Hd id. rewrite <-elem_of_dom, Hd, elem_of_list_to_set. done. Qed.

Lemma complete_1 : complete ["cred-1"] (creds bstore_1).
Proof. apply complete_by. vm_compute. reflexivity. Qed.

Lemma complete_2 : complete ["cred-9"; "cred-1"] (creds run_1.2.2).
Proof. apply complete_by. vm_compute. reflexivity. Qed.

Lemma run_1_eq : RotateBrowserRefresh ["cred-1"] first_refresh (at_time 300, bstore_1) = (Ok outcome_1, run_1.2).
Proof. vm_compute. reflexivity. Qed.
Lemma run_2_eq :
  RotateBrowserRefresh ["cred-9"; "cred-1"] late_refresh (at_time 400, run_1.2.2) = (Ok outcome_2, run_2.2).
Proof. vm_compute. reflexivity. Qed.
Lemma run_3_eq :
  RevokeBrowserFamilyByToken ["cred-9"; "cred-1"] "refresh-2" "https://client.example.com/id" "user-1" 400
    (at_time 400, run_1.2.2) = (Ok outcome_3, run_3.2).
Proof. vm_compute. reflexivity. Qed.

Lemma run_1_ok : refresh_ok run_1.2.2.
Proof. exact (proj1 (rotate_meaning _ _ _ _ _ run_1_eq bstore_1_ok complete_1)). Qed.

Lemma refresh_decisions_witness : rotate_post first_refresh bstore_1 (Ok outcome_1) run_1.2.2.
Proof.
  exact (proj1 (refresh_decisions ["cred-1"] first_refresh (at_time 300, bstore_1) (Ok outcome_1) run_1.2
    run_1_eq bstore_1_ok complete_1)).
Defined.

Lemma refresh_single_use_witness : oc_Decision outcome_2 ≠ BrowserRefreshRotated.
Proof.
  exact (refresh_single_use ["cred-1"] ["cred-9"; "cred-1"] first_refresh late_refresh
    (at_time 300, bstore_1) run_1.2 (at_time 400, run_1.2.2) run_2.2 outcome_1 outcome_2
    bstore_1_ok complete_1 run_1_eq eq_refl (rsteps_refl _) complete_2 eq_refl run_2_eq).
Defined.

Definition dead_family : browserFamily :=
  Eval vm_compute in default (Family "" "" 0 None "") (bs_families run_3.2.2 !! "family-1").
Definition spent_token : browserRefreshToken :=
  Eval vm_compute in default (RefreshToken "" "" None "" [] "") (bs_tokens run_3.2.2 !! "refresh-2").
Definition after_sign_out : BrowserRefreshRotation := refresh_with "refresh-2" "cred-7" "f" "refresh-4" 450.
Definition run_4 : res BrowserRefreshOutcome * (env * MemT) :=
  Eval vm_compute in RotateBrowserRefresh ["cred-9"; "cred-1"] after_sign_out (at_time 450, run_3.2.2).
Definition outcome_4 : BrowserRefreshOutcome :=
  Eval vm_compute in match run_4.1 with Ok o => o | _ => decided BrowserRefreshUnknownToken "" "" 0 end.

Lemma run_3_ok : refresh_ok run_3.2.2.
Proof. exact (proj1 (sign_out_spec _ _ _ _ _ _ _ _ run_3_eq run_1_ok complete_2)). Qed.
Lemma complete_3 : complete ["cred-9"; "cred-1"] (creds run_3.2.2).
Proof. apply complete_by. vm_compute. reflexivity. Qed.
Lemma dead_family_at : bs_families run_3.2.2 !! "family-1" = Some dead_family.
Proof. vm_compute. reflexivity. Qed.
Lemma spent_token_at : bs_tokens run_3.2.2 !! "refresh-2" = Some spent_token.
Proof. vm_compute. reflexivity. Qed.
Lemma run_4_eq :
  RotateBrowserRefresh ["cred-9"; "cred-1"] after_sign_out (at_time 450, run_3.2.2) = (Ok outcome_4, run_4.2).
Proof. vm_compute. reflexivity. Qed.

Lemma revoked_family_never_issues_witness :
  oc_Decision outcome_4 = BrowserRefreshClientMismatch ∨ oc_Decision outcome_4 = BrowserRefreshFamilyRevoked.
Proof.
  exact (revoked_family_never_issues run_3.2.2 (at_time 450, run_3.2.2) run_4.2 ["cred-9"; "cred-1"]
    after_sign_out "family-1" dead_family "refresh-2" spent_token outcome_4 run_3_ok dead_family_at
    (ex_intro _ 400 eq_refl) spent_token_at eq_refl (rsteps_refl _) complete_3 eq_refl run_4_eq).
Defined.

Lemma sign_out_ends_family_witness :
  ∃ token family family', bs_tokens run_1.2.2 !! "refresh-2" = Some token ∧
    bs_families run_1.2.2 !! tk_familyID token = Some family ∧
    fm_clientID family = "https://client.example.com/id" ∧
    bs_families run_3.2.2 !! tk_familyID token = Some family' ∧ is_Some (fm_revokedAt family') ∧
    family_dead (strings_TrimSpace (fm_orgID family)) (tk_familyID token) (creds run_3.2.2).
Proof.
  exact (sign_out_ends_family ["cred-9"; "cred-1"] "refresh-2" "https://client.example.com/id" "user-1" 400
    (at_time 400, run_1.2.2) run_3.2 outcome_3 run_1_ok complete_2 run_3_eq eq_refl).
Defined.

Definition interrupted : env := Env [None; Some Canceled] [400].
Definition sign_out_2 : go MemT BrowserFamilyRevocationOutcome :=
  RevokeBrowserFamilyByToken ["cred-9"; "cred-1"] "refresh-2" "https://client.example.com/id" "user-1" 400.

Definition interrupted_at : env * MemT := Eval vm_compute in (sign_out_2 (interrupted, run_1.2.2)).2.
Definition retried_at : env * MemT := Eval vm_compute in (sign_out_2 (at_time 410, interrupted_at.2)).2.
Definition found_after : res ClientCredential * (env * credentialStore) :=
  Eval vm_compute in Lifecycle.FindByTokenHash (token "e") (at_time 420, bs_credentials retried_at.2).
Definition still_live : ClientCredential :=
  Eval vm_compute in match oc_Credential outcome_1 with Some c => c | None => cr_Metadata lost end.

Lemma interrupted_runs :
  sign_out_2 (interrupted, run_1.2.2) = (Err ErrCanceled, interrupted_at) ∧
  sign_out_2 (at_time 410, interrupted_at.2) =
    (Ok (FamilyRevocationOutcome BrowserRefreshFamilyRevoked "org-1" "family-1" 0), retried_at) ∧
  Lifecycle.FindByTokenHash (token "e") (at_time 420, bs_credentials retried_at.2) = (Ok still_live, found_after.2).
Proof. split_and!; vm_compute; reflexivity. Qed.

(** A run in which a sign-out interrupted after it marked the family is not
    repaired by trying again: the request context ends between the marking and
    the listing of the members, the sign-out answers the context error, the retry
    with a live context answers that the family is revoked and revokes
    nothing, and the family's access token still authenticates. *)
Example interrupted_sign_out_leaves_access :
  ∃ w1 w2 c w3, sign_out_2 (interrupted, run_1.2.2) = (Err ErrCanceled, w1) ∧
    sign_out_2 (at_time 410, w1.2) =
      (Ok (FamilyRevocationOutcome BrowserRefreshFamilyRevoked "org-1" "family-1" 0), w2) ∧
    Lifecycle.FindByTokenHash (token "e") (at_time 420, bs_credentials w2.2) = (Ok c, w3) ∧
    cc_CredentialID c = "cred-9" ∧ pv_FamilyID (cc_Provenance c) = "family-1".
Proof.
  exists interrupted_at, retried_at, still_live, found_after.2.
  pose proof interrupted_runs as (? & ? & ?). by split_and!.
Qed.
