(* ===== verification/DeviceAuth.v ===== *)
(** * DeviceAuth: device authorizations, their approval and redemption

    internal/storage/device_authorization.go and
    internal/storage/memory/device_authorization.go, device_authorization_redeem.go.
    A device starts an authorization, a person approves or denies it by its
    user code, and the device redeems the approval for a credential.  Records
    are kept by the hash of the device code, with an index by the hash of the
    user code.  A record is a value that is copied in and out of the map, so
    cloneDeviceAuthorization is the identity here.

    The loops over the map take the order of iteration as an argument. *)

From Stdlib Require Import ZArith Lia Ascii.
From stdpp Require Import sorting pretty numbers gmap strings list_numbers list.
From S2P Require Import Prelude GoStrings Sha256 CredTypes Validation Outbox AuditStore CredentialStore Lifecycle.

Open Scope Z_scope.

(** ** Code hashes *)

(** The [[32]byte] of a hash is held as the string of its bytes. *)
Record DeviceCodeHash := DeviceCode { dc_value : string }.
Record UserCodeHash := UserCode { uc_value : string }.

#[global] Instance DeviceCodeHash_eq_dec : EqDecision DeviceCodeHash.
Proof. solve_decision. Defined.
#[global] Instance UserCodeHash_eq_dec : EqDecision UserCodeHash.
Proof. solve_decision. Defined.
#[global] Instance DeviceCodeHash_countable : Countable DeviceCodeHash.
Proof. by apply (inj_countable' dc_value DeviceCode); intros []. Defined.
#[global] Instance UserCodeHash_countable : Countable UserCodeHash.
Proof. by apply (inj_countable' uc_value UserCode); intros []. Defined.

Definition sha256_Size : nat := 32.
Definition zero_hash : string := of_bytes (replicate sha256_Size 0).

Definition HashDeviceCode (code : string) : DeviceCodeHash :=
  DeviceCode (of_bytes (sha256_Sum256 (bytes_of code))).
Definition HashUserCode (code : string) : UserCodeHash :=
  UserCode (of_bytes (sha256_Sum256 (bytes_of code))).

Definition parseCodeHash (value : string) : res string :=
  match hex_DecodeString (strings_TrimSpace value) with
  | Some decoded => if bool_decide (length decoded = sha256_Size) then Ok (of_bytes decoded)
                    else Err ErrInvalidDeviceAuthorization
  | None => Err ErrInvalidDeviceAuthorization
  end.

Definition ParseDeviceCodeHash (value : string) : res DeviceCodeHash :=
  let? decoded := parseCodeHash value in Ok (DeviceCode decoded).
Definition ParseUserCodeHash (value : string) : res UserCodeHash :=
  let? decoded := parseCodeHash value in Ok (UserCode decoded).

Definition DeviceCodeHash_String (h : DeviceCodeHash) : string := hex_EncodeToString (bytes_of (dc_value h)).
Definition UserCodeHash_String (h : UserCodeHash) : string := hex_EncodeToString (bytes_of (uc_value h)).

Definition DeviceCodeHash_IsZero (h : DeviceCodeHash) : bool := bool_decide (h = DeviceCode zero_hash).
Definition UserCodeHash_IsZero (h : UserCodeHash) : bool := bool_decide (h = UserCode zero_hash).

(** ** States *)

Definition DeviceAuthorizationTTL : duration := 10 * Minute.
Definition DeviceAuthorizationPollInterval : duration := 5 * Second.
Definition DeviceCredentialAckWindow : duration := 120 * Second.

Definition DeviceAuthorizationState_string (s : DeviceAuthorizationState) : string :=
  match s with
  | DevicePending => "pending"
  | DeviceApproved => "approved"
  | DeviceDenied => "denied"
  | DeviceExpired => "expired"
  | DeviceRedeemed => "redeemed"
  end.

Definition ParseDeviceAuthorizationState (value : string) : res DeviceAuthorizationState :=
  if bool_decide (value = "pending") then Ok DevicePending
  else if bool_decide (value = "approved") then Ok DeviceApproved
  else if bool_decide (value = "denied") then Ok DeviceDenied
  else if bool_decide (value = "expired") then Ok DeviceExpired
  else if bool_decide (value = "redeemed") then Ok DeviceRedeemed
  else Err ErrInvalidDeviceAuthorization.

Definition Terminal (s : DeviceAuthorizationState) : bool :=
  match s with
  | DeviceDenied | DeviceExpired | DeviceRedeemed => true
  | DevicePending | DeviceApproved => false
  end.

Definition AuthenticationMethodWebAssertion : string := "web_assertion".

Record DeviceAuthorization := Device {
  da_DeviceCodeHash : DeviceCodeHash;
  da_UserCodeHash : UserCodeHash;
  da_OrganizationIDHint : string;
  da_RepositoryHints : list string;
  da_State : DeviceAuthorizationState;
  da_ExpiresAt : time;
  da_PollInterval : duration;
  da_LastPollAt : option time;
  da_AuthorizedOrgID : string;
  da_AuthorizedRepositoryScopes : list string;
  da_AuthorizedScopes : list string;
  da_ApprovingSubject : string;
  da_ApprovingAuthenticationMethod : string;
  da_ApprovingSessionID : string;
  da_CreatedAt : time;
  da_ApprovedAt : option time;
  da_RedeemedAt : option time;
  da_RedeemedCredentialID : string;
  da_IssuanceProvenance : IssuanceProvenance;
  da_AckRequired : bool;
  da_CredentialAckedAt : option time;
}.

Record DeviceAuthorizationCreateInput := DeviceCreate {
  dci_DeviceCodeHash : DeviceCodeHash;
  dci_UserCodeHash : UserCodeHash;
  dci_OrganizationIDHint : string;
  dci_RepositoryHints : list string;
}.

Record DeviceAuthorizationGrant := Grant {
  dg_OrgID : string;
  dg_RepositoryScopes : list string;
  dg_Scopes : list string;
  dg_ApprovingSubject : string;
  dg_ApprovingAuthenticationMethod : string;
  dg_ApprovingSessionID : string;
}.

Definition set_state (s : DeviceAuthorizationState) (r : DeviceAuthorization) : DeviceAuthorization :=
  Device (da_DeviceCodeHash r) (da_UserCodeHash r) (da_OrganizationIDHint r) (da_RepositoryHints r) s
    (da_ExpiresAt r) (da_PollInterval r) (da_LastPollAt r) (da_AuthorizedOrgID r)
    (da_AuthorizedRepositoryScopes r) (da_AuthorizedScopes r) (da_ApprovingSubject r)
    (da_ApprovingAuthenticationMethod r) (da_ApprovingSessionID r) (da_CreatedAt r) (da_ApprovedAt r)
    (da_RedeemedAt r) (da_RedeemedCredentialID r) (da_IssuanceProvenance r) (da_AckRequired r)
    (da_CredentialAckedAt r).

Definition set_polled (now : time) (r : DeviceAuthorization) : DeviceAuthorization :=
  Device (da_DeviceCodeHash r) (da_UserCodeHash r) (da_OrganizationIDHint r) (da_RepositoryHints r)
    (da_State r) (da_ExpiresAt r) (da_PollInterval r) (Some now) (da_AuthorizedOrgID r)
    (da_AuthorizedRepositoryScopes r) (da_AuthorizedScopes r) (da_ApprovingSubject r)
    (da_ApprovingAuthenticationMethod r) (da_ApprovingSessionID r) (da_CreatedAt r) (da_ApprovedAt r)
    (da_RedeemedAt r) (da_RedeemedCredentialID r) (da_IssuanceProvenance r) (da_AckRequired r)
    (da_CredentialAckedAt r).

Definition set_approved (grant : DeviceAuthorizationGrant) (now : time) (r : DeviceAuthorization)
    : DeviceAuthorization :=
  Device (da_DeviceCodeHash r) (da_UserCodeHash r) (da_OrganizationIDHint r) (da_RepositoryHints r)
    DeviceApproved (da_ExpiresAt r) (da_PollInterval r) (da_LastPollAt r) (dg_OrgID grant)
    (dg_RepositoryScopes grant) (dg_Scopes grant) (dg_ApprovingSubject grant)
    (dg_ApprovingAuthenticationMethod grant) (dg_ApprovingSessionID grant) (da_CreatedAt r) (Some now)
    (da_RedeemedAt r) (da_RedeemedCredentialID r) (da_IssuanceProvenance r) (da_AckRequired r)
    (da_CredentialAckedAt r).

Definition set_redeemed (now : time) (credentialID : string) (ackable : bool) (r : DeviceAuthorization)
    : DeviceAuthorization :=
  Device (da_DeviceCodeHash r) (da_UserCodeHash r) (da_OrganizationIDHint r) (da_RepositoryHints r)
    DeviceRedeemed (da_ExpiresAt r) (da_PollInterval r) (da_LastPollAt r) (da_AuthorizedOrgID r)
    (da_AuthorizedRepositoryScopes r) (da_AuthorizedScopes r) (da_ApprovingSubject r)
    (da_ApprovingAuthenticationMethod r) (da_ApprovingSessionID r) (da_CreatedAt r) (da_ApprovedAt r)
    (Some now) credentialID (da_IssuanceProvenance r) ackable None.

Definition set_acked (now : time) (r : DeviceAuthorization) : DeviceAuthorization :=
  Device (da_DeviceCodeHash r) (da_UserCodeHash r) (da_OrganizationIDHint r) (da_RepositoryHints r)
    (da_State r) (da_ExpiresAt r) (da_PollInterval r) (da_LastPollAt r) (da_AuthorizedOrgID r)
    (da_AuthorizedRepositoryScopes r) (da_AuthorizedScopes r) (da_ApprovingSubject r)
    (da_ApprovingAuthenticationMethod r) (da_ApprovingSessionID r) (da_CreatedAt r) (da_ApprovedAt r)
    (da_RedeemedAt r) (da_RedeemedCredentialID r) (da_IssuanceProvenance r) (da_AckRequired r)
    (Some now).

Definition CredentialUnacknowledged (r : DeviceAuthorization) : bool :=
  bool_decide (da_State r = DeviceRedeemed) && da_AckRequired r &&
  bool_decide (da_CredentialAckedAt r = None) && negb (bool_decide (da_RedeemedCredentialID r = "")).

Definition AckWindowOpen (r : DeviceAuthorization) (now : time) : bool :=
  CredentialUnacknowledged r &&
  match da_RedeemedAt r with
  | None => false
  | Some at_ => time_Before now (time_Add at_ DeviceCredentialAckWindow)
  end.

(** ** Errors *)

Definition NewDeviceAuthorizationConflict (state : DeviceAuthorizationState)
    (reason : DeviceAuthorizationConflictReason) : gerr :=
  ErrDeviceAuthorization DeviceErrorConflict state 0 reason.

Definition RedeemedConflictReason (r : DeviceAuthorization) : DeviceAuthorizationConflictReason :=
  if negb (da_AckRequired r) then DeviceConflictNotAckable
  else if bool_decide (is_Some (da_CredentialAckedAt r)) then DeviceConflictAcknowledged
  else DeviceConflictAckWindowElapsed.

Definition NewDeviceAuthorizationError (kind : DeviceAuthorizationErrorKind)
    (state : DeviceAuthorizationState) (retryAfter : duration) : gerr :=
  ErrDeviceAuthorization kind state (if bool_decide (retryAfter < 0) then 0 else retryAfter)
    DeviceConflictNone.

(** ** Validation *)

Definition ValidateDeviceAuthorizationGrant (grant : DeviceAuthorizationGrant) : res () :=
  reject! isEmpty (strings_TrimSpace (dg_OrgID grant)) ||
          isEmpty (strings_TrimSpace (dg_ApprovingSubject grant)) with ErrInvalidDeviceAuthorization ;;
  reject! negb (bool_decide (dg_ApprovingAuthenticationMethod grant = AuthenticationMethodWebAssertion)) ||
          bool_decide (dg_RepositoryScopes grant = []) || bool_decide (dg_Scopes grant = [])
    with ErrInvalidDeviceAuthorization ;;
  reject! bool_decide (256 < slen (dg_ApprovingSessionID grant)) ||
          negb (bool_decide (dg_ApprovingSessionID grant = strings_TrimSpace (dg_ApprovingSessionID grant)))
    with ErrInvalidDeviceAuthorization ;;
  reject! slices_Contains (dg_RepositoryScopes grant) "*" &&
          negb (bool_decide (dg_RepositoryScopes grant = ["*"])) with ErrInvalidDeviceAuthorization ;;
  reject! existsb (λ r, strings_HasSuffix r "/*" || isEmpty (strings_TrimSpace r))
            (dg_RepositoryScopes grant) with ErrInvalidDeviceAuthorization ;;
  reject! existsb (λ s, negb (bool_decide (s = "context:read")) && negb (bool_decide (s = "evidence:read"))
                        && negb (bool_decide (s = "data:read"))) (dg_Scopes grant)
    with ErrInvalidDeviceAuthorization ;;
  Ok ().

(** The loop of [ValidateDeviceAuthorizationHints]. *)
Fixpoint hints_ok (seen : list string) (l : list string) : bool :=
  match l with
  | [] => true
  | r :: rest =>
    if negb (bool_decide (strings_TrimSpace r = r)) || isEmpty r ||
       bool_decide (512 < utf8_RuneCountInString r) || existsb (λ c, c =? 42) (runes r) then false
    else if slices_Contains seen r then false
    else hints_ok (r :: seen) rest
  end.

Definition ValidateDeviceAuthorizationHints (hints : DeviceAuthorizationCreateInput) : res () :=
  reject! negb (bool_decide (strings_TrimSpace (dci_OrganizationIDHint hints) = dci_OrganizationIDHint hints))
          || bool_decide (128 < utf8_RuneCountInString (dci_OrganizationIDHint hints))
          || bool_decide (100 < length (dci_RepositoryHints hints))%nat
    with ErrInvalidDeviceAuthorization ;;
  if hints_ok [] (dci_RepositoryHints hints) then Ok () else Err ErrInvalidDeviceAuthorization.

Definition scopesWithin (requested approved : list string) : bool :=
  negb (bool_decide (requested = [])) && forallb (slices_Contains approved) requested.

Definition DeviceAuthorizationCredentialMatches (record : DeviceAuthorization) (input : CreateInput) : bool :=
  bool_decide (ci_OrgID input = da_AuthorizedOrgID record) &&
  bool_decide (ci_ActorID input = da_ApprovingSubject record) &&
  bool_decide (ci_RepositoryScopes input = da_AuthorizedRepositoryScopes record) &&
  scopesWithin (ci_Scopes input) (da_AuthorizedScopes record).

(** ** The store *)

Definition deviceAckRevokeActor : string := "device-credential-ack".

Definition with_issuance (user session : string) (i : CreateInput) : CreateInput :=
  Create (ci_CredentialID i) (ci_OrgID i) (ci_Name i) (ci_TokenPrefix i) (ci_TokenHash i)
    (ci_RepositoryScopes i) (ci_Scopes i) (ci_ActorID i) (ci_ExpiresAt i)
    IssuanceProvenanceDeviceAuthorization (ci_WorkloadBindingID i) (ci_Resource i) (ci_ClientID i)
    user (ci_ClientClass i) session (ci_FamilyID i) (ci_FamilyExpiresAt i).

Section store.
Context `{UnicodeTables} {S : Type} `{Backend S}.

Record DeviceAuthorizationStore := DeviceStore {
  ds_credentials : S;
  ds_byDevice : gmap DeviceCodeHash DeviceAuthorization;
  ds_byUser : gmap UserCodeHash DeviceCodeHash;
}.
Abbreviation T := DeviceAuthorizationStore.

Definition ds_set_credentials (c : S) (s : T) : T := DeviceStore c (ds_byDevice s) (ds_byUser s).

Definition on_creds {A} : go S A → go T A := zoom ds_credentials ds_set_credentials.

(** [s.byDevice[hash] = record] *)
Definition store_record (hash : DeviceCodeHash) (record : DeviceAuthorization) : go T () :=
  modify (λ s, DeviceStore (ds_credentials s) (<[hash := record]> (ds_byDevice s)) (ds_byUser s)).

Definition ready : go T () := ctx_check.

Definition Create_ (input : DeviceAuthorizationCreateInput) : go T DeviceAuthorization :=
  ready ;;
  refuse! DeviceCodeHash_IsZero (dci_DeviceCodeHash input) || UserCodeHash_IsZero (dci_UserCodeHash input)
          || match ValidateDeviceAuthorizationHints input with Ok _ => false | _ => true end
    with ErrInvalidDeviceAuthorization ;;
  ctx_check ;;
  let! s := get in
  refuse! bool_decide (is_Some (ds_byDevice s !! dci_DeviceCodeHash input))
    with NewDeviceAuthorizationError DeviceErrorConflict DevicePending 0 ;;
  refuse! bool_decide (is_Some (ds_byUser s !! dci_UserCodeHash input))
    with NewDeviceAuthorizationError DeviceErrorConflict DevicePending 0 ;;
  let! now := now in
  let record := Device (dci_DeviceCodeHash input) (dci_UserCodeHash input) (dci_OrganizationIDHint input)
    (dci_RepositoryHints input) DevicePending (time_Add now DeviceAuthorizationTTL)
    DeviceAuthorizationPollInterval None "" [] [] "" "" "" now None None ""
    IssuanceProvenanceDeviceAuthorization false None in
  put (DeviceStore (ds_credentials s) (<[dci_DeviceCodeHash input := record]> (ds_byDevice s))
         (<[dci_UserCodeHash input := dci_DeviceCodeHash input]> (ds_byUser s))) ;;
  ret record.

Definition deviceLocked (hash : DeviceCodeHash) : go T DeviceAuthorization :=
  let! s := get in
  match ds_byDevice s !! hash with
  | None => fail ErrDeviceAuthorizationNotFound
  | Some record =>
    let! now := now in
    let expired := fail (NewDeviceAuthorizationError DeviceErrorExpired DeviceExpired 0) in
    if negb (time_Before now (da_ExpiresAt record)) then
      match da_State record with
      | DevicePending | DeviceApproved =>
        store_record hash (set_state DeviceExpired record) ;; expired
      | DeviceExpired => expired
      | DeviceDenied | DeviceRedeemed => ret record
      end
    else if bool_decide (da_State record = DeviceExpired) then expired
    else ret record
  end.

Definition GetByDeviceCodeHash (hash : DeviceCodeHash) : go T DeviceAuthorization :=
  ready ;; deviceLocked hash.

(** [deviceHash, exists := s.byUser[hash]; if !exists { return ErrDeviceAuthorizationNotFound }] *)
Definition user_device (hash : UserCodeHash) : go T DeviceCodeHash :=
  let! s := get in
  match ds_byUser s !! hash with
  | None => fail ErrDeviceAuthorizationNotFound
  | Some deviceHash => ret deviceHash
  end.

Definition GetByUserCodeHash (hash : UserCodeHash) : go T DeviceAuthorization :=
  ready ;;
  let! deviceHash := user_device hash in
  deviceLocked deviceHash.

Definition Preview (hash : UserCodeHash) : go T DeviceAuthorization :=
  ready ;;
  let! deviceHash := user_device hash in
  let! s := get in
  match ds_byDevice s !! deviceHash with
  | None => fail ErrDeviceAuthorizationNotFound
  | Some record =>
    let! now := now in
    refuse! negb (time_Before now (da_ExpiresAt record)) &&
            (bool_decide (da_State record = DevicePending) || bool_decide (da_State record = DeviceApproved)
             || bool_decide (da_State record = DeviceExpired))
      with NewDeviceAuthorizationError DeviceErrorExpired DeviceExpired 0 ;;
    ret record
  end.

Definition Poll (hash : DeviceCodeHash) : go T DeviceAuthorization :=
  ready ;;
  let! record := deviceLocked hash in
  if Terminal (da_State record) then ret record
  else
    let! now := now in
    let polled := set_polled now record in
    match da_LastPollAt record with
    | Some last =>
      let next := time_Add last (da_PollInterval record) in
      refuse! time_Before now next
        with NewDeviceAuthorizationError DeviceErrorPollTooSoon (da_State record) (time_Sub next now) ;;
      store_record hash polled ;; ret polled
    | None => store_record hash polled ;; ret polled
    end.

Definition Approve (hash : UserCodeHash) (grant : DeviceAuthorizationGrant) : go T DeviceAuthorization :=
  ready ;;
  lift_res (ValidateDeviceAuthorizationGrant grant) ;;
  let! deviceHash := user_device hash in
  let! record := deviceLocked deviceHash in
  refuse! negb (bool_decide (da_State record = DevicePending))
    with NewDeviceAuthorizationError DeviceErrorConflict (da_State record) 0 ;;
  let! now := now in
  let approved := set_approved grant now record in
  store_record deviceHash approved ;;
  ret approved.

Definition Deny (hash : UserCodeHash) : go T DeviceAuthorization :=
  ready ;;
  let! deviceHash := user_device hash in
  let! record := deviceLocked deviceHash in
  refuse! negb (bool_decide (da_State record = DevicePending))
    with NewDeviceAuthorizationError DeviceErrorConflict (da_State record) 0 ;;
  let denied := set_state DeviceDenied record in
  store_record deviceHash denied ;;
  ret denied.

Definition revokeUnackedLocked (record : DeviceAuthorization) : go T () :=
  let! _ := on_creds (Lifecycle.RevokeCredential
    (Revocation (da_AuthorizedOrgID record) (da_RedeemedCredentialID record) deviceAckRevokeActor "system"
       "device credential not acknowledged" false)) in
  ret ().

(** The switch of [redeem]: the id of the credential being replaced, [""] for
    a first redemption. *)
Definition redeem_replacing (record : DeviceAuthorization) (now : time) (ackable : bool) : go T string :=
  if bool_decide (da_State record = DeviceApproved) then ret ""
  else if ackable && bool_decide (da_State record = DeviceRedeemed) && CredentialUnacknowledged record then
    refuse! negb (AckWindowOpen record now)
      with NewDeviceAuthorizationConflict (da_State record) DeviceConflictAckWindowElapsed ;;
    let! old := on_creds (Lifecycle.GetByID (da_AuthorizedOrgID record) (da_RedeemedCredentialID record)) in
    refuse! bool_decide (is_Some (cc_RevokedAt old))
      with NewDeviceAuthorizationConflict (da_State record) DeviceConflictAckWindowElapsed ;;
    ret (da_RedeemedCredentialID record)
  else if bool_decide (da_State record = DeviceRedeemed) then
    fail (NewDeviceAuthorizationConflict (da_State record) (RedeemedConflictReason record))
  else fail (NewDeviceAuthorizationError DeviceErrorConflict (da_State record) 0).

(** The checks of the request against the record, and the request with what
    only the record may say. *)
Definition redeem_input (record : DeviceAuthorization) (input : CreateInput) : res CreateInput :=
  reject! negb (DeviceAuthorizationCredentialMatches record input) with ErrInvalidDeviceAuthorization ;;
  reject! negb (isEmpty (ci_ApprovingUserID input)) &&
          negb (bool_decide (ci_ApprovingUserID input = da_ApprovingSubject record))
    with ErrInvalidDeviceAuthorization ;;
  if bool_decide (ci_ClientClass input = ClientClassBrowser) then
    reject! isEmpty (da_ApprovingSessionID record) ||
            (negb (isEmpty (ci_SessionID input)) &&
             negb (bool_decide (ci_SessionID input = da_ApprovingSessionID record)))
      with ErrInvalidDeviceAuthorization ;;
    Ok (with_issuance (da_ApprovingSubject record) (da_ApprovingSessionID record) input)
  else Ok (with_issuance (da_ApprovingSubject record) (ci_SessionID input) input).

Definition redeem (hash : DeviceCodeHash) (input : CreateInput) (ackable : bool) : go T ClientCredential :=
  ready ;;
  let! record := deviceLocked hash in
  let! now := now in
  let! replacing := redeem_replacing record now ackable in
  let! issued := lift_res (redeem_input record input) in
  let! credential := on_creds (Lifecycle.CreateCredential issued) in
  (if isEmpty replacing then ret ()
   else
     let! r := attempt (revokeUnackedLocked record) in
     match r with
     | inr _ => ret ()
     | inl revokeErr =>
       let! _ := attempt (on_creds (Lifecycle.RevokeCredential
         (Revocation (da_AuthorizedOrgID record) (cc_CredentialID credential) deviceAckRevokeActor "system"
            "device credential replacement abandoned" false))) in
       if bool_decide (revokeErr = ErrConflict)
       then fail (NewDeviceAuthorizationConflict (da_State record) DeviceConflictAckWindowElapsed)
       else fail revokeErr
     end) ;;
  store_record hash (set_redeemed now (cc_CredentialID credential) ackable record) ;;
  ret credential.

Definition Redeem (hash : DeviceCodeHash) (input : CreateInput) : go T ClientCredential :=
  redeem hash input false.
Definition RedeemAckable (hash : DeviceCodeHash) (input : CreateInput) : go T ClientCredential :=
  redeem hash input true.

(** The loop of [AcknowledgeCredential]; [None] when no record answers. *)
Fixpoint ack_loop (orgID credentialID : string) (order : list DeviceCodeHash) : go T (option time) :=
  match order with
  | [] => ret None
  | hash :: rest =>
    let! s := get in
    match ds_byDevice s !! hash with
    | None => ack_loop orgID credentialID rest
    | Some record =>
      if negb (bool_decide (da_RedeemedCredentialID record = credentialID)) ||
         negb (bool_decide (da_AuthorizedOrgID record = orgID)) || negb (da_AckRequired record)
      then ack_loop orgID credentialID rest
      else
        match da_CredentialAckedAt record with
        | Some t => ret (Some t)
        | None =>
          let! now := now in
          let conflict :=
            fail (NewDeviceAuthorizationConflict DeviceRedeemed DeviceConflictAckWindowElapsed) in
          if match da_RedeemedAt record with
             | None => true
             | Some at_ => negb (time_Before now (time_Add at_ DeviceCredentialAckWindow))
             end
          then conflict
          else
            let! r := attempt (on_creds (Lifecycle.GetByID orgID credentialID)) in
            match r with
            | inl _ => conflict
            | inr credential =>
              if bool_decide (is_Some (cc_RevokedAt credential)) then conflict
              else store_record hash (set_acked now record) ;; ret (Some now)
            end
        end
    end
  end.

Definition AcknowledgeCredential (order : list DeviceCodeHash) (orgID credentialID : string) : go T time :=
  ready ;;
  let! found := ack_loop orgID credentialID order in
  match found with
  | Some t => ret t
  | None =>
    let! r := attempt (on_creds (Lifecycle.GetByID orgID credentialID)) in
    match r with
    | inr credential =>
      if bool_decide (is_Some (cc_RevokedAt credential))
      then fail (NewDeviceAuthorizationConflict DeviceRedeemed DeviceConflictAckWindowElapsed)
      else fail ErrDeviceAuthorizationNotFound
    | inl _ => fail ErrDeviceAuthorizationNotFound
    end
  end.

(** The loop of [RevokeUnacknowledged].  Go returns the count beside the error,
    so both are the result. *)
Fixpoint revoke_loop (limit : Z) (now : time) (revoked : Z) (order : list DeviceCodeHash)
    : go T (Z * option gerr) :=
  match order with
  | [] => ret (revoked, None)
  | hash :: rest =>
    let! s := get in
    match ds_byDevice s !! hash with
    | None => revoke_loop limit now revoked rest
    | Some record =>
      if bool_decide (limit <= revoked) then ret (revoked, None)
      else if negb (CredentialUnacknowledged record) ||
        match da_RedeemedAt record with
        | None => true
        | Some at_ => time_Before now (time_Add at_ DeviceCredentialAckWindow)
        end
      then revoke_loop limit now revoked rest
      else
        let! r := attempt (on_creds (Lifecycle.GetByID (da_AuthorizedOrgID record)
                                       (da_RedeemedCredentialID record))) in
        match r with
        | inl e => ret (revoked, Some e)
        | inr credential =>
          if bool_decide (is_Some (cc_RevokedAt credential)) then revoke_loop limit now revoked rest
          else
            let! r := attempt (revokeUnackedLocked record) in
            match r with
            | inl e => if bool_decide (e = ErrConflict) then revoke_loop limit now revoked rest
                       else ret (revoked, Some e)
            | inr _ => revoke_loop limit now (revoked + 1) rest
            end
        end
    end
  end.

Definition RevokeUnacknowledged (order : list DeviceCodeHash) (limit : Z) : go T (Z * option gerr) :=
  let! r := attempt ready in
  match r with
  | inl e => ret (0, Some e)
  | inr _ =>
    if bool_decide (limit <= 0) then ret (0, Some ErrInvalidDeviceAuthorization)
    else
      let! now := now in
      revoke_loop limit now 0 order
  end.
End store.
Arguments DeviceAuthorizationStore : clear implicits.
