(* ===== verification/DeviceTheorems.v ===== *)
(** * DeviceTheorems: the guarantees of device authorizations

    Proved against [BackendLaws]: the two indexes describe the same records,
    a record only moves along the state machine (and is frozen once denied,
    expired, acknowledged or redeemed for good), a redemption issues exactly
    what the person approved, and polls of one device keep their distance. *)

From Stdlib Require Import ZArith Lia Ascii.
From stdpp Require Import sorting pretty numbers gmap strings list_numbers list.
From S2P Require Import Prelude GoStrings Sha256 CredTypes Validation Outbox AuditStore CredentialStore CredentialStoreProofs CredentialTheorems Lifecycle DeviceAuth.

Open Scope Z_scope.

(** ** The hash text *)

Lemma hex_plain l :
  Forall (λ b, 0 ≤ b < 256) l → strings_TrimSpace (hex_EncodeToString l) = hex_EncodeToString l.
Proof.
  intros Hl. apply plain_TrimSpace, all_chars_Forall. unfold hex_EncodeToString. rewrite chars_of_chars.
  eapply Forall_impl; [by apply hex_chars|]. intros c Hc.
  unfold hex_char, is_digit, between, plain in *. lia.
Qed.

(** A value of the Go type [[32]byte]. *)
Definition digest (h : string) : Prop := String.length h = sha256_Size.

Lemma parseCodeHash_encode h : digest h → parseCodeHash (hex_EncodeToString (bytes_of h)) = Ok h.
Proof.
  intros Hlen. pose proof (bytes_of_range h) as Hr. unfold parseCodeHash, hex_DecodeString.
  rewrite hex_plain by done. unfold hex_EncodeToString.
  rewrite chars_of_chars, hex_decode_encode by done.
  rewrite bool_decide_true; [by rewrite of_bytes_bytes_of|].
  unfold bytes_of. by rewrite length_fmap, length_chars.
Qed.

Lemma digest_Sum256 l : digest (of_bytes (sha256_Sum256 l)).
Proof.
  unfold digest. apply (inj Z.of_nat). change (slen (of_bytes (sha256_Sum256 l)) = 32).
  by rewrite slen_of_bytes, Sum256_length.
Qed.

(** Printing a code hash and parsing it back gives the same hash, for
    device codes and user codes; every hash computed from a code is such a
    value, so a stored hash text always reads back. *)
Theorem code_hash_round_trip (h : string) :
  digest h →
  ParseDeviceCodeHash (DeviceCodeHash_String (DeviceCode h)) = Ok (DeviceCode h) ∧
  ParseUserCodeHash (UserCodeHash_String (UserCode h)) = Ok (UserCode h) ∧
  ∀ code, ParseDeviceCodeHash (DeviceCodeHash_String (HashDeviceCode code)) = Ok (HashDeviceCode code).
Proof.
  intros Hl. unfold ParseDeviceCodeHash, ParseUserCodeHash, DeviceCodeHash_String, UserCodeHash_String.
  cbn [dc_value uc_value]. rewrite parseCodeHash_encode by done. split_and!; [done..|]. intros code.
  cbn [HashDeviceCode dc_value]. by rewrite parseCodeHash_encode by apply digest_Sum256.
Qed.

(** ** Records over time *)

Definition grant_of (r : DeviceAuthorization) : DeviceAuthorizationGrant :=
  Grant (da_AuthorizedOrgID r) (da_AuthorizedRepositoryScopes r) (da_AuthorizedScopes r)
    (da_ApprovingSubject r) (da_ApprovingAuthenticationMethod r) (da_ApprovingSessionID r).

(** The state machine, closed under several steps. *)
Definition can_become (a b : DeviceAuthorizationState) : bool :=
  match a, b with
  | DevicePending, _ => true
  | DeviceApproved, (DeviceApproved | DeviceRedeemed | DeviceExpired) => true
  | DeviceRedeemed, DeviceRedeemed => true
  | DeviceDenied, DeviceDenied => true
  | DeviceExpired, DeviceExpired => true
  | _, _ => false
  end.

(** Denied, expired, acknowledged, or redeemed without acknowledgement. *)
Definition frozen (r : DeviceAuthorization) : bool :=
  match da_State r with
  | DeviceDenied | DeviceExpired => true
  | DeviceRedeemed => negb (da_AckRequired r) || bool_decide (is_Some (da_CredentialAckedAt r))
  | _ => false
  end.

Definition polled_before (a b : option time) : Prop :=
  match a, b with
  | None, _ => True
  | Some x, Some y => x ≤ y
  | Some _, None => False
  end.

Record moves (r r' : DeviceAuthorization) : Prop := {
  mv_device : da_DeviceCodeHash r' = da_DeviceCodeHash r;
  mv_user : da_UserCodeHash r' = da_UserCodeHash r;
  mv_expires : da_ExpiresAt r' = da_ExpiresAt r;
  mv_interval : da_PollInterval r' = da_PollInterval r;
  mv_state : can_become (da_State r) (da_State r') = true;
  mv_grant : da_State r ≠ DevicePending → grant_of r' = grant_of r;
  mv_polled : polled_before (da_LastPollAt r) (da_LastPollAt r');
  mv_frozen : frozen r = true → r' = r;
}.

#[global] Instance moves_preorder : PreOrder moves.
Proof.
  split.
  - intros r. split; try done; [by destruct (da_State r)|].
    unfold polled_before. by destruct (da_LastPollAt r).
  - intros a b c [] []. split; try congruence.
    + by destruct (da_State a), (da_State b), (da_State c).
    + intros Ha. assert (da_State b ≠ DevicePending); [|rewrite mv_grant1 by done; auto].
      by destruct (da_State a), (da_State b).
    + unfold polled_before in *. repeat case_match; try done. unfold time in *. lia.
    + intros Hf. assert (b = a) as -> by auto. auto.
Qed.

(** What every stored record satisfies. *)
Record record_ok (r : DeviceAuthorization) : Prop := {
  ro_interval : da_PollInterval r = DeviceAuthorizationPollInterval;
  ro_ack : da_AckRequired r = true → da_State r = DeviceRedeemed;
  ro_acked : is_Some (da_CredentialAckedAt r) → da_AckRequired r = true;
  ro_redeemed : da_State r = DeviceRedeemed → is_Some (da_RedeemedAt r);
  ro_grant : da_State r = DeviceApproved ∨ da_State r = DeviceRedeemed →
    ValidateDeviceAuthorizationGrant (grant_of r) = Ok ();
}.

Section theorems.
Context `{UnicodeTables} {S : Type} `{BackendLaws S}.
Abbreviation T := (DeviceAuthorizationStore S).

Definition ds_creds (s : T) : gmap string ClientCredential := be_view (ds_credentials s).

(** The two indexes describe the same set of consistent records. *)
Record device_ok (s : T) : Prop := {
  dk_cred : be_ok (ds_credentials s);
  dk_user : ∀ u d, ds_byUser s !! u = Some d → ∃ r, ds_byDevice s !! d = Some r ∧ da_UserCodeHash r = u;
  dk_device : ∀ d r, ds_byDevice s !! d = Some r →
    da_DeviceCodeHash r = d ∧ ds_byUser s !! da_UserCodeHash r = Some d;
  dk_record : ∀ d r, ds_byDevice s !! d = Some r → record_ok r;
}.

Record store_moves (s s' : T) : Prop := {
  sm_records : ∀ d r, ds_byDevice s !! d = Some r → ∃ r', ds_byDevice s' !! d = Some r' ∧ moves r r';
  sm_creds : grows_to (ds_creds s) (ds_creds s');
}.

(** The postcondition shared by every operation. *)
Definition kept {A} (w : env * T) (r : res A) (w' : env * T) : Prop :=
  device_ok w'.2 ∧ store_moves w.2 w'.2 ∧ r ≠ Panic.

Lemma store_moves_refl s : store_moves s s.
Proof. split; [intros d r Hr; by exists r|apply grows_to_refl]. Qed.

Lemma store_moves_trans s1 s2 s3 : store_moves s1 s2 → store_moves s2 s3 → store_moves s1 s3.
Proof.
  intros [Ha Hb] [Hc Hd]. split; [|by eapply grows_to_trans]. intros d r Hr.
  destruct (Ha _ _ Hr) as (r1 & Hr1 & ?). destruct (Hc _ _ Hr1) as (r2 & Hr2 & ?).
  exists r2. split; [done|by etrans].
Qed.

Lemma kept_same {A} (w w' : env * T) (r : res A) :
  device_ok w.2 → w'.2 = w.2 → r ≠ Panic → kept w r w'.
Proof. intros Hok E Hr. unfold kept. rewrite E. split_and!; [done|apply store_moves_refl|done]. Qed.

Lemma kept_after {A B C} (w w1 w' : env * T) (r1 : res A) (r2 : res B) (r : res C) :
  kept w r1 w1 → kept w1 r2 w' → r ≠ Panic → kept w r w'.
Proof. intros (? & ? & ?) (? & ? & ?) ?. split_and!; [done|by eapply store_moves_trans|done]. Qed.

(** Writing a record back that moved forward. *)
Lemma store_record_kept hash old record (w : env * T) r w' :
  store_record hash record w = (r, w') → device_ok w.2 → ds_byDevice w.2 !! hash = Some old →
  moves old record → record_ok record →
  kept w r w' ∧ ds_byDevice w'.2 !! hash = Some record ∧ ds_credentials w'.2 = ds_credentials w.2.
Proof.
  intros [= <- <-] [Hc Hu Hd Hr] Hold Hm Hro. cbn. rewrite lookup_insert_eq.
  split_and!; try done. split_and!; [|split; [|apply grows_to_refl]|done].
  - split; cbn; [done| | |].
    + intros u d Hud. destruct (Hu _ _ Hud) as (x & Hx & Hxu). destruct (decide (d = hash)) as [->|].
      * exists record. rewrite lookup_insert_eq. split; [done|]. rewrite (mv_user _ _ Hm). congruence.
      * exists x. by rewrite lookup_insert_ne.
    + intros d x [[<- <-]|[_ Hx]]%lookup_insert_Some; [|by apply Hd].
      rewrite (mv_device _ _ Hm), (mv_user _ _ Hm). by apply Hd.
    + intros d x [[<- <-]|[_ Hx]]%lookup_insert_Some; [done|by eapply Hr].
  - intros d x Hx. cbn. destruct (decide (d = hash)) as [->|].
    + exists record. rewrite lookup_insert_eq. split; [done|]. by simplify_eq.
    + exists x. rewrite lookup_insert_ne by done. split; [done|reflexivity].
Qed.

(** A change of the credential store alone. *)
Lemma creds_kept {A} (w : env * T) (r : res A) e c :
  device_ok w.2 → be_ok c → grows_to (ds_creds w.2) (be_view c) → r ≠ Panic →
  kept w r (e, ds_set_credentials c w.2).
Proof.
  intros [Hc Hu Hd Hr] Hok Hg Hp. split_and!; [by split| |done].
  split; [|done]. intros d x Hx. exists x. split; [done|reflexivity].
Qed.

(** ** Each operation keeps the invariant *)

Lemma moves_expire r :
  da_State r = DevicePending ∨ da_State r = DeviceApproved → moves r (set_state DeviceExpired r).
Proof.
  intros Hs. split; try done; cbn.
  - by destruct Hs as [-> | ->].
  - unfold polled_before. by destruct (da_LastPollAt r).
  - unfold frozen. by destruct Hs as [-> | ->].
Qed.

Lemma record_ok_expire r :
  record_ok r → da_State r = DevicePending ∨ da_State r = DeviceApproved →
  record_ok (set_state DeviceExpired r).
Proof.
  intros [? Hack ? ? ?] Hs. split; cbn; try done.
  - intros Hx%Hack. by destruct Hs; congruence.
  - by intros [].
Qed.

(** A record that is returned is current: not expired. *)
Definition current (t : time) (record : DeviceAuthorization) : Prop :=
  da_State record ≠ DeviceExpired ∧
  (t < da_ExpiresAt record ∨ da_State record = DeviceDenied ∨ da_State record = DeviceRedeemed).

Definition locked_post (h : DeviceCodeHash) (w : env * T) (r : res DeviceAuthorization) (w' : env * T)
    : Prop :=
  kept w r w' ∧ ds_credentials w'.2 = ds_credentials w.2 ∧
  ∀ record, r = Ok record →
    w'.2 = w.2 ∧ ds_byDevice w.2 !! h = Some record ∧ current (clock w.1) record.

Lemma locked_ret h (w w' : env * T) record :
  device_ok w.2 → w'.2 = w.2 → ds_byDevice w.2 !! h = Some record → current (clock w.1) record →
  locked_post h w (Ok record) w'.
Proof.
  intros Hok E ? ?. split; [by apply kept_same|]. split; [by rewrite E|]. by intros ? [= <-].
Qed.

Lemma locked_err h (w w' : env * T) e : device_ok w.2 → w'.2 = w.2 → locked_post h w (Err e) w'.
Proof. intros Hok E. split; [by apply kept_same|]. by rewrite E. Qed.

Lemma locked_expire h (w w' : env * T) e0 e r record :
  (store_record h (set_state DeviceExpired record) ;; fail e) (e0, w.2) = (r, w') →
  device_ok w.2 → ds_byDevice w.2 !! h = Some record →
  da_State record = DevicePending ∨ da_State record = DeviceApproved → locked_post h w r w'.
Proof.
  intros Hx Hok Hrec Hs.
  apply bind_res_inv in Hx as [(u & w1 & E1 & [= <- <-])|[(e1 & -> & [=])|[-> [=]]]].
  edestruct (store_record_kept h record) as (Hk & _ & Hcr); [exact E1|done|done|by apply moves_expire| |].
  { apply record_ok_expire; [|done]. by eapply dk_record. }
  destruct Hk as (? & ? & _). split; [by split_and!|done].
Qed.

Lemma deviceLocked_spec h (w : env * T) r w' :
  deviceLocked h w = (r, w') → device_ok w.2 → locked_post h w r w'.
Proof.
  unfold deviceLocked. rewrite bind_get. intros Hrun Hok.
  destruct (ds_byDevice w.2 !! h) as [record|] eqn:Hrec; [|by injection Hrun as <- <-; apply locked_err].
  apply bind_now_at in Hrun as [e Hrun].
  destruct (time_Before (clock w.1) (da_ExpiresAt record)) eqn:Hb; cbn [negb] in Hrun.
  { apply bool_decide_eq_true in Hb.
    case_bool_decide; injection Hrun as <- <-; [by apply locked_err|]. apply locked_ret; try done.
    split; auto. }
  destruct (da_State record) eqn:Hst; try (eapply locked_expire; eauto; fail);
    injection Hrun as <- <-; [|by apply locked_err|].
  all: apply locked_ret; try done; unfold current; rewrite Hst; auto.
Qed.

(** The operations that first look a record up and then write it back once. *)
Lemma kept_ready {A} (k : () → go T A) (w : env * T) r w' :
  bind ready k w = (r, w') → device_ok w.2 →
  (∀ e, k () (e, w.2) = (r, w') → kept (e, w.2) r w') → kept w r w'.
Proof.
  intros Hrun Hok Hk. apply bind_ctx in Hrun as [(e & -> & Hw)|(e & Hrun)]; [by apply kept_same|].
  by apply Hk in Hrun.
Qed.

Lemma kept_user {A} u (k : DeviceCodeHash → go T A) (w : env * T) r w' :
  bind (user_device u) k w = (r, w') → device_ok w.2 →
  (∀ d, ds_byUser w.2 !! u = Some d → k d w = (r, w') → kept w r w') → kept w r w'.
Proof.
  unfold user_device. intros Hrun Hok Hk. unfold bind at 1 in Hrun. rewrite bind_get in Hrun.
  destruct (ds_byUser w.2 !! u) as [d|] eqn:Hd; [by eapply Hk|].
  injection Hrun as <- <-. by apply kept_same.
Qed.

Lemma kept_locked {A} d (k : DeviceAuthorization → go T A) (w : env * T) r w' :
  bind (deviceLocked d) k w = (r, w') → device_ok w.2 →
  (∀ record e, ds_byDevice w.2 !! d = Some record → current (clock w.1) record →
     k record (e, w.2) = (r, w') → kept w r w') →
  kept w r w'.
Proof.
  intros Hrun Hok Hk.
  apply bind_res_inv in Hrun as [(record & w1 & E1 & Hrun)|[(e & -> & E1)|[-> E1]]];
    apply deviceLocked_spec in E1 as (Hkept & _ & Hret); try done.
  - destruct (Hret _ eq_refl) as (Hw & Hrec & Hc). destruct w1 as [e1 s1]. cbn in Hw. subst s1.
    by eapply Hk.
  - by destruct Hkept as (? & ? & ?).
  - by destruct Hkept as (_ & _ & ?).
Qed.

Lemma kept_write {A} d old record (a : A) (w : env * T) e r w' :
  (store_record d record ;; ret a) (e, w.2) = (r, w') → device_ok w.2 →
  ds_byDevice w.2 !! d = Some old → moves old record → record_ok record → kept w r w'.
Proof.
  intros Hrun Hok Hold Hm Hro.
  apply bind_res_inv in Hrun as [(u & w1 & E1 & [= <- <-])|[(e1 & -> & [=])|[-> [=]]]].
  destruct (store_record_kept _ _ _ _ _ _ E1 Hok Hold Hm Hro) as ((? & ? & ?) & _). by split_and!.
Qed.

Lemma create_kept input (w : env * T) r w' :
  Create_ input w = (r, w') → device_ok w.2 → kept w r w'.
Proof.
  unfold Create_. intros Hrun Hok. eapply kept_ready; [exact Hrun|done|]. clear Hrun. intros e Hrun.
  destruct (_ || _); [injection Hrun as <- <-; by apply kept_same|].
  apply bind_ctx in Hrun as [(e1 & -> & Hw)|(e1 & Hrun)]; [by apply kept_same|].
  rewrite bind_get in Hrun. cbn [snd] in Hrun.
  case_bool_decide as Hd; [injection Hrun as <- <-; by apply kept_same|].
  case_bool_decide as Hu; [injection Hrun as <- <-; by apply kept_same|].
  apply eq_None_not_Some in Hd, Hu. apply bind_now_at in Hrun as [e2 Hrun]. injection Hrun as <- <-.
  destruct Hok as [Hc Hus Hde Hro]. split_and!; [split; cbn|split; cbn|done]; try done.
  - intros u d [[<- <-]|[Hne Hx]]%lookup_insert_Some.
    + eexists. rewrite lookup_insert_eq. done.
    + destruct (Hus _ _ Hx) as (x & Hxd & ?). exists x. rewrite lookup_insert_ne by congruence. done.
  - intros d x [[<- <-]|[Hne Hx]]%lookup_insert_Some; cbn; [by rewrite lookup_insert_eq|].
    destruct (Hde _ _ Hx) as [? Hxu]. split; [done|]. rewrite lookup_insert_ne by congruence. done.
  - intros d x [[<- <-]|[Hne Hx]]%lookup_insert_Some; [|by eapply Hro].
    split; cbn; try done; by intros [].
  - intros d x Hx. exists x. rewrite lookup_insert_ne by congruence. split; [done|reflexivity].
  - apply grows_to_refl.
Qed.

Lemma get_device_kept h (w : env * T) r w' :
  GetByDeviceCodeHash h w = (r, w') → device_ok w.2 → kept w r w'.
Proof.
  intros Hrun Hok. eapply kept_ready; [exact Hrun|done|]. intros e Hx. by apply deviceLocked_spec in Hx as [? _].
Qed.

Lemma get_user_kept h (w : env * T) r w' :
  GetByUserCodeHash h w = (r, w') → device_ok w.2 → kept w r w'.
Proof.
  intros Hrun Hok. eapply kept_ready; [exact Hrun|done|]. intros e Hx.
  eapply kept_user; [exact Hx|done|]. intros d _ Hy. by apply deviceLocked_spec in Hy as [? _].
Qed.

Lemma preview_kept h (w : env * T) r w' :
  Preview h w = (r, w') → device_ok w.2 → kept w r w'.
Proof.
  intros Hrun Hok. eapply kept_ready; [exact Hrun|done|]. intros e Hx.
  eapply kept_user; [exact Hx|done|]. clear Hrun Hx. intros d _ Hrun. cbv beta in Hrun. rewrite bind_get in Hrun. cbn [snd] in Hrun.
  destruct (ds_byDevice w.2 !! d) as [record|]; [|injection Hrun as <- <-; by apply kept_same].
  apply bind_now_at in Hrun as [e1 Hrun].
  destruct (_ && _); injection Hrun as <- <-; by apply kept_same.
Qed.

Lemma moves_poll record t :
  Terminal (da_State record) = false →
  match da_LastPollAt record with Some last => last ≤ t | None => True end →
  moves record (set_polled t record).
Proof.
  intros Ht Hl. split; try done; cbn; [by destruct (da_State record)|].
  unfold frozen. by destruct (da_State record).
Qed.

Lemma record_ok_poll record t : record_ok record → record_ok (set_polled t record).
Proof. intros []. by split. Qed.

Lemma poll_spec h (w : env * T) r w' :
  Poll h w = (r, w') → device_ok w.2 → kept w r w' ∧
  ∀ record', r = Ok record' → Terminal (da_State record') = false →
    ∃ t record, ds_byDevice w.2 !! h = Some record ∧ ds_byDevice w'.2 !! h = Some record' ∧
      da_LastPollAt record' = Some t ∧
      match da_LastPollAt record with
      | Some last => last + DeviceAuthorizationPollInterval ≤ t | None => True end.
Proof.
  unfold Poll. intros Hrun Hok.
  apply bind_ctx in Hrun as [(e & -> & Hw)|(e & Hrun)]; [split; [by apply kept_same|done]|].
  apply bind_res_inv in Hrun as [(record & w1 & E1 & Hrun)|[(e1 & -> & E1)|[-> E1]]];
    (apply deviceLocked_spec in E1 as (Hkept & _ & Hret); [|done]);
    [|split; [|done]; by destruct Hkept as (? & ? & ?)|by destruct Hkept as (_ & _ & ?)].
  destruct (Hret _ eq_refl) as (Hw & Hrec & Hc). destruct w1 as [e1 s1]. cbn in Hw, Hrec. subst s1.
  pose proof (dk_record _ Hok _ _ Hrec) as Hro.
  destruct (Terminal (da_State record)) eqn:Hterm.
  { injection Hrun as <- <-. split; [by apply kept_same|]. intros ? [= <-]. congruence. }
  apply bind_now_at in Hrun as [e2 Hrun]. set (t := clock _) in *. cbn [snd] in Hrun.
  assert (∀ s', (store_record h (set_polled t record) ;; ret (set_polled t record)) (e2, w.2) = (r, s') →
    match da_LastPollAt record with
    | Some last => last + DeviceAuthorizationPollInterval ≤ t | None => True end →
    kept w r s' ∧ ∀ record', r = Ok record' → Terminal (da_State record') = false →
      ∃ t record, ds_byDevice w.2 !! h = Some record ∧ ds_byDevice s'.2 !! h = Some record' ∧
        da_LastPollAt record' = Some t ∧
        match da_LastPollAt record with
        | Some last => last + DeviceAuthorizationPollInterval ≤ t | None => True end) as Hwrite.
  { intros s' Hx Hl. split.
    - eapply kept_write; [exact Hx|done|done| |by apply record_ok_poll]. apply moves_poll; [done|].
      destruct (da_LastPollAt record); [|done]. unfold DeviceAuthorizationPollInterval, Second, Millisecond, Microsecond in Hl.
      unfold time in *. lia.
    - injection Hx as <- <-. intros ? [= <-] _. exists t, record. cbn. by rewrite lookup_insert_eq. }
  destruct (da_LastPollAt record) as [last|] eqn:Hlast; [|by apply Hwrite].
  destruct (time_Before t _) eqn:Hb.
  { injection Hrun as <- <-. split; [by apply kept_same|done]. }
  apply Hwrite; [done|]. apply bool_decide_eq_false in Hb. unfold time_Add in Hb.
  rewrite (ro_interval _ Hro) in Hb. unfold time in *. lia.
Qed.

Lemma approve_kept u grant (w : env * T) r w' :
  Approve u grant w = (r, w') → device_ok w.2 → kept w r w'.
Proof.
  unfold Approve. intros Hrun Hok. eapply kept_ready; [exact Hrun|done|]. clear Hrun. intros e Hrun.
  unfold bind at 1, lift_res in Hrun.
  destruct (ValidateDeviceAuthorizationGrant grant) as [[]|e1|] eqn:Hv;
    [|injection Hrun as <- <-; by apply kept_same
     |unfold ValidateDeviceAuthorizationGrant in Hv; by repeat case_match].
  eapply kept_user; [exact Hrun|done|]. clear Hrun. intros d _ Hrun.
  eapply kept_locked; [exact Hrun|done|]. clear Hrun. intros record e1 Hrec _ Hrun. cbv beta in Hrun.
  case_bool_decide as Hst; cbn [negb] in Hrun; [|injection Hrun as <- <-; by apply kept_same].
  apply bind_now_at in Hrun as [e2 Hrun]. cbn [fst snd] in Hrun.
  eapply (kept_write d record _ _ (e, w.2)); [exact Hrun|exact Hok|exact Hrec| |].
  - split; try done; cbn; [by rewrite Hst|by unfold polled_before; destruct (da_LastPollAt record)|].
    unfold frozen. by rewrite Hst.
  - destruct (dk_record _ Hok _ _ Hrec) as [? Hack ? ? ?]. split; cbn; try done.
    intros Hx%Hack. congruence.
Qed.

Lemma deny_kept u (w : env * T) r w' : Deny u w = (r, w') → device_ok w.2 → kept w r w'.
Proof.
  unfold Deny. intros Hrun Hok. eapply kept_ready; [exact Hrun|done|]. clear Hrun. intros e Hrun.
  eapply kept_user; [exact Hrun|done|]. clear Hrun. intros d _ Hrun.
  eapply kept_locked; [exact Hrun|done|]. clear Hrun. intros record e1 Hrec _ Hrun. cbv beta in Hrun.
  case_bool_decide as Hst; cbn [negb] in Hrun; [|injection Hrun as <- <-; by apply kept_same].
  eapply (kept_write d record _ _ (e, w.2)); [exact Hrun|exact Hok|exact Hrec| |].
  - split; try done; cbn; [by rewrite Hst|by unfold polled_before; destruct (da_LastPollAt record)|].
    unfold frozen. by rewrite Hst.
  - destruct (dk_record _ Hok _ _ Hrec) as [? Hack ? ? ?]. split; cbn; try done.
    + intros Hx%Hack. congruence.
    + by intros [].
Qed.

(** ** Calls into the credential lifecycle *)

Lemma ds_credentials_id (s : T) : ds_set_credentials (ds_credentials s) s = s.
Proof. by destruct s. Qed.

Lemma on_creds_get org id (w : env * T) r w' :
  on_creds (Lifecycle.GetByID org id) w = (r, w') →
  w'.2 = w.2 ∧ r ≠ Panic ∧ ∀ c, r = Ok c → ds_creds w.2 !! strings_TrimSpace id = Some c.
Proof.
  intros (w1 & Hrun & ->)%zoom_inv. apply front_get in Hrun as (Hw & Hp & Hc).
  cbn in *. rewrite Hw. split; [apply ds_credentials_id|done].
Qed.

(** Only the credentials changed. *)
Definition same_rows (s s' : T) : Prop := ds_byDevice s' = ds_byDevice s ∧ ds_byUser s' = ds_byUser s.

Lemma on_creds_revoke input (w : env * T) r w' :
  on_creds (Lifecycle.RevokeCredential input) w = (r, w') → device_ok w.2 →
  kept w r w' ∧ same_rows w.2 w'.2 ∧
  (∀ c, r = Ok c → revoked_in (ds_creds w'.2) (strings_TrimSpace (vi_CredentialID input))).
Proof.
  intros (w1 & Hrun & ->)%zoom_inv Hok.
  apply front_revoke in Hrun as (Hok1 & Hp & _ & Hg & _ & _ & Hr); [|apply Hok].
  split; [by apply creds_kept|]. by split.
Qed.

Lemma on_creds_create input (w : env * T) r w' :
  on_creds (Lifecycle.CreateCredential input) w = (r, w') → device_ok w.2 →
  kept w r w' ∧ same_rows w.2 w'.2 ∧ (∀ e, r = Err e → w'.2 = w.2) ∧
  ∀ c, r = Ok c → ∃ n t, normalizeCreate input = Ok n ∧ c = credentialFromCreate n t ∧
    ds_creds w.2 !! cc_CredentialID c = None ∧ ds_creds w'.2 = <[cc_CredentialID c := c]> (ds_creds w.2).
Proof.
  intros (w1 & Hrun & ->)%zoom_inv Hok.
  apply front_create in Hrun as (Hok1 & Hp & Herr & Hg & Hc); [|apply Hok].
  split; [by apply creds_kept|]. split; [done|]. split.
  - intros e He. cbn. rewrite (Herr e He). apply ds_credentials_id.
  - intros c Hr. destruct (Hc c Hr) as (n & t & Hn & -> & Hfr & Hv). by exists n, t.
Qed.

Lemma revokeUnacked_spec record (w : env * T) r w' :
  revokeUnackedLocked record w = (r, w') → device_ok w.2 →
  kept w r w' ∧ same_rows w.2 w'.2 ∧
  (∀ u, r = Ok u → revoked_in (ds_creds w'.2) (strings_TrimSpace (da_RedeemedCredentialID record))).
Proof.
  unfold revokeUnackedLocked. intros Hrun Hok.
  apply bind_res_inv in Hrun as [(c & w1 & E1 & [= <- <-])|[(e & -> & E1)|[-> E1]]];
    (apply on_creds_revoke in E1 as ((? & ? & ?) & ? & Hr); [|done]).
  - split; [by split_and!|]. split; [done|]. intros u _. by eapply Hr.
  - by split_and!.
  - done.
Qed.

(** ** Redemption *)

Lemma redeem_replacing_spec record t ackable (w : env * T) r w' :
  redeem_replacing record t ackable w = (r, w') →
  w'.2 = w.2 ∧ r ≠ Panic ∧ ∀ id, r = Ok id →
    (da_State record = DeviceApproved ∧ id = "") ∨
    (ackable = true ∧ AckWindowOpen record t = true ∧ id = da_RedeemedCredentialID record ∧ id ≠ "" ∧
     ∃ old, ds_creds w.2 !! strings_TrimSpace id = Some old ∧ cc_RevokedAt old = None).
Proof.
  unfold redeem_replacing. intros Hrun.
  case_bool_decide as Hst.
  { injection Hrun as <- <-. split_and!; try done. intros ? [= <-]. by left. }
  destruct (ackable && _ && _) eqn:Eack.
  2:{ case_bool_decide; injection Hrun as <- <-; by split_and!. }
  apply andb_true_iff in Eack as [[-> _]%andb_true_iff Hun].
  destruct (AckWindowOpen record t) eqn:Hopen; cbn [negb] in Hrun; [|injection Hrun as <- <-; by split_and!].
  apply bind_res_inv in Hrun as [(old & w1 & E1 & Hrun)|[(e & -> & E1)|[-> E1]]];
    apply on_creds_get in E1 as (Hw & Hp & Hget); [| by split_and!|done].
  case_bool_decide as Hrev; injection Hrun as <- <-; [by split_and!|]. split_and!; [done..|].
  intros id [= <-]. right. apply andb_true_iff in Hun as [_ Hid%negb_true_iff].
  apply bool_decide_eq_false in Hid. split_and!; try done. exists old. split; [by apply Hget|].
  by apply eq_None_not_Some.
Qed.

Lemma redeem_input_spec record input issued :
  redeem_input record input = Ok issued →
  DeviceAuthorizationCredentialMatches record input = true ∧
  ∃ session, issued = with_issuance (da_ApprovingSubject record) session input ∧
    (ci_ClientClass input = ClientClassBrowser →
       session = da_ApprovingSessionID record ∧ da_ApprovingSessionID record ≠ "").
Proof.
  unfold redeem_input. intros Hr. apply reject_Ok in Hr as [Hm Hr]. apply reject_Ok in Hr as [_ Hr].
  apply negb_false_iff in Hm. split; [done|]. case_bool_decide as Hcl.
  - apply reject_Ok in Hr as [Hs [= <-]]. apply orb_false_iff in Hs as [Hs _].
    apply bool_decide_eq_false in Hs. eexists. by split.
  - injection Hr as <-. eexists. by split.
Qed.

Lemma redeem_input_safe record input : redeem_input record input ≠ Panic.
Proof. unfold redeem_input. by repeat case_match. Qed.

Lemma AckWindowOpen_inv record t :
  AckWindowOpen record t = true →
  da_State record = DeviceRedeemed ∧ da_AckRequired record = true ∧ da_CredentialAckedAt record = None.
Proof.
  unfold AckWindowOpen, CredentialUnacknowledged. rewrite !andb_true_iff, !bool_decide_eq_true. tauto.
Qed.

Lemma moves_redeem record t id ackable :
  record_ok record → da_State record = DeviceApproved ∨ (∃ t', AckWindowOpen record t' = true) →
  moves record (set_redeemed t id ackable record) ∧ record_ok (set_redeemed t id ackable record).
Proof.
  intros [Hint Hack Hacked Hred Hgr] Hs.
  assert (frozen record = false ∧ (da_State record = DeviceApproved ∨ da_State record = DeviceRedeemed))
    as [Hf Hs'].
  { unfold frozen. destruct Hs as [Hs|(t' & (Hs & Hq & Hn)%AckWindowOpen_inv)]; rewrite Hs; [by auto|].
    rewrite Hq, Hn. split; [done|by auto]. }
  split; split; try done; cbn.
  - by destruct Hs' as [-> | ->].
  - unfold polled_before. by destruct (da_LastPollAt record).
  - congruence.
  - by intros [].
  - intros _. exact (Hgr Hs').
Qed.

(** The phase of [redeem] after the new credential exists: on success the old
    credential, if one is replaced, is revoked. *)
Definition retire_replaced (replacing : string) (record : DeviceAuthorization)
    (credential : ClientCredential) : go T () :=
  if isEmpty replacing then ret ()
  else
    let! r := attempt (revokeUnackedLocked record) in
    match r with
    | inr _ => ret ()
    | inl revokeErr =>
      let! _ := attempt (on_creds (Lifecycle.RevokeCredential
        (Revocation (da_AuthorizedOrgID record) (cc_CredentialID credential) deviceAckRevokeActor "system"
           "device credential replacement abandoned" false))) in
      if bool_decide (revokeErr = ErrConflict)
      then fail (NewDeviceAuthorizationConflict (da_State record) DeviceConflictAckWindowElapsed)
      else fail revokeErr
    end.

Lemma retire_replaced_spec replacing record credential (w : env * T) r w' :
  retire_replaced replacing record credential w = (r, w') → device_ok w.2 →
  kept w r w' ∧ same_rows w.2 w'.2 ∧
  (replacing = "" → w'.2 = w.2) ∧
  (∀ u, r = Ok u → replacing ≠ "" →
     revoked_in (ds_creds w'.2) (strings_TrimSpace (da_RedeemedCredentialID record))).
Proof.
  unfold retire_replaced, isEmpty. intros Hrun Hok. case_bool_decide as He.
  { injection Hrun as <- <-. split_and!; try done. by apply kept_same. }
  unfold bind at 1 in Hrun. destruct (attempt _ w) as [r1 w1] eqn:E1.
  apply attempt_inv in E1 as (r0 & E1 & Hr0). apply revokeUnacked_spec in E1 as (Hk & Hs & Hr); [|done].
  destruct r0 as [u|e|]; subst r1; [| |by destruct Hk as (_ & _ & ?)].
  { injection Hrun as <- <-. destruct Hk as (? & ? & _). split_and!; try done.
    intros u' _ _. by eapply Hr. }
  unfold bind at 1 in Hrun. destruct (attempt _ w1) as [r2 w2] eqn:E2.
  apply attempt_inv in E2 as (r3 & E2 & Hr3). destruct Hk as (Hok1 & Hm1 & _).
  apply on_creds_revoke in E2 as ((Hok2 & Hm2 & Hp2) & Hs2 & _); [|done].
  assert (kept w (Err e : res ()) w2) as (? & ? & _).
  { split_and!; [done|by eapply store_moves_trans|done]. }
  assert (same_rows w.2 w2.2) by (destruct Hs, Hs2; split; congruence).
  destruct r3 as [c|e2|]; subst r2; [..|done]; case_bool_decide; injection Hrun as <- <-; by split_and!.
Qed.

(** What a successful redemption did. *)
Record redeemed_by (h : DeviceCodeHash) (input : CreateInput) (ackable : bool) (w : env * T)
    (c : ClientCredential) (w' : env * T) : Prop := {
  rd_parts : ∃ record t issued n tc,
    ds_byDevice w.2 !! h = Some record ∧
    ds_byDevice w'.2 !! h = Some (set_redeemed t (cc_CredentialID c) ackable record) ∧
    redeem_input record input = Ok issued ∧ normalizeCreate issued = Ok n ∧
    c = credentialFromCreate n tc ∧ ds_creds w.2 !! cc_CredentialID c = None ∧
    ((da_State record = DeviceApproved ∧ clock w.1 < da_ExpiresAt record ∧
      ds_creds w'.2 = <[cc_CredentialID c := c]> (ds_creds w.2)) ∨
     (ackable = true ∧ AckWindowOpen record t = true ∧
      (∃ old, ds_creds w.2 !! strings_TrimSpace (da_RedeemedCredentialID record) = Some old ∧
         cc_RevokedAt old = None) ∧
      revoked_in (ds_creds w'.2) (strings_TrimSpace (da_RedeemedCredentialID record))));
}.

Lemma redeem_spec h input ackable (w : env * T) r w' :
  redeem h input ackable w = (r, w') → device_ok w.2 →
  kept w r w' ∧ ∀ c, r = Ok c → redeemed_by h input ackable w c w'.
Proof.
  unfold redeem. intros Hrun Hok.
  assert (∀ (w0 : env * T) e, w0.2 = w.2 → r = Err e →
    kept w r w0 ∧ ∀ c, r = Ok c → redeemed_by h input ackable w c w0) as Hsame.
  { intros w0 e E ->. split; [by apply kept_same|done]. }
  apply bind_ctx_clock in Hrun as [(e & Hr & Hw)|(e & Hclk & Hrun)]; [by eapply Hsame|].
  apply bind_res_inv in Hrun as [(record & w1 & E1 & Hrun)|[(e1 & -> & E1)|[-> E1]]];
    (apply deviceLocked_spec in E1 as (Hkept & _ & Hret); [|done]);
    [|split; [|done]; by destruct Hkept as (? & ? & ?)|by destruct Hkept as (_ & _ & ?)].
  destruct (Hret _ eq_refl) as (Hw & Hrec & Hcur). destruct w1 as [e1 s1]. cbn in Hw, Hrec, Hcur. subst s1.
  pose proof (dk_record _ Hok _ _ Hrec) as Hro. rewrite Hclk in Hcur.
  apply bind_now_at in Hrun as [e2 Hrun]. set (t := clock (e1, w.2).1) in *. cbn [snd] in Hrun.
  apply bind_res_inv in Hrun as [(replacing & w2 & E2 & Hrun)|[(e3 & -> & E2)|[-> E2]]];
    apply redeem_replacing_spec in E2 as (Hw2 & Hp2 & Hrep); cbn [snd] in *; [|by eapply Hsame|done].
  specialize (Hrep _ eq_refl). unfold bind at 1, lift_res in Hrun. pose proof (redeem_input_safe record input).
  destruct (redeem_input record input) as [issued|e3|] eqn:Eiss; [| |done].
  2:{ injection Hrun as <- <-. by eapply Hsame. }
  assert (device_ok w2.2) as Hok2 by by rewrite Hw2.
  apply bind_res_inv in Hrun as [(c & w3 & E3 & Hrun)|[(e3 & -> & E3)|[-> E3]]];
    (apply on_creds_create in E3 as (Hk3 & Hs3 & Herr3 & Hc3); [|done]);
    [|eapply Hsame; [|done]; by rewrite (Herr3 e3 eq_refl)|by destruct Hk3 as (_ & _ & ?)].
  destruct (Hc3 _ eq_refl) as (n & tc & Hn & Hcc & Hfresh & Hins). rewrite Hw2 in Hs3, Hfresh, Hins.
  destruct Hk3 as (Hok3 & Hm3 & _). rewrite Hw2 in Hm3.
  assert (kept w (Ok c) w3) as Hk03 by by split_and!.
  apply (bind_res_inv (retire_replaced replacing record c)) in Hrun
    as [(u & w4 & E4 & Hrun)|[(e3 & -> & E4)|[-> E4]]];
    (apply retire_replaced_spec in E4 as (Hk4 & Hs4 & Hnone & Hrev); [|done]);
    [|split; [by eapply kept_after; [exact Hk03|exact Hk4|]|done]|by destruct Hk4 as (_ & _ & ?)].
  destruct Hs3 as [Hd3 _], Hs4 as [Hd4 _].
  edestruct (moves_redeem record t (cc_CredentialID c) ackable) as [Hmv Hro']; [done| |].
  { destruct Hrep as [[Hst _]|(_ & Hopen & _)]; [left; exact Hst|right; exists t; exact Hopen]. }
  assert (ds_byDevice w4.2 !! h = Some record) as Hrec4 by (by rewrite Hd4, Hd3).
  apply bind_res_inv in Hrun as [(u2 & w5 & E5 & [= <- <-])|[(e3 & -> & [=])|[-> [=]]]].
  destruct (store_record_kept _ _ _ _ _ _ E5 ltac:(apply Hk4) Hrec4 Hmv Hro') as (Hk5 & Hrec5 & Hcr5).
  split.
  { eapply kept_after; [|exact Hk5|done]. by eapply (kept_after _ _ _ _ _ (Ok u) Hk03 Hk4). }
  intros c' [= <-]. split. exists record, t, issued, n, tc. split_and!; try done.
  unfold ds_creds. rewrite Hcr5. destruct Hrep as [[Hst Hem]|(Hack & Hopen & Hid & Hne & Hold)].
  - left. destruct Hcur as [_ [Hlt|[?|?]]]; [|congruence..]. rewrite (Hnone Hem). by split_and!.
  - right. split_and!; try done; [by rewrite <-Hid|]. by eapply Hrev.
Qed.

(** ** Acknowledging and purging *)

Lemma attempt_get_kept org id (w : env * T) r w' :
  attempt (on_creds (Lifecycle.GetByID org id)) w = (r, w') →
  w'.2 = w.2 ∧ ∃ x, r = Ok x.
Proof.
  intros (r0 & Hrun & Hr)%attempt_inv. apply on_creds_get in Hrun as (Hw & Hp & _).
  split; [done|]. destruct r0; [eauto..|done].
Qed.

Lemma moves_ack record t :
  record_ok record → da_AckRequired record = true → da_CredentialAckedAt record = None →
  moves record (set_acked t record) ∧ record_ok (set_acked t record).
Proof.
  intros [Hint Hack Hacked Hred Hgr] Hreq Hnone. pose proof (Hack Hreq) as Hst.
  split; split; try done; cbn.
  - by rewrite Hst.
  - unfold polled_before. by destruct (da_LastPollAt record).
  - unfold frozen. by rewrite Hst, Hreq, Hnone.
Qed.

Lemma ack_loop_spec org id order (w : env * T) r w' :
  ack_loop org id order w = (r, w') → device_ok w.2 →
  kept w r w' ∧
  ∀ t, r = Ok (Some t) → ∃ d record, ds_byDevice w'.2 !! d = Some record ∧
    da_RedeemedCredentialID record = id ∧ da_AuthorizedOrgID record = org ∧
    da_CredentialAckedAt record = Some t.
Proof.
  revert w. induction order as [|h order IH]; intros w Hrun Hok; cbn [ack_loop] in Hrun.
  { injection Hrun as <- <-. split; [by apply kept_same|done]. }
  rewrite bind_get in Hrun. destruct (ds_byDevice w.2 !! h) as [record|] eqn:Hrec; [|by apply IH].
  destruct (_ || _) eqn:Eskip; [by apply IH|].
  rewrite !orb_false_iff, !negb_false_iff, !bool_decide_eq_true in Eskip.
  destruct Eskip as [[Hid Horg] Hreq].
  destruct (da_CredentialAckedAt record) as [t|] eqn:Hack.
  { injection Hrun as <- <-. split; [by apply kept_same|]. intros ? [= <-]. by exists h, record. }
  apply bind_now_at in Hrun as [e Hrun]. set (t := clock w.1) in *.
  assert (∀ (w0 : env * T) e0, w0.2 = w.2 → r = Err e0 → kept w r w0 ∧
    ∀ t, r = Ok (Some t) → ∃ d record, ds_byDevice w0.2 !! d = Some record ∧
      da_RedeemedCredentialID record = id ∧ da_AuthorizedOrgID record = org ∧
      da_CredentialAckedAt record = Some t) as Hsame.
  { intros w0 e0 E ->. split; [by apply kept_same|done]. }
  match type of Hrun with (if ?b then _ else _) _ = _ => destruct b end.
  { injection Hrun as <- <-. by eapply Hsame. }
  unfold bind at 1 in Hrun. destruct (attempt _ _) as [r1 w1] eqn:E1.
  apply attempt_get_kept in E1 as [Hw1 [x ->]]. cbn [snd] in Hw1.
  destruct x as [e1|c]; [injection Hrun as <- <-; by eapply Hsame|].
  case_bool_decide; [injection Hrun as <- <-; by eapply Hsame|].
  destruct (moves_ack record t) as [Hm Hro]; [by eapply dk_record|done..|].
  destruct w1 as [e1 s1]. cbn in Hw1. subst s1. split; [by eapply kept_write|].
  injection Hrun as <- <-. intros ? [= <-]. exists h, (set_acked t record).
  split; [apply lookup_insert_eq|]. by split_and!.
Qed.

Lemma acknowledge_spec order org id (w : env * T) r w' :
  AcknowledgeCredential order org id w = (r, w') → device_ok w.2 →
  kept w r w' ∧
  ∀ t, r = Ok t → ∃ d record, ds_byDevice w'.2 !! d = Some record ∧
    da_RedeemedCredentialID record = id ∧ da_AuthorizedOrgID record = org ∧
    da_CredentialAckedAt record = Some t.
Proof.
  unfold AcknowledgeCredential. intros Hrun Hok.
  apply bind_ctx in Hrun as [(e & -> & Hw)|(e & Hrun)]; [split; [by apply kept_same|done]|].
  apply bind_res_inv in Hrun as [(found & w1 & E1 & Hrun)|[(e1 & -> & E1)|[-> E1]]];
    (apply ack_loop_spec in E1 as ((Hok1 & Hm1 & Hp1) & Hack); [|done]); [|by split_and!|done].
  destruct found as [t|].
  { injection Hrun as <- <-. split; [by split_and!|]. intros ? [= <-]. by apply Hack. }
  unfold bind at 1 in Hrun. destruct (attempt _ _) as [r1 w2] eqn:E2.
  apply attempt_get_kept in E2 as [Hw2 [x ->]].
  assert (∀ e0 : gerr, kept w (Err e0 : res time) w2) as Hk.
  { intros e0. unfold kept. rewrite Hw2. by split_and!. }
  destruct x as [e1|c]; [|case_bool_decide]; injection Hrun as <- <-; by split.
Qed.

Lemma revoke_loop_kept limit t order n (w : env * T) r w' :
  revoke_loop limit t n order w = (r, w') → device_ok w.2 → kept w r w' ∧ same_rows w.2 w'.2.
Proof.
  revert n w. induction order as [|h order IH]; intros n w Hrun Hok; cbn [revoke_loop] in Hrun.
  { injection Hrun as <- <-. split; [by apply kept_same|done]. }
  rewrite bind_get in Hrun. destruct (ds_byDevice w.2 !! h) as [record|] eqn:Hrec; [|by eapply IH].
  case_bool_decide; [injection Hrun as <- <-; split; [by apply kept_same|done]|].
  destruct (_ || _); [by eapply IH|].
  unfold bind at 1 in Hrun. destruct (attempt _ _) as [r1 w1] eqn:E1.
  apply attempt_get_kept in E1 as [Hw1 [x ->]].
  assert (∀ (w0 : env * T) (r0 : res (Z * option gerr)), w0.2 = w.2 → r0 ≠ Panic →
    kept w r0 w0 ∧ same_rows w.2 w0.2) as Hsame.
  { intros w0 r0 E Hp. split; [by apply kept_same|by rewrite E]. }
  destruct x as [e1|c]; [injection Hrun as <- <-; by apply Hsame|].
  assert (∀ m (w2 : env * T), kept w (Ok ()) w2 → same_rows w.2 w2.2 →
    revoke_loop limit t m order w2 = (r, w') → kept w r w' ∧ same_rows w.2 w'.2) as Hgo.
  { intros m w2 Hk2 [Ha Hb] Hr. apply IH in Hr as [Hk3 [Hc Hd]]; [|apply Hk2].
    split; [|split; congruence]. eapply kept_after; [exact Hk2|exact Hk3|apply Hk3]. }
  case_bool_decide.
  { eapply Hgo; [|by rewrite Hw1|exact Hrun]. by apply kept_same. }
  unfold bind at 1 in Hrun. destruct (attempt (revokeUnackedLocked _) _) as [r2 w2] eqn:E2.
  apply attempt_inv in E2 as (r0 & E2 & Hr0).
  apply revokeUnacked_spec in E2 as ((Hok2 & Hm2 & Hp2) & Hs2 & _); [|by rewrite Hw1].
  rewrite Hw1 in Hm2, Hs2.
  assert (∀ {A} (x : res A), x ≠ Panic → kept w x w2) as Hk2 by (intros; by split_and!).
  destruct r0 as [u|e2|]; subst r2; [|case_bool_decide|done].
  - eapply Hgo; [by apply Hk2|done|exact Hrun].
  - eapply Hgo; [by apply Hk2|done|exact Hrun].
  - injection Hrun as <- <-. split; [by apply Hk2|done].
Qed.

Lemma revoke_unacknowledged_kept order limit (w : env * T) r w' :
  RevokeUnacknowledged order limit w = (r, w') → device_ok w.2 → kept w r w'.
Proof.
  unfold RevokeUnacknowledged. intros Hrun Hok. unfold bind at 1 in Hrun.
  destruct (attempt _ _) as [r1 w1] eqn:E1. apply attempt_inv in E1 as (r0 & E1 & Hr0).
  pose proof (readonly_ctx _ _ _ E1) as Hw1. pose proof (safe_ctx w w1) as Hsafe.
  destruct r0 as [u|e|]; subst r1.
  - case_bool_decide; [injection Hrun as <- <-; by apply kept_same|].
    apply bind_now_at in Hrun as [e Hrun]. rewrite Hw1 in Hrun.
    by apply revoke_loop_kept in Hrun as [? _].
  - injection Hrun as <- <-. by apply kept_same.
  - done.
Qed.

(** ** Histories *)

Inductive device_op :=
  | DCreate (input : DeviceAuthorizationCreateInput)
  | DGetByDevice (h : DeviceCodeHash)
  | DGetByUser (h : UserCodeHash)
  | DPreview (h : UserCodeHash)
  | DPoll (h : DeviceCodeHash)
  | DApprove (h : UserCodeHash) (grant : DeviceAuthorizationGrant)
  | DDeny (h : UserCodeHash)
  | DRedeem (h : DeviceCodeHash) (input : CreateInput)
  | DRedeemAckable (h : DeviceCodeHash) (input : CreateInput)
  | DAcknowledge (order : list DeviceCodeHash) (orgID credentialID : string)
  | DRevokeUnacknowledged (order : list DeviceCodeHash) (limit : Z).

Definition device_exec (op : device_op) : go T () :=
  match op with
  | DCreate input => discard (Create_ input)
  | DGetByDevice h => discard (GetByDeviceCodeHash h)
  | DGetByUser h => discard (GetByUserCodeHash h)
  | DPreview h => discard (Preview h)
  | DPoll h => discard (Poll h)
  | DApprove h grant => discard (Approve h grant)
  | DDeny h => discard (Deny h)
  | DRedeem h input => discard (Redeem h input)
  | DRedeemAckable h input => discard (RedeemAckable h input)
  | DAcknowledge order org id => discard (AcknowledgeCredential order org id)
  | DRevokeUnacknowledged order limit => discard (RevokeUnacknowledged order limit)
  end.

(** A step is an operation, whatever it answers, or a change of the credential
    store by another of its users. *)
Inductive device_step (s : T) : T → Prop :=
  | dstep_op op e r w' : device_exec op (e, s) = (r, w') → device_step s w'.2
  | dstep_elsewhere c : be_ok c → grows_to (ds_creds s) (be_view c) →
      device_step s (ds_set_credentials c s).

Inductive device_steps : T → T → Prop :=
  | dsteps_refl s : device_steps s s
  | dsteps_step s1 s2 s3 : device_steps s1 s2 → device_step s2 s3 → device_steps s1 s3.

Lemma kept_discard {A} (m : go T A) (w : env * T) r w' :
  discard m w = (r, w') → (∀ r0, m w = (r0, w') → kept w r0 w') → kept w r w'.
Proof.
  intros (r0 & Hrun & Hr)%discard_inv Hk. destruct (Hk _ Hrun) as (? & ? & ?).
  split_and!; [done..|]. by destruct r0; subst r.
Qed.

Lemma device_exec_kept op (w : env * T) r w' :
  device_exec op w = (r, w') → device_ok w.2 → kept w r w'.
Proof.
  intros Hrun Hok.
  destruct op; cbn in Hrun; (eapply kept_discard; [exact Hrun|]); clear r Hrun; intros r Hrun.
  - by eapply create_kept.
  - by eapply get_device_kept.
  - by eapply get_user_kept.
  - by eapply preview_kept.
  - by eapply poll_spec.
  - by eapply approve_kept.
  - by eapply deny_kept.
  - by eapply redeem_spec.
  - by eapply redeem_spec.
  - by eapply acknowledge_spec.
  - by eapply revoke_unacknowledged_kept.
Qed.

Lemma device_steps_keep s s' : device_steps s s' → device_ok s → device_ok s' ∧ store_moves s s'.
Proof.
  induction 1 as [s|s1 s2 s3 _ IH Hstep]; intros Hok; [split; [done|apply store_moves_refl]|].
  destruct (IH Hok) as [Hok2 Hm2].
  enough (device_ok s3 ∧ store_moves s2 s3) as [? ?] by (split; [done|by eapply store_moves_trans]).
  destruct Hstep as [op e r w' Hrun|c Hc Hg].
  - by apply device_exec_kept in Hrun as (? & ? & _).
  - by destruct (creds_kept (Env [] [], s2) (Ok ()) (Env [] []) c Hok2 Hc Hg) as (? & ? & _).
Qed.

(** *** What a redemption issues *)

Lemma normalizeOptionalText_trim field v max r :
  normalizeOptionalText field v max = Ok r → r = strings_TrimSpace v.
Proof.
  unfold normalizeOptionalText. case_bool_decide as Hv; [by intros [= <-]|].
  by intros (-> & _)%normalizeText_Ok.
Qed.

Lemma grant_scopes g sc :
  ValidateDeviceAuthorizationGrant g = Ok () → sc ∈ dg_Scopes g → sc ∈ knownScopes.
Proof.
  unfold ValidateDeviceAuthorizationGrant. intros Hv Hsc. res_inv Hv.
  assert (¬ existsb (λ s, negb (bool_decide (s = "context:read")) && negb (bool_decide (s = "evidence:read"))
    && negb (bool_decide (s = "data:read"))) (dg_Scopes g) = true) as Hb' by congruence.
  rewrite existsb_exists in Hb'.
  destruct (decide (sc ∈ knownScopes)) as [|Hn]; [done|]. exfalso. apply Hb'. exists sc.
  split; [by apply list_elem_of_In|]. rewrite !andb_true_iff, !negb_true_iff, !bool_decide_eq_false.
  split_and!; intros ->; apply Hn; vm_compute; set_solver.
Qed.

Lemma grant_session g :
  ValidateDeviceAuthorizationGrant g = Ok () →
  strings_TrimSpace (dg_ApprovingSessionID g) = dg_ApprovingSessionID g.
Proof.
  unfold ValidateDeviceAuthorizationGrant. intros Hv. res_inv Hv.
  apply orb_false_iff in Hb1 as [_ Hb1%negb_false_iff]. by apply bool_decide_eq_true in Hb1.
Qed.

Lemma issued_scopes record input issued n sc :
  ValidateDeviceAuthorizationGrant (grant_of record) = Ok () →
  redeem_input record input = Ok issued → normalizeCreate issued = Ok n → sc ∈ ci_Scopes n →
  sc ∈ da_AuthorizedScopes record.
Proof.
  intros Hg Hi Hn%normalizeCreate_Ok Hsc. apply redeem_input_spec in Hi as (Hm & session & -> & _).
  pose proof (nz_scopes _ _ Hn) as Hs. unfold normalizeScopes, invalid in Hs.
  apply reject_Ok in Hs as [_ Hs]. apply res_bind_Ok in Hs as (l & Hl & [= Hsl]).
  rewrite <-Hsl, elem_of_sort_Strings in Hsc. apply fold_scopes_sound in Hl as (_ & Hin & _).
  apply Hin in Hsc as [(raw & -> & Hraw)%list_elem_of_fmap _]. cbn in Hraw.
  apply andb_true_iff in Hm as [_ Hw]. unfold scopesWithin in Hw.
  apply andb_true_iff in Hw as [_ Hw%forallb_Forall]. rewrite Forall_forall in Hw.
  specialize (Hw _ Hraw). apply bool_decide_eq_true in Hw.
  rewrite known_scope_trim; [done|]. by apply (grant_scopes (grant_of record)).
Qed.

Lemma decideClass_browser d named client session family fe e :
  d ≠ ClientClassBrowser →
  decideClass d named client session family fe e = Ok ClientClassBrowser → named = ClientClassBrowser.
Proof.
  intros Hd Hc. unfold decideClass in Hc. apply res_bind_Ok in Hc as (class & Hcl & Hc).
  res_inv Hc. injection Hc as ->. destruct (_ && _) eqn:E in Hcl.
  - apply andb_true_iff in E as [E _]. by apply bool_decide_eq_true in E.
  - by injection Hcl as ->.
Qed.

Lemma deviceLocked_redeemed h record (w : env * T) :
  ds_byDevice w.2 !! h = Some record → da_State record = DeviceRedeemed →
  ∃ e, deviceLocked h w = (Ok record, (e, w.2)).
Proof.
  intros Hrec Hst. unfold deviceLocked. rewrite bind_get, Hrec.
  match goal with |- context [bind now ?k w] => destruct (bind_now_clock k w) as [e E] end.
  exists e. rewrite E, Hst. by destruct (negb _).
Qed.

Lemma redeem_acknowledged h record input ackable (w : env * T) r w' :
  redeem h input ackable w = (r, w') → env_ctx w.1 = [] → ds_byDevice w.2 !! h = Some record →
  da_State record = DeviceRedeemed → da_AckRequired record = true → is_Some (da_CredentialAckedAt record) →
  r = Err (NewDeviceAuthorizationConflict DeviceRedeemed DeviceConflictAcknowledged).
Proof.
  intros Hrun Hctx Hrec Hst Hq [t Hacked]. unfold redeem, ready, ctx_check in Hrun.
  unfold bind at 1 in Hrun. rewrite Hctx in Hrun.
  destruct (deviceLocked_redeemed h record w Hrec Hst) as [e E].
  unfold bind at 1 in Hrun. rewrite E in Hrun. apply bind_now_at in Hrun as [e2 Hrun].
  unfold bind at 1, redeem_replacing, CredentialUnacknowledged, RedeemedConflictReason in Hrun.
  rewrite Hst, Hacked, Hq, !andb_false_r in Hrun. by injection Hrun as <- _.
Qed.

(** *** Properties *)

(** C28: every operation of the store keeps the invariant (both indexes list
    the same records, and each record is consistent with its state), never
    panics, and moves each record only forward along the state machine: a
    record is never removed, its approval never changes, and a denied, expired
    or acknowledged record never changes at all. *)
Theorem device_state_machine op (w : env * T) r w' :
  device_exec op w = (r, w') → device_ok w.2 → kept w r w'.
Proof. apply device_exec_kept. Qed.

(** A redemption issues exactly what was approved.  When Redeem or
    RedeemAckable returns a credential, the device's record was an unexpired
    approval (or, for RedeemAckable, an unacknowledged redemption inside its
    window, whose old credential was live and is now revoked); the approval was
    a valid one; the credential belongs to the approved organization, carries
    only approved scopes and the approving subject, a browser credential the
    approving session; and the record names it as redeemed. *)
Theorem redeem_issues_approval h input ackable (w : env * T) c w' :
  redeem h input ackable w = (Ok c, w') → device_ok w.2 →
  ∃ record t,
    ds_byDevice w.2 !! h = Some record ∧
    ds_byDevice w'.2 !! h = Some (set_redeemed t (cc_CredentialID c) ackable record) ∧
    ValidateDeviceAuthorizationGrant (grant_of record) = Ok () ∧
    cc_RevokedAt c = None ∧ ds_creds w.2 !! cc_CredentialID c = None ∧
    cc_OrgID c = strings_TrimSpace (da_AuthorizedOrgID record) ∧
    (∀ sc, sc ∈ cc_Scopes c → sc ∈ da_AuthorizedScopes record) ∧
    pv_ApprovingUserID (cc_Provenance c) = strings_TrimSpace (da_ApprovingSubject record) ∧
    (pv_ClientClass (cc_Provenance c) = ClientClassBrowser →
       pv_SessionID (cc_Provenance c) = da_ApprovingSessionID record) ∧
    ((da_State record = DeviceApproved ∧ clock w.1 < da_ExpiresAt record ∧
      ds_creds w'.2 !! cc_CredentialID c = Some c) ∨
     (ackable = true ∧ AckWindowOpen record t = true ∧
      (∃ old, ds_creds w.2 !! strings_TrimSpace (da_RedeemedCredentialID record) = Some old ∧
         cc_RevokedAt old = None) ∧
      revoked_in (ds_creds w'.2) (strings_TrimSpace (da_RedeemedCredentialID record)))).
Proof.
  intros Hrun Hok. apply redeem_spec in Hrun as [_ Hr]; [|done].
  destruct (Hr _ eq_refl) as [(record & t & issued & n & tc & Hrec & Hrec' & Hi & Hn & -> & Hfr & Hcase)].
  assert (ValidateDeviceAuthorizationGrant (grant_of record) = Ok ()) as Hg.
  { apply (dk_record _ Hok _ _ Hrec).
    destruct Hcase as [(? & _)|(_ & (? & _)%AckWindowOpen_inv & _)]; auto. }
  pose proof Hn as Hno%normalizeCreate_Ok. pose proof Hi as (Hm & session & -> & Hbr)%redeem_input_spec.
  exists record, t. split_and!; try done.
  - pose proof (nz_org _ _ Hno) as (Horg & _)%normalizeText_Ok. cbn. rewrite Horg. cbn.
    unfold DeviceAuthorizationCredentialMatches in Hm. rewrite !andb_true_iff, !bool_decide_eq_true in Hm.
    by destruct Hm as [[[-> _] _] _].
  - intros sc Hsc. by eapply issued_scopes.
  - pose proof (nz_user _ _ Hno) as Hu%normalizeOptionalText_trim. cbn. by rewrite Hu.
  - cbn. intros Hcl. pose proof (nz_session _ _ Hno) as Hs%normalizeOptionalText_trim. rewrite Hs. cbn.
    destruct (nz_class _ _ Hno) as (d & Hd & Hdc). rewrite Hcl in Hdc.
    apply decideClass_browser in Hdc.
    + destruct (Hbr Hdc) as [-> _]. by apply (grant_session (grant_of record)).
    + by apply deriveClientClass_Ok in Hd as [(_ & _ & _ & ->)|[(_ & _ & _ & ->)|[(_ & _ & _ & _ & ->)|(_ & _ & _ & _ & ->)]]].
  - destruct Hcase as [(? & ? & ->)|?]; [left|by right]. by rewrite lookup_insert_eq.
Qed.

(** Polls of one device keep their distance.  Between two successful polls
    of an authorization that is still open, whatever other operations ran in
    between, at least the poll interval (five seconds) passed on the store's
    clock. *)
Theorem polls_keep_distance h (w1 w1' w2 w2' : env * T) r1 r2 :
  device_ok w1.2 →
  Poll h w1 = (Ok r1, w1') → Terminal (da_State r1) = false →
  device_steps w1'.2 w2.2 →
  Poll h w2 = (Ok r2, w2') → Terminal (da_State r2) = false →
  ∃ t1 t2, da_LastPollAt r1 = Some t1 ∧ da_LastPollAt r2 = Some t2 ∧
    t1 + DeviceAuthorizationPollInterval ≤ t2.
Proof.
  intros Hok Hp1 Ht1 Hsteps Hp2 Ht2.
  apply poll_spec in Hp1 as [(Hok1 & _) Hp1]; [|done].
  destruct (Hp1 _ eq_refl Ht1) as (t1 & old1 & _ & Hr1 & Hl1 & _).
  apply device_steps_keep in Hsteps as [Hok2 [Hm _]]; [|done].
  destruct (Hm _ _ Hr1) as (r1' & Hr1' & Hmv). apply poll_spec in Hp2 as [_ Hp2]; [|done].
  destruct (Hp2 _ eq_refl Ht2) as (t2 & old2 & Hold2 & _ & Hl2 & Hdist).
  assert (old2 = r1') as -> by congruence. exists t1, t2. split_and!; [done..|].
  pose proof (mv_polled _ _ Hmv) as Hpol. rewrite Hl1 in Hpol. cbn in Hpol.
  destruct (da_LastPollAt r1') as [x|]; [|done]. unfold time in *. lia.
Qed.

(** An acknowledgement is final.  Once a credential is acknowledged, no
    later redemption of that device, however the store was used in between,
    issues another credential: a request that is not cancelled is refused as
    already acknowledged. *)
Theorem acknowledged_is_final order org id (w w1 w2 w3 : env * T) t :
  device_ok w.2 →
  AcknowledgeCredential order org id w = (Ok t, w1) → device_steps w1.2 w2.2 →
  ∃ h, ∀ input ackable r, redeem h input ackable w2 = (r, w3) →
    env_ctx w2.1 = [] →
    r = Err (NewDeviceAuthorizationConflict DeviceRedeemed DeviceConflictAcknowledged).
Proof.
  intros Hok Hack Hsteps. apply acknowledge_spec in Hack as [(Hok1 & _) Hr]; [|done].
  destruct (Hr _ eq_refl) as (h & record & Hrec & _ & _ & Hacked). exists h. intros input ackable r Hrun Hctx.
  apply device_steps_keep in Hsteps as [Hok2 [Hm _]]; [|done].
  destruct (Hm _ _ Hrec) as (record' & Hrec' & Hmv). destruct (dk_record _ Hok1 _ _ Hrec) as [_ Ha Hb _ _].
  assert (da_AckRequired record = true) as Hq by (apply Hb; rewrite Hacked; eauto).
  specialize (Ha Hq). assert (record' = record) as ->.
  { apply (mv_frozen _ _ Hmv). unfold frozen. by rewrite Ha, Hacked, orb_true_r. }
  by eapply redeem_acknowledged.
Qed.
End theorems.
