(* ===== verification/DeviceRuns.v ===== *)
(** * DeviceRuns: a concrete device authorization

    One authorization over the in-memory credential store, from its start to its
    acknowledgement, at which the theorems of DeviceTheorems are applied, and
    the run in which a cancelled replacement leaves two live credentials. *)

From Stdlib Require Import ZArith Lia Ascii.
From stdpp Require Import sorting pretty numbers gmap strings list_numbers list.
From S2P Require Import Prelude GoStrings Sha256 CredTypes Validation Outbox AuditStore CredentialStore CredentialStoreProofs CredentialTheorems Lifecycle DeviceAuth DeviceTheorems.

Open Scope Z_scope.

(** ** A concrete authorization over the in-memory credential store *)

Abbreviation MemDevices := (DeviceAuthorizationStore credentialStore).
#[local] Existing Instance no_uuid.
#[local] Existing Instance sample_tables.

Definition dev : DeviceCodeHash := Eval vm_compute in HashDeviceCode "device-code".
Definition usr : UserCodeHash := Eval vm_compute in HashUserCode "USER-CODE".

Definition at_s (n : Z) : env := at_time (n * Second).

Definition device_grant : DeviceAuthorizationGrant :=
  Grant "org-1" ["acme/web"] ["context:read"; "evidence:read"] "user-1" AuthenticationMethodWebAssertion "".

Definition device_input (id : string) (c : ascii) : CreateInput :=
  Create id "org-1" "Laptop" "fcacr_abcdef" (token c) ["acme/web"] ["context:read"] "user-1"
    (Some (5000 * Second)) "" "" "" "" "" "" "" "" None.

Definition devices_0 : MemDevices := DeviceStore initial ∅ ∅.
Definition device_run (op : device_op) (n : Z) (s : MemDevices) : MemDevices :=
  (device_exec op (at_s n, s)).2.2.

Definition devices_1 : MemDevices :=
  Eval vm_compute in device_run (DCreate (DeviceCreate dev usr "org-1" ["acme/web"])) 1000 devices_0.
Definition poll_1 : res DeviceAuthorization * (env * MemDevices) :=
  Eval vm_compute in Poll dev (at_s 1010, devices_1).
Definition devices_3 : MemDevices := Eval vm_compute in device_run (DApprove usr device_grant) 1012 poll_1.2.2.
Definition poll_2 : res DeviceAuthorization * (env * MemDevices) :=
  Eval vm_compute in Poll dev (at_s 1015, devices_3).
Definition redeem_1 : res ClientCredential * (env * MemDevices) :=
  Eval vm_compute in redeem dev (device_input "cred-d1" "a") true (at_s 1020, poll_2.2.2).
Definition ack_1 : res time * (env * MemDevices) :=
  Eval vm_compute in AcknowledgeCredential [dev] "org-1" "cred-d1" (at_s 1030, redeem_1.2.2).
Definition redeem_2 : res ClientCredential * (env * MemDevices) :=
  Eval vm_compute in redeem dev (device_input "cred-d2" "b") true (at_s 1040, ack_1.2.2).
Definition no_device : DeviceAuthorization :=
  Device dev usr "" [] DevicePending 0 0 None "" [] [] "" "" "" 0 None None "" "" false None.
Definition polled_1 : DeviceAuthorization :=
  Eval vm_compute in match poll_1.1 with Ok r => r | _ => no_device end.
Definition polled_2 : DeviceAuthorization :=
  Eval vm_compute in match poll_2.1 with Ok r => r | _ => no_device end.
Definition redeemed_1 : ClientCredential :=
  Eval vm_compute in match redeem_1.1 with Ok c => c | _ => cr_Metadata lost end.

Lemma devices_0_ok : device_ok devices_0.
Proof. split; [apply initial_ok|done..]. Qed.

Lemma create_1_run :
  device_exec (DCreate (DeviceCreate dev usr "org-1" ["acme/web"])) (at_s 1000, devices_0)
  = (Ok (), (at_s 1000, devices_1)).
Proof. vm_compute. reflexivity. Qed.
Lemma devices_1_ok : device_ok devices_1.
Proof. exact (proj1 (device_exec_kept _ _ _ _ create_1_run devices_0_ok)). Qed.

Lemma poll_1_run : Poll dev (at_s 1010, devices_1) = (Ok polled_1, poll_1.2).
Proof. vm_compute. reflexivity. Qed.
Lemma poll_1_ok : device_ok poll_1.2.2.
Proof. exact (proj1 (proj1 (poll_spec _ _ _ _ poll_1_run devices_1_ok))). Qed.

Lemma approve_run :
  device_exec (DApprove usr device_grant) (at_s 1012, poll_1.2.2) = (Ok (), (at_s 1012, devices_3)).
Proof. vm_compute. reflexivity. Qed.
Lemma devices_3_ok : device_ok devices_3.
Proof. exact (proj1 (device_exec_kept _ _ _ _ approve_run poll_1_ok)). Qed.
Lemma approve_step : device_steps poll_1.2.2 devices_3.
Proof. eapply dsteps_step; [apply dsteps_refl|]. exact (dstep_op _ _ _ _ _ approve_run). Qed.

Lemma poll_2_run : Poll dev (at_s 1015, devices_3) = (Ok polled_2, poll_2.2).
Proof. vm_compute. reflexivity. Qed.
Lemma poll_2_ok : device_ok poll_2.2.2.
Proof. exact (proj1 (proj1 (poll_spec _ _ _ _ poll_2_run devices_3_ok))). Qed.

Lemma redeem_1_run :
  redeem dev (device_input "cred-d1" "a") true (at_s 1020, poll_2.2.2) = (Ok redeemed_1, redeem_1.2).
Proof. vm_compute. reflexivity. Qed.
Lemma redeem_1_ok : device_ok redeem_1.2.2.
Proof. exact (proj1 (proj1 (redeem_spec _ _ _ _ _ _ redeem_1_run poll_2_ok))). Qed.

Lemma ack_1_run :
  AcknowledgeCredential [dev] "org-1" "cred-d1" (at_s 1030, redeem_1.2.2) = (Ok (1030 * Second), ack_1.2).
Proof. vm_compute. reflexivity. Qed.

(** ** The theorems at this run *)

Lemma code_hash_round_trip_witness :
  ParseDeviceCodeHash (DeviceCodeHash_String dev) = Ok dev.
Proof. exact (proj1 (code_hash_round_trip (dc_value dev) eq_refl)). Defined.

Lemma device_state_machine_witness : kept (at_s 1012, poll_1.2.2) (Ok ()) (at_s 1012, devices_3).
Proof.
  exact (device_state_machine (DApprove usr device_grant) (at_s 1012, poll_1.2.2) (Ok ())
    (at_s 1012, devices_3) approve_run poll_1_ok).
Defined.

Lemma redeem_issues_approval_witness :
  ∃ record t, ds_byDevice poll_2.2.2 !! dev = Some record ∧
    ds_byDevice redeem_1.2.2 !! dev = Some (set_redeemed t "cred-d1" true record) ∧
    ∀ sc, sc ∈ cc_Scopes redeemed_1 → sc ∈ da_AuthorizedScopes record.
Proof.
  destruct (redeem_issues_approval dev (device_input "cred-d1" "a") true (at_s 1020, poll_2.2.2) redeemed_1
    redeem_1.2 redeem_1_run poll_2_ok) as (record & t & H1 & H2 & _ & _ & _ & _ & H3 & _).
  exists record, t. exact (conj H1 (conj H2 H3)).
Defined.

Lemma polls_keep_distance_witness :
  ∃ t1 t2, da_LastPollAt polled_1 = Some t1 ∧ da_LastPollAt polled_2 = Some t2 ∧
    t1 + DeviceAuthorizationPollInterval ≤ t2.
Proof.
  exact (polls_keep_distance dev (at_s 1010, devices_1) poll_1.2 (at_s 1015, devices_3) poll_2.2
    polled_1 polled_2 devices_1_ok poll_1_run eq_refl approve_step poll_2_run eq_refl).
Defined.

Lemma acknowledged_is_final_witness :
  ∃ h, ∀ input ackable r, redeem h input ackable (at_s 1040, ack_1.2.2) = (r, redeem_2.2) →
    env_ctx (at_s 1040) = [] →
    r = Err (NewDeviceAuthorizationConflict DeviceRedeemed DeviceConflictAcknowledged).
Proof.
  exact (acknowledged_is_final [dev] "org-1" "cred-d1" (at_s 1030, redeem_1.2.2) ack_1.2
    (at_s 1040, ack_1.2.2) redeem_2.2 (1030 * Second) redeem_1_ok ack_1_run (dsteps_refl _)).
Defined.

(** ** A cancelled replacement *)

(** The context ends after the ninth check: after the new credential was
    recorded and before the old one is revoked. *)
Definition cut_short : env := Env (replicate 9 None ++ replicate 4 (Some Canceled)) [1040 * Second].

Definition cut_at : env * MemDevices :=
  Eval vm_compute in (redeem dev (device_input "cred-d2" "b") true (cut_short, redeem_1.2.2)).2.
Definition purged : res (Z * option gerr) * (env * MemDevices) :=
  Eval vm_compute in RevokeUnacknowledged [dev] 10 (at_s 2000, cut_at.2).
Definition found_by (c : ascii) (n : Z) (s : MemDevices) : res ClientCredential :=
  (Lifecycle.FindByTokenHash (token c) (at_s n, ds_credentials s)).1.
Definition id_found (r : res ClientCredential) : string :=
  match r with Ok c => cc_CredentialID c | _ => "" end.

Lemma cut_run : redeem dev (device_input "cred-d2" "b") true (cut_short, redeem_1.2.2) = (Err ErrCanceled, cut_at).
Proof. vm_compute. reflexivity. Qed.
Lemma cut_found :
  (id_found (found_by "a" 1050 cut_at.2), id_found (found_by "b" 1050 cut_at.2)) = ("cred-d1", "cred-d2").
Proof. vm_compute. reflexivity. Qed.
Lemma purged_run : RevokeUnacknowledged [dev] 10 (at_s 2000, cut_at.2) = (Ok (1, None), purged.2).
Proof. vm_compute. reflexivity. Qed.
Lemma purged_found :
  (id_found (found_by "a" 2010 purged.2.2), id_found (found_by "b" 2010 purged.2.2)) = ("", "cred-d2").
Proof. vm_compute. reflexivity. Qed.

(** A replacement whose request is cancelled between minting the new
    credential and revoking the old one leaves both live: the answer is the
    context error, the clean-up fails with the same context, and since the
    record still names the old credential, the purge after the window revokes
    the old one and leaves the new one live. *)
Theorem cancelled_replacement_leaves_both :
  ∃ w1 w2, redeem dev (device_input "cred-d2" "b") true (cut_short, redeem_1.2.2) = (Err ErrCanceled, w1) ∧
    id_found (found_by "a" 1050 w1.2) = "cred-d1" ∧ id_found (found_by "b" 1050 w1.2) = "cred-d2" ∧
    RevokeUnacknowledged [dev] 10 (at_s 2000, w1.2) = (Ok (1, None), w2) ∧
    id_found (found_by "a" 2010 w2.2) = "" ∧ id_found (found_by "b" 2010 w2.2) = "cred-d2".
Proof.
  exists cut_at, purged.2.
  exact (conj cut_run (conj (f_equal fst cut_found) (conj (f_equal snd cut_found)
    (conj purged_run (conj (f_equal fst purged_found) (f_equal snd purged_found)))))).
Qed.
