(* ===== verification/OAuth.v ===== *)
(** * OAuth: dynamic clients, authorization requests and device grants

    internal/storage/oauth.go and internal/storage/memory/oauth.go.  The store
    keeps clients by id, authorization requests by the hash of their handle with
    indexes by device code and by authorization code, and device grants.  A
    stored value is copied in and out, so the clone functions are the identity
    (cloneOAuthClient's nil list is the empty list here). *)

From Stdlib Require Import ZArith Lia Ascii.
From stdpp Require Import sorting pretty numbers gmap strings list_numbers list.
From S2P Require Import Prelude GoStrings GoNet Sha256 DeviceAuth.

Open Scope Z_scope.

(** ** Constants and secrets *)

Definition OAuthClientKindDynamic : string := "dynamic".
Definition OAuthClientKindMetadataDocument : string := "metadata_document".

Definition maxOAuthClientNameLength : Z := 200.
Definition maxOAuthRedirectURIs : Z := 8.
Definition maxOAuthURILength : Z := 2048.
Definition maxOAuthStateLength : Z := 1024.
Definition maxOAuthScopeLength : Z := 512.
Definition oauthCodeChallengeLength : Z := 43.
Definition dynamicOAuthClientIDBytes : nat := 16.
Definition dynamicOAuthClientIDStart : string := "acrc_".

(** The [[32]byte] of a secret hash, as the string of its bytes. *)
Record OAuthSecretHash := SecretHash { sh_value : string }.
#[global] Instance OAuthSecretHash_eq_dec : EqDecision OAuthSecretHash.
Proof. solve_decision. Defined.
#[global] Instance OAuthSecretHash_countable : Countable OAuthSecretHash.
Proof. by apply (inj_countable' sh_value SecretHash); intros []. Defined.

Definition HashOAuthSecret (secret : string) : OAuthSecretHash :=
  SecretHash (of_bytes (sha256_Sum256 (bytes_of secret))).

Definition ParseOAuthSecretHash (value : string) : res OAuthSecretHash :=
  match hex_DecodeString (strings_TrimSpace value) with
  | Some decoded => if bool_decide (length decoded = sha256_Size) then Ok (SecretHash (of_bytes decoded))
                    else Err ErrInvalidOAuthAuthorizationRequest
  | None => Err ErrInvalidOAuthAuthorizationRequest
  end.

Definition OAuthSecretHash_String (h : OAuthSecretHash) : string :=
  hex_EncodeToString (bytes_of (sh_value h)).
Definition OAuthSecretHash_IsZero (h : OAuthSecretHash) : bool := bool_decide (h = SecretHash zero_hash).

(** ** Data *)

Record OAuthClient := Client {
  cl_ClientID : string;
  cl_ClientName : string;
  cl_RedirectURIs : list string;
  cl_CreatedAt : time;
}.

Record OAuthAuthorizationRequest := AuthRequest {
  ar_HandleHash : OAuthSecretHash;
  ar_DeviceCodeHash : DeviceCodeHash;
  ar_ClientID : string;
  ar_ClientKind : string;
  ar_RedirectURI : string;
  ar_CodeChallenge : string;
  ar_Resource : string;
  ar_Scope : string;
  ar_State : string;
  ar_CreatedAt : time;
  ar_ExpiresAt : time;
  ar_CodeHash : option OAuthSecretHash;
  ar_CodeExpiresAt : option time;
  ar_ConsumedAt : option time;
  ar_BoundOrgID : string;
  ar_BoundSubject : string;
}.

Record OAuthDeviceGrant := DeviceGrant {
  og_DeviceCodeHash : DeviceCodeHash;
  og_ClientID : string;
  og_ClientKind : string;
  og_Resource : string;
  og_Scope : string;
  og_CreatedAt : time;
  og_ExpiresAt : time;
}.

Definition ar_set_code (code : OAuthSecretHash) (expires : time) (r : OAuthAuthorizationRequest) :=
  AuthRequest (ar_HandleHash r) (ar_DeviceCodeHash r) (ar_ClientID r) (ar_ClientKind r) (ar_RedirectURI r)
    (ar_CodeChallenge r) (ar_Resource r) (ar_Scope r) (ar_State r) (ar_CreatedAt r) (ar_ExpiresAt r)
    (Some code) (Some expires) (ar_ConsumedAt r) (ar_BoundOrgID r) (ar_BoundSubject r).
Definition ar_set_consumed (at_ : time) (r : OAuthAuthorizationRequest) :=
  AuthRequest (ar_HandleHash r) (ar_DeviceCodeHash r) (ar_ClientID r) (ar_ClientKind r) (ar_RedirectURI r)
    (ar_CodeChallenge r) (ar_Resource r) (ar_Scope r) (ar_State r) (ar_CreatedAt r) (ar_ExpiresAt r)
    (ar_CodeHash r) (ar_CodeExpiresAt r) (Some at_) (ar_BoundOrgID r) (ar_BoundSubject r).
Definition ar_set_bound (org subject : string) (r : OAuthAuthorizationRequest) :=
  AuthRequest (ar_HandleHash r) (ar_DeviceCodeHash r) (ar_ClientID r) (ar_ClientKind r) (ar_RedirectURI r)
    (ar_CodeChallenge r) (ar_Resource r) (ar_Scope r) (ar_State r) (ar_CreatedAt r) (ar_ExpiresAt r)
    (ar_CodeHash r) (ar_CodeExpiresAt r) (ar_ConsumedAt r) org subject.

(** ** Validation *)

Definition hex_lower_rune (r : Z) : bool := ((48 <=? r) && (r <=? 57)) || ((97 <=? r) && (r <=? 102)).

Definition IsDynamicOAuthClientID (clientID : string) : bool :=
  match strings_CutPrefix clientID dynamicOAuthClientIDStart with
  | None => false
  | Some rest => bool_decide (slen rest = 2 * Z.of_nat dynamicOAuthClientIDBytes)
                 && forallb hex_lower_rune (runes rest)
  end.

Definition NewDynamicOAuthClientID (random : list Z) : string :=
  dynamicOAuthClientIDStart +:+ hex_EncodeToString random.

Definition hasControl (value : string) : bool := existsb (λ r, (r <? 32) || (r =? 127)) (runes value).

Definition loopback_name (host : string) : bool :=
  bool_decide (host = "localhost") || bool_decide (host = "127.0.0.1") || bool_decide (host = "::1").

(** The test [ValidOAuthRedirectURI] and [ValidOAuthResource] share: their
    bodies are the same. *)
Definition absolute_web_uri (value : string) : bool :=
  if isEmpty value || bool_decide (maxOAuthURILength < slen value) || negb (utf8_ValidString value)
     || hasControl value then false
  else
    match url_Parse value with
    | None => false
    | Some parsed =>
      if negb (url_IsAbs parsed) || isEmpty (url_Host parsed) || negb (isEmpty (url_Fragment parsed))
         || url_User parsed || negb (isEmpty (url_Opaque parsed)) then false
      else if bool_decide (url_Scheme parsed = "https") then true
      else if bool_decide (url_Scheme parsed = "http") then loopback_name (url_Hostname parsed)
      else false
    end.

Definition ValidOAuthRedirectURI (value : string) : bool := absolute_web_uri value.
Definition ValidOAuthResource (value : string) : bool := absolute_web_uri value.

Definition isLoopbackRedirectHost (host : string) (allowLocalhost : bool) : bool :=
  if bool_decide (host = "127.0.0.1") || bool_decide (host = "::1") then true
  else if bool_decide (host = "localhost") then allowLocalhost else false.

Definition MatchOAuthRedirectURI (registered presented : string) (allowLocalhost : bool) : bool :=
  if bool_decide (registered = presented) then true
  else
    match url_Parse registered with
    | None => false
    | Some reg =>
      if negb (isEmpty (url_Port reg)) || negb (isLoopbackRedirectHost (url_Hostname reg) allowLocalhost)
      then false
      else
        match url_Parse presented with
        | None => false
        | Some pres =>
          if url_User pres || negb (bool_decide (url_Hostname pres = url_Hostname reg))
             || negb (bool_decide (url_Scheme pres = url_Scheme reg)) || isEmpty (url_Port pres) then false
          else
            let prefix := url_Scheme pres +:+ "://" +:+ url_Host pres in
            if negb (strings_HasPrefix presented prefix) then false
            else
              let hostWithoutPort := strings_TrimSuffix (url_Host pres) (":" +:+ url_Port pres) in
              let presentedWithoutPort :=
                url_Scheme pres +:+ "://" +:+ hostWithoutPort +:+ slice_from presented (String.length prefix) in
              bool_decide (presentedWithoutPort = registered)
        end
    end.

Definition ValidOAuthClientMetadataURL (value : string) : bool :=
  if isEmpty value || bool_decide (maxOAuthURILength < slen value) || negb (utf8_ValidString value)
     || hasControl value then false
  else
    match url_Parse value with
    | None => false
    | Some parsed =>
      if negb (bool_decide (url_Scheme parsed = "https")) || isEmpty (url_Host parsed)
         || negb (isEmpty (url_Fragment parsed)) || url_User parsed || negb (isEmpty (url_Opaque parsed))
      then false
      else if isEmpty (url_Path parsed) || bool_decide (url_Path parsed = "/")
              || strings_HasSuffix (url_Path parsed) "/" then false
      else negb (slices_Contains (strings_Split (url_Path parsed) "/") ".")
           && negb (slices_Contains (strings_Split (url_Path parsed) "/") "..")
    end.

Definition isBase64URLRune (r : Z) : bool :=
  ((65 <=? r) && (r <=? 90)) || ((97 <=? r) && (r <=? 122)) || ((48 <=? r) && (r <=? 57))
  || (r =? 45) || (r =? 95).

Definition ValidOAuthCodeChallenge (value : string) : bool :=
  bool_decide (slen value = oauthCodeChallengeLength) && forallb isBase64URLRune (runes value).

(** The loop of [ValidateOAuthClient]. *)
Fixpoint redirects_ok (seen : list string) (l : list string) : bool :=
  match l with
  | [] => true
  | r :: rest => ValidOAuthRedirectURI r && negb (slices_Contains seen r) && redirects_ok (r :: seen) rest
  end.

Definition ValidateOAuthClient (client : OAuthClient) : res () :=
  reject! negb (IsDynamicOAuthClientID (cl_ClientID client)) || time_IsZero (cl_CreatedAt client)
    with ErrInvalidOAuthClient ;;
  reject! negb (utf8_ValidString (cl_ClientName client))
          || bool_decide (maxOAuthClientNameLength < slen (cl_ClientName client))
          || hasControl (cl_ClientName client) with ErrInvalidOAuthClient ;;
  reject! bool_decide (maxOAuthRedirectURIs < Z.of_nat (length (cl_RedirectURIs client)))
    with ErrInvalidOAuthClient ;;
  reject! negb (redirects_ok [] (cl_RedirectURIs client)) with ErrInvalidOAuthClient ;;
  Ok ().

(** The switch on the client kind both validations share. *)
Definition client_named (kind clientID : string) : bool :=
  if bool_decide (kind = OAuthClientKindDynamic) then IsDynamicOAuthClientID clientID
  else if bool_decide (kind = OAuthClientKindMetadataDocument) then ValidOAuthClientMetadataURL clientID
  else false.

Definition ValidateOAuthAuthorizationRequest (r : OAuthAuthorizationRequest) : res () :=
  let bad := ErrInvalidOAuthAuthorizationRequest in
  reject! OAuthSecretHash_IsZero (ar_HandleHash r) || DeviceCodeHash_IsZero (ar_DeviceCodeHash r)
          || bool_decide (is_Some (ar_CodeHash r)) || bool_decide (is_Some (ar_CodeExpiresAt r))
          || bool_decide (is_Some (ar_ConsumedAt r)) with bad ;;
  reject! time_IsZero (ar_CreatedAt r) || negb (time_After (ar_ExpiresAt r) (ar_CreatedAt r)) with bad ;;
  reject! negb (client_named (ar_ClientKind r) (ar_ClientID r)) with bad ;;
  reject! negb (ValidOAuthRedirectURI (ar_RedirectURI r)) || negb (ValidOAuthCodeChallenge (ar_CodeChallenge r))
          || negb (ValidOAuthResource (ar_Resource r)) with bad ;;
  reject! bool_decide (maxOAuthScopeLength < slen (ar_Scope r))
          || bool_decide (maxOAuthStateLength < slen (ar_State r)) || negb (utf8_ValidString (ar_State r))
          || hasControl (ar_State r) || hasControl (ar_Scope r) with bad ;;
  Ok ().

Definition ValidateOAuthDeviceGrant (g : OAuthDeviceGrant) : res () :=
  let bad := ErrInvalidOAuthAuthorizationRequest in
  reject! DeviceCodeHash_IsZero (og_DeviceCodeHash g) with bad ;;
  reject! time_IsZero (og_CreatedAt g) || negb (time_After (og_ExpiresAt g) (og_CreatedAt g)) with bad ;;
  reject! negb (client_named (og_ClientKind g) (og_ClientID g)) with bad ;;
  reject! negb (ValidOAuthResource (og_Resource g)) with bad ;;
  reject! bool_decide (maxOAuthScopeLength < slen (og_Scope g)) || negb (utf8_ValidString (og_Scope g))
          || hasControl (og_Scope g) with bad ;;
  Ok ().

(** ** The store *)

Module OAuth.

Record OAuthStore := Store {
  os_clients : gmap string OAuthClient;
  os_byHandle : gmap OAuthSecretHash OAuthAuthorizationRequest;
  os_byDeviceCode : gmap DeviceCodeHash OAuthSecretHash;
  os_byCode : gmap OAuthSecretHash OAuthSecretHash;
  os_deviceGrants : gmap DeviceCodeHash OAuthDeviceGrant;
}.

Definition NewOAuthStore : OAuthStore := Store ∅ ∅ ∅ ∅ ∅.

Definition ready : go OAuthStore () := ctx_check.

Definition set_byHandle (h : OAuthSecretHash) (r : OAuthAuthorizationRequest) (s : OAuthStore) : OAuthStore :=
  Store (os_clients s) (<[h := r]> (os_byHandle s)) (os_byDeviceCode s) (os_byCode s) (os_deviceGrants s).

Definition RegisterClient (client : OAuthClient) : go OAuthStore OAuthClient :=
  ready ;;
  lift_res (ValidateOAuthClient client) ;;
  ctx_check ;;
  let! s := get in
  refuse! bool_decide (is_Some (os_clients s !! cl_ClientID client)) with ErrConflict ;;
  put (Store (<[cl_ClientID client := client]> (os_clients s)) (os_byHandle s) (os_byDeviceCode s)
         (os_byCode s) (os_deviceGrants s)) ;;
  ret client.

Definition GetClient (clientID : string) : go OAuthStore OAuthClient :=
  ready ;;
  let! s := get in
  match os_clients s !! clientID with None => fail ErrNotFound | Some client => ret client end.

Definition CreateAuthorizationRequest (request : OAuthAuthorizationRequest)
    : go OAuthStore OAuthAuthorizationRequest :=
  ready ;;
  lift_res (ValidateOAuthAuthorizationRequest request) ;;
  ctx_check ;;
  let! s := get in
  refuse! bool_decide (is_Some (os_byHandle s !! ar_HandleHash request)) with ErrConflict ;;
  refuse! bool_decide (is_Some (os_byDeviceCode s !! ar_DeviceCodeHash request)) with ErrConflict ;;
  put (Store (os_clients s) (<[ar_HandleHash request := request]> (os_byHandle s))
         (<[ar_DeviceCodeHash request := ar_HandleHash request]> (os_byDeviceCode s))
         (os_byCode s) (os_deviceGrants s)) ;;
  ret request.

Definition GetAuthorizationRequest (handle : OAuthSecretHash) : go OAuthStore OAuthAuthorizationRequest :=
  ready ;;
  let! s := get in
  match os_byHandle s !! handle with None => fail ErrNotFound | Some request => ret request end.

Definition BindAuthorizationRequestUser (handle : OAuthSecretHash) (orgID subject : string)
    : go OAuthStore () :=
  ready ;;
  refuse! OAuthSecretHash_IsZero handle || isEmpty orgID || isEmpty subject
    with ErrInvalidOAuthAuthorizationRequest ;;
  ctx_check ;;
  let! s := get in
  match os_byHandle s !! handle with
  | None => fail ErrNotFound
  | Some request =>
    refuse! negb (isEmpty (ar_BoundSubject request)) &&
            (negb (bool_decide (ar_BoundOrgID request = orgID))
             || negb (bool_decide (ar_BoundSubject request = subject))) with ErrConflict ;;
    put (set_byHandle handle (ar_set_bound orgID subject request) s)
  end.

Definition IssueAuthorizationCode (handle code : OAuthSecretHash) (codeExpiresAt : time)
    : go OAuthStore OAuthAuthorizationRequest :=
  ready ;;
  refuse! OAuthSecretHash_IsZero handle || OAuthSecretHash_IsZero code || time_IsZero codeExpiresAt
    with ErrInvalidOAuthAuthorizationRequest ;;
  ctx_check ;;
  let! s := get in
  match os_byHandle s !! handle with
  | None => fail ErrNotFound
  | Some request =>
    let! now := now in
    refuse! negb (time_After (ar_ExpiresAt request) now) || bool_decide (is_Some (ar_CodeHash request))
      with ErrConflict ;;
    refuse! bool_decide (is_Some (os_byCode s !! code)) with ErrConflict ;;
    let stored := ar_set_code code codeExpiresAt request in
    put (Store (os_clients s) (<[handle := stored]> (os_byHandle s)) (os_byDeviceCode s)
           (<[code := handle]> (os_byCode s)) (os_deviceGrants s)) ;;
    ret stored
  end.

Definition ConsumeAuthorizationCode (code : OAuthSecretHash) : go OAuthStore OAuthAuthorizationRequest :=
  ready ;;
  ctx_check ;;
  let! s := get in
  match os_byCode s !! code with
  | None => fail ErrOAuthAuthorizationCodeUnavailable
  | Some handle =>
    match os_byHandle s !! handle with
    | None => fail ErrOAuthAuthorizationCodeUnavailable
    | Some request =>
      refuse! negb (bool_decide (ar_CodeHash request = Some code))
        with ErrOAuthAuthorizationCodeUnavailable ;;
      let! now := now in
      refuse! match ar_CodeExpiresAt request with None => true | Some e => negb (time_After e now) end
              || bool_decide (is_Some (ar_ConsumedAt request)) with ErrOAuthAuthorizationCodeUnavailable ;;
      let stored := ar_set_consumed now request in
      put (set_byHandle handle stored s) ;;
      ret stored
    end
  end.

Definition CreateDeviceGrant (grant : OAuthDeviceGrant) : go OAuthStore OAuthDeviceGrant :=
  ready ;;
  lift_res (ValidateOAuthDeviceGrant grant) ;;
  ctx_check ;;
  let! s := get in
  refuse! bool_decide (is_Some (os_deviceGrants s !! og_DeviceCodeHash grant)) with ErrConflict ;;
  put (Store (os_clients s) (os_byHandle s) (os_byDeviceCode s) (os_byCode s)
         (<[og_DeviceCodeHash grant := grant]> (os_deviceGrants s))) ;;
  ret grant.

Definition GetDeviceGrant (hash : DeviceCodeHash) : go OAuthStore OAuthDeviceGrant :=
  ready ;;
  let! s := get in
  match os_deviceGrants s !! hash with None => fail ErrNotFound | Some grant => ret grant end.
End OAuth.
