(* ===== verification/OAuthTheorems.v ===== *)
(** * OAuthTheorems: the guarantees of the OAuth store

    Client ids have exactly the issued shape; matching a redirect URI widens
    nothing but a loopback port; over any history of the store an authorization
    code is consumed at most once, only after it was issued and before it
    expires, and a request belongs to the first user bound to it. *)

From Stdlib Require Import ZArith Lia Ascii.
From stdpp Require Import sorting pretty numbers gmap strings list_numbers list.
From S2P Require Import Prelude GoStrings GoNet RepoSlug Sha256 DeviceAuth DeviceTheorems OAuth.

Open Scope Z_scope.

(** ** Client ids *)

(** A text whose code points are all ASCII is its own bytes. *)
Lemma decode_small l : Forall (λ r, r < 128) (rune_of <$> decode l) → rune_of <$> decode l = l.
Proof.
  induction l as [l IH] using (induction_ltof1 _ (@length Z)); unfold ltof in IH.
  destruct l as [|b0 r1]; [done|]. cbn [decode].
  destruct (b0 <? 128) eqn:E0.
  { rewrite !fmap_cons. intros [_ Hr]%Forall_cons. cbn. f_equal. apply IH; [cbn; lia|done]. }
  apply Z.ltb_ge in E0.
  assert (∀ x rest, Forall (λ r, r < 128) (rune_of <$> x :: rest) → 128 ≤ rune_of x → False) as Hbig.
  { intros x rest [Hx _]%Forall_cons ?. lia. }
  destruct r1 as [|b1 r2]; [intros Hf; by apply Hbig in Hf|].
  destruct (utf8_ok2 b0 b1) eqn:E2.
  { intros Hf. apply Hbig in Hf; [done|]. unfold utf8_ok2, cont in E2. cbn. lia. }
  destruct r2 as [|b2 r3]; [intros Hf; by apply Hbig in Hf|].
  destruct (utf8_ok3 b0 b1 b2) eqn:E3.
  { intros Hf. apply Hbig in Hf; [done|]. unfold utf8_ok3, cont in E3. cbn.
    destruct (b0 =? 224) eqn:?, (b0 =? 237); lia. }
  destruct r3 as [|b3 r4]; [intros Hf; by apply Hbig in Hf|].
  destruct (utf8_ok4 b0 b1 b2 b3) eqn:E4; [|intros Hf; by apply Hbig in Hf].
  intros Hf. apply Hbig in Hf; [done|]. unfold utf8_ok4, cont in E4. cbn.
  destruct (b0 =? 240) eqn:?, (b0 =? 244); lia.
Qed.

Lemma runes_small s : Forall (λ r, r < 128) (runes s) → runes s = bytes_of s.
Proof. apply decode_small. Qed.

Lemma hex_lower_chars s :
  forallb hex_lower_rune (runes s) = true ↔ Forall (λ c, hex_char c = true) (chars s).
Proof.
  assert (∀ c, hex_lower_rune (code c) = hex_char c) as Hc.
  { intros c. unfold hex_lower_rune, hex_char, is_digit, between. done. }
  rewrite forallb_Forall. split.
  - intros Hr. assert (runes s = bytes_of s) as Hb.
    { apply runes_small. eapply Forall_impl; [exact Hr|]. cbn. unfold hex_lower_rune. intros r Hx. lia. }
    rewrite Hb in Hr. unfold bytes_of in Hr. rewrite Forall_fmap in Hr.
    eapply Forall_impl; [exact Hr|]. cbn. intros c. by rewrite Hc.
  - intros Hr. rewrite runes_ascii.
    + unfold bytes_of. rewrite Forall_fmap. eapply Forall_impl; [exact Hr|]. cbn. intros c. by rewrite Hc.
    + eapply Forall_impl; [exact Hr|]. unfold hex_char, is_digit, between. cbn. intros c. lia.
Qed.

(** Lower-case hexadecimal text of even length is the encoding of its bytes. *)
Lemma hex_digit_value c : hex_char c = true → ∃ x, 0 ≤ x < 16 ∧ hex_digit x = c.
Proof.
  revert c. assert (forallb (λ c, negb (hex_char c) || existsb (λ x, bool_decide (hex_digit x = c)) (seqZ 0 16))
    all_ascii = true) as Hall by (vm_compute; reflexivity).
  intros c Hc. pose proof (ascii_forall _ Hall c) as Hx. cbv beta in Hx. rewrite Hc in Hx. cbn [negb orb] in Hx.
  apply existsb_exists in Hx as (x & Hin & Hb). apply list_elem_of_In, elem_of_seqZ in Hin.
  apply bool_decide_eq_true in Hb. exists x. split; [lia|done].
Qed.

Lemma hex_decode_onto l :
  Forall (λ c, hex_char c = true) l → Nat.Even (length l) →
  ∃ bs, Forall (λ b, 0 ≤ b < 256) bs ∧ l = concat (hex_byte <$> bs).
Proof.
  intros Hl [n Hn]. revert l Hl Hn. induction n as [|n IH]; intros l Hl Hn.
  { exists []. split; [done|]. by destruct l. }
  destruct l as [|a [|b l]]; [cbn in Hn; lia..|].
  apply Forall_cons in Hl as [Ha Hl]. apply Forall_cons in Hl as [Hb Hl].
  destruct (hex_digit_value _ Ha) as (x & Hx & <-), (hex_digit_value _ Hb) as (y & Hy & <-).
  destruct (IH l Hl) as (bs & Hbs & ->); [cbn in Hn; lia|]. exists (16 * x + y :: bs).
  split; [constructor; [lia|done]|]. cbn [fmap list_fmap concat hex_byte app].
  replace ((16 * x + y) / 16) with x by (apply Z.div_unique with y; lia).
  replace ((16 * x + y) mod 16) with y by (apply Z.mod_unique with x; lia). done.
Qed.

(** A dynamic client id is accepted exactly when it is one that
    registration formats: the fixed prefix and the lower-case hexadecimal text
    of sixteen bytes, nothing more and nothing less. *)
Theorem dynamic_ids_are_issued_ids clientID :
  IsDynamicOAuthClientID clientID = true ↔
  ∃ random, length random = dynamicOAuthClientIDBytes ∧ Forall (λ b, 0 ≤ b < 256) random ∧
    clientID = NewDynamicOAuthClientID random.
Proof.
  unfold IsDynamicOAuthClientID, NewDynamicOAuthClientID, hex_EncodeToString. split.
  - destruct (strings_CutPrefix _ _) as [rest|] eqn:E; [|done]. apply CutPrefix_Some in E.
    rewrite andb_true_iff, bool_decide_eq_true, hex_lower_chars, slen_chars. intros [Hlen Hch].
    unfold dynamicOAuthClientIDBytes in Hlen.
    destruct (hex_decode_onto (chars rest)) as (bs & Hbs & Hrest); [done|by exists 16%nat; lia|].
    exists bs. split_and!; [|done|].
    + rewrite Hrest, hex_length in Hlen. unfold dynamicOAuthClientIDBytes. lia.
    + by rewrite <-Hrest, of_chars_chars.
  - intros (bs & Hlen & Hbs & ->). rewrite CutPrefix_app.
    rewrite andb_true_iff, bool_decide_eq_true, hex_lower_chars, slen_chars, chars_of_chars, hex_length, Hlen.
    split; [done|]. by apply hex_chars.
Qed.

(** ** Redirect URIs *)

Lemma cut_last_Some sep l a b : cut_last sep l = Some (a, b) → l = a ++ sep :: b.
Proof.
  unfold cut_last. destruct (cut sep (rev l)) as [[x y]|] eqn:E; [|done]. intros [= <- <-].
  apply cut_Some in E. rewrite <-(rev_involutive l), E, rev_app_distr. cbn. by rewrite <-app_assoc.
Qed.

(** The host with its port, as [url_Port] splits it. *)
Lemma url_Port_split u :
  url_Port u ≠ "" →
  ∃ host, url_Host u = host +:+ ":" +:+ url_Port u ∧ all_chars is_digit (url_Port u) = true.
Proof.
  unfold url_Port, splitHostPort. destruct (cut_last ":" _) as [[x p]|] eqn:E; [|done].
  destruct (validOptionalPort _) eqn:Ev; [|done]. intros _. cbn [snd].
  exists (of_chars x). apply cut_last_Some in E. split.
  - rewrite <-(of_chars_chars (url_Host u)), E. clear.
    induction x as [|a x IH]; [done|]. exact (f_equal (String a) IH).
  - cbn in Ev. unfold all_chars. by rewrite chars_of_chars.
Qed.

(** Matching a presented redirect URI never widens more than a loopback
    port.  When MatchOAuthRedirectURI accepts, either the two texts are equal,
    or the registered URI is a loopback one without a port (localhost only if
    the caller allows it) and the presented text is the registered text with
    one colon and a number inserted after the host. *)
Theorem redirect_match_widens_only_port registered presented allowLocalhost :
  MatchOAuthRedirectURI registered presented allowLocalhost = true →
  registered = presented ∨
  ∃ reg front port rest,
    url_Parse registered = Some reg ∧ url_Port reg = "" ∧
    isLoopbackRedirectHost (url_Hostname reg) allowLocalhost = true ∧
    port ≠ "" ∧ all_chars is_digit port = true ∧
    registered = front +:+ rest ∧ presented = front +:+ ":" +:+ port +:+ rest.
Proof.
  unfold MatchOAuthRedirectURI, isEmpty. case_bool_decide as Heq; [by left|]. intros Hm. right.
  destruct (url_Parse registered) as [reg|]; [|done].
  destruct (negb _ || negb _) eqn:Ereg in Hm; [done|].
  apply orb_false_iff in Ereg as [Hport%negb_false_iff%bool_decide_eq_true Hloop%negb_false_iff].
  destruct (url_Parse presented) as [pres|]; [|done].
  destruct (_ || _ || _ || _) eqn:Epres in Hm; [done|].
  apply orb_false_iff in Epres as [_ Hpp%bool_decide_eq_false].
  destruct (negb (strings_HasPrefix _ _)) eqn:Epre in Hm; [done|]. apply negb_false_iff in Epre.
  destruct (url_Port_split _ Hpp) as (host & Hhost & Hdig).
  rewrite Hhost, TrimSuffix_app in Hm. apply bool_decide_eq_true in Hm.
  pose proof (prefix_split _ _ Epre) as Hsplit. rewrite Hhost in Hsplit.
  set (rest := slice_from _ _) in Hm, Hsplit.
  exists reg, (url_Scheme pres +:+ "://" +:+ host), (url_Port pres), rest. split_and!; try done.
  - rewrite <-Hm. by rewrite !append_assoc.
  - rewrite Hsplit. by rewrite !append_assoc.
Qed.

(** ** The store over time *)

Import OAuth.

(** The part of a request no operation changes, as it was validated. *)
Definition pristine (r : OAuthAuthorizationRequest) : OAuthAuthorizationRequest :=
  AuthRequest (ar_HandleHash r) (ar_DeviceCodeHash r) (ar_ClientID r) (ar_ClientKind r) (ar_RedirectURI r)
    (ar_CodeChallenge r) (ar_Resource r) (ar_Scope r) (ar_State r) (ar_CreatedAt r) (ar_ExpiresAt r)
    None None None "" "".

Record request_moves (r r' : OAuthAuthorizationRequest) : Prop := {
  qm_pristine : pristine r' = pristine r;
  qm_code : is_Some (ar_CodeHash r) → ar_CodeHash r' = ar_CodeHash r ∧ ar_CodeExpiresAt r' = ar_CodeExpiresAt r;
  qm_consumed : is_Some (ar_ConsumedAt r) → ar_ConsumedAt r' = ar_ConsumedAt r;
  qm_bound : ar_BoundSubject r ≠ "" →
    ar_BoundSubject r' = ar_BoundSubject r ∧ ar_BoundOrgID r' = ar_BoundOrgID r;
}.

#[global] Instance request_moves_preorder : PreOrder request_moves.
Proof.
  split; [by intros r; split|]. intros a b c [P1 C1 D1 B1] [P2 C2 D2 B2]. split.
  - congruence.
  - intros Ha. destruct (C1 Ha) as [E1 F1]. destruct C2 as [E2 F2]; [by rewrite E1|]. split; congruence.
  - intros Ha. specialize (D1 Ha). rewrite D2; [done|]. by rewrite D1.
  - intros Ha. destruct (B1 Ha) as [E1 F1]. destruct B2 as [E2 F2]; [by rewrite E1|]. split; congruence.
Qed.

(** What every stored request satisfies. *)
Record request_ok (r : OAuthAuthorizationRequest) : Prop := {
  qo_valid : ValidateOAuthAuthorizationRequest (pristine r) = Ok ();
  qo_expires : is_Some (ar_CodeHash r) ↔ is_Some (ar_CodeExpiresAt r);
  qo_consumed : is_Some (ar_ConsumedAt r) → is_Some (ar_CodeHash r);
}.

Record oauth_ok (s : OAuthStore) : Prop := {
  oo_handle : ∀ h r, os_byHandle s !! h = Some r →
    ar_HandleHash r = h ∧ os_byDeviceCode s !! ar_DeviceCodeHash r = Some h ∧ request_ok r;
  oo_device : ∀ d h, os_byDeviceCode s !! d = Some h →
    ∃ r, os_byHandle s !! h = Some r ∧ ar_DeviceCodeHash r = d;
  oo_code : ∀ c h, os_byCode s !! c = Some h ↔
    ∃ r, os_byHandle s !! h = Some r ∧ ar_CodeHash r = Some c;
  oo_client : ∀ id c, os_clients s !! id = Some c → cl_ClientID c = id ∧ ValidateOAuthClient c = Ok ();
  oo_grant : ∀ d g, os_deviceGrants s !! d = Some g →
    og_DeviceCodeHash g = d ∧ ValidateOAuthDeviceGrant g = Ok ();
}.

Record oauth_moves (s s' : OAuthStore) : Prop := {
  om_requests : ∀ h r, os_byHandle s !! h = Some r →
    ∃ r', os_byHandle s' !! h = Some r' ∧ request_moves r r';
  om_clients : os_clients s ⊆ os_clients s';
  om_grants : os_deviceGrants s ⊆ os_deviceGrants s';
}.

#[global] Instance oauth_moves_preorder : PreOrder oauth_moves.
Proof.
  split.
  - intros s. split; [|done..]. intros h r Hr. by exists r.
  - intros a b c [R1 C1 G1] [R2 C2 G2]. split; [|by etrans..]. intros h r Hr.
    destruct (R1 _ _ Hr) as (r1 & Hr1 & ?). destruct (R2 _ _ Hr1) as (r2 & ? & ?).
    exists r2. split; [done|by etrans].
Qed.

(** The postcondition of every operation; a failure leaves the store alone. *)
Definition oauth_kept {A} (s : OAuthStore) (r : res A) (s' : OAuthStore) : Prop :=
  oauth_ok s' ∧ oauth_moves s s' ∧ r ≠ Panic ∧ ∀ e, r = Err e → s' = s.

Lemma oauth_same {A} s (r : res A) s' : oauth_ok s → s' = s → r ≠ Panic → oauth_kept s r s'.
Proof. intros Hok -> Hr. by split_and!. Qed.

Lemma oauth_wrote {A} s (a : A) s' : oauth_ok s' → oauth_moves s s' → oauth_kept s (Ok a) s'.
Proof. intros. by split_and!. Qed.

(** *** A request rewritten in place *)

Lemma set_request_ok s h r r' :
  oauth_ok s → os_byHandle s !! h = Some r → request_moves r r' → request_ok r' →
  ar_CodeHash r' = ar_CodeHash r →
  oauth_ok (set_byHandle h r' s) ∧ oauth_moves s (set_byHandle h r' s).
Proof.
  intros [Hh Hd Hc Hcl Hg] Hr Hm Hro Hcode.
  assert (ar_HandleHash r' = ar_HandleHash r ∧ ar_DeviceCodeHash r' = ar_DeviceCodeHash r) as [Eh Ed].
  { by pose proof (qm_pristine _ _ Hm) as [= ??]. }
  destruct (Hh _ _ Hr) as (Hk & Hkd & _). split; split; cbn; try done.
  - intros k x [[<- <-]|[_ Hx]]%lookup_insert_Some; [|by apply Hh]. split_and!; congruence.
  - intros d k Hdk. destruct (Hd _ _ Hdk) as (x & Hx & Hxd). destruct (decide (k = h)) as [->|].
    + exists r'. rewrite lookup_insert_eq. split; congruence.
    + exists x. by rewrite lookup_insert_ne.
  - intros c k. rewrite Hc. destruct (decide (k = h)) as [->|].
    + rewrite lookup_insert_eq. split; intros (x & Hx & Hxc); simplify_eq; eexists; (split; [done|]); congruence.
    + by rewrite lookup_insert_ne.
  - intros k x Hx. destruct (decide (k = h)) as [->|].
    + exists r'. rewrite lookup_insert_eq. split; [done|]. by simplify_eq.
    + exists x. by rewrite lookup_insert_ne.
Qed.

Lemma issue_ok s h r code e :
  oauth_ok s → os_byHandle s !! h = Some r → ar_CodeHash r = None → os_byCode s !! code = None →
  let s' := Store (os_clients s) (<[h := ar_set_code code e r]> (os_byHandle s)) (os_byDeviceCode s)
              (<[code := h]> (os_byCode s)) (os_deviceGrants s) in
  oauth_ok s' ∧ oauth_moves s s'.
Proof.
  intros [Hh Hd Hc Hcl Hg] Hr Hnone Hfresh. destruct (Hh _ _ Hr) as (Hk & Hkd & [Hv He Hco]).
  split; split; cbn; try done.
  - intros k x [[<- <-]|[_ Hx]]%lookup_insert_Some; [|by apply Hh].
    split_and!; [done..|]. by split.
  - intros d k Hdk. destruct (Hd _ _ Hdk) as (x & Hx & Hxd). destruct (decide (k = h)) as [->|].
    + eexists. rewrite lookup_insert_eq. split; [done|]. cbn. congruence.
    + exists x. by rewrite lookup_insert_ne.
  - intros c k. destruct (decide (k = h)) as [->|Hne].
    + rewrite lookup_insert_eq. split.
      * intros [[-> _]|[_ Hx]]%lookup_insert_Some; [by eexists|].
        apply Hc in Hx as (x & Hx & Hxc). congruence.
      * intros (x & [= <-] & [= ->]). by rewrite lookup_insert_eq.
    + rewrite (lookup_insert_ne (os_byHandle s)) by done. rewrite <-Hc.
      destruct (decide (c = code)) as [->|]; [|by rewrite lookup_insert_ne].
      rewrite lookup_insert_eq, Hfresh. split; congruence.
  - intros k x Hx. destruct (decide (k = h)) as [->|].
    + eexists. rewrite lookup_insert_eq. split; [done|]. simplify_eq. split; try done; cbn.
      rewrite Hnone. by intros [].
    + exists x. by rewrite lookup_insert_ne.
Qed.

Lemma create_request_ok s r :
  oauth_ok s → ValidateOAuthAuthorizationRequest r = Ok () →
  os_byHandle s !! ar_HandleHash r = None → os_byDeviceCode s !! ar_DeviceCodeHash r = None →
  let s' := Store (os_clients s) (<[ar_HandleHash r := r]> (os_byHandle s))
              (<[ar_DeviceCodeHash r := ar_HandleHash r]> (os_byDeviceCode s)) (os_byCode s) (os_deviceGrants s) in
  oauth_ok s' ∧ oauth_moves s s'.
Proof.
  intros [Hh Hd Hc Hcl Hg] Hv Hfh Hfd.
  assert (ar_CodeHash r = None ∧ ar_CodeExpiresAt r = None ∧ ar_ConsumedAt r = None) as (En & Ee & Ec).
  { unfold ValidateOAuthAuthorizationRequest in Hv. apply reject_Ok in Hv as [Hx _].
    rewrite !orb_false_iff, !bool_decide_eq_false in Hx. destruct Hx as [[[_ H1] H2] H3].
    by apply eq_None_not_Some in H1, H2, H3. }
  split; split; cbn; try done.
  - intros k x [[<- <-]|[Hne Hx]]%lookup_insert_Some.
    + rewrite lookup_insert_eq. split_and!; [done..|]. split.
      * destruct r; cbn in *; subst. exact Hv.
      * rewrite En, Ee. done.
      * rewrite Ec. by intros [].
    + destruct (Hh _ _ Hx) as (? & Hxd & ?). split_and!; [done| |done].
      rewrite lookup_insert_ne by congruence. done.
  - intros d k [[<- <-]|[Hne Hx]]%lookup_insert_Some.
    + exists r. by rewrite lookup_insert_eq.
    + destruct (Hd _ _ Hx) as (x & Hxh & ?). exists x. rewrite lookup_insert_ne by congruence. done.
  - intros c k. rewrite Hc. destruct (decide (k = ar_HandleHash r)) as [->|].
    + rewrite lookup_insert_eq, Hfh. split; intros (x & ? & ?); simplify_eq; congruence.
    + by rewrite lookup_insert_ne.
  - intros k x Hx. exists x. rewrite lookup_insert_ne by congruence. done.
Qed.

(** *** The operations *)

(** A chain of checks followed by one write: each check that fails leaves the
    store alone. *)
Lemma oauth_checked {A} (k : () → go OAuthStore A) e s r w' :
  bind ctx_check k (e, s) = (r, w') → oauth_ok s →
  (∀ e', k () (e', s) = (r, w') → oauth_kept s r w'.2) → oauth_kept s r w'.2.
Proof.
  intros Hrun Hok Hk. apply bind_ctx in Hrun as [(x & -> & Hs)|[x Hrun]]; [|by eapply Hk].
  by apply oauth_same.
Qed.

Lemma oauth_lifted {A} (c : res ()) (k : () → go OAuthStore A) e s r w' :
  bind (lift_res c) k (e, s) = (r, w') → oauth_ok s → c ≠ Panic →
  (c = Ok () → k () (e, s) = (r, w') → oauth_kept s r w'.2) → oauth_kept s r w'.2.
Proof.
  unfold bind, lift_res. destruct c as [[]|x|]; intros Hrun Hok Hp Hk; [by apply Hk| |done].
  injection Hrun as <- <-. by apply oauth_same.
Qed.

Lemma oauth_refused {A} (b : bool) x (k : go OAuthStore A) e s r w' :
  (if b then fail x else k) (e, s) = (r, w') → oauth_ok s →
  (b = false → k (e, s) = (r, w') → oauth_kept s r w'.2) → oauth_kept s r w'.2.
Proof.
  destruct b; intros Hrun Hok Hk; [|by apply Hk]. injection Hrun as <- <-. by apply oauth_same.
Qed.

Lemma find_kept {A} (o : option A) x e s r w' :
  match o with None => fail x | Some a => ret a end (e, s) = (r, w') → oauth_ok s → oauth_kept s r w'.2.
Proof. destruct o; intros [= <- <-] Hok; by apply oauth_same. Qed.

Ltac checked H :=
  rewrite ?bind_get in H; cbn beta iota delta [snd] in H;
  first [ eapply oauth_checked; [exact H|done|]; clear H; intros ? H
        | eapply oauth_lifted; [exact H|done| |clear H; let Hv := fresh "Hv" in intros Hv H]
        | eapply oauth_refused; [exact H|done|]; clear H; let Hb := fresh "Hb" in intros Hb H ].

Lemma client_validation_safe c : ValidateOAuthClient c ≠ Panic.
Proof. unfold ValidateOAuthClient. by repeat destruct (orb _ _); repeat case_match. Qed.
Lemma request_validation_safe r : ValidateOAuthAuthorizationRequest r ≠ Panic.
Proof. unfold ValidateOAuthAuthorizationRequest. by repeat case_match. Qed.
Lemma grant_validation_safe g : ValidateOAuthDeviceGrant g ≠ Panic.
Proof. unfold ValidateOAuthDeviceGrant. by repeat case_match. Qed.

Lemma not_some {A} (o : option A) : bool_decide (is_Some o) = false → o = None.
Proof. intros H%bool_decide_eq_false. by apply eq_None_not_Some. Qed.

Lemma register_kept c (w : env * OAuthStore) r w' :
  RegisterClient c w = (r, w') → oauth_ok w.2 → oauth_kept w.2 r w'.2.
Proof.
  destruct w as [e s]. unfold RegisterClient, ready. cbn [snd]. intros Hrun Hok.
  checked Hrun. checked Hrun; [apply client_validation_safe|]. checked Hrun.
  checked Hrun. apply not_some in Hb. cbn in Hrun. injection Hrun as <- <-.
  apply oauth_wrote; cbn in *.
  - destruct Hok as [Hh Hd Hc Hcl Hg]. split; cbn; try done.
    intros id x [[<- <-]|[_ Hx]]%lookup_insert_Some; [done|by apply Hcl].
  - split; cbn; [|by apply insert_subseteq|done]. intros h x Hx. by exists x.
Qed.

Lemma create_request_kept q (w : env * OAuthStore) r w' :
  CreateAuthorizationRequest q w = (r, w') → oauth_ok w.2 → oauth_kept w.2 r w'.2.
Proof.
  destruct w as [e s]. unfold CreateAuthorizationRequest, ready. cbn [snd]. intros Hrun Hok.
  checked Hrun. checked Hrun; [apply request_validation_safe|]. checked Hrun.
  checked Hrun. checked Hrun. apply not_some in Hb, Hb0.
  cbn in Hrun. injection Hrun as <- <-. by apply oauth_wrote; apply create_request_ok.
Qed.

Lemma create_grant_kept g (w : env * OAuthStore) r w' :
  CreateDeviceGrant g w = (r, w') → oauth_ok w.2 → oauth_kept w.2 r w'.2.
Proof.
  destruct w as [e s]. unfold CreateDeviceGrant, ready. cbn [snd]. intros Hrun Hok.
  checked Hrun. checked Hrun; [apply grant_validation_safe|]. checked Hrun.
  checked Hrun. apply not_some in Hb. cbn in Hrun. injection Hrun as <- <-.
  apply oauth_wrote; cbn in *.
  - destruct Hok as [Hh Hd Hc Hcl Hg]. split; cbn; try done.
    intros d x [[<- <-]|[_ Hx]]%lookup_insert_Some; [done|by apply Hg].
  - split; cbn; [|done|by apply insert_subseteq]. intros h x Hx. by exists x.
Qed.

Lemma lookup_kept {A} (o : OAuthStore → option A) (w : env * OAuthStore) r w' :
  (ready ;; let! s := get in match o s with None => fail ErrNotFound | Some a => ret a end) w = (r, w') →
  oauth_ok w.2 → oauth_kept w.2 r w'.2.
Proof.
  destruct w as [e s]. unfold ready. cbn [snd]. intros Hrun Hok. checked Hrun.
  exact (find_kept (o s) _ _ _ _ _ Hrun Hok).
Qed.

Lemma bind_spec h org subject (w : env * OAuthStore) r w' :
  BindAuthorizationRequestUser h org subject w = (r, w') → oauth_ok w.2 →
  oauth_kept w.2 r w'.2 ∧
  (r = Ok () → ∃ q, os_byHandle w.2 !! h = Some q ∧ w'.2 = set_byHandle h (ar_set_bound org subject q) w.2 ∧
     subject ≠ "" ∧
     (ar_BoundSubject q ≠ "" → ar_BoundOrgID q = org ∧ ar_BoundSubject q = subject)).
Proof.
  unfold BindAuthorizationRequestUser, ready. intros Hrun Hok.
  apply bind_ctx in Hrun as [(e & -> & Hs)|[e Hrun]]; [split; [by apply oauth_same|done]|].
  destruct (OAuthSecretHash_IsZero h || isEmpty org || isEmpty subject) eqn:Earg.
  { injection Hrun as <- <-. split; [by apply oauth_same|done]. }
  apply orb_false_iff in Earg as [_ Hsub].
  apply bind_ctx in Hrun as [(e1 & -> & Hs)|[e1 Hrun]]; [split; [by apply oauth_same|done]|].
  cbn in Hrun. destruct (os_byHandle _ !! h) as [q|] eqn:Hq; cbn in Hq.
  2:{ injection Hrun as <- <-. split; [by apply oauth_same|done]. }
  destruct (negb (isEmpty (ar_BoundSubject q)) && _) eqn:Eb.
  { injection Hrun as <- <-. split; [by apply oauth_same|done]. }
  assert (ar_BoundSubject q ≠ "" → ar_BoundOrgID q = org ∧ ar_BoundSubject q = subject) as Hb.
  { intros Hne. unfold isEmpty in Eb. rewrite bool_decide_eq_false_2 in Eb by done.
    apply orb_false_iff in Eb as [E1%negb_false_iff%bool_decide_eq_true E2%negb_false_iff%bool_decide_eq_true].
    done. }
  cbn in Hrun. injection Hrun as <- <-. cbn. unfold isEmpty in Hsub. apply bool_decide_eq_false in Hsub.
  destruct (oo_handle _ Hok _ _ Hq) as (_ & _ & [Hv He Hc]).
  destruct (set_request_ok w.2 h q (ar_set_bound org subject q)) as [Ho Hm]; [done..| | |done|].
  - split; try done. cbn. intros Hne. destruct (Hb Hne) as [-> ->]. done.
  - by split.
  - split; [by apply oauth_wrote|]. intros _. by exists q.
Qed.

Lemma issue_spec h code ce (w : env * OAuthStore) r w' :
  IssueAuthorizationCode h code ce w = (r, w') → oauth_ok w.2 →
  oauth_kept w.2 r w'.2 ∧
  (∀ a, r = Ok a → ∃ q t, os_byHandle w.2 !! h = Some q ∧ ar_CodeHash q = None ∧ t < ar_ExpiresAt q ∧
     os_byCode w.2 !! code = None ∧ a = ar_set_code code ce q ∧ os_byHandle w'.2 !! h = Some a).
Proof.
  unfold IssueAuthorizationCode, ready. intros Hrun Hok.
  apply bind_ctx in Hrun as [(e & -> & Hs)|[e Hrun]]; [split; [by apply oauth_same|done]|].
  destruct (_ || _ || _) eqn:Earg in Hrun.
  { injection Hrun as <- <-. split; [by apply oauth_same|done]. }
  apply bind_ctx in Hrun as [(e1 & -> & Hs)|[e1 Hrun]]; [split; [by apply oauth_same|done]|].
  cbn in Hrun. destruct (os_byHandle _ !! h) as [q|] eqn:Hq; cbn in Hq.
  2:{ injection Hrun as <- <-. split; [by apply oauth_same|done]. }
  apply bind_now in Hrun as (t & e2 & Hrun). cbn in Hrun.
  destruct (negb _ || _) eqn:Eopen in Hrun.
  { injection Hrun as <- <-. split; [by apply oauth_same|done]. }
  apply orb_false_iff in Eopen as [Ht%negb_false_iff Hnone%not_some].
  destruct (bool_decide (is_Some (os_byCode _ !! code))) eqn:Efresh in Hrun.
  { injection Hrun as <- <-. split; [by apply oauth_same|done]. }
  apply not_some in Efresh. cbn in Hrun. injection Hrun as <- <-. cbn in *.
  destruct (issue_ok w.2 h q code ce) as [Ho Hm]; [done..|].
  split; [by apply oauth_wrote|]. intros a [= <-]. exists q, t.
  apply bool_decide_eq_true in Ht. by rewrite lookup_insert_eq.
Qed.

Lemma consume_spec code (w : env * OAuthStore) r w' :
  ConsumeAuthorizationCode code w = (r, w') → oauth_ok w.2 →
  oauth_kept w.2 r w'.2 ∧
  (∀ a, r = Ok a → ∃ h q t e, os_byHandle w.2 !! h = Some q ∧ ar_CodeHash q = Some code ∧
     ar_CodeExpiresAt q = Some e ∧ t < e ∧ ar_ConsumedAt q = None ∧
     a = ar_set_consumed t q ∧ os_byHandle w'.2 !! h = Some a).
Proof.
  unfold ConsumeAuthorizationCode, ready. intros Hrun Hok.
  apply bind_ctx in Hrun as [(e & -> & Hs)|[e Hrun]]; [split; [by apply oauth_same|done]|].
  apply bind_ctx in Hrun as [(e1 & -> & Hs)|[e1 Hrun]]; [split; [by apply oauth_same|done]|].
  cbn in Hrun. destruct (os_byCode _ !! code) as [h|] eqn:Hh; cbn in Hh.
  2:{ injection Hrun as <- <-. split; [by apply oauth_same|done]. }
  destruct (os_byHandle _ !! h) as [q|] eqn:Hq; cbn in Hq.
  2:{ injection Hrun as <- <-. split; [by apply oauth_same|done]. }
  destruct (negb (bool_decide (ar_CodeHash q = Some code))) eqn:Ecode in Hrun.
  { injection Hrun as <- <-. split; [by apply oauth_same|done]. }
  apply negb_false_iff, bool_decide_eq_true in Ecode.
  apply bind_now in Hrun as (t & e2 & Hrun). cbn in Hrun.
  destruct (ar_CodeExpiresAt q) as [ce|] eqn:Ece.
  2:{ injection Hrun as <- <-. split; [by apply oauth_same|done]. }
  destruct (negb _ || _) eqn:Eopen in Hrun.
  { injection Hrun as <- <-. split; [by apply oauth_same|done]. }
  apply orb_false_iff in Eopen as [Ht%negb_false_iff%bool_decide_eq_true Hnone%not_some].
  cbn in Hrun. injection Hrun as <- <-. cbn.
  destruct (oo_handle _ Hok _ _ Hq) as (_ & _ & [Hv He Hc]).
  destruct (set_request_ok w.2 h q (ar_set_consumed t q)) as [Ho Hm]; [done..| | |done|].
  - split; try done. rewrite Hnone. by intros [].
  - by split.
  - split; [by apply oauth_wrote|]. intros a [= <-]. exists h, q, t, ce.
    by rewrite lookup_insert_eq.
Qed.

(** *** Histories *)

Inductive oauth_op :=
  | ORegisterClient (client : OAuthClient)
  | OGetClient (clientID : string)
  | OCreateRequest (request : OAuthAuthorizationRequest)
  | OGetRequest (handle : OAuthSecretHash)
  | OBindUser (handle : OAuthSecretHash) (orgID subject : string)
  | OIssueCode (handle code : OAuthSecretHash) (codeExpiresAt : time)
  | OConsumeCode (code : OAuthSecretHash)
  | OCreateGrant (grant : OAuthDeviceGrant)
  | OGetGrant (hash : DeviceCodeHash).

Definition oauth_exec (op : oauth_op) : go OAuthStore () :=
  match op with
  | ORegisterClient client => discard (RegisterClient client)
  | OGetClient id => discard (GetClient id)
  | OCreateRequest request => discard (CreateAuthorizationRequest request)
  | OGetRequest handle => discard (GetAuthorizationRequest handle)
  | OBindUser handle org subject => BindAuthorizationRequestUser handle org subject
  | OIssueCode handle code expires => discard (IssueAuthorizationCode handle code expires)
  | OConsumeCode code => discard (ConsumeAuthorizationCode code)
  | OCreateGrant grant => discard (CreateDeviceGrant grant)
  | OGetGrant hash => discard (GetDeviceGrant hash)
  end.

(** One operation in some environment, whatever it answers. *)
Inductive oauth_step (s : OAuthStore) : OAuthStore → Prop :=
  | ostep op e r w' : oauth_exec op (e, s) = (r, w') → oauth_step s w'.2.

Lemma oauth_discard {A} (m : go OAuthStore A) (w : env * OAuthStore) r w' :
  discard m w = (r, w') → (∀ r0, m w = (r0, w') → oauth_kept w.2 r0 w'.2) → oauth_kept w.2 r w'.2.
Proof.
  intros (r0 & Hrun & Hr)%discard_inv Hk. destruct (Hk _ Hrun) as (? & ? & Hp & He). split_and!; [done..| |].
  - by destruct r0; subst r.
  - intros x ->. destruct r0; simplify_eq. by eapply He.
Qed.

Lemma oauth_exec_kept op (w : env * OAuthStore) r w' :
  oauth_exec op w = (r, w') → oauth_ok w.2 → oauth_kept w.2 r w'.2.
Proof.
  intros Hrun Hok. destruct op; cbn in Hrun;
    try (eapply oauth_discard; [exact Hrun|]; clear r Hrun; intros r Hrun).
  - by eapply register_kept.
  - exact (lookup_kept _ _ _ _ Hrun Hok).
  - by eapply create_request_kept.
  - exact (lookup_kept _ _ _ _ Hrun Hok).
  - by eapply bind_spec.
  - by eapply issue_spec.
  - by eapply consume_spec.
  - by eapply create_grant_kept.
  - exact (lookup_kept _ _ _ _ Hrun Hok).
Qed.

Lemma oauth_steps_keep s s' : rtc oauth_step s s' → oauth_ok s → oauth_ok s' ∧ oauth_moves s s'.
Proof.
  induction 1 as [s|s1 s2 s3 [op e r w' Hrun] _ IH]; intros Hok; [done|].
  apply oauth_exec_kept in Hrun as (Hok2 & Hm & _); [|done].
  destruct (IH Hok2) as [? ?]. split; [done|by etrans].
Qed.

Lemma oauth_ok_new : oauth_ok NewOAuthStore.
Proof.
  split; try done. intros c h. split; [done|]. by intros (r & ? & _).
Qed.

(** *** Properties *)

(** Every operation of the OAuth store, whatever it answers, keeps its
    indexes listing the same requests and every stored value valid, removes
    nothing, changes a request only by the first code, the first consumption
    and the first user it gets, never panics, and leaves the store untouched
    when it fails; and the empty store satisfies the invariant. *)
Theorem oauth_store_invariant :
  oauth_ok NewOAuthStore ∧
  ∀ op (w : env * OAuthStore) r w', oauth_exec op w = (r, w') → oauth_ok w.2 →
    oauth_ok w'.2 ∧ oauth_moves w.2 w'.2 ∧ r ≠ Panic ∧ ∀ e, r = Err e → w'.2 = w.2.
Proof. split; [apply oauth_ok_new|]. intros op w r w'. apply oauth_exec_kept. Qed.

(** C32: an authorization code is consumed at most once.  When a consumption
    succeeds, the code had been issued to a request that was not consumed and
    the code had not expired; the answer is that request with its consumption
    time; and whatever operations run afterwards, no later consumption of the
    code succeeds and no other code is issued to that request. *)
Theorem code_single_use code (w w1 : env * OAuthStore) a :
  oauth_ok w.2 → ConsumeAuthorizationCode code w = (Ok a, w1) →
  (∃ h q t e, os_byHandle w.2 !! h = Some q ∧ ar_CodeHash q = Some code ∧
     ar_CodeExpiresAt q = Some e ∧ t < e ∧ ar_ConsumedAt q = None ∧ a = ar_set_consumed t q) ∧
  ∀ w2 : env * OAuthStore, rtc oauth_step w1.2 w2.2 →
    (∀ b w3, ConsumeAuthorizationCode code w2 ≠ (Ok b, w3)) ∧
    (∀ code' e b w3, IssueAuthorizationCode (ar_HandleHash a) code' e w2 ≠ (Ok b, w3)).
Proof.
  intros Hok Hrun. apply consume_spec in Hrun as [(Hok1 & _) Hr]; [|done].
  destruct (Hr _ eq_refl) as (h & q & t & e & Hq & Hc & He & Ht & Hn & Ha & Hq1).
  split; [by exists h, q, t, e|]. intros w2 Hsteps.
  apply oauth_steps_keep in Hsteps as [Hok2 [Hm _ _]]; [|done].
  destruct (Hm _ _ Hq1) as (r & Hr2 & [Hp Hcode Hcons _]). subst a. cbn in Hcode, Hcons.
  destruct (Hcode ltac:(eauto)) as [Hrc _]. specialize (Hcons ltac:(eauto)). rewrite Hc in Hrc.
  destruct (oo_handle _ Hok _ _ Hq) as (Hk & _). split.
  - intros b w3 Hrun. apply consume_spec in Hrun as [_ Hb]; [|done].
    destruct (Hb _ eq_refl) as (h' & q' & t' & e' & Hq' & Hc' & _ & _ & Hn' & _).
    assert (os_byCode w2.2 !! code = Some h) as H1 by (apply (oo_code _ Hok2); eauto).
    assert (os_byCode w2.2 !! code = Some h') as H2 by (apply (oo_code _ Hok2); eauto).
    congruence.
  - intros code' e' b w3 Hrun. apply issue_spec in Hrun as [_ Hb]; [|done].
    destruct (Hb _ eq_refl) as (q' & t' & Hq' & Hc' & _). cbn in Hq'. congruence.
Qed.

(** A request belongs to the first user bound to it.  Once a user is
    bound, whatever operations run afterwards, binding the request again
    succeeds only for the same organization and subject. *)
Theorem first_user_keeps_request h org subject org' subject' (w w1 w2 w3 : env * OAuthStore) :
  oauth_ok w.2 → BindAuthorizationRequestUser h org subject w = (Ok (), w1) →
  rtc oauth_step w1.2 w2.2 →
  BindAuthorizationRequestUser h org' subject' w2 = (Ok (), w3) →
  org' = org ∧ subject' = subject.
Proof.
  intros Hok Hrun Hsteps Hrun2. apply bind_spec in Hrun as [(Hok1 & _) Hr]; [|done].
  destruct (Hr eq_refl) as (q & Hq & Hw1 & Hne & _).
  apply oauth_steps_keep in Hsteps as [Hok2 [Hm _ _]]; [|done].
  destruct (Hm h (ar_set_bound org subject q)) as (r & Hr2 & [_ _ _ Hb]).
  { rewrite Hw1. cbn. by rewrite lookup_insert_eq. }
  destruct (Hb Hne) as [E1 E2]. cbn in E1, E2.
  apply bind_spec in Hrun2 as [_ Hr3]; [|done]. destruct (Hr3 eq_refl) as (q' & Hq' & _ & _ & Hsame).
  assert (q' = r) as -> by congruence. rewrite E2, E1 in Hsame. destruct (Hsame Hne). by subst.
Qed.

(** *** A concrete history

    A dynamic client no one registered starts a request, its user is bound, a
    code is issued and consumed. *)

Definition oauth_at (n : Z) : env := Env [] [n * Second].
Definition unregistered : string := NewDynamicOAuthClientID (repeat 171 16).
Definition pending_request : OAuthAuthorizationRequest :=
  AuthRequest (SecretHash "handle") (DeviceCode "device") unregistered OAuthClientKindDynamic
    "http://127.0.0.1:8400/callback" "abcdefghijklmnopqrstuvwxyzABCDEFGHIJKLMNOPQ"
    "https://acr.example.com/mcp" "context:read" "state" (100 * Second) (700 * Second) None None None "" "".

Definition oauth_1 : OAuthStore :=
  Eval vm_compute in (CreateAuthorizationRequest pending_request (oauth_at 100, NewOAuthStore)).2.2.
Definition oauth_2 : env * OAuthStore :=
  Eval vm_compute in
    (BindAuthorizationRequestUser (SecretHash "handle") "org-1" "user-1" (oauth_at 110, oauth_1)).2.
Definition oauth_3 : env * OAuthStore :=
  Eval vm_compute in
    (IssueAuthorizationCode (SecretHash "handle") (SecretHash "code") (180 * Second) (oauth_at 120, oauth_2.2)).2.
Definition consume_1 : res OAuthAuthorizationRequest * (env * OAuthStore) :=
  Eval vm_compute in ConsumeAuthorizationCode (SecretHash "code") (oauth_at 130, oauth_3.2).
Definition consumed_request : OAuthAuthorizationRequest :=
  Eval vm_compute in match consume_1.1 with Ok r => r | _ => pending_request end.
Definition oauth_5 : env * OAuthStore :=
  Eval vm_compute in
    (BindAuthorizationRequestUser (SecretHash "handle") "org-1" "user-1" (oauth_at 140, consume_1.2.2)).2.

Lemma oauth_1_run :
  oauth_exec (OCreateRequest pending_request) (oauth_at 100, NewOAuthStore) = (Ok (), (oauth_at 100, oauth_1)).
Proof. vm_compute. reflexivity. Qed.
Lemma oauth_2_run :
  BindAuthorizationRequestUser (SecretHash "handle") "org-1" "user-1" (oauth_at 110, oauth_1) = (Ok (), oauth_2).
Proof. vm_compute. reflexivity. Qed.
Lemma oauth_3_run :
  oauth_exec (OIssueCode (SecretHash "handle") (SecretHash "code") (180 * Second)) (oauth_at 120, oauth_2.2)
  = (Ok (), oauth_3).
Proof. vm_compute. reflexivity. Qed.
Lemma consume_1_run :
  ConsumeAuthorizationCode (SecretHash "code") (oauth_at 130, oauth_3.2) = (Ok consumed_request, consume_1.2).
Proof. vm_compute. reflexivity. Qed.
Lemma consume_1_op :
  oauth_exec (OConsumeCode (SecretHash "code")) (oauth_at 130, oauth_3.2) = (Ok (), consume_1.2).
Proof. vm_compute. reflexivity. Qed.
Lemma oauth_5_run :
  BindAuthorizationRequestUser (SecretHash "handle") "org-1" "user-1" (oauth_at 140, consume_1.2.2)
  = (Ok (), oauth_5).
Proof. vm_compute. reflexivity. Qed.

Lemma oauth_1_ok : oauth_ok oauth_1.
Proof. exact (proj1 (oauth_exec_kept _ _ _ _ oauth_1_run oauth_ok_new)). Qed.
Lemma oauth_2_ok : oauth_ok oauth_2.2.
Proof. exact (proj1 (proj1 (bind_spec _ _ _ _ _ _ oauth_2_run oauth_1_ok))). Qed.
Lemma oauth_3_ok : oauth_ok oauth_3.2.
Proof. exact (proj1 (oauth_exec_kept _ _ _ _ oauth_3_run oauth_2_ok)). Qed.
Lemma oauth_2_steps : rtc oauth_step oauth_2.2 consume_1.2.2.
Proof.
  eapply rtc_l; [exact (ostep _ _ _ _ _ oauth_3_run)|].
  eapply rtc_l; [exact (ostep _ _ _ _ _ consume_1_op)|apply rtc_refl].
Qed.

Lemma redirect_match_widens_only_port_witness :
  MatchOAuthRedirectURI "http://127.0.0.1/callback" "http://127.0.0.1:8400/callback" false = true.
Proof.
  assert (MatchOAuthRedirectURI "http://127.0.0.1/callback" "http://127.0.0.1:8400/callback" false = true) as Hm
    by (vm_compute; reflexivity).
  destruct (redirect_match_widens_only_port _ _ _ Hm) as [He|_]; [discriminate He|exact Hm].
Defined.

Lemma oauth_store_invariant_witness : oauth_ok oauth_3.2 ∧ oauth_moves oauth_2.2 oauth_3.2.
Proof.
  destruct (proj2 oauth_store_invariant _ _ _ _ oauth_3_run oauth_2_ok) as (Ho & Hm & _).
  exact (conj Ho Hm).
Defined.

Lemma code_single_use_witness :
  (∃ h q, os_byHandle oauth_3.2 !! h = Some q ∧ ar_CodeHash q = Some (SecretHash "code") ∧
     ar_ConsumedAt q = None) ∧
  ¬ ∃ b w3, ConsumeAuthorizationCode (SecretHash "code") (oauth_at 140, consume_1.2.2) = (Ok b, w3).
Proof.
  destruct (code_single_use (SecretHash "code") (oauth_at 130, oauth_3.2) consume_1.2 consumed_request
    oauth_3_ok consume_1_run) as [(h & q & t & e & Hq & Hc & _ & _ & Hn & _) Hlater]. split.
  - exists h, q. exact (conj Hq (conj Hc Hn)).
  - intros (b & w3 & Hb).
    exact (proj1 (Hlater (oauth_at 140, consume_1.2.2) (rtc_refl oauth_step consume_1.2.2)) b w3 Hb).
Defined.

Lemma first_user_keeps_request_witness : "org-1" = "org-1" ∧ "user-1" = "user-1".
Proof.
  exact (first_user_keeps_request (SecretHash "handle") "org-1" "user-1" "org-1" "user-1"
    (oauth_at 110, oauth_1) oauth_2 (oauth_at 140, consume_1.2.2) oauth_5
    oauth_1_ok oauth_2_run oauth_2_steps oauth_5_run).
Defined.

(** Storing an authorization request does not depend on its client.  A
    valid request of a dynamic client that was never registered is accepted;
    nothing in the store looks the client up, so the error the interface names
    for a client that is gone is never returned by it. *)
Theorem request_of_unknown_client_accepted :
  os_clients NewOAuthStore !! ar_ClientID pending_request = None ∧
  IsDynamicOAuthClientID (ar_ClientID pending_request) = true ∧
  CreateAuthorizationRequest pending_request (oauth_at 100, NewOAuthStore)
  = (Ok pending_request, (oauth_at 100, oauth_1)).
Proof. vm_compute. done. Qed.
