(* ===== verification/Limits.v ===== *)
(** * Limits: request quotas and concurrency per organization

    internal/limits: policy.go, retention.go and manager.go.  The Go code hands
    out pointers: a claim keeps the window it was admitted in, the manager's maps
    hold the same windows.  The model keeps both in a heap, [ls_heap] for the
    windows and [ls_claims] for the claims, so that a window a map has dropped and
    a claim still holds is the same object.  The policies, retention and bounds of
    a manager never change after [NewManager].

    The sums of reported usage are 64-bit and wrap; counts that an operation
    moves by one are unbounded integers, as 2^63 operations are out of reach. *)

From Stdlib Require Import ZArith Lia Ascii.
From stdpp Require Import sorting pretty numbers gmap strings list_numbers list.
From S2P Require Import Prelude GoStrings.

Open Scope Z_scope.

(** ** Policies *)

(** The [uint8] of a request class. *)
Definition RequestClass : Type := Z.
Definition RequestClassAuth : RequestClass := 1.
Definition RequestClassContext : RequestClass := 2.
Definition RequestClassEvidence : RequestClass := 3.
Definition RequestClassSnapshot : RequestClass := 4.
Definition RequestClassEpisode : RequestClass := 5.
Definition RequestClassData : RequestClass := 6.
Definition RequestClassCapabilities : RequestClass := 7.

Record Subject := Subj {
  sj_OrgID : string;
  sj_CredentialID : string;
  sj_Surface : string;
}.

Definition nul : string := String (ascii_of_nat 0) "".

Definition Subject_key (s : Subject) : string :=
  if isEmpty (sj_Surface s) then sj_CredentialID s
  else "owner" +:+ nul +:+ sj_Surface s +:+ nul +:+ sj_CredentialID s.

Record ResourceBudget := Budget { rb_MaxItems : Z; rb_MaxTokens : Z; rb_MaxBytes : Z }.
Record ResourceUsage := Usage_of { ru_Items : Z; ru_Tokens : Z; ru_Bytes : Z }.

(** The seven policy types of the code have these fields and are converted to
    [quotaPolicy] before they are read. *)
Record quotaPolicy := Policy {
  qp_Window : duration;
  qp_PerOrgLimit : Z;
  qp_PerCredentialLimit : Z;
  qp_Resources : ResourceBudget;
}.

Record PolicySet := Policies {
  ps_Auth : quotaPolicy;
  ps_Context : quotaPolicy;
  ps_Evidence : quotaPolicy;
  ps_Snapshot : quotaPolicy;
  ps_Episode : quotaPolicy;
  ps_Data : quotaPolicy;
  ps_Capabilities : quotaPolicy;
}.

Definition ResourceBudget_valid (b : ResourceBudget) : bool :=
  (0 <=? rb_MaxItems b) && (0 <=? rb_MaxTokens b) && (0 <=? rb_MaxBytes b).

Definition ResourceBudget_allows (b : ResourceBudget) (u : ResourceUsage) : bool :=
  ((rb_MaxItems b =? 0) || (ru_Items u <=? rb_MaxItems b)) &&
  ((rb_MaxTokens b =? 0) || (ru_Tokens u <=? rb_MaxTokens b)) &&
  ((rb_MaxBytes b =? 0) || (ru_Bytes u <=? rb_MaxBytes b)).

Definition policy_named (p : PolicySet) (class : RequestClass) : option quotaPolicy :=
  if class =? RequestClassAuth then Some (ps_Auth p)
  else if class =? RequestClassContext then Some (ps_Context p)
  else if class =? RequestClassEvidence then Some (ps_Evidence p)
  else if class =? RequestClassSnapshot then Some (ps_Snapshot p)
  else if class =? RequestClassEpisode then Some (ps_Episode p)
  else if class =? RequestClassData then Some (ps_Data p)
  else if class =? RequestClassCapabilities then Some (ps_Capabilities p)
  else None.

Definition PolicySet_policy (p : PolicySet) (class : RequestClass) : res quotaPolicy :=
  match policy_named p class with
  | None => Err ErrInvalidRequestClass
  | Some policy =>
    reject! (qp_PerOrgLimit policy <? 0) || (qp_PerCredentialLimit policy <? 0)
            || negb (ResourceBudget_valid (qp_Resources policy))
            || ((qp_Window policy <=? 0)
                && ((0 <? qp_PerOrgLimit policy) || (0 <? qp_PerCredentialLimit policy)))
      with ErrInvalidPolicy ;;
    Ok policy
  end.

Definition request_classes : list RequestClass :=
  [RequestClassAuth; RequestClassContext; RequestClassEvidence; RequestClassSnapshot;
   RequestClassEpisode; RequestClassData; RequestClassCapabilities].

Fixpoint first_invalid (p : PolicySet) (classes : list RequestClass) : res () :=
  match classes with
  | [] => Ok ()
  | class :: rest => let? _ := PolicySet_policy p class in first_invalid p rest
  end.
Definition PolicySet_validate (p : PolicySet) : res () := first_invalid p request_classes.

Definition validIdentifier (value : string) : bool :=
  if bool_decide (slen value = 0) || (256 <? slen value) || negb (utf8_ValidString value)
     || negb (bool_decide (strings_TrimSpace value = value)) then false
  else forallb (λ r, negb (unicode_IsControl r || unicode_IsSpace r)) (runes value).

Definition Subject_validate (s : Subject) : res () :=
  reject! negb (validIdentifier (sj_OrgID s)) || negb (validIdentifier (sj_CredentialID s))
          || (negb (isEmpty (sj_Surface s)) && negb (validIdentifier (sj_Surface s)))
    with ErrInvalidSubject ;;
  Ok ().

(** ** The manager's state *)

Inductive DenialReason :=
  | DenialNone
  | DenialOrgQuota
  | DenialCredentialQuota
  | DenialConcurrency
  | DenialTrackingCapacity.
#[global] Instance DenialReason_eq_dec : EqDecision DenialReason.
Proof. solve_decision. Defined.

Record Decision := Decide {
  de_Allowed : bool;
  de_Reason : DenialReason;
  de_RetryAfter : duration;
}.

Record UsageCounters := Counters {
  uc_Admitted : Z;
  uc_Denied : Z;
  uc_Completed : Z;
  uc_Items : Z;
  uc_Tokens : Z;
  uc_Bytes : Z;
}.
Definition no_counters : UsageCounters := Counters 0 0 0 0 0 0.

Record UsageTotals := Totals {
  ut_WindowStarted : time;
  ut_Org : UsageCounters;
  ut_Credential : UsageCounters;
}.

Record usageWindow := Window {
  uw_started : time;
  uw_quotaStarted : time;
  uw_lastTouched : time;
  uw_quotaOrg : Z;
  uw_quotaCredential : gmap string Z;
  uw_org : UsageCounters;
  uw_credentials : gmap string UsageCounters;
  uw_touched : gmap string time;
  uw_running : gmap string Z;
  uw_nextForget : time;
  uw_lastForget : time;
  uw_forgetPasses : Z;
}.

Record Manager := Mgr {
  mg_policies : PolicySet;
  mg_concurrency : Z;
  mg_maxOrganizations : Z;
  mg_maxCredentials : Z;
  mg_retention : duration;
  mg_concurrencyRetry : duration;
  mg_maxRetry : duration;
  mg_windows : gmap RequestClass (gmap string nat);
  mg_inflight : gmap string Z;
}.

(** [cl_result] is [None] until the claim's [once] has run, then the error (or
    none) it stored. *)
Record Claim := ClaimOf {
  cl_class : RequestClass;
  cl_subject : Subject;
  cl_window : nat;
  cl_budget : ResourceBudget;
  cl_result : option (option gerr);
}.

Record limits_state := Limits {
  ls_manager : Manager;
  ls_heap : gmap nat usageWindow;
  ls_claims : gmap nat Claim;
}.

Record Options := Opts {
  op_Policies : PolicySet;
  op_PerOrgConcurrency : Z;
  op_MaxTrackedOrganizations : Z;
  op_MaxCredentialsPerOrganization : Z;
  op_StateRetention : duration;
  op_ConcurrencyRetryAfter : duration;
  op_MaxRetryAfter : duration;
}.

Definition defaultMaxTrackedOrganizations : Z := 1024.
Definition defaultMaxCredentialsPerOrg : Z := 128.
Definition defaultStateRetention : duration := Hour.
Definition defaultConcurrencyRetry : duration := 5 * Second.
Definition defaultMaxRetry : duration := Minute.

(** [if x == 0 { x = fallback }] *)
Definition or_default (x fallback : Z) : Z := if x =? 0 then fallback else x.

Definition NewManager (o : Options) : res Manager :=
  match PolicySet_validate (op_Policies o) with
  | Err e => Err e
  | Panic => Panic
  | Ok _ =>
    reject! (op_PerOrgConcurrency o <? 0) || (op_MaxTrackedOrganizations o <? 0)
            || (op_MaxCredentialsPerOrganization o <? 0) || (op_StateRetention o <? 0)
            || (op_ConcurrencyRetryAfter o <? 0) || (op_MaxRetryAfter o <? 0) with ErrInvalidPolicy ;;
    let maxRetry := or_default (op_MaxRetryAfter o) defaultMaxRetry in
    let concurrencyRetry := or_default (op_ConcurrencyRetryAfter o) defaultConcurrencyRetry in
    Ok (Mgr (op_Policies o) (op_PerOrgConcurrency o)
          (or_default (op_MaxTrackedOrganizations o) defaultMaxTrackedOrganizations)
          (or_default (op_MaxCredentialsPerOrganization o) defaultMaxCredentialsPerOrg)
          (or_default (op_StateRetention o) defaultStateRetention)
          (if maxRetry <? concurrencyRetry then maxRetry else concurrencyRetry) maxRetry ∅ ∅)
  end.
Definition start (m : Manager) : limits_state := Limits m ∅ ∅.

(** ** Windows *)

Definition new_window (now : time) : usageWindow :=
  Window now now now 0 ∅ no_counters ∅ ∅ ∅ 0 0 0.

(** [m.retentionOf] *)
Definition retentionOf (m : Manager) (policy : quotaPolicy) : duration :=
  Z.max (mg_retention m) (qp_Window policy).

Definition expired (m : Manager) (w : usageWindow) (policy : quotaPolicy) (now : time) : bool :=
  negb (time_Before now (time_Add (uw_lastTouched w) (retentionOf m policy))).

Definition quotaExpired (w : usageWindow) (policy : quotaPolicy) (now : time) : bool :=
  (0 <? qp_Window policy) && negb (time_Before now (time_Add (uw_quotaStarted w) (qp_Window policy))).

(** The body of [windowFor]'s [if m.quotaExpired(...)]. *)
Definition reset_quota (now : time) (w : usageWindow) : usageWindow :=
  Window (uw_started w) now (uw_lastTouched w) 0 ∅ (uw_org w) (uw_credentials w) (uw_touched w)
    (uw_running w) (uw_nextForget w) (uw_lastForget w) (uw_forgetPasses w).

Definition runs_of (w : usageWindow) (key : string) : Z := default 0 (uw_running w !! key).

(** A subject [forgetIdle] removes: no claim runs and a retention has passed. *)
Definition idle (w : usageWindow) (retention : duration) (now : time) (key : string) : bool :=
  match uw_touched w !! key with
  | None => false
  | Some touched => (runs_of w key <=? 0) && negb (time_Before now (time_Add touched retention))
  end.

(** The first moment a subject that stays can leave.  The loop takes a minimum,
    so the order in which Go visits the map does not matter. *)
Definition next_forget (w : usageWindow) (retention : duration) (now : time) : time :=
  map_fold (λ key touched next,
      if 0 <? runs_of w key then next
      else
        let expires := time_Add touched retention in
        if negb (time_Before now expires) then next
        else if time_Before expires next then expires else next)
    (time_Add now retention) (uw_touched w).

Definition stays {A} (w : usageWindow) (retention : duration) (now : time) (kv : string * A) : Prop :=
  idle w retention now kv.1 = false.
#[global] Instance stays_dec {A} w retention now (kv : string * A) : base.Decision (stays w retention now kv).
Proof. unfold stays. apply _. Defined.

Definition forgetIdle (m : Manager) (policy : quotaPolicy) (now : time) (w : usageWindow) : usageWindow :=
  if time_Before now (uw_nextForget w) then w
  else
    let retention := retentionOf m policy in
    Window (uw_started w) (uw_quotaStarted w) (uw_lastTouched w) (uw_quotaOrg w)
      (filter (stays w retention now) (uw_quotaCredential w)) (uw_org w) (filter (stays w retention now) (uw_credentials w))
      (filter (stays w retention now) (uw_touched w)) (uw_running w) (next_forget w retention now) now
      (uw_forgetPasses w + 1).

(** [window.seen(key, now)] as it changes [touched] and [nextForget]. *)
Definition seen_touched (key : string) (now : time) (w : usageWindow) : gmap string time :=
  <[key := now]> (uw_touched w).
Definition seen_nextForget (now : time) (w : usageWindow) : time :=
  if time_Before now (uw_lastForget w) then 0 else uw_nextForget w.

Definition counters_of (w : usageWindow) (key : string) : UsageCounters :=
  default no_counters (uw_credentials w !! key).

Definition count_denied (c : UsageCounters) : UsageCounters :=
  Counters (uc_Admitted c) (uc_Denied c + 1) (uc_Completed c) (uc_Items c) (uc_Tokens c) (uc_Bytes c).
Definition count_admitted (c : UsageCounters) : UsageCounters :=
  Counters (uc_Admitted c + 1) (uc_Denied c) (uc_Completed c) (uc_Items c) (uc_Tokens c) (uc_Bytes c).
Definition count_completed (usage : ResourceUsage) (accepted : bool) (c : UsageCounters) : UsageCounters :=
  if accepted then
    Counters (uc_Admitted c) (uc_Denied c) (uc_Completed c + 1) (i64 (uc_Items c + ru_Items usage))
      (i64 (uc_Tokens c + ru_Tokens usage)) (i64 (uc_Bytes c + ru_Bytes usage))
  else Counters (uc_Admitted c) (uc_Denied c + 1) (uc_Completed c + 1) (uc_Items c) (uc_Tokens c) (uc_Bytes c).

(** [window.denied(key, now)] *)
Definition window_denied (key : string) (now : time) (w : usageWindow) : usageWindow :=
  Window (uw_started w) (uw_quotaStarted w) now (uw_quotaOrg w) (uw_quotaCredential w)
    (count_denied (uw_org w)) (<[key := count_denied (counters_of w key)]> (uw_credentials w))
    (seen_touched key now w) (uw_running w) (seen_nextForget now w) (uw_lastForget w) (uw_forgetPasses w).

Definition quota_of (w : usageWindow) (key : string) : Z := default 0 (uw_quotaCredential w !! key).

(** The end of [Claim]: the window counts an admitted claim. *)
Definition window_admit (key : string) (now : time) (w : usageWindow) : usageWindow :=
  Window (uw_started w) (uw_quotaStarted w) now (uw_quotaOrg w + 1)
    (<[key := quota_of w key + 1]> (uw_quotaCredential w)) (count_admitted (uw_org w))
    (<[key := count_admitted (counters_of w key)]> (uw_credentials w)) (uw_touched w)
    (<[key := runs_of w key + 1]> (uw_running w)) (uw_nextForget w) (uw_lastForget w) (uw_forgetPasses w).

(** The window part of [m.complete]. *)
Definition window_complete (key : string) (usage : ResourceUsage) (accepted : bool) (now : time)
    (w : usageWindow) : usageWindow :=
  Window (uw_started w) (uw_quotaStarted w) now (uw_quotaOrg w) (uw_quotaCredential w)
    (count_completed usage accepted (uw_org w))
    (<[key := count_completed usage accepted (counters_of w key)]> (uw_credentials w))
    (seen_touched key now w) (count_down key (uw_running w)) (seen_nextForget now w) (uw_lastForget w)
    (uw_forgetPasses w).

(** ** Updates of the state *)

Definition set_windows (ws : gmap RequestClass (gmap string nat)) (m : Manager) : Manager :=
  Mgr (mg_policies m) (mg_concurrency m) (mg_maxOrganizations m) (mg_maxCredentials m) (mg_retention m)
    (mg_concurrencyRetry m) (mg_maxRetry m) ws (mg_inflight m).
Definition set_inflight (inflight : gmap string Z) (m : Manager) : Manager :=
  Mgr (mg_policies m) (mg_concurrency m) (mg_maxOrganizations m) (mg_maxCredentials m) (mg_retention m)
    (mg_concurrencyRetry m) (mg_maxRetry m) (mg_windows m) inflight.

Definition set_byOrg (class : RequestClass) (byOrg : gmap string nat) (s : limits_state) : limits_state :=
  Limits (set_windows (<[class := byOrg]> (mg_windows (ls_manager s))) (ls_manager s)) (ls_heap s) (ls_claims s).
Definition store_window (p : nat) (w : usageWindow) (s : limits_state) : limits_state :=
  Limits (ls_manager s) (<[p := w]> (ls_heap s)) (ls_claims s).
Definition store_claim (c : nat) (claim : Claim) (s : limits_state) : limits_state :=
  Limits (ls_manager s) (ls_heap s) (<[c := claim]> (ls_claims s)).
Definition update_inflight (f : gmap string Z → gmap string Z) (s : limits_state) : limits_state :=
  Limits (set_inflight (f (mg_inflight (ls_manager s))) (ls_manager s)) (ls_heap s) (ls_claims s).

(** Read through a pointer. *)
Definition window_at (p : nat) : go limits_state usageWindow :=
  let! s := get in
  match ls_heap s !! p with None => panic | Some w => ret w end.

(** ** Sweeping and finding a window *)

Definition inflight_of (m : Manager) (org : string) : Z := default 0 (mg_inflight m !! org).

(** The organizations of one class that [sweep] keeps. *)
Definition sweep_class (s : limits_state) (now : time) (class : RequestClass) (byOrg : gmap string nat)
    : gmap string nat :=
  let m := ls_manager s in
  match PolicySet_policy (mg_policies m) class with
  | Ok policy =>
    filter (λ kv : string * nat,
      (inflight_of m kv.1 =? 0) &&
      match ls_heap s !! kv.2 with None => false | Some w => expired m w policy now end = false) byOrg
  | _ => byOrg
  end.

Definition sweep (now : time) (s : limits_state) : limits_state :=
  Limits (set_windows (map_imap (λ class byOrg, Some (sweep_class s now class byOrg))
            (mg_windows (ls_manager s))) (ls_manager s)) (ls_heap s) (ls_claims s).

Definition allowed : Decision := Decide true DenialNone 0.
Definition capacityDenied (m : Manager) : Decision := Decide false DenialTrackingCapacity (mg_maxRetry m).

(** [m.denied(reason, started, window, now)]; the duration arithmetic is 64-bit. *)
Definition quota_denied (m : Manager) (reason : DenialReason) (started : time) (window : duration)
    (now : time) : Decision :=
  let retryAfter := time_Sub (time_Add started window) now in
  if retryAfter <=? 0 then Decide false reason 0
  else
    let rounded := i64 (Z.quot (i64 (retryAfter + Second - 1)) Second * Second) in
    Decide false reason (Z.min rounded (mg_maxRetry m)).

(** The window of an organization, created when there is room for it. *)
Definition find_window (class : RequestClass) (org : string) (now : time) : go limits_state (option nat) :=
  let! s := get in
  let m := ls_manager s in
  let byOrg := default ∅ (mg_windows m !! class) in
  modify (set_byOrg class byOrg) ;;
  match byOrg !! org with
  | Some p => ret (Some p)
  | None =>
    if mg_maxOrganizations m <=? Z.of_nat (size byOrg) then ret None
    else
      let p := fresh (dom (ls_heap s)) in
      modify (λ s, set_byOrg class (<[org := p]> byOrg) (store_window p (new_window now) s)) ;;
      ret (Some p)
  end.

(** The rest of [windowFor]: the quota period, then room for the subject. *)
Definition track_subject (p : nat) (key : string) (policy : quotaPolicy) (now : time)
    : go limits_state (option nat * Decision) :=
  let! s := get in
  let m := ls_manager s in
  let! window := window_at p in
  let window := if quotaExpired window policy now then reset_quota now window else window in
  modify (store_window p window) ;;
  if bool_decide (uw_credentials window !! key = None)
     && (mg_maxCredentials m <=? Z.of_nat (size (uw_credentials window))) then
    let window := forgetIdle m policy now window in
    modify (store_window p window) ;;
    if mg_maxCredentials m <=? Z.of_nat (size (uw_credentials window))
    then ret (None, capacityDenied m)
    else ret (Some p, allowed)
  else ret (Some p, allowed).

Definition windowFor (class : RequestClass) (subject : Subject) (policy : quotaPolicy) (now : time)
    : go limits_state (option nat * Decision) :=
  let! s := get in
  let! found := find_window class (sj_OrgID subject) now in
  match found with
  | None => ret (None, capacityDenied (ls_manager s))
  | Some p => track_subject p (Subject_key subject) policy now
  end.

(** ** Claims *)

(** [m.Claim]: the answer's first part is the claim, as its place in the heap. *)
Definition Claim_ (subject : Subject) (class : RequestClass) : go limits_state (option nat * Decision) :=
  ctx_check ;;
  lift_res (Subject_validate subject) ;;
  let! s := get in
  let m := ls_manager s in
  let! policy := lift_res (PolicySet_policy (mg_policies m) class) in
  ctx_check ;;
  let! now := now in
  modify (sweep now) ;;
  let! found := windowFor class subject policy now in
  match found with
  | (None, decision) => ret (None, decision)
  | (Some p, _) =>
    let! window := window_at p in
    let key := Subject_key subject in
    let refuse d := modify (store_window p (window_denied key now window)) ;; ret (None, d) in
    if (0 <? mg_concurrency m) && (mg_concurrency m <=? inflight_of m (sj_OrgID subject))
    then refuse (Decide false DenialConcurrency (mg_concurrencyRetry m))
    else if (0 <? qp_PerOrgLimit policy) && (qp_PerOrgLimit policy <=? uw_quotaOrg window)
    then refuse (quota_denied m DenialOrgQuota (uw_quotaStarted window) (qp_Window policy) now)
    else if (0 <? qp_PerCredentialLimit policy) && (qp_PerCredentialLimit policy <=? quota_of window key)
    then refuse (quota_denied m DenialCredentialQuota (uw_quotaStarted window) (qp_Window policy) now)
    else
      modify (store_window p (window_admit key now window)) ;;
      modify (update_inflight (<[sj_OrgID subject := inflight_of m (sj_OrgID subject) + 1]>)) ;;
      let! s := get in
      let c := fresh (dom (ls_claims s)) in
      modify (store_claim c (ClaimOf class subject p (qp_Resources policy) None)) ;;
      ret (Some c, allowed)
  end.

Definition Usage (subject : Subject) (class : RequestClass) : go limits_state UsageTotals :=
  lift_res (Subject_validate subject) ;;
  let! s := get in
  lift_res (PolicySet_policy (mg_policies (ls_manager s)) class) ;;
  let! now := now in
  modify (sweep now) ;;
  let! s := get in
  match default ∅ (mg_windows (ls_manager s) !! class) !! sj_OrgID subject with
  | None => ret (Totals 0 no_counters no_counters)
  | Some p =>
    let! window := window_at p in
    ret (Totals (uw_started window) (uw_org window) (counters_of window (Subject_key subject)))
  end.

(** [m.complete(claim, usage, accepted)] *)
Definition complete (claim : Claim) (usage : ResourceUsage) (accepted : bool) : go limits_state () :=
  let! now := now in
  let! window := window_at (cl_window claim) in
  modify (store_window (cl_window claim)
            (window_complete (Subject_key (cl_subject claim)) usage accepted now window)) ;;
  modify (update_inflight (count_down (sj_OrgID (cl_subject claim)))).

Definition set_result (result : option gerr) (claim : Claim) : Claim :=
  ClaimOf (cl_class claim) (cl_subject claim) (cl_window claim) (cl_budget claim) (Some result).

Definition answer (result : option gerr) : go limits_state () :=
  match result with None => ret () | Some e => fail e end.

(** The [once] of a claim against [budget], and what it leaves as the answer. *)
Definition complete_once (c : nat) (claim : Claim) (usage : ResourceUsage) (budget : ResourceBudget)
    : go limits_state () :=
  match cl_result claim with
  | Some result => answer result
  | None =>
    let accepted := ResourceBudget_allows budget usage in
    let result := if accepted then None else Some ErrResourceBudgetExceeded in
    modify (store_claim c (set_result result claim)) ;;
    complete claim usage accepted ;;
    answer result
  end.

Definition negative_usage (u : ResourceUsage) : bool :=
  (ru_Items u <? 0) || (ru_Tokens u <? 0) || (ru_Bytes u <? 0).

Definition claim_at (c : nat) : go limits_state Claim :=
  let! s := get in
  match ls_claims s !! c with None => panic | Some claim => ret claim end.

(** [c.Complete(usage)]; [None] is the nil claim. *)
Definition Complete (c : option nat) (usage : ResourceUsage) : go limits_state () :=
  match c with
  | None => ret ()
  | Some c =>
    let! claim := claim_at c in
    refuse! negative_usage usage with ErrInvalidUsage ;;
    complete_once c claim usage (cl_budget claim)
  end.

Definition CompleteWithBudget (c : option nat) (usage : ResourceUsage) (override : ResourceBudget)
    : go limits_state () :=
  match c with
  | None => ret ()
  | Some c =>
    let! claim := claim_at c in
    refuse! negative_usage usage with ErrInvalidUsage ;;
    refuse! negb (ResourceBudget_valid override) with ErrInvalidPolicy ;;
    complete_once c claim usage override
  end.

(** The error is dropped. *)
Definition DoneClaim (c : option nat) : go limits_state () :=
  let! _ := attempt (Complete c (Usage_of 0 0 0)) in ret ().
