(* ===== verification/LimitsProofs.v ===== *)
(** * LimitsProofs: the invariants of the limits manager

    Counting lemmas, the structural invariant [limits_ok] (which window is
    whose, what the running and in-flight counts count, how much is tracked)
    and the rate invariant [rate_ok], which relates the windows to the log of
    past admissions; each elementary change of the state preserves both. *)

From Stdlib Require Import ZArith Lia Ascii.
From stdpp Require Import sorting pretty numbers gmap strings list_numbers list.
From S2P Require Import Prelude GoStrings Limits.

Open Scope Z_scope.

(** ** Counting *)

Definition is_open (c : Claim) : bool := bool_decide (cl_result c = None).

Definition open_where (P : Claim → bool) (claims : gmap nat Claim) : nat :=
  countm (λ c, is_open c && P c) claims.

Definition of_org (org : string) (c : Claim) : bool := bool_decide (sj_OrgID (cl_subject c) = org).
Definition of_window (p : nat) (c : Claim) : bool := bool_decide (cl_window c = p).
Definition of_key (p : nat) (key : string) (c : Claim) : bool :=
  of_window p c && bool_decide (Subject_key (cl_subject c) = key).

Lemma is_open_None c : cl_result c = None → is_open c = true.
Proof. intros E. by apply bool_decide_eq_true. Qed.

Lemma open_add P claims c cl :
  claims !! c = None → cl_result cl = None →
  open_where P (<[c := cl]> claims) = ((if P cl then 1 else 0) + open_where P claims)%nat.
Proof. intros Hc Hr. unfold open_where. by rewrite countm_add, is_open_None. Qed.

Lemma open_close P claims c cl r :
  claims !! c = Some cl → cl_result cl = None →
  open_where P claims = ((if P cl then 1 else 0) + open_where P (<[c := set_result r cl]> claims))%nat.
Proof.
  intros Hc Hr. pose proof (countm_update (λ c, is_open c && P c) claims c cl (set_result r cl) Hc) as H.
  cbv beta in H. rewrite (is_open_None cl) in H by done. exact H.
Qed.

Lemma open_none P claims c cl :
  open_where P claims = 0%nat → claims !! c = Some cl → cl_result cl = None → P cl = false.
Proof. intros H0 Hc Hr. pose proof (countm_none _ _ _ _ H0 Hc) as H. cbv beta in H.
  by rewrite is_open_None in H. Qed.

Lemma open_zero P claims :
  (∀ c cl, claims !! c = Some cl → cl_result cl = None → P cl = false) → open_where P claims = 0%nat.
Proof.
  intros H. apply countm_zero. intros c cl Hc. unfold is_open. case_bool_decide as Hr; [|done].
  by rewrite (H c cl).
Qed.

Lemma open_ext P Q claims :
  (∀ c cl, claims !! c = Some cl → cl_result cl = None → P cl = Q cl) →
  open_where P claims = open_where Q claims.
Proof.
  intros H. apply countm_ext. intros c cl Hc. unfold is_open. case_bool_decide as Hr; [|done].
  by rewrite (H c cl).
Qed.

(** ** The structural invariant *)

Definition win_at (s : limits_state) (class : RequestClass) (org : string) : option nat :=
  default ∅ (mg_windows (ls_manager s) !! class) !! org.

Record window_ok (m : Manager) (claims : gmap nat Claim) (p : nat) (w : usageWindow) : Prop := {
  wo_running : ∀ key, runs_of w key = Z.of_nat (open_where (of_key p key) claims);
  wo_positive : ∀ key n, uw_running w !! key = Some n → 0 < n;
  wo_size : Z.of_nat (size (uw_credentials w)) ≤ mg_maxCredentials m;
  wo_tracked : ∀ key, is_Some (uw_credentials w !! key) ↔
    is_Some (uw_touched w !! key) ∨ is_Some (uw_running w !! key);
  wo_quota : ∀ key, is_Some (uw_quotaCredential w !! key) → is_Some (uw_credentials w !! key);
  wo_counts : uc_Admitted (uw_org w)
              = uc_Completed (uw_org w) + Z.of_nat (open_where (of_window p) claims);
}.

Record limits_ok (s : limits_state) : Prop := {
  lo_window : ∀ class org p, win_at s class org = Some p →
    ∃ w, ls_heap s !! p = Some w ∧ window_ok (ls_manager s) (ls_claims s) p w;
  lo_own : ∀ class org class' org' p, win_at s class org = Some p → win_at s class' org' = Some p →
    class' = class ∧ org' = org;
  lo_claim : ∀ c cl, ls_claims s !! c = Some cl → cl_result cl = None →
    win_at s (cl_class cl) (sj_OrgID (cl_subject cl)) = Some (cl_window cl);
  lo_inflight : ∀ org, inflight_of (ls_manager s) org = Z.of_nat (open_where (of_org org) (ls_claims s));
  lo_positive : ∀ org n, mg_inflight (ls_manager s) !! org = Some n → 0 < n;
  lo_orgs : ∀ class, Z.of_nat (size (default ∅ (mg_windows (ls_manager s) !! class)))
                     ≤ mg_maxOrganizations (ls_manager s);
  lo_concurrency : ∀ org, 0 < mg_concurrency (ls_manager s) →
    inflight_of (ls_manager s) org ≤ mg_concurrency (ls_manager s);
}.

(** The parts of a state no operation changes. *)
Record same_config (m m' : Manager) : Prop := {
  sc_policies : mg_policies m' = mg_policies m;
  sc_concurrency : mg_concurrency m' = mg_concurrency m;
  sc_orgs : mg_maxOrganizations m' = mg_maxOrganizations m;
  sc_creds : mg_maxCredentials m' = mg_maxCredentials m;
  sc_retention : mg_retention m' = mg_retention m;
  sc_retry : mg_maxRetry m' = mg_maxRetry m;
  sc_wait : mg_concurrencyRetry m' = mg_concurrencyRetry m;
}.

(** ** The rate invariant *)

(** One past admission. *)
Record admission := Admission {
  ad_time : time;
  ad_class : RequestClass;
  ad_org : string;
  ad_key : string;
}.

Definition in_org (class : RequestClass) (org : string) (a : admission) : bool :=
  bool_decide (ad_class a = class) && bool_decide (ad_org a = org).
Definition in_key (class : RequestClass) (org key : string) (a : admission) : bool :=
  in_org class org a && bool_decide (ad_key a = key).

(** How many admissions of a kind fall in [lo, hi). *)
Definition countb (f : admission → bool) (log : list admission) : Z :=
  Z.of_nat (length (List.filter f log)).
Definition during (lo hi : time) (a : admission) : bool := (lo <=? ad_time a) && (ad_time a <? hi).
Definition admitted_in (kind : admission → bool) (log : list admission) (lo hi : time) : Z :=
  countb (λ a, kind a && during lo hi a) log.

(** What a quota window that started at [qs] and counted [n] says of the log. *)
Record period (kind : admission → bool) (W L : Z) (log : list admission) (qs n : Z) : Prop := {
  pe_count : ∀ hi, admitted_in kind log qs hi ≤ n;
  pe_limit : 0 < L → n ≤ L;
  pe_before : 0 < L → admitted_in kind log (qs - W + 1) qs ≤ L;
  pe_end : ∀ a, a ∈ log → kind a = true → ad_time a < qs + W;
}.

Record rate_window (m : Manager) (policy : quotaPolicy) (class : RequestClass) (org : string)
    (log : list admission) (now : time) (w : usageWindow) : Prop := {
  rw_started : uw_quotaStarted w ≤ now;
  rw_last : uw_lastTouched w ≤ now;
  rw_entries : ∀ a, a ∈ log → in_org class org a = true → ad_time a ≤ uw_lastTouched w;
  rw_org : period (in_org class org) (qp_Window policy) (qp_PerOrgLimit policy) log
             (uw_quotaStarted w) (uw_quotaOrg w);
  rw_key : ∀ key, period (in_key class org key) (qp_Window policy) (qp_PerCredentialLimit policy) log
             (uw_quotaStarted w) (quota_of w key);
  rw_touched : ∀ key t, uw_touched w !! key = Some t → t ≤ now;
  rw_seen : ∀ a, a ∈ log → in_org class org a = true →
    ad_time a + qp_Window policy ≤ now ∨ is_Some (uw_running w !! ad_key a) ∨
    ∃ t, uw_touched w !! ad_key a = Some t ∧ ad_time a ≤ t;
}.

Record rate_ok (log : list admission) (now : time) (s : limits_state) : Prop := {
  ra_past : ∀ a, a ∈ log → ad_time a ≤ now;
  ra_window : ∀ class policy org,
    PolicySet_policy (mg_policies (ls_manager s)) class = Ok policy → 0 < qp_Window policy →
    match win_at s class org with
    | None => ∀ a, a ∈ log → in_org class org a = true → ad_time a + qp_Window policy ≤ now
    | Some p => ∀ w, ls_heap s !! p = Some w →
        rate_window (ls_manager s) policy class org log now w
    end;
}.

(** *** Counting admissions *)

Lemma countb_cons f a log : countb f (a :: log) = (if f a then 1 else 0) + countb f log.
Proof. unfold countb. cbn. destruct (f a); cbn; lia. Qed.

Lemma countb_nonneg f log : 0 ≤ countb f log.
Proof. unfold countb. lia. Qed.

Lemma countb_le f g log :
  (∀ a, a ∈ log → f a = true → g a = true) → countb f log ≤ countb g log.
Proof.
  induction log as [|a log IH]; [done|]. intros H. rewrite !countb_cons.
  assert (countb f log ≤ countb g log) by (apply IH; intros x ?; apply H; by right).
  destruct (f a) eqn:E; [rewrite (H a) by (done || left)|destruct (g a)]; lia.
Qed.

Lemma countb_split f g h log :
  (∀ a, a ∈ log → f a = true → g a = true ∨ h a = true) → countb f log ≤ countb g log + countb h log.
Proof.
  induction log as [|a log IH]; [done|]. intros H. rewrite !countb_cons.
  assert (countb f log ≤ countb g log + countb h log) by (apply IH; intros x ?; apply H; by right).
  destruct (f a) eqn:E; [|destruct (g a), (h a); lia].
  destruct (H a) as [->| ->]; [left|done|destruct (h a); lia|destruct (g a); lia].
Qed.

Lemma countb_none f log : (∀ a, a ∈ log → f a = false) → countb f log = 0.
Proof.
  intros H. pose proof (countb_nonneg f log). enough (countb f log ≤ countb (λ _, false) log) as Hle.
  { assert (countb (λ _, false) log = 0) as E; [|lia]. clear. unfold countb. by induction log. }
  apply countb_le. intros a Ha E. by rewrite H in E.
Qed.

(** *** Periods *)

Section periods.
Context (kind : admission → bool) (W L : Z).

(** A new admission inside the period. *)
Lemma period_admit log qs n a :
  period kind W L log qs n → qs ≤ ad_time a → ad_time a < qs + W → (0 < L → n < L) →
  period kind W L (a :: log) qs (n + 1).
Proof.
  intros [Hc Hl Hb He] H1 H2 Hn. split.
  - intros hi. unfold admitted_in. rewrite countb_cons. specialize (Hc hi). unfold admitted_in in Hc.
    destruct (kind a && _); lia.
  - intros HL. specialize (Hn HL). lia.
  - intros HL. unfold admitted_in. rewrite countb_cons.
    replace (during _ _ a) with false by (unfold during; lia). rewrite andb_false_r. by apply Hb.
  - intros x [->|Hx]%elem_of_cons Hk; [done|by apply He].
Qed.

(** A new admission of another kind. *)
Lemma period_other log qs n a :
  period kind W L log qs n → kind a = false → period kind W L (a :: log) qs n.
Proof.
  intros [Hc Hl Hb He] Hk.
  assert (∀ lo hi, admitted_in kind (a :: log) lo hi = admitted_in kind log lo hi) as E.
  { intros lo hi. unfold admitted_in. rewrite countb_cons, Hk. cbn. lia. }
  split.
  - intros hi. rewrite E. apply Hc.
  - done.
  - rewrite E. done.
  - intros x [->|Hx]%elem_of_cons Hx'; [congruence|by apply He].
Qed.

(** A period that is over gives way to one that starts now. *)
Lemma period_reset log qs n now :
  0 < W → period kind W L log qs n → qs + W ≤ now → period kind W L log now 0.
Proof.
  intros HW [Hc Hl Hb He] Hnow. split.
  - intros hi. unfold admitted_in. rewrite countb_none; [done|]. intros a Ha.
    destruct (kind a) eqn:Ek; [|done]. specialize (He a Ha Ek). unfold during. lia.
  - lia.
  - intros HL. transitivity (admitted_in kind log qs (qs + W)).
    + unfold admitted_in. apply countb_le. intros a Ha [Hk Hd]%andb_true_iff. rewrite Hk. cbn.
      specialize (He a Ha Hk). unfold during in *. lia.
    + specialize (Hc (qs + W)). specialize (Hl HL). lia.
  - intros a Ha Hk. specialize (He a Ha Hk). lia.
Qed.

(** A first period: every past admission is a window away. *)
Lemma period_fresh log now :
  0 < W → (∀ a, a ∈ log → kind a = true → ad_time a + W ≤ now) → period kind W L log now 0.
Proof.
  intros HW Hpast. split.
  - intros hi. unfold admitted_in. rewrite countb_none; [done|]. intros a Ha.
    destruct (kind a) eqn:Ek; [|done]. specialize (Hpast a Ha Ek). unfold during. lia.
  - lia.
  - intros HL. unfold admitted_in. rewrite countb_none; [lia|]. intros a Ha.
    destruct (kind a) eqn:Ek; [|done]. specialize (Hpast a Ha Ek). unfold during. lia.
  - intros a Ha Hk. specialize (Hpast a Ha Hk). lia.
Qed.

(** A subject none of whose admissions are in the period starts from zero. *)
Lemma period_forget log qs n :
  period kind W L log qs n → (∀ a, a ∈ log → kind a = true → ad_time a < qs) → 0 ≤ L →
  period kind W L log qs 0.
Proof.
  intros [Hc Hl Hb He] Hpast HL. split; [|lia|done|done].
  intros hi. unfold admitted_in. rewrite countb_none; [done|]. intros a Ha.
  destruct (kind a) eqn:Ek; [|done]. specialize (Hpast a Ha Ek). unfold during. lia.
Qed.

(** The sliding bound: any interval of the window's length. *)
Lemma period_slide log qs n lo now :
  0 < L → period kind W L log qs n → (∀ a, a ∈ log → ad_time a ≤ now) → qs ≤ now → now < qs + W →
  now < lo + W → admitted_in kind log lo (lo + W) ≤ 2 * L.
Proof.
  intros HL [Hc Hl Hb He] Hpast H1 H2 H3.
  transitivity (admitted_in kind log (qs - W + 1) qs + admitted_in kind log qs (now + 1)).
  - unfold admitted_in. apply countb_split. intros a Ha [Hk Hd]%andb_true_iff. rewrite Hk. cbn.
    specialize (Hpast a Ha). unfold during in *.
    destruct (ad_time a <? qs) eqn:E; [left|right]; lia.
  - specialize (Hb HL). specialize (Hl HL). specialize (Hc (now + 1)). lia.
Qed.
End periods.

(** ** Elementary changes *)

Lemma win_at_store s p w class org : win_at (store_window p w s) class org = win_at s class org.
Proof. done. Qed.

Lemma win_at_byOrg s class byOrg class' org :
  win_at (set_byOrg class byOrg s) class' org
  = if decide (class' = class) then byOrg !! org else win_at s class' org.
Proof.
  unfold win_at. cbn. case_decide as Hc.
  - subst. by rewrite lookup_insert_eq.
  - by rewrite lookup_insert_ne.
Qed.

(** Creating an absent class map changes nothing. *)
Lemma win_at_touch s class class' org :
  win_at (set_byOrg class (default ∅ (mg_windows (ls_manager s) !! class)) s) class' org
  = win_at s class' org.
Proof. rewrite win_at_byOrg. case_decide; by subst. Qed.

Lemma size_byOrg s class byOrg class' :
  default ∅ (mg_windows (ls_manager (set_byOrg class byOrg s)) !! class')
  = if decide (class' = class) then byOrg else default ∅ (mg_windows (ls_manager s) !! class').
Proof.
  cbn. case_decide as Hc.
  - subst. by rewrite lookup_insert_eq.
  - by rewrite lookup_insert_ne.
Qed.

(** The invariants read a state through [win_at], the heap and the counts. *)
Definition same_view (s s' : limits_state) : Prop :=
  (∀ class org, win_at s' class org = win_at s class org) ∧
  (∀ class, size (default ∅ (mg_windows (ls_manager s') !! class))
            = size (default ∅ (mg_windows (ls_manager s) !! class))) ∧
  ls_heap s' = ls_heap s ∧ ls_claims s' = ls_claims s ∧
  mg_inflight (ls_manager s') = mg_inflight (ls_manager s) ∧ same_config (ls_manager s) (ls_manager s').

Lemma window_ok_config m m' claims p w : same_config m m' → window_ok m claims p w → window_ok m' claims p w.
Proof. intros [_ _ _ E _ _ _] [? ? ? ? ? ?]. split; try done. by rewrite E. Qed.

Lemma rate_window_config m m' policy class org log now w :
  rate_window m policy class org log now w → rate_window m' policy class org log now w.
Proof. by intros [? ? ? ? ? ? ?]; split. Qed.

Lemma limits_ok_view s s' : same_view s s' → limits_ok s → limits_ok s'.
Proof.
  intros (Hw & Hsz & Hh & Hc & Hi & Hcfg) [W O C I P S N]. pose proof Hcfg as [? Ec Eo ? ? ? ?].
  split.
  - intros class org p Hp. rewrite Hw in Hp. destruct (W _ _ _ Hp) as (w & ? & Hok). exists w.
    rewrite Hh, Hc. split; [done|]. by eapply window_ok_config.
  - intros class org class' org' p. rewrite !Hw. apply O.
  - intros c cl. rewrite Hc, Hw. apply C.
  - intros org. unfold inflight_of. rewrite Hi, Hc. apply I.
  - intros org n. rewrite Hi. apply P.
  - intros class. rewrite Hsz, Eo. apply S.
  - intros org. unfold inflight_of. rewrite Hi, Ec. apply N.
Qed.

Lemma rate_ok_view log now s s' : same_view s s' → rate_ok log now s → rate_ok log now s'.
Proof.
  intros (Hw & _ & Hh & _ & _ & [Ep _ _ _ _ _ _]) [A R]. split; [done|].
  intros class policy org. rewrite Ep, Hw. intros Hp HW. specialize (R class policy org Hp HW).
  destruct (win_at s class org); [|done]. intros w. rewrite Hh. intros Hw'.
  eapply rate_window_config. by apply R.
Qed.

Lemma same_config_refl m : same_config m m.
Proof. by split. Qed.
Lemma same_config_trans m1 m2 m3 : same_config m1 m2 → same_config m2 m3 → same_config m1 m3.
Proof. intros [] []. split; congruence. Qed.

(** *** Time passes *)

Lemma rate_window_later m policy class org log now now' w :
  now ≤ now' → rate_window m policy class org log now w → rate_window m policy class org log now' w.
Proof.
  intros Hle [Hs Hl He Ho Hk Ht Hn]. split; try done; try lia.
  - intros key t Hkt. specialize (Ht key t Hkt). lia.
  - intros a Ha Hin. destruct (Hn a Ha Hin) as [?|?]; [left; lia|by right].
Qed.

Lemma rate_ok_later log now now' s : now ≤ now' → rate_ok log now s → rate_ok log now' s.
Proof.
  intros Hle [A R]. split.
  - intros a Ha. specialize (A a Ha). lia.
  - intros class policy org Hp HW. specialize (R class policy org Hp HW).
    destruct (win_at s class org).
    + intros w Hw. eapply rate_window_later; [done|]. by apply R.
    + intros a Ha Hin. specialize (R a Ha Hin). lia.
Qed.

(** *** One window rewritten *)

Lemma store_window_ok s class org p w :
  limits_ok s → win_at s class org = Some p → window_ok (ls_manager s) (ls_claims s) p w →
  limits_ok (store_window p w s).
Proof.
  intros [W O C I P S N] Hp Hok. split; cbn; try done.
  intros class' org' p' Hp'. rewrite win_at_store in Hp'. destruct (decide (p' = p)) as [->|Hne].
  - exists w. by rewrite lookup_insert_eq.
  - destruct (W _ _ _ Hp') as (w' & ? & ?). exists w'. by rewrite lookup_insert_ne.
Qed.

Lemma store_window_rate log now s class org p w :
  limits_ok s → rate_ok log now s → win_at s class org = Some p →
  (∀ policy, PolicySet_policy (mg_policies (ls_manager s)) class = Ok policy → 0 < qp_Window policy →
     rate_window (ls_manager s) policy class org log now w) →
  rate_ok log now (store_window p w s).
Proof.
  intros Hok [A R] Hp Hw. split; [done|]. intros class' policy org' Hpol HW. rewrite win_at_store.
  specialize (R class' policy org' Hpol HW). destruct (win_at s class' org') as [p'|] eqn:Hp'; [|done].
  intros w'. cbn. destruct (decide (p' = p)) as [->|Hne].
  - rewrite lookup_insert_eq. intros [= <-]. destruct (lo_own _ Hok _ _ _ _ _ Hp Hp') as [-> ->].
    by apply Hw.
  - rewrite lookup_insert_ne by done. apply R.
Qed.

(** *** Sweeping *)

Lemma win_at_sweep s now class org p :
  win_at (sweep now s) class org = Some p ↔
  win_at s class org = Some p ∧
  ∀ policy, PolicySet_policy (mg_policies (ls_manager s)) class = Ok policy →
    (inflight_of (ls_manager s) org =? 0) &&
    match ls_heap s !! p with None => false | Some w => expired (ls_manager s) w policy now end = false.
Proof.
  unfold win_at. cbn. rewrite map_lookup_imap.
  destruct (mg_windows (ls_manager s) !! class) as [byOrg|]; cbn; [|naive_solver].
  unfold sweep_class. destruct (PolicySet_policy _ class) as [policy| |]; [|naive_solver..].
  rewrite map_lookup_filter_Some. cbn. naive_solver.
Qed.

Lemma sweep_size s now class :
  (size (default ∅ (mg_windows (ls_manager (sweep now s)) !! class))
   ≤ size (default ∅ (mg_windows (ls_manager s) !! class)))%nat.
Proof.
  cbn. rewrite map_lookup_imap. destruct (mg_windows (ls_manager s) !! class) as [byOrg|]; cbn; [|done].
  unfold sweep_class. destruct (PolicySet_policy _ class); [|done..]. apply map_size_filter.
Qed.

Lemma sweep_ok s now : limits_ok s → limits_ok (sweep now s).
Proof.
  intros [W O C I P S N]. split.
  - intros class org p [Hp _]%win_at_sweep. destruct (W _ _ _ Hp) as (w & Hw & Hok). exists w.
    split; [done|]. apply (window_ok_config (ls_manager s)); [by split|done].
  - intros class org class' org' p [Hp _]%win_at_sweep [Hp' _]%win_at_sweep. by eapply O.
  - intros c cl Hc Hr. apply win_at_sweep. split; [by eapply C|]. intros policy _.
    apply andb_false_intro1, Z.eqb_neq. rewrite I. intros H0.
    assert (open_where (of_org (sj_OrgID (cl_subject cl))) (ls_claims s) = 0%nat) as E by lia.
    eapply open_none in E; [|done..]. unfold of_org in E. by rewrite bool_decide_true in E.
  - exact I.
  - exact P.
  - intros class. specialize (S class). pose proof (sweep_size s now class). cbn [ls_manager] in *.
    change (mg_maxOrganizations (ls_manager (sweep now s))) with (mg_maxOrganizations (ls_manager s)). lia.
  - exact N.
Qed.

Lemma sweep_rate log now s : limits_ok s → rate_ok log now s → rate_ok log now (sweep now s).
Proof.
  intros Hok [A R]. split; [done|]. intros class policy org Hpol HW. cbn in Hpol.
  specialize (R class policy org Hpol HW).
  destruct (win_at (sweep now s) class org) as [p|] eqn:Hp.
  - apply win_at_sweep in Hp as [Hp _]. rewrite Hp in R. intros w Hw. eapply rate_window_config. by apply R.
  - destruct (win_at s class org) as [p|] eqn:Hp0; [|done].
    destruct (lo_window _ Hok _ _ _ Hp0) as (w & Hw & _). destruct (R w Hw) as [_ _ He _ _ _ _].
    assert (expired (ls_manager s) w policy now = true) as Hexp.
    { destruct (expired (ls_manager s) w policy now) eqn:E; [done|]. exfalso.
      assert (win_at (sweep now s) class org = Some p); [|congruence]. apply win_at_sweep.
      split; [done|]. intros policy' Hpol'. assert (policy' = policy) as -> by congruence.
      rewrite Hw, E. apply andb_false_r. }
    intros a Ha Hin. specialize (He a Ha Hin). unfold expired, time_Before, time_Add, retentionOf in Hexp.
    apply negb_true_iff, bool_decide_eq_false in Hexp. unfold time, duration in *. lia.
Qed.

(** *** A first window *)

Lemma new_window_ok m claims p now :
  0 ≤ mg_maxCredentials m → (∀ c cl, claims !! c = Some cl → cl_result cl = None → cl_window cl ≠ p) →
  window_ok m claims p (new_window now).
Proof.
  intros Hmax Hp.
  assert (∀ P, (∀ c, P c = true → of_window p c = true) → open_where P claims = 0%nat) as H0.
  { intros P HP. apply open_zero. intros c cl Hc Hr. destruct (P cl) eqn:E; [|done].
    apply HP, bool_decide_eq_true in E. by destruct (Hp c cl Hc Hr). }
  split; cbn.
  - intros key. unfold runs_of. cbn. rewrite lookup_empty. cbn. rewrite H0; [done|].
    intros c. unfold of_key. by intros [? _]%andb_true_iff.
  - done.
  - by rewrite map_size_empty.
  - intros key. rewrite !lookup_empty. split; [by intros []|by intros [[]|[]]].
  - intros key. rewrite !lookup_empty. by intros [].
  - rewrite H0; [done|]. done.
Qed.

Lemma new_window_rate m policy class org log now :
  0 < qp_Window policy →
  (∀ a, a ∈ log → in_org class org a = true → ad_time a + qp_Window policy ≤ now) →
  rate_window m policy class org log now (new_window now).
Proof.
  intros HW Hpast. split; cbn; try done.
  - intros a Ha Hin. specialize (Hpast a Ha Hin). lia.
  - by apply period_fresh.
  - intros key. apply period_fresh; [done|]. intros a Ha [Hin _]%andb_true_iff. by apply Hpast.
  - intros a Ha Hin. left. by apply Hpast.
Qed.

Definition add_window (class : RequestClass) (org : string) (now : time) (s : limits_state) : limits_state :=
  let p := fresh (dom (ls_heap s)) in
  set_byOrg class (<[org := p]> (default ∅ (mg_windows (ls_manager s) !! class)))
    (store_window p (new_window now) s).

Lemma win_at_add class org now s class' org' :
  win_at (add_window class org now s) class' org'
  = if decide (class' = class ∧ org' = org) then Some (fresh (dom (ls_heap s))) else win_at s class' org'.
Proof.
  unfold add_window. rewrite win_at_byOrg. repeat case_decide; destruct_and?; subst; try done.
  - by rewrite lookup_insert_eq.
  - rewrite lookup_insert_ne by naive_solver. done.
Qed.

Lemma add_window_ok class org now s :
  limits_ok s → win_at s class org = None → 0 ≤ mg_maxCredentials (ls_manager s) →
  Z.of_nat (size (default ∅ (mg_windows (ls_manager s) !! class))) < mg_maxOrganizations (ls_manager s) →
  limits_ok (add_window class org now s).
Proof.
  intros [W O C I P S N] Hnone Hmax Hroom. set (p := fresh (dom (ls_heap s))).
  assert (ls_heap s !! p = None) as Hfresh by (apply not_elem_of_dom, is_fresh).
  assert (∀ class' org', win_at s class' org' ≠ Some p) as Hnp.
  { intros class' org' Hp. destruct (W _ _ _ Hp) as (w & Hw & _). congruence. }
  split; cbn.
  - intros class' org' p'. rewrite win_at_add. case_decide as Hd.
    + intros [= <-]. exists (new_window now). fold p. rewrite lookup_insert_eq. split; [done|].
      apply (window_ok_config (ls_manager s)); [by split|]. apply new_window_ok; [done|].
      intros c cl Hc Hr <-. eapply Hnp. by eapply C.
    + intros Hp'. destruct (W _ _ _ Hp') as (w & Hw & Hok). exists w.
      assert (p ≠ p') by congruence. rewrite lookup_insert_ne by done. split; [done|].
      apply (window_ok_config (ls_manager s)); [by split|done].
  - intros class1 org1 class2 org2 p'. rewrite !win_at_add. repeat case_decide; destruct_and?; subst; try done.
    + intros [= <-] Hp'. by apply Hnp in Hp'.
    + intros Hp' [= <-]. by apply Hnp in Hp'.
    + by apply O.
  - intros c cl Hc Hr. rewrite win_at_add. case_decide as Hd; [|by eapply C].
    destruct Hd as [E1 E2]. specialize (C c cl Hc Hr). rewrite E1, E2 in C. congruence.
  - exact I.
  - exact P.
  - intros class'. destruct (decide (class' = class)) as [->|].
    + rewrite lookup_insert_eq. cbn. rewrite map_size_insert_None by done. lia.
    + rewrite lookup_insert_ne by done. apply S.
  - exact N.
Qed.

Lemma add_window_rate log class org now s :
  limits_ok s → rate_ok log now s → win_at s class org = None → rate_ok log now (add_window class org now s).
Proof.
  intros Hok [A R] Hnone. split; [done|]. intros class' policy org' Hpol HW. rewrite win_at_add.
  specialize (R class' policy org' Hpol HW). set (p := fresh (dom (ls_heap s))).
  assert (ls_heap s !! p = None) as Hfresh by (apply not_elem_of_dom, is_fresh).
  case_decide as Hd.
  - destruct Hd as [-> ->]. rewrite Hnone in R. intros w. cbn. rewrite lookup_insert_eq. intros [= <-].
    by apply new_window_rate.
  - destruct (win_at s class' org') as [p'|] eqn:Hp'; [|done]. intros w. cbn.
    destruct (lo_window _ Hok _ _ _ Hp') as (w' & Hw' & _).
    assert (p ≠ p') by congruence. rewrite lookup_insert_ne by done. intros Hw. eapply rate_window_config. by apply R.
Qed.

(** *** A quota period ends *)

Lemma reset_window_ok m claims p w now : window_ok m claims p w → window_ok m claims p (reset_quota now w).
Proof.
  intros [R P Z T Q C]. split; cbn; try done.
  intros key. rewrite lookup_empty. by intros [].
Qed.

Lemma reset_rate m policy class org log now w :
  0 < qp_Window policy → uw_quotaStarted w + qp_Window policy ≤ now →
  rate_window m policy class org log now w → rate_window m policy class org log now (reset_quota now w).
Proof.
  intros HW Hover [Hs Hl He Ho Hk Ht Hn]. split; cbn; try done.
  - by eapply period_reset.
  - intros key. unfold quota_of. cbn. rewrite lookup_empty. cbn. by eapply period_reset.
Qed.

(** *** Idle subjects are forgotten *)

Lemma idle_runs m claims p w retention now key :
  window_ok m claims p w → idle w retention now key = true →
  uw_running w !! key = None ∧ ∃ t, uw_touched w !! key = Some t ∧ t + retention ≤ now.
Proof.
  intros Hok. unfold idle. destruct (uw_touched w !! key) as [t|] eqn:Ht; [|done].
  intros [Hr Hb]%andb_true_iff. apply Z.leb_le in Hr.
  apply negb_true_iff, bool_decide_eq_false in Hb. unfold time_Add in Hb. split.
  - destruct (uw_running w !! key) as [n|] eqn:E; [|done].
    pose proof (wo_positive _ _ _ _ Hok _ _ E). unfold runs_of in Hr. rewrite E in Hr. cbn in Hr. lia.
  - exists t. split; [done|]. unfold time, duration in *. lia.
Qed.

Lemma lookup_stays {A} w retention now (m : gmap string A) key :
  filter (stays w retention now) m !! key = if idle w retention now key then None else m !! key.
Proof.
  destruct (m !! key) as [x|] eqn:E.
  - destruct (idle w retention now key) eqn:Ei.
    + apply map_lookup_filter_None. right. intros y _. unfold stays. cbn. by rewrite Ei.
    + apply map_lookup_filter_Some. by split.
  - rewrite (proj2 (map_lookup_filter_None _ _ _)) by (by left). by destruct (idle _ _ _ _).
Qed.

Lemma forget_window_ok m claims p policy now w :
  window_ok m claims p w → window_ok m claims p (forgetIdle m policy now w).
Proof.
  intros Hok. unfold forgetIdle. destruct (time_Before _ _); [done|].
  pose proof Hok as [R P Z T Q C]. split; cbn; try done.
  - pose proof (map_size_filter (stays w (retentionOf m policy) now) (uw_credentials w)). lia.
  - intros key. rewrite !lookup_stays. destruct (idle _ _ _ _) eqn:Ei; [|apply T].
    eapply idle_runs in Ei as [-> _]; [|done]. split; [by intros []|by intros [[]|[]]].
  - intros key. rewrite !lookup_stays. destruct (idle _ _ _ _) eqn:Ei; [by intros []|apply Q].
Qed.

Lemma forget_rate m claims p policy class org log now w :
  window_ok m claims p w → 0 < qp_Window policy → 0 ≤ qp_PerCredentialLimit policy →
  now < uw_quotaStarted w + qp_Window policy →
  rate_window m policy class org log now w →
  rate_window m policy class org log now (forgetIdle m policy now w).
Proof.
  intros Hok HW HL Hnow Hrw. unfold forgetIdle. destruct (time_Before _ _); [done|].
  set (ret := retentionOf m policy). assert (qp_Window policy ≤ ret) as Hret by (unfold ret, retentionOf; lia).
  destruct Hrw as [Hs Hl He Ho Hk Ht Hn].
  assert (∀ a, a ∈ log → in_org class org a = true → idle w ret now (ad_key a) = true →
    ad_time a + qp_Window policy ≤ now) as Hidle.
  { intros a Ha Hin Hi. eapply idle_runs in Hi as [Hr (t & Htk & Hle)]; [|done].
    destruct (Hn a Ha Hin) as [?|[[n Hrun]|(t' & Ht' & ?)]]; [done|congruence|].
    assert (t' = t) as -> by congruence. lia. }
  split; cbn; try done.
  - intros key. unfold quota_of. cbn. rewrite lookup_stays. destruct (idle _ _ _ _) eqn:Ei; [|apply Hk].
    cbn. eapply period_forget; [apply Hk| |done]. intros a Ha [Hin Hak]%andb_true_iff.
    apply bool_decide_eq_true in Hak. subst key. specialize (Hidle a Ha Hin Ei). lia.
  - intros key t. rewrite lookup_stays. destruct (idle _ _ _ _); [done|apply Ht].
  - intros a Ha Hin. rewrite lookup_stays. destruct (idle _ _ _ _) eqn:Ei; [left; by apply Hidle|by apply Hn].
Qed.

(** *** A refusal is counted *)

Lemma size_insert_room {A} (m : gmap string A) key x max :
  is_Some (m !! key) ∨ Z.of_nat (size m) < max → Z.of_nat (size m) ≤ max →
  Z.of_nat (size (<[key := x]> m)) ≤ max.
Proof. rewrite map_size_insert. destruct (m !! key); [done|]. intros [[]|?]; [done|lia]. Qed.

Lemma insert_is_Some {A} (m : gmap string A) key x k : is_Some (<[key := x]> m !! k) ↔ k = key ∨ is_Some (m !! k).
Proof.
  destruct (decide (k = key)) as [->|Hne].
  - rewrite lookup_insert_eq. split; [by left|eauto].
  - rewrite lookup_insert_ne by done. naive_solver.
Qed.

Lemma denied_window_ok m claims p key now w :
  window_ok m claims p w →
  is_Some (uw_credentials w !! key) ∨ Z.of_nat (size (uw_credentials w)) < mg_maxCredentials m →
  window_ok m claims p (window_denied key now w).
Proof.
  intros [R P Z T Q C] Hroom. split; cbn; try done.
  - by apply size_insert_room.
  - intros k. unfold seen_touched. rewrite !insert_is_Some, T. tauto.
  - intros k Hk. rewrite insert_is_Some. right. by apply Q.
Qed.

Lemma seen_rate m policy class org log now w key w' :
  rate_window m policy class org log now w →
  uw_quotaStarted w' = uw_quotaStarted w → uw_lastTouched w' = now → uw_quotaOrg w' = uw_quotaOrg w →
  uw_quotaCredential w' = uw_quotaCredential w → uw_touched w' = <[key := now]> (uw_touched w) →
  (∀ k, k ≠ key → is_Some (uw_running w !! k) → is_Some (uw_running w' !! k)) →
  (∀ a, a ∈ log → ad_time a ≤ now) →
  rate_window m policy class org log now w'.
Proof.
  intros [Hs Hl He Ho Hk Ht Hn] E1 E2 E3 E4 E5 Hrun Hpast. split.
  - by rewrite E1.
  - by rewrite E2.
  - intros a Ha _. rewrite E2. by apply Hpast.
  - by rewrite E1, E3.
  - intros k. unfold quota_of. rewrite E1, E4. apply Hk.
  - intros k t. rewrite E5. intros [[<- <-]|[_ Hkt]]%lookup_insert_Some; [done|by eapply Ht].
  - intros a Ha Hin. rewrite E5. destruct (decide (ad_key a = key)) as [->|Hne].
    + right. right. exists now. rewrite lookup_insert_eq. split; [done|]. by apply Hpast.
    + rewrite lookup_insert_ne by done. destruct (Hn a Ha Hin) as [?|[?|?]]; [by left| |by right; right].
      right. left. by apply Hrun.
Qed.

(** *** A claim is admitted *)

Lemma other_window_add m claims c cl p w :
  window_ok m claims p w → claims !! c = None → cl_result cl = None → cl_window cl ≠ p →
  window_ok m (<[c := cl]> claims) p w.
Proof.
  intros [R P Z T Q C] Hc Hr Hne.
  assert (of_window p cl = false) as Ew by (by apply bool_decide_eq_false).
  split; try done.
  - intros key. rewrite R, open_add by done. unfold of_key. by rewrite Ew.
  - rewrite C, open_add by done. by rewrite Ew.
Qed.

Lemma other_window_close m claims c cl r p w :
  window_ok m claims p w → claims !! c = Some cl → cl_result cl = None → cl_window cl ≠ p →
  window_ok m (<[c := set_result r cl]> claims) p w.
Proof.
  intros [R P Z T Q C] Hc Hr Hne.
  assert (of_window p cl = false) as Ew by (by apply bool_decide_eq_false).
  split; try done.
  - intros key. rewrite R, (open_close _ claims c cl r) by done. unfold of_key. by rewrite Ew.
  - rewrite C, (open_close _ claims c cl r) by done. by rewrite Ew.
Qed.

Lemma admit_window_ok m claims c class subject p budget now w :
  let key := Subject_key subject in
  window_ok m claims p w → claims !! c = None →
  is_Some (uw_credentials w !! key) ∨ Z.of_nat (size (uw_credentials w)) < mg_maxCredentials m →
  window_ok m (<[c := ClaimOf class subject p budget None]> claims) p (window_admit key now w).
Proof.
  intros key [R P Z T Q C] Hc Hroom.
  assert (∀ k, of_key p k (ClaimOf class subject p budget None) = bool_decide (key = k)) as Ek.
  { intros k. unfold of_key, of_window. cbn. by rewrite bool_decide_true. }
  split; cbn.
  - intros k. rewrite open_add by done. rewrite Ek. unfold runs_of. cbn. case_bool_decide as Hk.
    + subst k. rewrite lookup_insert_eq. cbn. rewrite R. lia.
    + rewrite lookup_insert_ne by done. apply R.
  - intros k n [[_ <-]|[_ Hk]]%lookup_insert_Some; [|by eapply P].
    pose proof (R key). lia.
  - by apply size_insert_room.
  - intros k. rewrite !insert_is_Some, T. tauto.
  - intros k. rewrite !insert_is_Some. intros [?|?]; [by left|right]. by apply Q.
  - rewrite open_add by done. unfold of_window at 1. cbn. rewrite bool_decide_true by done. lia.
Qed.

Definition admit_claim (c : nat) (class : RequestClass) (subject : Subject) (p : nat) (budget : ResourceBudget)
    (now : time) (w : usageWindow) (s : limits_state) : limits_state :=
  store_claim c (ClaimOf class subject p budget None)
    (update_inflight (<[sj_OrgID subject := inflight_of (ls_manager s) (sj_OrgID subject) + 1]>)
       (store_window p (window_admit (Subject_key subject) now w) s)).

Lemma admit_ok c class subject p budget now w s :
  limits_ok s → ls_claims s !! c = None → win_at s class (sj_OrgID subject) = Some p →
  ls_heap s !! p = Some w →
  is_Some (uw_credentials w !! Subject_key subject)
    ∨ Z.of_nat (size (uw_credentials w)) < mg_maxCredentials (ls_manager s) →
  (0 < mg_concurrency (ls_manager s) →
     inflight_of (ls_manager s) (sj_OrgID subject) < mg_concurrency (ls_manager s)) →
  limits_ok (admit_claim c class subject p budget now w s).
Proof.
  intros [W O C I P S N] Hc Hp Hw Hroom Hconc. set (cl := ClaimOf class subject p budget None).
  assert (∀ org, of_org org cl = bool_decide (sj_OrgID subject = org)) as Eo by done.
  split; cbn.
  - intros class' org' p' Hp'. change (win_at s class' org' = Some p') in Hp'.
    destruct (decide (p' = p)) as [->|Hne].
    + exists (window_admit (Subject_key subject) now w). rewrite lookup_insert_eq. split; [done|].
      apply (window_ok_config (ls_manager s)); [by split|]. destruct (W _ _ _ Hp) as (w0 & Hw0 & Hok).
      assert (w0 = w) as -> by congruence. by apply admit_window_ok.
    + destruct (W _ _ _ Hp') as (w' & Hw' & Hok). exists w'. rewrite lookup_insert_ne by done.
      split; [done|]. apply (window_ok_config (ls_manager s)); [by split|]. by apply other_window_add.
  - done.
  - intros k x [[<- <-]|[_ Hk]]%lookup_insert_Some Hr; [exact Hp|by eapply C].
  - intros org. rewrite open_add by done. rewrite Eo. unfold inflight_of. cbn. case_bool_decide as Hd.
    + subst org. rewrite lookup_insert_eq. cbn. pose proof (I (sj_OrgID subject)) as HI.
      unfold inflight_of in HI. lia.
    + rewrite lookup_insert_ne by done. apply I.
  - intros org n [[_ <-]|[_ Hn]]%lookup_insert_Some; [|by eapply P].
    pose proof (I (sj_OrgID subject)). lia.
  - exact S.
  - intros org Hpos. unfold inflight_of. cbn. destruct (decide (org = sj_OrgID subject)) as [->|Hne].
    + rewrite lookup_insert_eq. cbn. specialize (Hconc Hpos). unfold inflight_of in *. lia.
    + rewrite lookup_insert_ne by done. by apply N.
Qed.

Definition entry_of (class : RequestClass) (subject : Subject) (now : time) : admission :=
  Admission now class (sj_OrgID subject) (Subject_key subject).

Lemma admit_rate_window m claims p policy class subject log now w :
  let a := entry_of class subject now in
  window_ok m claims p w → 0 < qp_Window policy →
  rate_window m policy class (sj_OrgID subject) log now w →
  now < uw_quotaStarted w + qp_Window policy →
  (0 < qp_PerOrgLimit policy → uw_quotaOrg w < qp_PerOrgLimit policy) →
  (0 < qp_PerCredentialLimit policy → quota_of w (Subject_key subject) < qp_PerCredentialLimit policy) →
  (∀ b, b ∈ log → ad_time b ≤ now) →
  rate_window m policy class (sj_OrgID subject) (a :: log) now (window_admit (Subject_key subject) now w).
Proof.
  intros a Hok HW [Hs Hl He Ho Hk Ht Hn] Hnow HLo HLk Hpast. split; cbn.
  - done.
  - done.
  - intros b [->|Hb]%elem_of_cons _; [done|by apply Hpast].
  - by apply period_admit.
  - intros key. unfold quota_of at 1. cbn. destruct (decide (key = Subject_key subject)) as [->|Hne].
    + rewrite lookup_insert_eq. cbn. by apply period_admit.
    + rewrite lookup_insert_ne by done. apply period_other; [apply Hk|].
      unfold in_key. rewrite (bool_decide_false (ad_key a = key)) by (cbn; congruence). apply andb_false_r.
  - done.
  - intros b [->|Hb]%elem_of_cons Hin.
    + right. left. cbn. rewrite lookup_insert_eq. eauto.
    + destruct (Hn b Hb Hin) as [?|[?|?]]; [by left| |by right; right].
      right. left. rewrite insert_is_Some. by right.
Qed.

Lemma admit_rate c class policy subject p budget now w s log :
  limits_ok s → rate_ok log now s → win_at s class (sj_OrgID subject) = Some p → ls_heap s !! p = Some w →
  PolicySet_policy (mg_policies (ls_manager s)) class = Ok policy →
  (0 < qp_Window policy → now < uw_quotaStarted w + qp_Window policy) →
  (0 < qp_PerOrgLimit policy → uw_quotaOrg w < qp_PerOrgLimit policy) →
  (0 < qp_PerCredentialLimit policy → quota_of w (Subject_key subject) < qp_PerCredentialLimit policy) →
  rate_ok (entry_of class subject now :: log) now (admit_claim c class subject p budget now w s).
Proof.
  intros Hok [A R] Hp Hw Hpol Hnow HLo HLk. split.
  - intros a [->|Ha]%elem_of_cons; [done|by apply A].
  - intros class' policy' org' Hpol' HW. cbn in Hpol'.
    change (win_at (admit_claim c class subject p budget now w s) class' org') with (win_at s class' org').
    specialize (R class' policy' org' Hpol' HW). destruct (win_at s class' org') as [p'|] eqn:Hp'.
    + intros w'. cbn. destruct (decide (p' = p)) as [->|Hne].
      * rewrite lookup_insert_eq. intros [= <-].
        destruct (lo_own _ Hok _ _ _ _ _ Hp Hp') as [-> ->]. assert (policy' = policy) as -> by congruence.
        destruct (lo_window _ Hok _ _ _ Hp) as (w0 & Hw0 & Hwok). assert (w0 = w) as -> by congruence.
        eapply rate_window_config, admit_rate_window; eauto.
      * rewrite lookup_insert_ne by done. intros Hw'.
        assert (in_org class' org' (entry_of class subject now) = false) as Hother.
        { unfold in_org. cbn. destruct (bool_decide (class = class')) eqn:E1; [|done].
          destruct (bool_decide (sj_OrgID subject = org')) eqn:E2; [|done].
          apply bool_decide_eq_true in E1, E2. subst. congruence. }
        destruct (R w' Hw') as [Hs Hl He Ho Hk Ht Hn]. split; try done.
        -- intros a [->|Ha]%elem_of_cons Hin; [congruence|by apply He].
        -- by apply period_other.
        -- intros key. apply period_other; [done|]. unfold in_key. by rewrite Hother.
        -- intros a [->|Ha]%elem_of_cons Hin; [congruence|by apply Hn].
    + intros a [->|Ha]%elem_of_cons Hin; [|by apply R]. unfold in_org in Hin. cbn in Hin.
      apply andb_true_iff in Hin as [E1%bool_decide_eq_true E2%bool_decide_eq_true]. subst. congruence.
Qed.

(** *** A claim completes *)

Lemma complete_window_ok m claims c cl r p usage accepted now w :
  let key := Subject_key (cl_subject cl) in
  window_ok m claims p w → claims !! c = Some cl → cl_result cl = None → cl_window cl = p →
  window_ok m (<[c := set_result r cl]> claims) p (window_complete key usage accepted now w).
Proof.
  intros key Hok Hc Hr Hp. pose proof Hok as [R P Z T Q C].
  destruct (count_down_spec key (uw_running w) P) as [Hdp Hd].
  assert (of_window p cl = true) as Ew by (by apply bool_decide_eq_true).
  assert (∀ k, of_key p k cl = bool_decide (key = k)) as Ek by (intros k; unfold of_key; by rewrite Ew).
  assert (is_Some (uw_running w !! key)) as Hrun.
  { pose proof (R key) as Rk. rewrite (open_close _ claims c cl r), Ek, bool_decide_true in Rk by done.
    unfold runs_of in Rk. destruct (uw_running w !! key); [eauto|cbn in Rk; lia]. }
  split; cbn.
  - intros k. specialize (R k). rewrite (open_close _ claims c cl r), Ek in R by done.
    unfold runs_of in *. cbn. rewrite Hd. destruct (decide (k = key)) as [->|Hne].
    + rewrite bool_decide_true in R by done. lia.
    + rewrite bool_decide_false in R by done. lia.
  - done.
  - apply size_insert_room; [|done]. left. apply T. by right.
  - intros k. unfold seen_touched. rewrite !insert_is_Some, T. destruct (decide (k = key)) as [->|Hne]; [tauto|].
    assert (is_Some (uw_running w !! k) ↔ is_Some (count_down key (uw_running w) !! k)) as ->; [|tauto].
    unfold count_down. destruct (_ <=? 1); [by rewrite lookup_delete_ne|by rewrite lookup_insert_ne].
  - intros k Hk. rewrite insert_is_Some. right. by apply Q.
  - rewrite (open_close _ claims c cl r), Ew in C by done. unfold count_completed. destruct accepted; cbn; lia.
Qed.

Definition settle (c : nat) (cl : Claim) (r : option gerr) (usage : ResourceUsage) (accepted : bool)
    (now : time) (w : usageWindow) (s : limits_state) : limits_state :=
  update_inflight (count_down (sj_OrgID (cl_subject cl)))
    (store_window (cl_window cl) (window_complete (Subject_key (cl_subject cl)) usage accepted now w)
       (store_claim c (set_result r cl) s)).

Lemma settle_ok c cl r usage accepted now w s :
  limits_ok s → ls_claims s !! c = Some cl → cl_result cl = None →
  ls_heap s !! cl_window cl = Some w →
  limits_ok (settle c cl r usage accepted now w s).
Proof.
  intros [W O C I P S N] Hc Hr Hw. pose proof (C _ _ Hc Hr) as Hp.
  destruct (count_down_spec (sj_OrgID (cl_subject cl)) (mg_inflight (ls_manager s)) P) as [Hdp Hd].
  assert (∀ org, of_org org cl = bool_decide (sj_OrgID (cl_subject cl) = org)) as Eo by done.
  assert (∀ org, inflight_of (ls_manager (settle c cl r usage accepted now w s)) org
    = if decide (org = sj_OrgID (cl_subject cl)) then Z.max 0 (inflight_of (ls_manager s) org - 1)
      else inflight_of (ls_manager s) org) as Hi by (intros org; apply Hd).
  split; cbn.
  - intros class' org' p' Hp'. change (win_at s class' org' = Some p') in Hp'.
    destruct (decide (p' = cl_window cl)) as [->|Hne].
    + eexists. rewrite lookup_insert_eq. split; [done|]. apply (window_ok_config (ls_manager s)); [by split|].
      destruct (W _ _ _ Hp) as (w0 & Hw0 & Hok). assert (w0 = w) as -> by congruence.
      by apply complete_window_ok.
    + destruct (W _ _ _ Hp') as (w' & Hw' & Hok). exists w'. rewrite lookup_insert_ne by done.
      split; [done|]. apply (window_ok_config (ls_manager s)); [by split|]. by apply other_window_close.
  - done.
  - intros k x [[<- <-]|[_ Hk]]%lookup_insert_Some Hx; [done|by eapply C].
  - intros org. pose proof (I org) as HI. rewrite (open_close _ _ c cl r), Eo in HI by done.
    specialize (Hi org). cbn in Hi. rewrite Hi. destruct (decide (org = sj_OrgID (cl_subject cl))) as [->|Hne].
    + rewrite bool_decide_true in HI by done. lia.
    + rewrite bool_decide_false in HI by done. lia.
  - done.
  - exact S.
  - intros org Hpos. specialize (Hi org). cbn in Hi. rewrite Hi. specialize (N org Hpos).
    pose proof (I org). destruct (decide _); lia.
Qed.

Lemma settle_rate log c cl r usage accepted now w s :
  limits_ok s → rate_ok log now s → ls_claims s !! c = Some cl → cl_result cl = None →
  ls_heap s !! cl_window cl = Some w →
  rate_ok log now (settle c cl r usage accepted now w s).
Proof.
  intros Hok Hra Hc Hr Hw. pose proof (lo_claim _ Hok _ _ Hc Hr) as Hp.
  enough (rate_ok log now (store_window (cl_window cl)
    (window_complete (Subject_key (cl_subject cl)) usage accepted now w) s)) as [A R].
  { split; [done|]. intros class policy org Hpol HW. specialize (R class policy org Hpol HW).
    change (win_at (settle c cl r usage accepted now w s) class org) with (win_at s class org).
    rewrite win_at_store in R. destruct (win_at s class org); [|done]. intros w' Hw'.
    eapply rate_window_config. by apply R. }
  eapply store_window_rate; [done..|]. intros policy Hpol HW. pose proof Hra as [A R].
  specialize (R _ policy (sj_OrgID (cl_subject cl)) Hpol HW). rewrite Hp in R.
  apply (seen_rate _ _ _ _ _ _ w (Subject_key (cl_subject cl))); try done.
  - by apply R.
  - intros k Hne Hk. cbn. unfold count_down. destruct (_ <=? 1).
    + by rewrite lookup_delete_ne.
    + by rewrite lookup_insert_ne.
Qed.

(** ** The operations *)

(** Both invariants together, and what every operation keeps. *)
Record limits_inv (log : list admission) (now : time) (s : limits_state) : Prop := {
  li_ok : limits_ok s;
  li_rate : rate_ok log now s;
  li_bounds : 0 ≤ mg_maxCredentials (ls_manager s);
}.

Lemma limits_inv_later log now now' s : now ≤ now' → limits_inv log now s → limits_inv log now' s.
Proof. intros Hle [? ? ?]. split; [done| |done]. by eapply rate_ok_later. Qed.

Lemma limits_inv_window log now s class org p w :
  limits_inv log now s → win_at s class org = Some p →
  window_ok (ls_manager s) (ls_claims s) p w →
  (∀ policy, PolicySet_policy (mg_policies (ls_manager s)) class = Ok policy → 0 < qp_Window policy →
     rate_window (ls_manager s) policy class org log now w) →
  limits_inv log now (store_window p w s).
Proof.
  intros [Ho Hr Hb] Hp Hw Hrw. split; [by eapply store_window_ok|by eapply store_window_rate|done].
Qed.

Lemma limits_inv_at log now s class org p :
  limits_inv log now s → win_at s class org = Some p →
  ∃ w, ls_heap s !! p = Some w ∧ window_ok (ls_manager s) (ls_claims s) p w ∧
    ∀ policy, PolicySet_policy (mg_policies (ls_manager s)) class = Ok policy → 0 < qp_Window policy →
      rate_window (ls_manager s) policy class org log now w.
Proof.
  intros [Ho [_ Hr] _] Hp. destruct (lo_window _ Ho _ _ _ Hp) as (w & Hw & Hok). exists w.
  split_and!; [done..|]. intros policy Hpol HW. specialize (Hr class policy org Hpol HW).
  rewrite Hp in Hr. by apply Hr.
Qed.

(** A change of the windows only. *)
Record keeps_claims (s s' : limits_state) : Prop := {
  kc_claims : ls_claims s' = ls_claims s;
  kc_inflight : mg_inflight (ls_manager s') = mg_inflight (ls_manager s);
  kc_config : same_config (ls_manager s) (ls_manager s');
}.

#[global] Instance keeps_claims_trans : Transitive keeps_claims.
Proof.
  intros a b c [C1 I1 F1] [C2 I2 F2]. split; [congruence..|by eapply same_config_trans].
Qed.

Lemma policy_limits p class policy :
  PolicySet_policy p class = Ok policy → 0 ≤ qp_PerOrgLimit policy ∧ 0 ≤ qp_PerCredentialLimit policy.
Proof.
  unfold PolicySet_policy. destruct (policy_named p class); [|done]. intros [Hb [= ->]]%reject_Ok. lia.
Qed.

Lemma quota_open w policy now :
  quotaExpired w policy now = false → 0 < qp_Window policy → now < uw_quotaStarted w + qp_Window policy.
Proof.
  unfold quotaExpired, time_Before, time_Add. intros H HW. rewrite (proj2 (Z.ltb_lt 0 _) HW) in H.
  by apply negb_false_iff, bool_decide_eq_true in H.
Qed.

Lemma quota_over w policy now :
  quotaExpired w policy now = true → 0 < qp_Window policy ∧ uw_quotaStarted w + qp_Window policy ≤ now.
Proof.
  unfold quotaExpired, time_Before, time_Add. intros [HW%Z.ltb_lt H]%andb_true_iff.
  apply negb_true_iff, bool_decide_eq_false in H. unfold time, duration in *. lia.
Qed.
