(* ===== verification/LimitsTheorems.v ===== *)
(** * LimitsTheorems: the guarantees of the limits manager

    Over any interleaving of claims, completions and readings of usage: the
    structural invariant holds, no more claims of an organization are open than
    its concurrency allows, and no interval of a policy's window admits more
    than twice its limits; a claim completes once; denials name a sufficient
    wait. *)

From Stdlib Require Import ZArith Lia Ascii.
From stdpp Require Import sorting pretty numbers gmap strings list_numbers list.
From S2P Require Import Prelude GoStrings Limits LimitsProofs.

Open Scope Z_scope.

(** ** Finding a window *)

Definition has_room (m : Manager) (key : string) (w : usageWindow) : Prop :=
  is_Some (uw_credentials w !! key) ∨ Z.of_nat (size (uw_credentials w)) < mg_maxCredentials m.

(** What [windowFor] answers. *)
Definition found_post (class : RequestClass) (subject : Subject) (policy : quotaPolicy) (now : time)
    (ans : option nat * Decision) (s s' : limits_state) : Prop :=
  match ans with
  | (None, d) => d = capacityDenied (ls_manager s)
  | (Some p, d) => d = allowed ∧ win_at s' class (sj_OrgID subject) = Some p ∧
      ∃ w, ls_heap s' !! p = Some w ∧ has_room (ls_manager s) (Subject_key subject) w ∧
        quotaExpired w policy now = false
  end.

Lemma quotaExpired_reset w policy now : quotaExpired (reset_quota now w) policy now = false.
Proof.
  unfold quotaExpired, time_Before, time_Add. cbn. destruct (0 <? _) eqn:E; [|done]. apply Z.ltb_lt in E.
  cbn. rewrite bool_decide_true by (unfold time, duration in *; lia). done.
Qed.

Lemma quotaExpired_forget m policy' now' w policy now :
  quotaExpired (forgetIdle m policy' now' w) policy now = quotaExpired w policy now.
Proof. unfold forgetIdle. by destruct (time_Before _ _). Qed.

Lemma fresh_quota_inv log now s class org p w policy :
  limits_inv log now s → win_at s class org = Some p → ls_heap s !! p = Some w →
  PolicySet_policy (mg_policies (ls_manager s)) class = Ok policy →
  let w' := if quotaExpired w policy now then reset_quota now w else w in
  limits_inv log now (store_window p w' s) ∧ window_ok (ls_manager s) (ls_claims s) p w' ∧
  quotaExpired w' policy now = false.
Proof.
  intros Hinv Hp Hw Hpol w'. destruct (limits_inv_at _ _ _ _ _ _ Hinv Hp) as (w0 & Hw0 & Hok & Hrate).
  assert (w0 = w) as -> by congruence. unfold w'. destruct (quotaExpired w policy now) eqn:E.
  - split_and!; [|by apply reset_window_ok|by apply quotaExpired_reset].
    apply quota_over in E as [_ Hover].
    eapply limits_inv_window; [done..|by apply reset_window_ok|]. intros policy' Hpol' HW.
    assert (policy' = policy) as -> by congruence. by apply reset_rate, Hrate.
  - split_and!; [|done..]. by eapply limits_inv_window.
Qed.

Lemma store_twice p w1 w2 s : store_window p w2 (store_window p w1 s) = store_window p w2 s.
Proof. unfold store_window. cbn. by rewrite insert_insert_eq. Qed.

Lemma keeps_store p w s : keeps_claims s (store_window p w s).
Proof. by split. Qed.

Lemma bind_window_at {A} p (k : usageWindow → go limits_state A) (w : env * limits_state) x :
  ls_heap w.2 !! p = Some x → bind (window_at p) k w = k x w.
Proof. intros H. unfold bind, window_at. unfold bind, get. by rewrite H. Qed.

Lemma bind_claim_at {A} c (k : Claim → go limits_state A) (w : env * limits_state) x :
  ls_claims w.2 !! c = Some x → bind (claim_at c) k w = k x w.
Proof. intros H. unfold bind, claim_at. unfold bind, get. by rewrite H. Qed.

Lemma find_window_spec class org now e s r w' log :
  find_window class org now (e, s) = (r, w') → limits_inv log now s →
  ∃ found, r = Ok found ∧ w'.1 = e ∧ limits_inv log now w'.2 ∧ keeps_claims s w'.2 ∧
    ∀ p, found = Some p → win_at w'.2 class org = Some p.
Proof.
  intros Hrun Hinv. unfold find_window in Hrun. cbn in Hrun.
  set (byOrg := default ∅ (mg_windows (ls_manager s) !! class)) in *.
  set (s1 := set_byOrg class byOrg s) in *.
  assert (same_view s s1) as Hview.
  { split_and!; try done; [intros; apply win_at_touch|]. intros class'. unfold s1. rewrite size_byOrg.
    by case_decide; subst. }
  assert (limits_inv log now s1) as Hinv1.
  { destruct Hinv as [Ho Hr Hb]. split; [by eapply limits_ok_view|by eapply rate_ok_view|done]. }
  destruct (byOrg !! org) as [p|] eqn:Hp.
  { injection Hrun as <- <-. exists (Some p). split_and!; try done. intros q [= <-]. cbn.
    unfold s1. rewrite win_at_byOrg. by rewrite decide_True by done. }
  destruct (mg_maxOrganizations _ <=? _) eqn:Efull in Hrun.
  { injection Hrun as <- <-. by exists None. }
  apply Z.leb_gt in Efull. cbn in Hrun. injection Hrun as <- <-.
  exists (Some (fresh (dom (ls_heap s)))).
  assert (win_at s class org = None) as Hnone by exact Hp.
  assert (same_view (add_window class org now s)
    (set_byOrg class (<[org := fresh (dom (ls_heap s))]> byOrg)
       (store_window (fresh (dom (ls_heap s))) (new_window now) s1))) as Hview2.
  { split_and!; try done.
    - intros class' org'. unfold add_window. rewrite !win_at_byOrg. case_decide; [done|].
      exact (proj1 Hview class' org').
    - intros class'. unfold add_window. rewrite !size_byOrg. case_decide; [done|].
      exact (proj1 (proj2 Hview) class'). }
  split_and!; try done.
  - destruct Hinv as [Ho Hr Hb]. split; [|eapply rate_ok_view; [exact Hview2|]; by apply add_window_rate|done].
    eapply limits_ok_view; [exact Hview2|]. by apply add_window_ok.
  - intros q [= <-]. cbn. rewrite win_at_byOrg, decide_True by done. by rewrite lookup_insert_eq.
Qed.

Lemma track_subject_spec class subject policy now e s r w' log p :
  track_subject p (Subject_key subject) policy now (e, s) = (r, w') → limits_inv log now s →
  win_at s class (sj_OrgID subject) = Some p →
  PolicySet_policy (mg_policies (ls_manager s)) class = Ok policy →
  ∃ ans, r = Ok ans ∧ w'.1 = e ∧ limits_inv log now w'.2 ∧ keeps_claims s w'.2 ∧
    found_post class subject policy now ans s w'.2.
Proof.
  intros Hrun Hinv Hp Hpol. destruct (limits_inv_at _ _ _ _ _ _ Hinv Hp) as (w & Hw & _).
  unfold track_subject in Hrun. rewrite bind_get, (bind_window_at _ _ _ w) in Hrun by done. cbn in Hrun.
  destruct (fresh_quota_inv _ _ _ _ _ _ _ _ Hinv Hp Hw Hpol) as (Hinv1 & Hok1 & Hq).
  set (w1 := if quotaExpired w policy now then _ else w) in *.
  destruct (bool_decide _ && _) eqn:Efull in Hrun; cbn in Hrun.
  - rewrite store_twice in Hrun. set (w2 := forgetIdle _ policy now w1) in *.
    assert (limits_inv log now (store_window p w2 s)) as Hinv2.
    { rewrite <-(store_twice p w1). eapply limits_inv_window; [done..|by apply forget_window_ok|].
      intros policy' Hpol' HW. cbn in Hpol'. assert (policy' = policy) as -> by congruence.
      eapply rate_window_config, forget_rate; [done|done| | |].
      - by apply (policy_limits _ _ _ Hpol).
      - by eapply quota_open.
      - destruct (limits_inv_at _ _ _ _ _ _ Hinv1 Hp) as (x & Hx & _ & Hr). cbn in Hx.
        rewrite lookup_insert_eq in Hx. injection Hx as <-. by apply Hr. }
    destruct (mg_maxCredentials _ <=? _) eqn:Estill in Hrun; injection Hrun as <- <-;
      eexists; split_and!; try done.
    split_and!; [done..|]. exists w2. cbn. rewrite lookup_insert_eq. split_and!; [done| |].
    + right. by apply Z.leb_gt in Estill.
    + by rewrite <-Hq; apply quotaExpired_forget.
  - injection Hrun as <- <-. eexists. split_and!; try done. split_and!; [done..|].
    exists w1. cbn. rewrite lookup_insert_eq. split_and!; [done| |done].
    apply andb_false_iff in Efull as [E%bool_decide_eq_false|E%Z.leb_gt]; [left|right].
    + by apply not_eq_None_Some.
    + done.
Qed.

Lemma windowFor_spec class subject policy now e s r w' log :
  windowFor class subject policy now (e, s) = (r, w') → limits_inv log now s →
  PolicySet_policy (mg_policies (ls_manager s)) class = Ok policy →
  ∃ ans, r = Ok ans ∧ w'.1 = e ∧ limits_inv log now w'.2 ∧ keeps_claims s w'.2 ∧
    found_post class subject policy now ans s w'.2.
Proof.
  intros Hrun Hinv Hpol. unfold windowFor in Hrun. rewrite bind_get in Hrun. cbn [snd] in Hrun.
  apply bind_res_inv in Hrun as [(found & [e1 s1] & Hf & Hrun)|[(x & -> & Hf)|[-> Hf]]].
  2,3: by apply (find_window_spec _ _ _ _ _ _ _ _ Hf) in Hinv as (? & ? & _).
  destruct (find_window_spec _ _ _ _ _ _ _ _ Hf Hinv) as (f & [= ->] & He & Hinv1 & Hk1 & Hp).
  cbn in He, Hinv1, Hk1, Hp. subst e1. pose proof Hk1 as [_ _ [Epol _ _ Ecred _ Eretry _]].
  destruct f as [p|].
  - eapply track_subject_spec in Hrun as (ans & -> & He & Hinv2 & Hk2 & Hpost); [|done|by apply Hp|by rewrite Epol].
    exists ans. split_and!; try done; [by etrans|]. destruct ans as [[q|] d]; cbn in *.
    + unfold has_room in *. by rewrite Ecred in Hpost.
    + rewrite Hpost. unfold capacityDenied. by rewrite Eretry.
  - cbn in Hrun. injection Hrun as <- <-. eexists. by split_and!.
Qed.

(** ** Claims *)

(** Why a claim was refused. *)
Definition refusal (m : Manager) (class : RequestClass) (subject : Subject) (now : time) (d : Decision)
    (s : limits_state) : Prop :=
  d = capacityDenied m ∨
  (d = Decide false DenialConcurrency (mg_concurrencyRetry m) ∧
   0 < mg_concurrency m ≤ inflight_of m (sj_OrgID subject)) ∨
  ∃ policy p w, PolicySet_policy (mg_policies m) class = Ok policy ∧
    win_at s class (sj_OrgID subject) = Some p ∧ ls_heap s !! p = Some w ∧
    (0 < qp_Window policy → uw_quotaStarted w ≤ now < uw_quotaStarted w + qp_Window policy) ∧
    ((d = quota_denied m DenialOrgQuota (uw_quotaStarted w) (qp_Window policy) now ∧
      0 < qp_PerOrgLimit policy ≤ uw_quotaOrg w) ∨
     (d = quota_denied m DenialCredentialQuota (uw_quotaStarted w) (qp_Window policy) now ∧
      0 < qp_PerCredentialLimit policy ≤ quota_of w (Subject_key subject))).

Definition claim_post (subject : Subject) (class : RequestClass) (log : list admission) (now : time)
    (r : res (option nat * Decision)) (s s' : limits_state) : Prop :=
  match r with
  | Panic => False
  | Err _ => s' = s
  | Ok (None, d) => limits_inv log now s' ∧ keeps_claims s s' ∧
      refusal (ls_manager s) class subject now d s'
  | Ok (Some c, d) => limits_inv (entry_of class subject now :: log) now s' ∧ d = allowed ∧
      same_config (ls_manager s) (ls_manager s') ∧
      ls_claims s !! c = None ∧ ∃ p policy, PolicySet_policy (mg_policies (ls_manager s)) class = Ok policy ∧
        ls_claims s' = <[c := ClaimOf class subject p (qp_Resources policy) None]> (ls_claims s)
  end.

Lemma sweep_inv log now s : limits_inv log now s → limits_inv log now (sweep now s).
Proof. intros [Ho Hr Hb]. split; [by apply sweep_ok|by apply sweep_rate|done]. Qed.

Lemma keeps_sweep now s : keeps_claims s (sweep now s).
Proof. by split. Qed.

(** A refusal is counted in the window. *)
Lemma refuse_inv log now s class org p w key :
  limits_inv log now s → win_at s class org = Some p → ls_heap s !! p = Some w →
  has_room (ls_manager s) key w →
  limits_inv log now (store_window p (window_denied key now w) s).
Proof.
  intros Hinv Hp Hw Hroom. destruct (limits_inv_at _ _ _ _ _ _ Hinv Hp) as (w0 & Hw0 & Hok & Hrate).
  assert (w0 = w) as -> by congruence. eapply limits_inv_window; [done..|by apply denied_window_ok|].
  intros policy Hpol HW. apply (seen_rate _ _ _ _ _ _ w key); try done; [by apply Hrate|].
  by destruct (li_rate _ _ _ Hinv).
Qed.

Definition refused_by (m : Manager) (subject : Subject) (policy : quotaPolicy) (now : time)
    (w : usageWindow) (d : Decision) : Prop :=
  (d = Decide false DenialConcurrency (mg_concurrencyRetry m) ∧
   0 < mg_concurrency m ≤ inflight_of m (sj_OrgID subject)) ∨
  (d = quota_denied m DenialOrgQuota (uw_quotaStarted w) (qp_Window policy) now ∧
   0 < qp_PerOrgLimit policy ≤ uw_quotaOrg w) ∨
  (d = quota_denied m DenialCredentialQuota (uw_quotaStarted w) (qp_Window policy) now ∧
   0 < qp_PerCredentialLimit policy ≤ quota_of w (Subject_key subject)).

Lemma refuse_post m log now s class subject policy p w d :
  limits_inv log now s → same_config m (ls_manager s) → win_at s class (sj_OrgID subject) = Some p →
  ls_heap s !! p = Some w → quotaExpired w policy now = false →
  PolicySet_policy (mg_policies m) class = Ok policy → refused_by m subject policy now w d →
  refusal m class subject now d (store_window p (window_denied (Subject_key subject) now w) s).
Proof.
  intros Hinv Hcfg Hp Hw Hq Hpol Hd.
  destruct (limits_inv_at _ _ _ _ _ _ Hinv Hp) as (w0 & Hw0 & _ & Hrate). rewrite (sc_policies _ _ Hcfg) in Hrate.
  assert (w0 = w) as -> by congruence. destruct Hd as [Hd|Hd]; [by right; left|]. right. right.
  exists policy, p, (window_denied (Subject_key subject) now w). cbn. rewrite lookup_insert_eq.
  split_and!; [done..| |exact Hd]. intros HW.
  split; [by apply (rw_started _ _ _ _ _ _ _ (Hrate _ Hpol HW))|by apply quota_open].
Qed.

Lemma keeps_store_after p w s1 s2 : keeps_claims s1 s2 → keeps_claims s1 (store_window p w s2).
Proof. intros H. etrans; [exact H|apply keeps_store]. Qed.

Lemma claim_refused log now s0 s class subject policy p w d :
  limits_inv log now s → keeps_claims s0 s → win_at s class (sj_OrgID subject) = Some p →
  ls_heap s !! p = Some w → has_room (ls_manager s) (Subject_key subject) w →
  quotaExpired w policy now = false → PolicySet_policy (mg_policies (ls_manager s0)) class = Ok policy →
  refused_by (ls_manager s0) subject policy now w d →
  claim_post subject class log now (Ok (None, d)) s0
    (store_window p (window_denied (Subject_key subject) now w) s).
Proof.
  intros Hinv Hk Hp Hw Hroom Hq Hpol Hd. split_and!.
  - by eapply refuse_inv.
  - by apply keeps_store_after.
  - eapply refuse_post; [done|apply Hk|done..].
Qed.

Lemma claim_admitted log now s0 s class subject policy p w :
  limits_inv log now s → keeps_claims s0 s → win_at s class (sj_OrgID subject) = Some p →
  ls_heap s !! p = Some w → has_room (ls_manager s) (Subject_key subject) w →
  quotaExpired w policy now = false → PolicySet_policy (mg_policies (ls_manager s0)) class = Ok policy →
  (0 < mg_concurrency (ls_manager s) →
     inflight_of (ls_manager s) (sj_OrgID subject) < mg_concurrency (ls_manager s)) →
  (0 < qp_PerOrgLimit policy → uw_quotaOrg w < qp_PerOrgLimit policy) →
  (0 < qp_PerCredentialLimit policy → quota_of w (Subject_key subject) < qp_PerCredentialLimit policy) →
  let c := fresh (dom (ls_claims s)) in
  claim_post subject class log now (Ok (Some c, allowed)) s0
    (admit_claim c class subject p (qp_Resources policy) now w s).
Proof.
  intros Hinv Hk Hp Hw Hroom Hq Hpol Hconc Horg Hkey c. destruct Hinv as [Ho Hr Hb].
  destruct Hk as [Ecl Einf Ecfg].
  assert (ls_claims s !! c = None) as Hfresh by (apply not_elem_of_dom, is_fresh).
  rewrite <-(sc_policies _ _ Ecfg) in Hpol. split_and!.
  - split; [by apply admit_ok| |done]. eapply admit_rate; try done. intros HW. by apply quota_open.
  - done.
  - by eapply same_config_trans.
  - by rewrite <-Ecl.
  - exists p, policy. rewrite <-(sc_policies _ _ Ecfg), <-Ecl. done.
Qed.

Lemma guard_true a b c : (a <? b) && (b <=? c) = true → a < b ≤ c.
Proof. lia. Qed.
Lemma guard_false a b c : (a <? b) && (b <=? c) = false → a < b → c < b.
Proof. lia. Qed.

Lemma Claim_spec subject class (w : env * limits_state) r w' log last :
  Claim_ subject class w = (r, w') → limits_inv log last w.2 → last ≤ clock w.1 →
  claim_post subject class log (clock w.1) r w.2 w'.2.
Proof.
  intros Hrun Hinv Hlast. unfold Claim_ in Hrun.
  apply bind_ctx_clock in Hrun as [(x & -> & Hs)|(e1 & Hc1 & Hrun)]; [exact Hs|].
  unfold bind at 1, lift_res at 1 in Hrun.
  destruct (Subject_validate subject) as [[]|x|] eqn:Hval; [|by injection Hrun as <- <-|].
  2:{ unfold Subject_validate in Hval. by destruct (_ || _ || _). }
  rewrite bind_get in Hrun. cbn [snd] in Hrun. unfold bind at 1, lift_res at 1 in Hrun.
  destruct (PolicySet_policy _ class) as [policy|x|] eqn:Hpol; [|by injection Hrun as <- <-|].
  2:{ unfold PolicySet_policy in Hpol. repeat case_match; done. }
  apply bind_ctx_clock in Hrun as [(x & -> & Hs)|(e2 & Hc2 & Hrun)]; [exact Hs|].
  cbn [fst snd] in Hc2, Hrun.
  match type of Hrun with bind now ?k ?w = _ => destruct (bind_now_clock k w) as [e3 E3] end.
  rewrite E3 in Hrun. clear E3. cbn [fst snd] in Hrun. rewrite Hc2, Hc1 in Hrun.
  set (now := clock w.1) in *. cbn in Hrun.
  assert (limits_inv log now (sweep now w.2)) as Hinv1 by (by eapply sweep_inv, limits_inv_later).
  unfold bind at 1 in Hrun.
  destruct (windowFor class subject policy now (e3, sweep now w.2)) as [r1 [e4 s1]] eqn:Hwf.
  destruct (windowFor_spec _ _ _ _ _ _ _ _ _ Hwf Hinv1 Hpol) as (ans & -> & He & Hinv2 & Hk & Hpost).
  cbn [fst snd] in He, Hinv2, Hk, Hpost.
  assert (keeps_claims w.2 s1) as Hk2 by (etrans; [apply keeps_sweep|exact Hk]).
  destruct ans as [[p|] d]; cbn in Hpost, Hrun.
  2:{ injection Hrun as <- <-. split_and!; [done..|by left]. }
  destruct Hpost as (-> & Hp & wd & Hw & Hroom & Hq).
  rewrite (bind_window_at _ _ _ wd) in Hrun by done. pose proof Hk2 as [Ecl Einf Ecfg].
  assert (has_room (ls_manager s1) (Subject_key subject) wd) as Hroom1.
  { unfold has_room in *. by rewrite (sc_creds _ _ Ecfg). }
  assert (∀ org, inflight_of (ls_manager s1) org = inflight_of (ls_manager w.2) org) as Einf'.
  { intros org. unfold inflight_of. by rewrite Einf. }
  destruct ((0 <? mg_concurrency _) && _) eqn:Econc in Hrun.
  { apply guard_true in Econc. cbn in Hrun. injection Hrun as <- <-.
    eapply claim_refused; try done. by left. }
  destruct ((0 <? qp_PerOrgLimit _) && _) eqn:Eorg in Hrun.
  { apply guard_true in Eorg. cbn in Hrun. injection Hrun as <- <-.
    eapply claim_refused; try done. right. by left. }
  destruct ((0 <? qp_PerCredentialLimit _) && _) eqn:Ekey in Hrun.
  { apply guard_true in Ekey. cbn in Hrun. injection Hrun as <- <-.
    eapply claim_refused; try done. right. by right. }
  cbn in Hrun. injection Hrun as <- <-. cbn [snd].
  rewrite <-(Einf' (sj_OrgID subject)).
  eapply (claim_admitted log now w.2 s1); try done.
  - rewrite Einf', (sc_concurrency _ _ Ecfg). by apply guard_false.
  - by apply guard_false.
  - by apply guard_false.
Qed.

(** ** Readings of usage *)

Lemma Usage_spec subject class (w : env * limits_state) r w' log last :
  Usage subject class w = (r, w') → limits_inv log last w.2 → last ≤ clock w.1 →
  limits_inv log (clock w.1) w'.2 ∧ keeps_claims w.2 w'.2 ∧ r ≠ Panic ∧
  ∀ t, r = Ok t → uc_Admitted (ut_Org t) - uc_Completed (ut_Org t)
    = Z.of_nat (open_where (λ c, bool_decide (cl_class c = class) && of_org (sj_OrgID subject) c) (ls_claims w'.2)).
Proof.
  intros Hrun Hinv Hlast.
  assert (limits_inv log (clock w.1) w.2) as Hinv0 by (by eapply limits_inv_later).
  assert (keeps_claims w.2 w.2) as Hrefl by (by split).
  unfold Usage in Hrun. unfold bind at 1, lift_res at 1 in Hrun.
  destruct (Subject_validate subject) as [[]|x|] eqn:Hval; [|by injection Hrun as <- <-|].
  2:{ unfold Subject_validate in Hval. by destruct (_ || _ || _). }
  rewrite bind_get in Hrun. unfold bind at 1, lift_res at 1 in Hrun.
  destruct (PolicySet_policy _ class) as [policy|x|] eqn:Hpol; [|by injection Hrun as <- <-|].
  2:{ unfold PolicySet_policy in Hpol. repeat case_match; done. }
  match type of Hrun with bind now ?k ?w = _ => destruct (bind_now_clock k w) as [e3 E3] end.
  rewrite E3 in Hrun. clear E3. cbn [fst snd] in Hrun. set (now := clock w.1) in *.
  assert (limits_inv log now (sweep now w.2)) as Hinv1 by (by apply sweep_inv).
  unfold bind at 1, modify at 1 in Hrun. cbn [fst snd] in Hrun. rewrite bind_get in Hrun. cbn [fst snd] in Hrun.
  change (default ∅ (mg_windows (ls_manager (sweep now w.2)) !! class) !! sj_OrgID subject)
    with (win_at (sweep now w.2) class (sj_OrgID subject)) in Hrun.
  destruct (win_at _ class _) as [p|] eqn:Hp in Hrun.
  - destruct (limits_inv_at _ _ _ _ _ _ Hinv1 Hp) as (wd & Hw & Hok & _).
    rewrite (bind_window_at _ _ _ wd) in Hrun by done. injection Hrun as <- <-.
    split_and!; [done|apply keeps_sweep|done|]. intros t [= <-]. cbn.
    rewrite (wo_counts _ _ _ _ Hok). cbn. rewrite (open_ext (of_window p)
      (λ c, bool_decide (cl_class c = class) && of_org (sj_OrgID subject) c)); [lia|].
    intros c cl Hc Hr. pose proof (lo_claim _ (li_ok _ _ _ Hinv1) c cl Hc Hr) as Hcl.
    unfold of_window, of_org. rewrite <-bool_decide_and. apply bool_decide_ext. split.
    + intros E. rewrite E in Hcl. by apply (lo_own _ (li_ok _ _ _ Hinv1) _ _ _ _ _ Hp Hcl).
    + intros [E1 E2]. rewrite E1, E2 in Hcl. congruence.
  - injection Hrun as <- <-. split_and!; [done|apply keeps_sweep|done|]. intros t [= <-]. cbn.
    rewrite open_zero; [done|]. intros c cl Hc Hr.
    pose proof (lo_claim _ (li_ok _ _ _ Hinv1) c cl Hc Hr) as Hcl.
    unfold of_org. rewrite <-bool_decide_and. apply bool_decide_eq_false. intros [E1 E2].
    rewrite E1, E2 in Hcl. congruence.
Qed.

(** ** Completions *)

(** A first completion, against [budget]. *)
Definition settled (c : nat) (usage : ResourceUsage) (budget : ResourceBudget) (r : res ())
    (s s' : limits_state) : Prop :=
  ∃ cl, ls_claims s !! c = Some cl ∧ cl_result cl = None ∧
    let result := if ResourceBudget_allows budget usage then None else Some ErrResourceBudgetExceeded in
    r = match result with None => Ok () | Some e => Err e end ∧
    ls_claims s' = <[c := set_result result cl]> (ls_claims s) ∧
    same_config (ls_manager s) (ls_manager s').

(** Every later one: the stored answer, and nothing else. *)
Definition settled_before (c : nat) (r : res ()) (s s' : limits_state) : Prop :=
  s' = s ∧ ∃ cl result, ls_claims s !! c = Some cl ∧ cl_result cl = Some result ∧
    r = match result with None => Ok () | Some e => Err e end.

Lemma complete_once_spec c cl usage budget (w : env * limits_state) r w' log last :
  complete_once c cl usage budget w = (r, w') → ls_claims w.2 !! c = Some cl →
  limits_inv log last w.2 → last ≤ clock w.1 →
  limits_inv log (clock w.1) w'.2 ∧
  (settled c usage budget r w.2 w'.2 ∨ settled_before c r w.2 w'.2).
Proof.
  intros Hrun Hc Hinv Hlast.
  assert (limits_inv log (clock w.1) w.2) as Hinv0 by (by eapply limits_inv_later).
  unfold complete_once in Hrun. destruct (cl_result cl) as [result|] eqn:Hr.
  { assert (w' = w ∧ r = match result with None => Ok () | Some e => Err e end) as [-> ->].
    { by destruct result; injection Hrun as <- <-. }
    split; [done|]. right. split; [done|]. by exists cl, result. }
  set (result := if ResourceBudget_allows budget usage then None else _) in *.
  unfold complete in Hrun. cbn in Hrun. unfold bind at 1 in Hrun.
  match type of Hrun with context [bind now ?k ?w] => destruct (bind_now_clock k w) as [e3 E3] end.
  rewrite E3 in Hrun. clear E3. cbn [fst snd] in Hrun.
  destruct (limits_inv_at _ _ _ _ _ _ Hinv0 (lo_claim _ (li_ok _ _ _ Hinv0) _ _ Hc Hr)) as (wd & Hw & _).
  rewrite (bind_window_at _ _ _ wd) in Hrun by done. cbn in Hrun.
  assert (w'.2 = settle c cl result usage (ResourceBudget_allows budget usage) (clock w.1) wd w.2
    ∧ r = match result with None => Ok () | Some e => Err e end) as [Hs Hres].
  { by destruct result; injection Hrun as <- <-. }
  rewrite Hs. destruct Hinv0 as [Ho Hra Hb]. split.
  - split; [by apply settle_ok|by apply settle_rate|done].
  - left. exists cl. by split_and!.
Qed.

(** ** Histories *)

Inductive limits_op :=
  | LClaim (subject : Subject) (class : RequestClass)
  | LUsage (subject : Subject) (class : RequestClass)
  | LComplete (c : option nat) (usage : ResourceUsage)
  | LCompleteWithBudget (c : option nat) (usage : ResourceUsage) (override : ResourceBudget)
  | LDone (c : option nat).

(** An operation answers the claim it made, if any. *)
Definition limits_exec (op : limits_op) : go limits_state (option nat) :=
  match op with
  | LClaim subject class => let! answer := Claim_ subject class in ret answer.1
  | LUsage subject class => Usage subject class ;; ret None
  | LComplete c usage => Complete c usage ;; ret None
  | LCompleteWithBudget c usage override => CompleteWithBudget c usage override ;; ret None
  | LDone c => DoneClaim c ;; ret None
  end.

(** A claim pointer is nil or one [Claim] handed out. *)
Definition handle_ok (op : limits_op) (s : limits_state) : Prop :=
  match op with
  | LComplete (Some c) _ | LCompleteWithBudget (Some c) _ _ | LDone (Some c) => is_Some (ls_claims s !! c)
  | _ => True
  end.

Definition logged (op : limits_op) (r : res (option nat)) (now : time) : list admission :=
  match op, r with
  | LClaim subject class, Ok (Some _) => [entry_of class subject now]
  | _, _ => []
  end.

Definition claims_grow (s s' : limits_state) : Prop :=
  ∀ c cl, ls_claims s !! c = Some cl →
    ∃ cl', ls_claims s' !! c = Some cl' ∧ (is_Some (cl_result cl) → cl' = cl).

Lemma claims_grow_same s s' : ls_claims s' = ls_claims s → claims_grow s s'.
Proof. intros E c cl Hc. exists cl. by rewrite E. Qed.

Lemma claims_grow_trans s1 s2 s3 : claims_grow s1 s2 → claims_grow s2 s3 → claims_grow s1 s3.
Proof.
  intros H1 H2 c cl Hc. destruct (H1 _ _ Hc) as (cl1 & Hc1 & E1). destruct (H2 _ _ Hc1) as (cl2 & Hc2 & E2).
  exists cl2. split; [done|]. intros Hr. rewrite <-(E1 Hr). apply E2. by rewrite E1.
Qed.

(** What every operation leaves. *)
Record limits_kept (log : list admission) (now : time) (s s' : limits_state) : Prop := {
  lk_inv : limits_inv log now s';
  lk_config : same_config (ls_manager s) (ls_manager s');
  lk_claims : claims_grow s s';
}.

Lemma claim_kept subject class (w : env * limits_state) r w' log last :
  Claim_ subject class w = (r, w') → limits_inv log last w.2 → last ≤ clock w.1 →
  r ≠ Panic ∧ limits_kept (logged (LClaim subject class) (res_bind r (λ a, Ok a.1)) (clock w.1) ++ log)
    (clock w.1) w.2 w'.2.
Proof.
  intros Hrun Hinv Hlast. pose proof (Claim_spec _ _ _ _ _ _ _ Hrun Hinv Hlast) as Hpost.
  destruct r as [[[c|] d]|x|]; cbn in *.
  - destruct Hpost as (Hi & -> & Hcfg & Hc & p & policy & _ & Hcl). split; [done|]. split; [done..|].
    intros k cl Hk. exists cl. rewrite Hcl, lookup_insert_ne by congruence. done.
  - destruct Hpost as (Hi & [Ecl _ Hcfg] & _). split; [done|]. split; [done..|]. by apply claims_grow_same.
  - rewrite Hpost. split; [done|]. split; [by eapply limits_inv_later|apply same_config_refl|].
    by apply claims_grow_same.
  - done.
Qed.

Lemma settled_kept c usage budget r (w w' : env * limits_state) log :
  limits_inv log (clock w.1) w'.2 →
  settled c usage budget r w.2 w'.2 ∨ settled_before c r w.2 w'.2 →
  r ≠ Panic ∧ limits_kept log (clock w.1) w.2 w'.2.
Proof.
  intros Hinv [(cl & Hc & Hr & Hres & Hcl & Hcfg)|(E & cl & result & Hc & Hr & Hres)].
  - split; [rewrite Hres; by destruct (ResourceBudget_allows _ _)|]. split; [done..|].
    intros k x Hk. rewrite Hcl. destruct (decide (k = c)) as [->|Hne].
    + eexists. rewrite lookup_insert_eq. split; [done|]. simplify_eq. rewrite Hr. by intros [].
    + exists x. by rewrite lookup_insert_ne.
  - split; [rewrite Hres; by destruct result|]. rewrite E in *.
    split; [done|apply same_config_refl|by apply claims_grow_same].
Qed.

Lemma kept_still log last (w : env * limits_state) :
  limits_inv log last w.2 → last ≤ clock w.1 → limits_kept log (clock w.1) w.2 w.2.
Proof.
  intros Hinv Hle. split; [by eapply limits_inv_later|apply same_config_refl|by apply claims_grow_same].
Qed.

Lemma complete_kept c usage (w : env * limits_state) r w' log last :
  Complete c usage w = (r, w') → limits_inv log last w.2 → last ≤ clock w.1 →
  (∀ k, c = Some k → is_Some (ls_claims w.2 !! k)) →
  r ≠ Panic ∧ limits_kept log (clock w.1) w.2 w'.2.
Proof.
  intros Hrun Hinv Hlast Hh. destruct c as [c|]; cbn in Hrun.
  2:{ injection Hrun as <- <-. split; [done|by eapply kept_still]. }
  destruct (Hh c eq_refl) as [cl Hc]. rewrite (bind_claim_at _ _ _ cl) in Hrun by done.
  destruct (negative_usage usage).
  { injection Hrun as <- <-. split; [done|by eapply kept_still]. }
  eapply complete_once_spec in Hrun as [Hinv' Hset]; [|done..]. by eapply settled_kept.
Qed.

Lemma complete_budget_kept c usage override (w : env * limits_state) r w' log last :
  CompleteWithBudget c usage override w = (r, w') → limits_inv log last w.2 → last ≤ clock w.1 →
  (∀ k, c = Some k → is_Some (ls_claims w.2 !! k)) →
  r ≠ Panic ∧ limits_kept log (clock w.1) w.2 w'.2.
Proof.
  intros Hrun Hinv Hlast Hh. destruct c as [c|]; cbn in Hrun.
  2:{ injection Hrun as <- <-. split; [done|by eapply kept_still]. }
  destruct (Hh c eq_refl) as [cl Hc]. rewrite (bind_claim_at _ _ _ cl) in Hrun by done.
  destruct (negative_usage usage).
  { injection Hrun as <- <-. split; [done|by eapply kept_still]. }
  destruct (negb (ResourceBudget_valid override)).
  { injection Hrun as <- <-. split; [done|by eapply kept_still]. }
  eapply complete_once_spec in Hrun as [Hinv' Hset]; [|done..]. by eapply settled_kept.
Qed.

Lemma done_kept c (w : env * limits_state) r w' log last :
  DoneClaim c w = (r, w') → limits_inv log last w.2 → last ≤ clock w.1 →
  (∀ k, c = Some k → is_Some (ls_claims w.2 !! k)) →
  r ≠ Panic ∧ limits_kept log (clock w.1) w.2 w'.2.
Proof.
  intros Hrun Hinv Hlast Hh. unfold DoneClaim in Hrun. unfold bind in Hrun.
  destruct (attempt _ w) as [r1 w1] eqn:Ha. apply attempt_inv in Ha as (r0 & Hc & Hr0).
  apply complete_kept with (log := log) (last := last) in Hc as [Hp Hk]; [|done..].
  destruct r0; subst r1; [..|done]; injection Hrun as <- <-; by split.
Qed.

Lemma then_none {A} (m : go limits_state A) (w : env * limits_state) r w' :
  (m ;; ret None) w = (r, w') →
  ∃ r0, m w = (r0, w') ∧ (r = Panic → r0 = Panic) ∧ ∀ c, r ≠ Ok (Some (c : nat)).
Proof.
  unfold bind. destruct (m w) as [[a|x|] w1] eqn:E; intros [= <- <-]; eexists; by split_and!.
Qed.

Lemma limits_exec_kept op (w : env * limits_state) r w' log last :
  limits_exec op w = (r, w') → limits_inv log last w.2 → last ≤ clock w.1 → handle_ok op w.2 →
  r ≠ Panic ∧ limits_kept (logged op r (clock w.1) ++ log) (clock w.1) w.2 w'.2.
Proof.
  intros Hrun Hinv Hlast Hh. destruct op as [subject class|subject class|c u|c u o|c]; cbn [limits_exec] in Hrun.
  { unfold bind in Hrun. destruct (Claim_ subject class w) as [r0 w1] eqn:Hc.
    destruct (claim_kept _ _ _ _ _ _ _ Hc Hinv Hlast) as [Hp Hk].
    assert (r = res_bind r0 (λ a, Ok a.1) ∧ w' = w1) as [-> ->] by (by destruct r0; injection Hrun as <- <-).
    split; [by destruct r0|done]. }
  all: apply then_none in Hrun as (r0 & Hrun & Hp & Hn);
    match goal with |- _ ∧ limits_kept (?l ++ _) _ _ _ => assert (l = []) as -> by done end;
    enough (r0 ≠ Panic ∧ limits_kept log (clock w.1) w.2 w'.2) as [Hr Hk] by (split; [by intros ->%Hp|done]).
  - eapply Usage_spec in Hrun as (Hi & [Ecl _ Hcfg] & Hr & _); [|done..].
    split; [done|]. split; [done..|by apply claims_grow_same].
  - eapply complete_kept; [done..|]. by intros k ->.
  - eapply complete_budget_kept; [done..|]. by intros k ->.
  - eapply done_kept; [done..|]. by intros k ->.
Qed.

(** A history: the state, the last reading of the clock, which never moves
    back, and the admissions so far, the latest first. *)
Record traced := Traced {
  tr_state : limits_state;
  tr_now : time;
  tr_log : list admission;
}.

Inductive limits_step (t : traced) : traced → Prop :=
  | lstep op e r w' :
      limits_exec op (e, tr_state t) = (r, w') → tr_now t ≤ clock e → handle_ok op (tr_state t) →
      limits_step t (Traced w'.2 (clock e) (logged op r (clock e) ++ tr_log t)).

(** The sliding bound on the log. *)
Definition slides (m : Manager) (log : list admission) : Prop :=
  ∀ class policy org lo, PolicySet_policy (mg_policies m) class = Ok policy →
    (0 < qp_PerOrgLimit policy →
     admitted_in (in_org class org) log lo (lo + qp_Window policy) ≤ 2 * qp_PerOrgLimit policy) ∧
    (∀ key, 0 < qp_PerCredentialLimit policy →
     admitted_in (in_key class org key) log lo (lo + qp_Window policy) ≤ 2 * qp_PerCredentialLimit policy).

Lemma policy_window p class policy :
  PolicySet_policy p class = Ok policy →
  0 < qp_PerOrgLimit policy ∨ 0 < qp_PerCredentialLimit policy → 0 < qp_Window policy.
Proof.
  unfold PolicySet_policy. destruct (policy_named p class); [|done]. intros [Hb [= ->]]%reject_Ok. lia.
Qed.

(** One more admission keeps a sliding bound. *)
Lemma slide_one kind W L log now a qs n lo :
  0 < L → period kind W L (a :: log) qs n → ad_time a = now → qs ≤ now →
  (∀ b, b ∈ a :: log → ad_time b ≤ now) →
  (∀ lo, admitted_in kind log lo (lo + W) ≤ 2 * L) →
  admitted_in kind (a :: log) lo (lo + W) ≤ 2 * L.
Proof.
  intros HL Hpe Ha Hqs Hpast IH. destruct (kind a && during lo (lo + W) a) eqn:E.
  - apply andb_true_iff in E as [Hk Hd]. unfold during in Hd.
    eapply period_slide; [done..| |lia].
    rewrite <-Ha. by apply (pe_end _ _ _ _ _ _ Hpe); [left|].
  - specialize (IH lo). unfold admitted_in in *. rewrite countb_cons, E. lia.
Qed.

Lemma slides_admit log now s class subject :
  let log' := entry_of class subject now :: log in
  limits_inv log' now s → slides (ls_manager s) log → slides (ls_manager s) log'.
Proof.
  intros log' Hinv IH class' policy org lo Hpol. destruct (IH class' policy org lo Hpol) as [IHo IHk].
  assert (∀ lo, (0 < qp_PerOrgLimit policy →
     admitted_in (in_org class' org) log lo (lo + qp_Window policy) ≤ 2 * qp_PerOrgLimit policy) ∧
    (∀ key, 0 < qp_PerCredentialLimit policy →
     admitted_in (in_key class' org key) log lo (lo + qp_Window policy) ≤ 2 * qp_PerCredentialLimit policy))
    as IH' by (intros lo'; by apply IH).
  pose proof (li_rate _ _ _ Hinv) as [A R].
  destruct (in_org class' org (entry_of class subject now)) eqn:Hin.
  2:{ split; [intros HL|intros key HL]; unfold admitted_in, log'; rewrite countb_cons.
      - rewrite Hin. cbn. apply IHo, HL.
      - unfold in_key at 1. rewrite Hin. cbn. apply IHk, HL. }
  assert (0 < qp_Window policy → ∃ w, rate_window (ls_manager s) policy class' org log' now w) as Hrw.
  { intros HW. specialize (R class' policy org Hpol HW). destruct (win_at s class' org) as [p|] eqn:Hp.
    - destruct (lo_window _ (li_ok _ _ _ Hinv) _ _ _ Hp) as (w & Hw & _). exists w. by apply R.
    - specialize (R _ ltac:(left) Hin). cbn in R. lia. }
  split; [intros HL|intros key HL].
  - destruct Hrw as [w Hrw]; [by apply (policy_window _ _ _ Hpol); left|].
    eapply slide_one; [done|exact (rw_org _ _ _ _ _ _ _ Hrw)|done|by apply Hrw|exact A|].
    intros lo'. by apply IH'.
  - destruct Hrw as [w Hrw]; [by apply (policy_window _ _ _ Hpol); right|].
    eapply slide_one; [done|exact (rw_key _ _ _ _ _ _ _ Hrw key)|done|by apply Hrw|exact A|].
    intros lo'. by apply IH'.
Qed.

Record history_ok (o : Options) (t : traced) : Prop := {
  hi_inv : limits_inv (tr_log t) (tr_now t) (tr_state t);
  hi_slides : slides (ls_manager (tr_state t)) (tr_log t);
  hi_policies : mg_policies (ls_manager (tr_state t)) = op_Policies o;
  hi_concurrency : mg_concurrency (ls_manager (tr_state t)) = op_PerOrgConcurrency o;
  hi_retry : 0 < mg_maxRetry (ls_manager (tr_state t));
}.

Lemma or_default_pos x fallback : 0 ≤ x → 0 < fallback → 0 < or_default x fallback.
Proof. unfold or_default. destruct (x =? 0) eqn:E; lia. Qed.

Lemma NewManager_inv o m :
  NewManager o = Ok m →
  mg_policies m = op_Policies o ∧ mg_concurrency m = op_PerOrgConcurrency o ∧
  mg_windows m = ∅ ∧ mg_inflight m = ∅ ∧ 0 < mg_maxOrganizations m ∧ 0 < mg_maxCredentials m ∧ 0 < mg_maxRetry m.
Proof.
  unfold NewManager. destruct (PolicySet_validate (op_Policies o)); [|done..].
  intros [Hb [= <-]]%reject_Ok. cbn. split_and!; try done; apply or_default_pos;
    (lia || (vm_compute; done)).
Qed.

Lemma win_at_start m class org : mg_windows m = ∅ → win_at (start m) class org = None.
Proof. intros E. unfold win_at. cbn. by rewrite E, lookup_empty. Qed.

Lemma start_history o m t : NewManager o = Ok m → history_ok o (Traced (start m) t []).
Proof.
  intros (Ep & Ec & Ew & Ei & Ho & Hcr & Hr)%NewManager_inv.
  assert (∀ org, inflight_of m org = 0) as Hi by (intros org; unfold inflight_of; by rewrite Ei, lookup_empty).
  split; cbn; try done.
  - split; [split|split|cbn; lia].
    + intros class org p. by rewrite win_at_start.
    + intros class org class' org' p. by rewrite win_at_start.
    + intros c cl. cbn. by rewrite lookup_empty.
    + intros org. cbn. rewrite Hi. by rewrite open_zero.
    + intros org n. cbn. by rewrite Ei, lookup_empty.
    + intros class. cbn. rewrite Ew, lookup_empty. cbn. rewrite map_size_empty. lia.
    + intros org Hpos. cbn in *. rewrite Hi. lia.
    + intros a Ha. by apply elem_of_nil in Ha.
    + intros class policy org Hpol HW. rewrite win_at_start by done.
      intros a Ha. by apply elem_of_nil in Ha.
  - intros class policy org lo Hpol. change (tr_log _) with (@nil admission).
    assert (∀ kind lo hi, admitted_in kind [] lo hi = 0) as E by done.
    split; intros; rewrite E; lia.
Qed.

Lemma step_history o t t' : limits_step t t' → history_ok o t → history_ok o t'.
Proof.
  intros [op e r w' Hrun Hle Hh] [Hinv Hsl Hp Hc Hr].
  destruct (limits_exec_kept _ _ _ _ _ _ Hrun Hinv Hle Hh) as [_ [Hinv' [Ep Ec Eo Ecr Ert Er Ew] _]].
  cbn in *. split; cbn; try congruence.
  assert (slides (ls_manager w'.2) (tr_log t)) as Hsl'.
  { intros class policy org lo. rewrite Ep. apply Hsl. }
  unfold logged in *. destruct op; try done. destruct r as [[c|]| |]; try done. cbn in *. by apply slides_admit.
Qed.

Lemma steps_history o t t' : rtc limits_step t t' → history_ok o t → history_ok o t'.
Proof. induction 1; [done|]. intros H1. by eapply IHrtc, step_history. Qed.

Lemma steps_claims t t' c cl o :
  rtc limits_step t t' → history_ok o t → ls_claims (tr_state t) !! c = Some cl → is_Some (cl_result cl) →
  ls_claims (tr_state t') !! c = Some cl ∧ tr_now t ≤ tr_now t'.
Proof.
  induction 1 as [t|t1 t2 t3 Hstep _ IH]; intros Hok Hc Hr; [done|].
  pose proof (step_history _ _ _ Hstep Hok) as Hok2. destruct Hstep as [op e r w' Hrun Hle Hh].
  destruct (limits_exec_kept _ _ _ _ _ _ Hrun (hi_inv _ _ Hok) Hle Hh) as [_ [_ _ Hg]].
  destruct (Hg _ _ Hc) as (cl' & Hc' & E). rewrite (E Hr) in Hc'.
  destruct (IH Hok2 Hc' Hr) as [? Hle2]. split; [done|]. cbn in Hle2. lia.
Qed.

(** ** Properties *)

(** C31: the manager's accounts are right in every history.  Each window
    belongs to one organization and class, counts the claims that run in it and
    tracks at most the configured number of subjects; an organization never has
    more open claims than the configured concurrency; what [Usage] reports as
    admitted less completed is the number of claims still open; and no
    operation panics. *)
Theorem limits_accounts o m t0 t :
  NewManager o = Ok m → rtc limits_step (Traced (start m) t0 []) t →
  limits_ok (tr_state t) ∧
  (∀ org, 0 < op_PerOrgConcurrency o →
     Z.of_nat (open_where (of_org org) (ls_claims (tr_state t))) ≤ op_PerOrgConcurrency o) ∧
  (∀ subject class e u w', tr_now t ≤ clock e → Usage subject class (e, tr_state t) = (Ok u, w') →
     uc_Admitted (ut_Org u) - uc_Completed (ut_Org u)
     = Z.of_nat (open_where (λ c, bool_decide (cl_class c = class) && of_org (sj_OrgID subject) c)
                   (ls_claims (tr_state t)))) ∧
  ∀ op e r w', tr_now t ≤ clock e → handle_ok op (tr_state t) →
    limits_exec op (e, tr_state t) = (r, w') → r ≠ Panic.
Proof.
  intros Hm Hsteps. pose proof (steps_history _ _ _ Hsteps (start_history _ _ t0 Hm)) as Hok.
  pose proof (hi_inv _ _ Hok) as Hinv. pose proof (li_ok _ _ _ Hinv) as Hlo. split_and!.
  - done.
  - intros org Hpos. rewrite <-(hi_concurrency _ _ Hok) in *. rewrite <-(lo_inflight _ Hlo).
    by apply (lo_concurrency _ Hlo).
  - intros subject class e u w' Hle Hrun. eapply Usage_spec in Hrun as (_ & [Ecl _ _] & _ & Hu); [|done..].
    rewrite (Hu _ eq_refl). cbn in Ecl. by rewrite Ecl.
  - intros op e r w' Hle Hh Hrun. by eapply limits_exec_kept in Hrun as [? _].
Qed.

(** C29: quotas hold over sliding intervals.  However claims, completions,
    sweeps and forgetting of idle subjects interleave, in any interval of the
    length of a class's window at most twice the organization's limit of claims
    is admitted for an organization, and at most twice the per-credential limit
    for a subject.  (The windows are fixed, so twice is the best bound.) *)
Theorem rate_limited o m t0 t class policy org lo :
  NewManager o = Ok m → rtc limits_step (Traced (start m) t0 []) t →
  PolicySet_policy (op_Policies o) class = Ok policy →
  (0 < qp_PerOrgLimit policy →
     admitted_in (in_org class org) (tr_log t) lo (lo + qp_Window policy) ≤ 2 * qp_PerOrgLimit policy) ∧
  (∀ key, 0 < qp_PerCredentialLimit policy →
     admitted_in (in_key class org key) (tr_log t) lo (lo + qp_Window policy) ≤ 2 * qp_PerCredentialLimit policy).
Proof.
  intros Hm Hsteps Hpol. pose proof (steps_history _ _ _ Hsteps (start_history _ _ t0 Hm)) as Hok.
  apply (hi_slides _ _ Hok). by rewrite (hi_policies _ _ Hok).
Qed.

(** A claim settles once.  After a completion of a claim answered with
    anything but an invalid usage, every later completion of it, however other
    operations interleave and whatever usage or budget it names, repeats the
    first answer and changes nothing: no second slot is freed and no usage is
    counted twice. *)
Theorem claim_settles_once o m t0 t1 t2 c usage usage' budget e1 e2 r1 r2 w1 w2 :
  NewManager o = Ok m → rtc limits_step (Traced (start m) t0 []) t1 →
  is_Some (ls_claims (tr_state t1) !! c) → tr_now t1 ≤ clock e1 →
  Complete (Some c) usage (e1, tr_state t1) = (r1, w1) → negative_usage usage = false →
  rtc limits_step (Traced w1.2 (clock e1) (tr_log t1)) t2 →
  tr_now t2 ≤ clock e2 → negative_usage usage' = false → ResourceBudget_valid budget = true →
  (CompleteWithBudget (Some c) usage' budget (e2, tr_state t2) = (r2, w2) ∨
   Complete (Some c) usage' (e2, tr_state t2) = (r2, w2)) →
  r2 = r1 ∧ w2.2 = tr_state t2.
Proof.
  intros Hm Hsteps [cl Hc] Hle1 Hrun1 Hn1 Hsteps2 Hle2 Hn2 Hb Hrun2.
  pose proof (steps_history _ _ _ Hsteps (start_history _ _ t0 Hm)) as Hok1.
  assert (limits_step t1 (Traced w1.2 (clock e1) (tr_log t1))) as Hstep.
  { refine (lstep t1 (LComplete (Some c) usage) e1 (res_bind r1 (λ _, Ok None)) w1 _ Hle1 _).
    - cbn [limits_exec]. unfold bind. rewrite Hrun1. by destruct r1.
    - cbn. eauto. }
  pose proof (step_history _ _ _ Hstep Hok1) as Hok2.
  cbn in Hrun1. rewrite (bind_claim_at _ _ _ cl) in Hrun1 by done. rewrite Hn1 in Hrun1.
  apply (complete_once_spec _ _ _ _ _ _ _ _ _ Hrun1 Hc (hi_inv _ _ Hok1)) in Hle1 as [_ Hset].
  assert (∃ cl1 res, ls_claims w1.2 !! c = Some cl1 ∧ cl_result cl1 = Some res ∧
    r1 = match res with None => Ok () | Some x => Err x end) as (cl1 & res & Hc1 & Hr1 & Hres1).
  { destruct Hset as [(x & Hx & _ & Hr & Hcl & _)|(E & x & res & Hx & Hr & Hres)].
    - eexists _, _. rewrite Hcl, lookup_insert_eq. split_and!; [done..|exact Hr].
    - exists x, res. by rewrite E. }
  destruct (steps_claims _ _ c cl1 o Hsteps2 Hok2 Hc1) as [Hc2 _]; [eauto|].
  assert (∃ budget', complete_once c cl1 usage' budget' (e2, tr_state t2) = (r2, w2)) as [budget' Hrun].
  { destruct Hrun2 as [Hrun|Hrun]; cbn in Hrun; rewrite (bind_claim_at _ _ _ cl1), Hn2 in Hrun by done;
      [rewrite Hb in Hrun|]; eexists; exact Hrun. }
  unfold complete_once in Hrun. rewrite Hr1 in Hrun. rewrite Hres1.
  by destruct res; injection Hrun as <- <-.
Qed.

(** Rounding a duration up to whole seconds, without overflow. *)
Lemma round_up x : 0 < x → x + Second - 1 ≤ max_duration →
  let y := i64 (Z.quot (i64 (x + Second - 1)) Second * Second) in
  x ≤ y < x + Second ∧ y mod Second = 0.
Proof.
  intros Hx Hmax. assert (Second = 1000000000) as HS by done. unfold max_duration in Hmax.
  rewrite (i64_small (x + Second - 1)) by lia. rewrite Z.quot_div_nonneg by lia.
  pose proof (Z.div_mod (x + Second - 1) Second ltac:(lia)) as Hdm.
  pose proof (Z.mod_pos_bound (x + Second - 1) Second ltac:(lia)) as Hmb.
  rewrite i64_small by lia. split; [lia|]. by apply Z.mod_mul.
Qed.

(** A quota refusal names a sufficient wait.  For a window shorter than the
    64-bit range of durations, a claim refused for a quota is told to wait a
    positive time, at most the configured maximum and in whole seconds below it;
    unless it was cut to the maximum, after that wait the quota window the
    refusal was counted in is over. *)
Theorem refusal_wait_suffices o m t0 t subject class policy e d w' :
  NewManager o = Ok m → rtc limits_step (Traced (start m) t0 []) t → tr_now t ≤ clock e →
  Claim_ subject class (e, tr_state t) = (Ok (None, d), w') →
  de_Reason d = DenialOrgQuota ∨ de_Reason d = DenialCredentialQuota →
  PolicySet_policy (op_Policies o) class = Ok policy → qp_Window policy ≤ max_duration - Second →
  0 < de_RetryAfter d ≤ mg_maxRetry (ls_manager (tr_state t)) ∧
  (de_RetryAfter d < mg_maxRetry (ls_manager (tr_state t)) →
   de_RetryAfter d mod Second = 0 ∧
   ∃ p w, win_at w'.2 class (sj_OrgID subject) = Some p ∧ ls_heap w'.2 !! p = Some w ∧
     ∀ later, clock e + de_RetryAfter d ≤ later → quotaExpired w policy later = true).
Proof.
  intros Hm Hsteps Hle Hrun Hreason Hpol Hmax.
  pose proof (steps_history _ _ _ Hsteps (start_history _ _ t0 Hm)) as Hok.
  pose proof (hi_retry _ _ Hok) as Hretry. rewrite <-(hi_policies _ _ Hok) in Hpol.
  apply (Claim_spec _ _ _ _ _ _ _ Hrun (hi_inv _ _ Hok)) in Hle as (_ & _ & Href).
  cbn in Href. set (m1 := ls_manager (tr_state t)) in *. set (now := clock e) in *.
  destruct Href as [->|[[-> _]|(policy' & p & w & Hpol' & Hp & Hw & Hq & Hd)]]; [by destruct Hreason..|].
  assert (policy' = policy) as -> by congruence.
  assert (0 < qp_Window policy) as HW.
  { apply (policy_window _ _ _ Hpol). destruct Hd as [[_ ?]|[_ ?]]; [left|right]; lia. }
  specialize (Hq HW). set (x := time_Sub (time_Add (uw_quotaStarted w) (qp_Window policy)) now).
  assert (x = uw_quotaStarted w + qp_Window policy - now) as Hx.
  { unfold x, time_Sub, time_Add, max_duration, min_duration in *. change Second with 1000000000 in *.
    unfold time, duration in *. lia. }
  destruct (round_up x) as (Hy & Hmod); [lia|unfold time, duration in *; lia|].
  assert (de_RetryAfter d = Z.min (i64 (Z.quot (i64 (x + Second - 1)) Second * Second)) (mg_maxRetry m1)) as Hr.
  { destruct Hd as [[-> _]|[-> _]]; unfold quota_denied; fold x;
      rewrite (proj2 (Z.leb_gt x 0)) by (unfold time, duration in *; lia); done. }
  rewrite Hr. set (y := i64 _) in *. split; [unfold time, duration in *; lia|]. intros Hlt.
  assert (Z.min y (mg_maxRetry m1) = y) as -> by lia. split; [done|].
  exists p, w. split_and!; [done..|]. intros later Hlater. unfold quotaExpired, time_Before, time_Add.
  rewrite (proj2 (Z.ltb_lt 0 _) HW), bool_decide_false; [done|]. unfold time, duration in *. lia.
Qed.

(** ** A concrete history

    One claim is made and completed; the same credential is then refused for
    its quota. *)

Definition sample_policy : quotaPolicy := Policy Minute 2 1 (Budget 5 0 0).
Definition sample_options : Options :=
  Opts (Policies sample_policy sample_policy sample_policy sample_policy sample_policy sample_policy
          sample_policy) 2 1 1 0 0 (2 * Minute).
Definition sample_subject : Subject := Subj "org-1" "cred-1" "".
Definition limits_at (n : Z) : env := Env [] [n * Second].

Definition sample_manager : Manager :=
  Eval vm_compute in
    match NewManager sample_options with Ok m => m | _ => Mgr (op_Policies sample_options) 0 0 0 0 0 0 ∅ ∅ end.
Definition claimed : limits_state :=
  Eval vm_compute in (Claim_ sample_subject RequestClassContext (limits_at 100, start sample_manager)).2.2.
Definition completed : env * limits_state :=
  Eval vm_compute in (Complete (Some 0%nat) (Usage_of 7 1 1) (limits_at 110, claimed)).2.
Definition refused_decision : Decision := Decide false DenialCredentialQuota (40 * Second).
Definition refused_state : env * limits_state :=
  Eval vm_compute in (Claim_ sample_subject RequestClassContext (limits_at 120, completed.2)).2.
Definition sample_usage : UsageTotals :=
  Eval vm_compute in
    match (Usage sample_subject RequestClassContext (limits_at 105, claimed)).1 with
    | Ok u => u | _ => Totals 0 no_counters no_counters end.
Definition sample_log : list admission := [entry_of RequestClassContext sample_subject (100 * Second)].

Lemma sample_manager_run : NewManager sample_options = Ok sample_manager.
Proof. vm_compute. reflexivity. Qed.
Lemma claimed_run :
  limits_exec (LClaim sample_subject RequestClassContext) (limits_at 100, start sample_manager)
  = (Ok (Some 0%nat), (limits_at 100, claimed)).
Proof. vm_compute. reflexivity. Qed.
Lemma completed_run :
  Complete (Some 0%nat) (Usage_of 7 1 1) (limits_at 110, claimed) = (Err ErrResourceBudgetExceeded, completed).
Proof. vm_compute. reflexivity. Qed.
Lemma completed_step_run :
  limits_exec (LComplete (Some 0%nat) (Usage_of 7 1 1)) (limits_at 110, claimed)
  = (Err ErrResourceBudgetExceeded, completed).
Proof. vm_compute. reflexivity. Qed.
Lemma refused_run :
  Claim_ sample_subject RequestClassContext (limits_at 120, completed.2)
  = (Ok (None, refused_decision), refused_state).
Proof. vm_compute. reflexivity. Qed.
Lemma again_run :
  CompleteWithBudget (Some 0%nat) (Usage_of 1 1 1) (Budget 0 0 0) (limits_at 130, completed.2)
  = (Err ErrResourceBudgetExceeded, (limits_at 130, completed.2)).
Proof. vm_compute. reflexivity. Qed.
Lemma usage_run :
  Usage sample_subject RequestClassContext (limits_at 105, claimed) = (Ok sample_usage, (limits_at 105, claimed)).
Proof. vm_compute. reflexivity. Qed.

Lemma claimed_steps :
  rtc limits_step (Traced (start sample_manager) 0 []) (Traced claimed (100 * Second) sample_log).
Proof.
  apply rtc_once. refine (lstep (Traced (start sample_manager) 0 []) _ _ _ _ claimed_run _ _); [|exact I].
  vm_compute. discriminate.
Qed.
Lemma completed_steps :
  rtc limits_step (Traced (start sample_manager) 0 []) (Traced completed.2 (110 * Second) sample_log).
Proof.
  eapply rtc_r; [exact claimed_steps|].
  refine (lstep (Traced claimed (100 * Second) sample_log) _ _ _ _ completed_step_run _ _).
  - vm_compute. discriminate.
  - vm_compute. eauto.
Qed.

Lemma limits_accounts_witness :
  limits_ok claimed ∧
  uc_Admitted (ut_Org sample_usage) - uc_Completed (ut_Org sample_usage)
  = Z.of_nat (open_where (λ c, bool_decide (cl_class c = RequestClassContext) && of_org "org-1" c)
                (ls_claims claimed)).
Proof.
  destruct (limits_accounts sample_options sample_manager 0 (Traced claimed (100 * Second) sample_log)
    sample_manager_run claimed_steps) as (Hok & _ & Hu & _). split; [exact Hok|].
  refine (Hu sample_subject RequestClassContext (limits_at 105) sample_usage (limits_at 105, claimed) _ usage_run).
  vm_compute. discriminate.
Defined.

Lemma rate_limited_witness :
  admitted_in (in_org RequestClassContext "org-1") sample_log (90 * Second) (90 * Second + Minute) ≤ 4.
Proof.
  exact (proj1 (rate_limited sample_options sample_manager 0 (Traced completed.2 (110 * Second) sample_log)
    RequestClassContext sample_policy "org-1" (90 * Second) sample_manager_run completed_steps eq_refl) eq_refl).
Defined.

Lemma claim_settles_once_witness :
  Err ErrResourceBudgetExceeded = @Err () ErrResourceBudgetExceeded ∧ completed.2 = completed.2.
Proof.
  refine (claim_settles_once sample_options sample_manager 0 (Traced claimed (100 * Second) sample_log)
    (Traced completed.2 (110 * Second) sample_log) 0 (Usage_of 7 1 1) (Usage_of 1 1 1) (Budget 0 0 0)
    (limits_at 110) (limits_at 130) _ _ completed (limits_at 130, completed.2)
    sample_manager_run claimed_steps _ _ completed_run eq_refl (rtc_refl _ _) _ eq_refl eq_refl
    (or_introl again_run)); vm_compute; (discriminate || eauto).
Defined.

Lemma refusal_wait_suffices_witness :
  0 < de_RetryAfter refused_decision ≤ mg_maxRetry (ls_manager completed.2).
Proof.
  refine (proj1 (refusal_wait_suffices sample_options sample_manager 0 (Traced completed.2 (110 * Second) sample_log)
    sample_subject RequestClassContext sample_policy (limits_at 120) refused_decision refused_state
    sample_manager_run completed_steps _ refused_run (or_intror eq_refl) eq_refl _)); vm_compute; discriminate.
Defined.
