(* ===== verification/AttemptLimiter.v ===== *)
(** * AttemptLimiter: authentication attempts per address

    internal/auth/limiter.go.  A release closure is an entry of [lt_releases]:
    the address it counts against and whether its [once] has run.  The optional
    interfaces a limiter may also implement are optional fields of the record of
    its operations.  Counts that an operation moves by one are unbounded. *)

From Stdlib Require Import ZArith Lia Ascii.
From stdpp Require Import sorting pretty numbers gmap strings list_numbers list.
From S2P Require Import Prelude GoStrings.

Open Scope Z_scope.

Inductive AttemptRefusal :=
  | RefusalNone
  | RefusalFailureBudget
  | RefusalInFlight
  | RefusalTrackedKeys
  | RefusalUnspecified
  | RefusalVerificationSlot.
#[global] Instance AttemptRefusal_eq_dec : EqDecision AttemptRefusal.
Proof. solve_decision. Defined.

Definition OverBudgetVerificationSlots : Z := 1.

Record AttemptDecision := Attempt {
  ad_Refusal : AttemptRefusal;
  ad_InFlight : Z;
  ad_FirstRefusal : bool;
  ad_OverBudget : bool;
}.

Definition Admitted_ (d : AttemptDecision) : bool := bool_decide (ad_Refusal d = RefusalNone).

Record fixedWindow := Fixed {
  fw_Started : time;
  fw_Count : Z;
  fw_RefusalLogged : bool;
}.

Record MemoryLimiter := Memory {
  ml_Window : duration;
  ml_AttemptLimit : Z;
  ml_FailureLimit : Z;
  ml_maxKeys : Z;
  ml_maxInflight : Z;
  ml_attempts : gmap string fixedWindow;
  ml_failures : gmap string fixedWindow;
  ml_inflight : gmap string Z;
}.

Record MemoryLimiterOptions := LimiterOptions {
  lo_Window : duration;
  lo_AttemptLimit : Z;
  lo_FailureLimit : Z;
  lo_MaxTrackedKeys : Z;
  lo_MaxInFlight : Z;
}.

Definition DefaultMaxInFlight : Z := 64.

Definition NewBoundedMemoryLimiter (o : MemoryLimiterOptions) : MemoryLimiter :=
  let maxKeys := if lo_MaxTrackedKeys o <? 1 then 1 else lo_MaxTrackedKeys o in
  let maxInflight := if lo_MaxInFlight o <? 1 then DefaultMaxInFlight else lo_MaxInFlight o in
  Memory (lo_Window o) (lo_AttemptLimit o) (lo_FailureLimit o) maxKeys maxInflight ∅ ∅ ∅.

Definition NewMemoryLimiter (window : duration) (attemptLimit failureLimit : Z) : MemoryLimiter :=
  NewBoundedMemoryLimiter (LimiterOptions window attemptLimit failureLimit 4096 0).

Definition set_attempts (ws : gmap string fixedWindow) (l : MemoryLimiter) : MemoryLimiter :=
  Memory (ml_Window l) (ml_AttemptLimit l) (ml_FailureLimit l) (ml_maxKeys l) (ml_maxInflight l)
    ws (ml_failures l) (ml_inflight l).
Definition set_failures (ws : gmap string fixedWindow) (l : MemoryLimiter) : MemoryLimiter :=
  Memory (ml_Window l) (ml_AttemptLimit l) (ml_FailureLimit l) (ml_maxKeys l) (ml_maxInflight l)
    (ml_attempts l) ws (ml_inflight l).
Definition set_inflight (inflight : gmap string Z) (l : MemoryLimiter) : MemoryLimiter :=
  Memory (ml_Window l) (ml_AttemptLimit l) (ml_FailureLimit l) (ml_maxKeys l) (ml_maxInflight l)
    (ml_attempts l) (ml_failures l) inflight.

(** ** Windows *)

Definition live (l : MemoryLimiter) (now : time) (w : fixedWindow) : bool :=
  time_Before now (time_Add (fw_Started w) (ml_Window l)).

Definition current (l : MemoryLimiter) (w : fixedWindow) (now : time) : fixedWindow :=
  if (ml_Window l <=? 0) || time_IsZero (fw_Started w) || negb (live l now w)
  then Fixed now 0 false else w.

(** The loop of [window]: expired entries leave the map. *)
Definition sweep_keys (l : MemoryLimiter) (now : time) (ws : gmap string fixedWindow)
    : gmap string fixedWindow :=
  filter (λ kv : string * fixedWindow, live l now kv.2 = true) ws.

Definition inflight_of (l : MemoryLimiter) (key : string) : Z := default 0 (ml_inflight l !! key).

(** [l.window(windows, key, now)], after the loop; [None] is an address the
    table cannot track. *)
Definition window (l : MemoryLimiter) (ws : gmap string fixedWindow) (key : string) (now : time)
    : option fixedWindow :=
  match ws !! key with
  | Some w => Some (current l w now)
  | None =>
    if (ml_maxKeys l <=? Z.of_nat (size ws)) && (inflight_of l key =? 0) then None
    else Some (Fixed now 0 false)
  end.

Definition count_one (w : fixedWindow) : fixedWindow :=
  Fixed (fw_Started w) (fw_Count w + 1) (fw_RefusalLogged w).
Definition log_refusal (w : fixedWindow) : fixedWindow := Fixed (fw_Started w) (fw_Count w) true.

(** ** Operations that only count *)

Definition AllowAttempt (key : string) (now : time) (l : MemoryLimiter) : bool * MemoryLimiter :=
  let attempts := sweep_keys l now (ml_attempts l) in
  match window l attempts key now with
  | None => (false, set_attempts attempts l)
  | Some w =>
    if (0 <? ml_AttemptLimit l) && (ml_AttemptLimit l <=? fw_Count w)
    then (false, set_attempts (<[key := w]> attempts) l)
    else (true, set_attempts (<[key := count_one w]> attempts) l)
  end.

Definition over_limit (l : MemoryLimiter) (w : fixedWindow) : bool :=
  (0 <? ml_FailureLimit l) && (ml_FailureLimit l <=? fw_Count w).

Definition FailureBlocked (key : string) (now : time) (l : MemoryLimiter) : bool * MemoryLimiter :=
  let failures := sweep_keys l now (ml_failures l) in
  match window l failures key now with
  | None => (true, set_failures failures l)
  | Some w => (over_limit l w, set_failures (<[key := w]> failures) l)
  end.

Definition RecordFailure (key : string) (now : time) (l : MemoryLimiter) : MemoryLimiter :=
  let failures := sweep_keys l now (ml_failures l) in
  match window l failures key now with
  | None => set_failures failures l
  | Some w => set_failures (<[key := count_one w]> failures) l
  end.

(** Answers whether the failure is a refusal and whether it is the first. *)
Definition RecordRejection (key : string) (now : time) (admittedOverBudget : bool) (l : MemoryLimiter)
    : (bool * bool) * MemoryLimiter :=
  let failures := sweep_keys l now (ml_failures l) in
  match window l failures key now with
  | None => ((true, true), set_failures failures l)
  | Some w =>
    let overBudget := admittedOverBudget || over_limit l w in
    let first := overBudget && negb (fw_RefusalLogged w) in
    let w := if overBudget then log_refusal w else w in
    ((overBudget, first), set_failures (<[key := count_one w]> failures) l)
  end.

Definition remaining (l : MemoryLimiter) (ws : gmap string fixedWindow) (key : string) (now : time)
    (retryAfter : duration) : duration :=
  match ws !! key with
  | None => retryAfter
  | Some w =>
    let left_ := time_Sub (time_Add (fw_Started w) (ml_Window l)) now in
    if retryAfter <? left_ then left_ else retryAfter
  end.

Definition RetryAfter (key : string) (now : time) (l : MemoryLimiter) : duration :=
  let retryAfter := remaining l (ml_failures l) key now (remaining l (ml_attempts l) key now 0) in
  if (retryAfter <=? 0) && ((ml_maxKeys l <=? Z.of_nat (size (ml_attempts l)))
                            || (ml_maxKeys l <=? Z.of_nat (size (ml_failures l))))
  then ml_Window l else retryAfter.

(** ** Attempts *)

Record release := Release { rl_key : string; rl_done : bool }.

Record limiter_state := LState {
  lt_limiter : MemoryLimiter;
  lt_releases : gmap nat release;
}.

Definition on_limiter (l : MemoryLimiter) (s : limiter_state) : limiter_state := LState l (lt_releases s).

(** The answer's first part is the release closure, [None] for nil. *)
Definition begin (key : string) (now : time) (verification : bool) (s : limiter_state)
    : (option nat * AttemptDecision) * limiter_state :=
  let l := lt_limiter s in
  let failures := sweep_keys l now (ml_failures l) in
  let current := inflight_of l key in
  match window l failures key now with
  | None => ((None, Attempt RefusalTrackedKeys current true false), on_limiter (set_failures failures l) s)
  | Some w =>
    let overBudget := over_limit l w in
    let tracked w := on_limiter (set_failures (<[key := w]> failures) l) s in
    if overBudget && negb verification then
      ((None, Attempt RefusalFailureBudget current (negb (fw_RefusalLogged w)) false), tracked (log_refusal w))
    else if overBudget && (OverBudgetVerificationSlots <=? current) then
      ((None, Attempt RefusalVerificationSlot current (negb (fw_RefusalLogged w)) false), tracked (log_refusal w))
    else if ml_maxInflight l <=? current then
      ((None, Attempt RefusalInFlight current true false), tracked w)
    else if bool_decide (ml_inflight l !! key = None) && (ml_maxKeys l <=? Z.of_nat (size (ml_inflight l))) then
      ((None, Attempt RefusalTrackedKeys current true false), tracked w)
    else
      let h := fresh (dom (lt_releases s)) in
      let l' := set_inflight (<[key := current + 1]> (ml_inflight l))
                  (set_failures (<[key := w]> failures) l) in
      ((Some h, Attempt RefusalNone (current + 1) false overBudget),
       LState l' (<[h := Release key false]> (lt_releases s)))
  end.

(** Calling the closure. *)
Definition release_ (h : nat) (s : limiter_state) : limiter_state :=
  match lt_releases s !! h with
  | None => s
  | Some r =>
    if rl_done r then s
    else
      let l := lt_limiter s in
      LState (set_inflight (count_down (rl_key r) (ml_inflight l)) l) (<[h := Release (rl_key r) true]> (lt_releases s))
  end.

Definition BeginAttemptDecision (key : string) (now : time) (s : limiter_state) := begin key now false s.
Definition BeginVerification (key : string) (now : time) (s : limiter_state) := begin key now true s.
Definition BeginAttempt (key : string) (now : time) (s : limiter_state) : (option nat * bool) * limiter_state :=
  let '((h, d), s') := BeginAttemptDecision key now s in ((h, Admitted_ d), s').

(** ** Any limiter *)

(** The [AttemptLimiter] interface over a state, with [DecisionLimiter] and
    [VerificationLimiter] as what a type assertion may find. *)
Record limiter (S : Type) := Limiter {
  li_AllowAttempt : string → time → S → bool * S;
  li_FailureBlocked : string → time → S → bool * S;
  li_BeginAttempt : string → time → S → (option nat * bool) * S;
  li_RecordFailure : string → time → S → S;
  li_RetryAfter : string → time → S → duration;
  li_decision : option (string → time → S → (option nat * AttemptDecision) * S);
  li_verification : option ((string → time → S → (option nat * AttemptDecision) * S)
                            * (string → time → bool → S → (bool * bool) * S));
}.
Arguments Limiter {S}.
Arguments li_AllowAttempt {S}.
Arguments li_FailureBlocked {S}.
Arguments li_BeginAttempt {S}.
Arguments li_RecordFailure {S}.
Arguments li_RetryAfter {S}.
Arguments li_decision {S}.
Arguments li_verification {S}.

Section any.
Context {S : Type} (limiter : limiter S).

(** [auth.BeginAttemptDecision(limiter, key, now)] *)
Definition BeginAttemptDecision_of (key : string) (now : time) (s : S) : (option nat * AttemptDecision) * S :=
  match li_decision limiter with
  | Some decide => decide key now s
  | None =>
    let '((h, admitted), s') := li_BeginAttempt limiter key now s in
    if admitted then ((h, Attempt RefusalNone 0 false false), s')
    else ((None, Attempt RefusalUnspecified 0 true false), s')
  end.

(** [auth.BeginVerificationDecision(limiter, key, now)] *)
Definition BeginVerificationDecision (key : string) (now : time) (s : S) : (option nat * AttemptDecision) * S :=
  match li_verification limiter with
  | Some (verify, _) => verify key now s
  | None => BeginAttemptDecision_of key now s
  end.

(** [auth.RecordRejection(limiter, key, now, admittedOverBudget)] *)
Definition RecordRejection_of (key : string) (now : time) (admittedOverBudget : bool) (s : S) : (bool * bool) * S :=
  match li_verification limiter with
  | Some (_, reject) => reject key now admittedOverBudget s
  | None => ((false, false), li_RecordFailure limiter key now s)
  end.
End any.

(** [NoopLimiter] implements the plain interface only; its release does
    nothing, so it needs no closure state. *)
Definition NoopLimiter : limiter () :=
  Limiter (λ _ _ s, (true, s)) (λ _ _ s, (false, s)) (λ _ _ s, ((None, true), s)) (λ _ _ s, s)
    (λ _ _ _, 0) None None.

Definition lifted {A} (f : MemoryLimiter → A * MemoryLimiter) (s : limiter_state) : A * limiter_state :=
  let '(a, l) := f (lt_limiter s) in (a, on_limiter l s).

(** [*MemoryLimiter] implements all three. *)
Definition memory_limiter : limiter limiter_state :=
  Limiter (λ key now, lifted (AllowAttempt key now)) (λ key now, lifted (FailureBlocked key now))
    BeginAttempt (λ key now s, on_limiter (RecordFailure key now (lt_limiter s)) s)
    (λ key now s, RetryAfter key now (lt_limiter s))
    (Some BeginAttemptDecision)
    (Some (BeginVerification, λ key now over, lifted (RecordRejection key now over))).
