(* ===== verification/AttemptTheorems.v ===== *)
(** * AttemptTheorems: the guarantees of the attempt limiter

    Memory and concurrency stay bounded whatever is called; in any history with
    a clock that does not move back, the failures of attempts admitted under the
    failure limit overshoot it by less than the in-flight bound, none of them is
    lost, and each address reports at most one first refusal per window. *)

From Stdlib Require Import ZArith Lia Ascii.
From stdpp Require Import sorting pretty numbers gmap strings list_numbers list.
From S2P Require Import Prelude GoStrings AttemptLimiter.

Open Scope Z_scope.

(** ** Bounded memory *)

Definition open_for (key : string) (r : release) : bool :=
  negb (rl_done r) && bool_decide (rl_key r = key).
Definition opened (s : limiter_state) (key : string) : nat := countm (open_for key) (lt_releases s).

Definition tracked_keys (l : MemoryLimiter) : gset string := dom (ml_failures l) ∪ dom (ml_inflight l).

Record lim_ok (s : limiter_state) : Prop := {
  lb_count : ∀ key, inflight_of (lt_limiter s) key = Z.of_nat (opened s key);
  lb_positive : ∀ key n, ml_inflight (lt_limiter s) !! key = Some n → 0 < n;
  lb_cap : ∀ key, inflight_of (lt_limiter s) key ≤ ml_maxInflight (lt_limiter s);
  lb_table : Z.of_nat (size (ml_inflight (lt_limiter s))) ≤ ml_maxKeys (lt_limiter s);
  lb_tracked : Z.of_nat (size (tracked_keys (lt_limiter s))) ≤ 2 * ml_maxKeys (lt_limiter s);
  lb_room : 1 ≤ ml_maxKeys (lt_limiter s) ∧ 1 ≤ ml_maxInflight (lt_limiter s);
}.

(** The bounds of a limiter never change. *)
Record same_limits (l l' : MemoryLimiter) : Prop := {
  sl_Window : ml_Window l' = ml_Window l;
  sl_FailureLimit : ml_FailureLimit l' = ml_FailureLimit l;
  sl_maxKeys : ml_maxKeys l' = ml_maxKeys l;
  sl_maxInflight : ml_maxInflight l' = ml_maxInflight l;
}.

Lemma same_limits_refl l : same_limits l l.
Proof. by split. Qed.
Lemma same_limits_trans l1 l2 l3 : same_limits l1 l2 → same_limits l2 l3 → same_limits l1 l3.
Proof. intros [] []. split; congruence. Qed.

Lemma lim_ok_start o : lim_ok (LState (NewBoundedMemoryLimiter o) ∅).
Proof.
  set (l := NewBoundedMemoryLimiter o).
  assert (1 ≤ ml_maxKeys l ∧ 1 ≤ ml_maxInflight l) as [Hk Hi].
  { unfold l, NewBoundedMemoryLimiter, DefaultMaxInFlight. cbn. split; case_match; lia. }
  split; cbn [lt_limiter lt_releases]; try done.
  - intros key. change (inflight_of l key) with 0. lia.
  - change (size (ml_inflight l)) with 0%nat. lia.
  - unfold tracked_keys. change (ml_failures l) with (∅ : gmap string fixedWindow).
    change (ml_inflight l) with (∅ : gmap string Z).
    rewrite !dom_empty_L, union_empty_l_L, size_empty. lia.
Qed.

(** A sweep only removes; tracking one address adds it where there is room or
    where it is in flight already. *)
Lemma size_dom {A} (m : gmap string A) : size (dom m) = size m.
Proof. apply size_dom. Qed.

Lemma sweep_dom l now ws : dom (sweep_keys l now ws) ⊆ dom ws.
Proof. apply subseteq_dom, map_filter_subseteq. Qed.

Lemma tracked_sweep l now fs :
  fs = sweep_keys l now (ml_failures l) → tracked_keys (set_failures fs l) ⊆ tracked_keys l.
Proof. intros ->. unfold tracked_keys. cbn. pose proof (sweep_dom l now (ml_failures l)). set_solver. Qed.

Lemma tracked_window l now key w w' :
  let fs := sweep_keys l now (ml_failures l) in
  window l fs key now = Some w →
  Z.of_nat (size (ml_inflight l)) ≤ ml_maxKeys l → Z.of_nat (size (tracked_keys l)) ≤ 2 * ml_maxKeys l →
  Z.of_nat (size (tracked_keys (set_failures (<[key := w']> fs) l))) ≤ 2 * ml_maxKeys l.
Proof.
  intros fs Hw Hin Htr. pose proof (tracked_sweep l now fs eq_refl) as Hsub.
  assert (tracked_keys (set_failures (<[key := w']> fs) l) = {[key]} ∪ tracked_keys (set_failures fs l)) as ->.
  { unfold tracked_keys. cbn. rewrite dom_insert_L. set_solver. }
  destruct (decide (key ∈ tracked_keys l)) as [Hk|Hk].
  - assert (size ({[key]} ∪ tracked_keys (set_failures fs l)) ≤ size (tracked_keys l))%nat; [|lia].
    apply subseteq_size. set_solver.
  - unfold window in Hw. destruct (fs !! key) as [x|] eqn:Ex.
    { exfalso. apply Hk, elem_of_union_l, (sweep_dom l now), elem_of_dom. eauto. }
    destruct (_ && _) eqn:Efull in Hw; [done|]. apply andb_false_iff in Efull.
    assert (Z.of_nat (size fs) < ml_maxKeys l) as Hroom.
    { destruct Efull as [E%Z.leb_gt|E%Z.eqb_neq]; [done|]. exfalso. apply Hk, elem_of_union_r, elem_of_dom.
      unfold inflight_of in E. destruct (ml_inflight l !! key); [eauto|done]. }
    assert (size (tracked_keys (set_failures fs l)) ≤ size fs + size (ml_inflight l))%nat as H1.
    { unfold tracked_keys. cbn. rewrite <-!size_dom, size_union_alt.
      pose proof (subseteq_size (dom (ml_inflight l) ∖ dom fs) (dom (ml_inflight l)) ltac:(set_solver)). lia. }
    assert (size ({[key]} ∪ tracked_keys (set_failures fs l)) ≤ 1 + size (tracked_keys (set_failures fs l)))%nat as H2.
    { rewrite size_union_alt, size_singleton.
      pose proof (subseteq_size (tracked_keys (set_failures fs l) ∖ {[key]}) (tracked_keys (set_failures fs l))
        ltac:(set_solver)). lia. }
    lia.
Qed.

(** A change of the failure table alone. *)
Lemma lim_ok_failures s fs :
  lim_ok s → Z.of_nat (size (tracked_keys (set_failures fs (lt_limiter s)))) ≤ 2 * ml_maxKeys (lt_limiter s) →
  lim_ok (on_limiter (set_failures fs (lt_limiter s)) s).
Proof. by intros [C P M T U R] Htr; split. Qed.

Lemma lim_ok_swept s now :
  lim_ok s → lim_ok (on_limiter (set_failures (sweep_keys (lt_limiter s) now (ml_failures (lt_limiter s)))
                                   (lt_limiter s)) s).
Proof.
  intros Hok. apply lim_ok_failures; [done|]. pose proof (lb_tracked _ Hok).
  pose proof (subseteq_size _ _ (tracked_sweep (lt_limiter s) now _ eq_refl)). lia.
Qed.

Lemma lim_ok_window s now key w w' :
  let fs := sweep_keys (lt_limiter s) now (ml_failures (lt_limiter s)) in
  lim_ok s → window (lt_limiter s) fs key now = Some w →
  lim_ok (on_limiter (set_failures (<[key := w']> fs) (lt_limiter s)) s).
Proof.
  intros fs Hok Hw. apply lim_ok_failures; [done|].
  eapply tracked_window; [done|apply Hok|apply Hok].
Qed.

(** One more attempt in flight. *)
Lemma lim_ok_begin s key h :
  lim_ok s → lt_releases s !! h = None → key ∈ dom (ml_failures (lt_limiter s)) →
  inflight_of (lt_limiter s) key < ml_maxInflight (lt_limiter s) →
  is_Some (ml_inflight (lt_limiter s) !! key)
    ∨ Z.of_nat (size (ml_inflight (lt_limiter s))) < ml_maxKeys (lt_limiter s) →
  lim_ok (LState (set_inflight (<[key := inflight_of (lt_limiter s) key + 1]> (ml_inflight (lt_limiter s)))
                    (lt_limiter s)) (<[h := Release key false]> (lt_releases s))).
Proof.
  intros [C P M T U R] Hh Hkey Hcap Hroom.
  assert (∀ k, inflight_of (set_inflight (<[key := inflight_of (lt_limiter s) key + 1]>
      (ml_inflight (lt_limiter s))) (lt_limiter s)) k
    = (if decide (k = key) then 1 else 0) + inflight_of (lt_limiter s) k) as Hi.
  { intros k. unfold inflight_of at 1. cbn. destruct (decide (k = key)) as [->|Hne].
    - rewrite lookup_insert_eq. cbn. lia.
    - by rewrite lookup_insert_ne. }
  split; cbn; try done.
  - intros k. rewrite Hi. unfold opened. cbn. rewrite countm_add by done. unfold open_for at 1. cbn.
    rewrite C. unfold opened. destruct (decide (k = key)) as [->|Hne].
    + rewrite bool_decide_true by done. lia.
    + rewrite bool_decide_false by done. lia.
  - intros k n [[_ <-]|[_ Hk]]%lookup_insert_Some; [|by eapply P]. pose proof (C key). lia.
  - intros k. rewrite Hi. pose proof (M k). destruct (decide (k = key)) as [->|]; lia.
  - rewrite map_size_insert. destruct (ml_inflight (lt_limiter s) !! key); [done|].
    destruct Hroom as [[]|?]; [done|lia].
  - assert (tracked_keys (set_inflight (<[key := inflight_of (lt_limiter s) key + 1]>
      (ml_inflight (lt_limiter s))) (lt_limiter s)) = tracked_keys (lt_limiter s)) as ->; [|done].
    unfold tracked_keys. cbn. rewrite dom_insert_L. set_solver.
Qed.

Lemma begin_lim_ok key now verification s :
  lim_ok s → lim_ok (begin key now verification s).2.
Proof.
  intros Hok. unfold begin. set (l := lt_limiter s). set (fs := sweep_keys l now (ml_failures l)).
  destruct (window l fs key now) as [w|] eqn:Hw; [|by apply lim_ok_swept].
  assert (∀ w', lim_ok (on_limiter (set_failures (<[key := w']> fs) l) s)) as Hset
    by (intros w'; by eapply lim_ok_window).
  destruct (_ && negb verification); [apply Hset|]. destruct (_ && _); [apply Hset|].
  destruct (ml_maxInflight l <=? _) eqn:Ecap; [apply Hset|]. apply Z.leb_gt in Ecap.
  destruct (bool_decide _ && _) eqn:Eroom; [apply Hset|].
  apply (lim_ok_begin (on_limiter (set_failures (<[key := w]> fs) l) s)); [apply Hset|..]; cbn.
  - apply not_elem_of_dom, is_fresh.
  - rewrite dom_insert_L. set_solver.
  - done.
  - apply andb_false_iff in Eroom as [E%bool_decide_eq_false|E%Z.leb_gt]; [left|by right].
    by apply not_eq_None_Some.
Qed.

Lemma release_lim_ok h s : lim_ok s → lim_ok (release_ h s).
Proof.
  intros Hok. unfold release_. destruct (lt_releases s !! h) as [r|] eqn:Hr; [|done].
  destruct (rl_done r) eqn:Ed; [done|]. pose proof Hok as [C P M T U R].
  destruct (count_down_spec (rl_key r) (ml_inflight (lt_limiter s)) P) as [Hpos Hdown].
  assert (∀ k, inflight_of (set_inflight (count_down (rl_key r) (ml_inflight (lt_limiter s))) (lt_limiter s)) k
    = if decide (k = rl_key r) then Z.max 0 (inflight_of (lt_limiter s) k - 1)
      else inflight_of (lt_limiter s) k) as Hi by (intros k; apply Hdown).
  assert (dom (count_down (rl_key r) (ml_inflight (lt_limiter s))) ⊆ dom (ml_inflight (lt_limiter s))) as Hsub.
  { intros k [n Hn]%elem_of_dom. specialize (Hdown k). rewrite Hn in Hdown. cbn in Hdown.
    specialize (Hpos _ _ Hn). apply elem_of_dom. destruct (ml_inflight (lt_limiter s) !! k); [eauto|].
    cbn in Hdown. case_decide; lia. }
  split; cbn; try done.
  - intros k. rewrite Hi. unfold opened. cbn.
    pose proof (countm_update (open_for k) (lt_releases s) h r (Release (rl_key r) true) Hr) as Hu.
    pose proof (C k) as Ck. unfold opened in Ck. unfold open_for in Hu at 1 3. rewrite Ed in Hu. cbn in Hu.
    destruct (decide (k = rl_key r)) as [->|Hne].
    + rewrite bool_decide_true in Hu by done. lia.
    + rewrite bool_decide_false in Hu by done. lia.
  - intros k. rewrite Hi. pose proof (M k). destruct (decide _); lia.
  - rewrite <-size_dom in *. pose proof (subseteq_size _ _ Hsub). lia.
  - enough (size (tracked_keys (set_inflight (count_down (rl_key r) (ml_inflight (lt_limiter s))) (lt_limiter s)))
      ≤ size (tracked_keys (lt_limiter s)))%nat by lia.
    apply subseteq_size. unfold tracked_keys. cbn. set_solver.
Qed.

(** *** Any sequence of calls *)

Inductive limiter_op :=
  | AAllow (key : string) (now : time)
  | ABlocked (key : string) (now : time)
  | ABegin (key : string) (now : time) (verification : bool)
  | AFailure (key : string) (now : time)
  | ARejection (key : string) (now : time) (admittedOverBudget : bool)
  | ARelease (h : nat).

Definition limiter_exec (op : limiter_op) (s : limiter_state) : limiter_state :=
  match op with
  | AAllow key now => on_limiter (AllowAttempt key now (lt_limiter s)).2 s
  | ABlocked key now => on_limiter (FailureBlocked key now (lt_limiter s)).2 s
  | ABegin key now verification => (begin key now verification s).2
  | AFailure key now => on_limiter (RecordFailure key now (lt_limiter s)) s
  | ARejection key now over => on_limiter (RecordRejection key now over (lt_limiter s)).2 s
  | ARelease h => release_ h s
  end.

Lemma limiter_exec_ok op s : lim_ok s → lim_ok (limiter_exec op s).
Proof.
  intros Hok. destruct op as [key now|key now|key now v|key now|key now over|h]; cbn.
  - unfold AllowAttempt. destruct (window _ _ _ _); [destruct (_ && _)|]; by destruct Hok; split.
  - unfold FailureBlocked. destruct (window _ _ _ _) as [w|] eqn:Hw; cbn;
      [by eapply lim_ok_window|by apply lim_ok_swept].
  - by apply begin_lim_ok.
  - unfold RecordFailure. destruct (window _ _ _ _) as [w|] eqn:Hw;
      [by eapply lim_ok_window|by apply lim_ok_swept].
  - unfold RecordRejection. destruct (window _ _ _ _) as [w|] eqn:Hw; cbn;
      [by eapply lim_ok_window|by apply lim_ok_swept].
  - by apply release_lim_ok.
Qed.

(** ** Histories

    [ah_pending] holds the attempts in flight that were admitted under the
    failure limit and have not failed; [ah_failed] the failures of such attempts
    and [ah_first] the first refusals reported, each with its address and the
    start of the window it was counted in. *)

Record attempt_history := AHist {
  ah_state : limiter_state;
  ah_now : time;
  ah_pending : gmap nat string;
  ah_failed : list (string * time);
  ah_first : list (string * time);
}.

(** The window an address has after a call, as a log entry. *)
Definition entry (key : string) (l : MemoryLimiter) : list (string * time) :=
  match ml_failures l !! key with Some w => [(key, fw_Started w)] | None => [] end.

(** A refusal that [FirstRefusal] tells apart from its repeats. *)
Definition budget_refusal (r : AttemptRefusal) : bool :=
  match r with RefusalFailureBudget | RefusalVerificationSlot => true | _ => false end.

(** Operations in time order.  An attempt records its failure at most once,
    before its release, the way the callers do; any other call may come in
    between. *)
Inductive attempt_step (t : attempt_history) : attempt_history → Prop :=
  | at_begin key now verification h d s' :
      ah_now t ≤ now → begin key now verification (ah_state t) = ((h, d), s') →
      attempt_step t (AHist s' now
        match h with
        | Some h => if ad_OverBudget d then ah_pending t else <[h := key]> (ah_pending t)
        | None => ah_pending t
        end
        (ah_failed t)
        ((if budget_refusal (ad_Refusal d) && ad_FirstRefusal d then entry key (lt_limiter s') else [])
         ++ ah_first t))
  | at_failure h key now :
      ah_now t ≤ now → ah_pending t !! h = Some key →
      let l' := RecordFailure key now (lt_limiter (ah_state t)) in
      attempt_step t (AHist (on_limiter l' (ah_state t)) now (delete h (ah_pending t))
        (entry key l' ++ ah_failed t) (ah_first t))
  | at_rejection h key now answer l' :
      ah_now t ≤ now → ah_pending t !! h = Some key →
      RecordRejection key now false (lt_limiter (ah_state t)) = (answer, l') →
      attempt_step t (AHist (on_limiter l' (ah_state t)) now (delete h (ah_pending t))
        (entry key l' ++ ah_failed t)
        ((if answer.2 then entry key l' else []) ++ ah_first t))
  | at_over_rejection key now answer l' :
      ah_now t ≤ now → RecordRejection key now true (lt_limiter (ah_state t)) = (answer, l') →
      attempt_step t (AHist (on_limiter l' (ah_state t)) now (ah_pending t) (ah_failed t)
        ((if answer.2 then entry key l' else []) ++ ah_first t))
  | at_blocked key now :
      ah_now t ≤ now →
      attempt_step t (AHist (on_limiter (FailureBlocked key now (lt_limiter (ah_state t))).2 (ah_state t)) now
        (ah_pending t) (ah_failed t) (ah_first t))
  | at_allow key now :
      ah_now t ≤ now →
      attempt_step t (AHist (on_limiter (AllowAttempt key now (lt_limiter (ah_state t))).2 (ah_state t)) now
        (ah_pending t) (ah_failed t) (ah_first t))
  | at_release h :
      attempt_step t (AHist (release_ h (ah_state t)) (ah_now t) (delete h (ah_pending t))
        (ah_failed t) (ah_first t)).

(** How many logged entries name this window of this address. *)
Definition logged_in (key : string) (st : time) (log : list (string * time)) : Z :=
  Z.of_nat (length (List.filter (λ e, bool_decide (e = (key, st))) log)).

Lemma logged_cons key st e log :
  logged_in key st (e :: log) = (if bool_decide (e = (key, st)) then 1 else 0) + logged_in key st log.
Proof. unfold logged_in. cbn. case_bool_decide; cbn; lia. Qed.

Lemma logged_fresh key st log : (key, st) ∉ log → logged_in key st log = 0.
Proof.
  induction log as [|e log IH]; [done|]. intros [Hne Hl]%not_elem_of_cons. rewrite logged_cons, IH by done.
  by rewrite bool_decide_false.
Qed.

(** What the failure table says of the logs. *)
Record table_ok (l : MemoryLimiter) (now : time) (pending : string → Z)
    (failed first : list (string * time)) : Prop := {
  tb_started : ∀ key w, ml_failures l !! key = Some w → 0 < fw_Started w ≤ now;
  tb_past : ∀ key st, (key, st) ∈ failed ++ first →
    match ml_failures l !! key with
    | Some w => st = fw_Started w ∨ st + ml_Window l ≤ fw_Started w
    | None => st + ml_Window l ≤ now
    end;
  tb_count : ∀ key w, ml_failures l !! key = Some w →
    logged_in key (fw_Started w) failed ≤ fw_Count w;
  tb_pending : ∀ key w, ml_failures l !! key = Some w →
    logged_in key (fw_Started w) failed + pending key ≤ ml_FailureLimit l - 1 + ml_maxInflight l;
  tb_bound : ∀ key st, logged_in key st failed ≤ ml_FailureLimit l - 1 + ml_maxInflight l;
  tb_first : ∀ key w, ml_failures l !! key = Some w → (key, fw_Started w) ∈ first → fw_RefusalLogged w = true;
  tb_once : NoDup first;
}.

(** The table after the sweep of a call at [now]. *)
Definition swept (l : MemoryLimiter) (now : time) : MemoryLimiter :=
  set_failures (sweep_keys l now (ml_failures l)) l.

Lemma live_spec l now w : live l now w = true ↔ now < fw_Started w + ml_Window l.
Proof. unfold live, time_Before, time_Add. by rewrite bool_decide_eq_true. Qed.

Lemma swept_lookup l now key :
  ml_failures (swept l now) !! key
  = match ml_failures l !! key with Some w => if live l now w then Some w else None | None => None end.
Proof.
  cbn. unfold sweep_keys. destruct (ml_failures l !! key) as [w|] eqn:E.
  - destruct (live l now w) eqn:El.
    + by apply map_lookup_filter_Some.
    + apply map_lookup_filter_None. right. intros x Hx. cbn. congruence.
  - apply map_lookup_filter_None. by left.
Qed.

Lemma table_swept l now now' pending failed first :
  table_ok l now pending failed first → now ≤ now' → table_ok (swept l now') now' pending failed first.
Proof.
  intros [S P C W B F O] Hle.
  assert (∀ key w, ml_failures (swept l now') !! key = Some w → ml_failures l !! key = Some w) as Hsub.
  { intros key w. rewrite swept_lookup. destruct (ml_failures l !! key) as [x|]; [|done].
    by destruct (live l now' x). }
  split; try done.
  - intros key w Hw. specialize (S key w (Hsub _ _ Hw)). lia.
  - intros key st Hin. specialize (P key st Hin). rewrite swept_lookup.
    destruct (ml_failures l !! key) as [w|] eqn:Ew; [|cbn; unfold time, duration in *; lia].
    specialize (S key w Ew). destruct (live l now' w) eqn:El; [done|]. change (ml_Window (swept l now')) with (ml_Window l).
    assert (¬ now' < fw_Started w + ml_Window l) by (rewrite <-live_spec; congruence).
    unfold time, duration in *. destruct P; lia.
  - intros key w Hw. by apply C, Hsub.
  - intros key w Hw. by apply W, Hsub.
  - intros key w Hw. by apply F, Hsub.
Qed.

(** The window a call works on: the stored one, or a new one from now on. *)
Lemma window_cases l now key w failed first pending :
  0 < ml_Window l → table_ok (swept l now) now pending failed first →
  window l (ml_failures (swept l now)) key now = Some w →
  ml_failures (swept l now) !! key = Some w ∨
  (ml_failures (swept l now) !! key = None ∧ w = Fixed now 0 false).
Proof.
  intros HW Htab. unfold window. destruct (ml_failures (swept l now) !! key) as [x|] eqn:Ex.
  - intros [= <-]. left. f_equal. unfold current.
    assert (live l now x = true) as ->.
    { rewrite swept_lookup in Ex. destruct (ml_failures l !! key) as [y|]; [|done].
      by destruct (live l now y) eqn:El; simplify_eq. }
    pose proof (tb_started _ _ _ _ _ Htab _ _ Ex). unfold time_IsZero.
    rewrite bool_decide_false by (unfold time in *; lia). cbn. rewrite orb_false_r.
    by destruct (ml_Window l <=? 0) eqn:E; [lia|].
  - destruct (_ && _); [done|]. intros [= <-]. by right.
Qed.

(** An open attempt's failure is never lost. *)
Lemma open_window l fs key now : inflight_of l key ≠ 0 → is_Some (window l fs key now).
Proof.
  intros Hin. unfold window. destruct (fs !! key); [eauto|]. apply Z.eqb_neq in Hin.
  rewrite Hin, andb_false_r. eauto.
Qed.

(** Storing the window back, perhaps counted or marked, with what the call
    logs. *)
Lemma table_store l now key w w' pending pending' failed first (fails reports : bool) :
  0 < ml_Window l → 0 < ml_FailureLimit l → 0 < now →
  table_ok (swept l now) now pending failed first →
  window l (ml_failures (swept l now)) key now = Some w →
  fw_Started w' = fw_Started w →
  (if fails then 1 else 0) + fw_Count w ≤ fw_Count w' →
  (fw_RefusalLogged w = true → fw_RefusalLogged w' = true) →
  (reports = true → fw_RefusalLogged w = false ∧ fw_RefusalLogged w' = true) →
  (∀ k, k ≠ key → pending' k ≤ pending k) →
  (pending' key + (if fails then 1 else 0) ≤ pending key ∨
   (fails = false ∧ fw_Count w < ml_FailureLimit l)) →
  pending key ≤ ml_maxInflight l → pending' key ≤ ml_maxInflight l → 0 ≤ pending' key →
  let l' := set_failures (<[key := w']> (ml_failures (swept l now))) l in
  table_ok l' now pending'
    ((if fails then entry key l' else []) ++ failed) ((if reports then entry key l' else []) ++ first).
Proof.
  intros HW HL Hnow Htab Hw Hst Hcount Hlog Hrep Hpo Hpk Hcap Hcap' Hnn l'.
  pose proof Htab as [S P C W B F O].
  assert (entry key l' = [(key, fw_Started w)]) as He.
  { unfold entry. cbn. by rewrite lookup_insert_eq, Hst. }
  rewrite He. clear He.
  assert (0 < fw_Started w ≤ now ∧ logged_in key (fw_Started w) failed ≤ fw_Count w ∧
    logged_in key (fw_Started w) failed + pending key ≤ ml_FailureLimit l - 1 + ml_maxInflight l ∧
    (fw_RefusalLogged w = false → (key, fw_Started w) ∉ first) ∧
    (∀ st, (key, st) ∈ failed ++ first → st = fw_Started w ∨ st + ml_Window l ≤ fw_Started w))
    as (Hs & Hc & Hp & Hf & Hpast).
  { destruct (window_cases _ _ _ _ _ _ _ HW Htab Hw) as [Hl|[Hl ->]].
    - split_and!; [by apply (S key)|by apply (S key)|by apply C|by apply W| |].
      + intros Hno Hin. by rewrite (F _ _ Hl Hin) in Hno.
      + intros st Hin. specialize (P _ _ Hin). by rewrite Hl in P.
    - assert (∀ st, (key, st) ∈ failed ++ first → st + ml_Window l ≤ now) as Hold.
      { intros st Hin. specialize (P _ _ Hin). by rewrite Hl in P. }
      assert ((key, now) ∉ failed ++ first) as Hn by (intros Hin; specialize (Hold _ Hin); lia).
      cbn. rewrite logged_fresh by (intros Hin; apply Hn, elem_of_app; by left).
      split_and!; [done|done|lia|lia| |].
      + intros _ Hin. apply Hn, elem_of_app. by right.
      + intros st Hin. right. by apply Hold. }
  assert (∀ k st, logged_in k st ((if fails then [(key, fw_Started w)] else []) ++ failed)
    = (if fails && bool_decide ((key, fw_Started w) = (k, st)) then 1 else 0) + logged_in k st failed) as Hlg.
  { intros k st. destruct fails; cbn [app andb]; [apply logged_cons|lia]. }
  assert (∀ k, k ≠ key → ∀ st, fails && bool_decide ((key, fw_Started w) = (k, st)) = false) as Hoth.
  { intros k Hk st. rewrite bool_decide_false by congruence. apply andb_false_r. }
  split.
  - intros k x. cbn. intros [[<- <-]|[_ Hx]]%lookup_insert_Some; [by rewrite Hst|by eapply S].
  - intros k st Hin.
    assert ((k, st) = (key, fw_Started w) ∨ (k, st) ∈ failed ++ first) as Hin'.
    { destruct fails, reports; cbn in Hin; set_solver. }
    cbn. destruct (decide (k = key)) as [->|Hne].
    + rewrite lookup_insert_eq, Hst. destruct Hin' as [[= ->]|Hin']; [by left|by apply Hpast].
    + rewrite lookup_insert_ne by done. destruct Hin' as [[= -> _]|Hin']; [done|]. by apply (P k).
  - intros k x. cbn. rewrite Hlg. intros [[<- <-]|[Hne Hx]]%lookup_insert_Some.
    + rewrite Hst. destruct fails; cbn; [rewrite bool_decide_true by done|]; lia.
    + rewrite Hoth by done. by apply C.
  - intros k x. cbn. rewrite Hlg. intros [[<- <-]|[Hne Hx]]%lookup_insert_Some.
    + rewrite Hst. destruct Hpk as [Hpk|[-> Hpk]].
      * destruct fails; cbn; [rewrite bool_decide_true by done|]; lia.
      * cbn. lia.
    + rewrite Hoth by done. specialize (W _ _ Hx). specialize (Hpo k ltac:(done)). cbn in W. lia.
  - intros k st. cbn. rewrite Hlg. specialize (B k st). cbn in B.
    destruct (fails && _) eqn:E; [|lia]. apply andb_true_iff in E as [-> [= <- <-]%bool_decide_eq_true].
    destruct Hpk as [Hpk|[? _]]; [|done]. lia.
  - intros k x. cbn. intros [[<- <-]|[Hne Hx]]%lookup_insert_Some Hin.
    + rewrite Hst in Hin. destruct (fw_RefusalLogged w) eqn:Er; [by apply Hlog|].
      destruct reports; [by apply Hrep|]. by apply Hf in Hin.
    + destruct reports; [|by eapply F]. apply elem_of_app in Hin as [Hin|Hin]; [|by eapply F].
      apply list_elem_of_singleton in Hin. congruence.
  - destruct reports; [|done]. cbn. apply NoDup_cons. split; [|done]. apply Hf. by apply Hrep.
Qed.

Lemma table_ext l l' now pending failed first :
  ml_failures l' = ml_failures l → same_limits l l' →
  table_ok l now pending failed first → table_ok l' now pending failed first.
Proof. intros E [E1 E2 E3 E4] [S P C W B F O]. by split; rewrite ?E, ?E1, ?E2, ?E4. Qed.

Lemma table_pending l now pending pending' failed first :
  (∀ k, pending' k ≤ pending k) → table_ok l now pending failed first → table_ok l now pending' failed first.
Proof.
  intros Hle [S P C W B F O]. split; try done. intros key w Hw. specialize (W key w Hw).
  specialize (Hle key). lia.
Qed.

Lemma table_later l now now' pending failed first :
  now ≤ now' → table_ok l now pending failed first → table_ok l now' pending failed first.
Proof.
  intros Hle [S P C W B F O]. split; try done.
  - intros key w Hw. specialize (S key w Hw). lia.
  - intros key st Hin. specialize (P key st Hin). destruct (ml_failures l !! key); [done|].
    unfold time, duration in *. lia.
Qed.

(** *** The history invariant *)

Definition pending_of (pending : gmap nat string) (key : string) : Z :=
  Z.of_nat (countm (λ k, bool_decide (k = key)) pending).

Record hist_ok (t : attempt_history) : Prop := {
  hk_lim : lim_ok (ah_state t);
  hk_now : 0 < ah_now t;
  hk_window : 0 < ml_Window (lt_limiter (ah_state t));
  hk_limit : 0 < ml_FailureLimit (lt_limiter (ah_state t));
  hk_pending : ∀ h key, ah_pending t !! h = Some key → lt_releases (ah_state t) !! h = Some (Release key false);
  hk_table : table_ok (lt_limiter (ah_state t)) (ah_now t) (pending_of (ah_pending t)) (ah_failed t) (ah_first t);
}.

Lemma pending_nonneg p key : 0 ≤ pending_of p key.
Proof. unfold pending_of. lia. Qed.

Lemma pending_opened t key :
  hist_ok t → pending_of (ah_pending t) key ≤ inflight_of (lt_limiter (ah_state t)) key.
Proof.
  intros Hok. rewrite (lb_count _ (hk_lim _ Hok)). unfold pending_of, opened.
  enough (countm (λ k, bool_decide (k = key)) (ah_pending t)
    ≤ countm (open_for key) (lt_releases (ah_state t)))%nat by lia.
  apply countm_le. intros h k Hk ->%bool_decide_eq_true. eexists.
  split; [by apply (hk_pending _ Hok)|]. unfold open_for. cbn. by rewrite bool_decide_true.
Qed.

Lemma pending_cap t key :
  hist_ok t → pending_of (ah_pending t) key ≤ ml_maxInflight (lt_limiter (ah_state t)).
Proof.
  intros Hok. pose proof (pending_opened t key Hok). pose proof (lb_cap _ (hk_lim _ Hok) key). lia.
Qed.

Lemma pending_delete p h key k :
  p !! h = Some key → pending_of (delete h p) k = pending_of p k - (if decide (k = key) then 1 else 0).
Proof.
  intros Hh. unfold pending_of. rewrite (countm_delete _ p h key Hh).
  destruct (decide (k = key)) as [->|Hne].
  - rewrite bool_decide_true by done. lia.
  - rewrite bool_decide_false by done. lia.
Qed.

Lemma pending_delete_le p h k : pending_of (delete h p) k ≤ pending_of p k.
Proof.
  destruct (p !! h) as [key|] eqn:Hh; [|by rewrite delete_id].
  rewrite (pending_delete p h key k Hh). destruct (decide _); lia.
Qed.

Lemma pending_insert p h key k :
  p !! h = None → pending_of (<[h := key]> p) k = pending_of p k + (if decide (k = key) then 1 else 0).
Proof.
  intros Hh. unfold pending_of. rewrite countm_add by done.
  destruct (decide (k = key)) as [->|Hne].
  - rewrite bool_decide_true by done. lia.
  - rewrite bool_decide_false by done. lia.
Qed.

(** The table part of a call that stores the window back. *)
Lemma call_table t now key w w' pending' (fails reports : bool) :
  hist_ok t → ah_now t ≤ now →
  let l := lt_limiter (ah_state t) in
  window l (sweep_keys l now (ml_failures l)) key now = Some w →
  fw_Started w' = fw_Started w → (if fails then 1 else 0) + fw_Count w ≤ fw_Count w' →
  (fw_RefusalLogged w = true → fw_RefusalLogged w' = true) →
  (reports = true → fw_RefusalLogged w = false ∧ fw_RefusalLogged w' = true) →
  (∀ k, k ≠ key → pending_of pending' k ≤ pending_of (ah_pending t) k) →
  (pending_of pending' key + (if fails then 1 else 0) ≤ pending_of (ah_pending t) key ∨
   (fails = false ∧ fw_Count w < ml_FailureLimit l)) →
  pending_of pending' key ≤ ml_maxInflight l →
  let l' := set_failures (<[key := w']> (sweep_keys l now (ml_failures l))) l in
  table_ok l' now (pending_of pending')
    ((if fails then entry key l' else []) ++ ah_failed t) ((if reports then entry key l' else []) ++ ah_first t).
Proof.
  intros Hok Hle l Hw Hst Hc Hlog Hrep Hpo Hpk Hcap l'.
  eapply table_store; [apply Hok|apply Hok| |eapply table_swept; [apply Hok|exact Hle]|exact Hw|done..| |done|].
  - pose proof (hk_now _ Hok). unfold time in *. lia.
  - by apply pending_cap.
  - apply pending_nonneg.
Qed.

Lemma call_swept t now :
  hist_ok t → ah_now t ≤ now →
  let l := lt_limiter (ah_state t) in
  table_ok (set_failures (sweep_keys l now (ml_failures l)) l) now (pending_of (ah_pending t))
    (ah_failed t) (ah_first t).
Proof. intros Hok Hle. eapply table_swept; [apply Hok|exact Hle]. Qed.

Lemma window_none l ws key now : window l ws key now = None → ws !! key = None.
Proof. unfold window. by destruct (ws !! key). Qed.

Lemma not_over l w : over_limit l w = false → 0 < ml_FailureLimit l → fw_Count w < ml_FailureLimit l.
Proof. unfold over_limit. lia. Qed.

(** The history after a call whose state and table are known. *)
Lemma hist_ok_next t s' now pending' failed' first' :
  hist_ok t → ah_now t ≤ now → lim_ok s' → same_limits (lt_limiter (ah_state t)) (lt_limiter s') →
  (∀ h key, pending' !! h = Some key → lt_releases s' !! h = Some (Release key false)) →
  table_ok (lt_limiter s') now (pending_of pending') failed' first' →
  hist_ok (AHist s' now pending' failed' first').
Proof.
  intros [L N W F P T] Hle Hl [E1 E2 _ _] Hp Ht. split; cbn; try done; [|by rewrite E1|by rewrite E2].
  unfold time in *. lia.
Qed.

Lemma begin_step t key now verification h d s' :
  hist_ok t → ah_now t ≤ now → begin key now verification (ah_state t) = ((h, d), s') →
  hist_ok (AHist s' now
    match h with
    | Some h => if ad_OverBudget d then ah_pending t else <[h := key]> (ah_pending t)
    | None => ah_pending t
    end
    (ah_failed t)
    ((if budget_refusal (ad_Refusal d) && ad_FirstRefusal d then entry key (lt_limiter s') else [])
     ++ ah_first t)).
Proof.
  intros Hok Hle Hrun.
  assert (lim_ok s') as Hlim.
  { pose proof (begin_lim_ok key now verification _ (hk_lim _ Hok)) as H. by rewrite Hrun in H. }
  pose proof (hk_pending _ Hok) as Hpend. pose proof (pending_cap t key Hok) as Hcap.
  unfold begin in Hrun. cbv zeta in Hrun. set (l := lt_limiter (ah_state t)) in *.
  set (fs := sweep_keys l now (ml_failures l)) in *.
  destruct (window l fs key now) as [w|] eqn:Hw in Hrun.
  2:{ injection Hrun as <- <- <-. apply (hist_ok_next t); try done. by apply call_swept. }
  assert (∀ (w' : fixedWindow) (reports : bool),
    fw_Started w' = fw_Started w → fw_Count w' = fw_Count w →
    (fw_RefusalLogged w = true → fw_RefusalLogged w' = true) →
    (reports = true → fw_RefusalLogged w = false ∧ fw_RefusalLogged w' = true) →
    table_ok (set_failures (<[key := w']> fs) l) now (pending_of (ah_pending t)) (ah_failed t)
      ((if reports then entry key (set_failures (<[key := w']> fs) l) else []) ++ ah_first t)) as Hset.
  { intros w' reports H1 H2 H3 H4.
    apply (call_table t now key w w' _ false reports); try done; [cbn; lia|left; cbn; lia]. }
  destruct (over_limit l w && negb verification) eqn:E1 in Hrun.
  { injection Hrun as <- <- <-. apply (hist_ok_next t); try done. cbn.
    apply (Hset (log_refusal w) (negb (fw_RefusalLogged w))); try done.
    intros Hr. apply negb_true_iff in Hr. by split. }
  destruct (over_limit l w && _) eqn:E2 in Hrun.
  { injection Hrun as <- <- <-. apply (hist_ok_next t); try done. cbn.
    apply (Hset (log_refusal w) (negb (fw_RefusalLogged w))); try done.
    intros Hr. apply negb_true_iff in Hr. by split. }
  destruct (ml_maxInflight l <=? inflight_of l key) eqn:E3 in Hrun.
  { injection Hrun as <- <- <-. apply (hist_ok_next t); try done. by apply (Hset w false). }
  destruct (bool_decide _ && _) eqn:E4 in Hrun.
  { injection Hrun as <- <- <-. apply (hist_ok_next t); try done. by apply (Hset w false). }
  injection Hrun as <- <- <-. apply Z.leb_gt in E3. set (h' := fresh (dom (lt_releases (ah_state t)))) in *.
  assert (lt_releases (ah_state t) !! h' = None) as Hfresh by (apply not_elem_of_dom, is_fresh).
  assert (ah_pending t !! h' = None) as Hnew.
  { destruct (ah_pending t !! h') as [k|] eqn:E; [|done]. apply Hpend in E. congruence. }
  apply (hist_ok_next t); try done.
  - cbn. intros k x. destruct (over_limit l w).
    + intros Hk. rewrite lookup_insert_ne by congruence. by apply Hpend.
    + intros [[<- <-]|[Hne Hk]]%lookup_insert_Some; [by rewrite lookup_insert_eq|].
      rewrite lookup_insert_ne by done. by apply Hpend.
  - apply (table_ext (set_failures (<[key := w]> fs) l)); [done..|]. cbn.
    destruct (over_limit l w) eqn:Eo; [by apply (Hset w false)|].
    pose proof (pending_opened t key Hok) as Hop.
    apply (call_table t now key w w _ false false); try done.
    + intros k Hne. rewrite pending_insert by done. rewrite decide_False by done. lia.
    + right. split; [done|]. apply not_over; [done|apply Hok].
    + rewrite pending_insert by done. rewrite decide_True by done. fold l. fold l in Hop. revert Hop E3. clear. intros. lia.
Qed.

(** A pending attempt is open, so its address has a window. *)
Lemma pending_window t h key now fs :
  hist_ok t → ah_pending t !! h = Some key →
  ∃ w, window (lt_limiter (ah_state t)) fs key now = Some w.
Proof.
  intros Hok Hh. apply open_window. pose proof (pending_opened t key Hok) as Hop.
  pose proof (pending_delete (ah_pending t) h key key Hh) as Hd. rewrite decide_True in Hd by done.
  pose proof (pending_nonneg (delete h (ah_pending t)) key). lia.
Qed.

Lemma pending_kept t h k x :
  hist_ok t → delete h (ah_pending t) !! k = Some x →
  lt_releases (ah_state t) !! k = Some (Release x false).
Proof. intros Hok [_ Hk]%lookup_delete_Some. by apply (hk_pending _ Hok). Qed.

Lemma fail_table t h key now w w' (reports : bool) :
  hist_ok t → ah_now t ≤ now → ah_pending t !! h = Some key →
  let l := lt_limiter (ah_state t) in
  window l (sweep_keys l now (ml_failures l)) key now = Some w →
  fw_Started w' = fw_Started w → fw_Count w' = fw_Count w + 1 →
  (fw_RefusalLogged w = true → fw_RefusalLogged w' = true) →
  (reports = true → fw_RefusalLogged w = false ∧ fw_RefusalLogged w' = true) →
  let l' := set_failures (<[key := w']> (sweep_keys l now (ml_failures l))) l in
  table_ok l' now (pending_of (delete h (ah_pending t)))
    (entry key l' ++ ah_failed t) ((if reports then entry key l' else []) ++ ah_first t).
Proof.
  intros Hok Hle Hh l Hw H1 H2 H3 H4 l'.
  pose proof (pending_delete (ah_pending t) h key key Hh) as Hd. rewrite decide_True in Hd by done.
  apply (call_table t now key w w' (delete h (ah_pending t)) true reports); try done.
  - lia.
  - intros k _. apply pending_delete_le.
  - left. lia.
  - pose proof (pending_cap t key Hok). lia.
Qed.

Lemma step_hist t t' : attempt_step t t' → hist_ok t → hist_ok t'.
Proof.
  intros Hstep Hok. pose proof (hk_lim _ Hok) as Hlim. pose proof (hk_pending _ Hok) as Hpend.
  destruct Hstep as [key now v h d s' Hle Hrun|h key now Hle Hh l'|h key now answer l' Hle Hh Hrun
    |key now answer l' Hle Hrun|key now Hle|key now Hle|h].
  - by eapply begin_step.
  - destruct (pending_window t h key now (sweep_keys (lt_limiter (ah_state t)) now
      (ml_failures (lt_limiter (ah_state t)))) Hok Hh) as [w Hw].
    pose proof (limiter_exec_ok (AFailure key now) _ Hlim) as Hlim'. cbn in Hlim'. fold l' in Hlim'.
    assert (l' = set_failures (<[key := count_one w]> (sweep_keys (lt_limiter (ah_state t)) now
      (ml_failures (lt_limiter (ah_state t))))) (lt_limiter (ah_state t))) as El
      by (unfold l', RecordFailure; by rewrite Hw).
    apply (hist_ok_next t); try done; [by rewrite El|intros k x; by apply pending_kept|].
    cbn. rewrite El. by apply (fail_table t h key now w (count_one w) false).
  - destruct (pending_window t h key now (sweep_keys (lt_limiter (ah_state t)) now
      (ml_failures (lt_limiter (ah_state t)))) Hok Hh) as [w Hw].
    pose proof (limiter_exec_ok (ARejection key now false) _ Hlim) as Hlim'. cbn in Hlim'. rewrite Hrun in Hlim'.
    unfold RecordRejection in Hrun. rewrite Hw in Hrun. injection Hrun as <- <-. cbn [orb] in *.
    apply (hist_ok_next t); try done; [intros k x; by apply pending_kept|].
    eapply fail_table; [done..|exact Hw| | | |]; try by destruct (over_limit _ w).
    cbn. destruct (over_limit _ w); [|done]. intros Hr. by apply negb_true_iff in Hr.
  - pose proof (limiter_exec_ok (ARejection key now true) _ Hlim) as Hlim'. cbn in Hlim'. rewrite Hrun in Hlim'.
    unfold RecordRejection in Hrun. destruct (window _ _ key now) as [w|] eqn:Hw.
    + injection Hrun as <- <-. cbn [orb andb] in *. apply (hist_ok_next t); try done.
      apply (call_table t now key w (count_one (log_refusal w)) _ false (negb (fw_RefusalLogged w))); try done.
      * cbn. lia.
      * intros Hr. by apply negb_true_iff in Hr.
      * left. cbn. lia.
      * by apply pending_cap.
    + injection Hrun as <- <-. apply window_none in Hw. apply (hist_ok_next t); try done. cbn [snd].
      unfold entry. cbn [ml_failures set_failures]. rewrite Hw. by apply call_swept.
  - pose proof (limiter_exec_ok (ABlocked key now) _ Hlim) as Hlim'. cbn in Hlim'.
    unfold FailureBlocked in *. destruct (window _ _ key now) as [w|] eqn:Hw; cbn [snd] in *.
    + apply (hist_ok_next t); try done.
      apply (call_table t now key w w _ false false); try done; [left; cbn; lia|by apply pending_cap].
    + apply (hist_ok_next t); try done. by apply call_swept.
  - pose proof (limiter_exec_ok (AAllow key now) _ Hlim) as Hlim'. cbn in Hlim'.
    assert (∃ ws, (AllowAttempt key now (lt_limiter (ah_state t))).2 = set_attempts ws (lt_limiter (ah_state t)))
      as [ws E].
    { unfold AllowAttempt. destruct (window _ _ _ _); [destruct (_ && _)|]; by eexists. }
    rewrite E in *. apply (hist_ok_next t); try done.
    apply (table_ext (lt_limiter (ah_state t))); [done..|]. eapply table_later; [exact Hle|apply Hok].
  - pose proof (limiter_exec_ok (ARelease h) _ Hlim) as Hlim'. cbn in Hlim'.
    assert (∃ inflight, lt_limiter (release_ h (ah_state t)) = set_inflight inflight (lt_limiter (ah_state t)))
      as [inflight E].
    { unfold release_. destruct (lt_releases (ah_state t) !! h) as [r|]; [destruct (rl_done r)|];
        [|by eexists|]; exists (ml_inflight (lt_limiter (ah_state t))); by destruct (lt_limiter (ah_state t)). }
    apply (hist_ok_next t); try done; rewrite ?E; try done.
    + intros k x [Hne Hk]%lookup_delete_Some. apply Hpend in Hk. unfold release_.
      destruct (lt_releases (ah_state t) !! h) as [r|]; [|done]. destruct (rl_done r); [done|]. cbn.
      by rewrite lookup_insert_ne.
    + apply (table_ext (lt_limiter (ah_state t))); [done..|]. eapply table_pending; [|apply Hok].
      intros k. apply pending_delete_le.
Qed.

(** A new limiter, before its first call at [t0]. *)
Definition fresh_history (o : MemoryLimiterOptions) (t0 : time) : attempt_history :=
  AHist (LState (NewBoundedMemoryLimiter o) ∅) t0 ∅ [] [].

Lemma fresh_hist_ok o t0 :
  0 < lo_Window o → 0 < lo_FailureLimit o → 0 < t0 → hist_ok (fresh_history o t0).
Proof.
  intros HW HL Ht. pose proof (lim_ok_start o) as Hlim. split; cbn; try done.
  pose proof (lb_room _ Hlim) as [_ Hmax]. cbn in Hmax. split; cbn; try done.
  - intros key st Hin. by apply elem_of_nil in Hin.
  - intros key st. unfold logged_in. cbn [List.filter length]. unfold DefaultMaxInFlight in *. lia.
  - apply NoDup_nil_2.
Qed.

Lemma steps_hist t t' : rtc attempt_step t t' → hist_ok t → hist_ok t'.
Proof. induction 1; [done|]. intros H1. by eapply IHrtc, step_hist. Qed.

Lemma steps_limits t t' : rtc attempt_step t t' → same_limits (lt_limiter (ah_state t)) (lt_limiter (ah_state t')).
Proof.
  induction 1 as [t|t1 t2 t3 Hstep _ IH]; [apply same_limits_refl|].
  eapply same_limits_trans; [|exact IH]. clear IH. destruct Hstep as [key now v h d s' _ Hrun| | | | | |h]; cbn.
  - unfold begin in Hrun. cbv zeta in Hrun.
    destruct (window _ _ _ _); [destruct (_ && _); [|destruct (_ && _); [|destruct (_ <=? _); [|destruct (_ && _)]]]|];
      by injection Hrun as _ _ <-.
  - unfold l', RecordFailure. by destruct (window _ _ _ _).
  - unfold RecordRejection in *. by destruct (window _ _ _ _); simplify_eq.
  - unfold RecordRejection in *. by destruct (window _ _ _ _); simplify_eq.
  - unfold FailureBlocked. by destruct (window _ _ _ _).
  - unfold AllowAttempt. destruct (window _ _ _ _); [destruct (_ && _)|]; done.
  - unfold release_. destruct (lt_releases _ !! h) as [r|]; [destruct (rl_done r)|]; done.
Qed.

(** ** Properties *)

(** The limiter's memory and concurrency are bounded whatever is called, at
    any times and in any order.  The in-flight count of an address is the number
    of its attempts whose release has not run (a second run changes nothing) and
    never passes the in-flight bound; the in-flight table holds at most
    [maxKeys] addresses and the failure table, as its comment says, at most
    twice as many. *)
Theorem limiter_bounded o ops :
  let s := foldl (λ s op, limiter_exec op s) (LState (NewBoundedMemoryLimiter o) ∅) ops in
  (∀ key, inflight_of (lt_limiter s) key = Z.of_nat (opened s key) ∧
          inflight_of (lt_limiter s) key ≤ ml_maxInflight (lt_limiter s)) ∧
  Z.of_nat (size (ml_inflight (lt_limiter s))) ≤ ml_maxKeys (lt_limiter s) ∧
  Z.of_nat (size (ml_failures (lt_limiter s))) ≤ 2 * ml_maxKeys (lt_limiter s) ∧
  ∀ h, release_ h (release_ h s) = release_ h s.
Proof.
  intros s. assert (lim_ok s) as Hok.
  { unfold s. generalize (lim_ok_start o). generalize (LState (NewBoundedMemoryLimiter o) ∅). clear.
    induction ops as [|op ops IH]; intros s Hs; [done|]. cbn. by apply IH, limiter_exec_ok. }
  split_and!.
  - intros key. split; apply Hok.
  - apply Hok.
  - pose proof (lb_tracked _ Hok). rewrite <-size_dom.
    pose proof (subseteq_size (dom (ml_failures (lt_limiter s))) (tracked_keys (lt_limiter s))
      ltac:(unfold tracked_keys; set_solver)). lia.
  - intros h. unfold release_ at 2 3. destruct (lt_releases s !! h) as [r|] eqn:Hr; [|unfold release_; by rewrite Hr].
    destruct (rl_done r) eqn:Ed; [unfold release_; by rewrite Hr, Ed|].
    unfold release_. cbn. by rewrite lookup_insert_eq.
Qed.


(** ** A concrete history *)

Definition sample_limiter : MemoryLimiterOptions := LimiterOptions Minute 0 1 1 2.
Definition attempt_1 : (option nat * AttemptDecision) * limiter_state :=
  Eval vm_compute in begin "10.0.0.1" (100 * Second) false (LState (NewBoundedMemoryLimiter sample_limiter) ∅).
Definition attempt_2 : limiter_state :=
  Eval vm_compute in on_limiter (RecordFailure "10.0.0.1" (101 * Second) (lt_limiter attempt_1.2)) attempt_1.2.
Definition attempt_3 : (option nat * AttemptDecision) * limiter_state :=
  Eval vm_compute in begin "10.0.0.1" (102 * Second) true (release_ 0 attempt_2).

Definition sample_history : attempt_history :=
  AHist (release_ 0 attempt_2) (101 * Second) ∅ [("10.0.0.1", 100 * Second)] [].

Lemma attempt_steps : rtc attempt_step (fresh_history sample_limiter Second) sample_history.
Proof.
  eapply rtc_l.
  { apply (at_begin (fresh_history sample_limiter Second) "10.0.0.1" (100 * Second) false (Some 0%nat)
      attempt_1.1.2 attempt_1.2); [vm_compute; discriminate|vm_compute; reflexivity]. }
  eapply rtc_l.
  { eapply (at_failure _ 0 "10.0.0.1" (101 * Second)); [vm_compute; discriminate|vm_compute; reflexivity]. }
  eapply rtc_l; [eapply (at_release _ 0)|].
  match goal with |- rtc _ ?t _ => assert (t = sample_history) as ->; [vm_compute; reflexivity|apply rtc_refl] end.
Qed.


(** The attempts table is not bounded by twice [maxKeys]: with room for one
    address it comes to hold three, as an address leaves the in-flight table
    while its attempts stay counted and another takes its place. *)
Theorem attempts_table_exceeds :
  let o := LimiterOptions 100 5 5 1 1 in
  let ops := [ABegin "b" 10 false; AAllow "a" 50; AAllow "b" 50; ARelease 0;
              ABegin "c" 110 false; AAllow "c" 110] in
  let l := lt_limiter (foldl (λ s op, limiter_exec op s) (LState (NewBoundedMemoryLimiter o) ∅) ops) in
  ml_maxKeys l = 1 ∧ size (ml_attempts l) = 3%nat.
Proof. vm_compute. done. Qed.
