(* ===== verification/UsageTelemetry.v ===== *)
(** * UsageTelemetry: counting the uses of credentials

    internal/auth/usage_telemetry.go, usage_telemetry_worker.go and
    usage_telemetry_lifecycle.go.  Requests hand a record to a bounded queue and
    never wait; one worker takes the records, merges those of one credential,
    and delivers each merged batch to the credential store and the audit trail.

    The queue, the worker's map and the life cycle are the state; the requests,
    the worker, the ticker and [Close] interleave as the steps of [usage_step],
    with the functions below for what each does.  The worker's loop over its map
    delivers the batches in any order.  A context is the list of what its checks
    find; the timeouts of a delivery are part of its context.  The metadata of a
    record is always nil in the program and is left out. *)

From Stdlib Require Import ZArith Lia Ascii.
From stdpp Require Import sorting pretty numbers gmap strings list_numbers list relations.
From S2P Require Import Prelude GoStrings CredTypes Outbox AuditStore CredentialStore.

Open Scope Z_scope.

(** ** Records *)

Record UsageRecord := Usage {
  us_OrgID : string;
  us_CredentialID : string;
  us_ActorType : string;
  us_ActorID : string;
  us_Action : string;
  us_ResourceType : string;
  us_ResourceID : string;
  us_ClientIP : string;
  us_UserAgent : string;
  us_RequestID : string;
  us_UsedAt : time;
}.

Definition or_default (value fallback : string) : string := if negb (isEmpty value) then value else fallback.

Definition usageActorType (r : UsageRecord) : string := or_default (us_ActorType r) "credential".
Definition usageActorID (r : UsageRecord) : string := or_default (us_ActorID r) (us_CredentialID r).
Definition usageAction (r : UsageRecord) : string := or_default (us_Action r) "credential_used".
Definition usageResourceType (r : UsageRecord) : string := or_default (us_ResourceType r) "acr_credential".
Definition usageResourceID (r : UsageRecord) : string := or_default (us_ResourceID r) (usageActorID r).

(** ** State *)

Definition defaultUsageQueueCapacity : Z := 256.
Definition maximumUsageQueueCapacity : Z := 4096.

Record usageBatch := Batch { ub_record : UsageRecord; ub_count : Z }.

Record usageMetrics := Metrics {
  um_enqueued : Z;
  um_coalesced : Z;
  um_dropped : Z;
  um_delivered : Z;
  um_deliveryFailures : Z;
  um_shutdownDropped : Z;
}.

Inductive usageTelemetryState := usageTelemetryOpen | usageTelemetryStopping | usageTelemetryStopped.

(** Why the worker flushes: its batch is full or its ticker has fired, a caller
    of [Flush] waits, or it shuts down. *)
Inductive flush_reason := ForWorker | ForCaller | ForShutdown.

(** Where the worker is. *)
Inductive worker := Waiting | Draining (why : flush_reason) | Flushing (why : flush_reason) | Finished.

Record UsageTelemetry := Telemetry {
  ut_queue : list UsageRecord;
  ut_pending : gmap string usageBatch;
  ut_capacity : Z;
  ut_metrics : usageMetrics;
  ut_state : usageTelemetryState;
  ut_worker : worker;
  ut_audit : bool;
}.

Definition ut_set_queue (q : list UsageRecord) (u : UsageTelemetry) : UsageTelemetry :=
  Telemetry q (ut_pending u) (ut_capacity u) (ut_metrics u) (ut_state u) (ut_worker u) (ut_audit u).
Definition ut_set_pending (p : gmap string usageBatch) (u : UsageTelemetry) : UsageTelemetry :=
  Telemetry (ut_queue u) p (ut_capacity u) (ut_metrics u) (ut_state u) (ut_worker u) (ut_audit u).
Definition ut_set_metrics (m : usageMetrics) (u : UsageTelemetry) : UsageTelemetry :=
  Telemetry (ut_queue u) (ut_pending u) (ut_capacity u) m (ut_state u) (ut_worker u) (ut_audit u).
Definition ut_set_state (s : usageTelemetryState) (u : UsageTelemetry) : UsageTelemetry :=
  Telemetry (ut_queue u) (ut_pending u) (ut_capacity u) (ut_metrics u) s (ut_worker u) (ut_audit u).
Definition ut_set_worker (w : worker) (u : UsageTelemetry) : UsageTelemetry :=
  Telemetry (ut_queue u) (ut_pending u) (ut_capacity u) (ut_metrics u) (ut_state u) w (ut_audit u).

Definition count_enqueued (m : usageMetrics) : usageMetrics :=
  Metrics (um_enqueued m + 1) (um_coalesced m) (um_dropped m) (um_delivered m) (um_deliveryFailures m) (um_shutdownDropped m).
Definition count_coalesced (m : usageMetrics) : usageMetrics :=
  Metrics (um_enqueued m) (um_coalesced m + 1) (um_dropped m) (um_delivered m) (um_deliveryFailures m) (um_shutdownDropped m).
Definition count_dropped (m : usageMetrics) : usageMetrics :=
  Metrics (um_enqueued m) (um_coalesced m) (um_dropped m + 1) (um_delivered m) (um_deliveryFailures m) (um_shutdownDropped m).
Definition count_delivered (m : usageMetrics) : usageMetrics :=
  Metrics (um_enqueued m) (um_coalesced m) (um_dropped m) (um_delivered m + 1) (um_deliveryFailures m) (um_shutdownDropped m).
Definition count_failure (m : usageMetrics) : usageMetrics :=
  Metrics (um_enqueued m) (um_coalesced m) (um_dropped m) (um_delivered m) (um_deliveryFailures m + 1) (um_shutdownDropped m).
Definition count_shutdown (n : Z) (m : usageMetrics) : usageMetrics :=
  Metrics (um_enqueued m) (um_coalesced m) (um_dropped m) (um_delivered m) (um_deliveryFailures m) (um_shutdownDropped m + n).

(** A capacity of zero is the default; [audit] tells whether there is an audit
    store. *)
Definition NewUsageTelemetry (audit : bool) (queueCapacity : Z) : res UsageTelemetry :=
  let capacity := if queueCapacity =? 0 then defaultUsageQueueCapacity else queueCapacity in
  reject! (capacity <? 1) || (maximumUsageQueueCapacity <? capacity)
    with ErrText "credential usage queue capacity is invalid" ;;
  Ok (Telemetry [] ∅ capacity (Metrics 0 0 0 0 0 0) usageTelemetryOpen Waiting audit).

(** ** Requests *)

Definition Enqueue (record : UsageRecord) (u : UsageTelemetry) : UsageTelemetry :=
  if isEmpty (us_OrgID record) || isEmpty (usageActorID record) || time_IsZero (us_UsedAt record) then u
  else
    match ut_state u with
    | usageTelemetryOpen =>
      if Z.of_nat (length (ut_queue u)) <? ut_capacity u
      then ut_set_metrics (count_enqueued (ut_metrics u)) (ut_set_queue (ut_queue u ++ [record]) u)
      else ut_set_metrics (count_dropped (ut_metrics u)) u
    | _ => ut_set_metrics (count_dropped (ut_metrics u)) u
    end.

(** ** The worker *)

Definition NUL : string := of_chars ["000"%char].

Definition batch_key (r : UsageRecord) : string :=
  us_OrgID r +:+ NUL +:+ usageActorID r +:+ NUL +:+ usageAction r +:+ NUL +:+ usageResourceType r +:+ NUL
  +:+ usageResourceID r.

Definition collect (record : UsageRecord) (u : UsageTelemetry) : UsageTelemetry :=
  let key := batch_key record in
  match ut_pending u !! key with
  | None => ut_set_pending (<[key := Batch record 1]> (ut_pending u)) u
  | Some batch =>
    let kept := if time_After (us_UsedAt record) (us_UsedAt (ub_record batch)) then record else ub_record batch in
    ut_set_metrics (count_coalesced (ut_metrics u))
      (ut_set_pending (<[key := Batch kept (ub_count batch + 1)]> (ut_pending u)) u)
  end.

(** [case record := <-u.queue] of the loop *)
Definition receive (record : UsageRecord) (queue : list UsageRecord) (u : UsageTelemetry) : UsageTelemetry :=
  let u := collect record (ut_set_queue queue u) in
  if Z.of_nat (size (ut_pending u)) =? ut_capacity u then ut_set_worker (Flushing ForWorker) u else u.

Definition on_metrics (f : usageMetrics → usageMetrics) : go (usageMetrics * credentialStore) () :=
  modify (λ w, (f w.1, w.2)).

(** A delivery to one sink, with a context of its own: a failure is counted, and
    the batch has failed. *)
Definition sink (failed : bool) (ctx : list (option ctx_err)) (m : go credentialStore ())
    : go (usageMetrics * credentialStore) bool :=
  let! r := attempt (zoom snd (λ s w, (w.1, s)) (with_ctx ctx m)) in
  match r with
  | inl _ => on_metrics count_failure ;; ret true
  | inr _ => ret failed
  end.

(** One batch to its sinks; [ctx1] and [ctx2] are the contexts of the two
    deliveries. *)
Definition deliver (audit : bool) (ctx1 ctx2 : list (option ctx_err)) (batch : usageBatch)
    : go (usageMetrics * credentialStore) () :=
  let record := ub_record batch in
  let! failed :=
    (if bool_decide (usageAction record = "credential_used") then
       sink false ctx1
         (TouchLastUsed (us_OrgID record) (us_CredentialID record) (us_ClientIP record) (us_UserAgent record)
            (us_UsedAt record))
     else ret false) in
  let! failed :=
    (if audit then
       let event := Event (us_OrgID record) "" (usageActorType record) (usageActorID record) (usageAction record)
         (usageResourceType record) (usageResourceID record) "success" (us_RequestID record) None (us_UsedAt record) in
       sink failed ctx2
         (on_audit (Record_ (literal [("successful_use_count", SInt (ub_count batch))]) event (Some (MRef literal_ref))))
     else ret failed) in
  if negb failed then on_metrics count_delivered else ret ().

(** What is left to do after a flush, done or cut short. *)
Definition after_flush (why : flush_reason) (u : UsageTelemetry) : UsageTelemetry :=
  match why with
  | ForShutdown => ut_set_worker Finished (ut_set_state usageTelemetryStopped u)
  | _ => ut_set_worker Waiting u
  end.

Definition pending_count (m : gmap string usageBatch) : Z := map_fold (λ _ b n, ub_count b + n) 0 m.

(** The context of a flush has ended: a final flush gives up what remains. *)
Definition cut_short (why : flush_reason) (u : UsageTelemetry) : UsageTelemetry :=
  match why with
  | ForShutdown =>
    after_flush why (ut_set_pending ∅ (ut_set_metrics (count_shutdown (pending_count (ut_pending u)) (ut_metrics u)) u))
  | _ => after_flush why u
  end.

(** The first call of [Close]; a later one changes nothing. *)
Definition begin_close (u : UsageTelemetry) : UsageTelemetry :=
  match ut_state u with usageTelemetryOpen => ut_set_state usageTelemetryStopping u | _ => u end.

(** ** Steps

    A world is the telemetry, the store its batches go to, and the batches
    delivered so far. *)

Record usage_world := World {
  uw_telemetry : UsageTelemetry;
  uw_store : credentialStore;
  uw_handled : list usageBatch;
}.

Definition on_telemetry (f : UsageTelemetry → UsageTelemetry) (w : usage_world) : usage_world :=
  World (f (uw_telemetry w)) (uw_store w) (uw_handled w).

(** The steps of the worker.  Its own context ends only when [Close] cancels it;
    a caller's may end at any time, and so may the deadline of a shutdown. *)
Inductive worker_step (w : usage_world) : usage_world → Prop :=
  | step_receive record queue :
      ut_worker (uw_telemetry w) = Waiting → ut_queue (uw_telemetry w) = record :: queue →
      worker_step w (on_telemetry (receive record queue) w)
  | step_tick :
      ut_worker (uw_telemetry w) = Waiting → worker_step w (on_telemetry (ut_set_worker (Flushing ForWorker)) w)
  | step_caller :
      ut_worker (uw_telemetry w) = Waiting → worker_step w (on_telemetry (ut_set_worker (Draining ForCaller)) w)
  | step_stop :
      ut_worker (uw_telemetry w) = Waiting → ut_state (uw_telemetry w) ≠ usageTelemetryOpen →
      worker_step w (on_telemetry (ut_set_worker (Draining ForShutdown)) w)
  | step_drain why record queue :
      ut_worker (uw_telemetry w) = Draining why → ut_queue (uw_telemetry w) = record :: queue →
      worker_step w (on_telemetry (λ u, collect record (ut_set_queue queue u)) w)
  | step_drained why :
      ut_worker (uw_telemetry w) = Draining why → ut_queue (uw_telemetry w) = [] →
      worker_step w (on_telemetry (ut_set_worker (Flushing why)) w)
  | step_deliver why key batch ctx1 ctx2 e e' metrics store :
      ut_worker (uw_telemetry w) = Flushing why → ut_pending (uw_telemetry w) !! key = Some batch →
      deliver (ut_audit (uw_telemetry w)) ctx1 ctx2 batch (e, (ut_metrics (uw_telemetry w), uw_store w)) = (Ok (), (e', (metrics, store))) →
      worker_step w (World (ut_set_metrics metrics (ut_set_pending (delete key (ut_pending (uw_telemetry w)))
                             (uw_telemetry w))) store (batch :: uw_handled w))
  | step_flushed why :
      ut_worker (uw_telemetry w) = Flushing why → ut_pending (uw_telemetry w) = ∅ →
      worker_step w (on_telemetry (after_flush why) w)
  | step_cut_short why :
      ut_worker (uw_telemetry w) = Flushing why → ut_pending (uw_telemetry w) ≠ ∅ →
      (why = ForWorker → ut_state (uw_telemetry w) ≠ usageTelemetryOpen) →
      worker_step w (on_telemetry (cut_short why) w).

Inductive usage_step (w : usage_world) : usage_world → Prop :=
  | step_enqueue record : usage_step w (on_telemetry (Enqueue record) w)
  | step_close : usage_step w (on_telemetry begin_close w)
  | step_worker w' : worker_step w w' → usage_step w w'
  | step_store store : usage_step w (World (uw_telemetry w) store (uw_handled w)).
