(* ===== verification/UsageTheorems.v ===== *)
(** * UsageTheorems: no use is lost unaccounted, and shutdown ends

    The theorems of [UsageTelemetry] over every interleaving of requests, worker,
    ticker and [Close]: the accounts of the counters, and the end of a shutdown by
    the well-founded measure of what is left to deliver. *)

From Stdlib Require Import ZArith Lia.
From stdpp Require Import sorting pretty numbers gmap strings list_numbers list relations.
From S2P Require Import Prelude GoStrings CredTypes Outbox AuditStore CredentialStore CredentialTheorems UsageTelemetry.

Open Scope Z_scope.

(** ** What waits in the map *)

Lemma pending_count_empty : pending_count ∅ = 0.
Proof. apply map_fold_empty. Qed.

Lemma pending_count_insert m k b :
  m !! k = None → pending_count (<[k := b]> m) = ub_count b + pending_count m.
Proof. intros Hk. apply (map_fold_insert_L (λ _ b n, ub_count b + n)); [intros; lia|done]. Qed.

Lemma pending_count_delete m k b :
  m !! k = Some b → pending_count m = ub_count b + pending_count (delete k m).
Proof. intros Hk. apply (map_fold_delete_L (λ _ b n, ub_count b + n)); [intros; lia|done]. Qed.

Lemma pending_count_update m k b b' :
  m !! k = Some b → pending_count (<[k := b']> m) = pending_count m - ub_count b + ub_count b'.
Proof.
  intros Hk. rewrite (pending_count_delete m k b Hk), <-insert_delete_eq.
  rewrite pending_count_insert by apply lookup_delete_eq. lia.
Qed.

Definition batches_count (l : list usageBatch) : Z := foldr (λ b n, ub_count b + n) 0 l.

(** ** One delivery *)

Lemma touch_safe org id ip ua t : safe (TouchLastUsed org id ip ua t).
Proof.
  unfold TouchLastUsed, ready. apply safe_bind; [apply safe_ctx|intros _].
  apply safe_bind; [apply safe_ctx|intros _]. apply safe_bind; [apply safe_get|intros s]. by repeat case_match.
Qed.

Lemma record_safe entries event : safe (on_audit (Record_ (literal entries) event (Some (MRef literal_ref)))).
Proof.
  unfold on_audit. intros w w' Hr. apply zoom_inv in Hr as (w1 & Hr & _). revert Hr.
  unfold Record_. apply safe_bind; [apply safe_ctx|intros _]. case_match; [done|].
  apply safe_bind; [apply safe_get|intros s].
  apply safe_bind; [case_match; [apply safe_ctx|done]|intros _].
  apply safe_bind; [apply safe_ctx|intros _]. unfold recordLocked.
  rewrite literal_copied. apply safe_bind; [by apply safe_lift|done].
Qed.

Lemma sink_returns failed ctx m w :
  safe m →
  ∃ r w', sink failed ctx m w = (Ok r, w')
    ∧ ((r = failed ∧ w'.2.1 = w.2.1) ∨ (r = true ∧ w'.2.1 = count_failure w.2.1)).
Proof.
  intros Hs. destruct w as [e [m0 s]]. unfold sink, bind, attempt, zoom, with_ctx. cbn.
  destruct (m _) as [[a|er|] [e1 s1]] eqn:Em; cbn; [eauto 6..|by apply Hs in Em].
Qed.

(** What a delivery does to the counters: the batch counts as delivered, or as
    at least one failure. *)
Record delivery_counted (m m' : usageMetrics) : Prop := {
  dc_enqueued : um_enqueued m' = um_enqueued m;
  dc_coalesced : um_coalesced m' = um_coalesced m;
  dc_shutdown : um_shutdownDropped m' = um_shutdownDropped m;
  dc_outcome :
    (um_delivered m' = um_delivered m + 1 ∧ um_deliveryFailures m' = um_deliveryFailures m)
    ∨ (um_delivered m' = um_delivered m
       ∧ um_deliveryFailures m + 1 <= um_deliveryFailures m' <= um_deliveryFailures m + 2);
}.

Lemma deliver_returns audit ctx1 ctx2 b w :
  ∃ w', deliver audit ctx1 ctx2 b w = (Ok (), w') ∧ delivery_counted w.2.1 w'.2.1.
Proof.
  unfold deliver. cbv zeta. set (touch := TouchLastUsed _ _ _ _ _). set (note := on_audit _).
  assert (∃ r1 w1, (if bool_decide (usageAction (ub_record b) = "credential_used") then sink false ctx1 touch
                    else ret false) w = (Ok r1, w1)
    ∧ ((r1 = false ∧ w1.2.1 = w.2.1) ∨ (r1 = true ∧ w1.2.1 = count_failure w.2.1))) as (r1 & w1 & E1 & H1).
  { case_match; [apply sink_returns, touch_safe|]. exists false, w. by split; [|left]. }
  assert (∃ r2 w2, (if audit then sink r1 ctx2 note else ret r1) w1 = (Ok r2, w2)
    ∧ ((r2 = r1 ∧ w2.2.1 = w1.2.1) ∨ (r2 = true ∧ w2.2.1 = count_failure w1.2.1))) as (r2 & w2 & E2 & H2).
  { destruct audit; [apply sink_returns, record_safe|]. exists r1, w1. by split; [|left]. }
  unfold bind. rewrite E1, E2. destruct r2; cbn; eexists; (split; [done|]); cbn;
    destruct H1 as [[-> H1] | [-> H1]], H2 as [[? H2] | [? H2]]; simplify_eq;
    split; cbn; rewrite ?H2, ?H1; cbn; lia.
Qed.

(** ** The accounts *)

Record accounted (w : usage_world) : Prop := {
  ac_uses :
    um_enqueued (ut_metrics (uw_telemetry w))
    = Z.of_nat (length (ut_queue (uw_telemetry w))) + pending_count (ut_pending (uw_telemetry w))
      + batches_count (uw_handled w) + um_shutdownDropped (ut_metrics (uw_telemetry w));
  ac_handled :
    um_delivered (ut_metrics (uw_telemetry w)) <= Z.of_nat (length (uw_handled w))
    <= um_delivered (ut_metrics (uw_telemetry w)) + um_deliveryFailures (ut_metrics (uw_telemetry w));
  ac_queue : Z.of_nat (length (ut_queue (uw_telemetry w))) <= ut_capacity (uw_telemetry w);
  ac_flushing : ut_worker (uw_telemetry w) = Flushing ForShutdown →
    ut_state (uw_telemetry w) ≠ usageTelemetryOpen ∧ ut_queue (uw_telemetry w) = [];
  ac_draining : ut_worker (uw_telemetry w) = Draining ForShutdown → ut_state (uw_telemetry w) ≠ usageTelemetryOpen;
  ac_finished : ut_worker (uw_telemetry w) = Finished →
    ut_state (uw_telemetry w) = usageTelemetryStopped ∧ ut_queue (uw_telemetry w) = []
    ∧ ut_pending (uw_telemetry w) = ∅;
}.

Lemma Enqueue_accounted record w : accounted w → accounted (on_telemetry (Enqueue record) w).
Proof.
  intros [Hu Hh Hq Hf Hd Hz]. unfold batches_count in *. unfold on_telemetry, Enqueue. destruct (_ || _ : bool); [by split|].
  destruct (ut_state (uw_telemetry w)) eqn:Es; cbn;
    [destruct (Z.ltb_spec (Z.of_nat (length (ut_queue (uw_telemetry w)))) (ut_capacity (uw_telemetry w)))|..];
    split; cbn; rewrite ?length_app, ?Es; cbn; try done; try lia; naive_solver.
Qed.

Lemma close_accounted w : accounted w → accounted (on_telemetry begin_close w).
Proof.
  intros [Hu Hh Hq Hf Hd Hz]. unfold batches_count in *. unfold on_telemetry, begin_close.
  destruct (ut_state (uw_telemetry w)) eqn:Es; split; cbn; rewrite ?Es; try done; naive_solver.
Qed.

(** Taking a record over keeps the accounts, and says where the worker goes. *)
Lemma collect_accounts record queue u :
  ut_queue u = record :: queue →
  let u' := collect record (ut_set_queue queue u) in
  Z.of_nat (length (ut_queue u')) + pending_count (ut_pending u')
    = Z.of_nat (length (ut_queue u)) + pending_count (ut_pending u)
  ∧ ut_queue u' = queue ∧ ut_capacity u' = ut_capacity u ∧ ut_state u' = ut_state u ∧ ut_worker u' = ut_worker u
  ∧ um_enqueued (ut_metrics u') = um_enqueued (ut_metrics u)
  ∧ um_delivered (ut_metrics u') = um_delivered (ut_metrics u)
  ∧ um_deliveryFailures (ut_metrics u') = um_deliveryFailures (ut_metrics u)
  ∧ um_shutdownDropped (ut_metrics u') = um_shutdownDropped (ut_metrics u).
Proof.
  intros Hq. cbv zeta. unfold collect. cbn. destruct (ut_pending u !! batch_key record) as [b|] eqn:Hk; cbn; rewrite Hq.
  - rewrite (pending_count_update _ _ b) by done. cbn. split_and!; try done. lia.
  - rewrite pending_count_insert by done. cbn. split_and!; try done. lia.
Qed.

Lemma worker_accounted w w' : accounted w → worker_step w w' → accounted w'.
Proof.
  intros [Hu Hh Hq Hf Hd Hz] Hs. unfold batches_count in *.
  destruct Hs as [record queue Hw Eq|Hw|Hw|Hw Hst|why record queue Hw Eq|why Hw Eq
    |why key b ctx1 ctx2 e e' m s Hw Hk Hdel|why Hw Hp|why Hw Hp _].
  - unfold on_telemetry, receive. destruct (collect_accounts record queue (uw_telemetry w) Eq)
      as (Hn & E1 & E2 & E3 & E4 & E5 & E6 & E7 & E8).
    rewrite Eq in *. cbn in Hq.
    case_match; split; cbn; rewrite ?E1, ?E2, ?E3, ?E4, ?E5, ?E6, ?E7, ?E8, ?Hw in *; try done; cbn in *; lia.
  - split; cbn; try done; naive_solver.
  - split; cbn; try done; naive_solver.
  - split; cbn; try done; naive_solver.
  - unfold on_telemetry. destruct (collect_accounts record queue (uw_telemetry w) Eq)
      as (Hn & E1 & E2 & E3 & E4 & E5 & E6 & E7 & E8).
    rewrite Eq in *. cbn in Hq.
    split; cbn; rewrite ?E1, ?E2, ?E3, ?E4, ?E5, ?E6, ?E7, ?E8, ?Hw in *; try done; cbn in *; try lia; try naive_solver.
  - split; cbn; try done; naive_solver.
  - destruct (deliver_returns (ut_audit (uw_telemetry w)) ctx1 ctx2 b (e, (ut_metrics (uw_telemetry w), uw_store w)))
      as (w1 & E1 & [D1 D2 D3 D4]).
    rewrite Hdel in E1. simplify_eq. cbn in *. rewrite (pending_count_delete _ _ _ Hk) in Hu.
    split; cbn; rewrite ?Hw; try done; try lia; try naive_solver.
  - split; cbn; destruct why; cbn; try done; try naive_solver.
  - unfold cut_short. split; cbn; destruct why; cbn; rewrite ?pending_count_empty; try done; try lia; naive_solver.
Qed.

Lemma New_accounted audit capacity store u :
  NewUsageTelemetry audit capacity = Ok u → accounted (World u store []).
Proof.
  intros Hnew. unfold NewUsageTelemetry in Hnew. destruct (capacity =? 0), (_ || _ : bool) eqn:Hc; simplify_eq/=;
    split; cbn; rewrite ?pending_count_empty; try done; unfold maximumUsageQueueCapacity in *; lia.
Qed.

Lemma usage_accounted w w' : accounted w → usage_step w w' → accounted w'.
Proof.
  intros Hok Hs. destruct Hs as [record| |w2 Hs|s];
    [by apply Enqueue_accounted|by apply close_accounted|by eapply worker_accounted|by destruct Hok].
Qed.

Lemma reachable_accounted audit capacity store u w :
  NewUsageTelemetry audit capacity = Ok u → rtc usage_step (World u store []) w → accounted w.
Proof.
  intros Hnew Hr. apply (New_accounted audit capacity store) in Hnew.
  induction Hr as [|w1 w2 w3 Hs Hr IH]; [done|]. by eapply IH, usage_accounted.
Qed.

(** C24: no use of a credential is lost unaccounted.  However requests, worker,
    ticker, flushes and [Close] interleave, the uses taken into the queue are
    exactly those still queued, those merged in the waiting batches, those of the
    batches handed to the sinks, and those the shutdown counted as dropped; each
    batch handed over counts as delivered or as at least one failure; the queue
    keeps its capacity; and a finished worker leaves nothing behind. *)
Theorem uses_are_accounted audit capacity store u w :
  NewUsageTelemetry audit capacity = Ok u →
  rtc usage_step (World u store []) w →
  let u' := uw_telemetry w in
  let m := ut_metrics u' in
  um_enqueued m = Z.of_nat (length (ut_queue u')) + pending_count (ut_pending u')
    + batches_count (uw_handled w) + um_shutdownDropped m
  ∧ um_delivered m <= Z.of_nat (length (uw_handled w)) <= um_delivered m + um_deliveryFailures m
  ∧ Z.of_nat (length (ut_queue u')) <= ut_capacity u'
  ∧ (ut_worker u' = Finished → ut_queue u' = [] ∧ ut_pending u' = ∅).
Proof.
  intros Hnew Hr.
  destruct (reachable_accounted _ _ _ _ _ Hnew Hr) as [? ? ? ? ? Hz]. split_and!; naive_solver.
Qed.

(** ** Shutdown *)

(** What a shutting worker still has to do. *)
Definition work_left (w : usage_world) : nat :=
  match ut_worker (uw_telemetry w) with
  | Waiting => 0
  | Draining _ => 2 * length (ut_queue (uw_telemetry w)) + size (ut_pending (uw_telemetry w)) + 2
  | Flushing _ => size (ut_pending (uw_telemetry w)) + 1
  | Finished => 0
  end.

Definition shutting (w : usage_world) : Prop :=
  ut_worker (uw_telemetry w) = Draining ForShutdown ∨ ut_worker (uw_telemetry w) = Flushing ForShutdown.

(** The steps of a shutdown: a worker's step while it shuts down. *)
Definition shutdown_step (w' w : usage_world) : Prop := shutting w ∧ worker_step w w'.

Lemma collect_size record queue u :
  (size (ut_pending (collect record (ut_set_queue queue u))) <= size (ut_pending u) + 1)%nat.
Proof.
  unfold collect. cbn. destruct (ut_pending u !! _) as [b|] eqn:Hk; cbn; rewrite map_size_insert, Hk; cbn; lia.
Qed.

Lemma collect_frame record queue u :
  ut_queue (collect record (ut_set_queue queue u)) = queue
  ∧ ut_worker (collect record (ut_set_queue queue u)) = ut_worker u.
Proof. unfold collect. cbn. by destruct (ut_pending u !! _). Qed.

Lemma shutdown_works w w' :
  shutdown_step w' w → (work_left w' < work_left w)%nat ∧ (shutting w' ∨ ut_worker (uw_telemetry w') = Finished).
Proof.
  intros [Hsh Hs]. unfold shutting, work_left in *.
  destruct Hs as [record queue Hw Eq|Hw|Hw|Hw Hst|why record queue Hw Eq|why Hw Eq
    |why key b ctx1 ctx2 e e' m s Hw Hk Hdel|why Hw Hp|why Hw Hp _]; rewrite ?Hw in *; try (by destruct Hsh).
  - destruct Hsh as [[= ->] | ?]; [|done]. cbn.
    pose proof (collect_size record queue (uw_telemetry w)).
    destruct (collect_frame record queue (uw_telemetry w)) as [-> ->]. rewrite Eq, Hw. cbn. split; [lia|by left; left].
  - destruct Hsh as [[= ->] | ?]; [|done]. cbn. rewrite Eq. cbn. split; [lia|auto].
  - destruct Hsh as [? | [= ->]]; [done|]. cbn. rewrite Hw, map_size_delete, Hk. cbn.
    assert (size (ut_pending (uw_telemetry w)) ≠ 0%nat).
    { rewrite map_size_empty_iff. intros E. by rewrite E, lookup_empty in Hk. }
    split; [lia|auto].
  - destruct Hsh as [? | [= ->]]; [done|]. cbn. split; [lia|auto].
  - destruct Hsh as [? | [= ->]]; [done|]. cbn. split; [lia|auto].
Qed.

(** A worker that shuts down always has a step left, even if every sink fails and
    whether or not its deadline has passed. *)
Lemma shutdown_goes_on w (ctx1 ctx2 : list (option ctx_err)) :
  shutting w → ∃ w', worker_step w w' ∧
    (ut_pending (uw_telemetry w') = ∅ ∧ ut_worker (uw_telemetry w') = Finished ∨ shutting w').
Proof.
  intros [Hw | Hw].
  - destruct (ut_queue (uw_telemetry w)) as [|record queue] eqn:Eq.
    + eexists. split; [by eapply step_drained|]. right. by right.
    + eexists. split; [by eapply step_drain|]. right. left. cbn.
      by destruct (collect_frame record queue (uw_telemetry w)) as [_ ->].
  - destruct (decide (ut_pending (uw_telemetry w) = ∅)) as [Hp|Hp].
    + eexists. split; [by eapply step_flushed|]. left. by cbn.
    + apply map_choose in Hp as (key & b & Hk).
      destruct (deliver_returns (ut_audit (uw_telemetry w)) ctx1 ctx2 b
        (Env [] [], (ut_metrics (uw_telemetry w), uw_store w))) as ([e' [m s]] & E & _).
      eexists. split; [by eapply step_deliver|]. right. right. by cbn.
Qed.

(** [n] steps of the worker, interleaved with what everybody else does. *)
Inductive interleaved : nat → usage_world → usage_world → Prop :=
  | inter_nil w : interleaved 0 w w
  | inter_enqueue n w w' record : interleaved n (on_telemetry (Enqueue record) w) w' → interleaved n w w'
  | inter_close n w w' : interleaved n (on_telemetry begin_close w) w' → interleaved n w w'
  | inter_store n w w' store : interleaved n (World (uw_telemetry w) store (uw_handled w)) w' → interleaved n w w'
  | inter_worker n w w' w'' : worker_step w w' → interleaved n w' w'' → interleaved (S n) w w''.

Definition over (w : usage_world) : Prop := ut_worker (uw_telemetry w) = Finished.

(** Nothing another does gives a closed telemetry more work. *)
Lemma Enqueue_closed record u :
  ut_state u ≠ usageTelemetryOpen →
  ut_queue (Enqueue record u) = ut_queue u ∧ ut_pending (Enqueue record u) = ut_pending u
  ∧ ut_worker (Enqueue record u) = ut_worker u ∧ ut_state (Enqueue record u) = ut_state u.
Proof. intros Hs. unfold Enqueue. destruct (_ || _ : bool); [done|]. destruct (ut_state u) eqn:E; [done|split_and!; cbn; congruence..]. Qed.

Lemma closing_closed w : accounted w → shutting w ∨ over w → ut_state (uw_telemetry w) ≠ usageTelemetryOpen.
Proof.
  intros [? ? ? Hf Hd Hz] [[Hw | Hw] | Hw]; [by apply Hd|by apply Hf|]. destruct (Hz Hw) as (-> & _). done.
Qed.

Lemma over_rests w w' : over w → ¬ worker_step w w'.
Proof. unfold over. intros Ho Hs. destruct Hs; congruence. Qed.

Lemma interleaved_bounded n w w' :
  accounted w → shutting w ∨ over w → interleaved n w w' →
  (n <= work_left w)%nat ∧ accounted w' ∧ (shutting w' ∨ over w').
Proof.
  intros Hok Hsh Hr. induction Hr as [w|n w w' record Hr IH|n w w' Hr IH|n w w' store Hr IH|n w w' w'' Hs Hr IH].
  - split; [lia|done].
  - destruct (Enqueue_closed record _ (closing_closed _ Hok Hsh)) as (E1 & E2 & E3 & _).
    destruct IH as (Hn & ? & ?); [by apply Enqueue_accounted|unfold shutting, over in *; cbn; by rewrite E3|].
    unfold work_left in *. cbn in *. by rewrite E1, E2, E3 in Hn.
  - destruct IH as (Hn & ? & ?); [by apply close_accounted|..].
    + unfold shutting, over, begin_close in *. cbn. by destruct (ut_state _).
    + unfold work_left, begin_close in *. cbn in *. by destruct (ut_state _).
  - destruct IH as (Hn & ? & ?); [by eapply usage_accounted, step_store|done|done].
  - destruct Hsh as [Hsh | Ho]; [|by apply over_rests in Hs].
    destruct (shutdown_works w w') as [Hlt Hsh']; [by split|].
    destruct IH as (Hn & ? & ?); [by eapply worker_accounted|done|]. split; [lia|done].
Qed.

(** C25: a shutdown ends.  Once the worker has taken the stop, it takes no more
    steps than twice the records queued, plus the batches waiting, plus two,
    whatever the requests, the callers of [Close] and the other users of the
    stores do meanwhile; until it has finished it always has a step to take, even
    if every sink fails; and when it has finished the telemetry is stopped with
    nothing queued and nothing waiting. *)
Theorem shutdown_ends audit capacity store u w n w' :
  NewUsageTelemetry audit capacity = Ok u → rtc usage_step (World u store []) w →
  shutting w → interleaved n w w' →
  (n <= 2 * length (ut_queue (uw_telemetry w)) + size (ut_pending (uw_telemetry w)) + 2)%nat
  ∧ ((shutting w' ∧ ∃ w'', worker_step w' w'')
     ∨ (ut_worker (uw_telemetry w') = Finished ∧ ut_state (uw_telemetry w') = usageTelemetryStopped
        ∧ ut_queue (uw_telemetry w') = [] ∧ ut_pending (uw_telemetry w') = ∅)).
Proof.
  intros Hnew Hr Hsh Hi. pose proof (reachable_accounted _ _ _ _ _ Hnew Hr) as Hok.
  destruct (interleaved_bounded n w w' Hok (or_introl Hsh) Hi) as (Hn & [? ? ? ? ? Hz] & [Hs' | Ho]).
  - split; [unfold work_left in Hn; destruct Hsh as [E | E]; rewrite E in Hn; lia|]. left. split; [done|].
    destruct (shutdown_goes_on w' [] [] Hs') as (w'' & ? & _). eauto.
  - split; [unfold work_left in Hn; destruct Hsh as [E | E]; rewrite E in Hn; lia|]. right. naive_solver.
Qed.

(** ** Runs

    The steps, as moves that are executed. *)

Inductive move :=
  | MEnqueue (record : UsageRecord)
  | MClose
  | MReceive
  | MCaller
  | MStop
  | MDrain
  | MDrained
  | MDeliver (key : string)
  | MFlushed
  | MCutShort.

Definition enact (m : move) (w : usage_world) : option usage_world :=
  let u := uw_telemetry w in
  match m, ut_worker u, ut_queue u with
  | MEnqueue record, _, _ => Some (on_telemetry (Enqueue record) w)
  | MClose, _, _ => Some (on_telemetry begin_close w)
  | MReceive, Waiting, record :: queue => Some (on_telemetry (receive record queue) w)
  | MCaller, Waiting, _ => Some (on_telemetry (ut_set_worker (Draining ForCaller)) w)
  | MStop, Waiting, _ =>
    match ut_state u with
    | usageTelemetryOpen => None
    | _ => Some (on_telemetry (ut_set_worker (Draining ForShutdown)) w)
    end
  | MDrain, Draining _, record :: queue => Some (on_telemetry (λ u, collect record (ut_set_queue queue u)) w)
  | MDrained, Draining why, [] => Some (on_telemetry (ut_set_worker (Flushing why)) w)
  | MDeliver key, Flushing _, _ =>
    match ut_pending u !! key with
    | Some b =>
      match deliver (ut_audit u) [] [] b (Env [] [], (ut_metrics u, uw_store w)) with
      | (Ok _, (_, (metrics, store))) =>
        Some (World (ut_set_metrics metrics (ut_set_pending (delete key (ut_pending u)) u)) store (b :: uw_handled w))
      | _ => None
      end
    | None => None
    end
  | MFlushed, Flushing why, _ => if decide (ut_pending u = ∅) then Some (on_telemetry (after_flush why) w) else None
  | MCutShort, Flushing ForCaller, _ =>
    if decide (ut_pending u = ∅) then None else Some (on_telemetry (cut_short ForCaller) w)
  | _, _, _ => None
  end.

Fixpoint enact_all (ms : list move) (w : usage_world) : option usage_world :=
  match ms with
  | [] => Some w
  | m :: ms' => match enact m w with Some w' => enact_all ms' w' | None => None end
  end.

(** A move of the worker. *)
Definition of_worker (m : move) : bool := match m with MEnqueue _ | MClose => false | _ => true end.

Lemma enact_sound m w w' :
  enact m w = Some w' → if of_worker m then worker_step w w' else usage_step w w'.
Proof.
  unfold enact. cbv zeta. intros He. destruct m, (ut_worker (uw_telemetry w)) eqn:Ew, (ut_queue (uw_telemetry w)) eqn:Eq;
    cbn; try discriminate He; try (by injection He as <-; econstructor); revert He; repeat case_match; intros [= <-];
    try (by econstructor; eauto; congruence); match goal with x : () |- _ => destruct x end; by eapply step_deliver.
Qed.

Lemma enact_all_reaches ms w w' : enact_all ms w = Some w' → rtc usage_step w w'.
Proof.
  revert w. induction ms as [|m ms IH]; cbn; intros w He; [by simplify_eq|].
  destruct (enact m w) as [w1|] eqn:E1; [|done]. apply enact_sound in E1.
  eapply rtc_l; [|by apply IH]. destruct (of_worker m); [by apply step_worker|done].
Qed.

Lemma enact_all_works ms w w' :
  forallb of_worker ms = true → enact_all ms w = Some w' → interleaved (length ms) w w'.
Proof.
  revert w. induction ms as [|m ms IH]; cbn; intros w Ho He; [simplify_eq; constructor|].
  apply andb_true_iff in Ho as [Hm Ho]. destruct (enact m w) as [w1|] eqn:E1; [|done]. apply enact_sound in E1.
  rewrite Hm in E1. by eapply inter_worker, IH.
Qed.

Module SampleUsage.
Definition use (credential : string) (at_ : time) : UsageRecord :=
  Usage "org-1" credential "" "" "" "" "" "10.0.0.1" "cli" "req-1" at_.

Definition open_world (capacity : Z) : usage_world :=
  World (Telemetry [] ∅ capacity (Metrics 0 0 0 0 0 0) usageTelemetryOpen Waiting true)
    (Store NewAuditStore ∅ ∅) [].

(** Three uses, of which two are merged, and a shutdown of which the store knows
    neither credential: both batches fail at that sink. *)
Definition to_stop : list move :=
  [MEnqueue (use "cred-1" 1); MEnqueue (use "cred-1" 2); MReceive; MEnqueue (use "cred-2" 3); MClose;
   MEnqueue (use "cred-3" 4); MStop].
Definition to_end : list move :=
  [MDrain; MDrain; MDrained; MDeliver (batch_key (use "cred-1" 1)); MDeliver (batch_key (use "cred-2" 1)); MFlushed].

Definition world_of (o : option usage_world) : usage_world := default (open_world 0) o.
Definition stopping : usage_world := Eval vm_compute in world_of (enact_all to_stop (open_world 256)).
Definition stopped : usage_world := Eval vm_compute in world_of (enact_all to_end stopping).

Lemma uses_are_accounted_witness :
  um_enqueued (ut_metrics (uw_telemetry stopped)) = 3 ∧ um_delivered (ut_metrics (uw_telemetry stopped)) = 0
  ∧ um_deliveryFailures (ut_metrics (uw_telemetry stopped)) = 2 ∧ batches_count (uw_handled stopped) = 3
  ∧ Z.of_nat (length (ut_queue (uw_telemetry stopped))) <= 256.
Proof.
  split; [by vm_compute|]. split; [by vm_compute|]. split; [by vm_compute|]. split; [by vm_compute|].
  apply (uses_are_accounted true 256 (Store NewAuditStore ∅ ∅) (uw_telemetry (open_world 256)) stopped); [reflexivity|].
  apply (enact_all_reaches (to_stop ++ to_end)). by vm_compute.
Defined.

Lemma shutdown_ends_witness :
  ut_worker (uw_telemetry stopping) = Draining ForShutdown ∧ (6 <= 2 * 2 + 1 + 2)%nat
  ∧ ut_queue (uw_telemetry stopped) = [].
Proof.
  split; [reflexivity|].
  destruct (shutdown_ends true 256 (Store NewAuditStore ∅ ∅) (uw_telemetry (open_world 256)) stopping 6 stopped)
    as [Hn [[[E | E] _] | (_ & _ & Hq & _)]].
  - reflexivity.
  - apply (enact_all_reaches to_stop). by vm_compute.
  - by left.
  - apply (enact_all_works to_end); by vm_compute.
  - exact (conj Hn eq_refl).
  - exact (conj Hn eq_refl).
  - exact (conj Hn Hq).
Defined.

(** The waiting map may outgrow the capacity the queue has: a caller's flush
    whose context ends keeps what it has drained, and a worker that compares for
    equality never notices.  Two is the capacity, and four batches wait. *)
Theorem pending_exceeds_capacity :
  ∃ u w, NewUsageTelemetry true 2 = Ok u ∧ rtc usage_step (World u (Store NewAuditStore ∅ ∅) []) w
    ∧ ut_worker (uw_telemetry w) = Waiting ∧ ut_capacity (uw_telemetry w) = 2
    ∧ size (ut_pending (uw_telemetry w)) = 4%nat.
Proof.
  exists (uw_telemetry (open_world 2)).
  set (ms := [MEnqueue (use "cred-1" 1); MReceive; MEnqueue (use "cred-2" 2); MEnqueue (use "cred-3" 3); MCaller;
    MDrain; MDrain; MDrained; MCutShort; MEnqueue (use "cred-4" 4); MReceive]).
  exists (world_of (enact_all ms (open_world 2))). split; [reflexivity|]. split; [|by vm_compute].
  apply (enact_all_reaches ms). by vm_compute.
Qed.
End SampleUsage.
