(* ===== verification/Authenticator.v ===== *)
(** * Authenticator: from a request to a principal

    internal/auth/middleware.go and web_assertion_middleware.go: the handler in
    front of every protected route.  It composes the attempt limiter, the
    credential store with its audit trail, the MCP hop and the web assertions.

    The state is what requests share.  One request calls the components one
    after the other, and other requests run between two calls: [cl_others n] is
    what they do at the n-th such place.  [cl_next] is the wrapped handler: the
    status it has written, 0 for none, and what it does to the shared state.  A
    log line, the text of an error and what a log line is made of (the classes
    of store errors) have no counterpart; an answer keeps the status, the code,
    whether it may be retried, and the seconds of a Retry-After.  The limiter is
    [*MemoryLimiter]. *)

From Stdlib Require Import ZArith Lia Ascii.
From stdpp Require Import sorting pretty numbers gmap strings list_numbers list.
From S2P Require Import Prelude GoStrings GoNet Sha256 CredTypes Validation Tokens Grants Outbox AuditStore CredentialStore AuthService MCPHop GoHTTP AttemptLimiter WebAssertion UsageTelemetry.

Open Scope Z_scope.

(** ** Requests (middleware.go) *)

Definition MCPHopHeader : string := "X-ACR-MCP-Hop".
Definition ResourceHeader : string := "X-ACR-Resource".

Definition extractBearer `{FoldTables} (r : Request) : string :=
  if negb (bool_decide (length (r_Values r "Authorization") = 1%nat)) then ""
  else
    let header := strings_TrimSpace (Header_Get (r_Header r) "Authorization") in
    if (slen header <? 7) || negb (strings_EqualFold (slice_upto header 7) "Bearer ") then ""
    else strings_TrimSpace (slice_from header 7).

Definition requestID (r : Request) : string :=
  let value := strings_TrimSpace (Header_Get (r_Header r) "X-Request-ID") in
  if negb (isEmpty value) then value else "unknown".

(** ** The shared state *)

Record auth_state := AuthState {
  au_limiter : limiter_state;
  au_creds : credentialStore;
  au_hops : hop_cache;
  au_replays : webAssertionReplays;
  au_usage : UsageTelemetry;
}.

Definition au_set_limiter (x : limiter_state) (s : auth_state) : auth_state :=
  AuthState x (au_creds s) (au_hops s) (au_replays s) (au_usage s).
Definition au_set_creds (x : credentialStore) (s : auth_state) : auth_state :=
  AuthState (au_limiter s) x (au_hops s) (au_replays s) (au_usage s).
Definition au_set_hops (x : hop_cache) (s : auth_state) : auth_state :=
  AuthState (au_limiter s) (au_creds s) x (au_replays s) (au_usage s).
Definition au_set_replays (x : webAssertionReplays) (s : auth_state) : auth_state :=
  AuthState (au_limiter s) (au_creds s) (au_hops s) x (au_usage s).

(** A call of the limiter. *)
Definition on_attempts {A} (f : limiter_state → A * limiter_state) : go auth_state A := λ w,
  let '(a, l) := f (au_limiter w.2) in (Ok a, (w.1, au_set_limiter l w.2)).

(** [a.usageTelemetry.Enqueue] *)
Definition enqueue (record : UsageRecord) : go auth_state () :=
  modify (λ s, AuthState (au_limiter s) (au_creds s) (au_hops s) (au_replays s) (Enqueue record (au_usage s))).

(** ** What an authenticator is made of, and what one request meets *)

Record Authenticator := MkAuthenticator {
  a_audit : bool;
  a_clientIP : Request → string;
  a_webAssertions : option WebAssertionVerifier;
  a_mcpHop : option MCPHopPolicy;
}.

Record call := Call {
  cl_keys : key_set;
  cl_validate : string → validation;
  cl_hops_between : hop_cache → hop_cache;
  cl_others : nat → auth_state → auth_state;
  cl_detached : list (option ctx_err);
  cl_next : Principal → Request → auth_state → Z * auth_state;
}.

Inductive answer :=
  | Served (principal : Principal) (request : Request)
  | Denied (status : Z) (code : string) (retryable : bool) (retry_after : option Z).

(** [if marker ... SetDenialCode], [writeError] *)
Definition writeError (status : Z) (code : string) (retryable : bool) : answer := Denied status code retryable None.
Definition unauthorized : answer := writeError StatusUnauthorized "invalid_token" false.
Definition unavailable : answer := writeError StatusServiceUnavailable "upstream_unavailable" true.

Definition writeRateLimitError (retryAfter : duration) : answer :=
  Denied StatusTooManyRequests "rate_limited" true
    (if 0 <? retryAfter then Some (Z.max 1 (Z.quot (i64 (retryAfter + Second - 1)) Second)) else None).

(** ** Audit of denials *)

Definition auditEvent (principal : Principal) (action resourceType resourceID status requestID : string)
    (createdAt : time) : AuditEvent :=
  let '(actorType, actorID) := AuditActor principal in
  Event (pr_OrgID principal) "" actorType actorID action resourceType resourceID status requestID None createdAt.

Section middleware.
Context `{UnicodeTables} `{FoldTables} `{AssertionLib} (a : Authenticator).
Implicit Types (r : Request) (c : call).

(** The context of a denial's audit record is detached from the request's. *)
Definition detachedContext {S A} c (m : go S A) : go S A := with_ctx (cl_detached c) m.

(** A delivery that fails is only logged. *)
Definition recordDenialAudit c (event : AuditEvent) (metadata : option (list (string * scalar))) : go auth_state () :=
  if negb (a_audit a) then ret ()
  else
    attempt (zoom au_creds au_set_creds (zoom cs_audit cs_set_audit
      (detachedContext c (match metadata with
                   | None => Record_ ∅ event None
                   | Some entries => Record_ (literal entries) event (Some (MRef literal_ref))
                   end)))) ;;
    ret ().

Definition recordKnownDenialAudit c r (credential : ClientCredential) (reason : string) (now : time)
    : go auth_state () :=
  recordDenialAudit c
    (Event (cc_OrgID credential) "" "credential" (cc_CredentialID credential) "credential_auth_denied"
       "acr_credential" (cc_CredentialID credential) "denied" (requestID r) None now)
    (Some [("reason", SString reason)]).

(** ** Refusals *)

Definition recordUnknownFailure (ip : string) (now : time) : go auth_state () :=
  on_attempts (λ l, ((), li_RecordFailure memory_limiter ip now l)).

(** [retryAfter <= 0] becomes one second. *)
Definition retry_after (ip : string) (now : time) : go auth_state answer :=
  let! s := get in
  let retryAfter := li_RetryAfter memory_limiter ip now (au_limiter s) in
  ret (writeRateLimitError (if retryAfter <=? 0 then Second else retryAfter)).

Definition rejectCredential c r (ip reason : string) (credential : option ClientCredential)
    (decision : AttemptDecision) (t : time) : go auth_state answer :=
  let! decided := now in
  let! rejection := on_attempts (RecordRejection_of memory_limiter ip decided (ad_OverBudget decision)) in
  match credential with
  | Some credential => recordKnownDenialAudit c r credential reason t
  | None => ret ()
  end ;;
  if rejection.1 then retry_after ip decided else ret unauthorized.

(** ** Web assertions (web_assertion_middleware.go) *)

Definition successful (status : Z) : bool :=
  (status =? 0) || (StatusOK <=? status) && (status <? StatusBadRequest).

(** [release]: nil for a refused attempt. *)
Definition releasing (h : option nat) : go auth_state () :=
  on_attempts (λ l, ((), match h with Some h => release_ h l | None => l end)).

(** [next.ServeHTTP], and the record of a use that succeeded. *)
Definition serve c (principal : Principal) r (record : UsageRecord) : go auth_state answer :=
  let! s := get in
  let '(status, s') := cl_next c principal r s in
  put s' ;;
  (if successful status then enqueue record else ret ()) ;;
  ret (Served principal r).

Definition authenticateWebAssertion c r (ip : string) (t : time) (allow : bool) (h : option nat)
    : go auth_state answer :=
  match a_webAssertions a with
  | Some verifier =>
    if negb allow || negb (bool_decide (length (r_Values r "Authorization") = 0%nat)) then
      recordUnknownFailure ip t ;; ret unauthorized
    else
      let! verdict := zoom au_replays au_set_replays (Verify verifier (cl_keys c) r) in
      modify (cl_others c 2) ;;
      let principal := vd_principal verdict in
      match vd_error verdict with
      | Some ErrWebAssertionReplay =>
        let! t' := now in
        recordUnknownFailure (a_clientIP a r) t' ;;
        recordDenialAudit c
          (auditEvent principal "web_assertion_replay" "web_assertion" "replayed" "denied" (requestID r) t') None ;;
        ret (writeRateLimitError Second)
      | Some ErrWebAssertionStoreUnavailable =>
        ret (writeError StatusServiceUnavailable "temporarily_unavailable" true)
      | Some _ => let! t' := now in recordUnknownFailure ip t' ;; ret unauthorized
      | None =>
        let subjectKey := "web:" +:+ pr_Subject principal in
        let! admitted := on_attempts (li_AllowAttempt memory_limiter subjectKey t) in
        let! blocked := if admitted then on_attempts (li_FailureBlocked memory_limiter subjectKey t) else ret true in
        if blocked then
          let! s := get in
          ret (writeRateLimitError (li_RetryAfter memory_limiter subjectKey t (au_limiter s)))
        else
          releasing h ;;
          serve c principal (vd_request verdict)
            (Usage (pr_OrgID principal) "" (pr_AuthenticationMethod principal) (pr_Subject principal)
               "web_assertion_used" "web_assertion" (pr_Subject principal) "" "" (requestID r) t)
      end
  | None => recordUnknownFailure ip t ;; ret unauthorized
  end.

(** ** The handler *)

(** Why a credential that was found does not count, if it does not; the second
    part of the answer is set when the check of the hop could not run. *)
Definition credential_fault c r (credential : ClientCredential) (t : time) : go auth_state (option string * bool) :=
  if bool_decide (is_Some (cc_RevokedAt credential)) then ret (Some "revoked", false)
  else if match cc_ExpiresAt credential with Some x => negb (time_After x t) | None => false end
  then ret (Some "expired", false)
  else if negb (resourceAdmitted (cc_Resource credential) (r_Values r ResourceHeader))
  then ret (Some "resource_mismatch", false)
  else
    match a_mcpHop a with
    | Some policy =>
      if negb (requires (Some policy) (cc_Resource credential)) then ret (None, false)
      else
        let! checked := attempt (zoom au_hops au_set_hops
          (verify policy (cl_hops_between c) (cl_validate c) (r_Values r MCPHopHeader))) in
        match checked with
        | inr _ => ret (None, false)
        | inl ErrMCPHopMissing => ret (Some "mcp_hop_missing", false)
        | inl ErrMCPHopRefused => ret (Some "mcp_hop_refused", false)
        | inl _ => ret (None, true)
        end
    | None => ret (None, false)
    end.

(** The principal of a credential: its subject is its workload binding where it
    has one. *)
Definition credential_principal (credential : ClientCredential) : Principal :=
  let subject :=
    match cc_WorkloadBindingID credential with
    | Some binding => if negb (isEmpty binding) then binding else cc_CredentialID credential
    | None => cc_CredentialID credential
    end in
  MkPrincipal AuthenticationMethodCredential subject (cc_OrgID credential) (cc_CredentialID credential)
    (cc_RepositoryScopes credential) (cc_Scopes credential) [] (pv_ClientClass (cc_Provenance credential))
    (pv_ApprovingUserID (cc_Provenance credential)) "" false (pv_SessionID (cc_Provenance credential)) [].

(** A well-formed bearer, after the limiter has let it in. *)
Definition authenticate_bearer c r (raw ip : string) (t : time) (decision : AttemptDecision) (h : option nat)
    : go auth_state answer :=
  let! found := attempt (zoom au_creds au_set_creds (FindByTokenHash (HashToken raw))) in
  modify (cl_others c 1) ;;
  match found with
  | inl ErrNotFound => rejectCredential c r ip "unknown_token" None decision t
  | inl _ => ret unavailable
  | inr credential =>
    let! fault := credential_fault c r credential t in
    match fault with
    | (Some reason, _) => rejectCredential c r ip reason (Some credential) decision t
    | (None, true) => ret unavailable
    | (None, false) =>
      releasing h ;;
      serve c (credential_principal credential) r
        (Usage (cc_OrgID credential) (cc_CredentialID credential) "" "" "" "" "" ip
           (Header_Get (r_Header r) "User-Agent") (requestID r) t)
    end
  end.

(** The deferred release runs on every way out. *)
Definition MiddlewareFor (allowWebAssertions : bool) c r : go auth_state answer :=
  let! t := now in
  let ip := a_clientIP a r in
  let webAssertion := bool_decide (0 < length (r_Values r WebAssertionHeader))%nat in
  if negb webAssertion && bool_decide (length (r_Values r "Authorization") = 0%nat) then ret unauthorized
  else
    let raw := if webAssertion then "" else extractBearer r in
    let! admission := on_attempts (
      if negb webAssertion && IsTokenShapeValid raw then BeginVerificationDecision memory_limiter ip t
      else BeginAttemptDecision_of memory_limiter ip t) in
    let '(h, decision) := admission in
    modify (cl_others c 0) ;;
    if negb (Admitted_ decision) then retry_after ip t
    else
      let! response :=
        (if webAssertion then authenticateWebAssertion c r ip t allowWebAssertions h
         else if negb (IsTokenShapeValid raw) then recordUnknownFailure ip t ;; ret unauthorized
         else authenticate_bearer c r raw ip t decision h) in
      releasing h ;;
      ret response.

Definition Middleware c r : go auth_state answer := MiddlewareFor false c r.

(** ** Guards behind the handler

    [None] is the call of the next handler. *)

Definition RequireScope c r (required : string) (principal : option Principal) : go auth_state (option answer) :=
  match principal with
  | None => ret (Some unauthorized)
  | Some principal =>
    if negb (HasScope (pr_Permissions principal) required) then
      let! t := now in
      recordDenialAudit c (auditEvent principal "scope_denied" "acr_scope" required "denied" (requestID r) t)
        (Some [("required_scope", SString required)]) ;;
      ret (Some (writeError StatusForbidden "insufficient_scope" false))
    else ret None
  end.

Definition RequireRepository c r (resolve : option (Request → string)) (principal : option Principal)
    : go auth_state (option answer) :=
  match principal with
  | None => ret (Some unauthorized)
  | Some principal =>
    let repository := match resolve with Some f => f r | None => "" end in
    match AuthorizeRepository principal repository with
    | Ok _ => ret None
    | _ =>
      let! t := now in
      recordDenialAudit c (auditEvent principal "repository_denied" "repository" repository "denied" (requestID r) t)
        (Some [("repository", SString repository)]) ;;
      ret (Some (writeError StatusForbidden "repo_forbidden" false))
    end
  end.
End middleware.
