(* ===== verification/AuthenticatorTheorems.v ===== *)
(** * AuthenticatorTheorems: what the authentication of a request guarantees

    Every request is answered.  A bearer is served only as the live credential
    its token names; a refused one learns nothing about why; and a request that
    runs alone gives its slot back and is counted as a failure exactly when it
    presented a credential that was refused. *)

From Stdlib Require Import ZArith Lia Ascii.
From stdpp Require Import sorting pretty numbers gmap strings list_numbers list.
From S2P Require Import Prelude GoStrings GoNet Sha256 CredTypes Validation Tokens Grants Outbox AuditStore CredentialStore CredentialStoreProofs CredentialTheorems AuthService MCPHop GoHTTP AttemptLimiter AttemptTheorems WebAssertion WebAssertionTheorems UsageTelemetry Authenticator.

Open Scope Z_scope.

(** ** The books of the limiter at one instant *)

(** The failures that count against an address. *)
Definition failures_at (l : MemoryLimiter) (key : string) (t : time) : Z :=
  from_option (λ w, fw_Count (current l w t)) 0 (ml_failures l !! key).

Lemma failures_swept l key t :
  failures_at (set_failures (sweep_keys l t (ml_failures l)) l) key t = failures_at l key t.
Proof.
  pose proof (swept_lookup l t key) as Hs. unfold swept in Hs. unfold failures_at. rewrite Hs.
  destruct (ml_failures l !! key) as [w|]; [|done]. destruct (live l t w) eqn:El; [done|]. cbn.
  unfold current. by rewrite El, orb_true_r.
Qed.

Lemma window_count l key t w :
  window l (sweep_keys l t (ml_failures l)) key t = Some w →
  fw_Count w = failures_at l key t
  ∧ (0 < ml_Window l → t ≠ 0 → ∀ w', fw_Started w' = fw_Started w → fw_Count (current l w' t) = fw_Count w').
Proof.
  pose proof (failures_swept l key t) as Hf. unfold failures_at in Hf at 1. cbn in Hf.
  unfold window. destruct (sweep_keys l t (ml_failures l) !! key) as [x|] eqn:Ex; cbn in Hf.
  - intros [= <-]. split; [done|]. intros HW Ht w' Hw'. unfold current in *.
    change (ml_Window (set_failures _ l)) with (ml_Window l) in Hw'.
    destruct ((ml_Window l <=? 0) || time_IsZero (fw_Started x) || negb (live l t x)) eqn:Eg; cbn in Hw'.
    + assert (live l t w' = true) as -> by (apply live_spec; rewrite Hw'; unfold time, duration in *; lia).
      rewrite Hw'. unfold time_IsZero. rewrite bool_decide_false by done.
      by destruct (ml_Window l <=? 0) eqn:E; [lia|].
    + assert (live l t w' = live l t x) as -> by (unfold live; by rewrite Hw'). by rewrite Hw', Eg.
  - destruct (_ && _); [done|]. intros [= <-]. split; [done|]. intros HW Ht w' Hw'. cbn in Hw'.
    unfold current. assert (live l t w' = true) as -> by (apply live_spec; rewrite Hw'; unfold time, duration in *; lia).
    rewrite Hw'. unfold time_IsZero. rewrite bool_decide_false by done.
    by destruct (ml_Window l <=? 0) eqn:E; [lia|].
Qed.

Lemma failures_stored l key t w w' k :
  0 < ml_Window l → t ≠ 0 → window l (sweep_keys l t (ml_failures l)) key t = Some w →
  fw_Started w' = fw_Started w →
  failures_at (set_failures (<[key := w']> (sweep_keys l t (ml_failures l))) l) k t
  = failures_at l k t + if decide (k = key) then fw_Count w' - fw_Count w else 0.
Proof.
  intros HW Ht [Hc Hsame]%window_count Hst. destruct (decide (k = key)) as [->|Hne].
  - unfold failures_at at 1. cbn. rewrite lookup_insert_eq. cbn.
    change (current (set_failures _ l) w' t) with (current l w' t). rewrite Hsame by done. lia.
  - rewrite Z.add_0_r, <-(failures_swept l k t). unfold failures_at. cbn. by rewrite lookup_insert_ne.
Qed.

(** What a call leaves: [n] more failures of one address, the slots as they
    were. *)
Record booked (t : time) (ip : string) (n : Z) (s s' : limiter_state) : Prop := {
  bk_failures : ∀ k, failures_at (lt_limiter s') k t = failures_at (lt_limiter s) k t + (if decide (k = ip) then n else 0);
  bk_inflight : ml_inflight (lt_limiter s') = ml_inflight (lt_limiter s);
  bk_releases : lt_releases s' = lt_releases s;
  bk_limits : same_limits (lt_limiter s) (lt_limiter s');
}.

Lemma booked_refl t ip s : booked t ip 0 s s.
Proof. split; [intros k; destruct (decide _); lia|done..]. Qed.

Lemma booked_trans t ip m n s1 s2 s3 : booked t ip m s1 s2 → booked t ip n s2 s3 → booked t ip (m + n) s1 s3.
Proof.
  intros [A1 B1 C1 D1] [A2 B2 C2 D2].
  split; [intros k; rewrite A2, A1; destruct (decide _); lia|congruence..|by eapply same_limits_trans].
Qed.

Lemma booked_swept t ip s :
  booked t ip 0 s (on_limiter (set_failures (sweep_keys (lt_limiter s) t (ml_failures (lt_limiter s))) (lt_limiter s)) s).
Proof. split; try done. intros k. cbn. rewrite failures_swept. destruct (decide _); lia. Qed.

Lemma booked_stored t ip key w w' s :
  0 < ml_Window (lt_limiter s) → t ≠ 0 →
  window (lt_limiter s) (sweep_keys (lt_limiter s) t (ml_failures (lt_limiter s))) key t = Some w →
  fw_Started w' = fw_Started w → (fw_Count w' = fw_Count w ∨ key = ip) →
  booked t ip (fw_Count w' - fw_Count w) s
    (on_limiter (set_failures (<[key := w']> (sweep_keys (lt_limiter s) t (ml_failures (lt_limiter s)))) (lt_limiter s)) s).
Proof.
  intros HW Ht Hw Hst Hkey. split; try done. intros k. cbn.
  rewrite (failures_stored (lt_limiter s) key t w w' k HW Ht Hw Hst). destruct Hkey as [->| ->]; [|done].
  rewrite Z.sub_diag. by repeat destruct (decide _).
Qed.

Section at_instant.
Context (t : time) (ip : string).
Implicit Types (s : limiter_state).

Lemma record_failure_booked s :
  0 < ml_Window (lt_limiter s) → t ≠ 0 →
  ∃ n, booked t ip n s (on_limiter (RecordFailure ip t (lt_limiter s)) s) ∧ 0 ≤ n ≤ 1
    ∧ (inflight_of (lt_limiter s) ip ≠ 0 → n = 1).
Proof.
  intros HW Ht. unfold RecordFailure. destruct (window _ _ _ _) as [w|] eqn:Hw.
  - exists 1. split; [|lia]. pose proof (booked_stored t ip ip w (count_one w) s HW Ht Hw eq_refl (or_intror eq_refl)) as Hb.
    cbn in Hb. by replace (fw_Count w + 1 - fw_Count w) with 1 in Hb by lia.
  - exists 0. split; [apply booked_swept|]. split; [lia|]. intros Hin.
    destruct (open_window (lt_limiter s) (sweep_keys (lt_limiter s) t (ml_failures (lt_limiter s))) ip t Hin). congruence.
Qed.

Lemma record_rejection_booked over s b s' :
  0 < ml_Window (lt_limiter s) → t ≠ 0 → inflight_of (lt_limiter s) ip ≠ 0 →
  RecordRejection_of memory_limiter ip t over s = (b, s') → booked t ip 1 s s'.
Proof.
  intros HW Ht Hin. cbn. unfold lifted, RecordRejection.
  destruct (open_window (lt_limiter s) (sweep_keys (lt_limiter s) t (ml_failures (lt_limiter s))) ip t Hin) as [w Hw].
  rewrite Hw. cbv zeta. intros [= <- <-].
  set (w' := if over || over_limit (lt_limiter s) w then log_refusal w else w).
  assert (fw_Started (count_one w') = fw_Started w ∧ fw_Count (count_one w') = fw_Count w + 1) as [Hst Hc]
    by (unfold w'; by destruct (_ || _)).
  pose proof (booked_stored t ip ip w (count_one w') s HW Ht Hw Hst (or_intror eq_refl)) as Hb.
  rewrite Hc in Hb. by replace (fw_Count w + 1 - fw_Count w) with 1 in Hb by lia.
Qed.

Lemma failure_blocked_booked key s b s' :
  0 < ml_Window (lt_limiter s) → t ≠ 0 →
  li_FailureBlocked memory_limiter key t s = (b, s') → booked t ip 0 s s'.
Proof.
  intros HW Ht. cbn. unfold lifted, FailureBlocked. destruct (window _ _ _ _) as [w|] eqn:Hw; intros [= <- <-].
  - pose proof (booked_stored t ip key w w s HW Ht Hw eq_refl (or_introl eq_refl)) as Hb. by rewrite Z.sub_diag in Hb.
  - apply booked_swept.
Qed.

Lemma allow_attempt_booked key s b s' : li_AllowAttempt memory_limiter key t s = (b, s') → booked t ip 0 s s'.
Proof.
  assert (∀ ws, booked t ip 0 s (on_limiter (set_attempts ws (lt_limiter s)) s)) as Hb.
  { intros ws. split; try done. intros k. change (failures_at (lt_limiter s) k t = failures_at (lt_limiter s) k t +
      (if decide (k = ip) then 0 else 0)). destruct (decide _); lia. }
  cbn. unfold lifted, AllowAttempt. destruct (window _ _ _ _) as [w|]; [|intros [= <- <-]; apply Hb].
  destruct (_ && _); intros [= <- <-]; apply Hb.
Qed.

(** The slot a request holds, and then has given back. *)
Record slot (s0 : limiter_state) (h : nat) (done : bool) (n : Z) (s : limiter_state) : Prop := {
  so_failures : ∀ k, failures_at (lt_limiter s) k t = failures_at (lt_limiter s0) k t + (if decide (k = ip) then n else 0);
  so_inflight : ml_inflight (lt_limiter s)
    = if done then ml_inflight (lt_limiter s0)
      else <[ip := inflight_of (lt_limiter s0) ip + 1]> (ml_inflight (lt_limiter s0));
  so_release : lt_releases s !! h = Some (Release ip done);
  so_limits : same_limits (lt_limiter s0) (lt_limiter s);
}.

Lemma slot_booked s0 h done n m s s' : slot s0 h done n s → booked t ip m s s' → slot s0 h done (n + m) s'.
Proof.
  intros [A B C D] [A' B' C' D'].
  split; [intros k; rewrite A', A; destruct (decide _); lia|congruence|congruence|by eapply same_limits_trans].
Qed.

Lemma slot_open s0 h n s : lim_ok s0 → slot s0 h false n s → inflight_of (lt_limiter s) ip ≠ 0.
Proof.
  intros Hok [_ B _ _]. unfold inflight_of at 1. rewrite B, lookup_insert_eq. cbn.
  pose proof (lb_count _ Hok ip). lia.
Qed.

Lemma count_down_up (m : gmap string Z) :
  (∀ k n, m !! k = Some n → 0 < n) → count_down ip (<[ip := default 0 (m !! ip) + 1]> m) = m.
Proof.
  intros Hpos. unfold count_down. rewrite lookup_insert_eq. cbn. destruct (m !! ip) as [n|] eqn:E; cbn.
  - specialize (Hpos _ _ E). rewrite (proj2 (Z.leb_gt _ _)) by lia. rewrite insert_insert_eq.
    apply insert_id. rewrite E. f_equal. lia.
  - by rewrite delete_insert_id.
Qed.

Lemma slot_given_back s0 h n s : lim_ok s0 → slot s0 h false n s → slot s0 h true n (release_ h s).
Proof.
  intros Hok [A B C D]. unfold release_. rewrite C. cbn [rl_done rl_key].
  split; [done| |by cbn [lt_releases]; rewrite lookup_insert_eq|by destruct D]. cbn. rewrite B. apply count_down_up, Hok.
Qed.

Lemma slot_again s0 h n s : slot s0 h true n s → release_ h s = s.
Proof. intros [_ _ C _]. unfold release_. by rewrite C. Qed.

(** Starting an attempt. *)
Lemma begin_books verification s h d s' :
  lim_ok s → 0 < ml_Window (lt_limiter s) → t ≠ 0 →
  begin ip t verification s = ((h, d), s') →
  match h with
  | Some h => Admitted_ d = true ∧ slot s h false 0 s'
  | None => Admitted_ d = false ∧ booked t ip 0 s s'
  end.
Proof.
  intros Hok HW Ht. unfold begin. destruct (window _ _ _ _) as [w|] eqn:Hw.
  2: { intros [= <- <- <-]. split; [done|apply booked_swept]. }
  assert (∀ w', fw_Started w' = fw_Started w → fw_Count w' = fw_Count w →
    booked t ip 0 s (on_limiter (set_failures (<[ip := w']> (sweep_keys (lt_limiter s) t (ml_failures (lt_limiter s))))
      (lt_limiter s)) s)) as Hset.
  { intros w' Hst Hc. pose proof (booked_stored t ip ip w w' s HW Ht Hw Hst (or_introl Hc)) as Hb.
    by rewrite Hc, Z.sub_diag in Hb. }
  destruct (_ && negb verification); [intros [= <- <- <-]; split; [done|by apply Hset]|].
  destruct (_ && _); [intros [= <- <- <-]; split; [done|by apply Hset]|].
  destruct (_ <=? _); [intros [= <- <- <-]; split; [done|by apply Hset]|].
  destruct (_ && _); [intros [= <- <- <-]; split; [done|by apply Hset]|].
  intros [= <- <- <-]. split; [done|]. destruct (Hset w eq_refl eq_refl) as [A B C D].
  split; [exact A|done|by cbn [lt_releases]; rewrite lookup_insert_eq|by destruct D].
Qed.
End at_instant.

(** ** The calls of a request answer *)

Definition tame {S A} (m : go S A) : Prop := safe m ∧ calm m.

Section tame.
Context {S : Type}.

Lemma tame_lift {A} (r : res A) : r ≠ Panic → tame (S := S) (lift_res r).
Proof. split; [by apply safe_lift|apply calm_pure]. Qed.
Lemma tame_ret {A} (a : A) : tame (S := S) (ret a).
Proof. by apply (tame_lift (Ok a)). Qed.
Lemma tame_fail {A} e : tame (S := S) (A := A) (fail e).
Proof. by apply (tame_lift (Err e)). Qed.
Lemma tame_get : tame (S := S) get.
Proof. split; [apply safe_get|apply calm_get]. Qed.
Lemma tame_modify (f : S → S) : tame (modify f).
Proof. split; [apply safe_modify|apply calm_modify]. Qed.
Lemma tame_now : tame (S := S) now.
Proof. split; [apply safe_now|apply calm_now]. Qed.
Lemma tame_ctx : tame (S := S) ctx_check.
Proof. split; [apply safe_ctx|apply calm_ctx]. Qed.
Lemma tame_bind {A B} (m : go S A) (k : A → go S B) : tame m → (∀ a, tame (k a)) → tame (bind m k).
Proof.
  intros [Hs Hc] Hk. split; [apply safe_bind; [done|intros a; apply Hk]|apply calm_bind; [done|intros a; apply Hk]].
Qed.
Lemma tame_attempt {A} (m : go S A) : tame m → tame (attempt m).
Proof.
  intros [Hs Hc]. split.
  - intros w w' (r0 & Hm & Hr)%attempt_inv. destruct r0; try done. by apply Hs in Hm.
  - intros w r w' (r0 & Hm & _)%attempt_inv. by eapply Hc.
Qed.
End tame.

Create HintDb tame_db.
#[local] Hint Resolve tame_ret tame_fail tame_get tame_modify tame_now tame_ctx : tame_db.

Ltac tame_struct :=
  repeat first
    [ progress cbv zeta
    | solve [eauto 2 with tame_db nocore]
    | apply tame_bind; [|intros ?]
    | apply tame_attempt
    | match goal with |- tame (match ?x with _ => _ end) => destruct x end ].

Lemma find_tame h : tame (FindByTokenHash h).
Proof. unfold FindByTokenHash, ready. tame_struct. Qed.

Lemma hop_tame p between Validate values : tame (verify p between Validate values).
Proof. unfold verify. tame_struct. Qed.

Lemma observe_tame issuer jti exp t : tame (S := webAssertionReplays) (Observe issuer jti exp t).
Proof.
  split.
  - intros w w'. cbn. by destruct (observe _ _ _ _).
  - intros w r w'. cbn. destruct (observe _ _ _ _). by intros [= _ <-].
Qed.
#[local] Hint Resolve observe_tame : tame_db.

Lemma verify_tame `{UnicodeTables} `{AssertionLib} v keys r : tame (S := webAssertionReplays) (Verify v keys r).
Proof.
  unfold Verify, refused, keyInTimeBound, validClaims, observed. tame_struct.
Qed.

Lemma succeeds_attempt {S A} (m : go S A) : safe m → succeeds (attempt m).
Proof.
  intros Hs w. unfold attempt. destruct (m w) as [[a|err|] w'] eqn:E; [by eexists _, _..|by apply Hs in E].
Qed.

Ltac succeeds_struct :=
  repeat first
    [ progress cbv zeta
    | apply succeeds_ret
    | apply succeeds_get
    | apply succeeds_put
    | apply succeeds_modify
    | apply succeeds_now
    | apply succeeds_bind; [|intros ?]
    | apply succeeds_attempt
    | match goal with |- succeeds (match ?x with _ => _ end) => destruct x end ].

Lemma verify_succeeds `{UnicodeTables} `{AssertionLib} v keys r : succeeds (S := webAssertionReplays) (Verify v keys r).
Proof.
  unfold Verify, refused, keyInTimeBound, validClaims, observed. succeeds_struct; apply observe_tame.
Qed.

Lemma tame_zoom {S P A} (proj : S → P) inj (m : go P A) : tame m → tame (zoom proj inj m).
Proof.
  intros [Hs Hc]. split.
  - intros w w' (w1 & Hm & _)%zoom_inv. by apply Hs in Hm.
  - intros w r w' (w1 & Hm & ->)%zoom_inv. by apply (Hc _ _ _ Hm).
Qed.

Lemma with_ctx_tame {S A} ctx (m : go S A) : tame m → tame (with_ctx ctx m).
Proof.
  intros [Hs Hc]. split; intros w; unfold with_ctx; destruct (m _) as [r0 w0] eqn:E.
  - intros w' [= -> <-]. by apply Hs in E.
  - intros r w' [= _ <-]. exact (Hc _ _ _ E).
Qed.

Lemma record_denial_tame event metadata :
  tame (match metadata with
        | None => Record_ ∅ event None
        | Some entries => Record_ (literal entries) event (Some (MRef literal_ref))
        end).
Proof.
  assert (∀ h md m, cloneMetadata h md = Some (Ok m) → tame (Record_ h event md)) as Hr.
  { intros h md m Hm. unfold Record_, recordLocked. rewrite Hm. cbn [default from_option]. unfold id.
    tame_struct. }
  destruct metadata as [entries|]; [eapply Hr, literal_copied|by eapply Hr].
Qed.

(** ** Runs that leave the limiter to the request

    [wpl T m P l]: from a state with limiter [l], [m] answers, and [P] holds of
    its answer and of the limiter it leaves. *)

Definition wpl {A} (T : time → Prop) (m : go auth_state A) (P : A → limiter_state → Prop) (l : limiter_state) : Prop :=
  ∀ s, au_limiter s = l → wp T m (λ a s', P a (au_limiter s')) s.

Section wpl.
Context (T : time → Prop).

Lemma wpl_ret {A} (a : A) P l : P a l → wpl T (ret a) P l.
Proof. intros HP s <-. by apply wp_ret. Qed.
Lemma wpl_bind {A B} (m : go auth_state A) (k : A → go auth_state B) P l :
  wpl T m (λ a, wpl T (k a) P) l → wpl T (bind m k) P l.
Proof.
  intros Hm s Hs. apply wp_bind. eapply wp_mono; [by apply Hm|]. intros a s' Hk. by apply Hk.
Qed.
Lemma wpl_bind_get {B} (k : auth_state → go auth_state B) P l :
  (∀ s, au_limiter s = l → wpl T (k s) P l) → wpl T (bind get k) P l.
Proof. intros Hk s Hs. apply wp_bind, wp_get. by apply Hk. Qed.
Lemma wpl_now P l : (∀ t, T t → P t l) → wpl T now P l.
Proof. intros HP s <-. by apply wp_now. Qed.
Lemma wpl_modify f P l : (∀ s, au_limiter (f s) = au_limiter s) → P () l → wpl T (modify f) P l.
Proof. intros Hf HP s <-. apply wp_modify. by rewrite Hf. Qed.
Lemma wpl_attempts {A} (f : limiter_state → A * limiter_state) P l :
  P (f l).1 (f l).2 → wpl T (on_attempts f) P l.
Proof.
  intros HP s <- e He. exists (f (au_limiter s)).1, e, (au_set_limiter (f (au_limiter s)).2 s).
  split; [|done]. unfold on_attempts. cbn. by destruct (f (au_limiter s)).
Qed.
Lemma wpl_call {P0 A} (proj : auth_state → P0) inj (m : go P0 A) P l :
  tame m → (∀ x s, au_limiter (inj x s) = au_limiter s) → (∀ a, P a l) → wpl T (attempt (zoom proj inj m)) P l.
Proof.
  intros [Hs Hc] Hinj HP s <-. apply wp_attempt_zoom; [done..|]. intros r e w' _ _. destruct r; rewrite ?Hinj; auto.
Qed.

Lemma wpl_zoom {P0 A} (proj : auth_state → P0) inj (m : go P0 A) P l :
  succeeds m → calm m → (∀ x s, au_limiter (inj x s) = au_limiter s) → (∀ a, P a l) → wpl T (zoom proj inj m) P l.
Proof.
  intros Hm Hc Hinj HP s <- e He. destruct (Hm (e, proj s)) as (a & [e' x] & Hrun).
  exists a, e', (inj x s). unfold zoom. cbn. rewrite Hrun, Hinj. split_and!; [done| |apply HP].
  intros y Hy. apply He, (Hc _ _ _ Hrun), Hy.
Qed.

Lemma wpl_denial a c event metadata P l : P () l → wpl T (recordDenialAudit a c event metadata) P l.
Proof.
  intros HP. unfold recordDenialAudit. destruct (negb _); [by apply wpl_ret|].
  apply wpl_bind, wpl_call; [|done|].
  - apply tame_zoom, with_ctx_tame, record_denial_tame.
  - intros r. by apply wpl_ret.
Qed.
End wpl.

(** What runs meanwhile leaves the limiter alone. *)
Record quiet (c : call) : Prop := {
  qt_others : ∀ n s, au_limiter (cl_others c n s) = au_limiter s;
  qt_next : ∀ p r s, au_limiter (cl_next c p r s).2 = au_limiter s;
}.

Section quiet.
Context `{UnicodeTables} `{FoldTables} `{AssertionLib} (a : Authenticator) (c : call) (Hq : quiet c).
Context (T : time → Prop).

Lemma wpl_others n P l : P () l → wpl T (modify (cl_others c n)) P l.
Proof. apply wpl_modify. apply Hq. Qed.

Lemma wpl_serve p r record P l : P (Served p r) l → wpl T (serve c p r record) P l.
Proof.
  intros HP s Hs. unfold serve. apply wp_bind, wp_get. pose proof (qt_next _ Hq p r s) as Hn.
  destruct (cl_next c p r s) as [status s']. cbn in Hn. apply wp_bind, wp_put, wp_bind.
  destruct (successful status); [apply wp_modify|apply wp_ret]; apply wp_ret; cbn; congruence.
Qed.

Lemma wpl_releasing h P l :
  P () (match h with Some h => release_ h l | None => l end) → wpl T (releasing h) P l.
Proof. intros HP. by apply wpl_attempts. Qed.

(** The answer of a rate limit refusal. *)
Definition too_many (ip : string) (t : time) (l : limiter_state) : answer :=
  let retryAfter := li_RetryAfter memory_limiter ip t l in
  writeRateLimitError (if retryAfter <=? 0 then Second else retryAfter).

Lemma wpl_retry_after ip t P l : P (too_many ip t l) l → wpl T (retry_after ip t) P l.
Proof. intros HP. unfold retry_after. apply wpl_bind_get. intros s ->. by apply wpl_ret. Qed.

Lemma wpl_reject r ip reason credential decision t P l :
  (∀ t', T t' → let '((over, _), l') := RecordRejection_of memory_limiter ip t' (ad_OverBudget decision) l in
     P (if over then too_many ip t' l' else unauthorized) l') →
  wpl T (rejectCredential a c r ip reason credential decision t) P l.
Proof.
  intros HP. unfold rejectCredential. apply wpl_bind, wpl_now. intros t' Ht. specialize (HP t' Ht).
  apply wpl_bind, wpl_attempts. destruct (RecordRejection_of _ _ _ _ _) as [[over first] l']. cbn [fst snd] in *.
  apply wpl_bind. assert (wpl T (if over then retry_after ip t' else ret unauthorized) P l') as Hend.
  { destruct over; [by apply wpl_retry_after|by apply wpl_ret]. }
  destruct credential; [by apply wpl_denial|by apply wpl_ret].
Qed.

Lemma wpl_credential_fault r credential t P l :
  (∀ fault, P fault l) → wpl T (credential_fault a c r credential t) P l.
Proof.
  intros HP. unfold credential_fault. destruct (bool_decide _); [by apply wpl_ret|].
  destruct (match cc_ExpiresAt credential with Some x => _ | None => false end); [by apply wpl_ret|].
  destruct (negb _); [by apply wpl_ret|]. destruct (a_mcpHop a) as [policy|]; [|by apply wpl_ret].
  destruct (negb _); [by apply wpl_ret|]. apply wpl_bind, wpl_call; [apply hop_tame|done|].
  intros [err|[]]; [destruct err|]; by apply wpl_ret.
Qed.

(** A well-formed bearer is served, or refused in one way, or the store cannot
    tell. *)
Lemma wpl_bearer r raw ip t decision h P l :
  (∀ p, P (Served p r) (match h with Some h => release_ h l | None => l end)) → P unavailable l →
  (∀ t', T t' → let '((over, _), l') := RecordRejection_of memory_limiter ip t' (ad_OverBudget decision) l in
     P (if over then too_many ip t' l' else unauthorized) l') →
  wpl T (authenticate_bearer a c r raw ip t decision h) P l.
Proof.
  intros Hserved Hun Hrej. unfold authenticate_bearer. apply wpl_bind, wpl_call; [apply find_tame|done|]. intros found.
  apply wpl_bind, wpl_others. destruct found as [err|credential].
  { destruct err; try (by apply wpl_ret). by apply wpl_reject. }
  apply wpl_bind, wpl_credential_fault. intros [[reason|] []]; [by apply wpl_reject..|by apply wpl_ret|].
  apply wpl_bind, wpl_releasing, wpl_serve. apply Hserved.
Qed.
End quiet.

(** ** Refusals *)

(** A refusal: neither served nor left open because something could not be
    checked. *)
Definition refuses (ans : answer) : Prop :=
  match ans with Served _ _ => False | Denied status _ _ _ => status ≠ StatusServiceUnavailable end.

(** What a refusal of a bearer is made of: the limiter and the form of the
    bearer. *)
Definition bearer_refusal (ip : string) (t : time) (well_formed : bool) (l : limiter_state) : answer * limiter_state :=
  let '((h, d), l1) :=
    (if well_formed then BeginVerificationDecision memory_limiter ip t
     else BeginAttemptDecision_of memory_limiter ip t) l in
  let closed l := match h with Some h => release_ h l | None => l end in
  if negb (Admitted_ d) then (too_many ip t l1, l1)
  else if negb well_formed then (unauthorized, closed (li_RecordFailure memory_limiter ip t l1))
  else
    let '((over, _), l2) := RecordRejection_of memory_limiter ip t (ad_OverBudget d) l1 in
    (if over then too_many ip t l2 else unauthorized, closed l2).

Section requests.
Context `{UnicodeTables} `{FoldTables} `{AssertionLib}.

Lemma wpl_middleware_bearer (a : Authenticator) c (Hq : quiet c) allow r t l :
  r_Values r WebAssertionHeader = [] →
  wpl (eq t) (MiddlewareFor a allow c r) (λ ans l',
    refuses ans → (ans, l') = if bool_decide (r_Values r "Authorization" = []) then (unauthorized, l)
                              else bearer_refusal (a_clientIP a r) t (IsTokenShapeValid (extractBearer r)) l) l.
Proof.
  intros Hweb. unfold MiddlewareFor. apply wpl_bind, wpl_now. intros t' <-. rewrite Hweb.
  destruct (r_Values r "Authorization") as [|v vs] eqn:Hauth; [by apply wpl_ret|].
  cbn [length bool_decide negb andb]. rewrite (bool_decide_false (S _ = 0%nat)) by done.
  rewrite (bool_decide_false (0 < 0)%nat) by lia. rewrite (bool_decide_false (v :: vs = [])) by done. cbn [negb andb].
  set (wf := IsTokenShapeValid (extractBearer r)). unfold bearer_refusal.
  apply wpl_bind, wpl_attempts.
  destruct ((if wf then _ else _) l) as [[h d] l1]. cbn [fst snd]. apply wpl_bind, wpl_others; [done|].
  destruct (Admitted_ d) eqn:Hd; cbn [negb]; [|by apply wpl_retry_after].
  apply wpl_bind. destruct wf eqn:Hwf; cbn [negb].
  - apply wpl_bearer; [done|..].
    + intros p. by apply wpl_bind, wpl_releasing, wpl_ret.
    + by apply wpl_bind, wpl_releasing, wpl_ret.
    + intros t' <-. destruct (RecordRejection_of _ _ _ _ _) as [[over first] l2].
      by apply wpl_bind, wpl_releasing, wpl_ret.
  - apply wpl_bind, wpl_attempts, wpl_ret. by apply wpl_bind, wpl_releasing, wpl_ret.
Qed.

(** C17: a refused bearer learns nothing about why.  Two requests with the same
    bearer, from one address at one instant, that meet the limiter in the same
    state are refused with the very same answer and leave the limiter in the
    same state, however the credential stores, the caches, the token validators
    and the policies of the two differ: an unknown token, a revoked or expired
    credential, a resource that does not match and a missing or refused hop
    cannot be told apart. *)
Theorem refusals_look_alike a1 a2 c1 c2 allow r t e1 e2 s1 s2 ans1 ans2 w1 w2 :
  quiet c1 → quiet c2 → steady (eq t) e1 → steady (eq t) e2 →
  r_Values r WebAssertionHeader = [] → a_clientIP a1 r = a_clientIP a2 r → au_limiter s1 = au_limiter s2 →
  MiddlewareFor a1 allow c1 r (e1, s1) = (Ok ans1, w1) → MiddlewareFor a2 allow c2 r (e2, s2) = (Ok ans2, w2) →
  refuses ans1 → refuses ans2 → ans1 = ans2 ∧ au_limiter w1.2 = au_limiter w2.2.
Proof.
  intros Hq1 Hq2 He1 He2 Hweb Hip Hl Hrun1 Hrun2 Hr1 Hr2.
  destruct (wpl_middleware_bearer a1 c1 Hq1 allow r t (au_limiter s1) Hweb s1 eq_refl e1 He1)
    as (x1 & e1' & s1' & Hx1 & _ & Hp1).
  destruct (wpl_middleware_bearer a2 c2 Hq2 allow r t (au_limiter s2) Hweb s2 eq_refl e2 He2)
    as (x2 & e2' & s2' & Hx2 & _ & Hp2).
  rewrite Hrun1 in Hx1. rewrite Hrun2 in Hx2. injection Hx1 as -> ->. injection Hx2 as -> ->.
  specialize (Hp1 Hr1). specialize (Hp2 Hr2). rewrite <-Hip, <-Hl in Hp2. rewrite <-Hp2 in Hp1.
  injection Hp1 as Ha Hb. done.
Qed.

(** ** Accounts *)

Lemma wpl_web (a : Authenticator) c (Hq : quiet c) T r ip t allow h P l :
  (∀ t', T t' ∨ t' = t → P unauthorized (li_RecordFailure memory_limiter ip t' l)) →
  (∀ t', T t' → P (writeRateLimitError Second) (li_RecordFailure memory_limiter (a_clientIP a r) t' l)) →
  P (writeError StatusServiceUnavailable "temporarily_unavailable" true) l →
  (∀ key, let '(admitted, l1) := li_AllowAttempt memory_limiter key t l in
     let '(blocked, l2) := if (admitted : bool) then li_FailureBlocked memory_limiter key t l1 else (true, l1) in
     if (blocked : bool) then P (writeRateLimitError (li_RetryAfter memory_limiter key t l2)) l2
     else ∀ p r', P (Served p r') (match h with Some h => release_ h l2 | None => l2 end)) →
  wpl T (authenticateWebAssertion a c r ip t allow h) P l.
Proof.
  intros Hun Hreplay Hstore Hok. unfold authenticateWebAssertion.
  destruct (a_webAssertions a) as [verifier|]; [|by apply wpl_bind, wpl_attempts, wpl_ret, Hun; right].
  destruct (_ || _); [by apply wpl_bind, wpl_attempts, wpl_ret, Hun; right|].
  apply wpl_bind, wpl_zoom; [apply verify_succeeds|apply verify_tame|done|]. intros verdict.
  apply wpl_bind, wpl_others; [done|].
  destruct (vd_error verdict) as [err|].
  - assert (wpl T (let! t' := now in recordUnknownFailure ip t' ;; ret unauthorized) P l) as Hother.
    { apply wpl_bind, wpl_now. intros t' Ht. apply wpl_bind, wpl_attempts, wpl_ret, Hun. by left. }
    destruct err; try done.
    + apply wpl_bind, wpl_now. intros t' Ht. apply wpl_bind, wpl_attempts, wpl_bind, wpl_denial, wpl_ret. by apply Hreplay.
    + by apply wpl_ret.
  - specialize (Hok ("web:" +:+ pr_Subject (vd_principal verdict))).
    apply wpl_bind, wpl_attempts. destruct (li_AllowAttempt _ _ _ _) as [admitted l1]. cbn [fst snd].
    assert (∀ Q, Q (if admitted then li_FailureBlocked memory_limiter ("web:" +:+ pr_Subject (vd_principal verdict)) t l1 else (true, l1)).1
                   (if admitted then li_FailureBlocked memory_limiter ("web:" +:+ pr_Subject (vd_principal verdict)) t l1 else (true, l1)).2 →
      wpl T (if admitted then on_attempts (li_FailureBlocked memory_limiter ("web:" +:+ pr_Subject (vd_principal verdict)) t) else ret true) Q l1)
      as Hblocked by (intros Q HQ; destruct admitted; [by apply wpl_attempts|by apply wpl_ret]).
    apply wpl_bind, Hblocked. destruct (if admitted then _ else _) as [blocked l2]. cbn [fst snd].
    destruct blocked; [apply wpl_bind_get; intros s ->; by apply wpl_ret|].
    apply wpl_bind, wpl_releasing, wpl_serve; [done|]. apply Hok.
Qed.

(** A request has presented a credential. *)
Definition presents (r : Request) : bool :=
  negb (bool_decide (r_Values r WebAssertionHeader = [])) || negb (bool_decide (r_Values r "Authorization" = [])).

(** The slots are as before, and [n] more failures count against the address. *)
Definition accounted (t : time) (ip : string) (n : Z) (l l' : limiter_state) : Prop :=
  ml_inflight (lt_limiter l') = ml_inflight (lt_limiter l)
  ∧ ∀ k, failures_at (lt_limiter l') k t = failures_at (lt_limiter l) k t + (if decide (k = ip) then n else 0).

Definition books (t : time) (ip : string) (presented : bool) (l : limiter_state) (ans : answer) (l' : limiter_state) : Prop :=
  match ans with
  | Served _ _ => accounted t ip 0 l l'
  | Denied status _ _ _ =>
    if bool_decide (status = StatusUnauthorized) then accounted t ip (if presented then 1 else 0) l l'
    else if bool_decide (status = StatusTooManyRequests) then accounted t ip 0 l l' ∨ accounted t ip 1 l l'
    else accounted t ip 0 l l'
  end.

Lemma booked_accounted t ip n l l' : booked t ip n l l' → accounted t ip n l l'.
Proof. by intros [A B C D]. Qed.

Lemma slot_accounted t ip l h n l' : slot t ip l h true n l' → accounted t ip n l l'.
Proof. by intros [A B C D]. Qed.

Lemma slot_closes t ip l h n l1 : lim_ok l → slot t ip l h false n l1 → accounted t ip n l (release_ h l1).
Proof. intros Hok Hs. by eapply slot_accounted, slot_given_back. Qed.

Lemma slot_closes_twice t ip l h n l1 :
  lim_ok l → slot t ip l h false n l1 → accounted t ip n l (release_ h (release_ h l1)).
Proof.
  intros Hok Hs. pose proof (slot_given_back _ _ _ _ _ _ Hok Hs) as Hd.
  rewrite (slot_again _ _ _ _ _ _ Hd). by eapply slot_accounted.
Qed.

Section books.
Context (a : Authenticator) (c : call) (Hq : quiet c) (t : time) (l : limiter_state).
Context (Hok : lim_ok l) (HW : 0 < ml_Window (lt_limiter l)) (Ht : t ≠ 0).

Lemma slot_window ip h n l1 : slot t ip l h false n l1 → 0 < ml_Window (lt_limiter l1).
Proof. intros [_ _ _ D]. by rewrite (sl_Window _ _ D). Qed.

Lemma slot_failure ip h l1 :
  slot t ip l h false 0 l1 → accounted t ip 1 l (release_ h (li_RecordFailure memory_limiter ip t l1)).
Proof.
  intros Hs. destruct (record_failure_booked t ip l1) as (n & Hb & _ & Hn); [by eapply slot_window|done|].
  rewrite Hn in Hb by (by eapply slot_open). eapply slot_closes; [done|].
  exact (slot_booked t ip l h false 0 1 l1 _ Hs Hb).
Qed.

Lemma books_bearer r raw ip h d l1 :
  slot t ip l h false 0 l1 → presents r = true →
  wpl (eq t) (let! response := authenticate_bearer a c r raw ip t d (Some h) in releasing (Some h) ;; ret response)
    (books t ip (presents r) l) l1.
Proof.
  intros Hs Hp. apply wpl_bind, wpl_bearer; [done|..].
  - intros p. apply wpl_bind, wpl_releasing, wpl_ret. by apply slot_closes_twice.
  - apply wpl_bind, wpl_releasing, wpl_ret. by apply slot_closes.
  - intros t' <-. destruct (RecordRejection_of _ _ _ _ _) as [[over first] l2] eqn:E.
    apply wpl_bind, wpl_releasing, wpl_ret.
    apply (record_rejection_booked t ip) in E; [|by eapply slot_window|done|by eapply slot_open].
    pose proof (slot_closes _ _ _ _ _ _ Hok (slot_booked _ _ _ _ _ _ _ _ _ Hs E)) as Hc.
    destruct over; cbn; rewrite ?Hp; [by right|done].
Qed.

Lemma books_web r ip allow h l1 :
  slot t ip l h false 0 l1 → presents r = true → ip = a_clientIP a r →
  wpl (eq t) (let! response := authenticateWebAssertion a c r ip t allow (Some h) in releasing (Some h) ;; ret response)
    (books t ip (presents r) l) l1.
Proof.
  intros Hs Hp Hip. apply wpl_bind, wpl_web; [done|..].
  - intros t' Ht'. assert (t' = t) as -> by (by destruct Ht'). apply wpl_bind, wpl_releasing, wpl_ret.
    cbn. rewrite Hp. by apply slot_failure.
  - intros t' <-. apply wpl_bind, wpl_releasing, wpl_ret. right. rewrite <-Hip. by apply slot_failure.
  - apply wpl_bind, wpl_releasing, wpl_ret. by apply slot_closes.
  - intros key. destruct (li_AllowAttempt memory_limiter key t l1) as [admitted l2] eqn:Ea.
    apply (allow_attempt_booked t ip) in Ea. pose proof (slot_booked _ _ _ _ _ _ _ _ _ Hs Ea) as Hs2.
    assert (∃ m, (if admitted then li_FailureBlocked memory_limiter key t l2 else (true, l2)) = m ∧
      slot t ip l h false 0 m.2) as ([blocked l3] & -> & Hs3).
    { eexists. split; [done|]. destruct admitted; [|done].
      destruct (li_FailureBlocked memory_limiter key t l2) as [b l4] eqn:Eb.
      apply (failure_blocked_booked t ip) in Eb; [|by eapply slot_window|done].
      by apply (slot_booked _ _ _ _ _ _ _ _ _ Hs2 Eb). }
    cbn [snd] in Hs3. destruct blocked.
    + apply wpl_bind, wpl_releasing, wpl_ret. left. by apply slot_closes.
    + intros p r'. apply wpl_bind, wpl_releasing, wpl_ret. by apply slot_closes_twice.
Qed.

Lemma books_request allow r : wpl (eq t) (MiddlewareFor a allow c r) (books t (a_clientIP a r) (presents r) l) l.
Proof.
  unfold MiddlewareFor. apply wpl_bind, wpl_now. intros t' <-. cbv zeta. set (ip := a_clientIP a r).
  set (web := bool_decide (0 < length (r_Values r WebAssertionHeader))%nat).
  destruct (negb web && bool_decide (length (r_Values r "Authorization") = 0%nat)) eqn:Hnone.
  { apply wpl_ret. apply andb_true_iff in Hnone as [Hw%negb_true_iff%bool_decide_eq_false Ha%bool_decide_eq_true].
    assert (presents r = false) as ->.
    { unfold presents. destruct (r_Values r WebAssertionHeader); [|cbn in Hw; lia].
      by destruct (r_Values r "Authorization"). }
    cbn. apply booked_accounted, booked_refl. }
  assert (presents r = true) as Hp.
  { unfold presents, web in *. destruct (r_Values r WebAssertionHeader) as [|x xs]; [|done].
    by destruct (r_Values r "Authorization"). }
  apply wpl_bind, wpl_attempts.
  assert (∀ b : bool, (if b then BeginVerificationDecision memory_limiter ip t
                       else BeginAttemptDecision_of memory_limiter ip t) l = begin ip t b l) as -> by (by intros []).
  destruct (begin ip t _ l) as [[h d] l1] eqn:Hb. cbn [fst snd]. apply begin_books in Hb; [|done..].
  apply wpl_bind, wpl_others; [done|]. destruct h as [h|]; destruct Hb as [Hd Hs]; rewrite Hd; cbn [negb].
  2: { apply wpl_retry_after. left. by apply booked_accounted. }
  destruct web; [by apply books_web|]. destruct (IsTokenShapeValid _); cbn [negb]; [by apply books_bearer|].
  apply wpl_bind, wpl_bind, wpl_attempts, wpl_ret, wpl_bind, wpl_releasing, wpl_ret.
  cbn. rewrite Hp. by apply slot_failure.
Qed.
End books.

(** The books of a request.  A request that meets no other is answered; it
    gives its slot back on every way out; and one failure is counted against its
    address, exactly, when its credential was refused, over the limit or not,
    and none when it was served, when it presented no credential, when a store
    could not answer, and when it was turned away before any verification. *)
Theorem request_accounts (a : Authenticator) c allow r t e s :
  quiet c → lim_ok (au_limiter s) → 0 < ml_Window (lt_limiter (au_limiter s)) → t ≠ 0 → steady (eq t) e →
  ∃ ans e' s', MiddlewareFor a allow c r (e, s) = (Ok ans, (e', s'))
    ∧ books t (a_clientIP a r) (presents r) (au_limiter s) ans (au_limiter s').
Proof.
  intros Hq Hok HW Ht He.
  destruct (books_request a c Hq t (au_limiter s) Hok HW Ht allow r s eq_refl e He) as (ans & e' & s' & ? & _ & ?).
  by exists ans, e', s'.
Qed.

(** ** Every request is answered *)

Lemma succeeds_attempts {A} (f : limiter_state → A * limiter_state) : succeeds (on_attempts f).
Proof. intros [e s]. unfold on_attempts. cbn. destruct (f (au_limiter s)). by eexists _, _. Qed.

Lemma succeeds_zoom {S P A} (proj : S → P) inj (m : go P A) : succeeds m → succeeds (zoom proj inj m).
Proof. intros Hm [e s]. unfold zoom. cbn. destruct (Hm (e, proj s)) as (x & [e' s'] & ->). by eexists _, _. Qed.

Lemma succeeds_serve c p r record : succeeds (serve c p r record).
Proof.
  intros [e s]. unfold serve. cbn. destruct (cl_next c p r s) as [status s'].
  by destruct (successful status); eexists _, _.
Qed.

Lemma succeeds_denial a c event metadata : succeeds (recordDenialAudit a c event metadata).
Proof.
  unfold recordDenialAudit. destruct (negb _); [apply succeeds_ret|]. apply succeeds_bind; [|intros; apply succeeds_ret].
  apply succeeds_attempt, (proj1 (tame_zoom _ _ _ (tame_zoom _ _ _ (with_ctx_tame _ _ (record_denial_tame _ _))))).
Qed.

(** Every request is answered.  Whatever the request, the clock, the
    contexts and the stores, and whatever others do meanwhile, the handler ends
    with an answer: it is served or it is denied with a status, and it never
    panics. *)
Theorem every_request_answered (a : Authenticator) c allow r e s :
  ∃ ans e' s', MiddlewareFor a allow c r (e, s) = (Ok ans, (e', s')).
Proof.
  assert (succeeds (MiddlewareFor a allow c r)) as Hm.
  { unfold MiddlewareFor, authenticateWebAssertion, authenticate_bearer, credential_fault, rejectCredential,
      recordKnownDenialAudit, recordUnknownFailure, retry_after, releasing.
    repeat first
      [ apply succeeds_attempts | apply succeeds_serve | apply succeeds_denial
      | apply succeeds_zoom, verify_succeeds
      | apply (proj1 (tame_zoom _ _ _ (find_tame _))) | apply (proj1 (tame_zoom _ _ _ (hop_tame _ _ _ _)))
      | progress succeeds_struct ]. }
  destruct (Hm (e, s)) as (ans & [e' s'] & Hrun). by exists ans, e', s'.
Qed.

(** ** Who is served *)

Lemma attempts_inv {A} (f : limiter_state → A * limiter_state) w x w' :
  on_attempts f w = (Ok x, w') → w'.1 = w.1 ∧ ∃ l, w'.2 = au_set_limiter l w.2.
Proof. unfold on_attempts. destruct (f (au_limiter w.2)) as [b l]. intros [= <- <-]. split; [done|]. by exists l. Qed.

Lemma reject_denied (a : Authenticator) c r ip reason credential d t w p r' w' :
  rejectCredential a c r ip reason credential d t w ≠ (Ok (Served p r'), w').
Proof.
  unfold rejectCredential. intros (t' & w1 & _ & Hrun)%bind_Ok_inv. apply bind_Ok_inv in Hrun as (rej & w2 & _ & Hrun).
  apply bind_Ok_inv in Hrun as (u & w3 & _ & Hrun). destruct rej.1; [|done].
  unfold retry_after in Hrun. rewrite bind_get in Hrun. discriminate Hrun.
Qed.

Lemma no_fault_inv (a : Authenticator) c r credential t w w' :
  credential_fault a c r credential t w = (Ok (None, false), w') →
  cc_RevokedAt credential = None ∧ (∀ x, cc_ExpiresAt credential = Some x → t < x)
  ∧ resourceAdmitted (cc_Resource credential) (r_Values r ResourceHeader) = true
  ∧ (requires (a_mcpHop a) (cc_Resource credential) = true → ∃ policy w1, a_mcpHop a = Some policy
       ∧ verify policy (cl_hops_between c) (cl_validate c) (r_Values r MCPHopHeader) (w.1, au_hops w.2) = (Ok (), w1)).
Proof.
  unfold credential_fault. case_bool_decide as Hrev; [done|].
  destruct (match cc_ExpiresAt credential with Some x => _ | None => false end) eqn:Hexp; [done|].
  destruct (resourceAdmitted _ _) eqn:Hres; [|done]. cbn [negb]. intros Hrun.
  split_and!; [by apply eq_None_not_Some| |done|].
  - intros x Hx. rewrite Hx in Hexp. apply negb_false_iff, bool_decide_eq_true in Hexp. exact Hexp.
  - intros Hreq. destruct (a_mcpHop a) as [policy|]; [|done]. exists policy. rewrite Hreq in Hrun. cbn [negb] in Hrun.
    apply bind_Ok_inv in Hrun as (checked & w1 & (r0 & (w2 & Hv & _)%zoom_inv & Hr0)%attempt_inv & Hrun).
    exists w2. split; [done|]. destruct r0 as [[]|err|]; [done| |done]. injection Hr0 as ->. by destruct err.
Qed.

(** C16: a bearer is served only as the live credential its token names.  When a
    request without a web assertion reaches the wrapped handler, the token it
    presents is well formed, and at the moment of the lookup the store held a
    credential under the digest of that token which was not revoked and had not
    expired; the request names the resource the credential is bound to, and
    carries a hop that was verified where the resource needs one.  The principal
    is made of that credential alone: its organization, its scopes, its
    permissions and its provenance. *)
Theorem bearer_served_live (a : Authenticator) c allow r e s p r' e' s' :
  r_Values r WebAssertionHeader = [] →
  (∀ n x, store_ok (au_creds x) → store_ok (au_creds (cl_others c n x))) → store_ok (au_creds s) →
  MiddlewareFor a allow c r (e, s) = (Ok (Served p r'), (e', s')) →
  ∃ l rec t, t ∈ readings e ∧
    let credential := cr_Metadata rec in
    cs_byID (au_creds (cl_others c 0 (au_set_limiter l s))) !! cc_CredentialID credential = Some rec
    ∧ IsTokenShapeValid (extractBearer r) = true ∧ cr_TokenHash rec = HashToken (extractBearer r)
    ∧ cc_RevokedAt credential = None ∧ (∀ x, cc_ExpiresAt credential = Some x → t < x)
    ∧ resourceAdmitted (cc_Resource credential) (r_Values r ResourceHeader) = true
    ∧ (requires (a_mcpHop a) (cc_Resource credential) = true → ∃ policy w w', a_mcpHop a = Some policy
         ∧ verify policy (cl_hops_between c) (cl_validate c) (r_Values r MCPHopHeader) w = (Ok (), w'))
    ∧ p = credential_principal credential ∧ r' = r.
Proof.
  intros Hweb Hothers Hok Hrun. unfold MiddlewareFor in Hrun.
  apply bind_Ok_inv in Hrun as (t & [e1 s1] & (Ht & _ & Hs1)%now_reading & Hrun). cbn in Hs1, Ht. subst s1.
  cbv zeta in Hrun. rewrite Hweb in Hrun. cbn [length] in Hrun. rewrite (bool_decide_false (0 < 0)%nat) in Hrun by lia.
  cbn [negb andb] in Hrun. destruct (bool_decide (length _ = 0%nat)); [done|].
  apply bind_Ok_inv in Hrun as ([h d] & [e2 s2] & [He2 (l & Hl)]%attempts_inv & Hrun). cbn in He2, Hl. subst e2 s2.
  apply bind_Ok_inv in Hrun as (u & w3 & [= <- <-] & Hrun). cbn [fst snd] in Hrun.
  destruct (Admitted_ d); cbn [negb] in Hrun; [|unfold retry_after in Hrun; rewrite bind_get in Hrun; discriminate Hrun].
  apply bind_Ok_inv in Hrun as (response & w4 & Hresp & Hrun).
  assert (response = Served p r') as ->.
  { apply bind_Ok_inv in Hrun as (u' & w5 & _ & Hrun). by injection Hrun. }
  clear Hrun. destruct (IsTokenShapeValid (extractBearer r)) eqn:Hwf; cbn [negb] in Hresp.
  2: { apply bind_Ok_inv in Hresp as (u' & w5 & _ & Hresp). discriminate Hresp. }
  unfold authenticate_bearer in Hresp.
  apply bind_Ok_inv in Hresp as (found & w5 & (r0 & (w6 & Hfind & Hw6)%zoom_inv & Hr0)%attempt_inv & Hresp).
  apply bind_Ok_inv in Hresp as (u' & w7 & [= <- <-] & Hresp).
  destruct r0 as [credential|err|]; [| |done]; injection Hr0 as ->.
  2: { destruct err; try discriminate Hresp. by apply reject_denied in Hresp. }
  apply find_inv in Hfind as (id & rec & Hh & Hrec & -> & _). cbn [fst snd] in *.
  pose proof (Hothers 0%nat (au_set_limiter l s) Hok) as Hok1.
  destruct (ok_key _ Hok1 _ _ Hrec) as [Hid _]. destruct (ok_hash _ Hok1 _ _ Hh) as (rec' & Hrec' & Hth).
  assert (rec' = rec) as -> by congruence.
  apply bind_Ok_inv in Hresp as ([fault failed] & w8 & Hfault & Hresp).
  destruct fault as [reason|]; [destruct failed; by apply reject_denied in Hresp|]. destruct failed; [discriminate Hresp|].
  apply no_fault_inv in Hfault as (Hrev & Hexp & Hres & Hhop).
  apply bind_Ok_inv in Hresp as (u2 & w9 & _ & Hserve).
  assert (p = credential_principal (cr_Metadata rec) ∧ r' = r) as [-> ->].
  { unfold serve in Hserve. rewrite bind_get in Hserve. destruct (cl_next _ _ _ _) as [status s''].
    apply bind_Ok_inv in Hserve as (? & ? & _ & Hserve). apply bind_Ok_inv in Hserve as (? & ? & _ & Hserve).
    by injection Hserve. }
  exists l, rec, t. split; [done|]. cbv zeta. rewrite Hid. split_and!; try done.
  intros Hreq. destruct (Hhop Hreq) as (policy & w1 & Hpolicy & Hv). exists policy. eexists _, w1. split; [exact Hpolicy|exact Hv].
Qed.
End requests.
