(* ===== verification/AuthenticatorRuns.v ===== *)
(** * AuthenticatorRuns: concrete requests

    Requests with the credentials of [AuthServiceRuns] and the web assertion of
    [WebAssertionTheorems], at which the theorems of the authenticator are
    applied. *)

From Stdlib Require Import ZArith Lia Ascii.
From stdpp Require Import sorting pretty numbers gmap strings list_numbers list.
From S2P Require Import Prelude GoStrings GoNet Sha256 CredTypes Validation Tokens Grants Outbox AuditStore CredentialStore CredentialStoreProofs CredentialTheorems AuthService AuthServiceTheorems AuthServiceRuns MCPHop GoHTTP AttemptLimiter AttemptTheorems WebAssertion WebAssertionTheorems UsageTelemetry Authenticator AuthenticatorTheorems.
Import SampleAssertions SampleHop.

Open Scope Z_scope.

Definition gate : Authenticator :=
  MkAuthenticator true r_RemoteAddr (Some SampleAssertions.web) (Some SampleHop.policy).

Definition lone : call :=
  Call SampleAssertions.keys SampleHop.answers id (λ _ s, s) [] (λ _ _ s, (StatusOK, s)).

Lemma lone_quiet : quiet lone.
Proof. by split. Qed.

Definition fresh_limiter : limiter_state :=
  LState (NewBoundedMemoryLimiter (LimiterOptions Minute 100 3 1000 8)) ∅.
Definition telemetry_0 : UsageTelemetry :=
  Telemetry [] ∅ defaultUsageQueueCapacity (Metrics 0 0 0 0 0 0) usageTelemetryOpen Waiting true.
Definition world (creds : credentialStore) : auth_state := AuthState fresh_limiter creds ∅ SampleAssertions.none_used telemetry_0.

(** A request with one bearer and, perhaps, more headers. *)
Definition bearer (token : string) (headers : Header) : Request :=
  MkRequest "GET" "/api/v1/agent-context/context-packets" "" "192.0.2.7"
    (<["Authorization" := ["Bearer " +:+ token]]> headers) None.
Definition at_150 : env := at_h 150.
Definition t_150 : time := 150 * Hour.

Lemma at_150_steady : steady (eq t_150) at_150.
Proof. by intros t ->%list_elem_of_singleton. Qed.

Lemma no_assertion token : r_Values (bearer token ∅) WebAssertionHeader = [].
Proof. vm_compute. reflexivity. Qed.

(** ** Served *)

Definition served_run := Eval vm_compute in
  MiddlewareFor gate false lone (bearer (token_of 7) ∅) (at_150, world svc_2).
Definition ci_principal : Principal := Eval vm_compute in credential_principal (ic_Credential issued_1).

Lemma bearer_served_live_witness :
  ∃ rec, cs_byID svc_2 !! cc_CredentialID (cr_Metadata rec) = Some rec ∧ cr_TokenHash rec = HashToken (token_of 7)
    ∧ cc_RevokedAt (cr_Metadata rec) = None ∧ ci_principal = credential_principal (cr_Metadata rec).
Proof.
  assert (MiddlewareFor gate false lone (bearer (token_of 7) ∅) (at_150, world svc_2)
    = (Ok (Served ci_principal (bearer (token_of 7) ∅)), (served_run.2.1, served_run.2.2))) as Hrun
    by (vm_compute; reflexivity).
  destruct (bearer_served_live gate lone false (bearer (token_of 7) ∅) at_150 (world svc_2) ci_principal
    (bearer (token_of 7) ∅) served_run.2.1 served_run.2.2 (no_assertion _) (λ _ _ Hok, Hok) svc_2_ok Hrun)
    as (l & rec & t & _ & Hrec & _ & Hh & Hrev & _ & _ & _ & Hp & _).
  assert (extractBearer (bearer (token_of 7) ∅) = token_of 7) as Hb by (vm_compute; reflexivity).
  rewrite Hb in Hh. exact (ex_intro _ rec (conj Hrec (conj Hh (conj Hrev Hp)))).
Defined.

(** ** Refused *)

(** The credential of the token is bound to a resource the request does not
    name; in an empty store the token is unknown. *)
Definition bound_run := Eval vm_compute in
  MiddlewareFor gate false lone (bearer (token_of 8) ∅) (at_150, world svc_2).
Definition unknown_run := Eval vm_compute in
  MiddlewareFor gate false lone (bearer (token_of 8) ∅) (at_150, world initial).

Lemma refusals_look_alike_witness :
  length (as_events (cs_audit (au_creds bound_run.2.2))) = S (length (as_events (cs_audit svc_2)))
  ∧ unauthorized = unauthorized ∧ au_limiter bound_run.2.2 = au_limiter unknown_run.2.2.
Proof.
  split; [vm_compute; reflexivity|].
  assert (MiddlewareFor gate false lone (bearer (token_of 8) ∅) (at_150, world svc_2) = (Ok unauthorized, bound_run.2))
    as H1 by (vm_compute; reflexivity).
  assert (MiddlewareFor gate false lone (bearer (token_of 8) ∅) (at_150, world initial) = (Ok unauthorized, unknown_run.2))
    as H2 by (vm_compute; reflexivity).
  assert (refuses unauthorized) as Hr by (cbn; discriminate).
  exact (refusals_look_alike gate gate lone lone false (bearer (token_of 8) ∅) t_150 at_150 at_150 (world svc_2)
    (world initial) unauthorized unauthorized bound_run.2 unknown_run.2 lone_quiet lone_quiet at_150_steady at_150_steady
    (no_assertion _) eq_refl eq_refl H1 H2 Hr Hr).
Defined.

Lemma request_accounts_witness :
  ∃ ans e' s', MiddlewareFor gate false lone (bearer (token_of 8) ∅) (at_150, world svc_2) = (Ok ans, (e', s'))
    ∧ ans = unauthorized ∧ failures_at (lt_limiter (au_limiter s')) "192.0.2.7" t_150 = 1.
Proof.
  assert (0 < Minute) as HW by reflexivity. assert (t_150 ≠ 0) as Ht by (vm_compute; discriminate).
  destruct (request_accounts gate lone false (bearer (token_of 8) ∅) t_150 at_150 (world svc_2) lone_quiet
    (lim_ok_start _) HW Ht at_150_steady) as (ans & e' & s' & Hrun & Hb).
  exists ans, e', s'. split; [exact Hrun|].
  assert ((MiddlewareFor gate false lone (bearer (token_of 8) ∅) (at_150, world svc_2)).1 = Ok unauthorized) as Ha
    by (vm_compute; reflexivity).
  rewrite Hrun in Ha. cbn [fst] in Ha. assert (ans = unauthorized) as Hans by congruence. split; [exact Hans|].
  rewrite Hans in Hb. exact (proj2 Hb "192.0.2.7").
Defined.
