(* ===== verification/Identity.v ===== *)
(** * Canonical ids

    internal/contextfabric/identity: the segment codec (codec.go), the registry
    of derivation rules with [Derive] and its inverse [Segments] (registry.go),
    the ledger of refused keys (ledger.go), relationship ids (relationship.go)
    and labels (label.go). *)

From Stdlib Require Import ZArith Lia Ascii.
From stdpp Require Import sorting pretty numbers gmap strings list_numbers list.
From S2P Require Import Prelude GoStrings RepoSlug Sha256.

Open Scope Z_scope.

(** ** The segment codec *)

Definition EncodeSegment (raw : string) : string :=
  let escaped := strings_ReplaceAll raw "%" "%25" in
  strings_ReplaceAll escaped ":" "%3A".

(** The error is always nil. *)
Definition DecodeSegment (encoded : string) : string :=
  let unescaped := strings_ReplaceAll encoded "%3A" ":" in
  strings_ReplaceAll unescaped "%25" "%".

Definition JoinSegments (segments : list string) : string :=
  strings_Join (EncodeSegment <$> segments) ":".

(** ** The ledger of refused keys *)

Record LedgerEntry := Omission {
  le_Kind : string;
  le_Segments : list string;
  le_ByteLength : Z;
}.

(** The mutex makes each operation one step; a copied slice of strings is the
    list itself. *)
Record Ledger := MkLedger { lg_entries : list LedgerEntry }.

Definition Record_ (kind : string) (segments : list string) (byteLength : Z) (l : Ledger) : Ledger :=
  MkLedger (lg_entries l ++ [Omission kind segments byteLength]).

Definition Entries (l : Ledger) : list LedgerEntry := lg_entries l.

(** [counts[e.Kind]++] *)
Definition count_entry (e : LedgerEntry) (counts : gmap string Z) : gmap string Z :=
  <[le_Kind e := default 0 (counts !! le_Kind e) + 1]> counts.
Definition CountByKind (l : Ledger) : gmap string Z :=
  fold_left (λ counts e, count_entry e counts) (lg_entries l) ∅.

(** [if ledger != nil { ledger.Record(...) }] *)
Definition record_omission (kind : string) (segments : list string) (byteLength : Z)
    (ledger : option Ledger) : option Ledger :=
  Record_ kind segments byteLength <$> ledger.

(** ** The registry *)

Definition KindCIPipelineRun : string := "ci_pipeline_run".
Definition KindPullRequestReview : string := "pull_request_review".
Definition KindDeployment : string := "deployment".
Definition KindWorkItem : string := "work_item".
Definition KindProject : string := "project".

Definition MaxNaturalKeyBytes : Z := 256.

Record Registration := Register_ {
  rg_Kind : string;
  rg_Table : string;
  rg_Columns : list string;
}.

Definition Registry : list Registration := [
  Register_ KindCIPipelineRun "ci_pipeline_runs" ["repo_id"; "run_id"];
  Register_ KindPullRequestReview "git_pull_request_reviews" ["repo_id"; "number"; "review_id"];
  Register_ KindDeployment "deployments" ["repo_id"; "deployment_id"];
  Register_ KindWorkItem "work_items" ["repo_id"; "work_item_id"];
  Register_ KindProject "projects" ["provider"; "id"]
].

Fixpoint find_kind (kind : string) (rules : list Registration) : option Registration :=
  match rules with
  | [] => None
  | r :: rest => if bool_decide (rg_Kind r = kind) then Some r else find_kind kind rest
  end.

Definition Lookup (kind : string) : option Registration := find_kind kind Registry.

Definition Segments (kind id : string) : option (list string) :=
  match Lookup kind with
  | None => None
  | Some reg =>
    let prefix := kind +:+ ".v2:" in
    let remainder := strings_TrimPrefix id prefix in
    if isEmpty remainder || bool_decide (remainder = id) then None
    else
      let encoded := strings_Split remainder ":" in
      if negb (bool_decide (length encoded = length (rg_Columns reg))) then None
      else Some (DecodeSegment <$> encoded)
  end.

(** The two errors of [Derive], with the values their texts show. *)
Inductive DeriveError :=
  | UnregisteredKind (kind : string)
  | WrongSegmentCount (kind : string) (wants : nat) (columns : list string) (got : nat).

(** What [Derive] returns, and the ledger it leaves. *)
Definition Derive (kind : string) (values : list string) (ledger : option Ledger)
    : (string * bool * option DeriveError) * option Ledger :=
  match Lookup kind with
  | None => (("", false, Some (UnregisteredKind kind)), ledger)
  | Some reg =>
    if negb (bool_decide (length values = length (rg_Columns reg)))
    then (("", false, Some (WrongSegmentCount kind (length (rg_Columns reg)) (rg_Columns reg)
                              (length values))), ledger)
    else
      let id := kind +:+ ".v2:" +:+ JoinSegments values in
      if bool_decide (MaxNaturalKeyBytes < slen id)
      then (("", true, None), record_omission kind values (slen id) ledger)
      else ((id, false, None), ledger)
  end.

(** ** Relationships *)

Definition KindWorkItemRef : string := "work_item_ref".

Definition DeriveWorkItemRef (raw : string) (ledger : option Ledger) : (string * bool) * option Ledger :=
  let id := KindWorkItemRef +:+ ":" +:+ EncodeSegment raw in
  if bool_decide (MaxNaturalKeyBytes < slen id)
  then (("", true), record_omission KindWorkItemRef [raw] (slen id) ledger)
  else ((id, false), ledger).

Definition RelationshipFamily : Type := string.
Definition RelationshipFamilyWorkItemDependency : RelationshipFamily := "work_item_dependency".
Definition RelationshipFamilyWorkItemHierarchy : RelationshipFamily := "work_item_hierarchy".
Definition RelationshipFamilyProjectTeam : RelationshipFamily := "project_team".
Definition RelationshipFamilyWorkItemTeam : RelationshipFamily := "work_item_team".
Definition RelationshipFamilyProjectMembership : RelationshipFamily := "project_membership".
Definition RelationshipFamilyRepositoryTeam : RelationshipFamily := "repository_team".
Definition RelationshipFamilyIssuePullRequestLink : RelationshipFamily := "issue_pull_request_link".
Definition RelationshipFamilyIncidentRepository : RelationshipFamily := "incident_repository".
Definition RelationshipFamilyDeploymentIncident : RelationshipFamily := "deployment_incident".

Definition DeriveRelationship (family : RelationshipFamily)
    (fromCanonicalID toCanonicalID relType : string) : string :=
  let digestInput := JoinSegments [fromCanonicalID; toCanonicalID; relType] in
  let sum := sha256_Sum256 (bytes_of digestInput) in
  "relationship.v2:" +:+ family +:+ ":" +:+ slice_upto (hex_EncodeToString sum) 32.

(** ** Labels *)

Definition PullRequestLabel (number : Z) : string := "PR #" +:+ strconv_Itoa number.
Definition PullRequestReviewLabel (number : Z) : string :=
  "PR #" +:+ strconv_Itoa number +:+ " review".

(** ** The codec *)

(** What [EncodeSegment] makes of one character, and what is left of that after
    the first step of [DecodeSegment]. *)
Definition esc (c : ascii) : list ascii :=
  if bool_decide (c = "%"%char) then ["%"; "2"; "5"]%char
  else if bool_decide (c = ":"%char) then ["%"; "3"; "A"]%char else [c].
Definition esc_percent (c : ascii) : list ascii :=
  if bool_decide (c = "%"%char) then ["%"; "2"; "5"]%char else [c].

Definition expand (f : ascii → list ascii) (l : list ascii) : list ascii := l ≫= f.

Lemma replace_one (a : ascii) new l :
  replace_chars [a] new 0 l = expand (λ c, if bool_decide (c = a) then new else [c]) l.
Proof.
  induction l as [|c l IH]; [done|]. cbn [replace_chars starts_with expand mbind list_bind].
  rewrite andb_true_r. destruct (decide (a = c)) as [->|Hne].
  - rewrite !bool_decide_true by done. change (length [c] - 1)%nat with 0%nat. by rewrite IH.
  - rewrite !bool_decide_false by done. by rewrite IH.
Qed.

Lemma expand_expand f g l : expand g (expand f l) = expand (λ c, expand g (f c)) l.
Proof.
  induction l as [|c l IH]; [done|]. unfold expand in *. cbn. by rewrite bind_app, IH.
Qed.

Lemma EncodeSegment_chars s : chars (EncodeSegment s) = expand esc (chars s).
Proof.
  unfold EncodeSegment, strings_ReplaceAll. rewrite !chars_of_chars.
  change (chars "%") with ["%"%char]. change (chars ":") with [":"%char].
  rewrite !replace_one, expand_expand.
  unfold expand. apply list_bind_ext; [|done]. intros c. unfold esc.
  destruct (decide (c = "%"%char)) as [->|H1]; [done|].
  rewrite !(bool_decide_false (c = "%"%char)) by done. cbn.
  by case_bool_decide.
Qed.

(** One step of a replacement, character by character. *)
Lemma replace_other (a c : ascii) old new l : c ≠ a →
  replace_chars (a :: old) new 0 (c :: l) = c :: replace_chars (a :: old) new 0 l.
Proof. intros ?. cbn [replace_chars starts_with]. by rewrite bool_decide_false by done. Qed.

Lemma decode_first l :
  replace_chars (chars "%3A") (chars ":") 0 (expand esc l) = expand esc_percent l.
Proof.
  induction l as [|c l IH]; [done|]. change (expand ?f (c :: l)) with (f c ++ expand f l).
  unfold esc at 1, esc_percent at 1. destruct (decide (c = "%"%char)) as [->|H1].
  { rewrite bool_decide_true by done. rewrite <- IH. done. }
  rewrite !(bool_decide_false (c = "%"%char)) by done.
  destruct (decide (c = ":"%char)) as [->|H2].
  - rewrite bool_decide_true by done. rewrite <- IH. done.
  - rewrite bool_decide_false by done. rewrite <- IH. by apply replace_other.
Qed.

Lemma decode_second l : replace_chars (chars "%25") (chars "%") 0 (expand esc_percent l) = l.
Proof.
  induction l as [|c l IH]; [done|]. change (expand ?f (c :: l)) with (f c ++ expand f l).
  unfold esc_percent at 1. destruct (decide (c = "%"%char)) as [->|H1].
  - rewrite bool_decide_true by done. rewrite <- IH at 2. done.
  - rewrite bool_decide_false by done. rewrite <- IH at 2. by apply replace_other.
Qed.

Lemma Decode_Encode s : DecodeSegment (EncodeSegment s) = s.
Proof.
  unfold DecodeSegment, strings_ReplaceAll. rewrite EncodeSegment_chars, decode_first, chars_of_chars.
  by rewrite decode_second, of_chars_chars.
Qed.

#[global] Instance EncodeSegment_inj : Inj (=) (=) EncodeSegment.
Proof. intros s t H. by rewrite <- (Decode_Encode s), H, Decode_Encode. Qed.

Lemma EncodeSegment_no_colon s : ":"%char ∉ chars (EncodeSegment s).
Proof.
  rewrite EncodeSegment_chars. unfold expand. rewrite list_elem_of_bind. intros (c & Hin & _).
  revert Hin. unfold esc. repeat case_bool_decide; rewrite !elem_of_cons, elem_of_nil; naive_solver.
Qed.

Lemma strings_Join_chars l (sep : ascii) :
  chars (strings_Join l (of_chars [sep])) = join_chars sep (chars <$> l).
Proof.
  induction l as [|s [|t l] IH]; [done..|].
  change (strings_Join (s :: t :: l) ?x) with (s +:+ x +:+ strings_Join (t :: l) x).
  by rewrite !chars_app, IH, chars_of_chars.
Qed.

(** Splitting a join at the colons gives the encoded segments back. *)
Lemma Split_Join segments : segments ≠ [] →
  strings_Split (JoinSegments segments) ":" = EncodeSegment <$> segments.
Proof.
  intros Hne. unfold strings_Split, JoinSegments.
  change ":" with (of_chars [":"%char]). rewrite strings_Join_chars, split_join.
  - rewrite <- !list_fmap_compose. apply list_fmap_ext. intros i s _. cbn. by rewrite of_chars_chars.
  - by destruct segments.
  - rewrite !Forall_fmap. apply Forall_true. intros s. apply EncodeSegment_no_colon.
Qed.

Lemma JoinSegments_inj l l' : l ≠ [] → l' ≠ [] → JoinSegments l = JoinSegments l' → l = l'.
Proof.
  intros H H' Heq. apply (inj (fmap EncodeSegment)). by rewrite <- !Split_Join, Heq.
Qed.

(** ** Derived ids *)

Lemma find_kind_Some kind rules r : find_kind kind rules = Some r → r ∈ rules ∧ rg_Kind r = kind.
Proof.
  induction rules as [|x rules IH]; cbn; [done|]. case_bool_decide as Hk.
  - intros [= ->]. split; [left|done].
  - intros H. destruct (IH H). split; [by right|done].
Qed.

(** The registry is closed: a registered kind is one of the five, each with at
    least two columns. *)
Lemma Lookup_Some kind r : Lookup kind = Some r →
  kind ∈ [KindCIPipelineRun; KindPullRequestReview; KindDeployment; KindWorkItem; KindProject]
  ∧ (2 ≤ length (rg_Columns r))%nat.
Proof.
  intros [Hin <-]%find_kind_Some. revert r Hin. rewrite <- Forall_forall.
  repeat constructor.
Qed.

(** What a derivation that returns an id has checked. *)
Lemma Derive_id kind values ledger id ledger' :
  Derive kind values ledger = ((id, false, None), ledger') →
  ∃ reg, Lookup kind = Some reg ∧ length values = length (rg_Columns reg)
         ∧ id = kind +:+ ".v2:" +:+ JoinSegments values ∧ slen id ≤ MaxNaturalKeyBytes ∧ ledger' = ledger.
Proof.
  unfold Derive. destruct (Lookup kind) as [reg|]; [|done].
  case_bool_decide as Hlen; cbn [negb]; [|done]. case_bool_decide as Hmax; [done|].
  intros [= <- <-]. exists reg. by repeat split; try lia.
Qed.

Lemma JoinSegments_long values : (2 ≤ length values)%nat → JoinSegments values ≠ "".
Proof.
  intros Hlen Hj. assert (values ≠ []) as Hne by (intros ->; cbn in Hlen; lia).
  pose proof (Split_Join values Hne) as Hs. rewrite Hj in Hs.
  apply (f_equal length) in Hs. rewrite length_fmap in Hs. cbn in Hs. lia.
Qed.

Lemma string_app_ne (a b : string) : b ≠ "" → a +:+ b ≠ "".
Proof. intros Hb. destruct a as [|c a]; [exact Hb|]. intros H. discriminate H. Qed.

Lemma append_longer p s : p ≠ "" → s ≠ p +:+ s.
Proof.
  intros Hp H. apply (f_equal slen) in H. rewrite slen_app in H.
  destruct p as [|c p]; [done|]. unfold slen in H. cbn [String.length] in H. lia.
Qed.

(** C37: an id that [Derive] mints reads back, through [Segments] of the same
    kind, as exactly the values it was minted from, whatever bytes they hold; it
    is within the byte bound and leaves the ledger alone. *)
Theorem segments_of_derived kind values ledger id ledger' :
  Derive kind values ledger = ((id, false, None), ledger') →
  Segments kind id = Some values ∧ slen id ≤ MaxNaturalKeyBytes ∧ ledger' = ledger.
Proof.
  intros (reg & Hreg & Hlen & -> & Hmax & ->)%Derive_id. split; [|done].
  destruct (Lookup_Some _ _ Hreg) as [Hkind Hcols]. unfold Segments. rewrite Hreg.
  rewrite <- append_assoc, TrimPrefix_app. unfold isEmpty.
  rewrite bool_decide_false by (apply JoinSegments_long; lia).
  rewrite bool_decide_false by (apply append_longer, string_app_ne; done).
  cbn [orb]. rewrite Split_Join by (destruct values; cbn in *; [lia|done]).
  rewrite length_fmap, bool_decide_true by done. cbn [negb]. f_equal.
  rewrite <- list_fmap_compose. rewrite <- (list_fmap_id values) at 2.
  apply list_fmap_ext. intros i s _. apply Decode_Encode.
Qed.

Lemma segments_of_derived_witness :
  Segments KindWorkItem "work_item.v2:repo%3A1:a%253A%25" = Some ["repo:1"; "a%3A%"].
Proof.
  eapply (segments_of_derived KindWorkItem ["repo:1"; "a%3A%"] None). vm_compute. reflexivity.
Defined.

(** The subjects that get a canonical id: a registered kind with its natural
    key, or the raw id of an unresolved work item. *)
Definition derives (subject : string * list string + string) (id : string) : Prop :=
  match subject with
  | inl (kind, values) => ∃ l l', Derive kind values l = ((id, false, None), l')
  | inr raw => ∃ l l', DeriveWorkItemRef raw l = ((id, false), l')
  end.

Lemma DeriveWorkItemRef_id raw ledger id ledger' :
  DeriveWorkItemRef raw ledger = ((id, false), ledger') →
  id = KindWorkItemRef +:+ ":" +:+ EncodeSegment raw ∧ slen id ≤ MaxNaturalKeyBytes.
Proof.
  unfold DeriveWorkItemRef. case_bool_decide; [done|]. intros [= <- <-]. split; [done|lia].
Qed.

(** No id of a registered kind is the id of another kind or of a stub. *)
Lemma kinds_apart kind kind' s s' :
  kind ∈ [KindCIPipelineRun; KindPullRequestReview; KindDeployment; KindWorkItem; KindProject] →
  kind' ∈ [KindCIPipelineRun; KindPullRequestReview; KindDeployment; KindWorkItem; KindProject] →
  kind +:+ ".v2:" +:+ s = kind' +:+ ".v2:" +:+ s' → kind = kind' ∧ s = s'.
Proof.
  rewrite !elem_of_cons, !elem_of_nil. intros H H'.
  repeat destruct H as [->|H]; try done; repeat destruct H' as [->|H']; try done;
    intros E; try discriminate E; split; try done; by injection E.
Qed.

Lemma ref_apart kind s s' :
  kind ∈ [KindCIPipelineRun; KindPullRequestReview; KindDeployment; KindWorkItem; KindProject] →
  kind +:+ ".v2:" +:+ s ≠ KindWorkItemRef +:+ ":" +:+ s'.
Proof.
  rewrite !elem_of_cons, !elem_of_nil. intros H.
  repeat destruct H as [->|H]; try done; intros E; discriminate E.
Qed.

(** C35: canonical ids are injective: two subjects with one id are the same
    subject.  Neither separators inside a value, nor text that looks escaped,
    nor another kind, nor an unresolved reference makes two subjects collide. *)
Theorem derived_ids_injective subject subject' id :
  derives subject id → derives subject' id → subject = subject'.
Proof.
  destruct subject as [[kind values]|raw], subject' as [[kind' values']|raw'];
    intros (l1 & l1' & H1) (l2 & l2' & H2).
  - apply Derive_id in H1 as (r1 & Hr1 & Hn1 & -> & _), H2 as (r2 & Hr2 & Hn2 & Heq & _).
    destruct (Lookup_Some _ _ Hr1) as [Hk1 Hc1], (Lookup_Some _ _ Hr2) as [Hk2 Hc2].
    destruct (kinds_apart _ _ _ _ Hk1 Hk2 Heq) as [-> Hj].
    apply JoinSegments_inj in Hj as ->; [done|..]; intros ->; cbn in *; lia.
  - apply Derive_id in H1 as (r1 & Hr1 & _ & -> & _). apply DeriveWorkItemRef_id in H2 as [Heq _].
    destruct (Lookup_Some _ _ Hr1) as [Hk1 _]. by apply ref_apart in Heq.
  - apply Derive_id in H2 as (r2 & Hr2 & _ & -> & _). apply DeriveWorkItemRef_id in H1 as [Heq _].
    destruct (Lookup_Some _ _ Hr2) as [Hk2 _]. by apply ref_apart in Heq.
  - apply DeriveWorkItemRef_id in H1 as [-> _], H2 as [Heq _].
    f_equal. apply (inj EncodeSegment). by injection Heq.
Qed.

Lemma derived_ids_injective_witness :
  derives (inl (KindProject, ["a"; "b:c"])) "project.v2:a:b%3Ac"
  ∧ inl (KindProject, ["a"; "b:c"]) = (inl (KindProject, ["a"; "b:c"]) : string * list string + string).
Proof.
  assert (derives (inl (KindProject, ["a"; "b:c"])) "project.v2:a:b%3Ac") as H.
  { exists None, None. vm_compute. reflexivity. }
  split; [exact H|]. by apply (derived_ids_injective _ _ "project.v2:a:b%3Ac").
Defined.

(** [Segments] reads more than [Derive] writes: it does not ask for canonical
    escapes, so two ids can read as one key. *)
Example segments_of_foreign_id :
  Segments KindProject "project.v2:a%:b" = Some ["a%"; "b"]
  ∧ Segments KindProject "project.v2:a%25:b" = Some ["a%"; "b"].
Proof. split; vm_compute; reflexivity. Qed.

(** ** The ledger *)

(** What one derivation does to the ledger it is given. *)
Definition derive_step (ledger : option Ledger) (subject : string * list string + string)
    : option Ledger :=
  match subject with
  | inl (kind, values) => (Derive kind values ledger).2
  | inr raw => (DeriveWorkItemRef raw ledger).2
  end.

(** The entry a refused subject is owed. *)
Definition omission (subject : string * list string + string) : option LedgerEntry :=
  match subject with
  | inl (kind, values) =>
    match Derive kind values None with
    | ((_, true, _), _) => Some (Omission kind values (slen (kind +:+ ".v2:" +:+ JoinSegments values)))
    | _ => None
    end
  | inr raw =>
    match DeriveWorkItemRef raw None with
    | ((_, true), _) =>
      Some (Omission KindWorkItemRef [raw] (slen (KindWorkItemRef +:+ ":" +:+ EncodeSegment raw)))
    | _ => None
    end
  end.

Lemma derive_step_spec l subject :
  derive_step (Some (MkLedger l)) subject = Some (MkLedger (l ++ option_list (omission subject)))
  ∧ (∀ e, omission subject = Some e → MaxNaturalKeyBytes < le_ByteLength e).
Proof.
  destruct subject as [[kind values]|raw]; cbn [derive_step omission].
  - unfold Derive. destruct (Lookup kind) as [reg|]; cbn; [|by rewrite app_nil_r].
    case_bool_decide; cbn; [|by rewrite app_nil_r].
    case_bool_decide; cbn; [|by rewrite app_nil_r]. split; [done|]. by intros ? [= <-].
  - unfold DeriveWorkItemRef. case_bool_decide; cbn; [|by rewrite app_nil_r].
    split; [done|]. by intros ? [= <-].
Qed.

Lemma count_fold kind l counts :
  default 0 (fold_left (λ m e, count_entry e m) l counts !! kind) =
  default 0 (counts !! kind) + Z.of_nat (length (filter (λ e, le_Kind e = kind) l)).
Proof.
  revert counts. induction l as [|e l IH]; intros counts; cbn [fold_left]; [rewrite filter_nil; cbn; lia|].
  rewrite IH, filter_cons. unfold count_entry.
  destruct (decide (le_Kind e = kind)) as [<-|Hne].
  - rewrite lookup_insert_eq. cbn [from_option id length]. lia.
  - by rewrite lookup_insert_ne by done.
Qed.

Lemma derive_steps subjects l :
  fold_left derive_step subjects (Some (MkLedger l)) = Some (MkLedger (l ++ omap omission subjects)).
Proof.
  revert l. induction subjects as [|s subjects IH]; intros l; cbn; [by rewrite app_nil_r|].
  destruct (derive_step_spec l s) as [-> _]. rewrite IH, <- app_assoc. by destruct (omission s).
Qed.

(** Nothing is dropped silently.  After any sequence of derivations, of
    registered kinds, unregistered ones and stubs, on a fresh ledger, the ledger
    holds exactly one entry per refused subject, in order, each over the byte
    bound, and its counts by kind are the numbers of those entries. *)
Theorem ledger_records_omissions subjects :
  ∃ ledger, fold_left derive_step subjects (Some (MkLedger [])) = Some ledger
    ∧ Entries ledger = omap omission subjects
    ∧ Forall (λ e, MaxNaturalKeyBytes < le_ByteLength e) (Entries ledger)
    ∧ ∀ kind, default 0 (CountByKind ledger !! kind) =
              Z.of_nat (length (filter (λ e, le_Kind e = kind) (Entries ledger))).
Proof.
  exists (MkLedger (omap omission subjects)). rewrite derive_steps.
  split_and!; [done|done| |].
  - apply Forall_forall. intros e (s & _ & He)%list_elem_of_omap. by apply (derive_step_spec [] s).
  - intros kind. unfold CountByKind. by rewrite count_fold, lookup_empty.
Qed.

(** ** Relationship ids *)

Lemma hex_EncodeToString_inj l l' :
  Forall (λ b, 0 ≤ b < 256) l → Forall (λ b, 0 ≤ b < 256) l' →
  hex_EncodeToString l = hex_EncodeToString l' → l = l'.
Proof.
  intros Hl Hl' Heq%(f_equal chars). unfold hex_EncodeToString in Heq. rewrite !chars_of_chars in Heq.
  apply (f_equal hex_decode) in Heq. rewrite !hex_decode_encode in Heq by done. by injection Heq.
Qed.

Lemma hex_take n l : slice_upto (hex_EncodeToString l) (2 * n) = hex_EncodeToString (take n l).
Proof.
  unfold slice_upto, hex_EncodeToString. rewrite chars_of_chars. f_equal.
  revert n. induction l as [|b l IH]; intros [|n]; [done..|].
  replace (2 * S n)%nat with (S (S (2 * n))) by lia. cbn [fmap list_fmap concat hex_byte app take].
  do 2 f_equal. apply IH.
Qed.

Lemma hex_slen l : slen (hex_EncodeToString l) = 2 * Z.of_nat (length l).
Proof. unfold hex_EncodeToString. rewrite slen_chars, chars_of_chars, hex_length. lia. Qed.

(** The sixteen bytes of the digest a relationship id shows. *)
Definition relationship_digest (from to relType : string) : list Z :=
  take 16 (sha256_Sum256 (bytes_of (JoinSegments [from; to; relType]))).

Lemma relationship_digest_ok from to relType :
  length (relationship_digest from to relType) = 16%nat
  ∧ Forall (λ b, 0 ≤ b < 256) (relationship_digest from to relType).
Proof.
  unfold relationship_digest. split; [|apply Forall_take, Sum256_range].
  rewrite length_take, Sum256_length. lia.
Qed.

Lemma DeriveRelationship_eq family from to relType :
  DeriveRelationship family from to relType =
  "relationship.v2:" +:+ family +:+ ":" +:+ hex_EncodeToString (relationship_digest from to relType).
Proof. unfold DeriveRelationship. by rewrite (hex_take 16). Qed.

Lemma app_inj_length (a a' b b' : string) : slen b = slen b' → a +:+ b = a' +:+ b' → a = a' ∧ b = b'.
Proof.
  intros Hlen Heq%(f_equal chars). rewrite !chars_app in Heq. rewrite !slen_chars in Hlen.
  apply app_inj_2 in Heq as [Ha Hb]; [|lia].
  rewrite <- (of_chars_chars a), <- (of_chars_chars a'), <- (of_chars_chars b), <- (of_chars_chars b').
  by rewrite Ha, Hb.
Qed.

(** Relationship ids are versioned by their endpoints.  Two relationships
    with one id are of one family, and either agree in source, target and type,
    or their distinct joined texts collide in the first sixteen bytes of
    SHA-256; whatever the endpoints, an id is 49 bytes longer than its family. *)
Theorem relationship_ids_by_endpoints family from to relType family' from' to' relType' :
  slen (DeriveRelationship family from to relType) = 49 + slen family
  ∧ (DeriveRelationship family from to relType = DeriveRelationship family' from' to' relType' →
     family = family' ∧
     ((from = from' ∧ to = to' ∧ relType = relType')
      ∨ JoinSegments [from; to; relType] ≠ JoinSegments [from'; to'; relType']
        ∧ relationship_digest from to relType = relationship_digest from' to' relType')).
Proof.
  rewrite !DeriveRelationship_eq.
  destruct (relationship_digest_ok from to relType) as [Hn1 Hr1],
    (relationship_digest_ok from' to' relType') as [Hn2 Hr2].
  split; [rewrite !slen_app, hex_slen, Hn1; change (slen "relationship.v2:") with 16;
          change (slen ":") with 1; lia|].
  intros Heq. rewrite <- !append_assoc in Heq.
  apply app_inj_length in Heq as [Heq Hd]; [|by rewrite !hex_slen, Hn1, Hn2].
  apply app_inj_length in Heq as [Heq _]; [|done].
  apply hex_EncodeToString_inj in Hd; [|done..]. split.
  { by injection Heq. }
  destruct (decide (JoinSegments [from; to; relType] = JoinSegments [from'; to'; relType'])) as [Hj|];
    [left|by right].
  apply JoinSegments_inj in Hj; [|done..]. by injection Hj as -> -> ->.
Qed.

Lemma relationship_ids_by_endpoints_witness :
  slen (DeriveRelationship RelationshipFamilyProjectTeam "project.v2:a:b" "team" "owns") = 61
  ∧ RelationshipFamilyProjectTeam = RelationshipFamilyProjectTeam.
Proof.
  destruct (relationship_ids_by_endpoints RelationshipFamilyProjectTeam "project.v2:a:b" "team" "owns"
              RelationshipFamilyProjectTeam "project.v2:a:b" "team" "owns") as [Hlen Hid].
  split; [exact Hlen|]. by destruct (Hid eq_refl).
Defined.
