(* ===== verification/EmbedCache.v ===== *)
(** * The query embedding cache

    internal/contextfabric/embedcache: the cache of single-text embedding calls
    (cache.go) and its configuration (config.go).  The list of container/list
    holds element pointers, which the entries map shares, so elements live in a
    heap and both structures hold their addresses.  golang.org/x/sync's
    singleflight is not part of the repository: its [Do] is an argument, and
    where callers overlap, the step relation [step] lets a waiting call take the
    outcome of any execution under its key, which is what [Do] documents. *)

From Stdlib Require Import ZArith Lia Ascii.
From stdpp Require Import sorting pretty numbers gmap strings list_numbers list relations.
From S2P Require Import Prelude GoStrings Identity.

Open Scope Z_scope.

(** ** Vectors and identities *)

(** A [float32], as its bit pattern; [[]float32] and [[][]float32], where nil
    is [None]. *)
Definition float32 : Type := Z.
Definition vec : Type := option (list float32).
Definition vecs : Type := option (list vec).

Definition vec_len (v : vec) : nat := match v with None => 0 | Some l => length l end.
Definition vec_copy (v : vec) : list float32 := match v with None => [] | Some l => l end.

Record EmbedderIdentity := EmbIdentity {
  ei_Provider : string;
  ei_Model : string;
  ei_Dimension : Z;
}.

Definition EmbedderIdentity_String (i : EmbedderIdentity) : string :=
  ei_Provider i +:+ "/" +:+ ei_Model i.

Record cacheKey := CacheKey { ck_identity : string; ck_text : string }.
#[global] Instance cacheKey_eq_dec : EqDecision cacheKey.
Proof. solve_decision. Defined.
#[global] Instance cacheKey_countable : Countable cacheKey.
Proof.
  by apply (inj_countable' (λ k, (ck_identity k, ck_text k)) (λ p, CacheKey p.1 p.2)); intros [].
Defined.

Record cacheEntry := CacheEntry { ce_key : cacheKey; ce_vector : list float32 }.

(** What one call of the provider returned. *)
Record embedOutcome := EmbedOutcome { eo_vectors : vecs; eo_err : option gerr }.

(** ** container/list, as the cache uses it: the order of the elements, front
    first. *)

Definition list_MoveToFront (el : nat) (order : list nat) : list nat :=
  if bool_decide (el ∈ order) then el :: filter (λ x, x ≠ el) order else order.
Definition list_Remove (el : nat) (order : list nat) : list nat := filter (λ x, x ≠ el) order.
Definition list_Back (order : list nat) : option nat := last order.

Module EmbedCache.

(** ** The cache *)

(** [c_elems] is the heap of list elements: an address keeps its entry after the
    element has left the list. *)
Record Cache := MkCache {
  c_maxEntries : Z;
  c_elems : gmap nat cacheEntry;
  c_next : nat;
  c_order : list nat;
  c_items : gmap cacheKey nat;
  c_hits : Z;
  c_misses : Z;
}.

Definition DefaultMaxEntries : Z := 512.

Definition New (maxEntries : Z) : Cache :=
  MkCache (if bool_decide (maxEntries <= 0) then DefaultMaxEntries else maxEntries) ∅ 0 [] ∅ 0 0.

Definition set_order (order : list nat) (c : Cache) : Cache :=
  MkCache (c_maxEntries c) (c_elems c) (c_next c) order (c_items c) (c_hits c) (c_misses c).
Definition set_elem (el : nat) (entry : cacheEntry) (c : Cache) : Cache :=
  MkCache (c_maxEntries c) (<[el := entry]> (c_elems c)) (c_next c) (c_order c) (c_items c)
    (c_hits c) (c_misses c).

(** [el := c.order.PushFront(entry); c.items[key] = el] *)
Definition push_front (entry : cacheEntry) (c : Cache) : Cache :=
  MkCache (c_maxEntries c) (<[c_next c := entry]> (c_elems c)) (S (c_next c))
    (c_next c :: c_order c) (<[ce_key entry := c_next c]> (c_items c)) (c_hits c) (c_misses c).

(** [c.order.Remove(oldest); delete(c.items, key)] *)
Definition drop_element (el : nat) (key : cacheKey) (c : Cache) : Cache :=
  MkCache (c_maxEntries c) (c_elems c) (c_next c) (list_Remove el (c_order c))
    (delete key (c_items c)) (c_hits c) (c_misses c).

(** The counters are unsigned 64-bit. *)
Definition add_hit (c : Cache) : Cache :=
  MkCache (c_maxEntries c) (c_elems c) (c_next c) (c_order c) (c_items c)
    ((c_hits c + 1) mod 2 ^ 64) (c_misses c).
Definition add_miss (c : Cache) : Cache :=
  MkCache (c_maxEntries c) (c_elems c) (c_next c) (c_order c) (c_items c)
    (c_hits c) ((c_misses c + 1) mod 2 ^ 64).

Record Metrics := MkMetrics { mt_Hits : Z; mt_Misses : Z }.
Definition Metrics_ (c : Cache) : Metrics := MkMetrics (c_hits c) (c_misses c).

(** An address that holds no entry would be a nil dereference. *)
Definition get_ (key : cacheKey) : go Cache (option (list float32)) :=
  let! c := get in
  match c_items c !! key with
  | None => ret None
  | Some el =>
    match c_elems c !! el with
    | None => panic
    | Some entry =>
      put (set_order (list_MoveToFront el (c_order c)) c) ;;
      ret (Some (ce_vector entry))
    end
  end.

Definition put_ (key : cacheKey) (vector : vec) : go Cache () :=
  let stored := vec_copy vector in
  let! c := get in
  match c_items c !! key with
  | Some el =>
    match c_elems c !! el with
    | None => panic
    | Some entry =>
      put (set_order (list_MoveToFront el (c_order c)) (set_elem el (CacheEntry (ce_key entry) stored) c))
    end
  | None =>
    let c1 := push_front (CacheEntry key stored) c in
    put c1 ;;
    if bool_decide (Z.of_nat (length (c_order c1)) <= c_maxEntries c1) then ret ()
    else
      match list_Back (c_order c1) with
      | None => ret ()
      | Some oldest =>
        match c_elems c1 !! oldest with
        | None => panic
        | Some entry => put (drop_element oldest (ce_key entry) c1)
        end
      end
  end.

Definition maybeCache (key : cacheKey) (vectors : vecs) (err : option gerr) : go Cache () :=
  match err with
  | Some _ => ret ()
  | None =>
    let! ended := attempt ctx_check in
    match ended, vectors with
    | inl _, _ => ret ()
    | inr _, Some [vector] => if bool_decide (vec_len vector = 0%nat) then ret () else put_ key vector
    | inr _, _ => ret ()
    end
  end.

Definition singleflightKey (key : cacheKey) : string :=
  strconv_Itoa (slen (ck_identity key)) +:+ ":" +:+ ck_identity key +:+ ":" +:+ ck_text key.

(** A fresh slice of the same length, nil kept, element by element. *)
Definition cloneVectors (vectors : vecs) : vecs :=
  match vectors with
  | None => None
  | Some l => Some ((λ v : vec, match v with None => None | Some x => Some x end) <$> l)
  end.

(** The start of [Embed] for one text: the lookup and the counters. *)
Definition lookup_text (key : cacheKey) : go Cache (option (list float32)) :=
  let! hit := get_ key in
  match hit with
  | Some vector => modify add_hit ;; ret (Some vector)
  | None => modify add_miss ;; ret None
  end.

(** The function [embedAndCache] hands to the group. *)
Definition flight (inner : list string → embedOutcome) (key : cacheKey) (texts : list string)
    : go Cache embedOutcome :=
  let outcome := inner texts in
  maybeCache key (eo_vectors outcome) (eo_err outcome) ;;
  ret outcome.

Section embed.
Context (Do : string → go Cache embedOutcome → go Cache embedOutcome).

Definition embedAndCache (inner : list string → embedOutcome) (key : cacheKey) (texts : list string)
    : go Cache embedOutcome :=
  let! value := attempt (Do (singleflightKey key) (flight inner key texts)) in
  match value with
  | inl err => ret (EmbedOutcome None (Some err))
  | inr outcome => ret (EmbedOutcome (cloneVectors (eo_vectors outcome)) (eo_err outcome))
  end.

(** [inner] is the wrapped embedder during the call, [identity] its identity. *)
Definition Embed (identity : EmbedderIdentity) (inner : list string → embedOutcome) (texts : list string)
    : go Cache embedOutcome :=
  match texts with
  | [text] =>
    let key := CacheKey (EmbedderIdentity_String identity) text in
    let! hit := lookup_text key in
    match hit with
    | Some vector => ret (EmbedOutcome (Some [Some vector]) None)
    | None => embedAndCache inner key texts
    end
  | _ => ret (inner texts)
  end.
End embed.

End EmbedCache.
Import EmbedCache.

(** ** Configuration *)

Definition EnvEnabled : string := "ACR_CONTEXT_FABRIC_EMBED_QUERY_CACHE_ENABLED".
Definition EnvMaxEntries : string := "ACR_CONTEXT_FABRIC_EMBED_QUERY_CACHE_SIZE".

Module EmbedConfig.

Record Config := MkConfig { cf_Enabled : bool; cf_MaxEntries : Z }.

(** [strconv.ParseBool] *)
Definition strconv_ParseBool (s : string) : option bool :=
  if slices_Contains ["1"; "t"; "T"; "true"; "TRUE"; "True"] s then Some true
  else if slices_Contains ["0"; "f"; "F"; "false"; "FALSE"; "False"] s then Some false
  else None.

Definition envBool (lookup_ : string → option string) (key : string) (fallback : bool) : bool :=
  match lookup_ key with
  | Some value =>
    if isEmpty (strings_TrimSpace value) then fallback
    else default fallback (strconv_ParseBool (strings_TrimSpace value))
  | None => fallback
  end.

Definition envInt (lookup_ : string → option string) (key : string) (fallback : Z) : res Z :=
  match lookup_ key with
  | None => Ok fallback
  | Some value =>
    if isEmpty (strings_TrimSpace value) then Ok fallback
    else
      match strconv_Atoi (strings_TrimSpace value) with
      | None => Err (ErrText (key +:+ " must be an integer"))
      | Some parsed => Ok parsed
      end
  end.

Definition ConfigFromEnv (lookup_ : string → option string) : res Config :=
  if negb (envBool lookup_ EnvEnabled false) then Ok (MkConfig false DefaultMaxEntries)
  else
    let? maxEntries := envInt lookup_ EnvMaxEntries DefaultMaxEntries in
    reject! bool_decide (maxEntries < 1) || bool_decide (65536 < maxEntries)
      with ErrText (EnvMaxEntries +:+
        " must be between one and sixty-five thousand five hundred thirty-six") ;;
    Ok (MkConfig true maxEntries).

(** What [Wrap] returns: the embedder itself ([None]) or a new cache over it.
    [present] says that the embedder is not nil. *)
Definition Wrap (present : bool) (cfg : Config) : option Cache :=
  if negb present || negb (cf_Enabled cfg) then None else Some (New (cf_MaxEntries cfg)).

End EmbedConfig.
