(* ===== verification/EmbedTheorems.v ===== *)
(** * The embedding cache: refinement of an LRU list, and transparency

    The cache of two linked structures behaves as a bounded list of key and
    vector pairs, most recently used first ([cache_refines_lru]); overlapping
    calls get what the provider would have answered them ([embed_transparent]);
    the configuration ([config_inert_when_disabled]). *)

From Stdlib Require Import ZArith Lia Ascii.
From stdpp Require Import sorting pretty numbers gmap strings list_numbers list relations.
From S2P Require Import Prelude GoStrings Identity EmbedCache.
Import EmbedCache.EmbedCache EmbedCache.EmbedConfig.

Open Scope Z_scope.

(** ** The reference: a list of pairs *)

Notation lru := (list (cacheKey * list float32)).

Definition lru_forget (k : cacheKey) (l : lru) : lru := filter (λ p, p.1 ≠ k) l.

Fixpoint lru_find (k : cacheKey) (l : lru) : option (list float32) :=
  match l with
  | [] => None
  | p :: l' => if bool_decide (p.1 = k) then Some p.2 else lru_find k l'
  end.

Inductive cache_call := CGet (k : cacheKey) | CPut (k : cacheKey) (v : vec).

(** A hit moves the pair to the front; a store puts it there and keeps the first
    [n]. *)
Definition lru_step (n : nat) (o : cache_call) (l : lru) : option (list float32) * lru :=
  match o with
  | CGet k =>
    match lru_find k l with
    | Some v => (Some v, (k, v) :: lru_forget k l)
    | None => (None, l)
    end
  | CPut k v => (None, take n ((k, vec_copy v) :: lru_forget k l))
  end.

Fixpoint lru_run (n : nat) (os : list cache_call) (l : lru) : list (option (list float32)) * lru :=
  match os with
  | [] => ([], l)
  | o :: os' =>
    let '(r, l1) := lru_step n o l in
    let '(rs, l2) := lru_run n os' l1 in (r :: rs, l2)
  end.

Definition cache_step (o : cache_call) : go Cache (option (list float32)) :=
  match o with
  | CGet k => get_ k
  | CPut k v => put_ k v ;; ret None
  end.

Fixpoint cache_run (os : list cache_call) : go Cache (list (option (list float32))) :=
  match os with
  | [] => ret []
  | o :: os' => let! r := cache_step o in let! rs := cache_run os' in ret (r :: rs)
  end.

(** ** The abstraction *)

Definition pair_at (c : Cache) (el : nat) : option (cacheKey * list float32) :=
  (λ e, (ce_key e, ce_vector e)) <$> c_elems c !! el.
Definition abs (c : Cache) : lru := omap (pair_at c) (c_order c).

Record cache_ok (c : Cache) : Prop := {
  ok_bound : 1 <= c_maxEntries c ∧ Z.of_nat (length (c_order c)) <= c_maxEntries c;
  ok_nodup : NoDup (c_order c);
  ok_order el : el ∈ c_order c → ∃ e, c_elems c !! el = Some e ∧ c_items c !! ce_key e = Some el;
  ok_items k el : c_items c !! k = Some el →
    el ∈ c_order c ∧ ∃ e, c_elems c !! el = Some e ∧ ce_key e = k;
  ok_fresh el e : c_elems c !! el = Some e → (el < c_next c)%nat;
}.

(** In a consistent cache an element of the order is the one of key [k] exactly
    when the map says so. *)
Lemma ok_key c k el x : cache_ok c → c_items c !! k = Some el → x ∈ c_order c →
  ∃ e, c_elems c !! x = Some e ∧ (ce_key e = k ↔ x = el).
Proof.
  intros Hok Hk Hx. destruct (ok_order _ Hok _ Hx) as (e & He & Hi). exists e. split; [done|].
  split; [intros <-; congruence|]. intros ->.
  destruct (ok_items _ Hok _ _ Hk) as (_ & e' & He' & <-). congruence.
Qed.

Lemma ok_no_key c k x : cache_ok c → c_items c !! k = None → x ∈ c_order c →
  ∃ e, c_elems c !! x = Some e ∧ ce_key e ≠ k.
Proof.
  intros Hok Hk Hx. destruct (ok_order _ Hok _ Hx) as (e & He & Hi). exists e. split; [done|]. congruence.
Qed.

Lemma forget_abs (c : Cache) k el order :
  (∀ x, x ∈ order → ∃ e, c_elems c !! x = Some e ∧ (ce_key e = k ↔ x = el)) →
  lru_forget k (omap (pair_at c) order) = omap (pair_at c) (list_Remove el order).
Proof.
  unfold lru_forget, list_Remove. induction order as [|x order IH]; intros H; [done|].
  destruct (H x) as (e & He & Hx); [left|]. rewrite filter_cons. cbn [omap list_omap].
  unfold pair_at at 1. rewrite He. cbn [fmap option_fmap option_map]. rewrite filter_cons. cbn [fst].
  rewrite IH by (intros y Hy; apply H; by right).
  destruct (decide (x = el)) as [Heq|Hne].
  - rewrite decide_False by (intros Hn; apply Hn, Hx; done). by rewrite decide_False by auto.
  - rewrite decide_True by (intros Hn; apply Hne, Hx; done). rewrite decide_True by done.
    cbn [omap list_omap]. unfold pair_at at 2. by rewrite He.
Qed.

Lemma forget_absent k l : (∀ p, p ∈ l → p.1 ≠ k) → lru_forget k l = l.
Proof.
  unfold lru_forget. induction l as [|p l IH]; intros H; [done|]. rewrite filter_cons.
  rewrite decide_True by (apply H; left). f_equal. apply IH. intros q Hq. apply H. by right.
Qed.

Lemma find_absent k l : (∀ p, p ∈ l → p.1 ≠ k) → lru_find k l = None.
Proof.
  induction l as [|p l IH]; intros H; [done|]. cbn. rewrite bool_decide_false by (apply H; left).
  apply IH. intros q Hq. apply H. by right.
Qed.

Lemma elem_of_abs c p : p ∈ abs c ↔ ∃ el e, el ∈ c_order c ∧ c_elems c !! el = Some e
                                          ∧ p = (ce_key e, ce_vector e).
Proof.
  unfold abs. rewrite list_elem_of_omap. unfold pair_at. split.
  - intros (el & Hel & (e & He & ->)%fmap_Some). eauto.
  - intros (el & e & Hel & He & ->). exists el. by rewrite He.
Qed.

Lemma abs_absent c k : cache_ok c → c_items c !! k = None → ∀ p, p ∈ abs c → p.1 ≠ k.
Proof.
  intros Hok Hk p (el & e & Hel & He & ->)%elem_of_abs. cbn.
  destruct (ok_no_key _ _ _ Hok Hk Hel) as (e' & He' & Hne). congruence.
Qed.

Lemma find_abs c k el e : cache_ok c → c_items c !! k = Some el → c_elems c !! el = Some e →
  lru_find k (abs c) = Some (ce_vector e).
Proof.
  intros Hok Hk He. destruct (ok_items _ Hok _ _ Hk) as (Hin & e' & He' & Hke).
  simplify_eq. unfold abs.
  assert (∀ x, x ∈ c_order c → ∃ e', c_elems c !! x = Some e' ∧ (ce_key e' = ce_key e ↔ x = el)) as H.
  { intros x Hx. by apply ok_key. }
  revert Hin H. generalize (c_order c). intros order. induction order as [|x order IH]; intros Hin H.
  { by apply elem_of_nil in Hin. }
  destruct (H x) as (ex & Hex & Hx); [left|]. cbn [omap list_omap]. unfold pair_at at 1. rewrite Hex.
  cbn [fmap option_fmap option_map lru_find fst snd]. case_bool_decide as Hkey.
  - apply Hx in Hkey as ->. congruence.
  - apply elem_of_cons in Hin as [->|Hin]; [by destruct Hkey; apply Hx|].
    apply IH; [done|]. intros y Hy. apply H. by right.
Qed.

(** ** The operations on the abstraction *)

Lemma MoveToFront_perm el order : NoDup order → el ∈ order →
  list_MoveToFront el order = el :: list_Remove el order ∧ el :: list_Remove el order ≡ₚ order.
Proof.
  intros Hnd Hin. unfold list_MoveToFront, list_Remove. rewrite bool_decide_true by done. split; [done|].
  apply NoDup_Permutation; [|done|].
  - constructor; [|by apply NoDup_filter]. rewrite list_elem_of_filter. naive_solver.
  - intros x. rewrite elem_of_cons, list_elem_of_filter. destruct (decide (x = el)) as [->|]; naive_solver.
Qed.

Lemma ok_reorder c order : cache_ok c → order ≡ₚ c_order c → cache_ok (set_order order c).
Proof.
  intros [[Hb1 Hb2] Hnd Ho Hi Hf] Hp. constructor; cbn.
  - by rewrite Hp.
  - by rewrite Hp.
  - intros el. rewrite Hp. apply Ho.
  - intros k el. rewrite Hp. apply Hi.
  - exact Hf.
Qed.

(** Overwriting the vector of an entry. *)
Lemma ok_set_elem c el e v : cache_ok c → c_elems c !! el = Some e →
  cache_ok (set_elem el (CacheEntry (ce_key e) v) c).
Proof.
  intros Hok He. constructor; cbn; [apply Hok|apply Hok| | |].
  - intros x Hx. destruct (ok_order _ Hok _ Hx) as (ex & Hex & Hi).
    destruct (decide (x = el)) as [->|Hne].
    + rewrite lookup_insert_eq. eexists. split; [done|]. cbn. congruence.
    + rewrite lookup_insert_ne by done. eauto.
  - intros k x Hx. destruct (ok_items _ Hok _ _ Hx) as (Hin & ex & Hex & Hkx). split; [done|].
    destruct (decide (x = el)) as [->|Hne].
    + rewrite lookup_insert_eq. eexists. split; [done|]. cbn. congruence.
    + rewrite lookup_insert_ne by done. eauto.
  - intros x ex. destruct (decide (x = el)) as [->|Hne].
    + intros _. by eapply ok_fresh.
    + rewrite lookup_insert_ne by done. by apply ok_fresh.
Qed.

Lemma omap_length c order : (∀ x, x ∈ order → is_Some (c_elems c !! x)) →
  length (omap (pair_at c) order) = length order.
Proof.
  induction order as [|x order IH]; intros H; [done|]. cbn [omap list_omap].
  destruct (H x) as [e He]; [left|]. unfold pair_at at 1. rewrite He. cbn. f_equal.
  apply IH. intros y Hy. apply H. by right.
Qed.

Lemma abs_length c : cache_ok c → length (abs c) = length (c_order c).
Proof.
  intros Hok. apply omap_length. intros x Hx. destruct (ok_order _ Hok _ Hx) as (e & -> & _). by eexists.
Qed.

Lemma pair_at_ext c c' (order : list nat) : (∀ x, x ∈ order → c_elems c' !! x = c_elems c !! x) →
  omap (pair_at c') order = omap (pair_at c) order.
Proof.
  induction order as [|x order IH]; intros H; [done|]. cbn [omap list_omap].
  assert (pair_at c' x = pair_at c x) as -> by (unfold pair_at; rewrite (H x) by left; done).
  by rewrite IH by (intros y Hy; apply H; by right).
Qed.

(** What an operation promises: it answers as the list does, moves to the list's
    next state and keeps the cache consistent. *)
Definition simulates (c : Cache) (e : env) (o : cache_call) : Prop :=
  ∃ c', cache_step o (e, c) = (Ok (lru_step (Z.to_nat (c_maxEntries c)) o (abs c)).1, (e, c'))
    ∧ abs c' = (lru_step (Z.to_nat (c_maxEntries c)) o (abs c)).2
    ∧ cache_ok c' ∧ c_maxEntries c' = c_maxEntries c.

Lemma front_abs c k el e : cache_ok c → c_items c !! k = Some el → c_elems c !! el = Some e →
  abs (set_order (list_MoveToFront el (c_order c)) c) = (k, ce_vector e) :: lru_forget k (abs c)
  ∧ cache_ok (set_order (list_MoveToFront el (c_order c)) c).
Proof.
  intros Hok Hk He. destruct (ok_items _ Hok _ _ Hk) as (Hin & e' & He' & Hke).
  destruct (MoveToFront_perm _ _ (ok_nodup _ Hok) Hin) as [-> Hp].
  split; [|by apply ok_reorder].
  unfold abs. rewrite (forget_abs c k el) by (intros x Hx; by apply ok_key).
  cbn [set_order c_order omap list_omap]. unfold pair_at at 1. cbn [set_order c_elems]. rewrite He. cbn.
  replace e with e' by congruence. by rewrite Hke.
Qed.

Lemma get_simulates c e k : cache_ok c → simulates c e (CGet k).
Proof.
  intros Hok. unfold simulates. cbn [cache_step lru_step]. unfold get_. rewrite bind_get. cbn [snd].
  destruct (c_items c !! k) as [el|] eqn:Hk.
  - destruct (ok_items _ Hok _ _ Hk) as (Hin & en & He & _). rewrite He.
    destruct (front_abs _ _ _ _ Hok Hk He) as [Ha Hok']. rewrite (find_abs _ _ _ _ Hok Hk He).
    eexists. split; [reflexivity|]. by split_and!.
  - rewrite find_absent by (by apply abs_absent). eexists. split; [reflexivity|]. by split_and!.
Qed.

Lemma put_existing c e k v el : cache_ok c → c_items c !! k = Some el → simulates c e (CPut k v).
Proof.
  intros Hok Hk. destruct (ok_items _ Hok _ _ Hk) as (Hin & en & He & Hke).
  unfold simulates. cbn [cache_step lru_step fst snd]. unfold put_.
  set (c1 := set_elem el (CacheEntry (ce_key en) (vec_copy v)) c).
  assert (cache_ok c1) as Hok1 by (by apply ok_set_elem).
  destruct (front_abs c1 k el (CacheEntry (ce_key en) (vec_copy v)) Hok1 Hk) as [Ha Hok2].
  { apply lookup_insert_eq. }
  exists (set_order (list_MoveToFront el (c_order c1)) c1). split.
  { unfold bind at 1. rewrite bind_get. cbn [snd]. rewrite Hk, He. reflexivity. }
  split_and!; [|exact Hok2|done]. rewrite Ha. cbn [ce_vector].
  assert (lru_forget k (abs c1) = lru_forget k (abs c)) as ->.
  { unfold abs. rewrite (forget_abs c1 k el), (forget_abs c k el) by (intros x Hx; by apply ok_key).
    apply pair_at_ext. intros x [Hx _]%list_elem_of_filter. by apply lookup_insert_ne. }
  symmetry. apply take_ge. cbn. unfold abs.
  rewrite (forget_abs c k el) by (intros x Hx; by apply ok_key).
  rewrite omap_length.
  - destruct (MoveToFront_perm _ _ (ok_nodup _ Hok) Hin) as [_ Hp].
    change (S (length (list_Remove el (c_order c)))) with (length (el :: list_Remove el (c_order c))).
    rewrite Hp. destruct (ok_bound _ Hok). lia.
  - intros x [_ Hx]%list_elem_of_filter. destruct (ok_order _ Hok _ Hx) as (ex & -> & _). by eexists.
Qed.

Lemma ok_push c k v : cache_ok c → c_items c !! k = None →
  Z.of_nat (S (length (c_order c))) <= c_maxEntries c →
  cache_ok (push_front (CacheEntry k v) c).
Proof.
  intros Hok Hk Hlen.
  assert (∀ x, x ∈ c_order c → x ≠ c_next c) as Hne.
  { intros x Hx ->. destruct (ok_order _ Hok _ Hx) as (e & He & _). apply (ok_fresh _ Hok) in He. lia. }
  constructor; cbn.
  - split; [apply Hok|done].
  - constructor; [|apply Hok]. intros Hin. by eapply Hne.
  - intros x [->|Hx]%elem_of_cons.
    { rewrite lookup_insert_eq. eexists. split; [done|]. apply lookup_insert_eq. }
    destruct (ok_order _ Hok _ Hx) as (e & He & Hi). exists e.
    rewrite !lookup_insert_ne; [done| |]; [congruence|]. by apply not_eq_sym, Hne.
  - intros k' x. destruct (decide (k = k')) as [<-|Hkk].
    + rewrite lookup_insert_eq. intros [= <-]. split; [left|]. rewrite lookup_insert_eq. eauto.
    + rewrite lookup_insert_ne by done. intros Hx. destruct (ok_items _ Hok _ _ Hx) as (Hin & e & He & <-).
      split; [by right|]. exists e. rewrite lookup_insert_ne; [done|]. by apply not_eq_sym, Hne.
  - intros x e. destruct (decide (c_next c = x)) as [<-|].
    + intros _. lia.
    + rewrite lookup_insert_ne by done. intros He. apply (ok_fresh _ Hok) in He. lia.
Qed.

Lemma ok_drop c el e : cache_ok c → el ∈ c_order c → c_elems c !! el = Some e →
  cache_ok (drop_element el (ce_key e) c).
Proof.
  intros Hok Hin He. constructor; cbn; unfold list_Remove.
  - split; [apply Hok|]. pose proof (length_filter (λ x, x ≠ el) (c_order c)). destruct (ok_bound _ Hok). lia.
  - apply NoDup_filter, Hok.
  - intros x [Hne Hx]%list_elem_of_filter. destruct (ok_order _ Hok _ Hx) as (ex & Hex & Hi).
    exists ex. split; [done|]. rewrite lookup_delete_ne; [done|]. intros Hk.
    destruct (ok_order _ Hok _ Hin) as (e' & He' & Hi'). congruence.
  - intros k x Hx. destruct (decide (ce_key e = k)) as [<-|Hk]; [by rewrite lookup_delete_eq in Hx|].
    rewrite lookup_delete_ne in Hx by done. destruct (ok_items _ Hok _ _ Hx) as (Hox & ex & Hex & Hkx).
    split; [|eauto]. apply list_elem_of_filter. split; [|done]. intros ->. congruence.
  - apply Hok.
Qed.

Lemma remove_last (l : list nat) x : NoDup (l ++ [x]) → list_Remove x (l ++ [x]) = l.
Proof.
  intros (Hl & Hd & _)%NoDup_app. unfold list_Remove. rewrite filter_app, filter_cons, filter_nil.
  rewrite decide_False by auto. rewrite app_nil_r.
  induction l as [|y l IH]; [done|]. rewrite filter_cons. apply NoDup_cons in Hl as [_ Hl].
  rewrite decide_True by (intros ->; apply (Hd x); [left|by left]).
  f_equal. apply IH; [done|]. intros z Hz. apply Hd. by right.
Qed.

Lemma push_abs c k v : cache_ok c →
  abs (push_front (CacheEntry k v) c) = (k, v) :: abs c.
Proof.
  intros Hok. unfold abs. cbn [push_front c_order omap list_omap]. unfold pair_at at 1.
  cbn [push_front c_elems]. rewrite lookup_insert_eq. cbn. f_equal.
  apply pair_at_ext. intros x Hx. cbn. apply lookup_insert_ne. intros <-.
  destruct (ok_order _ Hok _ Hx) as (e & He & _). apply (ok_fresh _ Hok) in He. lia.
Qed.

(** The same cache with room for one more: what [put] leaves before it looks at
    the bound. *)
Definition roomier (c : Cache) : Cache :=
  MkCache (c_maxEntries c + 1) (c_elems c) (c_next c) (c_order c) (c_items c) (c_hits c) (c_misses c).

Lemma ok_roomier c : cache_ok c → cache_ok (roomier c).
Proof. intros []. constructor; cbn; try done. lia. Qed.

Lemma put_new c e k v : cache_ok c → c_items c !! k = None → simulates c e (CPut k v).
Proof.
  intros Hok Hk. unfold simulates. cbn [cache_step lru_step fst snd]. unfold put_.
  rewrite (forget_absent k (abs c)) by (by apply abs_absent).
  set (c1 := push_front (CacheEntry k (vec_copy v)) c).
  pose proof (push_abs c k (vec_copy v) Hok) as Hc1. fold c1 in Hc1. rewrite <- Hc1.
  destruct (ok_bound _ Hok) as [Hb1 Hb2].
  destruct (decide (Z.of_nat (length (c_order c1)) <= c_maxEntries c1)) as [Hroom|Hfull].
  - exists c1. assert (cache_ok c1) as Hok1 by (by apply ok_push).
    split; [|split_and!; [|done|done]].
    + unfold bind at 1. rewrite bind_get. cbn [snd]. rewrite Hk. fold c1. unfold bind, put. cbn [snd fst].
      by rewrite bool_decide_true by done.
    + rewrite take_ge; [done|]. rewrite abs_length by done. cbn in *. lia.
  - assert (cache_ok (roomier c1)) as Hok1.
    { unfold c1. apply (ok_push (roomier c)); [by apply ok_roomier|done|]. cbn. lia. }
    destruct (exists_last (l := c_order c1)) as (l & x & Hl); [done|].
    assert (x ∈ c_order (roomier c1)) as Hx by (cbn [roomier c_order]; rewrite Hl; set_solver).
    destruct (ok_order _ Hok1 x Hx) as (ex & Hex & _).
    assert (NoDup (l ++ [x])) as Hnd by (rewrite <- Hl; apply (ok_nodup _ Hok1)).
    assert (abs c1 = omap (pair_at c1) l ++ [(ce_key ex, ce_vector ex)]) as Habs.
    { unfold abs. rewrite Hl, omap_app. f_equal. cbn. unfold pair_at. cbn [roomier c_elems] in Hex.
      by rewrite Hex. }
    assert (length (abs c1) = S (length (c_order c))) as Hn by (rewrite Hc1; cbn; by rewrite abs_length).
    exists (drop_element x (ce_key ex) c1). split; [|split_and!; [| |done]].
    + unfold bind at 1. rewrite bind_get. cbn [snd]. rewrite Hk. fold c1. unfold bind, put. cbn [snd fst].
      rewrite bool_decide_false by done. unfold list_Back. rewrite Hl, last_snoc.
      cbn [roomier c_elems] in Hex. by rewrite Hex.
    + unfold abs at 1. cbn [drop_element c_order]. rewrite Hl, remove_last by done.
      rewrite (pair_at_ext c1) by done. rewrite Habs, length_app in *. cbn in Hn, Hfull.
      rewrite take_app_length'; [done|]. lia.
    + pose proof (ok_drop _ _ _ Hok1 Hx Hex) as Hd.
      constructor; [|apply (ok_nodup _ Hd)|apply (ok_order _ Hd)|apply (ok_items _ Hd)|apply (ok_fresh _ Hd)].
      cbn [drop_element c_order c_maxEntries]. rewrite Hl, remove_last by done.
      apply (f_equal length) in Hl. rewrite length_app in Hl. cbn in Hl |- *. lia.
Qed.

Lemma New_ok max : cache_ok (New max) ∧ abs (New max) = []
  ∧ c_maxEntries (New max) = (if bool_decide (max <= 0) then 512 else max).
Proof.
  split_and!; [|done|done]. constructor; cbn.
  - case_bool_decide; unfold DefaultMaxEntries; lia.
  - constructor.
  - intros el H. by apply elem_of_nil in H.
  - intros k el H. by rewrite lookup_empty in H.
  - intros el e H. by rewrite lookup_empty in H.
Qed.

(** One pair per key. *)
Lemma abs_keys c : cache_ok c → NoDup (abs c).*1.
Proof.
  intros Hok. unfold abs. pose proof (ok_order _ Hok) as Ho. pose proof (ok_nodup _ Hok) as Hnd.
  revert Ho Hnd. generalize (c_order c) as order. induction order as [|x order IH]; intros Ho Hnd; [constructor|].
  apply NoDup_cons in Hnd as [Hx Hnd]. destruct (Ho x) as (e & He & Hi); [left|].
  cbn [omap list_omap]. unfold pair_at at 1. rewrite He. cbn. constructor.
  - intros ([k v] & Hk & (y & Hy & Hp)%list_elem_of_omap)%list_elem_of_fmap. cbn in Hk. subst k.
    unfold pair_at in Hp. apply fmap_Some in Hp as (e' & He' & [= Hke _]).
    destruct (Ho y) as (e2 & He2 & Hi2); [by right|]. congruence.
  - apply IH; [|done]. intros y Hy. apply Ho. by right.
Qed.

Lemma step_simulates c e o : cache_ok c → simulates c e o.
Proof.
  intros Hok. destruct o as [k|k v]; [by apply get_simulates|].
  destruct (c_items c !! k) eqn:Hk; [by eapply put_existing|by apply put_new].
Qed.

(** C33: the cache is the bounded list it stands for.  Whatever calls are made of
    a new cache, none panics, every lookup answers exactly as the list of pairs
    most recently used first does, the two structures hold exactly that list at
    the end, and it never exceeds the configured number of entries, which is 512
    when the configuration is not positive. *)
Theorem cache_refines_lru maxEntries os e :
  let n := if bool_decide (maxEntries <= 0) then 512 else maxEntries in
  ∃ c, cache_run os (e, New maxEntries) = (Ok (lru_run (Z.to_nat n) os []).1, (e, c))
    ∧ abs c = (lru_run (Z.to_nat n) os []).2
    ∧ Z.of_nat (length (abs c)) <= n ∧ NoDup (abs c).*1.
Proof.
  intros n. destruct (New_ok maxEntries) as (Hok & Habs & Hmax).
  assert (∀ c, cache_ok c → c_maxEntries c = n →
    ∃ c', cache_run os (e, c) = (Ok (lru_run (Z.to_nat n) os (abs c)).1, (e, c'))
      ∧ abs c' = (lru_run (Z.to_nat n) os (abs c)).2 ∧ cache_ok c' ∧ c_maxEntries c' = n) as Hrun.
  { clear Hok Habs Hmax. induction os as [|o os IH]; intros c Hok Hm; [by exists c|].
    destruct (step_simulates c e o Hok) as (c1 & Hs & Ha & Hok1 & Hm1). rewrite Hm in *.
    destruct (IH c1 Hok1 Hm1) as (c2 & Hr & Ha2 & Hok2 & Hm2).
    exists c2. cbn [cache_run lru_run]. unfold bind. rewrite Hs, Hr. rewrite Ha in *.
    destruct (lru_step (Z.to_nat n) o (abs c)) as [r l1]. cbn [fst snd] in *.
    by destruct (lru_run (Z.to_nat n) os l1). }
  destruct (Hrun _ Hok Hmax) as (c & Hr & Ha & Hokc & Hm). rewrite Habs in *.
  exists c. split_and!; [done|done| |].
  - rewrite abs_length by done. rewrite <- Hm. apply Hokc.
  - by apply abs_keys.
Qed.

Example lru_evicts :
  (cache_run [CPut (CacheKey "m" "a") (Some [1]); CPut (CacheKey "m" "b") (Some [2]); CGet (CacheKey "m" "a");
              CPut (CacheKey "m" "c") (Some [3]); CGet (CacheKey "m" "b"); CGet (CacheKey "m" "a")]
     (Env [] [], New 2)).1
  = Ok [None; None; Some [1]; None; None; Some [1]].
Proof. vm_compute. reflexivity. Qed.

(** ** The key of a shared execution *)

Definition no_colon (s : string) : Prop := ":"%char ∉ chars s.

Lemma pretty_N_no_colon (n : N) : no_colon (pretty n).
Proof.
  assert (∀ n s, no_colon s → no_colon (pretty_N_go n s)) as Hgo.
  { clear n. intros n. induction (N.lt_wf_0 n) as [n _ IH]. intros s Hs.
    destruct (decide (n = 0)%N) as [->|Hn]; [done|].
    rewrite pretty_N_go_step by lia. apply IH; [apply N.div_lt; lia|].
    unfold no_colon in *. cbn. rewrite not_elem_of_cons. split; [|done].
    unfold pretty_N_char. repeat case_match; done. }
  unfold pretty, pretty_N. case_decide; [cbn; unfold no_colon; cbn; set_solver|].
  apply Hgo. unfold no_colon. cbn. set_solver.
Qed.

Lemma Itoa_no_colon n : 0 ≤ n → no_colon (strconv_Itoa n).
Proof.
  intros Hn. unfold strconv_Itoa, pretty, pretty_Z. destruct n; [apply (pretty_N_no_colon 0)|apply pretty_N_no_colon|lia].
Qed.

Lemma colon_split (a a' b b' : list ascii) (c : ascii) : c ∉ a → c ∉ a' →
  a ++ c :: b = a' ++ c :: b' → a = a' ∧ b = b'.
Proof.
  revert a'. induction a as [|x a IH]; intros [|x' a'] Ha Ha' H; cbn in H.
  - by injection H.
  - injection H as -> _. destruct Ha'. left.
  - injection H as <- _. destruct Ha. left.
  - injection H as -> H. destruct (IH a') as [-> ->]; [set_solver..|done|done].
Qed.

(** The length before the first colon says where the identity ends, so nothing
    in an identity or a text can make two keys render alike. *)
Lemma singleflightKey_inj k k' : singleflightKey k = singleflightKey k' → k = k'.
Proof.
  destruct k as [i t], k' as [i' t']. unfold singleflightKey. cbn [ck_identity ck_text].
  intros H%(f_equal chars). rewrite !chars_app in H. change (chars ":") with [":"%char] in H.
  cbn [app] in H. apply colon_split in H as [Hlen H];
    [|apply Itoa_no_colon; unfold slen; lia..].
  assert (slen i = slen i') as Hi.
  { apply (inj (pretty (A := Z))). rewrite <- (of_chars_chars (pretty (slen i))).
    unfold strconv_Itoa in Hlen. rewrite Hlen. apply of_chars_chars. }
  apply app_inj_1 in H as [Hc H]; [|rewrite !slen_chars in Hi; lia]. injection H as H.
  f_equal; [rewrite <- (of_chars_chars i), Hc|rewrite <- (of_chars_chars t), H]; apply of_chars_chars.
Qed.

Lemma cloneVectors_eq v : cloneVectors v = v.
Proof.
  destruct v as [l|]; [|done]. cbn. f_equal. rewrite <- (list_fmap_id l) at 2.
  apply list_fmap_ext. by intros i [x|] _.
Qed.

(** ** Overlapping calls *)

(** A call of [Embed] for one text, after its lookup: waiting for an execution,
    or answered. *)
Inductive call :=
  | Waiting (key : cacheKey)
  | Answered (key : cacheKey) (answer : embedOutcome).

(** [w_flights] are the executions of the function given to the group, each with
    the string it ran under. *)
Record world := World {
  w_cache : Cache;
  w_calls : gmap nat call;
  w_flights : list (string * embedOutcome);
}.

Definition from_hit (vector : list float32) : embedOutcome := EmbedOutcome (Some [Some vector]) None.
Definition cloned (o : embedOutcome) : embedOutcome := EmbedOutcome (cloneVectors (eo_vectors o)) (eo_err o).

Section overlap.
(** What the provider may answer, under an identity, for a text. *)
Context (provides : string → string → embedOutcome → Prop).

Definition provided (key : cacheKey) (o : embedOutcome) : Prop := provides (ck_identity key) (ck_text key) o.

(** A call looks its text up; a waiting call executes the function under its key,
    in any context [e]; a waiting call takes the outcome of an execution under
    the same string. *)
Inductive step : world → world → Prop :=
  | step_lookup W n key e r e' cache :
      w_calls W !! n = None →
      lookup_text key (e, w_cache W) = (Ok r, (e', cache)) →
      step W (World cache
                (<[n := match r with Some v => Answered key (from_hit v) | None => Waiting key end]>
                   (w_calls W)) (w_flights W))
  | step_lead W n key inner e o e' cache :
      w_calls W !! n = Some (Waiting key) →
      provided key (inner [ck_text key]) →
      flight inner key [ck_text key] (e, w_cache W) = (Ok o, (e', cache)) →
      step W (World cache (<[n := Answered key (cloned o)]> (w_calls W))
                ((singleflightKey key, o) :: w_flights W))
  | step_join W n key o :
      w_calls W !! n = Some (Waiting key) →
      (singleflightKey key, o) ∈ w_flights W →
      step W (World (w_cache W) (<[n := Answered key (cloned o)]> (w_calls W)) (w_flights W)).

Definition fresh_world (maxEntries : Z) : world := World (New maxEntries) ∅ [].

(** A cached pair is a good answer: one non-empty vector and no error. *)
Definition good_pair (p : cacheKey * list float32) : Prop := p.2 ≠ [] ∧ provided p.1 (from_hit p.2).

Record world_ok (W : world) : Prop := {
  wo_cache : cache_ok (w_cache W);
  wo_pairs p : p ∈ abs (w_cache W) → good_pair p;
  wo_flights s o : (s, o) ∈ w_flights W → ∃ key, s = singleflightKey key ∧ provided key o;
  wo_calls n key o : w_calls W !! n = Some (Answered key o) → provided key o;
}.

Lemma lru_step_sub n o l p : p ∈ (lru_step n o l).2 →
  p ∈ l ∨ ∃ k v, o = CPut k v ∧ p = (k, vec_copy v).
Proof.
  destruct o as [k|k v]; cbn.
  - destruct (lru_find k l) as [v|] eqn:Hf; [|by left].
    cbn [snd]. rewrite elem_of_cons. intros [->|[_ Hp]%list_elem_of_filter]; [left|by left].
    induction l as [|q l IH]; [done|]. cbn in Hf. case_bool_decide as Hq.
    + injection Hf as <-. rewrite <- Hq. destruct q. left.
    + right. by apply IH.
  - intros Hp%elem_of_take. destruct Hp as (i & Hp & _). apply list_elem_of_lookup_2 in Hp.
    apply elem_of_cons in Hp as [->|[_ Hp]%list_elem_of_filter]; [right; eauto|by left].
Qed.

(** [abs] and [cache_ok] do not look at the counters. *)
Lemma lookup_text_ok key w r w' : lookup_text key w = (r, w') → cache_ok w.2 →
  cache_ok w'.2 ∧ (∀ p, p ∈ abs w'.2 → p ∈ abs w.2)
  ∧ (r = Ok (lru_find key (abs w.2))).
Proof.
  destruct w as [e c]. intros Hrun Hok. cbn [snd] in *.
  destruct (get_simulates c e key Hok) as (c1 & Hget & Ha & Hok1 & _).
  cbn [cache_step] in Hget. unfold lookup_text, bind in Hrun. rewrite Hget in Hrun.
  assert (∀ p, p ∈ abs c1 → p ∈ abs c) as Hsub.
  { intros p. rewrite Ha. by intros [?|(k & v & ? & _)]%lru_step_sub. }
  cbn [lru_step] in Hrun. destruct (lru_find key (abs c)) as [v|] eqn:Hf; cbn in Hrun;
    injection Hrun as <- <-; cbn [snd]; (split_and!; [|exact Hsub|done]); destruct Hok1; by constructor.
Qed.

Lemma maybeCache_ok key vs err w r w' : maybeCache key vs err w = (r, w') → cache_ok w.2 →
  cache_ok w'.2 ∧ r = Ok ()
  ∧ ∀ p, p ∈ abs w'.2 → p ∈ abs w.2
         ∨ p.2 ≠ [] ∧ p.1 = key ∧ EmbedOutcome vs err = from_hit p.2.
Proof.
  destruct w as [[ctx clk] c]. intros Hrun Hok. cbn [snd] in *. unfold maybeCache in Hrun.
  destruct err; [injection Hrun as <- <-; auto|].
  unfold bind at 1, attempt, ctx_check in Hrun. cbn [fst snd env_ctx env_clock] in Hrun.
  assert (∀ e, match vs with
               | Some [v] => if bool_decide (vec_len v = 0%nat) then ret () else put_ key v
               | _ => ret ()
               end (e, c) = (r, w') →
            cache_ok w'.2 ∧ r = Ok ()
            ∧ ∀ p, p ∈ abs w'.2 → p ∈ abs c ∨ p.2 ≠ [] ∧ p.1 = key ∧ EmbedOutcome vs None = from_hit p.2) as Hput.
  { intros e H. destruct vs as [[|v [|]]|]; try (injection H as <- <-; by auto).
    case_bool_decide as Hv; [injection H as <- <-; by auto|].
    destruct (step_simulates c e (CPut key v) Hok) as (c' & Hs & Ha & Hok' & _).
    cbn [cache_step] in Hs. unfold bind in Hs. rewrite H in Hs.
    destruct r as [[]| |]; cbn in Hs; try done. injection Hs as -> . split_and!; [done|done|].
    cbn [snd]. intros p. rewrite Ha. intros [?|(k & v' & [= <- <-] & ->)]%lru_step_sub; [by left|right].
    cbn. destruct v as [l|]; [|done]. cbn in *. split_and!; [|done|done]. by intros ->. }
  destruct ctx as [|[ce|] ctx]; cbn in Hrun.
  - destruct vs as [[|v [|]]|]; by apply (Hput _ Hrun).
  - injection Hrun as <- <-. auto.
  - destruct vs as [[|v [|]]|]; by apply (Hput _ Hrun).
Qed.

Lemma answered_insert (calls : gmap nat call) n key (o : embedOutcome) :
  (∀ n key o, calls !! n = Some (Answered key o) → provided key o) → provided key o →
  ∀ n' key' o', <[n := Answered key o]> calls !! n' = Some (Answered key' o') → provided key' o'.
Proof.
  intros Hc Hp n' key' o'. destruct (decide (n = n')) as [<-|].
  - rewrite lookup_insert_eq. by intros [= <- <-].
  - rewrite lookup_insert_ne by done. apply Hc.
Qed.

Lemma cloned_eq o : cloned o = o.
Proof. destruct o. unfold cloned. cbn. by rewrite cloneVectors_eq. Qed.

Lemma step_ok W W' : step W W' → world_ok W → world_ok W'.
Proof.
  intros Hstep [Hc Hp Hf Ha].
  destruct Hstep as [W n key e r e' cache Hn Hl|W n key inner e o e' cache Hn Hi Hl|W n key o Hn Hin].
  - destruct (lookup_text_ok _ _ _ _ Hl Hc) as (Hc' & Hsub & [= ->]). cbn [snd] in *.
    constructor; cbn; [done|auto|done|].
    destruct (lru_find key (abs (w_cache W))) as [v|] eqn:Hfind.
    + apply answered_insert; [done|]. destruct (Hp (key, v)); [|done].
      clear -Hfind. induction (abs (w_cache W)) as [|q l IH]; [done|]. cbn in Hfind.
      case_bool_decide as Hq; [injection Hfind as <-; rewrite <- Hq; destruct q; left|right; by apply IH].
    + intros n' key' o'. destruct (decide (n = n')) as [<-|]; [by rewrite lookup_insert_eq|].
      rewrite lookup_insert_ne by done. apply Ha.
  - unfold flight in Hl. apply bind_Ok_inv in Hl as (u & [e1 c1] & Hm & Hr).
    injection Hr as <- <- <-. destruct (maybeCache_ok _ _ _ _ _ _ Hm Hc) as (Hc' & _ & Hsub).
    cbn [snd] in *. rewrite cloned_eq. constructor; cbn; [done| | |].
    + intros p [Hin|(Hne & Hk & Hv)]%Hsub; [by apply Hp|]. split; [done|]. rewrite Hk, <- Hv.
      by destruct (inner [ck_text key]).
    + intros s o [[= -> ->]|Hin]%elem_of_cons; [by eexists|by apply Hf].
    + by apply answered_insert.
  - constructor; cbn; [done..|]. rewrite cloned_eq. apply answered_insert; [done|].
    destruct (Hf _ _ Hin) as (k & Hk%singleflightKey_inj & Hpo). by rewrite Hk.
Qed.

Lemma fresh_ok maxEntries : world_ok (fresh_world maxEntries).
Proof.
  destruct (New_ok maxEntries) as (Hok & Habs & _).
  constructor; cbn [fresh_world w_cache w_calls w_flights]; [done| | |].
  - rewrite Habs. intros p Hp%elem_of_nil. done.
  - intros s o H%elem_of_nil. done.
  - intros n key o H. by rewrite lookup_empty in H.
Qed.

(** C34: the cache is transparent.  However calls overlap, share executions,
    fail, are cancelled or evict one another, every answer a call returns is one
    the provider may give for that call's own identity and text; and the cache
    itself only ever holds non-empty single vectors that were such answers,
    never an error and never an answer to another text. *)
Theorem embed_transparent maxEntries W :
  rtc step (fresh_world maxEntries) W →
  (∀ n key o, w_calls W !! n = Some (Answered key o) → provides (ck_identity key) (ck_text key) o)
  ∧ (∀ key v, (key, v) ∈ abs (w_cache W) →
       v ≠ [] ∧ provides (ck_identity key) (ck_text key) (EmbedOutcome (Some [Some v]) None)).
Proof.
  intros Hrun.
  assert (world_ok W) as [_ Hp _ Ha].
  { pose proof (fresh_ok maxEntries) as H. revert H. induction Hrun; [done|]. eauto using step_ok. }
  split; [exact Ha|]. intros key v Hin. exact (Hp _ Hin).
Qed.
End overlap.

(** ** The sequential program *)

Section alone.
(** A call that overlaps no other: the group just runs the function. *)
Context (Do : string → go Cache embedOutcome → go Cache embedOutcome).
Context (Do_alone : ∀ key fn w, Do key fn w = fn w).

Lemma flight_Ok inner key texts w r w' : flight inner key texts w = (r, w') → cache_ok w.2 →
  r = Ok (inner texts) ∧ maybeCache key (eo_vectors (inner texts)) (eo_err (inner texts)) w = (Ok (), w').
Proof.
  unfold flight, bind. destruct (maybeCache _ _ _ w) as [r1 w1] eqn:Hm. intros H Hok.
  destruct (maybeCache_ok _ _ _ _ _ _ Hm Hok) as (_ & -> & _). by injection H as <- <-.
Qed.

(** A call for one text, step by step. *)
Lemma Embed_inv identity inner text w r w' :
  let key := CacheKey (EmbedderIdentity_String identity) text in
  cache_ok w.2 → Embed Do identity inner [text] w = (r, w') →
  ∃ w1, lookup_text key w = (Ok (lru_find key (abs w.2)), w1) ∧ cache_ok w1.2 ∧
    match lru_find key (abs w.2) with
    | Some v => r = Ok (from_hit v) ∧ w' = w1
    | None => r = Ok (inner [text]) ∧ flight inner key [text] w1 = (Ok (inner [text]), w')
    end.
Proof.
  intros key Hok Hrun. unfold Embed in Hrun. fold key in Hrun.
  destruct (lookup_text key w) as [r0 w1] eqn:Hl.
  destruct (lookup_text_ok _ _ _ _ Hl Hok) as (Hok1 & _ & ->). exists w1. split; [done|]. split; [done|].
  unfold bind in Hrun. rewrite Hl in Hrun. destruct (lru_find key (abs w.2)) as [v|].
  { by injection Hrun as <- <-. }
  unfold embedAndCache, bind, attempt in Hrun. rewrite Do_alone in Hrun.
  destruct (flight inner key [text] w1) as [r2 w2] eqn:Hf.
  destruct (flight_Ok _ _ _ _ _ _ Hf Hok1) as [-> _]. injection Hrun as <- <-.
  split; [|done]. f_equal. apply cloned_eq.
Qed.

(** [Embed] on one text is a run of the step relation. *)
Lemma Embed_steps provides W n identity inner text e r e' cache :
  let key := CacheKey (EmbedderIdentity_String identity) text in
  cache_ok (w_cache W) → w_calls W !! n = None → provides (ck_identity key) text (inner [text]) →
  Embed Do identity inner [text] (e, w_cache W) = (r, (e', cache)) →
  ∃ W' o, r = Ok o ∧ rtc (step provides) W W' ∧ w_cache W' = cache ∧ w_calls W' !! n = Some (Answered key o).
Proof.
  intros key Hok Hn Hp Hrun. apply Embed_inv in Hrun as ([e1 c1] & Hl & _ & Hrun); [|done].
  fold key in Hl, Hrun. cbn [snd] in *. destruct (lru_find key (abs (w_cache W))) as [v|].
  - destruct Hrun as [-> [= -> ->]]. eexists _, _.
    split_and!; [done|apply rtc_once; by eapply step_lookup|done|]. cbn. by rewrite lookup_insert_eq.
  - destruct Hrun as [-> Hf]. eexists _, _.
    split_and!; [done|eapply rtc_l; [by eapply step_lookup|]; apply rtc_once; eapply (step_lead _ _ n key)|..].
    + apply lookup_insert_eq.
    + exact Hp.
    + exact Hf.
    + done.
    + cbn. by rewrite lookup_insert_eq, cloned_eq.
Qed.

(** An answer that may be kept, and a context that is live when that is decided. *)
Definition reusable (o : embedOutcome) : bool :=
  match eo_err o, eo_vectors o with
  | None, Some [v] => negb (bool_decide (vec_len v = 0%nat))
  | _, _ => false
  end.
Definition live_at_first (e : env) : bool := match env_ctx e with Some _ :: _ => false | _ => true end.

Lemma lru_find_front k v l : lru_find k ((k, v) :: l) = Some v.
Proof. cbn. by rewrite bool_decide_true. Qed.

Lemma maybeCache_find key o e c r w' : cache_ok c → lru_find key (abs c) = None →
  maybeCache key (eo_vectors o) (eo_err o) (e, c) = (r, w') →
  if live_at_first e && reusable o then from_hit <$> lru_find key (abs w'.2) = Some o
  else lru_find key (abs w'.2) = None.
Proof.
  intros Hok Hnone Hrun. unfold maybeCache in Hrun. destruct o as [vs err]. cbn [eo_vectors eo_err] in *.
  unfold reusable. cbn [eo_vectors eo_err]. destruct err; [injection Hrun as <- <-; by rewrite andb_false_r|].
  unfold bind at 1, attempt, ctx_check in Hrun. cbn [fst snd] in Hrun. unfold live_at_first.
  assert (∀ v e, put_ key v (e, c) = (r, w') → vec_len v ≠ 0%nat →
            from_hit <$> lru_find key (abs w'.2) = Some (EmbedOutcome (Some [v]) None)) as Hput.
  { intros v e0 H Hv. destruct (step_simulates c e0 (CPut key v) Hok) as (c' & Hs & Ha & Hok' & Hm).
    cbn [cache_step] in Hs. unfold bind in Hs. rewrite H in Hs.
    destruct r as [[]| |]; cbn in Hs; try done. injection Hs as ->. cbn [snd]. rewrite Ha. cbn [lru_step snd].
    destruct (ok_bound _ Hok) as [Hb _]. destruct (Z.to_nat (c_maxEntries c)) as [|n] eqn:Hn; [lia|].
    cbn [take]. rewrite lru_find_front. by destruct v. }
  destruct (env_ctx e) as [|[ce|] ctx]; cbn [andb] in *.
  2: { by injection Hrun as <- <-. }
  all: destruct vs as [[|v [|]]|]; try (by injection Hrun as <- <-);
    case_bool_decide as Hv; cbn [negb]; [by injection Hrun as <- <-|by eapply Hput].
Qed.

(** An answer is kept exactly when it is safe to reuse.  After a call that
    missed, a second call for the same text is answered from the cache, whatever
    the provider would say by then, if the first answer was one non-empty vector
    without an error and the first caller's context was still live; otherwise
    the provider is asked again. *)
Theorem embed_keeps_reusable identity inner inner' text e c r e1 c1 e2 :
  let key := CacheKey (EmbedderIdentity_String identity) text in
  cache_ok c → lru_find key (abs c) = None →
  Embed Do identity inner [text] (e, c) = (r, (e1, c1)) →
  r = Ok (inner [text]) ∧
  (Embed Do identity inner' [text] (e2, c1)).1
  = Ok (if live_at_first e && reusable (inner [text]) then inner [text] else inner' [text]).
Proof.
  intros key Hok Hnone Hrun.
  apply Embed_inv in Hrun as ([e0 c0] & Hl & Hok0 & Hrun); [|done].
  fold key in Hl, Hrun. cbn [snd] in *. rewrite Hnone in *. destruct Hrun as [-> Hf]. split; [done|].
  assert (e0 = e ∧ abs c0 = abs c) as [-> Ha].
  { clear Hf. unfold lookup_text, get_ in Hl. unfold bind in Hl. cbn in Hl.
    destruct (c_items c !! key) as [el|]; [destruct (c_elems c !! el)|]; cbn in Hl; try done.
    by injection Hl as <- <-. }
  destruct (flight_Ok _ _ _ _ _ _ Hf Hok0) as [_ Hm].
  pose proof (maybeCache_find _ _ _ _ _ _ Hok0 ltac:(by rewrite Ha) Hm) as Hfind.
  destruct (maybeCache_ok _ _ _ _ _ _ Hm Hok0) as (Hok1 & _ & _). cbn [snd] in *.
  destruct (Embed Do identity inner' [text] (e2, c1)) as [r2 w2] eqn:H2.
  apply Embed_inv in H2 as (w3 & _ & _ & H2); [|done]. fold key in H2. cbn [snd fst] in *.
  destruct (live_at_first e && reusable (inner [text])).
  - destruct (lru_find key (abs c1)); [|done]. destruct H2 as [-> _]. by injection Hfind as <-.
  - rewrite Hfind in H2. by destruct H2 as [-> _].
Qed.
End alone.

(** ** Runs *)

(** The group of a single caller. *)
Definition run_now (key : string) (fn : go Cache embedOutcome) : go Cache embedOutcome := fn.

Definition said (v : Z) (texts : list string) : embedOutcome := from_hit [v].

Lemma embed_keeps_reusable_witness :
  (Embed run_now (EmbIdentity "p" "m" 3) (said 8) ["q"]
     (Env [] [], (Embed run_now (EmbIdentity "p" "m" 3) (said 7) ["q"] (Env [] [], New 4)).2.2)).1
  = Ok (from_hit [7]).
Proof.
  eapply (embed_keeps_reusable run_now (λ _ _ _, eq_refl) (EmbIdentity "p" "m" 3) (said 7) (said 8) "q"
            (Env [] []) (New 4) _ _ _ (Env [] [])).
  - apply New_ok.
  - reflexivity.
  - vm_compute. reflexivity.
Defined.

(** The provider of the run below: it repeats the length of its text. *)
Definition echo (identity text : string) (o : embedOutcome) : Prop := o = from_hit [slen text].

Definition abc : cacheKey := CacheKey "p/m" "abc".
Definition asked : world :=
  World (lookup_text abc (Env [] [], New 4)).2.2 (<[0%nat := Waiting abc]> ∅) [].
Definition one_call : world :=
  World (flight (λ _, from_hit [3]) abc ["abc"] (Env [] [], w_cache asked)).2.2
    (<[0%nat := Answered abc (from_hit [3])]> (w_calls asked)) [(singleflightKey abc, from_hit [3])].

Lemma embed_transparent_witness :
  rtc (step echo) (fresh_world 4) one_call ∧ echo "p/m" "abc" (from_hit [3]).
Proof.
  assert (rtc (step echo) (fresh_world 4) one_call) as Hrun.
  { apply (rtc_l _ _ asked).
    - apply (step_lookup echo (fresh_world 4) 0 abc (Env [] []) None (Env [] [])); reflexivity.
    - apply rtc_once.
      apply (step_lead echo asked 0 abc (λ _, from_hit [3]) (Env [] []) (from_hit [3]) (Env [] [])); reflexivity. }
  split; [exact Hrun|].
  destruct (embed_transparent echo 4 one_call Hrun) as [Ha _].
  apply (Ha 0%nat abc (from_hit [3])). reflexivity.
Defined.

(** The identity string leaves the dimension out, so a provider that changes its
    dimension is answered with vectors of the old one. *)
Example dimension_is_not_in_the_key :
  (Embed run_now (EmbIdentity "p" "m" 2) (λ _, from_hit [1; 2]) ["q"]
     (Env [] [], (Embed run_now (EmbIdentity "p" "m" 1) (λ _, from_hit [9]) ["q"] (Env [] [], New 4)).2.2)).1
  = Ok (from_hit [9]).
Proof. vm_compute. reflexivity. Qed.

(** ** Configuration *)

(** What an environment asks for. *)
Definition enabled (lookup_ : string → option string) : Prop :=
  ∃ value, lookup_ EnvEnabled = Some value ∧ strconv_ParseBool (strings_TrimSpace value) = Some true.

Lemma envBool_enabled lookup_ : envBool lookup_ EnvEnabled false = true ↔ enabled lookup_.
Proof.
  unfold envBool, enabled. destruct (lookup_ EnvEnabled) as [v|]; [|naive_solver].
  unfold isEmpty. case_bool_decide as He.
  - split; [done|]. intros (? & [= <-] & H). by rewrite He in H.
  - destruct (strconv_ParseBool (strings_TrimSpace v)) as [[]|] eqn:Hp; cbn; naive_solver.
Qed.

(** The cache is off unless it is asked for.  When the switch does not parse
    as true, no other variable can make the configuration fail and nothing is
    wrapped; when it does, the configuration fails or asks for a size between 1
    and 65536, and an embedder is wrapped in a new cache of that size. *)
Theorem config_decides lookup_ :
  (¬ enabled lookup_ → ConfigFromEnv lookup_ = Ok (MkConfig false 512)
     ∧ ∀ present, Wrap present (MkConfig false 512) = None)
  ∧ (enabled lookup_ →
     match ConfigFromEnv lookup_ with
     | Ok cfg => 1 <= cf_MaxEntries cfg <= 65536
                 ∧ Wrap true cfg = Some (New (cf_MaxEntries cfg)) ∧ Wrap false cfg = None
     | Err _ => ∃ value, lookup_ EnvMaxEntries = Some value
                 ∧ ∀ n, strconv_Atoi (strings_TrimSpace value) = Some n → n < 1 ∨ 65536 < n
     | Panic => False
     end).
Proof.
  split.
  - intros Hoff. split; [|by intros []]. unfold ConfigFromEnv.
    destruct (envBool lookup_ EnvEnabled false) eqn:E; [|done]. by apply envBool_enabled in E.
  - intros Hen%envBool_enabled. unfold ConfigFromEnv, envInt, DefaultMaxEntries. rewrite Hen. cbn [negb].
    destruct (lookup_ EnvMaxEntries) as [v|]; cbn;
      [|rewrite !bool_decide_false by lia; split; cbn; [lia|done]].
    destruct (isEmpty (strings_TrimSpace v)); cbn; [rewrite !bool_decide_false by lia; split; cbn; [lia|done]|].
    destruct (strconv_Atoi (strings_TrimSpace v)) as [n|] eqn:Ha; cbn.
    + do 2 case_bool_decide; cbn;
        try (exists v; split; [done|]; intros m Hm; replace m with n by congruence; lia). split; [lia|done].
    + exists v. split; [done|]. intros m Hm. congruence.
Qed.

Lemma config_decides_witness :
  ConfigFromEnv (λ _, None) = Ok (MkConfig false 512)
  ∧ 1 <= 40 <= 65536.
Proof.
  split.
  - apply (config_decides (λ _, None)). intros (v & H & _). discriminate H.
  - destruct (config_decides (λ k, if bool_decide (k = EnvEnabled) then Some "1" else Some " 40 "))
      as [_ H].
    assert (enabled (λ k, if bool_decide (k = EnvEnabled) then Some "1" else Some " 40 ")) as He.
    { exists "1". split; vm_compute; reflexivity. }
    specialize (H He). vm_compute in H. vm_compute. apply H.
Defined.
