(* ===== verification/Episodes.v ===== *)
(** * Agent episodes

    The records of internal/contracts/v1/types.go and the in-memory episode store
    of internal/storage/memory/episodes.go and episodes_get.go: idempotent
    creation, redaction, retention and the incremental listing.  The mutex makes
    each operation one step.  Where a range over the records map could show its
    order, the order is an argument. *)

From Stdlib Require Import ZArith Lia Ascii.
From stdpp Require Import sorting pretty numbers gmap strings list_numbers list.
From S2P Require Import Prelude GoStrings GoText Sha256 Grants.

Open Scope Z_scope.

(** ** Times with a zone, and JSON *)

(** A [time.Time] that is marshalled: its instant and the offset of its zone from
    UTC in seconds. *)
Record zoned := Zoned { z_at : time; z_offset : Z }.

(** The [.999999999] verb. *)
Definition format_nanos (ns : Z) : string :=
  match trim_zeros (chars (appendInt ns 9)) with
  | [] => ""
  | l => "." +:+ of_chars l
  end.

(** The [Z07:00] verb. *)
Definition format_offset (offset : Z) : string :=
  if bool_decide (offset = 0) then "Z"
  else
    let zone := Z.abs (Z.quot offset 60) in
    (if Z.quot offset 60 <? 0 then "-" else "+") +:+ appendInt (zone / 60) 2 +:+ ":" +:+ appendInt (zone mod 60) 2.

(** [Time.MarshalJSON]: a year outside 0..9999 and an offset of a day or more are
    refused. *)
Definition json_time (z : zoned) : option string :=
  let local := z_at z + z_offset z * Second in
  let '(y, m, d) := civil_of_days (local / ns_per_day) in
  let in_day := local mod ns_per_day in
  let secs := in_day / Second in
  if (y <? 0) || (9999 <? y) || bool_decide (1440 <= Z.abs (Z.quot (z_offset z) 60)) then None
  else Some (json_string (appendInt y 4 +:+ "-" +:+ appendInt m 2 +:+ "-" +:+ appendInt d 2 +:+ "T"
    +:+ appendInt (secs / 3600) 2 +:+ ":" +:+ appendInt (secs / 60 mod 60) 2 +:+ ":"
    +:+ appendInt (secs mod 60) 2 +:+ format_nanos (in_day mod Second) +:+ format_offset (z_offset z))).

(** 2025-01-01T00:00:00.5Z, and the same instant half past five hours further
    east. *)
Example json_time_utc :
  json_time (Zoned (739251 * 24 * Hour + 500 * Millisecond) 0) = Some (json_string "2025-01-01T00:00:00.5Z").
Proof. vm_compute. reflexivity. Qed.

Example json_time_zone :
  json_time (Zoned (739251 * 24 * Hour) 19800) = Some (json_string "2025-01-01T05:30:00+05:30").
Proof. vm_compute. reflexivity. Qed.

Example json_time_year : json_time (Zoned (- 400 * 366 * 24 * Hour) 0) = None.
Proof. vm_compute. reflexivity. Qed.

(** [[]string], where nil is [None]. *)
Definition gstrings : Type := option (list string).
Definition json_gstrings (l : gstrings) : string :=
  match l with None => "null" | Some l => json_array l end.

(** ** Data *)

Record RepositoryRef := RepoRef { rr_Slug : string; rr_RepoID : string; rr_RemoteURL : string }.
Record EpisodeScope := EpScope { esc_Branch : string; esc_CommitSHA : string }.
Record EpisodeClient := EpClient {
  ecl_Name : string; ecl_Version : string; ecl_SidecarVersion : string;
  ecl_AgentName : string; ecl_Model : string;
}.
Record EpisodeArtifacts := EpArtifacts {
  ea_FilesTouched : gstrings; ea_ArtifactURIs : gstrings; ea_TestsRun : gstrings;
}.
Record TranscriptRef := Transcript_ {
  tr_Mode : string; tr_OpaqueRef : string; tr_RedactedSummary : string;
}.

Record AgentEpisodeCreate := EpisodeCreate {
  ec_SchemaVersion : string;
  ec_ClientEpisodeID : string;
  ec_IdempotencyKey : string;
  ec_ContextPacketID : string;
  ec_Goal : string;
  ec_TaskRef : string;
  ec_Repository : RepositoryRef;
  ec_Scope : EpisodeScope;
  ec_Client : EpisodeClient;
  ec_StartedAt : zoned;
  ec_EndedAt : zoned;
  ec_Outcome : string;
  ec_Summary : string;
  ec_Artifacts : EpisodeArtifacts;
  ec_Transcript : TranscriptRef;
  ec_RetentionClass : string;
}.

(** The embedded create part carries the schema version. *)
Record AgentEpisode := Episode {
  ep_Create : AgentEpisodeCreate;
  ep_EpisodeID : string;
  ep_CreatedAt : time;
  ep_RedactionState : string;
  ep_Duplicate : bool;
}.

Definition AgentEpisodeSchema : string := "agent_episode.v1".
Definition AgentEpisodeRedactionActive : string := "active".
Definition AgentEpisodeRedactionRedacted : string := "redacted".
Definition AgentEpisodeRedactionPurgedTombstone : string := "purged_tombstone".

Definition zero_zoned : zoned := Zoned 0 0.
Definition zero_create : AgentEpisodeCreate :=
  EpisodeCreate "" "" "" "" "" "" (RepoRef "" "" "") (EpScope "" "") (EpClient "" "" "" "" "")
    zero_zoned zero_zoned "" "" (EpArtifacts None None None) (Transcript_ "" "" "") "".
Definition zero_episode : AgentEpisode := Episode zero_create "" 0 "" false.

Definition ec_set_schema (v : string) (c : AgentEpisodeCreate) : AgentEpisodeCreate :=
  EpisodeCreate v (ec_ClientEpisodeID c) (ec_IdempotencyKey c) (ec_ContextPacketID c) (ec_Goal c)
    (ec_TaskRef c) (ec_Repository c) (ec_Scope c) (ec_Client c) (ec_StartedAt c) (ec_EndedAt c)
    (ec_Outcome c) (ec_Summary c) (ec_Artifacts c) (ec_Transcript c) (ec_RetentionClass c).
Definition ec_set_artifacts (a : EpisodeArtifacts) (c : AgentEpisodeCreate) : AgentEpisodeCreate :=
  EpisodeCreate (ec_SchemaVersion c) (ec_ClientEpisodeID c) (ec_IdempotencyKey c) (ec_ContextPacketID c)
    (ec_Goal c) (ec_TaskRef c) (ec_Repository c) (ec_Scope c) (ec_Client c) (ec_StartedAt c) (ec_EndedAt c)
    (ec_Outcome c) (ec_Summary c) a (ec_Transcript c) (ec_RetentionClass c).
Definition ec_set_content (goal summary taskRef : string) (a : EpisodeArtifacts) (t : TranscriptRef)
    (c : AgentEpisodeCreate) : AgentEpisodeCreate :=
  EpisodeCreate (ec_SchemaVersion c) (ec_ClientEpisodeID c) (ec_IdempotencyKey c) (ec_ContextPacketID c)
    goal taskRef (ec_Repository c) (ec_Scope c) (ec_Client c) (ec_StartedAt c) (ec_EndedAt c)
    (ec_Outcome c) summary a t (ec_RetentionClass c).
Definition ep_set (c : AgentEpisodeCreate) (state : string) (e : AgentEpisode) : AgentEpisode :=
  Episode c (ep_EpisodeID e) (ep_CreatedAt e) state (ep_Duplicate e).

Inductive EpisodePreflight := EpisodePreflightMiss | EpisodePreflightIdentical | EpisodePreflightConflict.

Record EpisodeProjectionRecord := Projection {
  pj_EpisodeID : string;
  pj_RepoSlug : string;
  pj_TaskRef : string;
  pj_Goal : string;
  pj_Outcome : string;
  pj_Summary : string;
  pj_RedactionState : string;
  pj_StartedAt : zoned;
  pj_EndedAt : zoned;
  pj_CreatedAt : time;
  pj_UpdatedAt : time;
}.

(** [json.Marshal(create)]: the text, or [None] for its error. *)
Definition json_create (c : AgentEpisodeCreate) : option string :=
  started ← json_time (ec_StartedAt c);
  ended ← json_time (ec_EndedAt c);
  Some (json_object [
    ("schema_version", Some (json_string (ec_SchemaVersion c)));
    ("client_episode_id", Some (json_string (ec_ClientEpisodeID c)));
    ("idempotency_key", Some (json_string (ec_IdempotencyKey c)));
    ("context_packet_id", Some (json_string (ec_ContextPacketID c)));
    ("goal", Some (json_string (ec_Goal c)));
    ("task_ref", omitempty_string (ec_TaskRef c));
    ("repository", Some (json_object [
       ("slug", Some (json_string (rr_Slug (ec_Repository c))));
       ("repo_id", omitempty_string (rr_RepoID (ec_Repository c)));
       ("remote_url", omitempty_string (rr_RemoteURL (ec_Repository c)))]));
    ("scope", Some (json_object [
       ("branch", omitempty_string (esc_Branch (ec_Scope c)));
       ("commit_sha", omitempty_string (esc_CommitSHA (ec_Scope c)))]));
    ("client", Some (json_object [
       ("name", Some (json_string (ecl_Name (ec_Client c))));
       ("version", Some (json_string (ecl_Version (ec_Client c))));
       ("sidecar_version", Some (json_string (ecl_SidecarVersion (ec_Client c))));
       ("agent_name", omitempty_string (ecl_AgentName (ec_Client c)));
       ("model", omitempty_string (ecl_Model (ec_Client c)))]));
    ("started_at", Some started);
    ("ended_at", Some ended);
    ("outcome", Some (json_string (ec_Outcome c)));
    ("summary", Some (json_string (ec_Summary c)));
    ("artifacts", Some (json_object [
       ("files_touched", Some (json_gstrings (ea_FilesTouched (ec_Artifacts c))));
       ("artifact_uris", Some (json_gstrings (ea_ArtifactURIs (ec_Artifacts c))));
       ("tests_run", Some (json_gstrings (ea_TestsRun (ec_Artifacts c))))]));
    ("transcript", Some (json_object [
       ("mode", Some (json_string (tr_Mode (ec_Transcript c))));
       ("opaque_ref", omitempty_string (tr_OpaqueRef (ec_Transcript c)));
       ("redacted_summary", omitempty_string (tr_RedactedSummary (ec_Transcript c)))]));
    ("retention_class", Some (json_string (ec_RetentionClass c)))]).

(** ** Helpers of the store *)

Definition redactedEpisodeText : string := "[redacted]".

(** [append([]string{}, value...)]: never nil. *)
Definition copy_gstrings (l : gstrings) : gstrings := Some (default [] l).

Definition cloneEpisodeCreate (value : AgentEpisodeCreate) : AgentEpisodeCreate :=
  let a := ec_Artifacts value in
  ec_set_artifacts (EpArtifacts (copy_gstrings (ea_FilesTouched a)) (copy_gstrings (ea_ArtifactURIs a))
                      (copy_gstrings (ea_TestsRun a))) value.

Definition redactedCreate (value : AgentEpisodeCreate) : AgentEpisodeCreate :=
  ec_set_content redactedEpisodeText redactedEpisodeText "" (EpArtifacts (Some []) (Some []) (Some []))
    (Transcript_ "none" "" "") value.

Definition presentation (value : AgentEpisode) : AgentEpisode :=
  if bool_decide (ep_RedactionState value = AgentEpisodeRedactionPurgedTombstone) then zero_episode
  else ep_set (ec_set_schema AgentEpisodeSchema (cloneEpisodeCreate (ep_Create value)))
         (ep_RedactionState value) value.

Definition defaultRetention (class : string) : duration :=
  if bool_decide (class = "default_90d") then 90 * 24 * Hour
  else if bool_decide (class = "short_30d") then 30 * 24 * Hour
  else 0.

Definition episodeExpiry (value : AgentEpisode) : option time :=
  if bool_decide (ep_RedactionState value = AgentEpisodeRedactionPurgedTombstone) then None
  else
    let retention := defaultRetention (ec_RetentionClass (ep_Create value)) in
    if bool_decide (retention = 0) then None else Some (time_Add (ep_CreatedAt value) retention).

Definition episodeExpired (value : AgentEpisode) (now : time) : bool :=
  match episodeExpiry value with None => false | Some expiresAt => negb (time_After expiresAt now) end.

(** [rand.Read] fills sixteen bytes or fails. *)
Definition newEpisodeID (random : option (list Z)) : res string :=
  match random with
  | None => Err (ErrText "rand")
  | Some value => Ok ("ep_" +:+ hex_EncodeToString value)
  end.

Definition nul : string := of_chars [chr 0].
Definition scopedKey (orgID value : string) : string := orgID +:+ nul +:+ value.

Section tables.
Context `{UnicodeTables} `{FoldTables}.

Definition normalizeRepository (slug : string) : string := strings_ToLower (strings_TrimSpace slug).

Definition sameEpisodeRepository (left right : string) : bool :=
  strings_EqualFold (strings_TrimSpace left) (strings_TrimSpace right).

Definition episodeKeys (orgID : string) (create : AgentEpisodeCreate) : string * string :=
  let repository := normalizeRepository (rr_Slug (ec_Repository create)) in
  (scopedKey orgID (repository +:+ nul +:+ ec_ClientEpisodeID create),
   scopedKey orgID (repository +:+ nul +:+ ec_IdempotencyKey create)).

(** A split has at least one piece. *)
Definition first_segment (slug : string) : string :=
  match strings_Split slug "/" with s :: _ => s | [] => "" end.

Definition episodeRepositoryAllowed (scopes : list string) (slug : string) : bool :=
  existsb (λ scope0,
    let scope := strings_ToLower (strings_TrimSpace scope0) in
    bool_decide (scope = "*") || bool_decide (scope = strings_ToLower slug)
    || (strings_HasSuffix scope "/*"
        && bool_decide (strings_TrimSuffix scope "/*" = first_segment (strings_ToLower slug)))) scopes.

Definition principalEpisodeRepositoryAllowed (principal : Principal) (slug : string) : bool :=
  negb (HoldsProjectGrant principal) && episodeRepositoryAllowed (pr_RepositoryScopes principal) slug.
End tables.

(** ** The store *)

Definition digest32 : Type := list Z.

Definition episodeDigest (create : AgentEpisodeCreate) : res digest32 :=
  match json_create create with
  | None => Err (ErrText "json: unsupported time")
  | Some encoded => Ok (sha256_Sum256 (bytes_of encoded))
  end.

Record episodeRecord := EpisodeRecord {
  er_episode : AgentEpisode;
  er_digest : digest32;
  er_orgID : string;
  er_repoSlug : string;
  er_clientID : string;
  er_updatedAt : time;
}.

(** What a missing map entry reads as. *)
Definition zero_record : episodeRecord :=
  EpisodeRecord zero_episode (replicate 32 0) "" "" "" 0.

Definition er_set (e : AgentEpisode) (updated : time) (r : episodeRecord) : episodeRecord :=
  EpisodeRecord e (er_digest r) (er_orgID r) (er_repoSlug r) (er_clientID r) updated.

Definition is_tombstone (r : episodeRecord) : bool :=
  bool_decide (ep_RedactionState (er_episode r) = AgentEpisodeRedactionPurgedTombstone).

Definition record_slug (r : episodeRecord) : string := rr_Slug (ec_Repository (ep_Create (er_episode r))).

Module Episodes.
Section store.
Context `{UnicodeTables} `{FoldTables}.

Record EpisodeStore := Store {
  es_byID : gmap string episodeRecord;
  es_byClient : gmap string string;
  es_byKey : gmap string string;
}.

Definition NewEpisodeStore : EpisodeStore := Store ∅ ∅ ∅.

Definition set_record (id : string) (r : episodeRecord) (s : EpisodeStore) : EpisodeStore :=
  Store (<[id := r]> (es_byID s)) (es_byClient s) (es_byKey s).

Definition same_episode (r : episodeRecord) (digest : digest32) (repository : string) : bool :=
  bool_decide (er_digest r = digest) && sameEpisodeRepository (er_repoSlug r) repository.

Definition preflightRecord (r : episodeRecord) (digest : digest32) (repository : string) : EpisodePreflight :=
  if same_episode r digest repository then EpisodePreflightIdentical else EpisodePreflightConflict.

(** The key is looked up first, the client id only when the key is unknown. *)
Definition find_existing (keys : string * string) (s : EpisodeStore) : option string :=
  match es_byKey s !! keys.2 with
  | Some id => Some id
  | None => es_byClient s !! keys.1
  end.

Definition record_at (id : string) (s : EpisodeStore) : episodeRecord := default zero_record (es_byID s !! id).

Definition PreflightIdempotency (principal : Principal) (create : AgentEpisodeCreate)
    : go EpisodeStore EpisodePreflight :=
  ctx_check ;;
  refuse! negb (principalEpisodeRepositoryAllowed principal (rr_Slug (ec_Repository create)))
    with ErrNotFound ;;
  let! digest := lift_res (episodeDigest create) in
  let! s := get in
  match find_existing (episodeKeys (pr_OrgID principal) create) s with
  | Some id => ret (preflightRecord (record_at id s) digest (rr_Slug (ec_Repository create)))
  | None => ret EpisodePreflightMiss
  end.

Definition duplicate (id : string) (digest : digest32) (repository : string)
    : go EpisodeStore (AgentEpisode * bool) :=
  let! s := get in
  let record := record_at id s in
  refuse! negb (same_episode record digest repository) with ErrConflict ;;
  ret (presentation (er_episode record), true).

(** The episode [CreateIdempotent] stores. *)
Definition new_episode (create : AgentEpisodeCreate) (id : string) (now : time) (expiresAt : option time)
    : AgentEpisode :=
  if bool_decide (ec_RetentionClass create = "no_persist")
  then Episode zero_create id 0 AgentEpisodeRedactionPurgedTombstone false
  else
    let created := match expiresAt with
      | Some t => time_Add t (- defaultRetention (ec_RetentionClass create))
      | None => now
      end in
    Episode (cloneEpisodeCreate create) id created AgentEpisodeRedactionActive false.

Definition insert_episode (keys : string * string) (id : string) (r : episodeRecord) (s : EpisodeStore)
    : EpisodeStore :=
  Store (<[id := r]> (es_byID s)) (<[keys.1 := id]> (es_byClient s)) (<[keys.2 := id]> (es_byKey s)).

Definition CreateIdempotent (random : option (list Z)) (principal : Principal) (create : AgentEpisodeCreate)
    (expiresAt : option time) : go EpisodeStore (AgentEpisode * bool) :=
  ctx_check ;;
  refuse! negb (principalEpisodeRepositoryAllowed principal (rr_Slug (ec_Repository create)))
    with ErrNotFound ;;
  ctx_check ;;
  let! digest := lift_res (episodeDigest create) in
  let keys := episodeKeys (pr_OrgID principal) create in
  let! s := get in
  match find_existing keys s with
  | Some id => duplicate id digest (rr_Slug (ec_Repository create))
  | None =>
    let! id := lift_res (newEpisodeID random) in
    ctx_check ;;
    let! now := now in
    let stored := new_episode create id now expiresAt in
    put (insert_episode keys id
           (EpisodeRecord stored digest (pr_OrgID principal) (rr_Slug (ec_Repository create))
              (ec_ClientEpisodeID create) (ep_CreatedAt stored)) s) ;;
    ret (presentation stored, false)
  end.

(** The clock is read for the expiry only of a record of the organization that is
    not a tombstone, and again for the new watermark. *)
Definition Redact (principal : Principal) (episodeID : string) : go EpisodeStore AgentEpisode :=
  let! s := get in
  match es_byID s !! episodeID with
  | None => fail ErrNotFound
  | Some record =>
    refuse! negb (bool_decide (er_orgID record = pr_OrgID principal)) || is_tombstone record
      with ErrNotFound ;;
    let! at_ := now in
    refuse! episodeExpired (er_episode record) at_ || isEmpty (record_slug record)
            || negb (principalEpisodeRepositoryAllowed principal (record_slug record))
      with ErrNotFound ;;
    if bool_decide (ep_RedactionState (er_episode record) = AgentEpisodeRedactionActive)
    then
      let! updated := now in
      let redacted := ep_set (redactedCreate (ep_Create (er_episode record)))
                        AgentEpisodeRedactionRedacted (er_episode record) in
      put (set_record episodeID (er_set redacted updated record) s) ;;
      ret (presentation redacted)
    else ret (presentation (er_episode record))
  end.

(** *** Listing *)

(** Whether a record is past the cursor, and the order of the listing. *)
Definition past (since : time) (afterEpisodeID : string) (r : episodeRecord) : bool :=
  negb (time_Before (er_updatedAt r) since
        || (bool_decide (er_updatedAt r = since)
            && bool_decide (String.le (ep_EpisodeID (er_episode r)) afterEpisodeID))).

Definition listed_before (a b : episodeRecord) : Prop :=
  er_updatedAt a < er_updatedAt b
  ∨ er_updatedAt a = er_updatedAt b ∧ String.le (ep_EpisodeID (er_episode a)) (ep_EpisodeID (er_episode b)).
#[global] Instance listed_before_dec : RelDecision listed_before.
Proof. intros a b. unfold listed_before. apply _. Defined.

Definition projection (r : episodeRecord) : EpisodeProjectionRecord :=
  let e := er_episode r in
  let c := ep_Create e in
  let active := bool_decide (ep_RedactionState e = AgentEpisodeRedactionActive) in
  Projection (ep_EpisodeID e) (er_repoSlug r) (if active then ec_TaskRef c else "")
    (if active then ec_Goal c else "") (ec_Outcome c) (if active then ec_Summary c else "")
    (ep_RedactionState e) (ec_StartedAt c) (ec_EndedAt c) (ep_CreatedAt e) (er_updatedAt r).

Definition matches (orgID : string) (since : time) (afterEpisodeID : string) (s : EpisodeStore)
    : list episodeRecord :=
  filter (λ r, (bool_decide (er_orgID r = orgID) && past since afterEpisodeID r) = true)
    ((map_to_list (es_byID s)).*2).

Definition ListSince (orgID0 : string) (since : time) (afterEpisodeID : string) (limit : Z)
    : go EpisodeStore (list EpisodeProjectionRecord) :=
  let orgID := strings_TrimSpace orgID0 in
  refuse! isEmpty orgID with ErrText "organization is required" ;;
  let! s := get in
  let sorted := merge_sort listed_before (matches orgID since afterEpisodeID s) in
  let page := if bool_decide (0 <= limit) && bool_decide (limit < Z.of_nat (length sorted))
              then take (Z.to_nat limit) sorted else sorted in
  ret (projection <$> page).

(** *** Retention *)

Definition PurgeExpired (before : time) (limit : Z) : go EpisodeStore Z :=
  fail (ErrText "principal-scoped episode purge is required").
Definition PurgeExpiredForOrg (principal : Principal) (before : time) (limit : Z) : go EpisodeStore Z :=
  fail (ErrText "repository-scoped episode purge is required").

Definition purged_episode (e : AgentEpisode) : AgentEpisode :=
  ep_set zero_create AgentEpisodeRedactionPurgedTombstone e.

(** One turn of the purge loop, and the loop over the keys in some order. *)
Definition purge_one (before : time) (limit : Z) (orgID : string) (scopes : list string)
    (id : string) (purged : Z) : go EpisodeStore Z :=
  let! s := get in
  match es_byID s !! id with
  | None => ret purged
  | Some record =>
    if bool_decide (purged = limit) || is_tombstone record || negb (bool_decide (er_orgID record = orgID))
       || negb (episodeRepositoryAllowed scopes (record_slug record))
    then ret purged
    else
      match episodeExpiry (er_episode record) with
      | Some expiresAt =>
        if negb (time_After expiresAt before) then
          let! updated := now in
          put (set_record id (er_set (purged_episode (er_episode record)) updated record) s) ;;
          ret (purged + 1)
        else ret purged
      | None => ret purged
      end
  end.

Fixpoint purge_loop (before : time) (limit : Z) (orgID : string) (scopes : list string)
    (order : list string) (purged : Z) : go EpisodeStore Z :=
  match order with
  | [] => ret purged
  | id :: rest =>
    let! purged' := purge_one before limit orgID scopes id purged in
    purge_loop before limit orgID scopes rest purged'
  end.

Definition purgeExpired (order : list string) (before : time) (limit : Z) (orgID : string)
    (scopes : list string) : go EpisodeStore Z :=
  refuse! isEmpty (strings_TrimSpace orgID) || bool_decide (scopes = []) with ErrNotFound ;;
  if bool_decide (limit <= 0) then ret 0 else purge_loop before limit orgID scopes order 0.

Definition PurgeExpiredForPrincipal (order : list string) (principal : Principal) (before : time) (limit : Z)
    : go EpisodeStore Z :=
  refuse! isEmpty (strings_TrimSpace (pr_OrgID principal)) || bool_decide (pr_RepositoryScopes principal = [])
          || HoldsProjectGrant principal with ErrNotFound ;;
  purgeExpired order before limit (pr_OrgID principal) (pr_RepositoryScopes principal).

(** *** Reading *)

Definition readable (principal : Principal) (clientEpisodeID : string) (now : time) (r : episodeRecord) : bool :=
  negb (negb (bool_decide (er_orgID r = pr_OrgID principal))
        || negb (bool_decide (er_clientID r = clientEpisodeID)) || is_tombstone r
        || episodeExpired (er_episode r) now
        || negb (principalEpisodeRepositoryAllowed principal (er_repoSlug r))).

(** The loop over the records: a second match ends it with an error. *)
Fixpoint get_loop (principal : Principal) (clientEpisodeID : string) (now : time)
    (rows : list episodeRecord) (result : AgentEpisode) : res AgentEpisode :=
  match rows with
  | [] => Ok result
  | r :: rest =>
    if negb (readable principal clientEpisodeID now r)
    then get_loop principal clientEpisodeID now rest result
    else if negb (isEmpty (ep_EpisodeID result)) then Err ErrNotFound
    else get_loop principal clientEpisodeID now rest (presentation (er_episode r))
  end.

Definition GetByClientEpisodeID (order : list string) (principal : Principal) (clientEpisodeID : string)
    : go EpisodeStore AgentEpisode :=
  let! s := get in
  let! at_ := now in
  let! result := lift_res (get_loop principal clientEpisodeID at_ (omap (λ id, es_byID s !! id) order)
                             zero_episode) in
  refuse! isEmpty (ep_EpisodeID result) with ErrNotFound ;;
  ret result.

End store.
End Episodes.
