(* ===== verification/EpisodeProofs.v ===== *)
(** * The episode store: records, moves, and what each operation does

    A stored episode moves only from active to redacted to purged and gives up
    its content on the way; every operation is inverted into its outcomes, and
    shown to keep the store consistent. *)

From Stdlib Require Import ZArith Lia Ascii.
From stdpp Require Import sorting pretty numbers gmap strings list_numbers list relations.
From S2P Require Import Prelude GoStrings GoText Sha256 Grants Episodes.
Import Episodes.Episodes.

Open Scope Z_scope.

(** ** Records *)

Definition scrubbed (c : AgentEpisodeCreate) : Prop :=
  ec_Goal c = redactedEpisodeText ∧ ec_Summary c = redactedEpisodeText ∧ ec_TaskRef c = ""
  ∧ ec_Artifacts c = EpArtifacts (Some []) (Some []) (Some []) ∧ ec_Transcript c = Transcript_ "none" "" "".

(** How far a record has come, and what it still holds there. *)
Definition stage (r : episodeRecord) : nat :=
  if bool_decide (ep_RedactionState (er_episode r) = AgentEpisodeRedactionActive) then 0
  else if bool_decide (ep_RedactionState (er_episode r) = AgentEpisodeRedactionRedacted) then 1 else 2.

Definition content_ok (r : episodeRecord) : Prop :=
  match stage r with
  | 0%nat => record_slug r = er_repoSlug r ∧ ec_ClientEpisodeID (ep_Create (er_episode r)) = er_clientID r
  | 1%nat => record_slug r = er_repoSlug r ∧ ec_ClientEpisodeID (ep_Create (er_episode r)) = er_clientID r
             ∧ scrubbed (ep_Create (er_episode r))
  | _ => is_tombstone r = true ∧ ep_Create (er_episode r) = zero_create
  end.

Record record_ok (id : string) (r : episodeRecord) : Prop := {
  ro_id : ep_EpisodeID (er_episode r) = id ∧ id ≠ "";
  ro_content : content_ok r;
}.

Record record_moves (r r' : episodeRecord) : Prop := {
  rm_same : er_digest r' = er_digest r ∧ er_orgID r' = er_orgID r ∧ er_repoSlug r' = er_repoSlug r
            ∧ er_clientID r' = er_clientID r;
  rm_created : ep_EpisodeID (er_episode r') = ep_EpisodeID (er_episode r)
               ∧ ep_CreatedAt (er_episode r') = ep_CreatedAt (er_episode r);
  rm_forward : r' = r ∨ (stage r < stage r')%nat;
}.

#[global] Instance record_moves_preorder : PreOrder record_moves.
Proof.
  split; [intros r; split; auto|].
  intros a b c [(S1 & S2 & S3 & S4) [C1 C2] F] [(T1 & T2 & T3 & T4) [D1 D2] G].
  split; [split_and!; congruence|split; congruence|].
  destruct F as [->|F], G as [->|G]; auto. right. lia.
Qed.

Section store.
Context `{UnicodeTables} `{FoldTables}.
Implicit Types (s : EpisodeStore).

Record episodes_ok s : Prop := {
  eo_record id r : es_byID s !! id = Some r → record_ok id r;
  eo_client k id : es_byClient s !! k = Some id → is_Some (es_byID s !! id);
  eo_key k id : es_byKey s !! k = Some id → is_Some (es_byID s !! id);
}.

Record episodes_move s s' : Prop := {
  em_records id r : es_byID s !! id = Some r → ∃ r', es_byID s' !! id = Some r' ∧ record_moves r r';
  em_client : es_byClient s ⊆ es_byClient s';
  em_key : es_byKey s ⊆ es_byKey s';
}.

#[global] Instance episodes_move_preorder : PreOrder episodes_move.
Proof.
  split.
  - intros s. split; [|done..]. intros id r Hr. by exists r.
  - intros a b c [R1 C1 K1] [R2 C2 K2]. split; [|by etrans..]. intros id r Hr.
    destruct (R1 _ _ Hr) as (r1 & Hr1 & ?). destruct (R2 _ _ Hr1) as (r2 & ? & ?).
    exists r2. split; [done|by etrans].
Qed.

(** The postcondition of every operation; a failure leaves the store alone. *)
Definition episodes_kept {A} s (r : res A) s' : Prop :=
  episodes_ok s' ∧ episodes_move s s' ∧ r ≠ Panic ∧ ∀ e, r = Err e → s' = s.

Lemma episodes_same {A} s (r : res A) s' : episodes_ok s → s' = s → r ≠ Panic → episodes_kept s r s'.
Proof. intros Hok -> Hr. by split_and!. Qed.

Lemma episodes_wrote {A} s (a : A) s' : episodes_ok s' → episodes_move s s' → episodes_kept s (Ok a) s'.
Proof. intros. by split_and!. Qed.

(** *** A record rewritten in place *)

Lemma set_record_kept s id r r' : episodes_ok s → es_byID s !! id = Some r → record_moves r r' → record_ok id r' →
  episodes_ok (set_record id r' s) ∧ episodes_move s (set_record id r' s).
Proof.
  intros [Hr Hc Hk] Hid Hm Hro.
  assert (∀ i, is_Some (es_byID s !! i) → is_Some (<[id := r']> (es_byID s) !! i)) as Hsome.
  { intros i Hi. destruct (decide (id = i)) as [<-|]; [rewrite lookup_insert_eq; eauto|by rewrite lookup_insert_ne]. }
  split.
  - split; cbn; [|by eauto..]. intros i x. destruct (decide (id = i)) as [<-|].
    + rewrite lookup_insert_eq. by intros [= <-].
    + rewrite lookup_insert_ne by done. apply Hr.
  - split; cbn; [|done..]. intros i x Hx. destruct (decide (id = i)) as [<-|].
    + exists r'. rewrite lookup_insert_eq. split; [done|]. by replace x with r by congruence.
    + exists x. by rewrite lookup_insert_ne.
Qed.

Definition redacted_record (at_ : time) (r : episodeRecord) : episodeRecord :=
  er_set (ep_set (redactedCreate (ep_Create (er_episode r))) AgentEpisodeRedactionRedacted (er_episode r)) at_ r.
Definition purged_record (at_ : time) (r : episodeRecord) : episodeRecord :=
  er_set (purged_episode (er_episode r)) at_ r.

Lemma redact_moves id at_ r : record_ok id r → stage r = 0%nat →
  record_moves r (redacted_record at_ r) ∧ record_ok id (redacted_record at_ r).
Proof.
  intros [Hid Hc] Hs. unfold content_ok in Hc. rewrite Hs in Hc. split.
  - split; [done..|]. right. change (stage r < 1)%nat. lia.
  - split; [done|]. unfold content_ok. change (stage (redacted_record at_ r)) with 1%nat. cbn. destruct Hc. by split_and!.
Qed.

Lemma stage_2 r : stage r ≠ 2%nat ↔ ep_RedactionState (er_episode r) = AgentEpisodeRedactionActive
                                    ∨ ep_RedactionState (er_episode r) = AgentEpisodeRedactionRedacted.
Proof. unfold stage. repeat case_bool_decide; naive_solver. Qed.

Lemma live_stage r : is_tombstone r = false → content_ok r → (stage r < 2)%nat.
Proof.
  unfold content_ok. destruct (stage r) as [|[|n]]; [lia..|]. intros Ht (Hc & _). congruence.
Qed.

Lemma purge_moves id at_ r : record_ok id r → is_tombstone r = false →
  record_moves r (purged_record at_ r) ∧ record_ok id (purged_record at_ r).
Proof.
  intros [Hid Hc] Ht. pose proof (live_stage _ Ht Hc). split.
  - split; [done..|]. right. change (stage r < 2)%nat. lia.
  - by split.
Qed.

(** *** Creation *)

Lemma insert_episode_kept s keys id r : episodes_ok s → es_byID s !! id = None → record_ok id r →
  find_existing keys s = None →
  episodes_ok (insert_episode keys id r s) ∧ episodes_move s (insert_episode keys id r s).
Proof.
  intros [Hr Hc Hk] Hid Hro Hnone. unfold find_existing in Hnone.
  destruct (es_byKey s !! keys.2) eqn:Hkey; [done|].
  assert (∀ i, is_Some (es_byID s !! i) → is_Some (<[id := r]> (es_byID s) !! i)) as Hsome.
  { intros i Hi. destruct (decide (id = i)) as [<-|]; [rewrite lookup_insert_eq; eauto|by rewrite lookup_insert_ne]. }
  split.
  - split; cbn.
    + intros i x. destruct (decide (id = i)) as [<-|].
      * rewrite lookup_insert_eq. by intros [= <-].
      * rewrite lookup_insert_ne by done. apply Hr.
    + intros k i. destruct (decide (keys.1 = k)) as [<-|].
      * rewrite lookup_insert_eq. intros [= <-]. rewrite lookup_insert_eq. eauto.
      * rewrite lookup_insert_ne by done. eauto.
    + intros k i. destruct (decide (keys.2 = k)) as [<-|].
      * rewrite lookup_insert_eq. intros [= <-]. rewrite lookup_insert_eq. eauto.
      * rewrite lookup_insert_ne by done. eauto.
  - split; cbn.
    + intros i x Hx. exists x. split; [|done]. rewrite lookup_insert_ne; [done|]. by intros <-; congruence.
    + by apply insert_subseteq.
    + by apply insert_subseteq.
Qed.

Lemma new_id_ne random id : newEpisodeID random = Ok id → id ≠ "".
Proof. destruct random; [|done]. intros [= <-]. done. Qed.

Definition new_record (principal : Principal) (create : AgentEpisodeCreate) (digest : digest32)
    (stored : AgentEpisode) : episodeRecord :=
  EpisodeRecord stored digest (pr_OrgID principal) (rr_Slug (ec_Repository create))
    (ec_ClientEpisodeID create) (ep_CreatedAt stored).

Lemma new_record_ok principal create digest id now expiresAt : id ≠ "" →
  record_ok id (new_record principal create digest (new_episode create id now expiresAt)).
Proof.
  intros Hid. unfold new_record, new_episode. case_bool_decide.
  - by split.
  - split; [done|]. unfold content_ok. by cbn.
Qed.
Lemma digest_errors create : episodeDigest create ≠ Panic ∧ episodeDigest create ≠ Err ErrConflict.
Proof. unfold episodeDigest. by destruct (json_create create). Qed.

Lemma ctx_not_conflict c : ctx_gerr c ≠ ErrConflict.
Proof. by destruct c. Qed.

(** The three ways a creation can end. *)
Lemma create_inv random principal create expiresAt (w : env * EpisodeStore) r w' :
  CreateIdempotent random principal create expiresAt w = (r, w') →
  (∃ e, r = Err e ∧ e ≠ ErrConflict ∧ w'.2 = w.2) ∨
  ∃ digest, episodeDigest create = Ok digest ∧
    match find_existing (episodeKeys (pr_OrgID principal) create) w.2 with
    | Some id =>
      w'.2 = w.2 ∧
      r = if same_episode (record_at id w.2) digest (rr_Slug (ec_Repository create))
          then Ok (presentation (er_episode (record_at id w.2)), true) else Err ErrConflict
    | None =>
      ∃ id t, newEpisodeID random = Ok id ∧
        r = Ok (presentation (new_episode create id t expiresAt), false) ∧
        w'.2 = insert_episode (episodeKeys (pr_OrgID principal) create) id
                 (new_record principal create digest (new_episode create id t expiresAt)) w.2
    end.
Proof.
  unfold CreateIdempotent. intros Hrun. pose proof ctx_not_conflict. pose proof (digest_errors create) as [Hp Hc].
  apply bind_Err_or_Ok in Hrun as [(e & -> & [c ->] & Hs)|[e Hrun]]; [left; eauto|].
  destruct (negb _) in Hrun; [injection Hrun as <- <-; left; eauto|].
  apply bind_Err_or_Ok in Hrun as [(e1 & -> & [c ->] & Hs)|[e1 Hrun]]; [left; eauto|].
  unfold bind at 1, lift_res in Hrun.
  destruct (episodeDigest create) as [digest|x|]; [|injection Hrun as <- <-; left; exists x; naive_solver|done].
  rewrite bind_get in Hrun. cbn [snd] in Hrun.
  destruct (find_existing _ w.2) as [id|] eqn:Hfind.
  - right. exists digest. split; [done|]. unfold duplicate in Hrun. rewrite bind_get in Hrun.
    cbn [snd] in Hrun. destruct (same_episode _ _ _); injection Hrun as <- <-; done.
  - destruct random as [bs|]; [|injection Hrun as <- <-; left; eauto].
    unfold bind at 1 in Hrun. cbn [newEpisodeID] in Hrun.
    apply bind_Err_or_Ok in Hrun as [(e2 & -> & [c ->] & Hs)|[e2 Hrun]]; [left; eauto|].
    apply bind_now in Hrun as (t & e3 & Hrun). injection Hrun as <- <-.
    right. exists digest. split; [done|]. eexists _, t. done.
Qed.

Lemma record_at_Some id s r : es_byID s !! id = Some r → record_at id s = r.
Proof. unfold record_at. by intros ->. Qed.

Lemma find_existing_Some keys s id : episodes_ok s → find_existing keys s = Some id → is_Some (es_byID s !! id).
Proof.
  intros Hok. unfold find_existing. destruct (es_byKey s !! keys.2) eqn:Hk; [intros [= <-]; by eapply eo_key|].
  by eapply eo_client.
Qed.

Lemma episode_create_kept random principal create expiresAt (w : env * EpisodeStore) r w' :
  CreateIdempotent random principal create expiresAt w = (r, w') → episodes_ok w.2 →
  (∀ id, newEpisodeID random = Ok id → es_byID w.2 !! id = None) → episodes_kept w.2 r w'.2.
Proof.
  intros Hrun Hok Hfresh. apply create_inv in Hrun as [(e & -> & _ & Hs)|(digest & _ & Hrun)];
    [by apply episodes_same|].
  destruct (find_existing _ w.2) as [id|] eqn:Hfind.
  - destruct Hrun as [Hs ->]. apply episodes_same; [done..|]. by destruct (same_episode _ _ _).
  - destruct Hrun as (id & t & Hid & -> & ->). apply episodes_wrote; apply insert_episode_kept;
      try done; try (by apply Hfresh); by eapply new_record_ok, new_id_ne.
Qed.

(** *** Redaction *)

Lemma redact_inv principal id (w : env * EpisodeStore) r w' :
  Redact principal id w = (r, w') →
  (r = Err ErrNotFound ∧ w'.2 = w.2) ∨
  ∃ rec t, es_byID w.2 !! id = Some rec ∧ er_orgID rec = pr_OrgID principal ∧ is_tombstone rec = false
    ∧ episodeExpired (er_episode rec) (clock w.1) = false
    ∧ principalEpisodeRepositoryAllowed principal (record_slug rec) = true
    ∧ let rec' := if bool_decide (ep_RedactionState (er_episode rec) = AgentEpisodeRedactionActive)
                  then redacted_record t rec else rec in
      r = Ok (presentation (er_episode rec'))
      ∧ w'.2 = if bool_decide (ep_RedactionState (er_episode rec) = AgentEpisodeRedactionActive)
               then set_record id rec' w.2 else w.2.
Proof.
  unfold Redact. rewrite bind_get. intros Hrun.
  destruct (es_byID w.2 !! id) as [rec|] eqn:Hid; [|injection Hrun as <- <-; auto].
  destruct (negb _ || _) eqn:E1 in Hrun; [injection Hrun as <- <-; auto|].
  apply orb_false_iff in E1 as [Horg%negb_false_iff%bool_decide_eq_true Ht].
  apply bind_now_at in Hrun as [e Hrun].
  destruct (_ || _ || _) eqn:E2 in Hrun; [injection Hrun as <- <-; auto|].
  apply orb_false_iff in E2 as [[Hexp _]%orb_false_iff Hall%negb_false_iff].
  right. destruct (bool_decide (ep_RedactionState (er_episode rec) = AgentEpisodeRedactionActive)) eqn:Hact.
  - apply bind_now in Hrun as (t & e2 & Hrun). injection Hrun as <- <-. exists rec, t. rewrite Hact. done.
  - injection Hrun as <- <-. exists rec, 0. rewrite Hact. done.
Qed.

Lemma redact_kept principal id (w : env * EpisodeStore) r w' :
  Redact principal id w = (r, w') → episodes_ok w.2 → episodes_kept w.2 r w'.2.
Proof.
  intros Hrun Hok. apply redact_inv in Hrun as [[-> Hs]|(rec & t & Hid & _ & _ & _ & _ & Hrun)];
    [by apply episodes_same|].
  destruct (bool_decide _) eqn:Hact in Hrun; destruct Hrun as [-> ->]; [|by apply episodes_same].
  destruct (redact_moves id t rec) as [Hm Hro]; [by eapply eo_record|by unfold stage; rewrite Hact|].
  destruct (set_record_kept w.2 id rec _ Hok Hid Hm Hro). by apply episodes_wrote.
Qed.

(** *** Retention *)

(** What a purge may take. *)
Definition purgeable (before : time) (orgID : string) (scopes : list string) (r : episodeRecord) : Prop :=
  is_tombstone r = false ∧ er_orgID r = orgID ∧ episodeRepositoryAllowed scopes (record_slug r) = true
  ∧ ∃ expiresAt, episodeExpiry (er_episode r) = Some expiresAt ∧ expiresAt <= before.

Lemma purge_one_inv before limit orgID scopes id n (w : env * EpisodeStore) r w' :
  purge_one before limit orgID scopes id n w = (r, w') →
  (r = Ok n ∧ w'.2 = w.2
   ∧ (n ≠ limit → ∀ rec, es_byID w.2 !! id = Some rec → ¬ purgeable before orgID scopes rec)) ∨
  ∃ rec t, n ≠ limit ∧ es_byID w.2 !! id = Some rec ∧ purgeable before orgID scopes rec
    ∧ r = Ok (n + 1) ∧ w'.2 = set_record id (purged_record t rec) w.2.
Proof.
  unfold purge_one. rewrite bind_get. intros Hrun.
  destruct (es_byID w.2 !! id) as [rec|] eqn:Hid; [|injection Hrun as <- <-; left; by split_and!].
  destruct (_ || _ || _ || _) eqn:E in Hrun.
  { injection Hrun as <- <-. left. split_and!; [done..|]. intros Hn rec' [= <-] (Ht & Ho & Ha & _).
    rewrite bool_decide_false, Ht, Ha, bool_decide_true in E by done. done. }
  apply orb_false_iff in E as [[[Hn%bool_decide_eq_false Ht]%orb_false_iff
    Ho%negb_false_iff%bool_decide_eq_true]%orb_false_iff Ha%negb_false_iff].
  destruct (episodeExpiry (er_episode rec)) as [x|] eqn:Hx.
  2:{ injection Hrun as <- <-. left. split_and!; [done..|]. intros _ rec' [= <-] (_ & _ & _ & y & Hy & _). congruence. }
  unfold time_After in Hrun. case_bool_decide as Hb; cbn [negb] in Hrun.
  { injection Hrun as <- <-. left. split_and!; [done..|]. intros _ rec' [= <-] (_ & _ & _ & y & Hy & Hle).
    assert (y = x) as -> by congruence. lia. }
  apply bind_now in Hrun as (t & e & Hrun). injection Hrun as <- <-. right. exists rec, t.
  split_and!; [done..| |done|done]. unfold purgeable. split_and!; [done..|]. exists x. split; [done|lia].
Qed.

(** What a loop over distinct keys purges: [gone], in some order. *)
Record purges (before : time) (limit : Z) (orgID : string) (scopes : list string) (order : list string)
    (n : Z) (gone : list string) (s s' : EpisodeStore) : Prop := {
  pg_gone id : id ∈ gone → id ∈ order ∧ ∃ rec t, es_byID s !! id = Some rec
    ∧ purgeable before orgID scopes rec ∧ es_byID s' !! id = Some (purged_record t rec);
  pg_kept id : id ∉ gone → es_byID s' !! id = es_byID s !! id;
  pg_keys : es_byClient s' = es_byClient s ∧ es_byKey s' = es_byKey s;
  pg_limit : n + Z.of_nat (length gone) <= limit;
  pg_all id rec : n + Z.of_nat (length gone) < limit → id ∈ order → es_byID s !! id = Some rec →
    purgeable before orgID scopes rec → id ∈ gone;
  pg_nodup : NoDup gone;
}.

Lemma purge_loop_spec before limit orgID scopes order n (w : env * EpisodeStore) r w' :
  purge_loop before limit orgID scopes order n w = (r, w') → NoDup order → n <= limit →
  ∃ gone, r = Ok (n + Z.of_nat (length gone)) ∧ purges before limit orgID scopes order n gone w.2 w'.2.
Proof.
  revert n w. induction order as [|id order IH]; intros n w Hrun Hnd Hn; cbn in Hrun.
  { injection Hrun as <- <-. exists []. split; [f_equal; cbn; lia|].
    split; cbn; [by intros y ?%elem_of_nil|done|done|lia|by intros y rec _ ?%elem_of_nil|constructor]. }
  apply NoDup_cons in Hnd as [Hid Hnd]. unfold bind in Hrun.
  destruct (purge_one before limit orgID scopes id n w) as [r1 w1] eqn:H1.
  apply purge_one_inv in H1 as [(-> & Hs & Hnot)|(rec & t & Hne & Hrec & Hp & -> & Hs)].
  - destruct (IH _ _ Hrun Hnd Hn) as (gone & -> & [G K [Kc Kk] L A N]). rewrite Hs in *.
    exists gone. split; [done|]. split; try done.
    + intros x Hx. destruct (G x Hx) as [? ?]. split; [by right|done].
    + intros x rec Hlt [->|Hx]%elem_of_cons Hrec Hp; [|by eapply A].
      destruct (Hnot ltac:(lia) _ Hrec Hp).
  - destruct (IH _ _ Hrun Hnd ltac:(lia)) as (gone & -> & [G K [Kc Kk] L A N]).
    assert (id ∉ gone) as Hg by (intros Hx; by destruct (G _ Hx)).
    assert (∀ x, x ≠ id → es_byID w1.2 !! x = es_byID w.2 !! x) as Hother.
    { intros x Hx. rewrite Hs. cbn. by rewrite lookup_insert_ne. }
    exists (id :: gone). split; [f_equal; cbn; lia|]. split.
    + intros x [->|Hx]%elem_of_cons.
      * split; [left|]. exists rec, t. split_and!; [done..|]. rewrite K by done. rewrite Hs. cbn.
        by rewrite lookup_insert_eq.
      * destruct (G x Hx) as (Hin & rec' & t' & Hr' & Hp' & Hf). split; [by right|]. exists rec', t'.
        rewrite Hother in Hr' by (intros ->; done). done.
    + intros x [Hx Hxg]%not_elem_of_cons. rewrite K by done. by apply Hother.
    + rewrite Kc, Kk, Hs. done.
    + cbn. lia.
    + intros x rec' Hlt [->|Hx]%elem_of_cons Hrec' Hp'; [left|right]. cbn in Hlt.
      apply (A x rec'); [lia|done| |done]. rewrite Hother; [done|]. by intros ->.
    + by constructor.
Qed.

Lemma purges_keep before limit orgID scopes order n gone s s' :
  purges before limit orgID scopes order n gone s s' → episodes_ok s → episodes_ok s' ∧ episodes_move s s'.
Proof.
  intros [G K [Kc Kk] _ _ _] Hok.
  assert (∀ id r, es_byID s !! id = Some r → ∃ r', es_byID s' !! id = Some r' ∧ record_moves r r' ∧ record_ok id r') as Hr.
  { intros id r Hid. pose proof (eo_record _ Hok _ _ Hid) as Hro. destruct (decide (id ∈ gone)) as [Hg|Hg].
    - destruct (G id Hg) as (_ & rec & t & Hrec & (Ht & _) & Hf). assert (rec = r) as -> by congruence.
      exists (purged_record t r). destruct (purge_moves id t r Hro Ht). done.
    - exists r. by rewrite K. }
  assert (∀ id, is_Some (es_byID s !! id) → is_Some (es_byID s' !! id)) as Hsome.
  { intros id [r Hid]. destruct (Hr _ _ Hid) as (r' & -> & _). eauto. }
  split.
  - split; [|rewrite Kc; intros; by eapply Hsome, eo_client|rewrite Kk; intros; by eapply Hsome, eo_key].
    intros id r Hid. destruct (es_byID s !! id) as [r0|] eqn:Hr0.
    + destruct (Hr _ _ Hr0) as (r' & Hr' & _ & Hro). by assert (r = r') as -> by congruence.
    + destruct (decide (id ∈ gone)) as [Hg|Hg].
      * destruct (G id Hg) as (_ & rec & t & Hrec & _). congruence.
      * rewrite K in Hid by done. congruence.
  - split; [|by rewrite Kc|by rewrite Kk]. intros id r Hid. destruct (Hr _ _ Hid) as (r' & ? & ? & _). eauto.
Qed.
End store.
