(* ===== verification/EpisodeTheorems.v ===== *)
(** * The episode store over time

    A creation is answered once ([create_once]); episodes only give up content
    ([episodes_only_shrink]); the preflight predicts the creation
    ([preflight_predicts_create]); retention, reading and listing are exact
    ([purge_exact], [get_exact], [listing_complete]). *)

From Stdlib Require Import ZArith Lia Ascii.
From stdpp Require Import sorting pretty numbers gmap strings list_numbers list relations.
From S2P Require Import Prelude GoStrings GoText Sha256 Grants Episodes EpisodeProofs.
Import Episodes.Episodes.

Open Scope Z_scope.

(** ** Histories *)

Inductive episode_op :=
  | EPreflight (principal : Principal) (create : AgentEpisodeCreate)
  | ECreate (random : option (list Z)) (principal : Principal) (create : AgentEpisodeCreate)
      (expiresAt : option time)
  | EGet (order : list string) (principal : Principal) (clientEpisodeID : string)
  | ERedact (principal : Principal) (episodeID : string)
  | EList (orgID : string) (since : time) (afterEpisodeID : string) (limit : Z)
  | EPurge (order : list string) (principal : Principal) (before : time) (limit : Z).

Section store.
Context `{UnicodeTables} `{FoldTables}.
Implicit Types (s : EpisodeStore).

Definition episode_exec (op : episode_op) : go EpisodeStore () :=
  match op with
  | EPreflight p create => discard (PreflightIdempotency p create)
  | ECreate random p create expiresAt => discard (CreateIdempotent random p create expiresAt)
  | EGet order p id => discard (GetByClientEpisodeID order p id)
  | ERedact p id => discard (Redact p id)
  | EList org since after limit => discard (ListSince org since after limit)
  | EPurge order p before limit => discard (PurgeExpiredForPrincipal order p before limit)
  end.

(** The environment of an operation: random ids do not repeat, and a range over
    the records visits each once. *)
Definition op_ok (op : episode_op) s : Prop :=
  match op with
  | ECreate random _ _ _ => ∀ id, newEpisodeID random = Ok id → es_byID s !! id = None
  | EPurge order _ _ _ | EGet order _ _ => order ≡ₚ (map_to_list (es_byID s)).*1
  | _ => True
  end.

Inductive episode_step s : EpisodeStore → Prop :=
  | estep op e r w' : op_ok op s → episode_exec op (e, s) = (r, w') → episode_step s w'.2.

Lemma preflight_readonly p create : readonly (PreflightIdempotency p create).
Proof.
  unfold PreflightIdempotency. apply readonly_bind; [apply readonly_ctx|]. intros _.
  destruct (negb _); [apply readonly_fail|]. apply readonly_bind; [apply readonly_lift|]. intros d.
  apply readonly_bind; [apply readonly_get|]. intros s. destruct (find_existing _ s); apply readonly_ret.
Qed.

Lemma get_readonly order p id : readonly (GetByClientEpisodeID order p id).
Proof.
  unfold GetByClientEpisodeID. apply readonly_bind; [apply readonly_get|]. intros s.
  apply readonly_bind; [apply readonly_now|]. intros t. apply readonly_bind; [apply readonly_lift|]. intros x.
  destruct (isEmpty _); [apply readonly_fail|apply readonly_ret].
Qed.

Lemma list_readonly org since after limit : readonly (ListSince org since after limit).
Proof.
  unfold ListSince. destruct (isEmpty _); [apply readonly_fail|].
  apply readonly_bind; [apply readonly_get|]. intros s. apply readonly_ret.
Qed.

Lemma purge_inv order p before limit (w : env * EpisodeStore) r w' :
  PurgeExpiredForPrincipal order p before limit w = (r, w') → NoDup order →
  (r = Err ErrNotFound ∧ w'.2 = w.2) ∨ (limit <= 0 ∧ r = Ok 0 ∧ w'.2 = w.2) ∨
  (0 < limit ∧ HoldsProjectGrant p = false ∧
   ∃ gone, r = Ok (Z.of_nat (length gone))
     ∧ purges before limit (pr_OrgID p) (pr_RepositoryScopes p) order 0 gone w.2 w'.2).
Proof.
  unfold PurgeExpiredForPrincipal, purgeExpired. intros Hrun Hnd.
  destruct (_ || _ || HoldsProjectGrant p) eqn:E1 in Hrun; [injection Hrun as <- <-; auto|].
  apply orb_false_iff in E1 as [_ Hp].
  destruct (_ || _) in Hrun; [injection Hrun as <- <-; auto|]. right.
  case_bool_decide; [injection Hrun as <- <-; auto|]. right. split; [lia|]. split; [done|].
  by apply purge_loop_spec in Hrun; [|done|lia].
Qed.

Lemma discard_kept {A} (m : go EpisodeStore A) (w : env * EpisodeStore) r w' :
  discard m w = (r, w') → episodes_ok w.2 →
  (∀ r0, m w = (r0, w') → episodes_ok w'.2 ∧ episodes_move w.2 w'.2) →
  episodes_ok w'.2 ∧ episodes_move w.2 w'.2.
Proof. intros (r0 & Hrun & _)%discard_inv Hok Hk. by eapply Hk. Qed.

Lemma readonly_kept {A} (m : go EpisodeStore A) (w : env * EpisodeStore) r w' :
  readonly m → m w = (r, w') → episodes_ok w.2 → episodes_ok w'.2 ∧ episodes_move w.2 w'.2.
Proof. intros Hm Hrun Hok. by rewrite (Hm _ _ _ Hrun). Qed.

Lemma step_keeps s s' : episode_step s s' → episodes_ok s → episodes_ok s' ∧ episodes_move s s'.
Proof.
  intros [op e r w' Hop Hrun] Hok. destruct op; cbn in Hrun, Hop;
    (apply (discard_kept _ (e, s) _ _ Hrun Hok); clear r Hrun; intros r Hrun).
  - eapply (readonly_kept _ (e, s)); [apply preflight_readonly|done|done].
  - destruct (episode_create_kept _ _ _ _ (e, s) _ _ Hrun Hok Hop) as (? & ? & _). done.
  - eapply (readonly_kept _ (e, s)); [apply get_readonly|done|done].
  - destruct (redact_kept _ _ (e, s) _ _ Hrun Hok) as (? & ? & _). done.
  - eapply (readonly_kept _ (e, s)); [apply list_readonly|done|done].
  - apply purge_inv in Hrun as [[_ Hs]|[(_ & _ & Hs)|(_ & _ & gone & _ & Hp)]];
      [by cbn in Hs; rewrite Hs..| |].
    + by eapply purges_keep.
    + rewrite Hop. apply NoDup_fst_map_to_list.
Qed.

Lemma episode_steps_keep s s' : rtc episode_step s s' → episodes_ok s → episodes_ok s' ∧ episodes_move s s'.
Proof.
  induction 1 as [s|s1 s2 s3 Hstep _ IH]; intros Hok; [done|].
  destruct (step_keeps _ _ Hstep Hok) as [Hok2 ?]. destruct (IH Hok2). split; [done|by etrans].
Qed.

Lemma new_ok : episodes_ok NewEpisodeStore.
Proof. split; cbn; intros ??; by rewrite lookup_empty. Qed.

(** ** Properties *)

(** C39: an episode only gives up content.  Over any run from the empty store, a
    stored episode is never removed; its id, owner, repository, client id,
    creation time and digest never change; it is rewritten only to move forward
    from active to redacted to purged; and whatever is stored then is what that
    stage may hold: a redacted episode has no goal, summary, task, artifact or
    transcript of the original left, a purged one has nothing but its id. *)
Theorem episodes_only_shrink s s' id r :
  rtc episode_step NewEpisodeStore s → rtc episode_step s s' → es_byID s !! id = Some r →
  ∃ r', es_byID s' !! id = Some r' ∧ record_moves r r' ∧ content_ok r'.
Proof.
  intros Hs Hs' Hid. destruct (episode_steps_keep _ _ Hs new_ok) as [Hok _].
  destruct (episode_steps_keep _ _ Hs' Hok) as [Hok' [Hr _ _]].
  destruct (Hr _ _ Hid) as (r' & Hr' & Hm). exists r'. split_and!; [done..|].
  by eapply ro_content, eo_record.
Qed.
Lemma runes_fold_refl l : runes_fold_eq l l = true.
Proof. induction l as [|a l IH]; [done|]. cbn. rewrite IH. unfold rune_fold_eq. by rewrite bool_decide_true. Qed.

Lemma same_repository_refl slug : sameEpisodeRepository slug slug = true.
Proof. apply runes_fold_refl. Qed.

Lemma find_existing_key keys s id : es_byKey s !! keys.2 = Some id → find_existing keys s = Some id.
Proof. unfold find_existing. by intros ->. Qed.

(** C38: a creation happens once per idempotency key.  After a creation that
    stored an episode, whatever runs in between, a later creation under the same
    key stores nothing: it fails, or it answers, flagged as a duplicate, with the
    episode as it is stored by then, and only for a body with the same digest;
    and the very same body is never refused as a conflict. *)
Theorem create_once s random principal create expiresAt e ep e1 s1 s2 :
  rtc episode_step NewEpisodeStore s →
  (∀ id, newEpisodeID random = Ok id → es_byID s !! id = None) →
  CreateIdempotent random principal create expiresAt (e, s) = (Ok (ep, false), (e1, s1)) →
  rtc episode_step s1 s2 →
  ∃ id, es_byID s !! id = None ∧ is_Some (es_byID s1 !! id) ∧
  ∀ random' principal' create' expiresAt' e2 r e3 s3,
    (episodeKeys (pr_OrgID principal') create').2 = (episodeKeys (pr_OrgID principal) create).2 →
    CreateIdempotent random' principal' create' expiresAt' (e2, s2) = (r, (e3, s3)) →
    s3 = s2 ∧
    (∀ ep' dup, r = Ok (ep', dup) →
       dup = true ∧ episodeDigest create' = episodeDigest create
       ∧ ∃ rec, es_byID s2 !! id = Some rec ∧ ep' = presentation (er_episode rec)) ∧
    (create' = create → r ≠ Err ErrConflict).
Proof.
  intros Hs Hfresh Hrun Hs2. destruct (episode_steps_keep _ _ Hs new_ok) as [Hok _].
  pose proof (episode_create_kept _ _ _ _ (e, s) _ _ Hrun Hok Hfresh) as (Hok1 & _ & _). cbn [snd] in Hok1.
  apply create_inv in Hrun as [(x & Hx & _)|(digest & Hd & Hrun)]; [done|]. cbn [snd] in Hrun.
  destruct (find_existing _ s); [by destruct Hrun as [_ Hr]; destruct (same_episode _ _ _)|].
  destruct Hrun as (id & t & Hid & _ & ->).
  set (rec0 := new_record _ _ _ _) in *. exists id.
  assert (es_byID (insert_episode (episodeKeys (pr_OrgID principal) create) id rec0 s) !! id = Some rec0) as Hrec0
    by apply lookup_insert_eq.
  split; [by apply Hfresh|]. split; [by eexists|].
  destruct (episode_steps_keep _ _ Hs2 Hok1) as [Hok2 [Hrec _ Hkey]].
  destruct (Hrec _ _ Hrec0) as (rec & Hrec2 & [(Hdig & _ & Hslug & _) _ _]).
  assert (es_byKey s2 !! (episodeKeys (pr_OrgID principal) create).2 = Some id) as Hk2.
  { eapply lookup_weaken; [|exact Hkey]. apply lookup_insert_eq. }
  intros random' principal' create' expiresAt' e2 r e3 s3 Hkeys Hrun'. rewrite <- Hkeys in Hk2.
  apply create_inv in Hrun' as [(x & -> & Hx & Hs3)|(digest' & Hd' & Hrun')]; cbn [snd] in *;
    [split_and!; [done..|by intros _ [= ->]]|].
  rewrite (find_existing_key _ _ _ Hk2) in Hrun'. destruct Hrun' as [-> ->].
  rewrite (record_at_Some _ _ _ Hrec2). split; [done|]. unfold same_episode. rewrite Hdig, Hslug. cbn [er_digest er_repoSlug rec0 new_record].
  split.
  - intros ep' dup. case_bool_decide as Hdd; [|done]. cbn [andb].
    destruct (sameEpisodeRepository _ _); [|done]. intros [= <- <-]. split; [done|].
    split; [by rewrite Hd', Hd, Hdd|]. by exists rec.
  - intros ->. assert (digest' = digest) as -> by congruence.
    by rewrite bool_decide_true, same_repository_refl by done.
Qed.

(** The preflight predicts the creation.  In the same state, with a live
    context and a source of randomness, a creation fails exactly as the preflight
    does, stores a new episode after a miss, repeats the stored one after an
    identical find, and is refused as a conflict after a conflicting one. *)
Theorem preflight_predicts_create random principal create expiresAt clk clk' s :
  (CreateIdempotent (Some random) principal create expiresAt (Env [] clk', s)).1 =
  match (PreflightIdempotency principal create (Env [] clk, s)).1 with
  | Ok EpisodePreflightMiss =>
    Ok (presentation (new_episode create ("ep_" +:+ hex_EncodeToString random) (clock (Env [] clk')) expiresAt),
        false)
  | Ok EpisodePreflightIdentical =>
    match find_existing (episodeKeys (pr_OrgID principal) create) s with
    | Some id => Ok (presentation (er_episode (record_at id s)), true)
    | None => Panic
    end
  | Ok EpisodePreflightConflict => Err ErrConflict
  | Err e => Err e
  | Panic => Panic
  end.
Proof.
  unfold PreflightIdempotency, CreateIdempotent, bind, ctx_check, lift_res, get. cbn.
  destruct (negb _); [done|]. cbn.
  destruct (episodeDigest create) as [digest| |]; cbn; [|done..].
  destruct (find_existing _ s) as [id|]; cbn.
  - unfold duplicate, bind, get, preflightRecord. cbn. by destruct (same_episode _ _ _).
  - unfold now. by destruct clk' as [|t [|t' clk']].
Qed.
(** A purge takes what has expired and nothing else.  In whatever order the
    records are visited, a purge that succeeds with a positive limit purges a set
    of at most [limit] episodes, answers with its size, and turns each of them, an
    episode of the principal's organization and repositories that had expired by
    the given time, into a tombstone with no content; every other record is
    untouched; and when it stops short of the limit, none that it may take is
    left. *)
Theorem purge_exact s order principal before limit e n e' s' :
  order ≡ₚ (map_to_list (es_byID s)).*1 → 0 < limit →
  PurgeExpiredForPrincipal order principal before limit (e, s) = (Ok n, (e', s')) →
  ∃ gone : gset string, n = Z.of_nat (size gone) ∧ n <= limit ∧
  ∀ id rec, es_byID s !! id = Some rec →
    (id ∈ gone → purgeable before (pr_OrgID principal) (pr_RepositoryScopes principal) rec
       ∧ ∃ t, es_byID s' !! id = Some (purged_record t rec)) ∧
    (id ∉ gone → es_byID s' !! id = Some rec
       ∧ (n < limit → ¬ purgeable before (pr_OrgID principal) (pr_RepositoryScopes principal) rec)).
Proof.
  intros Hord Hl Hrun.
  apply purge_inv in Hrun as [[? _]|[[? _]|(_ & _ & gone & [= ->] & Hp)]];
    [done|lia| |rewrite Hord; apply NoDup_fst_map_to_list]. cbn [snd] in Hp.
  destruct Hp as [G K _ L A N]. exists (list_to_set gone). rewrite size_list_to_set by done.
  split; [done|]. split; [lia|]. intros id rec Hid. rewrite elem_of_list_to_set. split.
  - intros Hg. destruct (G _ Hg) as (_ & rec' & t & Hrec & Hp & Hf).
    assert (rec' = rec) as -> by congruence. eauto.
  - intros Hg. split; [by rewrite K|]. intros Hlt Hp. apply Hg. eapply A; [lia| |done|done].
    rewrite Hord. apply list_elem_of_fmap. exists (id, rec). split; [done|]. by apply elem_of_map_to_list.
Qed.

(** ** Reading *)

Lemma readable_spec principal cid t r : readable principal cid t r = true ↔
  er_orgID r = pr_OrgID principal ∧ er_clientID r = cid ∧ is_tombstone r = false
  ∧ episodeExpired (er_episode r) t = false
  ∧ principalEpisodeRepositoryAllowed principal (er_repoSlug r) = true.
Proof.
  unfold readable. rewrite negb_true_iff, !orb_false_iff, !negb_false_iff, !bool_decide_eq_true. tauto.
Qed.

Lemma readable_id s id r principal cid t : episodes_ok s → es_byID s !! id = Some r →
  readable principal cid t r = true → ep_EpisodeID (presentation (er_episode r)) = id ∧ id ≠ "".
Proof.
  intros Hok Hid (_ & _ & Ht & _)%readable_spec. destruct (eo_record _ Hok _ _ Hid) as [[<- Hne] _].
  unfold presentation. unfold is_tombstone in Ht. by rewrite Ht.
Qed.

(** The loop answers with the only readable row, and fails on a second. *)
Lemma get_loop_spec principal cid t rows result :
  (∀ r, r ∈ rows → readable principal cid t r = true → ep_EpisodeID (presentation (er_episode r)) ≠ "") →
  get_loop principal cid t rows result =
  match filter (λ r, readable principal cid t r = true) rows with
  | [] => Ok result
  | [r] => if isEmpty (ep_EpisodeID result) then Ok (presentation (er_episode r)) else Err ErrNotFound
  | _ => Err ErrNotFound
  end.
Proof.
  revert result. induction rows as [|r rows IH]; intros result Hne; [done|]. cbn [get_loop].
  rewrite filter_cons. destruct (readable principal cid t r) eqn:Hr; cbn [negb].
  - rewrite decide_True by done. specialize (Hne r ltac:(left) Hr) as Hr'.
    destruct (isEmpty (ep_EpisodeID result)) eqn:He; cbn [negb].
    + rewrite IH by (intros x Hx; apply Hne; by right).
      destruct (filter _ rows) as [|r2 [|r3 l]]; [done| |done]. unfold isEmpty. by rewrite bool_decide_false.
    + by destruct (filter _ rows).
  - rewrite decide_False by done. apply IH. intros x Hx. apply Hne. by right.
Qed.

(** The rows a visit in some order sees are the records. *)
Lemma rows_perm s order : order ≡ₚ (map_to_list (es_byID s)).*1 →
  omap (λ id, es_byID s !! id) order ≡ₚ (map_to_list (es_byID s)).*2.
Proof.
  intros ->. assert (∀ l : list (string * episodeRecord), (∀ p, p ∈ l → es_byID s !! p.1 = Some p.2) →
    omap (λ id, es_byID s !! id) l.*1 = l.*2) as H1.
  { induction l as [|p l IH]; intros Hl; [done|]. cbn. rewrite (Hl p) by left. f_equal. apply IH.
    intros q Hq. apply Hl. by right. }
  rewrite H1; [done|]. intros [id r] Hp. by apply elem_of_map_to_list in Hp.
Qed.

Lemma rows_NoDup s rows : episodes_ok s → rows ≡ₚ (map_to_list (es_byID s)).*2 → NoDup rows.
Proof.
  intros Hok ->. apply NoDup_fmap_2_strong; [|apply NoDup_map_to_list].
  intros [i x] [j y] Hi%elem_of_map_to_list Hj%elem_of_map_to_list. cbn. intros ->. f_equal.
  destruct (eo_record _ Hok _ _ Hi) as [[<- _] _], (eo_record _ Hok _ _ Hj) as [[? _] _]. done.
Qed.

(** A read finds exactly the one episode it may show.  Whatever the order
    the records are visited in, a read by client id answers an episode if and
    only if one record of the principal's organization has that client id, is no
    tombstone, has not expired at the instant of the read and lies in a
    repository the principal may see, and no second such record exists; every
    other read is the same "not found", and a read changes nothing. *)
Theorem get_exact s order principal cid e r e' s' :
  rtc episode_step NewEpisodeStore s → order ≡ₚ (map_to_list (es_byID s)).*1 →
  GetByClientEpisodeID order principal cid (e, s) = (r, (e', s')) →
  s' = s ∧
  (∀ ep, r = Ok ep ↔
     ∃ id rec, es_byID s !! id = Some rec ∧ readable principal cid (clock e) rec = true
       ∧ ep = presentation (er_episode rec)
       ∧ ∀ id' rec', es_byID s !! id' = Some rec' → readable principal cid (clock e) rec' = true → id' = id)
  ∧ ((∃ ep, r = Ok ep) ∨ r = Err ErrNotFound).
Proof.
  intros Hs Hord Hrun. destruct (episode_steps_keep _ _ Hs new_ok) as [Hok _].
  pose proof (get_readonly _ _ _ _ _ _ Hrun) as Hro. cbn in Hro. split; [done|]. subst s'.
  unfold GetByClientEpisodeID in Hrun. rewrite bind_get in Hrun. cbn [snd] in Hrun.
  apply bind_now_at in Hrun as [e1 Hrun]. cbn [fst snd] in Hrun. set (t := clock e) in *.
  pose proof (rows_perm s order Hord) as Hperm. set (rows := omap _ order) in *.
  assert (∀ r0, r0 ∈ rows ↔ ∃ id, es_byID s !! id = Some r0) as Hrows.
  { intros r0. rewrite Hperm, list_elem_of_fmap. split.
    - intros ([id x] & -> & Hx%elem_of_map_to_list). by exists id.
    - intros [id Hx]. exists (id, r0). split; [done|]. by apply elem_of_map_to_list. }
  unfold bind at 1, lift_res in Hrun. rewrite get_loop_spec in Hrun.
  2:{ intros r0 [id Hid]%Hrows Hr0. destruct (readable_id _ _ _ _ _ _ Hok Hid Hr0) as [-> ?]. done. }
  pose proof (rows_NoDup s rows Hok Hperm) as Hnd.
  apply (NoDup_filter (λ r, readable principal cid t r = true)) in Hnd.
  assert (∀ r0, r0 ∈ filter (λ r, readable principal cid t r = true) rows ↔
            readable principal cid t r0 = true ∧ ∃ id, es_byID s !! id = Some r0) as Hf.
  { intros r0. by rewrite list_elem_of_filter, Hrows. }
  assert (∀ id r0, es_byID s !! id = Some r0 → readable principal cid t r0 = true →
            r0 ∈ filter (λ r, readable principal cid t r = true) rows) as Hin.
  { intros id r0 Hid Hr0. apply Hf. eauto. }
  destruct (filter _ rows) as [|x [|y l]].
  - cbn in Hrun. injection Hrun as <- <-. split; [|by right]. intros ep. split; [done|].
    intros (id & rec & Hid & Hr & _). by apply (Hin _ _ Hid), elem_of_nil in Hr.
  - destruct (proj1 (Hf x) ltac:(left)) as [Hx [id Hid]].
    destruct (readable_id _ _ _ _ _ _ Hok Hid Hx) as [Hep Hne].
    change (isEmpty (ep_EpisodeID zero_episode)) with true in Hrun. cbv iota beta in Hrun.
    unfold isEmpty in Hrun. rewrite Hep, bool_decide_false in Hrun by done. injection Hrun as <- <-.
    split; [|by left; eauto]. intros ep. split.
    + intros [= <-]. exists id, x. split_and!; [done..|]. intros id' rec' Hid' Hr'.
      apply (Hin _ _ Hid'), list_elem_of_singleton in Hr' as ->.
      by destruct (eo_record _ Hok _ _ Hid) as [[<- _] _], (eo_record _ Hok _ _ Hid') as [[? _] _].
    + intros (id' & rec' & Hid' & Hr' & -> & _). by apply (Hin _ _ Hid'), list_elem_of_singleton in Hr' as ->.
  - cbn in Hrun. injection Hrun as <- <-. split; [|by right]. intros ep. split; [done|].
    intros (id & rec & Hid & Hr & _ & Huniq). exfalso.
    destruct (proj1 (Hf x) ltac:(left)) as [Hx [ix Hix]].
    destruct (proj1 (Hf y) ltac:(right; left)) as [Hy [iy Hiy]].
    rewrite (Huniq _ _ Hix Hx) in Hix. rewrite (Huniq _ _ Hiy Hy) in Hiy.
    assert (x = y) as -> by congruence. apply NoDup_cons in Hnd as [Hn _]. apply Hn. left.
Qed.
End store.
