(* ===== verification/EpisodeListing.v ===== *)
(** * Listing episodes page by page

    [ListSince] is an incremental read: a consumer passes the position of the
    last row it has seen.  Here the pages are put together again. *)

From Stdlib Require Import ZArith Lia Ascii.
From stdpp Require Import sorting pretty numbers gmap strings list_numbers list relations.
From S2P Require Import Prelude GoStrings GoText Sha256 Grants Episodes EpisodeProofs EpisodeTheorems.
Import Episodes.Episodes.

Open Scope Z_scope.

(** ** The order *)

#[global] Instance listed_before_trans : Transitive listed_before.
Proof.
  intros a b c [H1|[H1 H1']] [H2|[H2 H2']]; unfold listed_before; [left; lia..|right].
  split; [lia|]. by etrans.
Qed.

#[global] Instance listed_before_total : Total listed_before.
Proof.
  intros a b. unfold listed_before.
  destruct (Z.lt_trichotomy (er_updatedAt a) (er_updatedAt b)) as [?|[?|?]]; [auto| |auto].
  destruct (total String.le (ep_EpisodeID (er_episode a)) (ep_EpisodeID (er_episode b))); auto.
Qed.

Lemma listed_before_refl a : listed_before a a.
Proof. right. done. Qed.

Lemma past_spec since after r : past since after r = true ↔
  since < er_updatedAt r
  ∨ er_updatedAt r = since ∧ ¬ String.le (ep_EpisodeID (er_episode r)) after.
Proof.
  unfold past, time_Before. rewrite negb_true_iff, orb_false_iff, andb_false_iff, !bool_decide_eq_false.
  split.
  - intros [H1 [H2|H2]]; [left; lia|]. destruct (decide (er_updatedAt r = since)); [by right|left; lia].
  - intros [H1|[H1 H2]]; (split; [lia|]); [left; lia|by right].
Qed.

(** A record is past the position of another exactly when it is not listed up to
    it. *)
Lemma past_record x r : past (er_updatedAt x) (ep_EpisodeID (er_episode x)) r = true ↔ ¬ listed_before r x.
Proof.
  rewrite past_spec. unfold listed_before. split.
  - intros [H1|[H1 H2]] [?|[? ?]]; try lia; done.
  - intros H. destruct (Z.lt_trichotomy (er_updatedAt x) (er_updatedAt r)) as [?|[?|?]]; [by left|right|].
    + split; [done|]. intros Hle. apply H. by right.
    + destruct H. left. lia.
Qed.

Lemma past_mono since after x r : past since after x = true → ¬ listed_before r x → past since after r = true.
Proof.
  rewrite !past_spec. unfold listed_before. intros Hx Hr.
  destruct (Z.lt_trichotomy since (er_updatedAt r)) as [?|[?|?]]; [by left|right|].
  - split; [done|]. intros Hle. apply Hr. destruct Hx as [?|[? Hx]]; [left; lia|right]. split; [lia|].
    destruct (total String.le (ep_EpisodeID (er_episode x)) after) as [?|Ha]; [done|]. by etrans.
  - exfalso. apply Hr. destruct Hx as [?|[? _]]; left; lia.
Qed.

Section store.
Context `{UnicodeTables} `{FoldTables}.
Implicit Types (s : EpisodeStore).

(** The rows past a position, in order. *)
Definition rows_past (orgID : string) (since : time) (after : string) s : list episodeRecord :=
  merge_sort listed_before (matches orgID since after s).

Lemma elem_of_matches orgID since after s r : r ∈ matches orgID since after s ↔
  er_orgID r = orgID ∧ past since after r = true ∧ ∃ id, es_byID s !! id = Some r.
Proof.
  unfold matches. rewrite list_elem_of_filter, andb_true_iff, bool_decide_eq_true, list_elem_of_fmap.
  split.
  - intros [[? ?] ([id x] & -> & Hx%elem_of_map_to_list)]. eauto.
  - intros (? & ? & id & Hid). split; [done|]. exists (id, r). split; [done|]. by apply elem_of_map_to_list.
Qed.

Lemma matches_NoDup orgID since after s : episodes_ok s → NoDup (matches orgID since after s).
Proof. intros Hok. apply NoDup_filter. by eapply rows_NoDup. Qed.

Lemma rows_past_sorted orgID since after s : StronglySorted listed_before (rows_past orgID since after s).
Proof. apply StronglySorted_merge_sort; apply _. Qed.

Lemma rows_past_perm orgID since after s : rows_past orgID since after s ≡ₚ matches orgID since after s.
Proof. apply merge_sort_Permutation. Qed.

(** Two stored records at one position are one record. *)
Lemma listed_antisym s orgID since after orgID' since' after' x y : episodes_ok s →
  x ∈ matches orgID since after s → y ∈ matches orgID' since' after' s →
  listed_before x y → listed_before y x → x = y.
Proof.
  intros Hok (_ & _ & i & Hi)%elem_of_matches (_ & _ & j & Hj)%elem_of_matches Hxy Hyx.
  destruct (eo_record _ Hok _ _ Hi) as [[Hxi _] _], (eo_record _ Hok _ _ Hj) as [[Hyj _] _].
  assert (i = j) as ->; [|congruence]. rewrite <- Hxi, <- Hyj.
  destruct Hxy as [?|[? ?]], Hyx as [?|[? ?]]; try lia. by apply (anti_symm String.le).
Qed.

(** The rows past a row are those that follow it. *)
Lemma rows_after orgID since after s pre x post : episodes_ok s →
  rows_past orgID since after s = pre ++ x :: post →
  rows_past orgID (er_updatedAt x) (ep_EpisodeID (er_episode x)) s = post.
Proof.
  intros Hok Hrows. pose proof (rows_past_sorted orgID since after s) as Hsort.
  pose proof (rows_past_perm orgID since after s) as Hperm. rewrite Hrows in Hsort, Hperm.
  assert (∀ y, y ∈ pre ++ x :: post → y ∈ matches orgID since after s) as Hin by (intros y; by rewrite Hperm).
  assert (NoDup (pre ++ x :: post)) as Hnd by (rewrite Hperm; by apply matches_NoDup).
  assert (x ∈ matches orgID since after s) as Hx by (apply Hin; set_solver).
  apply StronglySorted_app in Hsort as (Hpre & _ & Hpost).
  apply StronglySorted_cons in Hpost as [Hxpost Hpost].
  assert (∀ y, y ∈ matches orgID (er_updatedAt x) (ep_EpisodeID (er_episode x)) s ↔ y ∈ post) as Helem.
  { intros y. rewrite elem_of_matches, past_record. split.
    - intros (Horg & Hy & id & Hid). apply elem_of_matches in Hx as (_ & Hx & _).
      assert (y ∈ pre ++ x :: post) as Hyin.
      { rewrite Hperm. apply elem_of_matches. split; [done|]. split; [by eapply past_mono|eauto]. }
      apply elem_of_app in Hyin as [Hyin|[->|Hyin]%elem_of_cons]; [|by destruct Hy; apply listed_before_refl|done].
      destruct Hy. apply Hpre; [done|left].
    - intros Hy. assert (y ∈ matches orgID since after s) as Hym by (apply Hin; set_solver).
      pose proof Hym as (? & _ & ?)%elem_of_matches. split_and!; [done| |done]. intros Hyx.
      assert (x = y) as <-.
      { eapply listed_antisym; [done|exact Hx|exact Hym| |done]. rewrite Forall_forall in Hxpost. by apply Hxpost. }
      apply NoDup_app in Hnd as (_ & _ & [Hn _]%NoDup_cons). done. }
  apply (StronglySorted_unique_strong listed_before).
  - intros y1 y2 Hy1 Hy2. rewrite rows_past_perm in Hy1. apply Helem in Hy2.
    by apply (listed_antisym s orgID (er_updatedAt x) (ep_EpisodeID (er_episode x)) orgID (er_updatedAt x)
      (ep_EpisodeID (er_episode x))).
  - apply rows_past_sorted.
  - done.
  - rewrite rows_past_perm. apply NoDup_Permutation; [by apply matches_NoDup| |exact Helem].
    by apply NoDup_app in Hnd as (_ & _ & [_ ?]%NoDup_cons).
Qed.

(** ** Pages *)

Lemma ListSince_eq org since after limit (w : env * EpisodeStore) : strings_TrimSpace org ≠ "" →
  ListSince org since after limit w =
  (let rows := rows_past (strings_TrimSpace org) since after w.2 in
   Ok (projection <$> (if bool_decide (0 <= limit) && bool_decide (limit < Z.of_nat (length rows))
                       then take (Z.to_nat limit) rows else rows)), w).
Proof. intros Horg. unfold ListSince, isEmpty. by rewrite bool_decide_false. Qed.

Lemma ListSince_page org since after limit w : strings_TrimSpace org ≠ "" → 0 < limit →
  ListSince org since after limit w =
  (Ok (projection <$> take (Z.to_nat limit) (rows_past (strings_TrimSpace org) since after w.2)), w).
Proof.
  intros Horg Hl. rewrite ListSince_eq by done. cbv zeta. rewrite bool_decide_true by lia. cbn [andb].
  case_bool_decide; [done|]. rewrite take_ge; [done|]. lia.
Qed.

(** A consumer that reads page after page, from the position of the last row it
    has seen, until a page is empty. *)
Fixpoint drain (fuel : nat) (org : string) (since : time) (after : string) (limit : Z)
    : go EpisodeStore (list EpisodeProjectionRecord) :=
  match fuel with
  | O => ret []
  | S fuel' =>
    let! page := ListSince org since after limit in
    match last page with
    | None => ret []
    | Some row =>
      let! rest := drain fuel' org (pj_UpdatedAt row) (pj_EpisodeID row) limit in
      ret (page ++ rest)
    end
  end.

Lemma drain_rows fuel org since after limit s e : episodes_ok s → strings_TrimSpace org ≠ "" → 0 < limit →
  (length (rows_past (strings_TrimSpace org) since after s) < fuel)%nat →
  drain fuel org since after limit (e, s)
  = (Ok (projection <$> rows_past (strings_TrimSpace org) since after s), (e, s)).
Proof.
  intros Hok Horg Hl. revert since after.
  induction fuel as [|fuel IH]; intros since after Hf; [lia|]. cbn [drain].
  unfold bind. rewrite ListSince_page by done. cbn [snd].
  set (rows := rows_past (strings_TrimSpace org) since after s) in *.
  destruct (Z.to_nat limit) as [|n] eqn:Hn; [lia|].
  destruct (decide (rows = [])) as [Hnil|Hne]; [by rewrite Hnil|].
  destruct (exists_last (l := take (S n) rows)) as (pre & x & Hpage); [by destruct rows|].
  assert (rows = pre ++ x :: drop (S n) rows) as Hrows.
  { rewrite <- (take_drop (S n) rows) at 1. rewrite Hpage, <- app_assoc. done. }
  rewrite Hpage, fmap_app, last_app. cbn [last fmap list_fmap].
  pose proof (rows_after _ _ _ _ _ _ _ Hok Hrows) as Hafter.
  rewrite IH.
  - unfold ret. do 2 f_equal. cbn [projection pj_UpdatedAt pj_EpisodeID]. rewrite Hafter.
    rewrite Hrows at 2. rewrite fmap_app, <- app_assoc. done.
  - cbn [projection pj_UpdatedAt pj_EpisodeID]. rewrite Hafter.
    apply (f_equal length) in Hrows. rewrite length_app in Hrows. cbn in Hrows. lia.
Qed.

(** What a row shows: its text only while the episode is active. *)
Lemma projection_hides r : ep_RedactionState (er_episode r) ≠ AgentEpisodeRedactionActive →
  pj_Goal (projection r) = "" ∧ pj_Summary (projection r) = "" ∧ pj_TaskRef (projection r) = "".
Proof. intros Hr. cbn. by rewrite bool_decide_false. Qed.

(** C40: paging through the listing loses and repeats nothing.  Reading an
    organization's episodes page by page with any positive limit, each page from
    the position of the last row seen, ends after at most one page more than
    there are rows, and the pages put together are every record of the
    organization past the first position, each once, in order of update and id,
    with no text of an episode that is not active. *)
Theorem listing_complete s org since after limit fuel e :
  rtc episode_step NewEpisodeStore s → strings_TrimSpace org ≠ "" → 0 < limit →
  (size (es_byID s) < fuel)%nat →
  ∃ rows, drain fuel org since after limit (e, s) = (Ok (projection <$> rows), (e, s))
    ∧ StronglySorted listed_before rows ∧ NoDup rows
    ∧ (∀ r, r ∈ rows ↔ er_orgID r = strings_TrimSpace org ∧ past since after r = true
                       ∧ ∃ id, es_byID s !! id = Some r)
    ∧ Forall (λ r, ep_RedactionState (er_episode r) ≠ AgentEpisodeRedactionActive →
                   pj_Goal (projection r) = "" ∧ pj_Summary (projection r) = "" ∧ pj_TaskRef (projection r) = "")
        rows.
Proof.
  intros Hs Horg Hl Hf. destruct (episode_steps_keep _ _ Hs new_ok) as [Hok _].
  exists (rows_past (strings_TrimSpace org) since after s). split_and!.
  - apply drain_rows; [done..|]. rewrite rows_past_perm. unfold matches. eapply Nat.le_lt_trans; [|exact Hf].
    etrans; [apply length_filter|]. by rewrite length_fmap, length_map_to_list.
  - apply rows_past_sorted.
  - rewrite rows_past_perm. by apply matches_NoDup.
  - intros r. rewrite rows_past_perm. apply elem_of_matches.
  - apply Forall_forall. intros r _. apply projection_hides.
Qed.

(** A redaction moves its row past every position before its instant, so a
    consumer that has already seen the episode is told. *)
Lemma redaction_listed s principal id e ep e' s' rec :
  es_byID s !! id = Some rec → ep_RedactionState (er_episode rec) = AgentEpisodeRedactionActive →
  Redact principal id (e, s) = (Ok ep, (e', s')) →
  ∃ t, es_byID s' !! id = Some (redacted_record t rec) ∧
    ∀ since after, since < t → redacted_record t rec ∈ matches (er_orgID rec) since after s'.
Proof.
  intros Hid Hact Hrun. apply redact_inv in Hrun as [[? _]|(rec' & t & Hid' & _ & _ & _ & _ & _ & Hs)]; [done|].
  cbn [snd] in *. assert (rec' = rec) as -> by congruence. rewrite bool_decide_true in Hs by done. subst s'.
  exists t. split; [apply lookup_insert_eq|]. intros since after Ht. apply elem_of_matches.
  split; [done|]. split; [apply past_spec; by left|]. exists id. apply lookup_insert_eq.
Qed.
End store.
