(* ===== verification/EpisodeRuns.v ===== *)
(** * A concrete history of the episode store

    One episode is created, repeated, redacted and purged; the theorems of the
    episode store are applied at its states. *)

From Stdlib Require Import ZArith Lia Ascii.
From stdpp Require Import sorting pretty numbers gmap strings list_numbers list relations.
From S2P Require Import Prelude GoStrings GoText Sha256 Grants Episodes EpisodeProofs EpisodeTheorems EpisodeListing.
Import Episodes.Episodes.

Open Scope Z_scope.

(** Tables under which no rune outside ASCII has another case. *)
Definition plain_lower : UnicodeTables := {| unicode_lower_table := λ r, r |}.
Definition plain_fold : FoldTables := {| unicode_fold_table := λ r, r |}.
#[local] Existing Instance plain_lower.
#[local] Existing Instance plain_fold.

Definition day : duration := 24 * Hour.
(** 2025-01-01T00:00:00Z. *)
Definition start : time := 739251 * day.
Definition at_day (n : Z) : env := Env [] [start + n * day].

Definition sample : AgentEpisodeCreate :=
  EpisodeCreate "agent_episode_create.v1" "episode_01" "idempotency_01" "packet_01" "fix the build" "T-1"
    (RepoRef "Owner/Repo" "" "") (EpScope "main" "") (EpClient "acr" "1.0" "1.0" "" "")
    (Zoned start 0) (Zoned (start + Hour) 0) "success" "fixed"
    (EpArtifacts (Some ["main.go"]) (Some []) None) (Transcript_ "none" "" "") "short_30d".
Definition owner : Principal := MkPrincipal "credential" "cred_1" "org_1" "cred_1" ["owner/*"] [] [] "" "" "" false "" [].
Definition random_1 : option (list Z) := Some (replicate 16 171).
Definition id_1 : string := "ep_" +:+ hex_EncodeToString (replicate 16 171).

Definition created := Eval vm_compute in
  CreateIdempotent random_1 owner sample (Some (start + 30 * day)) (at_day 0, NewEpisodeStore).
Definition store_1 : EpisodeStore := Eval vm_compute in created.2.2.
Definition redacted := Eval vm_compute in Redact owner id_1 (at_day 1, store_1).
Definition store_2 : EpisodeStore := Eval vm_compute in redacted.2.2.
Definition record_1 : episodeRecord := Eval vm_compute in record_at id_1 store_1.
Definition retried := Eval vm_compute in CreateIdempotent None owner sample None (at_day 2, store_2).
Definition shown_2 : AgentEpisode := Eval vm_compute in match retried.1 with Ok (ep, _) => ep | _ => zero_episode end.
Definition shown_1 : AgentEpisode := Eval vm_compute in presentation (er_episode record_1).

Lemma step_1 : episode_step NewEpisodeStore store_1.
Proof.
  apply (estep _ (ECreate random_1 owner sample (Some (start + 30 * day))) (at_day 0) (Ok ()) (created.2.1, store_1)).
  - intros id _. apply lookup_empty.
  - vm_compute. reflexivity.
Qed.

Lemma step_2 : episode_step store_1 store_2.
Proof.
  apply (estep _ (ERedact owner id_1) (at_day 1) (Ok ()) (redacted.2.1, store_2)); [exact I|].
  vm_compute. reflexivity.
Qed.

Lemma at_1 : es_byID store_1 !! id_1 = Some record_1.
Proof. vm_compute. reflexivity. Qed.

Lemma reached_1 : rtc episode_step NewEpisodeStore store_1.
Proof. apply rtc_once, step_1. Qed.

Lemma order_1 : [id_1] ≡ₚ (map_to_list (es_byID store_1)).*1.
Proof. vm_compute. reflexivity. Qed.

(** ** The theorems at work *)

Lemma episodes_only_shrink_witness :
  ∃ r', es_byID store_2 !! id_1 = Some r' ∧ record_moves record_1 r' ∧ content_ok r'.
Proof. exact (episodes_only_shrink store_1 store_2 id_1 record_1 reached_1 (rtc_once _ _ step_2) at_1). Defined.

(** A retry of the creation after the redaction gets the redacted episode. *)
Lemma retry_1 :
  CreateIdempotent None owner sample None (at_day 2, store_2) = (Ok (shown_2, true), (retried.2.1, store_2)).
Proof. vm_compute. reflexivity. Qed.

Lemma create_once_witness :
  shown_1 ≠ shown_2 ∧ ∃ id rec, es_byID store_2 !! id = Some rec ∧ shown_2 = presentation (er_episode rec).
Proof.
  split; [vm_compute; discriminate|].
  destruct (create_once NewEpisodeStore random_1 owner sample (Some (start + 30 * day)) (at_day 0) shown_1
              created.2.1 store_1 store_2 (rtc_refl _ _) (λ id _, lookup_empty id)) as (id & _ & _ & Hlater).
  { vm_compute. reflexivity. }
  { exact (rtc_once _ _ step_2). }
  destruct (Hlater _ _ _ _ _ _ _ _ eq_refl retry_1) as (_ & Hok & _).
  destruct (Hok _ _ eq_refl) as (_ & _ & rec & Hrec & Hs).
  exact (ex_intro _ id (ex_intro _ rec (conj Hrec Hs))).
Defined.

Lemma get_exact_witness :
  (GetByClientEpisodeID [id_1] owner "episode_01" (at_day 3, store_1)).1 = Ok shown_1
  ∧ ∃ id rec, es_byID store_1 !! id = Some rec ∧ shown_1 = presentation (er_episode rec).
Proof.
  assert ((GetByClientEpisodeID [id_1] owner "episode_01" (at_day 3, store_1)).1 = Ok shown_1) as Hr
    by (vm_compute; reflexivity).
  split; [exact Hr|].
  destruct (get_exact store_1 [id_1] owner "episode_01" (at_day 3) (Ok shown_1) (at_day 3) store_1
              reached_1 order_1) as (_ & Hget & _).
  { vm_compute. reflexivity. }
  destruct (proj1 (Hget shown_1) eq_refl) as (id & rec & Hid & _ & Hs & _).
  exact (ex_intro _ id (ex_intro _ rec (conj Hid Hs))).
Defined.

Lemma purge_exact_witness :
  ∃ gone : gset string, 1 = Z.of_nat (size gone) ∧ 1 <= 10.
Proof.
  destruct (purge_exact store_1 [id_1] owner (start + 31 * day) 10 (at_day 32) 1 (at_day 32)
    (PurgeExpiredForPrincipal [id_1] owner (start + 31 * day) 10 (at_day 32, store_1)).2.2 order_1)
    as (gone & Hn & Hl & _).
  - lia.
  - vm_compute. reflexivity.
  - exact (ex_intro _ gone (conj Hn Hl)).
Defined.

Lemma listing_complete_witness :
  ∃ rows, drain 2 "org_1" 0 "" 1 (at_day 3, store_2) = (Ok (projection <$> rows), (at_day 3, store_2))
    ∧ NoDup rows.
Proof.
  destruct (listing_complete store_2 "org_1" 0 "" 1 2 (at_day 3)) as (rows & Hd & _ & Hnd & _).
  - eapply rtc_l; [exact step_1|]. apply rtc_once, step_2.
  - vm_compute. discriminate.
  - lia.
  - vm_compute. lia.
  - exact (ex_intro _ rows (conj Hd Hnd)).
Defined.
