(* ===== verification/Submissions.v ===== *)
(** * Submissions: the records of Ask Dev runs

    internal/contextfabric/submission.go, submission_limits.go, thread.go,
    run_lease.go, retention.go, result_feedback.go and the grant digests of
    stored_result_authorization.go and reuse_grant_scope.go; the thread
    retention and feedback vocabularies of internal/contracts/v1.  The data of a
    submission, of its thread and of its run, who owns them, and the rules that
    need no store. *)

From Stdlib Require Import ZArith Lia Ascii.
From stdpp Require Import sorting pretty numbers gmap strings list_numbers list.
From S2P Require Import Prelude GoStrings Regexp GoText Sha256 CredTypes Grants Validation.

Open Scope Z_scope.

(** ** Owners *)

Definition SubmissionOwnerSurface : Type := string.
Definition SubmissionSurfaceBrowser : SubmissionOwnerSurface := "browser".
Definition SubmissionSurfaceMCP : SubmissionOwnerSurface := "mcp".

Record SubmissionOwner := Owner {
  so_AuthenticationMethod : string;
  so_Subject : string;
  so_UserID : string;
  so_Surface : SubmissionOwnerSurface;
}.
#[global] Instance SubmissionOwner_eq_dec : EqDecision SubmissionOwner.
Proof. solve_decision. Defined.
(** The keys of the maps encode as lists of their strings. *)
#[global] Instance SubmissionOwner_countable : Countable SubmissionOwner.
Proof.
  apply (inj_countable (λ o, [so_AuthenticationMethod o; so_Subject o; so_UserID o; so_Surface o])
    (λ l, match l with [a; b; c; d] => Some (Owner a b c d) | _ => None end)); by intros [].
Defined.

(** [canonicalSubmissionOwner] *)
Definition canonicalSubmissionOwner (principal : Principal) : string * SubmissionOwnerSurface :=
  if bool_decide (pr_AuthenticationMethod principal = AuthenticationMethodWebAssertion) then
    if isEmpty (pr_Subject principal) then ("", "") else (pr_Subject principal, SubmissionSurfaceBrowser)
  else if bool_decide (pr_AuthenticationMethod principal = AuthenticationMethodCredential) then
    if isEmpty (pr_ApprovingUserID principal) then ("", "")
    else if bool_decide (pr_ClientClass principal = ClientClassBrowser)
    then (pr_ApprovingUserID principal, SubmissionSurfaceBrowser)
    else if bool_decide (pr_ClientClass principal = ClientClassOAuthUser)
            || bool_decide (pr_ClientClass principal = ClientClassNativeDevice)
    then (pr_ApprovingUserID principal, SubmissionSurfaceMCP)
    else ("", "")
  else ("", "").

Definition SubmissionOwnerOf (principal : Principal) : res SubmissionOwner :=
  let '(method, subject) := AuditActor principal in
  reject! isEmpty subject with ErrSubmissionOwnerUnknown ;;
  let '(userID, surface) := canonicalSubmissionOwner principal in
  Ok (Owner method subject userID surface).

Definition SameSubmissionOwner (a b : SubmissionOwner) : bool :=
  (negb (isEmpty (so_Subject a)) && bool_decide (so_AuthenticationMethod a = so_AuthenticationMethod b)
   && bool_decide (so_Subject a = so_Subject b))
  || (negb (isEmpty (so_UserID a)) && bool_decide (so_UserID a = so_UserID b)
      && negb (isEmpty (so_Surface a)) && bool_decide (so_Surface a = so_Surface b)).

(** [SubmissionOwner.Is] *)
Definition Is (o : SubmissionOwner) (principal : Principal) : bool :=
  match SubmissionOwnerOf principal with
  | Ok other => SameSubmissionOwner o other
  | _ => false
  end.

Definition SubmissionOwnerMatchOf (stored request : SubmissionOwner) : string :=
  if negb (isEmpty (so_Subject stored))
     && bool_decide (so_AuthenticationMethod stored = so_AuthenticationMethod request)
     && bool_decide (so_Subject stored = so_Subject request) then "legacy"
  else if SameSubmissionOwner stored request then "canonical"
  else "none".

(** ** Submissions *)

Inductive SubmissionState := SubmissionRunning | SubmissionDone | SubmissionDoneUnsaved | SubmissionAbandoned.
#[global] Instance SubmissionState_eq_dec : EqDecision SubmissionState.
Proof. solve_decision. Defined.

Definition SubmissionAbandonGrace : duration := 30 * Second.

Record SubmissionKey := SubKey { sk_OrgID : string; sk_Owner : SubmissionOwner; sk_SubmissionID : string }.
#[global] Instance SubmissionKey_eq_dec : EqDecision SubmissionKey.
Proof. solve_decision. Defined.
#[global] Instance SubmissionKey_countable : Countable SubmissionKey.
Proof.
  apply (inj_countable (λ k, [sk_OrgID k; so_AuthenticationMethod (sk_Owner k); so_Subject (sk_Owner k);
      so_UserID (sk_Owner k); so_Surface (sk_Owner k); sk_SubmissionID k])
    (λ l, match l with [o; a; b; c; d; i] => Some (SubKey o (Owner a b c d) i) | _ => None end)); by intros [? []].
Defined.

Definition SubmissionKeyFor (principal : Principal) (submissionID : string) : res SubmissionKey :=
  let? owner := SubmissionOwnerOf principal in
  Ok (SubKey (pr_OrgID principal) owner submissionID).

(** internal/contracts/v1/context_fabric_investigation_event.go *)
Definition contextFabricClientCorrelationIDPattern : re := Times (Class id_char) 8 128.
Definition ValidContextFabricClientCorrelationID (value : string) : bool :=
  re_match contextFabricClientCorrelationIDPattern value.
Definition ValidSubmissionID (id : string) : bool := ValidContextFabricClientCorrelationID id.

(** Why a thread refuses a turn; empty when it does not. *)
Definition ThreadClosedReason : Type := string.
Definition ThreadClosedDeleted : ThreadClosedReason := "deleted".
Definition ThreadClosedExpired : ThreadClosedReason := "expired".
Definition ThreadClosedFull : ThreadClosedReason := "full".

Record SubmissionRecord := SubRecord {
  sr_Key : SubmissionKey;
  sr_RequestDigest : string;
  sr_ReservedResultID : string;
  sr_State : SubmissionState;
  sr_ResultID : string;
  sr_ThreadID : string;
  sr_AdmittedAt : time;
  sr_UpdatedAt : time;
  sr_ExpiresAt : time;
  sr_Question : string;
  sr_ThreadClosed : ThreadClosedReason;
  sr_ThreadOwner : SubmissionOwner;
  sr_LeaseHolder : string;
  sr_LeaseExpiresAt : time;
  sr_RunRequestID : string;
  sr_CancelRequestedAt : time;
}.

Definition Leased (r : SubmissionRecord) : bool := negb (isEmpty (sr_LeaseHolder r)).

Section setters.
Implicit Types r : SubmissionRecord.

Definition sr_set_outcome (state : SubmissionState) (resultID : string) (at_ : time) r : SubmissionRecord :=
  SubRecord (sr_Key r) (sr_RequestDigest r) (sr_ReservedResultID r) state resultID (sr_ThreadID r) (sr_AdmittedAt r)
    at_ (sr_ExpiresAt r) (sr_Question r) (sr_ThreadClosed r) (sr_ThreadOwner r) (sr_LeaseHolder r)
    (sr_LeaseExpiresAt r) (sr_RunRequestID r) (sr_CancelRequestedAt r).
Definition sr_set_ThreadClosed (x : ThreadClosedReason) r : SubmissionRecord :=
  SubRecord (sr_Key r) (sr_RequestDigest r) (sr_ReservedResultID r) (sr_State r) (sr_ResultID r) (sr_ThreadID r)
    (sr_AdmittedAt r) (sr_UpdatedAt r) (sr_ExpiresAt r) (sr_Question r) x (sr_ThreadOwner r) (sr_LeaseHolder r)
    (sr_LeaseExpiresAt r) (sr_RunRequestID r) (sr_CancelRequestedAt r).
Definition sr_set_Question (x : string) r : SubmissionRecord :=
  SubRecord (sr_Key r) (sr_RequestDigest r) (sr_ReservedResultID r) (sr_State r) (sr_ResultID r) (sr_ThreadID r)
    (sr_AdmittedAt r) (sr_UpdatedAt r) (sr_ExpiresAt r) x (sr_ThreadClosed r) (sr_ThreadOwner r) (sr_LeaseHolder r)
    (sr_LeaseExpiresAt r) (sr_RunRequestID r) (sr_CancelRequestedAt r).
Definition sr_set_Reserved (x : string) r : SubmissionRecord :=
  SubRecord (sr_Key r) (sr_RequestDigest r) x (sr_State r) (sr_ResultID r) (sr_ThreadID r)
    (sr_AdmittedAt r) (sr_UpdatedAt r) (sr_ExpiresAt r) (sr_Question r) (sr_ThreadClosed r) (sr_ThreadOwner r)
    (sr_LeaseHolder r) (sr_LeaseExpiresAt r) (sr_RunRequestID r) (sr_CancelRequestedAt r).
Definition sr_set_Lease (holder : string) (expiresAt : time) r : SubmissionRecord :=
  SubRecord (sr_Key r) (sr_RequestDigest r) (sr_ReservedResultID r) (sr_State r) (sr_ResultID r) (sr_ThreadID r)
    (sr_AdmittedAt r) (sr_UpdatedAt r) (sr_ExpiresAt r) (sr_Question r) (sr_ThreadClosed r) (sr_ThreadOwner r)
    holder expiresAt (sr_RunRequestID r) (sr_CancelRequestedAt r).
Definition sr_set_Cancel (x : time) r : SubmissionRecord :=
  SubRecord (sr_Key r) (sr_RequestDigest r) (sr_ReservedResultID r) (sr_State r) (sr_ResultID r) (sr_ThreadID r)
    (sr_AdmittedAt r) (sr_UpdatedAt r) (sr_ExpiresAt r) (sr_Question r) (sr_ThreadClosed r) (sr_ThreadOwner r)
    (sr_LeaseHolder r) (sr_LeaseExpiresAt r) (sr_RunRequestID r) x.
End setters.

Definition SubmissionCompletionAlreadyFinal : string := "already_final".
Definition SubmissionCompletionServedStored : string := "served_stored".
Definition SubmissionCompletionServedUnsaved : string := "served_unsaved".
Definition SubmissionCompletionNotRunning : string := "not_running".

Record SubmissionSweep := Sweep { sw_Completed : Z; sw_Abandoned : Z }.

(** ** Limits (submission_limits.go) *)

Definition DefaultMaxRunningPerPrincipal : Z := 2.
Definition DefaultMaxRunningPerOrg : Z := 4.
Definition DefaultMonthlyPlatformRunAllowance : Z := 1000.
Definition MaxMonthlyPlatformRunAllowance : Z := 5000.
Definition MaxRunningPerPrincipalLimit : Z := 16.
Definition MaxRunningPerOrgLimit : Z := 64.

Record SubmissionLimits := SubLimits {
  sl_MaxRunningPerPrincipal : Z;
  sl_MaxRunningPerOrg : Z;
  sl_MonthlyPlatformRunAllowance : Z;
}.

Definition or_limit (value fallback : Z) : Z := if value <=? 0 then fallback else value.

Definition Effective (l : SubmissionLimits) : SubmissionLimits :=
  SubLimits (or_limit (sl_MaxRunningPerPrincipal l) DefaultMaxRunningPerPrincipal)
    (or_limit (sl_MaxRunningPerOrg l) DefaultMaxRunningPerOrg)
    (or_limit (sl_MonthlyPlatformRunAllowance l) DefaultMonthlyPlatformRunAllowance).

Definition SubmissionLimits_Validate (l : SubmissionLimits) : res () :=
  let e := Effective l in
  reject! MaxRunningPerPrincipalLimit <? sl_MaxRunningPerPrincipal e with ErrText "running runs per principal" ;;
  reject! MaxRunningPerOrgLimit <? sl_MaxRunningPerOrg e with ErrText "running runs per organization" ;;
  reject! sl_MaxRunningPerOrg e <? sl_MaxRunningPerPrincipal e with ErrText "running runs per organization" ;;
  reject! MaxMonthlyPlatformRunAllowance <? sl_MonthlyPlatformRunAllowance e with ErrText "monthly platform run allowance" ;;
  Ok ().

Definition SubmissionRefusedPrincipalConcurrency : string := "principal".
Definition SubmissionRefusedOrgConcurrency : string := "org".
Definition SubmissionRefusedAllowanceExhausted : string := "allowance_exhausted".
Definition SubmissionConcurrencyRetryAfter : duration := 3 * Second.

(** The first day of the month of an instant: it is the d-th day of it. *)
Definition UsageMonth (now : time) : time :=
  let day := now / ns_per_day in
  let '(_, _, d) := civil_of_days day in
  (day - (d - 1)) * ns_per_day.

(** [AddDate(0, 1, 0)] of a first day: 31 days on it is the next month. *)
Definition AllowanceRetryAfter (now : time) : duration :=
  time_Sub (UsageMonth (UsageMonth now + 31 * ns_per_day)) now.

(** ** Threads (thread.go, contracts/v1/context_fabric_thread.go) *)

Definition ContextFabricThreadMaxTurnCount : Z := 1000000.

Definition ContextFabricThreadRetentionDays : Type := Z.
Definition ContextFabricThreadRetentionDay : ContextFabricThreadRetentionDays := 0.
Definition ContextFabricThreadRetentionMonth : ContextFabricThreadRetentionDays := 30.
Definition ContextFabricThreadDefaultRetention : ContextFabricThreadRetentionDays := ContextFabricThreadRetentionDay.
Definition ContextFabricThreadRetentionVocabulary : list ContextFabricThreadRetentionDays :=
  [ContextFabricThreadRetentionDay; ContextFabricThreadRetentionMonth].

Definition retention_Valid (r : ContextFabricThreadRetentionDays) : bool :=
  bool_decide (r ∈ ContextFabricThreadRetentionVocabulary).

Definition Window (r : ContextFabricThreadRetentionDays) : duration :=
  if bool_decide (r = ContextFabricThreadRetentionDay) then 24 * Hour
  else if bool_decide (r = ContextFabricThreadRetentionMonth) then 30 * 24 * Hour
  else 0.

Definition ParseContextFabricThreadRetention (value : string) : res ContextFabricThreadRetentionDays :=
  if bool_decide (value = "0") then Ok ContextFabricThreadRetentionDay
  else if bool_decide (value = "30") then Ok ContextFabricThreadRetentionMonth
  else Err (ErrText "thread retention must be exactly 0 or 30").

Definition ContextFabricThreadExpiresAt (lastTurnAt : time) (retention : ContextFabricThreadRetentionDays) : time :=
  time_Add lastTurnAt (Window retention).

Definition UnthreadedRecordRetention : ContextFabricThreadRetentionDays := ContextFabricThreadRetentionDay.
Definition UnthreadedRecordExpiresAt (admittedAt : time) : time :=
  ContextFabricThreadExpiresAt admittedAt UnthreadedRecordRetention.

Record ThreadKey := ThrKey { tk_OrgID : string; tk_Owner : SubmissionOwner; tk_ThreadID : string }.

Definition ThreadKeyFor (principal : Principal) (threadID : string) : res ThreadKey :=
  let? owner := SubmissionOwnerOf principal in
  Ok (ThrKey (pr_OrgID principal) owner threadID).

Record ThreadTurnCursor := TurnCursor { tc_AdmittedAt : time; tc_SubmissionID : string }.
#[global] Instance ThreadTurnCursor_eq_dec : EqDecision ThreadTurnCursor.
Proof. solve_decision. Defined.

Record ThreadRecord := Thread {
  th_Key : ThreadKey;
  th_CreatedAt : time;
  th_LastTurnAt : time;
  th_TurnCount : Z;
  th_RetentionDays : ContextFabricThreadRetentionDays;
  th_ExpiresAt : time;
  th_ClosedAt : option time;
  th_RetentionSetBy : option ThreadTurnCursor;
  th_FirstQuestion : string;
}.

(** [ThreadRecord.Closed] *)
Definition Closed (r : ThreadRecord) (now : time) : bool :=
  bool_decide (is_Some (th_ClosedAt r)) || negb (time_Before now (th_ExpiresAt r)).

Definition ClosedReason (r : ThreadRecord) (now : time) : ThreadClosedReason :=
  if bool_decide (is_Some (th_ClosedAt r)) then ThreadClosedDeleted
  else if negb (time_Before now (th_ExpiresAt r)) then ThreadClosedExpired
  else if ContextFabricThreadMaxTurnCount <=? th_TurnCount r then ThreadClosedFull
  else "".

Definition string_Less (a b : string) : bool := negb (bool_decide (String.le b a)).

(** [ThreadTurnCursor.Before] *)
Definition turn_Before (a b : ThreadTurnCursor) : bool :=
  if negb (bool_decide (tc_AdmittedAt a = tc_AdmittedAt b)) then time_Before (tc_AdmittedAt a) (tc_AdmittedAt b)
  else string_Less (tc_SubmissionID a) (tc_SubmissionID b).

Definition AdvanceThread (thread : option ThreadRecord) (key : ThreadKey) (turn : ThreadTurnCursor)
    (retention : option ContextFabricThreadRetentionDays) : ThreadRecord :=
  let at_ := tc_AdmittedAt turn in
  let next :=
    match thread with
    | None => Thread key at_ at_ 0 ContextFabricThreadDefaultRetention 0 None None ""
    | Some t =>
      Thread (th_Key t) (if time_Before at_ (th_CreatedAt t) then at_ else th_CreatedAt t)
        (if time_After at_ (th_LastTurnAt t) then at_ else th_LastTurnAt t) (th_TurnCount t) (th_RetentionDays t)
        (th_ExpiresAt t) (th_ClosedAt t) (th_RetentionSetBy t) (th_FirstQuestion t)
    end in
  let '(days, setBy) :=
    match retention with
    | Some r =>
      if match th_RetentionSetBy next with None => true | Some by_ => negb (turn_Before turn by_) end
      then (r, Some turn) else (th_RetentionDays next, th_RetentionSetBy next)
    | None => (th_RetentionDays next, th_RetentionSetBy next)
    end in
  Thread (th_Key next) (th_CreatedAt next) (th_LastTurnAt next) (th_TurnCount next + 1) days
    (ContextFabricThreadExpiresAt (th_LastTurnAt next) days) (th_ClosedAt next) setBy (th_FirstQuestion next).

Record ThreadTurn := Turn {
  tt_SubmissionID : string;
  tt_State : SubmissionState;
  tt_ResultID : string;
  tt_Question : string;
  tt_AdmittedAt : time;
  tt_UpdatedAt : time;
}.

Record ThreadListCursor := ListCursor { lc_LastTurnAt : time; lc_ThreadID : string }.

Record ThreadPage := TPage { tp_Thread : ThreadRecord; tp_Turns : list ThreadTurn; tp_EarlierTurns : bool }.

(** ** Runs (run_lease.go) *)

Definition RunEventLogMaxEvents : Z := 128.

Record RunLeaseGrant := LeaseGrant { lg_Holder : string; lg_ExpiresAt : time; lg_RequestID : string }.

(** [RunLeaseGrant.Valid] *)
Definition lease_Valid (g : RunLeaseGrant) : bool :=
  (1 <=? slen (lg_Holder g)) && (slen (lg_Holder g) <=? 200) && (1 <=? slen (lg_RequestID g))
  && (slen (lg_RequestID g) <=? 128) && negb (time_IsZero (lg_ExpiresAt g)).

Record RunKey := RKey { rk_OrgID : string; rk_ReservedResultID : string }.
#[global] Instance RunKey_eq_dec : EqDecision RunKey.
Proof. solve_decision. Defined.
#[global] Instance RunKey_countable : Countable RunKey.
Proof.
  apply (inj_countable (λ k, [rk_OrgID k; rk_ReservedResultID k])
    (λ l, match l with [a; b] => Some (RKey a b) | _ => None end)); by intros [].
Defined.

Definition RunKeyOf (record : SubmissionRecord) : RunKey :=
  RKey (sk_OrgID (sr_Key record)) (sr_ReservedResultID record).

(** The envelope of an error, without its schema version and details. *)
Record ErrorEnvelope := Envelope {
  ee_RequestID : string;
  ee_Code : string;
  ee_Message : string;
  ee_HTTPStatus : Z;
  ee_Retryable : bool;
}.

Definition RunTerminalResult : string := "result".
Definition RunTerminalUnsaved : string := "unsaved".
Definition RunTerminalError : string := "error".

Record RunTerminal := RTerminal { rt_Kind : string; rt_ResultID : string; rt_Error : option ErrorEnvelope }.

Record RunEvent := REvent {
  re_Seq : Z;
  re_Type : string;
  re_LastStageStarted : string;
  re_Data : string;
  re_Terminal : option RunTerminal;
  re_WrittenAt : time;
}.

Record RunEventPage := EPage {
  ep_Events : list RunEvent;
  ep_FirstSeq : Z;
  ep_LastSeq : Z;
  ep_TerminalSeq : Z;
  ep_LastStageStarted : string;
  ep_Record : SubmissionRecord;
}.

Record RunLeaseCheck := LeaseCheck {
  rc_Found : bool;
  rc_State : option SubmissionState;
  rc_Holder : string;
  rc_Renewed : bool;
  rc_CancelRequestedAt : time;
}.

Definition Held (holder : string) (c : RunLeaseCheck) : bool :=
  rc_Found c && bool_decide (rc_State c = Some SubmissionRunning) && negb (isEmpty (rc_Holder c))
  && bool_decide (rc_Holder c = holder).

Record LostRun := Lost {
  lr_Run : RunKey;
  lr_RequestID : string;
  lr_TerminalSeq : Z;
  lr_PreviousHolder : string;
  lr_LeaseExpiredAt : time;
  lr_TerminalAppended : bool;
}.

(** ** Admission *)

Record SubmissionAdmission := Admission {
  sa_Key : SubmissionKey;
  sa_RequestDigest : string;
  sa_ReservedResultID : string;
  sa_ThreadID : string;
  sa_ExpiresAt : time;
  sa_Question : string;
  sa_ThreadRetention : option ContextFabricThreadRetentionDays;
  sa_Limits : SubmissionLimits;
  sa_PlatformRun : bool;
  sa_Lease : option RunLeaseGrant;
}.

(** ** Feedback (result_feedback.go, contracts/v1/context_fabric_result_feedback.go) *)

Definition ContextFabricResultFeedbackYes : string := "yes".
Definition ContextFabricResultFeedbackNo : string := "no".
Definition ContextFabricResultFeedbackUnset : string := "unset".
Definition feedback_Valid (v : string) : bool :=
  bool_decide (v ∈ [ContextFabricResultFeedbackYes; ContextFabricResultFeedbackNo; ContextFabricResultFeedbackUnset]).

Record ResultFeedback := Feedback { rf_Correct : string; rf_Useful : string; rf_UpdatedAt : time }.
Definition UnsetResultFeedback : ResultFeedback :=
  Feedback ContextFabricResultFeedbackUnset ContextFabricResultFeedbackUnset 0.

(** ** Retention (retention.go) *)

Definition RetentionSaveWindow : duration := Hour.
Definition RetentionSweepBatch : Z := 500.

Record RetentionSweep := RSweep {
  rs_ThreadsRemoved : Z;
  rs_ThreadsErased : Z;
  rs_RecordsRemoved : Z;
  rs_ResultsRemoved : Z;
  rs_Fenced : Z;
}.

Definition RetentionFenced (record : SubmissionRecord) (now : time) : bool :=
  match sr_State record with
  | SubmissionRunning | SubmissionAbandoned => time_Before now (time_Add (sr_ExpiresAt record) RetentionSaveWindow)
  | _ => false
  end.

Definition ErasedReservedResultIDPrefix : string := "erased_".
Definition ErasedReservedResultID (reserved : string) : string := ErasedReservedResultIDPrefix +:+ sha256_hex reserved.
Definition IsErasedReservedResultID (id : string) : bool := strings_HasPrefix id ErasedReservedResultIDPrefix.

(** ** Grants of stored results *)

Definition NUL_byte : string := of_chars ["000"%char].

(** The digests keep 128 bits of the sum. *)
Definition short_hex (s : string) : string := slice_upto (sha256_hex s) 32.

Fixpoint dedup_loop (seen : gset string) (l : list string) : list string :=
  match l with
  | [] => []
  | x :: l' => if bool_decide (x ∈ seen) then dedup_loop seen l' else x :: dedup_loop ({[x]} ∪ seen) l'
  end.

Definition reuseGrantDigest (scopes : list string) : string :=
  short_hex (strings_Join (sort_Strings (dedup_loop ∅ (strings_TrimSpace <$> scopes))) NUL_byte).

Definition projectGrantDigestDomain : string := "acr.project-grant.v1".

Definition projectGrantDigest (projects : list string) : string :=
  short_hex (foldl (λ framed project,
    framed +:+ "|" +:+ strconv_Itoa (slen project) +:+ ":" +:+ project) projectGrantDigestDomain
    (sort_Strings (dedup_loop ∅ projects))).

Definition storedResultOpenGrantDigest : string := "open".

Definition storedResultScopeRestricted (class : GrantClass) : bool :=
  negb (bool_decide (class = GrantUnrestricted) || bool_decide (class = GrantUniversal)).

Definition StoredResultGrantDigest (principal : Principal) : string :=
  if bool_decide (ClassifyGrant principal = GrantProjectOnly) then "p:" +:+ projectGrantDigest (pr_ProjectScopes principal)
  else if negb (storedResultScopeRestricted (ClassifyGrant principal)) then storedResultOpenGrantDigest
  else "g:" +:+ reuseGrantDigest (pr_RepositoryScopes principal).
