(* ===== verification/InvestigationStore.v ===== *)
(** * InvestigationStore: results, submissions, threads and runs of Ask Dev

    internal/contextfabric/memoryinvestigation: store.go, submissions.go,
    threads.go, runs.go, feedback.go and retention.go.  The mutex makes an
    operation one step; [RequestRunCancel] takes it three times, and what others
    do in between is an argument.  [now] is the caller's clock where the method
    takes one, and a reading of the store's own where it does not.

    A stored result is its JSON text.  The class [InvestigationLib] stands for
    what the store asks of the result and of its semantic snapshot, whose rules
    are other parts of the program: the validations, the encodings and the
    closure of evidence references; [InvestigationResult] keeps the fields the
    store reads itself.  Where a range over the records can show its order (two
    records of one owner, equal positions), the order is an argument. *)

From Stdlib Require Import ZArith Lia Ascii.
From stdpp Require Import sorting pretty numbers gmap strings list_numbers list.
From S2P Require Import Prelude GoStrings GoText Sha256 Grants Submissions.

Open Scope Z_scope.

(** ** Results *)

Record ConfirmedStructureEntry := Confirmed {
  ce_Member : string;
  ce_Disposition : string;
  ce_Source : string;
  ce_PriorResultID : string;
}.

Record InvestigationResult (Content : Type) := Result {
  ir_ResultID : string;
  ir_GeneratedAt : time;
  ir_SynthesisSource : string;
  ir_SynthesisVersion : string;
  ir_ConfirmedStructure : list ConfirmedStructureEntry;
  ir_Content : Content;
}.
Arguments Result {_} _ _ _ _ _ _.
Arguments ir_ResultID {_} _.
Arguments ir_GeneratedAt {_} _.
Arguments ir_SynthesisSource {_} _.
Arguments ir_SynthesisVersion {_} _.
Arguments ir_ConfirmedStructure {_} _.
Arguments ir_Content {_} _.

Definition SemanticStateReadAvailable : string := "available".
Definition SemanticStateReadAbsent : string := "absent".

Class InvestigationLib := {
  Content : Type;
  SemanticState : Type;
  SemanticStateWrite : Type;
  ValidateResult : InvestigationResult Content → bool;
  ValidateStoredResult : InvestigationResult Content → bool;
  json_Marshal : InvestigationResult Content → option string;
  json_Unmarshal : string → option (InvestigationResult Content);
  (** The raw text of [coverage.degraded_reasons], empty when absent; [None] when
      the payload does not decode. *)
  json_degraded_reasons : string → option string;
  evidence_ref_closure : InvestigationResult Content → list string;
  semantic_State : SemanticStateWrite → option SemanticState;
  EncodedColumn : SemanticStateWrite → option (option string);
  DecodeSemanticState : option string → option SemanticState * string;
  SemanticStatesEqual : option SemanticState → option SemanticState → bool;
}.

Record entry := Entry {
  en_orgID : string;
  en_payload : string;
  en_parentResultID : string;
  en_grantDigest : string;
  en_semanticState : option string;
  en_owner : option SubmissionOwner;
}.

Record threadRowKey := RowKey {
  tr_orgID : string;
  tr_method : string;
  tr_subject : string;
  tr_threadID : string;
}.
#[global] Instance threadRowKey_eq_dec : EqDecision threadRowKey.
Proof. solve_decision. Defined.
#[global] Instance threadRowKey_countable : Countable threadRowKey.
Proof.
  apply (inj_countable (λ k, [tr_orgID k; tr_method k; tr_subject k; tr_threadID k])
    (λ l, match l with [a; b; c; d] => Some (RowKey a b c d) | _ => None end)); by intros [].
Defined.

(** ** State *)

Abbreviation claims_map := (gmap (string * string * string) string).

Record Store := InvStore {
  st_results : gmap string entry;
  st_claims : claims_map;
  st_submissions : gmap SubmissionKey SubmissionRecord;
  st_reserved : gmap (string * string) SubmissionKey;
  st_usage : gmap (string * time) Z;
  st_threads : gmap threadRowKey ThreadRecord;
  st_runEvents : gmap RunKey (list RunEvent);
  st_feedback : gmap string ResultFeedback;
  st_unthreadedRetention : bool;
}.

(** [NewStore], with the option [WithUnthreadedRecordRetention]. *)
Definition NewStore (unthreadedRetention : bool) : Store := InvStore ∅ ∅ ∅ ∅ ∅ ∅ ∅ ∅ unthreadedRetention.

Section setters.
Implicit Types s : Store.
Definition st_set_results x s := InvStore x (st_claims s) (st_submissions s) (st_reserved s) (st_usage s) (st_threads s) (st_runEvents s) (st_feedback s) (st_unthreadedRetention s).
Definition st_set_claims x s := InvStore (st_results s) x (st_submissions s) (st_reserved s) (st_usage s) (st_threads s) (st_runEvents s) (st_feedback s) (st_unthreadedRetention s).
Definition st_set_submissions x s := InvStore (st_results s) (st_claims s) x (st_reserved s) (st_usage s) (st_threads s) (st_runEvents s) (st_feedback s) (st_unthreadedRetention s).
Definition st_set_reserved x s := InvStore (st_results s) (st_claims s) (st_submissions s) x (st_usage s) (st_threads s) (st_runEvents s) (st_feedback s) (st_unthreadedRetention s).
Definition st_set_usage x s := InvStore (st_results s) (st_claims s) (st_submissions s) (st_reserved s) x (st_threads s) (st_runEvents s) (st_feedback s) (st_unthreadedRetention s).
Definition st_set_threads x s := InvStore (st_results s) (st_claims s) (st_submissions s) (st_reserved s) (st_usage s) x (st_runEvents s) (st_feedback s) (st_unthreadedRetention s).
Definition st_set_runEvents x s := InvStore (st_results s) (st_claims s) (st_submissions s) (st_reserved s) (st_usage s) (st_threads s) x (st_feedback s) (st_unthreadedRetention s).
Definition st_set_feedback x s := InvStore (st_results s) (st_claims s) (st_submissions s) (st_reserved s) (st_usage s) (st_threads s) (st_runEvents s) x (st_unthreadedRetention s).
End setters.

Definition set_submission (key : SubmissionKey) (record : SubmissionRecord) (s : Store) : Store :=
  st_set_submissions (<[key := record]> (st_submissions s)) s.

(** A range over the records, in some order. *)
Definition ranged (order : list SubmissionKey) (s : Store) : list (SubmissionKey * SubmissionRecord) :=
  omap (λ k, (k,.) <$> st_submissions s !! k) order.

(** ** Threads, under the lock (threads.go) *)

Definition rowKeyOf (key : ThreadKey) : threadRowKey :=
  RowKey (tk_OrgID key) (so_AuthenticationMethod (tk_Owner key)) (so_Subject (tk_Owner key)) (tk_ThreadID key).

Definition threadRowPreferred (a b : ThreadRecord) (owner : SubmissionOwner) : bool :=
  let oa := tk_Owner (th_Key a) in
  let ob := tk_Owner (th_Key b) in
  let same o := bool_decide (so_AuthenticationMethod o = so_AuthenticationMethod owner)
                && bool_decide (so_Subject o = so_Subject owner) in
  if negb (bool_decide (same oa = same ob)) then same oa
  else if negb (bool_decide (th_CreatedAt a = th_CreatedAt b)) then time_Before (th_CreatedAt a) (th_CreatedAt b)
  else if negb (bool_decide (so_AuthenticationMethod oa = so_AuthenticationMethod ob))
  then string_Less (so_AuthenticationMethod oa) (so_AuthenticationMethod ob)
  else string_Less (so_Subject oa) (so_Subject ob).

(** The preferred row of a list. *)
Definition better (owner : SubmissionOwner) (best : option ThreadRecord) (thread : ThreadRecord) : option ThreadRecord :=
  match best with
  | None => Some thread
  | Some b => if threadRowPreferred thread b owner then Some thread else Some b
  end.

Definition reaches (orgID : string) (owner : SubmissionOwner) (kv : threadRowKey * ThreadRecord) : bool :=
  bool_decide (tr_orgID kv.1 = orgID) && SameSubmissionOwner (tk_Owner (th_Key kv.2)) owner.

Definition findThreadLocked (orgID : string) (owner : SubmissionOwner) (threadID : string) (s : Store)
    : option ThreadRecord :=
  foldl (better owner) None
    (snd <$> filter (λ kv, reaches orgID owner kv && bool_decide (tr_threadID kv.1 = threadID) = true)
      (map_to_list (st_threads s))).

Definition recordThreadRow (key : SubmissionKey) (record : SubmissionRecord) : threadRowKey :=
  let owner := if isEmpty (so_Subject (sr_ThreadOwner record)) then sk_Owner key else sr_ThreadOwner record in
  RowKey (sk_OrgID key) (so_AuthenticationMethod owner) (so_Subject owner) (sr_ThreadID record).

Definition threadClosedLocked (record : SubmissionRecord) (now : time) (s : Store) : ThreadClosedReason :=
  if isEmpty (sr_ThreadID record) then
    if st_unthreadedRetention s && negb (time_Before now (UnthreadedRecordExpiresAt (sr_AdmittedAt record)))
    then ThreadClosedExpired else ""
  else
    match st_threads s !! recordThreadRow (sr_Key record) record with
    | None => ""
    | Some thread =>
      if bool_decide (is_Some (th_ClosedAt thread)) then ThreadClosedDeleted
      else if negb (time_Before now (th_ExpiresAt thread)) then ThreadClosedExpired
      else ""
    end.

(** A record of the organization names the result. *)
Definition names (orgID resultID : string) (kv : SubmissionKey * SubmissionRecord) : bool :=
  bool_decide (sk_OrgID kv.1 = orgID)
  && (bool_decide (sr_ResultID kv.2 = resultID) || bool_decide (sr_ReservedResultID kv.2 = resultID)).

Definition naming (orgID resultID : string) (s : Store) : list (SubmissionKey * SubmissionRecord) :=
  filter (λ kv, names orgID resultID kv = true) (map_to_list (st_submissions s)).

Definition hiddenByClosedThreadLocked (orgID resultID : string) (now : time) (s : Store) : bool :=
  let l := naming orgID resultID s in
  negb (bool_decide (l = [])) && forallb (λ kv, negb (isEmpty (threadClosedLocked kv.2 now s))) l.

(** ** Submissions, under the lock (submissions.go) *)

Definition findSubmissionLocked (order : list SubmissionKey) (key : SubmissionKey) (s : Store)
    : option (SubmissionKey * SubmissionRecord) :=
  match st_submissions s !! key with
  | Some record => Some (key, record)
  | None =>
    list_find (λ kv, bool_decide (sk_OrgID kv.1 = sk_OrgID key)
      && bool_decide (sk_SubmissionID kv.1 = sk_SubmissionID key)
      && SameSubmissionOwner (sk_Owner kv.1) (sk_Owner key) = true) (ranged order s) ≫= λ i, Some i.2
  end.

Definition validSubmissionKey (key : SubmissionKey) : res () :=
  reject! isEmpty (strings_TrimSpace (sk_OrgID key)) || isEmpty (so_Subject (sk_Owner key))
          || isEmpty (so_AuthenticationMethod (sk_Owner key))
    with ErrText "submission organization and owner are required" ;;
  reject! negb (ValidSubmissionID (sk_SubmissionID key)) with ErrText "submission id is malformed" ;;
  Ok ().

Definition reservationHeldLocked (principal : Principal) (orgID resultID : string) (s : Store) : bool :=
  match st_reserved s !! (orgID, resultID) with
  | None => false
  | Some key =>
    match st_submissions s !! key with
    | None => false
    | Some record => Is (sk_Owner (sr_Key record)) principal
    end
  end.

(** A record the index misses reads as one without an owner, who is nobody. *)
Definition completeSubmissionLocked (principal : Principal) (orgID resultID : string)
    : go Store (option SubmissionOwner) :=
  let! s := get in
  match st_reserved s !! (orgID, resultID) ≫= λ key, (key,.) <$> st_submissions s !! key with
  | None => ret None
  | Some (key, record) =>
    if negb (Is (sk_Owner (sr_Key record)) principal) then ret None
    else
      (if bool_decide (sr_State record = SubmissionRunning) || bool_decide (sr_State record = SubmissionAbandoned) then
         let! at_ := now in
         modify (set_submission key (sr_set_outcome SubmissionDone resultID at_ record))
       else ret ()) ;;
      ret (Some (sk_Owner (sr_Key record)))
  end.

Definition ownedByLocked (resultID : string) (key : SubmissionKey) (s : Store) : bool :=
  match st_results s !! resultID with
  | None => false
  | Some stored =>
    bool_decide (en_orgID stored = sk_OrgID key)
    && match en_owner stored with Some owner => SameSubmissionOwner owner (sk_Owner key) | None => false end
  end.

Definition reconcileLocked (record : SubmissionRecord) (now : time) (s : Store) : SubmissionRecord * bool :=
  if negb (bool_decide (sr_State record = SubmissionRunning)) && negb (bool_decide (sr_State record = SubmissionAbandoned))
  then (record, false)
  else if ownedByLocked (sr_ReservedResultID record) (sr_Key record) s
  then (sr_set_outcome SubmissionDone (sr_ReservedResultID record) now record, true)
  else if bool_decide (sr_State record = SubmissionRunning) && negb (time_Before now (sr_ExpiresAt record))
  then (sr_set_outcome SubmissionAbandoned (sr_ResultID record) now record, true)
  else (record, false).

(** The record as reconciled, stored back when that changed it. *)
Definition reconcile_at (key : SubmissionKey) (record : SubmissionRecord) (now : time) : go Store SubmissionRecord :=
  let! s := get in
  let '(reconciled, changed) := reconcileLocked record now s in
  (if changed then modify (set_submission key reconciled) else ret ()) ;;
  let! s := get in
  ret (sr_set_ThreadClosed (threadClosedLocked reconciled now s) reconciled).

Definition liveLocked (record : SubmissionRecord) (now : time) (s : Store) : bool :=
  if negb (bool_decide (sr_State record = SubmissionRunning)) || negb (time_Before now (sr_ExpiresAt record)) then false
  else
    match st_results s !! sr_ReservedResultID record with
    | None => true
    | Some stored => negb (bool_decide (en_orgID stored = sk_OrgID (sr_Key record)))
    end.

(** ** store.go *)

Definition RedeemsStructureOffers `{InvestigationLib} (result : InvestigationResult Content) : bool :=
  negb (bool_decide (ir_SynthesisSource result = "client"))
  || negb (bool_decide (ir_SynthesisVersion result = "not_synthesized")).

(** The pairs of prior result and member a result claims. *)
Definition structureSupersessionClaims `{InvestigationLib} (result : InvestigationResult Content) : list (string * string) :=
  if negb (RedeemsStructureOffers result) then []
  else
    omap (λ e,
      if negb (bool_decide (ce_Disposition e = "applied")) then None
      else if negb (bool_decide (ce_Source e = "receipt")) then None
      else
        let prior := strings_TrimSpace (ce_PriorResultID e) in
        if isEmpty prior then None else Some (prior, ce_Member e)) (ir_ConfirmedStructure result).

Definition ValidateStoredParentResultID (resultID parentResultID : string) : res () :=
  let parent := strings_TrimSpace parentResultID in
  if isEmpty parent then Ok ()
  else
    let runes_ := Z.of_nat (length (runes parent)) in
    reject! (runes_ <? 8) || (256 <? runes_) with ErrText "parent_result_id must be 8..256 runes" ;;
    reject! bool_decide (parent = strings_TrimSpace resultID)
      with ErrText "parent_result_id must not name the result itself" ;;
    Ok ().

(** A save that carries the reservation of a submission record for this id. *)
Definition IsReservedSave (reservation : option string) (resultID : string) : bool :=
  match reservation with
  | Some id => negb (isEmpty id) && bool_decide (id = resultID)
  | None => false
  end.

Definition rejectExplicitNullDegradedReasons `{InvestigationLib} (payload : string) : res () :=
  match json_degraded_reasons payload with
  | None => Err (ErrText "decode for explicit-null check")
  | Some raw =>
    reject! bool_decide (strings_TrimSpace raw = "null") with ErrText "coverage.degraded_reasons must be omitted or an array" ;;
    Ok ()
  end.

Definition Save `{InvestigationLib} (principal : Principal) (result : InvestigationResult Content)
    (parentResultID : string) (semantic : SemanticStateWrite) (reservation : option string) : go Store () :=
  ctx_check ;;
  let orgID := strings_TrimSpace (pr_OrgID principal) in
  let resultID := strings_TrimSpace (ir_ResultID result) in
  refuse! isEmpty orgID || isEmpty resultID with ErrText "organization and result id are required" ;;
  lift_res (ValidateStoredParentResultID resultID parentResultID) ;;
  refuse! negb (ValidateResult result) with ErrText "invalid investigation result" ;;
  match json_Marshal result, EncodedColumn semantic with
  | None, _ => fail (ErrText "marshal investigation result")
  | _, None => fail (ErrText "semantic state")
  | Some payload, Some column =>
    let! s := get in
    match st_results s !! resultID with
    | Some existing =>
      lift_res (rejectExplicitNullDegradedReasons (en_payload existing)) ;;
      refuse! negb (bool_decide (en_orgID existing = orgID))
        with ErrText "already exists under a different organization" ;;
      refuse! negb (bool_decide (en_payload existing = payload)) with ErrText "already exists with different content" ;;
      let '(storedState, status) := DecodeSemanticState (en_semanticState existing) in
      refuse! negb (bool_decide (status = SemanticStateReadAvailable))
              && negb (bool_decide (status = SemanticStateReadAbsent)) with ErrSemanticStateReplayConflict ;;
      refuse! negb (SemanticStatesEqual storedState (semantic_State semantic)) with ErrSemanticStateReplayConflict ;;
      ret ()
    | None =>
      refuse! IsReservedSave reservation resultID && negb (reservationHeldLocked principal orgID resultID s)
        with ErrReservationGone ;;
      let claims := structureSupersessionClaims result in
      let conflicted := filter (λ c, is_Some (st_claims s !! (orgID, c.1, c.2))) claims in
      refuse! negb (bool_decide (conflicted = [])) with ErrStructureOfferSuperseded (snd <$> conflicted) ;;
      modify (λ s, st_set_claims
        (foldl (λ (m : claims_map) c, <[(orgID, c.1, c.2) := resultID]> m) (st_claims s) claims) s) ;;
      let! owner := completeSubmissionLocked principal orgID resultID in
      modify (λ s, st_set_results (<[resultID := Entry orgID payload (strings_TrimSpace parentResultID)
        (StoredResultGrantDigest principal) column owner]> (st_results s)) s)
    end
  end.

Definition IsStructureSuperseded (orgID0 priorResultID0 member : string) : go Store bool :=
  let orgID := strings_TrimSpace orgID0 in
  let priorResultID := strings_TrimSpace priorResultID0 in
  refuse! isEmpty orgID || isEmpty priorResultID with ErrText "organization and prior result id are required" ;;
  let! s := get in
  ret (bool_decide (is_Some (st_claims s !! (orgID, priorResultID, member)))).

Record StoredInvestigationResult `{InvestigationLib} := StoredResult {
  si_Result : InvestigationResult Content;
  si_ParentResultID : string;
  si_GrantDigest : string;
  si_SubmissionOwner : option SubmissionOwner;
  si_SemanticState : option SemanticState;
  si_SemanticStateRead : string;
}.

Definition Get `{InvestigationLib} (principal : Principal) (resultID0 : string) : go Store StoredInvestigationResult :=
  ctx_check ;;
  let orgID := strings_TrimSpace (pr_OrgID principal) in
  let resultID := strings_TrimSpace resultID0 in
  refuse! isEmpty orgID || isEmpty resultID with ErrInvestigationResultNotFound ;;
  let! s := get in
  match st_results s !! resultID with
  | None => fail ErrInvestigationResultNotFound
  | Some stored =>
    refuse! negb (bool_decide (en_orgID stored = orgID)) with ErrInvestigationResultNotFound ;;
    let! at_ := now in
    refuse! hiddenByClosedThreadLocked orgID resultID at_ s with ErrInvestigationResultNotFound ;;
    lift_res (rejectExplicitNullDegradedReasons (en_payload stored)) ;;
    match json_Unmarshal (en_payload stored) with
    | None => fail (ErrText "decode investigation result")
    | Some result =>
      refuse! negb (ValidateStoredResult result) with ErrText "stored investigation result is invalid" ;;
      let '(state, status) := DecodeSemanticState (en_semanticState stored) in
      ret (StoredResult _ result (en_parentResultID stored) (en_grantDigest stored) (en_owner stored) state status)
    end
  end.

(** The newest first, the greater id first among equals. *)
Definition citing_before (a b : string * time) : Prop := b.2 < a.2 ∨ a.2 = b.2 ∧ String.le b.1 a.1.
#[global] Instance citing_before_dec : RelDecision citing_before.
Proof. intros a b. unfold citing_before. apply _. Defined.

Definition ResultIDsCitingEvidence `{InvestigationLib} (principal : Principal) (evidenceRefID : string)
    (offset limit : Z) : go Store (list string) :=
  ctx_check ;;
  let orgID := strings_TrimSpace (pr_OrgID principal) in
  if isEmpty orgID || isEmpty evidenceRefID || (limit <=? 0) || (offset <? 0) then ret []
  else
    let! s := get in
    let mine := filter (λ kv : string * entry, en_orgID kv.2 = orgID) (map_to_list (st_results s)) in
    let decoded := (λ kv : string * entry, (λ r, (kv.1, r)) <$> json_Unmarshal (en_payload kv.2)) <$> mine in
    refuse! existsb (λ o, match o with None => true | Some _ => false end) decoded
      with ErrText "decode investigation result" ;;
    let found := omap (λ o, o ≫= λ x : string * InvestigationResult Content,
      if bool_decide (evidenceRefID ∈ evidence_ref_closure x.2) then Some (x.1, ir_GeneratedAt x.2) else None) decoded in
    ret (fst <$> take (Z.to_nat limit) (drop (Z.to_nat offset) (merge_sort citing_before found))).

(** ** submissions.go *)

Definition ReadUsageMonthly (orgID : string) (month : time) : go Store (option Z) :=
  ctx_check ;;
  let! s := get in
  ret (st_usage s !! (orgID, UsageMonth month)).

(** The running records of the organization, and those of the owner. *)
Definition org_running (orgID : string) (now : time) (s : Store) : Z :=
  Z.of_nat (length (filter (λ kv : SubmissionKey * SubmissionRecord,
    bool_decide (sk_OrgID kv.1 = orgID) && liveLocked kv.2 now s = true) (map_to_list (st_submissions s)))).
Definition principal_running (key : SubmissionKey) (now : time) (s : Store) : Z :=
  Z.of_nat (length (filter (λ kv : SubmissionKey * SubmissionRecord,
    bool_decide (sk_OrgID kv.1 = sk_OrgID key) && liveLocked kv.2 now s
    && SameSubmissionOwner (sk_Owner kv.1) (sk_Owner key) = true) (map_to_list (st_submissions s)))).

Definition admission_in_order (a : SubmissionAdmission) (now : time) : res () :=
  let? _ := validSubmissionKey (sa_Key a) in
  reject! isEmpty (sa_RequestDigest a) || isEmpty (sa_ReservedResultID a) || negb (time_After (sa_ExpiresAt a) now)
    with ErrText "submission digest, reserved result id and a future expiry are required" ;;
  reject! negb (isEmpty (sa_ThreadID a)) && negb (ValidSubmissionID (sa_ThreadID a)) with ErrText "thread id is malformed" ;;
  reject! match sa_ThreadRetention a with Some r => negb (retention_Valid r) | None => false end
    with ErrText "thread retention is outside the closed set" ;;
  reject! match sa_Lease a with Some l => negb (lease_Valid l) || negb (time_After (lg_ExpiresAt l) now) | None => false end
    with ErrText "run lease holder, request id and a future lease expiry are required" ;;
  Ok ().

(** The record an admission inserts, and what it does to the store. *)
Definition admitted_record (a : SubmissionAdmission) (threadOwner : SubmissionOwner) (now : time) : SubmissionRecord :=
  let threaded := negb (isEmpty (sa_ThreadID a)) in
  let nobody := Owner "" "" "" "" in
  let '(holder, leaseExpiresAt, requestID) :=
    match sa_Lease a with
    | Some l => (lg_Holder l, lg_ExpiresAt l, lg_RequestID l)
    | None => ("", 0, "")
    end in
  SubRecord (sa_Key a) (sa_RequestDigest a) (sa_ReservedResultID a) SubmissionRunning "" (sa_ThreadID a) now now
    (sa_ExpiresAt a) (if threaded then sa_Question a else "") "" (if threaded then threadOwner else nobody)
    holder leaseExpiresAt requestID 0.

Definition insert_submission (a : SubmissionAdmission) (thread : option ThreadRecord) (threadKey : ThreadKey) (now : time)
    (s : Store) : Store :=
  let s1 :=
    if isEmpty (sa_ThreadID a) then s
    else st_set_threads (<[rowKeyOf threadKey := AdvanceThread thread threadKey
           (TurnCursor now (sk_SubmissionID (sa_Key a))) (sa_ThreadRetention a)]> (st_threads s)) s in
  st_set_reserved (<[(sk_OrgID (sa_Key a), sa_ReservedResultID a) := sa_Key a]> (st_reserved s1))
    (set_submission (sa_Key a) (admitted_record a (tk_Owner threadKey) now) s1).

Definition AdmitSubmission (order : list SubmissionKey) (a : SubmissionAdmission) (now : time)
    : go Store (SubmissionRecord * bool) :=
  ctx_check ;;
  lift_res (admission_in_order a now) ;;
  let! s := get in
  match findSubmissionLocked order (sa_Key a) s with
  | Some (storedKey, existing) =>
    let! record := reconcile_at storedKey existing now in
    ret (record, false)
  | None =>
    let key := sa_Key a in
    let thread :=
      if isEmpty (sa_ThreadID a) then None
      else findThreadLocked (sk_OrgID key) (sk_Owner key) (sa_ThreadID a) s in
    let reason := match thread with Some current => ClosedReason current now | None => "" end in
    refuse! negb (isEmpty reason) with ErrThreadClosed reason ;;
    let threadKey :=
      match thread with
      | Some current => th_Key current
      | None => ThrKey (sk_OrgID key) (sk_Owner key) (sa_ThreadID a)
      end in
    refuse! bool_decide (is_Some (st_reserved s !! (sk_OrgID key, sa_ReservedResultID a)))
      with ErrText "reserved result id is already reserved" ;;
    let limits := Effective (sa_Limits a) in
    let principalRunning := principal_running key now s in
    let orgRunning := org_running (sk_OrgID key) now s in
    refuse! sl_MaxRunningPerPrincipal limits <=? principalRunning
      with ErrSubmissionRefused SubmissionRefusedPrincipalConcurrency principalRunning
             (sl_MaxRunningPerPrincipal limits) SubmissionConcurrencyRetryAfter ;;
    refuse! sl_MaxRunningPerOrg limits <=? orgRunning
      with ErrSubmissionRefused SubmissionRefusedOrgConcurrency orgRunning
             (sl_MaxRunningPerOrg limits) SubmissionConcurrencyRetryAfter ;;
    let month : string * time := (sk_OrgID key, UsageMonth now) in
    let runs := default 0 (st_usage s !! month) in
    refuse! sa_PlatformRun a && (sl_MonthlyPlatformRunAllowance limits <=? runs)
      with ErrSubmissionRefused SubmissionRefusedAllowanceExhausted runs
             (sl_MonthlyPlatformRunAllowance limits) (AllowanceRetryAfter now) ;;
    (if sa_PlatformRun a then modify (λ s, st_set_usage (<[month := runs + 1]> (st_usage s)) s) else ret ()) ;;
    modify (insert_submission a thread threadKey now) ;;
    ret (admitted_record a (tk_Owner threadKey) now, true)
  end.

Definition GetSubmission (order : list SubmissionKey) (key : SubmissionKey) (now : time) : go Store SubmissionRecord :=
  ctx_check ;;
  match validSubmissionKey key with
  | Ok _ =>
    let! s := get in
    match findSubmissionLocked order key s with
    | None => fail ErrSubmissionNotFound
    | Some (storedKey, record) => reconcile_at storedKey record now
    end
  | _ => fail ErrSubmissionNotFound
  end.

Definition FinishSubmission (order : list SubmissionKey) (key : SubmissionKey) (servedResultID : string) (now : time)
    : go Store (SubmissionRecord * string) :=
  lift_res (validSubmissionKey key) ;;
  ctx_check ;;
  let! s := get in
  match findSubmissionLocked order key s with
  | None => fail ErrSubmissionNotFound
  | Some (storedKey, record) =>
    match sr_State record with
    | SubmissionAbandoned => ret (record, SubmissionCompletionNotRunning)
    | SubmissionDone | SubmissionDoneUnsaved => ret (record, SubmissionCompletionAlreadyFinal)
    | SubmissionRunning =>
      let '(record, completion) :=
        if negb (isEmpty servedResultID) && ownedByLocked servedResultID storedKey s
        then (sr_set_outcome SubmissionDone servedResultID now record, SubmissionCompletionServedStored)
        else (sr_set_outcome SubmissionDoneUnsaved (sr_ResultID record) now record, SubmissionCompletionServedUnsaved) in
      modify (set_submission storedKey record) ;;
      ret (record, completion)
    end
  end.

Definition AbandonSubmission (order : list SubmissionKey) (key : SubmissionKey) (now : time) : go Store SubmissionRecord :=
  lift_res (validSubmissionKey key) ;;
  ctx_check ;;
  let! s := get in
  match findSubmissionLocked order key s with
  | None => fail ErrSubmissionNotFound
  | Some (storedKey, record) =>
    if bool_decide (sr_State record = SubmissionRunning) then
      let record := sr_set_outcome SubmissionAbandoned (sr_ResultID record) now record in
      modify (set_submission storedKey record) ;;
      ret record
    else ret record
  end.

Definition SweepSubmissions (now : time) : go Store SubmissionSweep :=
  ctx_check ;;
  let! s := get in
  let changed := filter (λ r : SubmissionRecord * bool, r.2 = true)
    ((λ kv, reconcileLocked kv.2 now s) <$> map_to_list (st_submissions s)) in
  let completed := filter (λ r : SubmissionRecord * bool, sr_State r.1 = SubmissionDone) changed in
  modify (λ s, st_set_submissions ((λ r, (reconcileLocked r now s).1) <$> st_submissions s) s) ;;
  ret (Sweep (Z.of_nat (length completed)) (Z.of_nat (length changed) - Z.of_nat (length completed))).

Definition MarkSubmissionUnsaved (principal : Principal) (resultID : string) (now : time) : go Store bool :=
  ctx_check ;;
  let! s := get in
  match st_reserved s !! (strings_TrimSpace (pr_OrgID principal), resultID) ≫= λ key, (key,.) <$> st_submissions s !! key with
  | None => ret false
  | Some (key, record) =>
    if negb (bool_decide (sr_State record = SubmissionRunning)) || negb (Is (sk_Owner (sr_Key record)) principal)
    then ret false
    else
      modify (set_submission key (sr_set_outcome SubmissionDoneUnsaved (sr_ResultID record) now record)) ;;
      ret true
  end.

(** ** threads.go *)

Definition threadListBefore (a b : ThreadRecord) : Prop :=
  th_LastTurnAt b < th_LastTurnAt a ∨ th_LastTurnAt a = th_LastTurnAt b ∧ String.le (tk_ThreadID (th_Key a)) (tk_ThreadID (th_Key b)).
#[global] Instance threadListBefore_dec : RelDecision threadListBefore.
Proof. intros a b. unfold threadListBefore. apply _. Defined.

Definition threadListAfter (thread : ThreadRecord) (cursor : ThreadListCursor) : bool :=
  if negb (bool_decide (th_LastTurnAt thread = lc_LastTurnAt cursor))
  then time_Before (th_LastTurnAt thread) (lc_LastTurnAt cursor)
  else string_Less (lc_ThreadID cursor) (tk_ThreadID (th_Key thread)).

Definition turn_of (kv : SubmissionKey * SubmissionRecord) : ThreadTurnCursor :=
  TurnCursor (sr_AdmittedAt kv.2) (sk_SubmissionID kv.1).

(** The record is a turn of the row. *)
Definition linked (threadID : string) (row : threadRowKey) (kv : SubmissionKey * SubmissionRecord) : bool :=
  bool_decide (sr_ThreadID kv.2 = threadID) && bool_decide (recordThreadRow kv.1 kv.2 = row).

Definition firstQuestionLocked (order : list SubmissionKey) (thread : ThreadRecord) (s : Store) : string :=
  let turns := filter (λ kv, linked (tk_ThreadID (th_Key thread)) (rowKeyOf (th_Key thread)) kv = true) (ranged order s) in
  from_option (λ kv, sr_Question kv.2) ""
    (foldl (λ (first : option (SubmissionKey * SubmissionRecord)) kv,
       match first with
       | None => Some kv
       | Some f => if turn_Before (turn_of kv) (turn_of f) then Some kv else Some f
       end) None turns).

Definition th_set_FirstQuestion (q : string) (t : ThreadRecord) : ThreadRecord :=
  Thread (th_Key t) (th_CreatedAt t) (th_LastTurnAt t) (th_TurnCount t) (th_RetentionDays t) (th_ExpiresAt t)
    (th_ClosedAt t) (th_RetentionSetBy t) q.
Definition th_set_ClosedAt (x : option time) (t : ThreadRecord) : ThreadRecord :=
  Thread (th_Key t) (th_CreatedAt t) (th_LastTurnAt t) (th_TurnCount t) (th_RetentionDays t) (th_ExpiresAt t)
    x (th_RetentionSetBy t) (th_FirstQuestion t).

Definition ListThreads (order : list SubmissionKey) (orgID : string) (owner : SubmissionOwner)
    (after : option ThreadListCursor) (limit : Z) (now : time) : go Store (list ThreadRecord * bool) :=
  ctx_check ;;
  refuse! isEmpty (strings_TrimSpace orgID) || isEmpty (so_Subject owner) || isEmpty (so_AuthenticationMethod owner)
          || (limit <? 1) with ErrText "thread list organization, owner and a positive limit are required" ;;
  let! s := get in
  let mine := filter (λ kv, reaches orgID owner kv = true) (map_to_list (st_threads s)) in
  let reached := foldl (λ (m : gmap string ThreadRecord) kv,
    match better owner (m !! tr_threadID kv.1) kv.2 with
    | Some best => <[tr_threadID kv.1 := best]> m
    | None => m
    end) ∅ mine in
  let open := filter (λ t, negb (Closed t now)
    && match after with Some c => threadListAfter t c | None => true end = true) (snd <$> map_to_list reached) in
  let sorted := merge_sort threadListBefore open in
  ret ((λ t, th_set_FirstQuestion (firstQuestionLocked order t s) t) <$> take (Z.to_nat limit) sorted,
       limit <? Z.of_nat (length sorted)).

Definition validThreadKey (key : ThreadKey) : res () :=
  reject! isEmpty (strings_TrimSpace (tk_OrgID key)) || isEmpty (so_Subject (tk_Owner key))
          || isEmpty (so_AuthenticationMethod (tk_Owner key)) with ErrText "thread organization and owner are required" ;;
  reject! negb (ValidSubmissionID (tk_ThreadID key)) with ErrText "thread id is malformed" ;;
  Ok ().

Definition turn_le (a b : ThreadTurn) : Prop :=
  turn_Before (TurnCursor (tt_AdmittedAt b) (tt_SubmissionID b)) (TurnCursor (tt_AdmittedAt a) (tt_SubmissionID a)) = false.
#[global] Instance turn_le_dec : RelDecision turn_le.
Proof. intros a b. unfold turn_le. apply _. Defined.

(** The turns a page may hold, each reconciled and stored back on the way. *)
Fixpoint turns_loop (threadID : string) (row : threadRowKey) (before : option ThreadTurnCursor) (now : time)
    (order : list SubmissionKey) : go Store (list ThreadTurn) :=
  match order with
  | [] => ret []
  | key :: order' =>
    let! s := get in
    match st_submissions s !! key with
    | None => turns_loop threadID row before now order'
    | Some record =>
      if negb (linked threadID row (key, record))
         || match before with Some b => negb (turn_Before (turn_of (key, record)) b) | None => false end
      then turns_loop threadID row before now order'
      else
        let '(reconciled, changed) := reconcileLocked record now s in
        (if changed then modify (set_submission key reconciled) else ret ()) ;;
        let! rest := turns_loop threadID row before now order' in
        ret (Turn (sk_SubmissionID key) (sr_State reconciled) (sr_ResultID reconciled) (sr_Question reconciled)
               (sr_AdmittedAt reconciled) (sr_UpdatedAt reconciled) :: rest)
    end
  end.

Definition GetThread (order : list SubmissionKey) (key : ThreadKey) (before : option ThreadTurnCursor) (limit : Z)
    (now : time) : go Store ThreadPage :=
  ctx_check ;;
  refuse! (limit <? 1) || match validThreadKey key with Ok _ => false | _ => true end with ErrThreadNotFound ;;
  let! s := get in
  match findThreadLocked (tk_OrgID key) (tk_Owner key) (tk_ThreadID key) s with
  | None => fail ErrThreadNotFound
  | Some thread =>
    refuse! Closed thread now with ErrThreadNotFound ;;
    let! turns := turns_loop (tk_ThreadID key) (rowKeyOf (th_Key thread)) before now order in
    let sorted := merge_sort turn_le turns in
    let page := drop (length sorted - Z.to_nat limit) sorted in
    refuse! bool_decide (page = []) with ErrThreadNotFound ;;
    ret (TPage thread page (limit <? Z.of_nat (length sorted)))
  end.

Definition erase_questions (threadID : string) (row : threadRowKey) (m : gmap SubmissionKey SubmissionRecord) : gmap SubmissionKey SubmissionRecord :=
  map_imap (λ key record, Some (if linked threadID row (key, record) then sr_set_Question "" record else record)) m.

Definition CloseThread (key : ThreadKey) (now : time) : go Store bool :=
  ctx_check ;;
  lift_res (validThreadKey key) ;;
  let! s := get in
  match findThreadLocked (tk_OrgID key) (tk_Owner key) (tk_ThreadID key) s with
  | None => ret false
  | Some thread =>
    if Closed thread now then ret false
    else
      let row := rowKeyOf (th_Key thread) in
      modify (λ s, st_set_submissions (erase_questions (tk_ThreadID key) row (st_submissions s))
        (st_set_threads (<[row := th_set_ClosedAt (Some now) thread]> (st_threads s)) s)) ;;
      ret true
  end.

(** ** runs.go *)

Definition recordOfRunLocked (run : RunKey) (s : Store) : option (SubmissionKey * SubmissionRecord) :=
  st_reserved s !! (rk_OrgID run, rk_ReservedResultID run) ≫= λ key, (key,.) <$> st_submissions s !! key.

Definition CheckRunLease (run : RunKey) (holder : string) (renewUntil : time) : go Store RunLeaseCheck :=
  ctx_check ;;
  let! s := get in
  match recordOfRunLocked run s with
  | None => ret (LeaseCheck false None "" false 0)
  | Some (key, record) =>
    let check := LeaseCheck true (Some (sr_State record)) (sr_LeaseHolder record) false (sr_CancelRequestedAt record) in
    if Held holder check && negb (time_IsZero renewUntil) then
      (if time_After renewUntil (sr_LeaseExpiresAt record)
       then modify (set_submission key (sr_set_Lease (sr_LeaseHolder record) renewUntil record)) else ret ()) ;;
      ret (LeaseCheck true (Some (sr_State record)) (sr_LeaseHolder record) true (sr_CancelRequestedAt record))
    else ret check
  end.

(** The critical section of a cancel request: the record as it is by then. *)
Definition cancel_locked (order : list SubmissionKey) (key : SubmissionKey) (now : time) (s : Store) : Store :=
  match findSubmissionLocked order key s with
  | Some (stored, current) =>
    if bool_decide (sr_State current = SubmissionRunning) && Leased current && time_IsZero (sr_CancelRequestedAt current)
    then set_submission stored (sr_set_Cancel now current) s else s
  | None => s
  end.

Definition RequestRunCancel (between : nat → Store → Store) (order : nat → list SubmissionKey) (key : SubmissionKey)
    (now : time) : go Store SubmissionRecord :=
  let! record := GetSubmission (order 0%nat) key now in
  if negb (isEmpty (sr_ThreadClosed record)) || negb (bool_decide (sr_State record = SubmissionRunning))
     || negb (Leased record) || negb (time_IsZero (sr_CancelRequestedAt record))
  then ret record
  else
    modify (between 0%nat) ;;
    modify (cancel_locked (order 1%nat) key now) ;;
    modify (between 1%nat) ;;
    GetSubmission (order 2%nat) key now.

Definition is_terminal (e : RunEvent) : bool := bool_decide (is_Some (re_Terminal e)).
#[global] Instance ErrorEnvelope_eq_dec : EqDecision ErrorEnvelope.
Proof. solve_decision. Defined.
#[global] Instance RunTerminal_eq_dec : EqDecision RunTerminal.
Proof. solve_decision. Defined.
#[global] Instance RunEvent_eq_dec : EqDecision RunEvent.
Proof. solve_decision. Defined.

Definition hasTerminal (rows : list RunEvent) : bool := existsb is_terminal rows.

Definition terminal_in_order (t : RunTerminal) : res () :=
  if bool_decide (rt_Kind t = RunTerminalResult) then
    reject! isEmpty (rt_ResultID t) with ErrText "a result terminal names its result id" ;; Ok ()
  else if bool_decide (rt_Kind t = RunTerminalUnsaved) then Ok ()
  else if bool_decide (rt_Kind t = RunTerminalError) then
    reject! bool_decide (rt_Error t = None) with ErrText "an error terminal carries its envelope" ;; Ok ()
  else Err (ErrText "run terminal kind is outside the closed set").

Definition seq_le (a b : RunEvent) : Prop := re_Seq a ≤ re_Seq b.
#[global] Instance seq_le_dec : RelDecision seq_le.
Proof. intros a b. unfold seq_le. apply _. Defined.

Definition re_written (at_ : time) (e : RunEvent) : RunEvent :=
  REvent (re_Seq e) (re_Type e) (re_LastStageStarted e) (re_Data e) (re_Terminal e) at_.

(** The log with one more row, and pruned when that is no terminal. *)
Definition append_row (event : RunEvent) (maxEvents : Z) (rows : list RunEvent) : list RunEvent :=
  let rows := merge_sort seq_le (rows ++ [event]) in
  if is_terminal event then rows
  else filter (λ row, is_terminal row || (re_Seq event - maxEvents <? re_Seq row) = true) rows.

Definition AppendRunEvent (run : RunKey) (event : RunEvent) (maxEvents0 : Z) (now : time) : go Store bool :=
  ctx_check ;;
  refuse! re_Seq event <? 1 with ErrRunEventSeq ;;
  lift_res (match re_Terminal event with Some t => terminal_in_order t | None => Ok () end) ;;
  let! s := get in
  match recordOfRunLocked run s with
  | None => fail (ErrText "the run has no submission record")
  | Some _ =>
    let rows := default [] (st_runEvents s !! run) in
    match list_find (λ row, re_Seq row = re_Seq event) rows with
    | Some (_, row) => if is_terminal event && is_terminal row then ret false else fail ErrRunEventSeq
    | None =>
      if hasTerminal rows then
        if is_terminal event then ret false else fail ErrRunEventSeq
      else
        let maxEvents := if maxEvents0 <? 1 then RunEventLogMaxEvents else maxEvents0 in
        modify (st_set_runEvents (<[run := append_row (re_written now event) maxEvents rows]> (st_runEvents s))) ;;
        ret true
    end
  end.

Definition ReadRunEvents (run : RunKey) (afterSeq limit0 : Z) : go Store RunEventPage :=
  ctx_check ;;
  let limit := if limit0 <? 1 then RunEventLogMaxEvents else limit0 in
  let! s := get in
  match recordOfRunLocked run s with
  | None => fail ErrSubmissionNotFound
  | Some (_, record) =>
    let rows := default [] (st_runEvents s !! run) in
    ret (EPage (take (Z.to_nat limit) (filter (λ row, afterSeq < re_Seq row) rows))
      (from_option re_Seq 0 (head rows)) (from_option re_Seq 0 (last rows))
      (from_option re_Seq 0 (last (filter (λ row, is_terminal row = true) rows)))
      (from_option re_LastStageStarted "" (last rows)) record)
  end.

Definition RunTerminalOf (run : RunKey) : go Store (option RunEvent) :=
  ctx_check ;;
  let! s := get in
  ret (snd <$> list_find (λ row, is_terminal row = true) (default [] (st_runEvents s !! run))).

(** The record is a run whose lease has ended and whose result is not stored. *)
Definition lost_run (only : option RunKey) (now : time) (key : SubmissionKey) (record : SubmissionRecord) (s : Store) : bool :=
  negb (match only with Some run => negb (bool_decide (run = RunKeyOf record)) | None => false end)
  && negb (negb (bool_decide (sr_State record = SubmissionRunning)) || negb (Leased record)
           || time_Before now (sr_LeaseExpiresAt record) || ownedByLocked (sr_ReservedResultID record) key s).

Definition reap_one (taker : string) (lostTerminal : string → ErrorEnvelope) (now : time)
    (key : SubmissionKey) (record : SubmissionRecord) (s : Store) : LostRun * Store :=
  let run := RunKeyOf record in
  let s1 := set_submission key (sr_set_Lease taker (sr_LeaseExpiresAt record)
    (sr_set_outcome SubmissionAbandoned (sr_ResultID record) now record)) s in
  let rows := default [] (st_runEvents s !! run) in
  let next := from_option (λ row, i64 (re_Seq row + 1)) 1 (last rows) in
  let lastStage := from_option re_LastStageStarted "" (last rows) in
  let terminal := REvent next "error" lastStage ""
    (Some (RTerminal RunTerminalError "" (Some (lostTerminal (sr_RunRequestID record))))) now in
  let appended := negb (hasTerminal rows) in
  (Lost run (sr_RunRequestID record) next (sr_LeaseHolder record) (sr_LeaseExpiresAt record) appended,
   if appended then st_set_runEvents (<[run := rows ++ [terminal]]> (st_runEvents s1)) s1 else s1).

Definition reap_loop (taker : string) (only : option RunKey) (lostTerminal : string → ErrorEnvelope) (now : time)
    (order : list SubmissionKey) (w : list LostRun * Store) : list LostRun * Store :=
  foldl (λ (w : list LostRun * Store) key,
    match st_submissions w.2 !! key with
    | Some record =>
      if lost_run only now key record w.2 then
        let '(lost, s) := reap_one taker lostTerminal now key record w.2 in (w.1 ++ [lost], s)
      else w
    | None => w
    end) w order.

Definition ReapLostRuns (order : list SubmissionKey) (taker : string) (only : option RunKey)
    (lostTerminal : string → ErrorEnvelope) (now : time) : go Store (list LostRun) :=
  ctx_check ;;
  refuse! isEmpty taker with ErrText "a takeover needs its taker and the lost terminal" ;;
  let! s := get in
  let '(lost, s') := reap_loop taker only lostTerminal now order ([], s) in
  put s' ;;
  ret lost.

(** ** feedback.go *)

Definition feedbackResultLocked (principal : Principal) (resultID : string) (now : time) (s : Store) : bool :=
  let orgID := strings_TrimSpace (pr_OrgID principal) in
  if isEmpty orgID || isEmpty resultID then false
  else
    match st_results s !! resultID with
    | None => false
    | Some stored =>
      bool_decide (en_orgID stored = orgID)
      && match en_owner stored with Some owner => Is owner principal | None => false end
      && negb (hiddenByClosedThreadLocked orgID resultID now s)
    end.

Definition GetResultFeedback (principal : Principal) (resultID : string) (now : time) : go Store ResultFeedback :=
  ctx_check ;;
  let! s := get in
  refuse! negb (feedbackResultLocked principal resultID now s) with ErrInvestigationResultNotFound ;;
  ret (default UnsetResultFeedback (st_feedback s !! resultID)).

Definition SetResultFeedback (principal : Principal) (resultID correct useful : string) (now : time) : go Store ResultFeedback :=
  ctx_check ;;
  refuse! negb (feedback_Valid correct) || negb (feedback_Valid useful) || time_IsZero now
    with ErrText "feedback flags must be members of the closed vocabulary and the time set" ;;
  let! s := get in
  refuse! negb (feedbackResultLocked principal resultID now s) with ErrInvestigationResultNotFound ;;
  let at0 := time_Truncate now Microsecond in
  let at_ := match st_feedback s !! resultID with
             | Some previous => if time_After (rf_UpdatedAt previous) at0 then rf_UpdatedAt previous else at0
             | None => at0
             end in
  let feedback := Feedback correct useful at_ in
  modify (λ s, st_set_feedback (<[resultID := feedback]> (st_feedback s)) s) ;;
  ret feedback.

(** ** retention.go *)

(** Some record of the organization that is not closed names the result. *)
Definition namedByLiveRecordLocked (orgID resultID : string) (now : time) (s : Store) : bool :=
  existsb (λ kv, isEmpty (threadClosedLocked kv.2 now s)) (naming orgID resultID s).

Definition threadRecordsLocked (row : threadRowKey) (s : Store) : list SubmissionKey :=
  fst <$> filter (λ kv : SubmissionKey * SubmissionRecord,
    negb (isEmpty (sr_ThreadID kv.2)) && bool_decide (recordThreadRow kv.1 kv.2 = row) = true)
    (map_to_list (st_submissions s)).

Definition due_thread (now : time) (s : Store) (row : threadRowKey) : bool :=
  match st_threads s !! row with
  | None => false
  | Some thread =>
    negb (time_Before now (th_ExpiresAt thread))
    || (bool_decide (is_Some (th_ClosedAt thread))
        && existsb (λ key, match st_submissions s !! key with
                           | Some record => negb (IsErasedReservedResultID (sr_ReservedResultID record))
                           | None => false
                           end) (threadRecordsLocked row s))
  end.

Definition thread_expiry (s : Store) (row : threadRowKey) : time := from_option th_ExpiresAt 0 (st_threads s !! row).
Definition due_thread_le (s : Store) (a b : threadRowKey) : Prop :=
  thread_expiry s a < thread_expiry s b
  ∨ thread_expiry s a = thread_expiry s b
    ∧ (strict String.le (tr_orgID a) (tr_orgID b)
       ∨ tr_orgID a = tr_orgID b ∧ String.le (tr_threadID a) (tr_threadID b)).
#[global] Instance due_thread_le_dec s : RelDecision (due_thread_le s).
Proof. intros a b. unfold due_thread_le, strict. apply _. Defined.

Definition dueRetentionThreadsLocked (order : list threadRowKey) (now : time) (s : Store) : list threadRowKey :=
  merge_sort (due_thread_le s) (filter (λ row, due_thread now s row = true) order).

Definition due_record (now : time) (s : Store) (key : SubmissionKey) : bool :=
  match st_submissions s !! key with
  | None => false
  | Some record =>
    isEmpty (sr_ThreadID record) && negb (time_Before now (UnthreadedRecordExpiresAt (sr_AdmittedAt record)))
  end.

Definition admission_time (s : Store) (key : SubmissionKey) : time := from_option sr_AdmittedAt 0 (st_submissions s !! key).
Definition due_record_le (s : Store) (a b : SubmissionKey) : Prop :=
  admission_time s a < admission_time s b
  ∨ admission_time s a = admission_time s b
    ∧ (strict String.le (sk_OrgID a) (sk_OrgID b)
       ∨ sk_OrgID a = sk_OrgID b ∧ String.le (sk_SubmissionID a) (sk_SubmissionID b)).
#[global] Instance due_record_le_dec s : RelDecision (due_record_le s).
Proof. intros a b. unfold due_record_le, strict. apply _. Defined.

Definition dueRetentionRecordsLocked (order : list SubmissionKey) (now : time) (s : Store) : list SubmissionKey :=
  merge_sort (due_record_le s) (filter (λ key, due_record now s key = true) order).

Definition remove_result (orgID id : string) (s : Store) : Store :=
  st_set_claims (filter (λ kv : (string * string * string) * string,
      ¬ (kv.1.1.1 = orgID ∧ (kv.1.1.2 = id ∨ kv.2 = id))) (st_claims s))
    (st_set_feedback (delete id (st_feedback s)) (st_set_results (delete id (st_results s)) s)).

Definition retained_ids (keys : list SubmissionKey) (s : Store) : list string :=
  dedup_loop ∅ (filter (λ id, negb (isEmpty id) && negb (IsErasedReservedResultID id) = true)
    (concat ((λ key, match st_submissions s !! key with
                     | Some record => [sr_ResultID record; sr_ReservedResultID record]
                     | None => []
                     end) <$> keys))).

Definition remove_retained (orgID : string) (now : time) (w : Store * Z) (id : string) : Store * Z :=
  if namedByLiveRecordLocked orgID id now w.1 then w
  else
    match st_results w.1 !! id with
    | Some stored => if bool_decide (en_orgID stored = orgID) then (remove_result orgID id w.1, w.2 + 1) else w
    | None => w
    end.

Definition removeRetainedResultsLocked (orgID : string) (keys : list SubmissionKey) (now : time) (s : Store) : Store * Z :=
  foldl (remove_retained orgID now) (s, 0) (retained_ids keys s).

Definition removeRecordLocked (s : Store) (key : SubmissionKey) : Store :=
  match st_submissions s !! key with
  | None => s
  | Some record =>
    st_set_runEvents (delete (RunKeyOf record) (st_runEvents s))
      (st_set_reserved (delete (sk_OrgID key, sr_ReservedResultID record) (st_reserved s))
        (st_set_submissions (delete key (st_submissions s)) s))
  end.

Definition erased_record (now : time) (record : SubmissionRecord) : SubmissionRecord :=
  sr_set_Reserved (ErasedReservedResultID (sr_ReservedResultID record)) (sr_set_Question ""
    (sr_set_outcome (if bool_decide (sr_State record = SubmissionDone) then SubmissionDoneUnsaved else sr_State record)
       "" now record)).

Definition eraseRecordLocked (now : time) (s : Store) (key : SubmissionKey) : Store :=
  match st_submissions s !! key with
  | None => s
  | Some record =>
    if IsErasedReservedResultID (sr_ReservedResultID record) then s
    else
      let erased := erased_record now record in
      st_set_reserved (<[(sk_OrgID key, sr_ReservedResultID erased) := key]>
          (delete (sk_OrgID key, sr_ReservedResultID record) (st_reserved s)))
        (st_set_runEvents (delete (RunKeyOf record) (st_runEvents s)) (set_submission key erased s))
  end.

Definition add_results (n : Z) (w : RetentionSweep) : RetentionSweep :=
  RSweep (rs_ThreadsRemoved w) (rs_ThreadsErased w) (rs_RecordsRemoved w) (rs_ResultsRemoved w + n) (rs_Fenced w).
Definition add_removed_thread (w : RetentionSweep) : RetentionSweep :=
  RSweep (rs_ThreadsRemoved w + 1) (rs_ThreadsErased w) (rs_RecordsRemoved w) (rs_ResultsRemoved w) (rs_Fenced w).
Definition add_erased_thread (w : RetentionSweep) : RetentionSweep :=
  RSweep (rs_ThreadsRemoved w) (rs_ThreadsErased w + 1) (rs_RecordsRemoved w) (rs_ResultsRemoved w) (rs_Fenced w).
Definition add_removed_record (w : RetentionSweep) : RetentionSweep :=
  RSweep (rs_ThreadsRemoved w) (rs_ThreadsErased w) (rs_RecordsRemoved w + 1) (rs_ResultsRemoved w) (rs_Fenced w).
Definition add_fenced (w : RetentionSweep) : RetentionSweep :=
  RSweep (rs_ThreadsRemoved w) (rs_ThreadsErased w) (rs_RecordsRemoved w) (rs_ResultsRemoved w) (rs_Fenced w + 1).

Definition fenced_key (now : time) (s : Store) (key : SubmissionKey) : bool :=
  match st_submissions s !! key with Some record => RetentionFenced record now | None => false end.

Definition sweepRetentionThreadLocked (now : time) (w : Store * RetentionSweep) (row : threadRowKey)
    : Store * RetentionSweep :=
  let '(s, sweep) := w in
  match st_threads s !! row with
  | None => w
  | Some thread =>
    let expired := negb (time_Before now (th_ExpiresAt thread)) in
    if negb expired && bool_decide (th_ClosedAt thread = None) then w
    else
      let keys := threadRecordsLocked row s in
      if existsb (fenced_key now s) keys then (s, add_fenced sweep)
      else
        let '(s1, removed) := removeRetainedResultsLocked (tr_orgID row) keys now s in
        if expired then
          let s2 := foldl removeRecordLocked s1 keys in
          (st_set_threads (delete row (st_threads s2)) s2, add_removed_thread (add_results removed sweep))
        else (foldl (eraseRecordLocked now) s1 keys, add_erased_thread (add_results removed sweep))
  end.

Definition sweepRetentionRecordLocked (now : time) (w : Store * RetentionSweep) (key : SubmissionKey)
    : Store * RetentionSweep :=
  let '(s, sweep) := w in
  match st_submissions s !! key with
  | None => w
  | Some record =>
    if negb (isEmpty (sr_ThreadID record)) then w
    else if RetentionFenced record now then (s, add_fenced sweep)
    else
      let '(s1, removed) := removeRetainedResultsLocked (sk_OrgID key) [key] now s in
      (removeRecordLocked s1 key, add_removed_record (add_results removed sweep))
  end.

Definition SweepRetention (thread_order : list threadRowKey) (order : list SubmissionKey) (now : time) (limit0 : Z)
    : go Store RetentionSweep :=
  ctx_check ;;
  let! s := get in
  refuse! negb (st_unthreadedRetention s) with ErrRetentionReadRuleOff ;;
  let limit := if limit0 <? 1 then RetentionSweepBatch else limit0 in
  let threads := take (Z.to_nat limit) (dueRetentionThreadsLocked thread_order now s) in
  let w1 := foldl (sweepRetentionThreadLocked now) (s, RSweep 0 0 0 0 0) threads in
  let remaining := limit - Z.of_nat (length threads) in
  let w2 :=
    if 0 <? remaining
    then foldl (sweepRetentionRecordLocked now) w1
           (take (Z.to_nat remaining) (dueRetentionRecordsLocked order now w1.1))
    else w1 in
  put w2.1 ;;
  ret w2.2.

(** [ProbeRetention] *)
Definition ProbeRetention : go Store () := ctx_check.
