(* ===== verification/InvestigationProofs.v ===== *)
(** * InvestigationProofs: what an operation may do to the store

    [edit] lists the writes the operations make under the lock, each with what
    the code has checked by then, and [retire] those of the retention job.  Every
    operation is a sequence of them ([exec_edits], [sweep_retires]), so the
    theorems about histories argue about the writes. *)

From Stdlib Require Import ZArith Lia Ascii.
From stdpp Require Import sorting pretty numbers gmap strings list_numbers list relations.
From S2P Require Import Prelude GoStrings GoText Sha256 Grants Submissions InvestigationStore.

Open Scope Z_scope.

(** ** The writes *)

(** The record's run may end this way. *)
Definition may_end (s : Store) (key : SubmissionKey) (record : SubmissionRecord) (state : SubmissionState)
    (resultID : string) : Prop :=
  match state with
  | SubmissionRunning => False
  | SubmissionDone =>
    (sr_State record = SubmissionRunning ∨ sr_State record = SubmissionAbandoned) ∧ ownedByLocked resultID key s = true
  | SubmissionDoneUnsaved | SubmissionAbandoned => sr_State record = SubmissionRunning ∧ resultID = sr_ResultID record
  end.

(** [ok] holds of the admissions that happen, each with its time. *)
Inductive edit (ok : SubmissionAdmission → time → Prop) (s : Store) : Store → Prop :=
  | edit_end key record state resultID at_ :
      st_submissions s !! key = Some record → may_end s (sr_Key record) record state resultID ∨ may_end s key record state resultID →
      edit ok s (set_submission key (sr_set_outcome state resultID at_ record) s)
  | edit_admit a thread threadKey now order :
      ok a now →
      findSubmissionLocked order (sa_Key a) s = None →
      admission_in_order a now = Ok () →
      thread = (if isEmpty (sa_ThreadID a) then None
                else findThreadLocked (sk_OrgID (sa_Key a)) (sk_Owner (sa_Key a)) (sa_ThreadID a) s) →
      match thread with Some t => ClosedReason t now = "" ∧ threadKey = th_Key t
                      | None => threadKey = ThrKey (sk_OrgID (sa_Key a)) (sk_Owner (sa_Key a)) (sa_ThreadID a) end →
      st_reserved s !! (sk_OrgID (sa_Key a), sa_ReservedResultID a) = None →
      principal_running (sa_Key a) now s < sl_MaxRunningPerPrincipal (Effective (sa_Limits a)) →
      org_running (sk_OrgID (sa_Key a)) now s < sl_MaxRunningPerOrg (Effective (sa_Limits a)) →
      edit ok s (insert_submission a thread threadKey now s)
  | edit_usage a now k :
      ok a now → k = (sk_OrgID (sa_Key a), UsageMonth now) →
      default 0 (st_usage s !! k) < sl_MonthlyPlatformRunAllowance (Effective (sa_Limits a)) →
      edit ok s (st_set_usage (<[k := default 0 (st_usage s !! k) + 1]> (st_usage s)) s)
  | edit_claims orgID id (claims : list (string * string)) e s' :
      st_results s !! id = None → en_orgID e = orgID →
      st_results s' = <[id := e]> (st_results s) →
      st_claims s' = foldl (λ (m : claims_map) c, <[(orgID, c.1, c.2) := id]> m) (st_claims s) claims →
      (∀ c, c ∈ claims → st_claims s !! (orgID, c.1, c.2) = None) →
      st_reserved s' = st_reserved s → st_usage s' = st_usage s → st_threads s' = st_threads s →
      st_runEvents s' = st_runEvents s → st_feedback s' = st_feedback s →
      st_unthreadedRetention s' = st_unthreadedRetention s →
      (st_submissions s' = st_submissions s
       ∨ ∃ key record at_, st_reserved s !! (orgID, id) = Some key ∧ st_submissions s !! key = Some record
           ∧ (sr_State record = SubmissionRunning ∨ sr_State record = SubmissionAbandoned)
           ∧ en_owner e = Some (sk_Owner (sr_Key record))
           ∧ st_submissions s' = <[key := sr_set_outcome SubmissionDone id at_ record]> (st_submissions s)) →
      edit ok s s'
  | edit_close threadID row0 row thread now :
      st_threads s !! row0 = Some thread → row = rowKeyOf (th_Key thread) → th_ClosedAt thread = None →
      edit ok s (st_set_submissions (erase_questions threadID row (st_submissions s))
        (st_set_threads (<[row := th_set_ClosedAt (Some now) thread]> (st_threads s)) s))
  | edit_renew key record until :
      st_submissions s !! key = Some record → sr_State record = SubmissionRunning → sr_LeaseHolder record ≠ "" →
      sr_LeaseExpiresAt record < until →
      edit ok s (set_submission key (sr_set_Lease (sr_LeaseHolder record) until record) s)
  | edit_take key record taker lostTerminal now :
      st_submissions s !! key = Some record → sr_State record = SubmissionRunning → sr_LeaseHolder record ≠ "" →
      sr_LeaseExpiresAt record ≤ now → ownedByLocked (sr_ReservedResultID record) key s = false →
      edit ok s (reap_one taker lostTerminal now key record s).2
  | edit_cancel key record now :
      st_submissions s !! key = Some record → sr_State record = SubmissionRunning → sr_CancelRequestedAt record = 0 →
      edit ok s (set_submission key (sr_set_Cancel now record) s)
  | edit_log run event maxEvents :
      is_Some (recordOfRunLocked run s) → 1 ≤ re_Seq event → 1 ≤ maxEvents →
      (∀ row, row ∈ default [] (st_runEvents s !! run) → re_Seq row ≠ re_Seq event) →
      hasTerminal (default [] (st_runEvents s !! run)) = false →
      edit ok s (st_set_runEvents (<[run := append_row event maxEvents (default [] (st_runEvents s !! run))]> (st_runEvents s)) s)
  | edit_feedback id feedback stored :
      st_results s !! id = Some stored → is_Some (en_owner stored) →
      edit ok s (st_set_feedback (<[id := feedback]> (st_feedback s)) s).

(** ** Operations *)

Section operations.
Context `{InvestigationLib}.

Inductive inv_op :=
  | OSave (principal : Principal) (result : InvestigationResult Content) (parentResultID : string)
      (semantic : SemanticStateWrite) (reservation : option string)
  | OAdmit (order : list SubmissionKey) (a : SubmissionAdmission) (now : time)
  | OGetSubmission (order : list SubmissionKey) (key : SubmissionKey) (now : time)
  | OFinish (order : list SubmissionKey) (key : SubmissionKey) (servedResultID : string) (now : time)
  | OAbandon (order : list SubmissionKey) (key : SubmissionKey) (now : time)
  | OSweep (now : time)
  | OMarkUnsaved (principal : Principal) (resultID : string) (now : time)
  | OGetThread (order : list SubmissionKey) (key : ThreadKey) (before : option ThreadTurnCursor) (limit : Z) (now : time)
  | OCloseThread (key : ThreadKey) (now : time)
  | OCheckLease (run : RunKey) (holder : string) (renewUntil : time)
  | OCancel (order : list SubmissionKey) (key : SubmissionKey) (now : time)
  | OAppend (run : RunKey) (event : RunEvent) (maxEvents : Z) (now : time)
  | OReap (order : list SubmissionKey) (taker : string) (only : option RunKey)
      (lostTerminal : string → ErrorEnvelope) (now : time)
  | OSetFeedback (principal : Principal) (resultID correct useful : string) (now : time).

Definition exec (op : inv_op) : go Store () :=
  match op with
  | OSave p r parent semantic reservation => Save p r parent semantic reservation
  | OAdmit order a now => discard (AdmitSubmission order a now)
  | OGetSubmission order key now => discard (GetSubmission order key now)
  | OFinish order key served now => discard (FinishSubmission order key served now)
  | OAbandon order key now => discard (AbandonSubmission order key now)
  | OSweep now => discard (SweepSubmissions now)
  | OMarkUnsaved p id now => discard (MarkSubmissionUnsaved p id now)
  | OGetThread order key before limit now => discard (GetThread order key before limit now)
  | OCloseThread key now => discard (CloseThread key now)
  | OCheckLease run holder until => discard (CheckRunLease run holder until)
  | OCancel order key now => modify (cancel_locked order key now)
  | OAppend run event maxEvents now => discard (AppendRunEvent run event maxEvents now)
  | OReap order taker only lostTerminal now => discard (ReapLostRuns order taker only lostTerminal now)
  | OSetFeedback p id correct useful now => discard (SetResultFeedback p id correct useful now)
  end.
End operations.

(** *** Every operation is a sequence of writes *)

Abbreviation edits ok := (rtc (edit ok)).

Section writes.
Variable ok : SubmissionAdmission → time → Prop.

(** [m] writes only by edits from a state in which [P] holds. *)
Definition writes {B} (P : Store → Prop) (m : go Store B) : Prop :=
  ∀ w r w', m w = (r, w') → P w.2 → edits ok w.2 w'.2.

Lemma writes_readonly {A} P (m : go Store A) : readonly m → writes P m.
Proof. intros Hm w r w' Hr _. rewrite (Hm _ _ _ Hr). apply rtc_refl. Qed.

Lemma writes_weaken {A} (P Q : Store → Prop) (m : go Store A) : (∀ s, Q s → P s) → writes P m → writes Q m.
Proof. intros HQ Hm w r w' Hr HP. eapply Hm; eauto. Qed.

Lemma writes_pure {A} P (r : res A) : writes P (lift_res r).
Proof. apply writes_readonly, readonly_lift. Qed.

Lemma writes_ctx {A} (k : () → go Store A) P : (writes P (k ())) → writes P (bind ctx_check k).
Proof.
  intros Hk w r w' Hr HP. apply bind_ctx in Hr as [(e & -> & ->)|(e & Hr)]; [apply rtc_refl|].
  exact (Hk _ _ _ Hr HP).
Qed.

Lemma writes_now {A} (k : time → go Store A) P : (∀ t, writes P (k t)) → writes P (bind now k).
Proof. intros Hk w r w' Hr HP. apply bind_now in Hr as (t & e & Hr). exact (Hk t _ _ _ Hr HP). Qed.

Lemma writes_lift {A B} (x : res A) (k : A → go Store B) P :
  (∀ a, x = Ok a → writes P (k a)) → writes P (bind (lift_res x) k).
Proof.
  intros Hk w r w' Hr HP. unfold bind, lift_res in Hr. destruct x as [a|e|]; [|simplify_eq; apply rtc_refl..].
  exact (Hk a eq_refl _ _ _ Hr HP).
Qed.

Lemma writes_get {A} (k : Store → go Store A) P : (∀ s, P s → writes (eq s) (k s)) → writes P (bind get k).
Proof. intros Hk [e s] r w' Hr HP. exact (Hk s HP _ _ _ Hr eq_refl). Qed.

(** A write, after which the rest only reads. *)
Lemma writes_modify {A} (f : Store → Store) (k : () → go Store A) P :
  (∀ s, P s → edits ok s (f s)) → readonly (k ()) → writes P (bind (modify f) k).
Proof.
  intros Hf Hk [e s] r w' Hr HP. unfold bind, modify in Hr. cbn in Hr. rewrite (Hk _ _ _ Hr). by apply Hf.
Qed.

Lemma writes_bind {A B} (m : go Store A) (k : A → go Store B) P :
  writes P m → (∀ a, writes (λ _, True) (k a)) → writes P (bind m k).
Proof.
  intros Hm Hk w r w' Hr HP. unfold bind in Hr. destruct (m w) as [[a|e|] w1] eqn:Hw.
  - etrans; [exact (Hm _ _ _ Hw HP)|exact (Hk a _ _ _ Hr I)].
  - simplify_eq. exact (Hm _ _ _ Hw HP).
  - simplify_eq. exact (Hm _ _ _ Hw HP).
Qed.

Lemma writes_then {A B} (m : go Store A) (k : A → go Store B) P :
  writes P m → (∀ a, readonly (k a)) → writes P (bind m k).
Proof. intros Hm Hk. apply writes_bind; [done|]. intros a. by apply writes_readonly. Qed.

Lemma writes_refuse {A} (b : bool) e (k : go Store A) P : (b = false → writes P k) → writes P (if b then fail e else k).
Proof. destruct b; [intros _; apply writes_readonly, readonly_fail|auto]. Qed.

Lemma writes_discard {A} P (m : go Store A) : writes P m → writes P (discard m).
Proof. intros Hm w r w' Hr HP. apply discard_inv in Hr as (r0 & Hr & _). eauto. Qed.

(** *** One record's end *)

Lemma reconcile_edit s key record now :
  st_submissions s !! key = Some record → (reconcileLocked record now s).2 = true →
  edit ok s (set_submission key (reconcileLocked record now s).1 s).
Proof.
  intros Hk. unfold reconcileLocked. destruct (negb _ && negb _) eqn:Hst; [done|].
  apply andb_false_iff in Hst. rewrite !negb_false_iff, !bool_decide_eq_true in Hst.
  destruct (ownedByLocked _ _ s) eqn:Ho; [intros _; cbn; eapply edit_end; [done|by left]|].
  destruct (bool_decide _ && _) eqn:Hx; [|done]. intros _. cbn.
  apply andb_true_iff in Hx as [Hx _]. apply bool_decide_eq_true in Hx. eapply edit_end; [done|by left].
Qed.

Lemma find_stored order key s key' record :
  findSubmissionLocked order key s = Some (key', record) → st_submissions s !! key' = Some record.
Proof.
  unfold findSubmissionLocked. destruct (st_submissions s !! key) eqn:Hk; [intros [= <- <-]; done|].
  intros Hf. apply bind_Some in Hf as ([i [k r]] & Hf & [= -> ->]). apply list_find_Some in Hf as (Hf & _ & _).
  apply list_elem_of_lookup_2, list_elem_of_omap in Hf as (k0 & _ & Hf).
  apply fmap_Some in Hf as (r0 & Hf & [= <- <-]). done.
Qed.

Lemma reconcile_at_writes key record now s :
  st_submissions s !! key = Some record → writes (eq s) (reconcile_at key record now).
Proof.
  intros Hk w r w' Hr Hs. unfold reconcile_at in Hr. rewrite bind_get, <- Hs in Hr.
  pose proof (reconcile_edit s key record now Hk) as Hed.
  destruct w as [e s0]. cbn in Hs. subst s0. cbn in Hed.
  destruct (reconcileLocked record now s) as [rec changed]. cbn in Hed.
  destruct changed; unfold bind, modify, get, ret in Hr; cbn in Hr; simplify_eq; [by apply rtc_once, Hed|apply rtc_refl].
Qed.

Lemma sweep_edits now s : edits ok s (st_set_submissions ((λ r, (reconcileLocked r now s).1) <$> st_submissions s) s).
Proof.
  set (f r := (reconcileLocked r now s).1).
  assert (∀ m (done : gmap SubmissionKey SubmissionRecord), (∀ k, done !! k = None → m !! k = st_submissions s !! k) →
    (∀ k r, done !! k = Some r → m !! k = Some (f r) ∧ st_submissions s !! k = Some r) →
    edits ok s (st_set_submissions m s)) as Hgen; cycle 1.
  { apply (Hgen _ (st_submissions s)); [|intros k r Hk; by rewrite lookup_fmap, Hk].
    intros k Hk. by rewrite lookup_fmap, Hk. }
  intros m done. revert m. induction done as [|k r done Hk IH] using map_ind; intros m Hm Hd.
  { assert (m = st_submissions s) as -> by (apply map_eq; intros k; by apply Hm, lookup_empty).
    destruct s. apply rtc_refl. }
  destruct (Hd k r (lookup_insert_eq _ _ _)) as [Hmk Hsk].
  set (m0 := <[k := r]> m).
  assert (edits ok s (st_set_submissions m0 s)) as He.
  { apply (IH m0).
    - intros k' Hk'. unfold m0. destruct (decide (k = k')) as [->|Hne]; [by rewrite lookup_insert_eq|].
      rewrite lookup_insert_ne by done. apply Hm. by rewrite lookup_insert_ne.
    - intros k' r' Hk'. assert (k ≠ k') by congruence. unfold m0. rewrite lookup_insert_ne by done.
      apply Hd. by rewrite lookup_insert_ne. }
  etrans; [exact He|].
  assert (m = <[k := f r]> m0) as Em.
  { unfold m0. rewrite insert_insert_eq. by rewrite insert_id. }
  destruct (reconcileLocked r now s).2 eqn:Hc.
  - pose proof (reconcile_edit (st_set_submissions m0 s) k r now) as Hed.
    assert (reconcileLocked r now (st_set_submissions m0 s) = reconcileLocked r now s) as Er by reflexivity.
    rewrite Er in Hed. apply rtc_once. rewrite Em. apply Hed; [|done]. unfold m0. cbn. by rewrite lookup_insert_eq.
  - assert (f r = r) as Ef.
    { unfold f, reconcileLocked in *. repeat case_match; try done; cbn in Hc; congruence. }
    rewrite Em, Ef. unfold m0. rewrite insert_insert_eq. apply rtc_refl.
Qed.

Section operations.
Context `{InvestigationLib}.

Ltac stop := solve [apply writes_readonly; first [apply readonly_fail | apply readonly_ret | apply readonly_panic]].

Lemma found_cases (order : list SubmissionKey) (key : SubmissionKey) (s : Store) :
  findSubmissionLocked order key s = None
  ∨ ∃ key' record, findSubmissionLocked order key s = Some (key', record) ∧ st_submissions s !! key' = Some record.
Proof.
  destruct (findSubmissionLocked order key s) as [[k r]|] eqn:Hf; [|by left]. right. exists k, r.
  split; [done|]. by eapply find_stored.
Qed.

Lemma Admit_writes order a now : ok a now → writes (λ _, True) (AdmitSubmission order a now).
Proof.
  intros Hok. unfold AdmitSubmission. apply writes_ctx, writes_lift. intros [] Ha. apply writes_get. intros s _.
  destruct (findSubmissionLocked order (sa_Key a) s) as [[k r]|] eqn:Hf.
  { apply writes_then; [by eapply reconcile_at_writes, find_stored|]. intros rec. apply readonly_ret. }
  cbv zeta. set (thread := if isEmpty (sa_ThreadID a) then None else _).
  apply writes_refuse. intros Hreason. apply writes_refuse. intros Hres. apply writes_refuse. intros Hp.
  apply writes_refuse. intros Ho. apply writes_refuse. intros Hal.
  set (threadKey := match thread with Some current => th_Key current | None => _ end).
  apply bool_decide_eq_false, eq_None_not_Some in Hres.
  assert (edit ok s (insert_submission a thread threadKey now s)) as Hed.
  { apply (edit_admit ok s a thread threadKey now order); try done; [|by apply Z.leb_gt..].
    unfold threadKey. destruct thread as [t|]; [|done]. apply negb_false_iff in Hreason.
    split; [|done]. unfold isEmpty in Hreason. by destruct (ClosedReason t now). }
  set (s1 := insert_submission a thread threadKey now s) in Hed.
  assert (∀ u, insert_submission a thread threadKey now (st_set_usage u s) = st_set_usage u s1) as Eu
    by (intros u; unfold s1, insert_submission; by destruct (isEmpty (sa_ThreadID a))).
  assert (st_usage s1 = st_usage s) as Eu1
    by (unfold s1, insert_submission; by destruct (isEmpty (sa_ThreadID a))).
  destruct (sa_PlatformRun a) eqn:Hpr; intros w r w' Hr Hs; unfold bind, modify, ret in Hr; injection Hr as <- <-; rewrite <- Hs.
  - cbn [snd fst]. rewrite Eu, <- Eu1. eapply rtc_l; [exact Hed|]. apply rtc_once, (edit_usage _ _ a now); [done|done|].
    apply Z.leb_gt. by rewrite Eu1.
  - by apply rtc_once.
Qed.

Lemma GetSubmission_writes order key now : writes (λ _, True) (GetSubmission order key now).
Proof.
  unfold GetSubmission. apply writes_ctx. destruct (validSubmissionKey key); [|stop..]. apply writes_get. intros s _.
  destruct (found_cases order key s) as [->|(k & r & -> & Hk)]; [stop|]. by apply reconcile_at_writes.
Qed.

Lemma set_writes key record s (B : Type) (b : B) :
  edits ok s (set_submission key record s) → writes (eq s) (modify (set_submission key record) ;; ret b).
Proof. intros He. apply writes_modify; [by intros ? <-|apply readonly_ret]. Qed.

Lemma Finish_writes order key served now : writes (λ _, True) (FinishSubmission order key served now).
Proof.
  unfold FinishSubmission. apply writes_lift. intros [] _. apply writes_ctx, writes_get. intros s _.
  destruct (found_cases order key s) as [->|(k & r & -> & Hk)]; [stop|].
  destruct (sr_State r) eqn:Hst; [|stop..].
  destruct (negb (isEmpty served) && ownedByLocked served k s) eqn:Hown; apply set_writes, rtc_once;
    eapply edit_end; try exact Hk; right; cbn; [|by auto].
  apply andb_true_iff in Hown as [_ Hown]. auto.
Qed.

Lemma Abandon_writes order key now : writes (λ _, True) (AbandonSubmission order key now).
Proof.
  unfold AbandonSubmission. apply writes_lift. intros [] _. apply writes_ctx, writes_get. intros s _.
  destruct (found_cases order key s) as [->|(k & r & -> & Hk)]; [stop|].
  destruct (bool_decide _) eqn:Hst; [|stop]. apply bool_decide_eq_true in Hst.
  apply set_writes, rtc_once. eapply edit_end; [exact Hk|right; cbn; auto].
Qed.

Lemma Sweep_writes now : writes (λ _, True) (SweepSubmissions now).
Proof.
  unfold SweepSubmissions. apply writes_ctx, writes_get. intros s _. apply writes_modify; [|apply readonly_ret].
  intros ? <-. apply sweep_edits.
Qed.

Lemma MarkUnsaved_writes p id now : writes (λ _, True) (MarkSubmissionUnsaved p id now).
Proof.
  unfold MarkSubmissionUnsaved. apply writes_ctx, writes_get. intros s _.
  destruct (st_reserved s !! _) as [k|]; cbn; [|stop]. destruct (st_submissions s !! k) as [r|] eqn:Hk; cbn; [|stop].
  destruct (negb _ || negb _) eqn:Hc; [stop|]. apply orb_false_iff in Hc as [Hst _].
  apply negb_false_iff, bool_decide_eq_true in Hst.
  apply set_writes, rtc_once. eapply edit_end; [exact Hk|right; cbn; auto].
Qed.

Lemma turns_writes threadID row before now order : writes (λ _, True) (turns_loop threadID row before now order).
Proof.
  induction order as [|k order IH]; cbn [turns_loop]; [stop|]. apply writes_get. intros s _.
  destruct (st_submissions s !! k) as [r|] eqn:Hk; [|by eapply writes_weaken, IH].
  destruct (negb _ || _); [by eapply writes_weaken, IH|].
  pose proof (reconcile_edit s k r now Hk) as Hed. destruct (reconcileLocked r now s) as [rec changed].
  apply writes_bind.
  - destruct changed; [|stop]. intros [e s0] r0 w' Hr Hs. cbn in Hs. subst s0.
    injection Hr as <- <-. by apply rtc_once, Hed.
  - intros _. apply writes_then; [exact IH|]. intros rest. apply readonly_ret.
Qed.

Lemma GetThread_writes order key before limit now : writes (λ _, True) (GetThread order key before limit now).
Proof.
  unfold GetThread. apply writes_ctx, writes_refuse. intros _. apply writes_get. intros s _.
  destruct (findThreadLocked _ _ _ s) as [t|]; [|stop]. apply writes_refuse. intros _.
  apply writes_then; [by eapply writes_weaken, turns_writes|]. intros turns. go_struct.
Qed.

(** The thread found is a row of the store, and the owner reaches it. *)
Lemma better_in owner best l t :
  foldl (better owner) best l = Some t → best = Some t ∨ t ∈ l.
Proof.
  revert best. induction l as [|x l IH]; intros best; cbn [foldl]; [by left|].
  intros Hf. apply IH in Hf as [Hf|Hf]; [|right; by right].
  unfold better in Hf. destruct best as [b|]; [case_match; simplify_eq; [right; by left|by left]|].
  simplify_eq. right. by left.
Qed.

Lemma found_thread orgID owner threadID s t :
  findThreadLocked orgID owner threadID s = Some t →
  ∃ row, st_threads s !! row = Some t ∧ tr_orgID row = orgID ∧ tr_threadID row = threadID
         ∧ SameSubmissionOwner (tk_Owner (th_Key t)) owner = true.
Proof.
  intros [Hf|Hf]%better_in; [done|]. apply list_elem_of_fmap in Hf as ([row t'] & -> & Hf). cbn.
  apply list_elem_of_filter in Hf as [Hr Hf]. apply elem_of_map_to_list in Hf. exists row.
  unfold reaches in Hr. apply andb_true_iff in Hr as [[Ho Hs]%andb_true_iff Hi].
  apply bool_decide_eq_true in Ho, Hi. done.
Qed.

Lemma CloseThread_writes key now : writes (λ _, True) (CloseThread key now).
Proof.
  unfold CloseThread. apply writes_ctx, writes_lift. intros [] _. apply writes_get. intros s _.
  destruct (findThreadLocked _ _ _ s) as [t|] eqn:Hf; [|stop]. apply found_thread in Hf as (row & Hrow & _).
  destruct (Closed t now) eqn:Hc; [stop|]. unfold Closed in Hc. apply orb_false_iff in Hc as [Hc _].
  apply bool_decide_eq_false, eq_None_not_Some in Hc.
  apply writes_modify; [|apply readonly_ret]. intros ? <-. by apply rtc_once, (edit_close _ _ _ row).
Qed.

Lemma run_record run s k r : recordOfRunLocked run s = Some (k, r) →
  st_reserved s !! (rk_OrgID run, rk_ReservedResultID run) = Some k ∧ st_submissions s !! k = Some r.
Proof.
  unfold recordOfRunLocked. intros Hf. apply bind_Some in Hf as (k' & Hres & Hf).
  apply fmap_Some in Hf as (r' & Hk & [= -> ->]). done.
Qed.

Lemma CheckLease_writes run holder until : writes (λ _, True) (CheckRunLease run holder until).
Proof.
  unfold CheckRunLease. apply writes_ctx, writes_get. intros s _.
  destruct (recordOfRunLocked run s) as [[k r]|] eqn:Hf; [|stop]. apply run_record in Hf as [_ Hk].
  cbv zeta. destruct (Held holder _ && _) eqn:Hh; [|stop].
  apply andb_true_iff in Hh as [Hh _]. unfold Held in Hh. cbn in Hh. rewrite !andb_true_iff, !bool_decide_eq_true in Hh.
  destruct Hh as [[[= Hst] He] Hh].
  apply writes_then; [|intros; apply readonly_ret]. destruct (time_After until _) eqn:Ha; [|stop].
  intros [e s0] r0 w' Hr Hs. cbn in Hs. subst s0. injection Hr as <- <-. apply rtc_once.
  unfold time_After in Ha. eapply edit_renew; [done|done| |by apply bool_decide_eq_true in Ha]. unfold isEmpty in He. by destruct (sr_LeaseHolder r).
Qed.

Lemma Cancel_writes order key now : writes (λ _, True) (modify (cancel_locked order key now)).
Proof.
  intros [e s] r0 w' Hr _. injection Hr as <- <-. cbn [snd fst]. unfold cancel_locked.
  destruct (found_cases order key s) as [->|(k & r & -> & Hk)]; [apply rtc_refl|].
  destruct (_ && _ && _) eqn:Hc; [|apply rtc_refl]. rewrite !andb_true_iff, bool_decide_eq_true in Hc.
  destruct Hc as [[Hst _] Hz]. apply bool_decide_eq_true in Hz. by apply rtc_once, edit_cancel.
Qed.

Lemma Append_writes run event maxEvents now : writes (λ _, True) (AppendRunEvent run event maxEvents now).
Proof.
  unfold AppendRunEvent. apply writes_ctx, writes_refuse. intros Hseq. apply writes_lift. intros [] _.
  apply writes_get. intros s _. destruct (recordOfRunLocked run s) as [kr|] eqn:Hf; [|stop].
  cbv zeta. destruct (list_find _ _) as [[i row]|] eqn:Hfind; [go_struct; stop|].
  destruct (hasTerminal _) eqn:Ht; [go_struct; stop|].
  apply writes_modify; [|apply readonly_ret]. intros ? <-. apply rtc_once.
  apply edit_log; [by rewrite Hf|cbn; lia|case_match; [done|lia]| |done].
  intros row Hrow Hs. apply list_find_None in Hfind. rewrite Forall_forall in Hfind. exact (Hfind row Hrow Hs).
Qed.

Lemma lost_edit only now key r taker lostTerminal s :
  st_submissions s !! key = Some r → lost_run only now key r s = true →
  edit ok s (reap_one taker lostTerminal now key r s).2.
Proof.
  intros Hk Hl. unfold lost_run in Hl. apply andb_true_iff in Hl as [_ Hl].
  rewrite negb_true_iff, !orb_false_iff, !negb_false_iff, bool_decide_eq_true in Hl. destruct Hl as [[[Hst Hls] Hb] Ho].
  unfold Leased, isEmpty in Hls. apply bool_decide_eq_false, Z.nlt_ge in Hb. apply edit_take; [done|done| |done|done].
  by destruct (sr_LeaseHolder r).
Qed.

Lemma reap_edits taker only lostTerminal now order w :
  edits ok w.2 (reap_loop taker only lostTerminal now order w).2.
Proof.
  unfold reap_loop. revert w. induction order as [|k order IH]; intros w; cbn [foldl]; [apply rtc_refl|].
  etrans; [|apply IH]. clear IH. destruct (st_submissions w.2 !! k) as [r|] eqn:Hk; [|apply rtc_refl].
  destruct (lost_run _ _ _ _ _) eqn:Hl; [|apply rtc_refl].
  pose proof (lost_edit only now k r taker lostTerminal w.2 Hk Hl) as He.
  destruct (reap_one _ _ _ _ _ _). by apply rtc_once.
Qed.

Lemma Reap_writes order taker only lostTerminal now : writes (λ _, True) (ReapLostRuns order taker only lostTerminal now).
Proof.
  unfold ReapLostRuns. apply writes_ctx, writes_refuse. intros _. apply writes_get. intros s _.
  pose proof (reap_edits taker only lostTerminal now order ([], s)) as He.
  destruct (reap_loop _ _ _ _ _ _) as [lost s']. intros [e s0] r0 w' Hr Hs. cbn in Hs. subst s0.
  injection Hr as <- <-. exact He.
Qed.

Lemma SetFeedback_writes p id correct useful now : writes (λ _, True) (SetResultFeedback p id correct useful now).
Proof.
  unfold SetResultFeedback. apply writes_ctx, writes_refuse. intros _. apply writes_get. intros s _.
  apply writes_refuse. intros Hf. cbv zeta. apply writes_modify; [|apply readonly_ret]. intros ? <-. apply rtc_once.
  apply negb_false_iff in Hf. unfold feedbackResultLocked in Hf. destruct (_ || _); [done|].
  destruct (st_results s !! id) as [stored|] eqn:Hid; [|done]. rewrite !andb_true_iff in Hf.
  destruct Hf as [[_ Hf] _]. eapply edit_feedback; [done|]. by destruct (en_owner stored).
Qed.

(** What the completion of a record at a save does. *)
Lemma complete_spec p orgID id w :
  ∃ owner e s, completeSubmissionLocked p orgID id w = (Ok owner, (e, s))
    ∧ (s = w.2
       ∨ ∃ key record at_, st_reserved w.2 !! (orgID, id) = Some key ∧ st_submissions w.2 !! key = Some record
           ∧ (sr_State record = SubmissionRunning ∨ sr_State record = SubmissionAbandoned)
           ∧ owner = Some (sk_Owner (sr_Key record))
           ∧ s = set_submission key (sr_set_outcome SubmissionDone id at_ record) w.2).
Proof.
  destruct w as [e s]. unfold completeSubmissionLocked. rewrite bind_get. cbn [snd fst].
  destruct (st_reserved s !! (orgID, id)) as [k|] eqn:Hres; cbn [mbind option_bind]; [|by eexists None, e, s; auto].
  destruct (st_submissions s !! k) as [r|] eqn:Hk; cbn; [|by eexists None, e, s; auto].
  destruct (negb _); [by eexists None, e, s; auto|].
  destruct (bool_decide _ || bool_decide _) eqn:Hst; [|by eexists (Some _), e, s; auto].
  rewrite orb_true_iff, !bool_decide_eq_true in Hst.
  unfold bind, now, modify, ret. cbn [fst snd].
  destruct (env_clock e) as [|t [|t2 l]];
    (eexists (Some _), _, _; split; [reflexivity|right; exists k, r; eexists; done]).
Qed.

Lemma Save_writes p r parent semantic reservation : writes (λ _, True) (Save p r parent semantic reservation).
Proof.
  unfold Save. apply writes_ctx. cbv zeta. set (orgID := strings_TrimSpace (pr_OrgID p)).
  set (id := strings_TrimSpace (ir_ResultID r)). apply writes_refuse. intros _. apply writes_lift. intros [] _.
  apply writes_refuse. intros _. destruct (json_Marshal r) as [payload|]; [|stop].
  destruct (EncodedColumn semantic) as [column|]; [|stop]. apply writes_get. intros s _.
  destruct (st_results s !! id) as [existing|] eqn:Hid; [apply writes_readonly; go_struct|].
  apply writes_refuse. intros _. set (claims := structureSupersessionClaims r). apply writes_refuse. intros Hc.
  apply negb_false_iff, bool_decide_eq_true in Hc.
  assert (∀ c, c ∈ claims → st_claims s !! (orgID, c.1, c.2) = None) as Hfree.
  { intros c Hin. apply eq_None_not_Some. intros Hs.
    assert (c ∈ filter (λ c, is_Some (st_claims s !! (orgID, c.1, c.2))) claims) as Hf
      by (by apply list_elem_of_filter). rewrite Hc in Hf. by apply not_elem_of_nil in Hf. }
  intros [e s0] r0 w' Hr Hs. cbn in Hs. subst s0.
  set (claimed := st_set_claims (foldl (λ (m : claims_map) c, <[(orgID, c.1, c.2) := id]> m) (st_claims s) claims) s).
  unfold bind at 1, modify at 1 in Hr. cbn [fst snd] in Hr. change (st_set_claims _ s) with claimed in Hr.
  unfold bind at 1 in Hr.
  destruct (complete_spec p orgID id (e, claimed)) as (owner & e' & s' & Hrun & Hs). rewrite Hrun in Hr.
  injection Hr as <- <-. cbn [fst snd]. apply rtc_once.
  destruct Hs as [->|(k & rec & at_ & Hres & Hk & Hst & -> & ->)]; eapply (edit_claims _ _ orgID id claims);
    try done; try reflexivity; [by left|]. right. by exists k, rec, at_.
Qed.

(** The admissions of an operation. *)
Definition op_admits (op : inv_op) : Prop := match op with OAdmit _ a now => ok a now | _ => True end.

Lemma exec_writes op : op_admits op → writes (λ _, True) (exec op).
Proof.
  destruct op; cbn; intros Hok; try apply writes_discard;
    auto using Save_writes, Admit_writes, GetSubmission_writes, Finish_writes, Abandon_writes, Sweep_writes,
      MarkUnsaved_writes, GetThread_writes, CloseThread_writes, CheckLease_writes, Cancel_writes, Append_writes,
      Reap_writes, SetFeedback_writes.
Qed.

Lemma exec_edits op w r w' : op_admits op → exec op w = (r, w') → edits ok w.2 w'.2.
Proof. intros Hok Hr. by eapply exec_writes. Qed.
End operations.
End writes.
