(* ===== verification/InvestigationInvariant.v ===== *)
(** * InvestigationInvariant: a consistent investigation store

    The maps of the store agree: a record lies under its own key and the
    reservation index knows it, a claim and a feedback row point at stored
    results, a thread's row is its key and its expiry is its last turn plus the
    window, and the log of a run is in order with at most one terminal.  Every
    write of [edit] and of [retire] keeps that. *)

From Stdlib Require Import ZArith Lia Ascii.
From stdpp Require Import sorting pretty numbers gmap strings list_numbers list relations.
From S2P Require Import Prelude GoStrings GoText Sha256 Grants Submissions InvestigationStore InvestigationProofs.

Open Scope Z_scope.

(** ** The invariant *)

Definition log_in_order (rows : list RunEvent) : Prop :=
  StronglySorted (λ a b, re_Seq a < re_Seq b) rows ∧ Forall (λ row, 1 ≤ re_Seq row) rows
  ∧ (length (filter (λ row, is_terminal row = true) rows) ≤ 1)%nat.

(** The number a takeover writes after the last row is 64 bits wide: after the
    greatest one it wraps around, and only the terminal, at the end, can be out
    of order. *)
Definition log_ok (rows : list RunEvent) : Prop :=
  log_in_order rows
  ∨ ∃ front l row, rows = front ++ [row] ∧ log_in_order front ∧ hasTerminal front = false ∧ last front = Some l
      ∧ 2 ^ 63 ≤ re_Seq l + 1 ∧ re_Seq row = i64 (re_Seq l + 1) ∧ is_terminal row = true.

Definition thread_ok (row : threadRowKey) (t : ThreadRecord) : Prop :=
  rowKeyOf (th_Key t) = row ∧ 1 ≤ th_TurnCount t ≤ ContextFabricThreadMaxTurnCount
  ∧ th_CreatedAt t ≤ th_LastTurnAt t ∧ retention_Valid (th_RetentionDays t) = true
  ∧ th_ExpiresAt t = ContextFabricThreadExpiresAt (th_LastTurnAt t) (th_RetentionDays t)
  ∧ so_Subject (tk_Owner (th_Key t)) ≠ "".

Definition record_ok (key : SubmissionKey) (record : SubmissionRecord) : Prop :=
  sr_Key record = key ∧ validSubmissionKey key = Ok ().

Definition keyed (s : Store) : Prop := ∀ k r, st_submissions s !! k = Some r → record_ok k r.

Record consistent (s : Store) : Prop := Consistent {
  cons_keyed : keyed s;
  cons_reserved : ∀ o id k, st_reserved s !! (o, id) = Some k →
    ∃ r, st_submissions s !! k = Some r ∧ sk_OrgID k = o ∧ sr_ReservedResultID r = id;
  cons_index : ∀ k r, st_submissions s !! k = Some r → IsErasedReservedResultID (sr_ReservedResultID r) = false →
    st_reserved s !! (sk_OrgID k, sr_ReservedResultID r) = Some k;
  cons_claims : ∀ o prior member id, st_claims s !! (o, prior, member) = Some id →
    ∃ e, st_results s !! id = Some e ∧ en_orgID e = o;
  cons_feedback : ∀ id f, st_feedback s !! id = Some f → ∃ e, st_results s !! id = Some e ∧ is_Some (en_owner e);
  cons_threads : ∀ row t, st_threads s !! row = Some t → thread_ok row t;
  cons_runs : ∀ run rows, st_runEvents s !! run = Some rows →
    (IsErasedReservedResultID (rk_ReservedResultID run) = false →
     is_Some (st_reserved s !! (rk_OrgID run, rk_ReservedResultID run))) ∧ log_ok rows;
}.

Lemma new_consistent b : consistent (NewStore b).
Proof.
  split; cbn; unfold keyed; cbn; intros *; try (rewrite lookup_empty; discriminate).
Qed.

(** *** One record replaced *)

Lemma consistent_set s key r r' :
  consistent s → st_submissions s !! key = Some r → sr_Key r' = sr_Key r →
  sr_ReservedResultID r' = sr_ReservedResultID r → consistent (set_submission key r' s).
Proof.
  intros [H1 H2 H3 H4 H5 H6 H7] Hk Ek Er. destruct (H1 _ _ Hk) as [Hkey Hval].
  split; cbn [set_submission st_set_submissions st_submissions st_reserved st_claims st_results st_feedback st_threads st_runEvents];
    auto.
  - intros k0 r0. cbn. intros [[<- <-]|[_ Hk0]]%lookup_insert_Some; [|by apply H1].
    split; [by rewrite Ek|done].
  - intros o id k0 Hres. destruct (H2 _ _ _ Hres) as (r0 & Hk0 & Ho & Hid).
    destruct (decide (k0 = key)) as [->|Hne]; [|exists r0; by rewrite lookup_insert_ne].
    exists r'. rewrite lookup_insert_eq. split; [done|]. split; [done|]. rewrite Er. congruence.
  - intros k0 r0 [[<- <-]|[_ Hk0]]%lookup_insert_Some Hera; [|by apply H3].
    rewrite Er. apply H3; [done|by rewrite <- Er].
Qed.

(** *** Admission *)

Lemma Advance_ok thread threadKey turn retention :
  so_Subject (tk_Owner threadKey) ≠ "" →
  (∀ t, thread = Some t → thread_ok (rowKeyOf threadKey) t ∧ th_TurnCount t < ContextFabricThreadMaxTurnCount) →
  match retention with Some r => retention_Valid r = true | None => True end →
  thread_ok (rowKeyOf threadKey) (AdvanceThread thread threadKey turn retention).
Proof.
  unfold ContextFabricThreadMaxTurnCount. intros Hsub Ht Hr.
  assert (retention_Valid ContextFabricThreadDefaultRetention = true) as Hd by reflexivity.
  unfold AdvanceThread. destruct thread as [t|].
  - destruct (Ht t eq_refl) as [(Hk & Hc & Hl & Hv & He & Hs) Hm].
    assert ((if time_Before (tc_AdmittedAt turn) (th_CreatedAt t) then tc_AdmittedAt turn else th_CreatedAt t)
      ≤ (if time_After (tc_AdmittedAt turn) (th_LastTurnAt t) then tc_AdmittedAt turn else th_LastTurnAt t)) as Hle.
    { unfold time_Before, time_After. do 2 case_bool_decide; lia. }
    lazymatch goal with |- context [let '(days, setBy) := ?p in _] =>
      assert (retention_Valid p.1 = true) as Hp; [|destruct p as [days setBy]; cbn in Hp] end.
    { destruct retention as [d|]; cbn; [|done]. by destruct (th_RetentionSetBy t); [destruct (negb _)|]. }
    unfold thread_ok, ContextFabricThreadMaxTurnCount. cbn. split_and!; first [exact Hk | exact Hle | done | lia].
  - destruct retention as [d|]; unfold thread_ok, ContextFabricThreadMaxTurnCount; cbn; split_and!; done || lia.
Qed.

Lemma ClosedReason_open t now : ClosedReason t now = "" → th_ClosedAt t = None ∧ th_TurnCount t < ContextFabricThreadMaxTurnCount.
Proof.
  unfold ClosedReason. case_bool_decide as Hc; [done|]. case_match; [done|].
  destruct (Z.leb_spec ContextFabricThreadMaxTurnCount (th_TurnCount t)); [done|]. intros _. split; [|done].
  by apply eq_None_not_Some.
Qed.

Lemma admission_valid a now : admission_in_order a now = Ok () →
  validSubmissionKey (sa_Key a) = Ok () ∧ match sa_ThreadRetention a with Some r => retention_Valid r = true | None => True end.
Proof.
  unfold admission_in_order. destruct (validSubmissionKey (sa_Key a)) as [[]|e|]; cbn [res_bind]; [|done..].
  intros Ha. split; [done|]. destruct (_ || _ || _); [done|]. destruct (_ && _); [done|].
  destruct (sa_ThreadRetention a) as [r|]; [|done]. by destruct (retention_Valid r).
Qed.

Lemma valid_subject key : validSubmissionKey key = Ok () → so_Subject (sk_Owner key) ≠ "".
Proof.
  unfold validSubmissionKey. intros Hv E. rewrite E in Hv. cbn in Hv. by rewrite orb_true_r in Hv.
Qed.

Lemma find_none order key s : findSubmissionLocked order key s = None → st_submissions s !! key = None.
Proof. unfold findSubmissionLocked. by destruct (st_submissions s !! key). Qed.

(** An admission's store, field by field. *)
Lemma insert_submission_eq a thread threadKey now s :
  let s' := insert_submission a thread threadKey now s in
  st_submissions s' = <[sa_Key a := admitted_record a (tk_Owner threadKey) now]> (st_submissions s)
  ∧ st_reserved s' = <[(sk_OrgID (sa_Key a), sa_ReservedResultID a) := sa_Key a]> (st_reserved s)
  ∧ st_claims s' = st_claims s ∧ st_results s' = st_results s ∧ st_feedback s' = st_feedback s
  ∧ st_runEvents s' = st_runEvents s ∧ st_usage s' = st_usage s
  ∧ st_threads s' = (if isEmpty (sa_ThreadID a) then st_threads s
      else <[rowKeyOf threadKey := AdvanceThread thread threadKey
               (TurnCursor now (sk_SubmissionID (sa_Key a))) (sa_ThreadRetention a)]> (st_threads s)).
Proof. cbn. unfold insert_submission. destruct (isEmpty (sa_ThreadID a)); cbn; auto 10. Qed.

Lemma admitted_fields a owner now :
  sr_Key (admitted_record a owner now) = sa_Key a
  ∧ sr_ReservedResultID (admitted_record a owner now) = sa_ReservedResultID a
  ∧ sr_State (admitted_record a owner now) = SubmissionRunning
  ∧ sr_ExpiresAt (admitted_record a owner now) = sa_ExpiresAt a.
Proof. unfold admitted_record. destruct (sa_Lease a); cbn; auto. Qed.

(** *** Run logs *)

Abbreviation seq_lt := (λ a b : RunEvent, re_Seq a < re_Seq b).

#[global] Instance seq_le_trans : Transitive seq_le.
Proof. intros a b c. unfold seq_le. lia. Qed.
#[global] Instance seq_le_total : Total seq_le.
Proof. intros a b. unfold seq_le. lia. Qed.

Lemma distinct_sorted l : StronglySorted seq_le l → NoDup (re_Seq <$> l) → StronglySorted seq_lt l.
Proof.
  induction l as [|x l IH]; intros Hs Hn; [constructor|]. apply StronglySorted_cons in Hs as [Hx Hs].
  rewrite fmap_cons in Hn. apply NoDup_cons in Hn as [Hnx Hn]. constructor; [by apply IH|].
  apply Forall_forall. intros y Hy. rewrite Forall_forall in Hx. specialize (Hx y Hy). unfold seq_le in Hx.
  assert (re_Seq x ≠ re_Seq y) by (intros E; apply Hnx; rewrite E; by apply list_elem_of_fmap_2). lia.
Qed.

Lemma sorted_distinct l : StronglySorted seq_lt l → NoDup (re_Seq <$> l).
Proof.
  induction l as [|x l IH]; intros Hs; [constructor|]. apply StronglySorted_cons in Hs as [Hx Hs].
  rewrite fmap_cons. apply NoDup_cons. split; [|by apply IH]. intros (y & E & Hy)%list_elem_of_fmap.
  rewrite Forall_forall in Hx. specialize (Hx y Hy). cbn in Hx. lia.
Qed.

Lemma filter_sorted {A} (R : A → A → Prop) (P : A → Prop) `{∀ x, Decision (P x)} l :
  StronglySorted R l → StronglySorted R (filter P l).
Proof.
  induction l as [|x l IH]; intros Hs; [constructor|]. apply StronglySorted_cons in Hs as [Hx Hs].
  rewrite filter_cons. case_decide; [|by apply IH]. constructor; [by apply IH|].
  rewrite Forall_forall in *. intros y [_ Hy]%list_elem_of_filter. by apply Hx.
Qed.

Lemma no_terminal rows : hasTerminal rows = false ↔ filter (λ row, is_terminal row = true) rows = [].
Proof.
  induction rows as [|row rows IH]; [done|].
  rewrite filter_cons. cbn [hasTerminal existsb]. unfold hasTerminal in IH.
  destruct (is_terminal row) eqn:Ht; case_decide; try congruence; try done.
Qed.

(** The rows of the longer log, in order. *)
Lemma one_more_row rows event l :
  log_in_order rows → 1 ≤ re_Seq event → (∀ row, row ∈ rows → re_Seq row ≠ re_Seq event) → hasTerminal rows = false →
  l ≡ₚ rows ++ [event] → StronglySorted seq_le l → log_in_order l.
Proof.
  intros (Hs & Hpos & Hc) Hseq Hnew Ht Hp Hsl. unfold log_in_order. split_and!.
  - apply distinct_sorted; [done|]. rewrite Hp, fmap_app. apply NoDup_app. split; [by apply sorted_distinct|].
    split; [|apply NoDup_singleton]. intros q (row & -> & Hrow)%list_elem_of_fmap Hq.
    apply list_elem_of_singleton in Hq. by apply (Hnew row).
  - rewrite Hp. apply Forall_app. by rewrite Forall_singleton.
  - rewrite Hp, filter_app. apply no_terminal in Ht. rewrite Ht. cbn. case_decide; cbn; lia.
Qed.

Lemma in_order_filter (P : RunEvent → Prop) `{∀ x, Decision (P x)} rows : log_in_order rows → log_in_order (filter P rows).
Proof.
  intros (Hs & Hpos & Hc). unfold log_in_order. split_and!; [by apply filter_sorted| |].
  - rewrite Forall_forall in *. intros row [_ Hrow]%list_elem_of_filter. auto.
  - etrans; [|exact Hc]. apply sublist_length. rewrite list_filter_filter.
    rewrite (list_filter_iff _ (λ row, P row ∧ is_terminal row = true)) by (intros; tauto).
    rewrite <- list_filter_filter. apply sublist_filter.
Qed.

(** A log without a terminal is in order. *)
Lemma no_terminal_order rows : log_ok rows → hasTerminal rows = false → log_in_order rows.
Proof.
  intros [Hok|(front & l & row & -> & _ & _ & _ & _ & _ & Ht)]; [done|]. intros Hf.
  unfold hasTerminal in Hf. rewrite existsb_app in Hf. cbn in Hf. by rewrite Ht, orb_true_r in Hf.
Qed.

Lemma append_ok rows event maxEvents :
  log_ok rows → 1 ≤ re_Seq event → (∀ row, row ∈ rows → re_Seq row ≠ re_Seq event) → hasTerminal rows = false →
  log_ok (append_row event maxEvents rows).
Proof.
  intros Hok0 Hseq Hnew Ht. pose proof (no_terminal_order _ Hok0 Ht) as Hok. unfold append_row. cbv zeta. left.
  assert (log_in_order (merge_sort seq_le (rows ++ [event]))) as Hl.
  { apply (one_more_row rows event); try done; [apply merge_sort_Permutation|].
    apply StronglySorted_merge_sort; apply _. }
  destruct (is_terminal event); [done|]. by apply in_order_filter.
Qed.

(** The last row has the greatest number. *)
Lemma last_greatest rows last_ row : StronglySorted seq_lt rows → last rows = Some last_ → row ∈ rows → re_Seq row ≤ re_Seq last_.
Proof.
  intros Hs Hl Hrow. apply last_Some in Hl as [l' ->].
  apply elem_of_app in Hrow as [Hrow|Hrow]; [|apply list_elem_of_singleton in Hrow as ->; lia].
  enough (re_Seq row < re_Seq last_) by lia.
  apply (StronglySorted_app_1_elem_of seq_lt _ _ row last_ Hs Hrow). by apply list_elem_of_singleton.
Qed.

Lemma lost_row_order rows event :
  log_in_order rows → re_Seq event = from_option (λ row, re_Seq row + 1) 1 (last rows) → hasTerminal rows = false →
  log_in_order (rows ++ [event]).
Proof.
  intros (Hs & Hpos & Hc) Hseq Ht.
  assert (∀ row, row ∈ rows → re_Seq row < re_Seq event) as Hlt.
  { intros row Hrow. destruct (last rows) as [l|] eqn:Hl; [|apply last_None in Hl; subst; by apply not_elem_of_nil in Hrow].
    pose proof (last_greatest _ _ _ Hs Hl Hrow). cbn in Hseq. lia. }
  assert (1 ≤ re_Seq event) as H1.
  { destruct (last rows) as [l|] eqn:Hl; cbn in Hseq; [|lia]. rewrite Forall_forall in Hpos.
    specialize (Hpos l (last_Some_elem_of _ _ Hl)). cbn in Hpos. lia. }
  apply (one_more_row rows event); try done; [intros row Hrow; specialize (Hlt row Hrow); lia|].
  apply StronglySorted_app. split_and!.
  - intros a b Ha ->%list_elem_of_singleton. unfold seq_le. specialize (Hlt a Ha). lia.
  - clear -Hs. induction Hs as [|x l Hs IH Hx]; constructor; [done|]. eapply Forall_impl; [exact Hx|].
    cbn. unfold seq_le. lia.
  - repeat constructor.
Qed.

Lemma lost_row_ok rows event :
  log_ok rows → re_Seq event = from_option (λ row, i64 (re_Seq row + 1)) 1 (last rows) → hasTerminal rows = false →
  is_terminal event = true → log_ok (rows ++ [event]).
Proof.
  intros Hok0 Hseq Ht Hterm. pose proof (no_terminal_order _ Hok0 Ht) as Hok.
  destruct (last rows) as [l|] eqn:Hl; cbn in Hseq; [|left; apply lost_row_order; [done|by rewrite Hl|done]].
  destruct (decide (2 ^ 63 ≤ re_Seq l + 1)) as [Hbig|Hsmall]; [right; by exists rows, l, event|].
  left. apply lost_row_order; [done| |done]. rewrite Hl, Hseq. cbn. apply i64_small.
  destruct Hok as (_ & Hpos & _). rewrite Forall_forall in Hpos.
  specialize (Hpos l (last_Some_elem_of _ _ Hl)). cbn in Hpos. lia.
Qed.

(** *** Every write keeps the store consistent *)

Lemma consistent_log s run rows :
  consistent s →
  (IsErasedReservedResultID (rk_ReservedResultID run) = false →
   is_Some (st_reserved s !! (rk_OrgID run, rk_ReservedResultID run))) → log_ok rows →
  consistent (st_set_runEvents (<[run := rows]> (st_runEvents s)) s).
Proof.
  intros [H1 H2 H3 H4 H5 H6 H7] Hres Hl. split; auto. cbn.
  intros run' rows' [[<- <-]|[_ Hr]]%lookup_insert_Some; auto.
Qed.

Lemma log_ok_default s run : consistent s → log_ok (default [] (st_runEvents s !! run)).
Proof.
  intros Hc. destruct (st_runEvents s !! run) as [rows|] eqn:Hr; cbn; [by apply (cons_runs _ Hc _ _ Hr)|].
  left. repeat split; [constructor|constructor|cbn; lia].
Qed.

(** A claim of the result, or one that was there. *)
Lemma claims_lookup (orgID id v : string) (claims : list (string * string)) (m : claims_map) (x : string * string * string) :
  foldl (λ (m : claims_map) c, <[(orgID, c.1, c.2) := id]> m) m claims !! x = Some v →
  (x.1.1 = orgID ∧ v = id) ∨ m !! x = Some v.
Proof.
  revert m. induction claims as [|c claims IH]; intros m; cbn; [by right|].
  intros [Hx|Hx]%IH; [by left|]. apply lookup_insert_Some in Hx as [[<- <-]|[_ Hx]]; auto.
Qed.

Lemma lookup_erase_questions threadID row m k :
  erase_questions threadID row m !! k
  = (λ r, if linked threadID row (k, r) then sr_set_Question "" r else r) <$> m !! k.
Proof. unfold erase_questions. rewrite map_lookup_imap. by destruct (m !! k). Qed.

Lemma erased_question b r : sr_Key (if b : bool then sr_set_Question "" r else r) = sr_Key r
  ∧ sr_ReservedResultID (if b : bool then sr_set_Question "" r else r) = sr_ReservedResultID r.
Proof. by destruct b. Qed.

Lemma consistent_submissions s m :
  consistent s →
  (∀ k, match st_submissions s !! k, m !! k with
        | Some r, Some r' => sr_Key r' = sr_Key r ∧ sr_ReservedResultID r' = sr_ReservedResultID r
        | None, None => True
        | _, _ => False
        end) → consistent (st_set_submissions m s).
Proof.
  intros [H1 H2 H3 H4 H5 H6 H7] Hm. split; auto; cbn.
  - intros k r' Hk. cbn in Hk. specialize (Hm k). rewrite Hk in Hm.
    destruct (st_submissions s !! k) as [r|] eqn:Hr; [|done]. destruct Hm as [Ek _]. unfold record_ok. rewrite Ek. by apply H1.
  - intros o id k Hres. destruct (H2 _ _ _ Hres) as (r & Hr & Ho & Hid). specialize (Hm k). rewrite Hr in Hm.
    destruct (m !! k) as [r'|]; [|done]. exists r'. destruct Hm as [_ Hm]. by rewrite Hm.
  - intros k r' Hk Hera. specialize (Hm k). rewrite Hk in Hm.
    destruct (st_submissions s !! k) as [r|] eqn:Hr; [|done]. destruct Hm as [_ Hm]. rewrite Hm in *. by apply H3.
Qed.

Lemma consistent_thread s row t : consistent s → thread_ok row t →
  consistent (st_set_threads (<[row := t]> (st_threads s)) s).
Proof.
  intros [H1 H2 H3 H4 H5 H6 H7] Ht. split; auto. cbn. intros row' t' [[<- <-]|[_ Hr]]%lookup_insert_Some; auto.
Qed.

Section edits.
Variable ok : SubmissionAdmission → time → Prop.

Lemma admit_consistent s a thread threadKey now order :
  consistent s → findSubmissionLocked order (sa_Key a) s = None → admission_in_order a now = Ok () →
  thread = (if isEmpty (sa_ThreadID a) then None
            else findThreadLocked (sk_OrgID (sa_Key a)) (sk_Owner (sa_Key a)) (sa_ThreadID a) s) →
  match thread with Some t => ClosedReason t now = "" ∧ threadKey = th_Key t
                  | None => threadKey = ThrKey (sk_OrgID (sa_Key a)) (sk_Owner (sa_Key a)) (sa_ThreadID a) end →
  st_reserved s !! (sk_OrgID (sa_Key a), sa_ReservedResultID a) = None →
  consistent (insert_submission a thread threadKey now s).
Proof.
  intros Hc Hfind Ha Ht Hopen Hfree. pose proof (find_none _ _ _ Hfind) as Hnew.
  destruct (admission_valid _ _ Ha) as [Hkey Hret].
  destruct (insert_submission_eq a thread threadKey now s) as (E1 & E2 & E3 & E4 & E5 & E6 & _ & E8).
  destruct (admitted_fields a (tk_Owner threadKey) now) as (F1 & F2 & _).
  destruct Hc as [H1 H2 H3 H4 H5 H6 H7]. split; [|rewrite ?E1, ?E2, ?E3, ?E4, ?E5, ?E6, ?E8; auto..].
  - intros k r. rewrite E1. intros [[<- <-]|[_ Hk]]%lookup_insert_Some; [|by apply H1]. by split.
  - intros o id k [[[= <- <-] <-]|[Hne Hres]]%lookup_insert_Some.
    + exists (admitted_record a (tk_Owner threadKey) now). by rewrite lookup_insert_eq.
    + destruct (H2 _ _ _ Hres) as (r & Hr & ?). exists r. rewrite lookup_insert_ne; [done|congruence].
  - intros k r [[<- <-]|[Hne Hk]]%lookup_insert_Some Hera; [by rewrite F2, lookup_insert_eq|].
    rewrite lookup_insert_ne; [by apply H3|]. intros [= E E']. specialize (H3 _ _ Hk Hera). congruence.
  - destruct (isEmpty (sa_ThreadID a)); [done|]. intros row t [[<- <-]|[_ Hr]]%lookup_insert_Some; [|by apply H6].
    apply Advance_ok; [|intros t ->|done].
    { destruct thread as [t|]; [|rewrite Hopen; by apply (valid_subject _ Hkey)]. destruct Hopen as [_ ->]. symmetry in Ht.
      apply found_thread in Ht as (row' & Hrow & _). by apply (H6 _ _ Hrow). } destruct Hopen as [Hop ->]. symmetry in Ht.
    apply found_thread in Ht as (row & Hrow & _). specialize (H6 _ _ Hrow). pose proof H6 as [Er _].
    split; [by rewrite Er|]. by apply (ClosedReason_open t now).
  - intros run rows Hr. destruct (H7 _ _ Hr) as [Hres Hl]. split; [|done]. intros Hera.
    destruct (Hres Hera) as [k Hk]. rewrite lookup_insert_ne; [by exists k|congruence].
Qed.

Lemma claims_consistent s s' orgID id claims e :
  consistent s → st_results s !! id = None → en_orgID e = orgID →
  st_results s' = <[id := e]> (st_results s) →
  st_claims s' = foldl (λ (m : claims_map) c, <[(orgID, c.1, c.2) := id]> m) (st_claims s) claims →
  st_reserved s' = st_reserved s → st_threads s' = st_threads s → st_runEvents s' = st_runEvents s →
  st_feedback s' = st_feedback s → st_submissions s' = st_submissions s → consistent s'.
Proof.
  intros [H1 H2 H3 H4 H5 H6 H7] Hid Ho E1 E2 E3 E4 E5 E6 E7.
  split; unfold keyed; rewrite ?E1, ?E2, ?E3, ?E4, ?E5, ?E6, ?E7; auto.
  - intros o p m v [[Hx ->]|Hx]%claims_lookup.
    + exists e. cbn in Hx. rewrite lookup_insert_eq. by subst.
    + destruct (H4 _ _ _ _ Hx) as (e' & He' & ?). exists e'. rewrite lookup_insert_ne; [done|congruence].
  - intros v f Hf. destruct (H5 _ _ Hf) as (e' & He' & ?). exists e'. rewrite lookup_insert_ne; [done|congruence].
Qed.

Lemma edit_consistent s s' : edit ok s s' → consistent s → consistent s'.
Proof.
  intros Hed Hc.
  destruct Hed as [key r state id at_ Hk _|a thread threadKey now order _ Hf Ha Ht Ho Hfree _ _|a now k _ _ _
    |orgID id claims e s' Hid Ho E1 E2 _ E3 _ E5 E6 E7 _ Hsub|threadID row0 row t now Hrow -> Hop|key r until Hk _ _ _
    |key r taker lostTerminal now Hk _ _ _ _|key r now Hk _ _|run event maxEvents Hrun Hseq _ Hnew Hterm
    |id f stored Hid Hown].
  - by eapply consistent_set.
  - by eapply admit_consistent.
  - destruct Hc. by split.
  - destruct Hsub as [Hsub|(key & r & at_ & Hres & Hk & _ & _ & Hsub)]; [by eapply claims_consistent|].
    set (s1 := st_set_submissions (st_submissions s) s').
    assert (consistent s1) as Hc1 by (by eapply (claims_consistent s s1)).
    assert (s' = set_submission key (sr_set_outcome SubmissionDone id at_ r) s1) as Es
      by (unfold set_submission; cbn; rewrite <- Hsub; by destruct s').
    rewrite Es. by eapply consistent_set.
  - apply consistent_submissions.
    + destruct (cons_threads _ Hc _ _ Hrow) as (Hkey & H). apply consistent_thread; [done|]. by split.
    + cbn. intros k. rewrite lookup_erase_questions. destruct (st_submissions s !! k); cbn; [|done]. apply erased_question.
  - by eapply consistent_set.
  - assert (consistent (set_submission key (sr_set_Lease taker (sr_LeaseExpiresAt r)
      (sr_set_outcome SubmissionAbandoned (sr_ResultID r) now r)) s)) as Hc1 by (by eapply consistent_set).
    unfold reap_one. cbn zeta. cbn [snd]. destruct (hasTerminal _) eqn:Hterm; cbn [negb]; [done|].
    destruct (cons_keyed _ Hc _ _ Hk) as [Hkey _]. apply consistent_log; [done| |].
    + intros Hera. cbn. rewrite Hkey. eexists. by apply (cons_index _ Hc).
    + apply lost_row_ok; [by apply log_ok_default|reflexivity|done|reflexivity].
  - by eapply consistent_set.
  - apply consistent_log; [done| |by apply append_ok; [apply log_ok_default|..]].
    intros _. destruct Hrun as [[k r] Hrun]. apply run_record in Hrun as [Hres _]. by exists k.
  - destruct Hc as [H1 H2 H3 H4 H5 H6 H7]. split; auto. cbn.
    intros id' f' [[<- <-]|[_ Hf]]%lookup_insert_Some; [by exists stored|by eapply H5].
Qed.

Lemma edits_consistent s s' : edits ok s s' → consistent s → consistent s'.
Proof. intros He. induction He as [|s1 s2 s3 He _ IH]; [done|]. intros Hc. apply IH. by eapply edit_consistent. Qed.
End edits.
