(* ===== verification/InvestigationRetention.v ===== *)
(** * InvestigationRetention: what the retention job may remove

    [retire] lists the writes of the job, each with what it has checked; a sweep
    is a sequence of them ([sweep_retires]), each keeps the store consistent, and
    none touches a record that is not closed, a fenced record, a thread that has
    not expired, or a result such a record names. *)

From Stdlib Require Import ZArith Lia Ascii.
From stdpp Require Import sorting pretty numbers gmap strings list_numbers list relations.
From S2P Require Import Prelude GoStrings GoText Sha256 Grants Submissions InvestigationStore InvestigationProofs InvestigationInvariant.

Open Scope Z_scope.

(** The record may go: no save of its run can still arrive, and it is closed. *)
Definition retirable (now : time) (s : Store) (record : SubmissionRecord) : Prop :=
  RetentionFenced record now = false ∧ threadClosedLocked record now s ≠ "".

(** Its retention has ended: a day after its admission, or with its thread. *)
Definition removable (now : time) (s : Store) (key : SubmissionKey) (record : SubmissionRecord) : Prop :=
  (sr_ThreadID record = "" ∧ UnthreadedRecordExpiresAt (sr_AdmittedAt record) ≤ now)
  ∨ (sr_ThreadID record ≠ "" ∧ ∃ t, st_threads s !! recordThreadRow key record = Some t ∧ th_ExpiresAt t ≤ now).

Inductive retire (now : time) (s : Store) : Store → Prop :=
  | retire_result orgID id stored :
      st_results s !! id = Some stored → en_orgID stored = orgID → namedByLiveRecordLocked orgID id now s = false →
      retire now s (remove_result orgID id s)
  | retire_record key record :
      st_submissions s !! key = Some record → retirable now s record → removable now s key record →
      retire now s (removeRecordLocked s key)
  | retire_erase key record :
      st_submissions s !! key = Some record → retirable now s record → retire now s (eraseRecordLocked now s key)
  | retire_thread row thread :
      st_threads s !! row = Some thread → th_ExpiresAt thread ≤ now → threadRecordsLocked row s = [] →
      retire now s (st_set_threads (delete row (st_threads s)) s).

Abbreviation retires now := (rtc (retire now)).

(** *** A step keeps the store consistent *)

Lemma erased_is id : IsErasedReservedResultID (ErasedReservedResultID id) = true.
Proof. unfold IsErasedReservedResultID, ErasedReservedResultID, strings_HasPrefix. apply string_prefix_app. Qed.

Lemma erased_ne r : IsErasedReservedResultID (ErasedReservedResultID (sr_ReservedResultID r)) = false → False.
Proof. by rewrite erased_is. Qed.

Lemma remove_result_consistent s orgID id stored :
  st_results s !! id = Some stored → en_orgID stored = orgID → consistent s → consistent (remove_result orgID id s).
Proof.
  intros Hid Ho [H1 H2 H3 H4 H5 H6 H7]. split; auto; cbn.
  - intros o p m v [Hc Hkeep]%map_lookup_filter_Some. destruct (H4 _ _ _ _ Hc) as (e & He & Heo). exists e.
    rewrite lookup_delete_ne; [done|]. intros <-. apply Hkeep. cbn. split; [congruence|by right].
  - intros v f [Hne Hf]%lookup_delete_Some. destruct (H5 _ _ Hf) as (e & He & ?). exists e.
    by rewrite lookup_delete_ne.
Qed.

(** Two records of an organization share no reservation. *)
Lemma reserved_once s k r k' r' :
  consistent s → st_submissions s !! k = Some r → st_submissions s !! k' = Some r' →
  sk_OrgID k = sk_OrgID k' → sr_ReservedResultID r = sr_ReservedResultID r' →
  IsErasedReservedResultID (sr_ReservedResultID r) = false → k = k'.
Proof.
  intros Hc Hk Hk' Ho Hr He. pose proof (cons_index _ Hc _ _ Hk He) as H1.
  rewrite Hr in He. pose proof (cons_index _ Hc _ _ Hk' He) as H2. congruence.
Qed.

Lemma remove_record_consistent s key r :
  st_submissions s !! key = Some r → consistent s → consistent (removeRecordLocked s key).
Proof.
  intros Hk Hc. pose proof Hc as [H1 H2 H3 H4 H5 H6 H7]. destruct (H1 _ _ Hk) as [Hkey _].
  unfold removeRecordLocked. rewrite Hk. split; auto; cbn.
  - intros k r'. cbn. intros [_ Hk']%lookup_delete_Some. by apply H1.
  - intros o id k [Hne Hres]%lookup_delete_Some. destruct (H2 _ _ _ Hres) as (r' & Hr' & Ho & Hid). exists r'.
    rewrite lookup_delete_ne; [done|]. intros <-. apply Hne. rewrite Hk in Hr'. by simplify_eq.
  - intros k r' [Hne Hk']%lookup_delete_Some Hera. rewrite lookup_delete_ne; [by apply H3|].
    intros [= Ho Hr]. apply Hne. symmetry. by eapply (reserved_once s k r' key r).
  - intros run rows [Hne Hr]%lookup_delete_Some. destruct (H7 _ _ Hr) as [Hres Hl]. split; [|done].
    intros Hera. rewrite lookup_delete_ne; [by apply Hres|]. intros [= Ho Hid]. apply Hne.
    unfold RunKeyOf. rewrite Hkey, Ho, Hid. by destruct run.
Qed.

Lemma erase_consistent s key now : consistent s → consistent (eraseRecordLocked now s key).
Proof.
  intros Hc. pose proof Hc as [H1 H2 H3 H4 H5 H6 H7]. unfold eraseRecordLocked.
  destruct (st_submissions s !! key) as [r|] eqn:Hk; [|done].
  destruct (IsErasedReservedResultID (sr_ReservedResultID r)) eqn:Her; [done|].
  destruct (H1 _ _ Hk) as [Hkey Hval]. split; auto; cbn.
  - intros k r'. cbn. intros [[<- <-]|[_ Hk']]%lookup_insert_Some; [by split|by apply H1].
  - intros o id k [[[= <- <-] <-]|[Hne [Hne' Hres]%lookup_delete_Some]]%lookup_insert_Some.
    + eexists. by rewrite lookup_insert_eq.
    + destruct (H2 _ _ _ Hres) as (r' & Hr' & Ho & Hid). exists r'.
      rewrite lookup_insert_ne; [done|]. intros <-. apply Hne'. rewrite Hk in Hr'. by simplify_eq.
  - intros k r' [[<- <-]|[Hne Hk']]%lookup_insert_Some Hera; [by destruct (erased_ne r Hera)|].
    rewrite lookup_insert_ne by (intros [= _ E]; rewrite <- E in Hera; by destruct (erased_ne r Hera)).
    rewrite lookup_delete_ne; [by apply H3|]. intros [= Ho Hid]. apply Hne.
    by eapply (reserved_once s key r k r').
  - intros run rows [Hne Hr]%lookup_delete_Some. destruct (H7 _ _ Hr) as [Hres Hl]. split; [|done].
    intros Hera. rewrite lookup_insert_ne by (intros [= _ E]; rewrite <- E in Hera; by destruct (erased_ne r Hera)).
    rewrite lookup_delete_ne; [by apply Hres|]. intros [= Ho Hid]. apply Hne.
    unfold RunKeyOf. rewrite Hkey, Ho, Hid. by destruct run.
Qed.

Lemma retire_consistent now s s' : retire now s s' → consistent s → consistent s'.
Proof.
  destruct 1 as [orgID id stored Hid Ho _|key r Hk _ _|key r Hk _|row t Hrow _ _]; intros Hc.
  - by eapply remove_result_consistent.
  - by eapply remove_record_consistent.
  - by apply erase_consistent.
  - destruct Hc as [H1 H2 H3 H4 H5 H6 H7]. split; auto. cbn. intros row' t' [_ Ht]%lookup_delete_Some. auto.
Qed.

Lemma retires_consistent now s s' : retires now s s' → consistent s → consistent s'.
Proof. induction 1 as [|s1 s2 s3 Hr _ IH]; [done|]. intros Hc. by eapply IH, retire_consistent. Qed.

(** *** A sweep is a sequence of such steps *)

(** The two stores judge threads alike. *)
Definition same_threads (s s' : Store) : Prop :=
  st_threads s' = st_threads s ∧ st_unthreadedRetention s' = st_unthreadedRetention s.

Lemma same_closed r now s s' : same_threads s s' → threadClosedLocked r now s' = threadClosedLocked r now s.
Proof. intros [Et Eu]. unfold threadClosedLocked. by rewrite Et, Eu. Qed.

Lemma same_retirable r now s s' : same_threads s s' → retirable now s r → retirable now s' r.
Proof. intros Hs. unfold retirable. by rewrite (same_closed _ _ _ _ Hs). Qed.

Lemma retained_retires orgID now ids w :
  let w' := foldl (remove_retained orgID now) w ids in
  retires now w.1 w'.1 ∧ same_threads w.1 w'.1 ∧ st_submissions w'.1 = st_submissions w.1.
Proof.
  revert w. induction ids as [|id ids IH]; intros w; cbn [foldl]; [repeat split; apply rtc_refl|].
  specialize (IH (remove_retained orgID now w id)). destruct IH as (IH & [It Iu] & Is).
  unfold same_threads, remove_retained in *. destruct (namedByLiveRecordLocked orgID id now w.1) eqn:Hl; [by split_and!|].
  destruct (st_results w.1 !! id) as [stored|] eqn:Hid; [|by split_and!].
  case_bool_decide as Ho; [|by split_and!]. split_and!; [|done..].
  eapply rtc_l; [by eapply (retire_result _ _ orgID id stored)|]. exact IH.
Qed.

Lemma remove_keeps s key : same_threads s (removeRecordLocked s key)
  ∧ st_submissions (removeRecordLocked s key) = delete key (st_submissions s).
Proof.
  unfold removeRecordLocked, same_threads. destruct (st_submissions s !! key) eqn:Hk; cbn; [done|].
  by rewrite delete_id.
Qed.

Definition all_retirable (now : time) (s : Store) (keys : list SubmissionKey) : Prop :=
  ∀ k r, k ∈ keys → st_submissions s !! k = Some r → retirable now s r.

Lemma same_removable key r now s s' : same_threads s s' → removable now s key r → removable now s' key r.
Proof. intros [Et _]. unfold removable. by rewrite Et. Qed.

Definition all_removable (now : time) (s : Store) (keys : list SubmissionKey) : Prop :=
  ∀ k r, k ∈ keys → st_submissions s !! k = Some r → removable now s k r.

Lemma remove_all_retires now keys s :
  all_retirable now s keys → all_removable now s keys →
  let s' := foldl removeRecordLocked s keys in
  retires now s s' ∧ same_threads s s' ∧ (∀ k, st_submissions s' !! k = if decide (k ∈ keys) then None else st_submissions s !! k).
Proof.
  revert s. induction keys as [|key keys IH]; intros s Hall Hrem; cbn [foldl]; [repeat split; apply rtc_refl|].
  destruct (remove_keeps s key) as [[Et Eu] Es].
  destruct (IH (removeRecordLocked s key)) as (IHr & [It Iu] & IHs).
  { intros k r Hk. rewrite Es. intros [_ Hr]%lookup_delete_Some. apply (same_retirable _ _ s); [done|].
    apply (Hall k); [by right|done]. }
  { intros k r Hk. rewrite Es. intros [_ Hr]%lookup_delete_Some. apply (same_removable _ _ _ s); [done|].
    apply (Hrem k); [by right|done]. }
  split_and!; [|split; congruence|].
  - destruct (st_submissions s !! key) as [r|] eqn:Hk.
    + eapply rtc_l; [|exact IHr]. apply (retire_record _ _ _ r); [done|apply (Hall key)|apply (Hrem key)]; first [done|by left].
    + assert (removeRecordLocked s key = s) as E by (unfold removeRecordLocked; by rewrite Hk). by rewrite E in *.
  - intros k. rewrite IHs, Es, lookup_delete.
    destruct (decide (k ∈ keys)) as [Hin|Hin]; [rewrite decide_True; [done|by right]|].
    destruct (decide (key = k)) as [->|Hne]; [rewrite decide_True; [done|by left]|].
    rewrite decide_False; [done|]. by intros [->|?]%elem_of_cons.
Qed.

Lemma erased_fenced now r : RetentionFenced (erased_record now r) now = true → RetentionFenced r now = true.
Proof. unfold RetentionFenced, erased_record. cbn. by destruct (sr_State r). Qed.

(** Erasing keeps the thread of a record, so what may go still may. *)
Lemma erase_keeps now s key :
  same_threads s (eraseRecordLocked now s key)
  ∧ ∀ k r', st_submissions (eraseRecordLocked now s key) !! k = Some r' →
      ∃ r, st_submissions s !! k = Some r ∧ (r' = r ∨ (k = key ∧ r' = erased_record now r)).
Proof.
  unfold eraseRecordLocked, same_threads. destruct (st_submissions s !! key) as [r|] eqn:Hk;
    [|split; [done|intros k r'; eauto]].
  destruct (IsErasedReservedResultID _); [split; [done|intros k r'; eauto]|]. cbn. split; [done|].
  intros k r' [[<- <-]|[_ Hk']]%lookup_insert_Some; eauto.
Qed.

Lemma erased_retirable now s r : retirable now s r → retirable now s (erased_record now r).
Proof.
  intros [Hf Hc]. split; [|].
  - apply not_true_is_false. intros Ht%erased_fenced. congruence.
  - enough (threadClosedLocked (erased_record now r) now s = threadClosedLocked r now s) by congruence.
    reflexivity.
Qed.

Lemma erase_all_retires now keys s :
  all_retirable now s keys →
  let s' := foldl (eraseRecordLocked now) s keys in retires now s s' ∧ same_threads s s'.
Proof.
  revert s. induction keys as [|key keys IH]; intros s Hall; cbn [foldl]; [repeat split; apply rtc_refl|].
  destruct (erase_keeps now s key) as [[Et Eu] Es].
  destruct (IH (eraseRecordLocked now s key)) as (IHr & [It Iu]).
  { intros k r' Hk Hr'. destruct (Es _ _ Hr') as (r & Hr & Heq). apply (same_retirable _ _ s); [done|].
    assert (retirable now s r) as Hret by (apply (Hall k); [by right|done]).
    destruct Heq as [->|[_ ->]]; [done|by apply erased_retirable]. }
  split; [|split; congruence].
  destruct (st_submissions s !! key) as [r|] eqn:Hk.
  - eapply rtc_l; [|exact IHr]. apply (retire_erase _ _ _ r); [done|]. by apply (Hall key); [left|].
  - assert (eraseRecordLocked now s key = s) as E by (unfold eraseRecordLocked; by rewrite Hk). by rewrite E in *.
Qed.

(** The records of a row in the store are those the job reads. *)
Lemma thread_records row s k :
  k ∈ threadRecordsLocked row s ↔ ∃ r, st_submissions s !! k = Some r ∧ sr_ThreadID r ≠ "" ∧ recordThreadRow k r = row.
Proof.
  unfold threadRecordsLocked. rewrite list_elem_of_fmap. split.
  - intros ([k' r] & -> & Hf). apply list_elem_of_filter in Hf as [Hc Hf]. apply elem_of_map_to_list in Hf.
    cbn in Hc. apply andb_true_iff in Hc as [Ht Hr]. apply bool_decide_eq_true in Hr. exists r. split; [done|].
    split; [|done]. unfold isEmpty in Ht. by destruct (sr_ThreadID r).
  - intros (r & Hk & Ht & Hr). exists (k, r). split; [done|]. apply list_elem_of_filter. cbn.
    split; [|by apply elem_of_map_to_list]. rewrite bool_decide_eq_true_2 by done.
    unfold isEmpty. by destruct (sr_ThreadID r).
Qed.

Lemma closed_of_row s row t now k r :
  keyed s → st_threads s !! row = Some t → negb (time_Before now (th_ExpiresAt t)) = true ∨ th_ClosedAt t ≠ None →
  st_submissions s !! k = Some r → k ∈ threadRecordsLocked row s → threadClosedLocked r now s ≠ "".
Proof.
  intros Hkey Hrow Hcl Hk (r' & Hr' & Ht & Hr)%thread_records. rewrite Hk in Hr'. simplify_eq.
  destruct (Hkey _ _ Hk) as [Ek _]. unfold threadClosedLocked. rewrite Ek, Hrow.
  destruct (isEmpty (sr_ThreadID r')) eqn:He; [unfold isEmpty in He; by destruct (sr_ThreadID r')|].
  case_bool_decide as Hc; [done|]. destruct (negb _) eqn:Hb; [done|]. destruct Hcl as [?|Hcl]; [done|].
  exfalso. by apply Hc, not_eq_None_Some.
Qed.

Lemma sweep_thread_retires now w row :
  consistent w.1 → retires now w.1 (sweepRetentionThreadLocked now w row).1.
Proof.
  destruct w as [s sweep]. cbn [fst]. intros Hc. unfold sweepRetentionThreadLocked.
  destruct (st_threads s !! row) as [t|] eqn:Hrow; [|apply rtc_refl]. cbv zeta.
  set (expired := negb (time_Before now (th_ExpiresAt t))).
  destruct (negb expired && bool_decide (th_ClosedAt t = None)) eqn:Hdue; [apply rtc_refl|].
  assert (expired = true ∨ th_ClosedAt t ≠ None) as Hcl.
  { apply andb_false_iff in Hdue as [Hd|Hd]; [left; by apply negb_false_iff|right; by apply bool_decide_eq_false in Hd]. }
  destruct (existsb (fenced_key now s) (threadRecordsLocked row s)) eqn:Hf; [apply rtc_refl|].
  assert (all_retirable now s (threadRecordsLocked row s)) as Hall.
  { intros k r Hk Hr. split; [|eapply closed_of_row; try done; by apply Hc].
    apply not_true_is_false. intros Ht. enough (existsb (fenced_key now s) (threadRecordsLocked row s) = true) by congruence.
    apply existsb_exists. exists k. split; [by apply list_elem_of_In|]. unfold fenced_key. by rewrite Hr. }
  unfold removeRetainedResultsLocked.
  destruct (retained_retires (tr_orgID row) now (retained_ids (threadRecordsLocked row s) s) (s, 0)) as (Hr & Hsame & Hsub).
  destruct (foldl (remove_retained _ _) _ _) as [s1 removed]. cbn [fst] in Hr, Hsame, Hsub.
  assert (all_retirable now s1 (threadRecordsLocked row s)) as Hall1.
  { intros k r Hk Hkr. rewrite Hsub in Hkr. apply (same_retirable _ _ s); [done|by apply (Hall k)]. }
  destruct expired eqn:Hex; cbn [fst]; (etrans; [exact Hr|]); [|by apply erase_all_retires].
  assert (th_ExpiresAt t ≤ now) as Hend.
  { unfold expired in Hex. apply negb_true_iff, bool_decide_eq_false in Hex. lia. }
  assert (all_removable now s1 (threadRecordsLocked row s)) as Hrem.
  { intros k r Hk Hkr. rewrite Hsub in Hkr. apply (same_removable _ _ _ s); [done|].
    apply thread_records in Hk as (r' & Hr' & Hth & Hkrow). rewrite Hkr in Hr'. injection Hr' as <-.
    right. split; [done|]. exists t. by rewrite Hkrow. }
  destruct (remove_all_retires now _ s1 Hall1 Hrem) as (Hr2 & [Et Eu] & Hs2). cbn zeta in *.
  eapply rtc_r; [exact Hr2|]. apply (retire_thread _ _ _ t).
  - rewrite Et. destruct Hsame as [-> _]. done.
  - done.
  - apply elem_of_nil_inv. intros k (r & Hk & Ht & Hkr)%thread_records. rewrite Hs2, Hsub in Hk.
    case_decide as Hin; [done|]. apply Hin, thread_records. by exists r.
Qed.

(** The record, if it has no thread, is past its retention. *)
Definition past_retention (now : time) (s : Store) (key : SubmissionKey) : Prop :=
  ∀ r, st_submissions s !! key = Some r → sr_ThreadID r = "" → UnthreadedRecordExpiresAt (sr_AdmittedAt r) ≤ now.

Lemma isEmpty_true x : isEmpty x = true ↔ x = "".
Proof. unfold isEmpty. destruct x; split; done. Qed.

Lemma sweep_record_retires now w key :
  st_unthreadedRetention w.1 = true → past_retention now w.1 key →
  let w' := sweepRetentionRecordLocked now w key in
  retires now w.1 w'.1 ∧ same_threads w.1 w'.1
  ∧ (st_submissions w'.1 = st_submissions w.1 ∨ st_submissions w'.1 = delete key (st_submissions w.1)).
Proof.
  destruct w as [s sweep]. cbn [fst]. intros Hu Hpast. unfold sweepRetentionRecordLocked.
  destruct (st_submissions s !! key) as [r|] eqn:Hk; [|repeat split; [apply rtc_refl|by left]].
  destruct (negb (isEmpty (sr_ThreadID r))) eqn:Ht; [repeat split; [apply rtc_refl|by left]|].
  destruct (RetentionFenced r now) eqn:Hf; [repeat split; [apply rtc_refl|by left]|].
  assert (retirable now s r) as Hret.
  { split; [done|]. apply negb_false_iff in Ht. unfold threadClosedLocked. rewrite Ht, Hu.
    apply isEmpty_true in Ht. specialize (Hpast _ Hk Ht). unfold time_Before.
    by rewrite bool_decide_eq_false_2 by lia. }
  unfold removeRetainedResultsLocked.
  destruct (retained_retires (sk_OrgID key) now (retained_ids [key] s) (s, 0)) as (Hr & Hsame & Hsub).
  destruct (foldl (remove_retained _ _) _ _) as [s1 removed]. cbn [fst] in *.
  destruct (remove_keeps s1 key) as [[Et Eu] Es]. pose proof Hsame as [It Iu]. split_and!.
  - eapply rtc_r; [exact Hr|]. apply (retire_record _ _ _ r); [by rewrite Hsub|by apply (same_retirable _ _ s)|].
    apply (same_removable _ _ _ s); [done|]. left. apply negb_false_iff, isEmpty_true in Ht. auto.
  - split; congruence.
  - right. by rewrite Es, Hsub.
Qed.

Lemma sweep_records_retires now keys w :
  st_unthreadedRetention w.1 = true → (∀ k, k ∈ keys → past_retention now w.1 k) →
  retires now w.1 (foldl (sweepRetentionRecordLocked now) w keys).1.
Proof.
  revert w. induction keys as [|key keys IH]; intros w Hu Hpast; cbn [foldl]; [apply rtc_refl|].
  destruct (sweep_record_retires now w key Hu (Hpast key ltac:(by left))) as (Hr & [Et Eu] & Es).
  etrans; [exact Hr|]. apply IH; [by rewrite Eu|]. intros k Hk r Hr'. apply (Hpast k); [by right|].
  destruct Es as [Es|Es]; rewrite Es in Hr'; [done|]. by apply lookup_delete_Some in Hr' as [_ ?].
Qed.

Lemma sweep_threads_retires now rows w :
  consistent w.1 → retires now w.1 (foldl (sweepRetentionThreadLocked now) w rows).1.
Proof.
  revert w. induction rows as [|row rows IH]; intros w Hc; cbn [foldl]; [apply rtc_refl|].
  pose proof (sweep_thread_retires now w row Hc) as Hr. etrans; [exact Hr|]. apply IH. by eapply retires_consistent.
Qed.

Lemma retire_switch now s s' : retire now s s' → st_unthreadedRetention s' = st_unthreadedRetention s.
Proof.
  destruct 1; [done| | |done]; [unfold removeRecordLocked|unfold eraseRecordLocked];
    destruct (st_submissions s !! key); try done. by destruct (IsErasedReservedResultID _).
Qed.

Lemma retires_switch now s s' : retires now s s' → st_unthreadedRetention s' = st_unthreadedRetention s.
Proof. induction 1 as [|s1 s2 s3 Hr _ IH]; [done|]. rewrite IH. by eapply retire_switch. Qed.

Lemma due_past now s order k : k ∈ dueRetentionRecordsLocked order now s → past_retention now s k.
Proof.
  unfold dueRetentionRecordsLocked. rewrite merge_sort_Permutation. intros [Hd _]%list_elem_of_filter r Hr Ht.
  unfold due_record in Hd. rewrite Hr, Ht in Hd. cbn in Hd. apply negb_true_iff, bool_decide_eq_false in Hd. lia.
Qed.

Lemma sweep_retires thread_order order now limit w r w' :
  SweepRetention thread_order order now limit w = (r, w') → consistent w.2 → retires now w.2 w'.2.
Proof.
  intros Hrun Hc. unfold SweepRetention in Hrun.
  apply bind_ctx in Hrun as [(e & -> & ->)|(e & Hrun)]; [apply rtc_refl|].
  rewrite bind_get in Hrun. cbn [snd] in Hrun. set (s := w.2) in *.
  destruct (negb (st_unthreadedRetention s)) eqn:Hu; [injection Hrun as <- <-; apply rtc_refl|].
  apply negb_false_iff in Hu. cbv zeta in Hrun. set (limit1 := if limit <? 1 then _ else _) in Hrun.
  set (rows := take (Z.to_nat limit1) (dueRetentionThreadsLocked thread_order now s)) in Hrun.
  pose proof (sweep_threads_retires now rows (s, RSweep 0 0 0 0 0) Hc) as H1.
  set (w1 := foldl (sweepRetentionThreadLocked now) (s, RSweep 0 0 0 0 0) rows) in *. cbn [fst] in H1.
  unfold bind, put, ret in Hrun. injection Hrun as <- <-. cbn [snd].
  etrans; [exact H1|]. case_match; [|apply rtc_refl]. apply sweep_records_retires.
  - by rewrite (retires_switch _ _ _ H1).
  - intros k Hk. apply (due_past _ _ order). eapply elem_of_take in Hk as (i & Hk & _).
    by eapply list_elem_of_lookup_2.
Qed.

(** *** What a sweep leaves alone *)

(** The record is not closed now. *)
Definition unclosed (now : time) (s : Store) (k : SubmissionKey) (r : SubmissionRecord) : Prop :=
  st_submissions s !! k = Some r ∧ threadClosedLocked r now s = "".

Lemma named_live s now k r id :
  unclosed now s k r → id = sr_ResultID r ∨ id = sr_ReservedResultID r → namedByLiveRecordLocked (sk_OrgID k) id now s = true.
Proof.
  intros [Hk Hl] Hid. unfold namedByLiveRecordLocked. apply existsb_exists. exists (k, r). split.
  - apply list_elem_of_In, list_elem_of_filter. split; [|by apply elem_of_map_to_list]. unfold names. cbn.
    rewrite bool_decide_eq_true_2 by done. cbn. apply orb_true_iff. rewrite !bool_decide_eq_true. naive_solver.
  - cbn. by rewrite Hl.
Qed.

Lemma erase_other now s key k : k ≠ key → st_submissions (eraseRecordLocked now s key) !! k = st_submissions s !! k.
Proof.
  intros Hne. unfold eraseRecordLocked. destruct (st_submissions s !! key); [|done].
  destruct (IsErasedReservedResultID _); [done|]. cbn. by rewrite lookup_insert_ne.
Qed.

Lemma retire_live now s s' k r : retire now s s' → unclosed now s k r → unclosed now s' k r.
Proof.
  intros Hr [Hk Hl]. destruct Hr as [orgID id stored _ _ _|key r0 Hk0 Hret _|key r0 Hk0 Hret|row t Hrow Hexp Hnone].
  - by split.
  - destruct (remove_keeps s key) as [Hsame Hs]. split; [|by rewrite (same_closed _ _ _ _ Hsame)].
    rewrite Hs, lookup_delete_ne; [done|]. intros ->. rewrite Hk in Hk0. simplify_eq. by destruct Hret.
  - destruct (erase_keeps now s key) as [Hsame _]. split; [|by rewrite (same_closed _ _ _ _ Hsame)].
    rewrite erase_other; [done|]. intros ->. rewrite Hk in Hk0. simplify_eq. by destruct Hret.
  - split; [done|]. revert Hl. unfold threadClosedLocked. cbn. destruct (isEmpty (sr_ThreadID r)) eqn:Ht; [done|].
    rewrite lookup_delete. case_decide; [done|]. done.
Qed.

Lemma retire_result_kept now s s' k r id e :
  retire now s s' → unclosed now s k r → id = sr_ResultID r ∨ id = sr_ReservedResultID r →
  st_results s !! id = Some e → en_orgID e = sk_OrgID k →
  st_results s' !! id = Some e ∧ st_feedback s' !! id = st_feedback s !! id.
Proof.
  intros Hr Hl Hid He Ho. pose proof (named_live _ _ _ _ _ Hl Hid) as Hn.
  destruct Hr as [orgID id' stored Hs Hso Hnl|key r0 Hk0 _ _|key r0 Hk0 _|row t _ _ _]; [|unfold removeRecordLocked|unfold eraseRecordLocked|done].
  - cbn. assert (id' ≠ id) by (intros ->; congruence). by rewrite !lookup_delete_ne.
  - by rewrite Hk0.
  - rewrite Hk0. by destruct (IsErasedReservedResultID _).
Qed.

Lemma retires_live now s s' k r :
  retires now s s' → unclosed now s k r →
  unclosed now s' k r ∧ ∀ id e, id = sr_ResultID r ∨ id = sr_ReservedResultID r → st_results s !! id = Some e →
    en_orgID e = sk_OrgID k → st_results s' !! id = Some e ∧ st_feedback s' !! id = st_feedback s !! id.
Proof.
  induction 1 as [s|s1 s2 s3 Hr _ IH]; intros Hl; [by split|].
  pose proof (retire_live _ _ _ _ _ Hr Hl) as Hl2. destruct (IH Hl2) as [Hl3 Hres]. split; [done|].
  intros id e Hid He Ho. destruct (retire_result_kept _ _ _ _ _ _ _ Hr Hl Hid He Ho) as [He2 Hf2].
  rewrite <- Hf2. by apply Hres.
Qed.

Lemma retire_fenced now s s' k r : retire now s s' → st_submissions s !! k = Some r → RetentionFenced r now = true →
  st_submissions s' !! k = Some r.
Proof.
  intros Hr Hk Hf. destruct Hr as [orgID id stored _ _ _|key r0 Hk0 [Hret _] _|key r0 Hk0 [Hret _]|row t Hrow Hexp Hnone]; try done.
  - destruct (remove_keeps s key) as [_ ->]. rewrite lookup_delete_ne; [done|]. intros ->. congruence.
  - rewrite erase_other; [done|]. intros ->. congruence.
Qed.

Lemma retire_open_thread now s s' row t : retire now s s' → st_threads s !! row = Some t → now < th_ExpiresAt t →
  st_threads s' !! row = Some t.
Proof.
  intros Hr Ht Hn. destruct Hr as [orgID id stored _ _ _|key r0 _ _ _|key r0 _ _|row' t' Hrow Hexp _]; [done| | |].
  - by destruct (remove_keeps s key) as [[-> _] _].
  - by destruct (erase_keeps now s key) as [[-> _] _].
  - cbn. rewrite lookup_delete_ne; [done|]. intros ->. rewrite Ht in Hrow. simplify_eq. lia.
Qed.
