(* ===== verification/InvestigationSteps.v ===== *)
(** * InvestigationSteps: histories of the investigation store

    A history is any sequence of operations and of sweeps of the retention job.
    What every write of [edit] and of [retire] keeps holds along it ([hist_keeps]),
    and along a history in the order of its clock ([timed_keeps]).  A record only
    moves forward under the operations; its thread is there as long as it is, and
    was used no earlier than it was admitted, so a sweep takes a record away a day
    after its admission at the earliest. *)

From Stdlib Require Import ZArith Lia Ascii.
From stdpp Require Import sorting pretty numbers gmap strings list_numbers list relations.
From S2P Require Import Prelude GoStrings GoText Sha256 Grants Submissions InvestigationStore InvestigationProofs InvestigationInvariant InvestigationRetention.

Open Scope Z_scope.

Abbreviation any_admission := (λ (_ : SubmissionAdmission) (_ : time), True).

(** ** Writes *)

(** Along writes, what each keeps is kept. *)
Lemma edits_ind ok (I : Store → Prop) s s' :
  (∀ s s', edit ok s s' → consistent s → I s → I s') → edits ok s s' → consistent s → I s → I s'.
Proof.
  intros Hstep He. induction He as [|s1 s2 s3 Hed _ IH]; [done|]. intros Hc Hi.
  apply IH; [by eapply edit_consistent|by eapply Hstep].
Qed.

(** ** Submissions move forward *)

Definition rank (state : SubmissionState) : Z :=
  match state with SubmissionRunning => 0 | SubmissionAbandoned => 1 | SubmissionDone => 2 | SubmissionDoneUnsaved => 3 end.

Definition final (state : SubmissionState) : Prop := state = SubmissionDone ∨ state = SubmissionDoneUnsaved.

Record forward (r r' : SubmissionRecord) : Prop := Forward {
  fw_identity : (sr_Key r', sr_RequestDigest r', sr_ReservedResultID r', sr_ThreadID r', sr_ThreadOwner r',
      sr_AdmittedAt r', sr_ExpiresAt r', sr_RunRequestID r')
    = (sr_Key r, sr_RequestDigest r, sr_ReservedResultID r, sr_ThreadID r, sr_ThreadOwner r,
      sr_AdmittedAt r, sr_ExpiresAt r, sr_RunRequestID r);
  fw_state : rank (sr_State r) ≤ rank (sr_State r');
  fw_final : final (sr_State r) → sr_State r' = sr_State r ∧ sr_ResultID r' = sr_ResultID r;
  fw_lease : sr_State r' = SubmissionRunning →
    sr_LeaseHolder r' = sr_LeaseHolder r ∧ sr_LeaseExpiresAt r ≤ sr_LeaseExpiresAt r';
  fw_cancel : sr_CancelRequestedAt r ≠ 0 → sr_CancelRequestedAt r' = sr_CancelRequestedAt r;
  fw_question : sr_Question r' = sr_Question r ∨ sr_Question r' = "";
}.

Lemma forward_refl r : forward r r.
Proof. split; auto; [lia|]. intros _. split; [done|lia]. Qed.

Lemma rank_running state : rank state ≤ 0 → state = SubmissionRunning.
Proof. destruct state; cbn; done || lia. Qed.

Lemma forward_trans r1 r2 r3 : forward r1 r2 → forward r2 r3 → forward r1 r3.
Proof.
  intros [I1 S1 F1 L1 C1 Q1] [I2 S2 F2 L2 C2 Q2]. split.
  - congruence.
  - lia.
  - intros Hf. destruct (F1 Hf) as [E1 R1]. rewrite <- E1 in Hf. destruct (F2 Hf). split; congruence.
  - intros Hr. destruct (L2 Hr) as [E2 T2]. rewrite Hr in S2. cbn in S2. destruct (L1 (rank_running _ S2)) as [E1 T1].
    split; [congruence|lia].
  - intros Hz. rewrite <- (C1 Hz). apply C2. by rewrite (C1 Hz).
  - destruct Q2 as [->|]; auto.
Qed.

(** One record replaced by a later one. *)
Lemma set_forward s key r r' k rk :
  st_submissions s !! key = Some r → forward r r' → st_submissions s !! k = Some rk →
  ∃ rk', <[key := r']> (st_submissions s) !! k = Some rk' ∧ forward rk rk'.
Proof.
  intros Hk Hf Hrk. destruct (decide (key = k)) as [->|Hne].
  - exists r'. rewrite lookup_insert_eq. rewrite Hrk in Hk. by simplify_eq.
  - exists rk. rewrite lookup_insert_ne by done. split; [done|apply forward_refl].
Qed.

Lemma outcome_forward r state id at_ :
  (match state with
   | SubmissionRunning => False
   | SubmissionDone => sr_State r = SubmissionRunning ∨ sr_State r = SubmissionAbandoned
   | _ => sr_State r = SubmissionRunning
   end) → forward r (sr_set_outcome state id at_ r).
Proof.
  intros Hs. split; cbn; auto.
  - destruct state; [done|destruct Hs as [-> | ->]|rewrite Hs..]; cbn; lia.
  - intros [Hf|Hf]; rewrite Hf in Hs; by destruct state; [|destruct Hs|..].
  - intros ->. done.
Qed.

Lemma question_forward r : forward r (sr_set_Question "" r).
Proof. split; cbn; auto; [lia|]. intros _. split; [done|lia]. Qed.

Lemma edit_forward ok s s' k r :
  edit ok s s' → st_submissions s !! k = Some r → ∃ r', st_submissions s' !! k = Some r' ∧ forward r r'.
Proof.
  intros Hed Hr.
  assert (∃ r', st_submissions s !! k = Some r' ∧ forward r r') as Hsame by (exists r; split; [done|apply forward_refl]).
  destruct Hed as [key r0 state id at_ Hk Hend|a thread threadKey now order _ Hf _ _ _ _ _ _|a now u _ _ _
    |orgID id claims e s' _ _ _ _ _ _ _ _ _ _ _ Hsub|threadID row0 row t now _ _ _|key r0 until Hk Hst Hh Hu
    |key r0 taker lostTerminal now Hk Hst _ _ _|key r0 now Hk Hst Hz|run event maxEvents _ _ _ _ _
    |id f stored _ _]; try exact Hsame.
  - eapply set_forward; [exact Hk| |exact Hr]. apply outcome_forward. destruct Hend as [He|He]; destruct state; cbn in He; tauto.
  - destruct (insert_submission_eq a thread threadKey now s) as [-> _]. exists r.
    rewrite lookup_insert_ne; [split; [done|apply forward_refl]|]. intros <-. by rewrite (find_none _ _ _ Hf) in Hr.
  - destruct Hsub as [->|(key & r0 & at_ & _ & Hk & Hst & _ & ->)]; [exact Hsame|].
    eapply set_forward; [exact Hk| |exact Hr]. by apply outcome_forward.
  - cbn. rewrite lookup_erase_questions, Hr. cbn. eexists. split; [done|].
    destruct (linked _ _ _); [apply question_forward|apply forward_refl].
  - eapply set_forward; [exact Hk| |exact Hr]. split; cbn; auto; [lia|]. intros _. split; [done|lia].
  - assert (st_submissions (reap_one taker lostTerminal now key r0 s).2
      = <[key := sr_set_Lease taker (sr_LeaseExpiresAt r0) (sr_set_outcome SubmissionAbandoned (sr_ResultID r0) now r0)]>
          (st_submissions s)) as -> by (unfold reap_one; cbn; by destruct (negb _)).
    eapply set_forward; [exact Hk| |exact Hr]. split; cbn; auto; [rewrite Hst; cbn; lia|rewrite Hst; intros [?|?]; done|done].
  - eapply set_forward; [exact Hk| |exact Hr]. split; cbn; auto; [lia| |done]. intros _. split; [done|lia].
Qed.

Lemma edits_forward ok s s' k r :
  edits ok s s' → st_submissions s !! k = Some r → ∃ r', st_submissions s' !! k = Some r' ∧ forward r r'.
Proof.
  intros He. revert r. induction He as [s|s1 s2 s3 Hed _ IH]; intros r Hr; [exists r; split; [done|apply forward_refl]|].
  destruct (edit_forward _ _ _ _ _ Hed Hr) as (r2 & Hr2 & Hf2). destruct (IH _ Hr2) as (r3 & Hr3 & Hf3).
  exists r3. split; [done|by eapply forward_trans].
Qed.

Lemma forward_row k r r' : forward r r' → sr_ThreadID r' = sr_ThreadID r ∧ recordThreadRow k r' = recordThreadRow k r.
Proof. intros [Hid _ _ _ _ _]. injection Hid as _ _ _ E1 E2 _ _ _. unfold recordThreadRow. by rewrite E1, E2. Qed.

(** No record is new, or the write is an admission. *)
Lemma edit_domain ok s s' :
  edit ok s s' →
  (∀ k r', st_submissions s' !! k = Some r' → is_Some (st_submissions s !! k))
  ∨ ∃ a thread threadKey now order, ok a now ∧ findSubmissionLocked order (sa_Key a) s = None ∧ admission_in_order a now = Ok ()
      ∧ thread = (if isEmpty (sa_ThreadID a) then None
                  else findThreadLocked (sk_OrgID (sa_Key a)) (sk_Owner (sa_Key a)) (sa_ThreadID a) s)
      ∧ match thread with Some t => ClosedReason t now = "" ∧ threadKey = th_Key t
                        | None => threadKey = ThrKey (sk_OrgID (sa_Key a)) (sk_Owner (sa_Key a)) (sa_ThreadID a) end
      ∧ s' = insert_submission a thread threadKey now s.
Proof.
  intros Hed.
  assert (∀ key r k r', is_Some (st_submissions s !! key) →
    <[key := r]> (st_submissions s) !! k = Some r' → is_Some (st_submissions s !! k)) as Hset
    by (intros key r k r' ? [[<- _]|[_ ?]]%lookup_insert_Some; eauto).
  destruct Hed as [key r0 state id at_ Hk Hend|a thread threadKey now order Hok Hf Ha Ht Ho _ _ _|a now u _ _ _
    |orgID id claims e s' _ _ _ _ _ _ _ _ _ _ _ Hsub|threadID row0 row t now _ _ _|key r0 until Hk _ _ _
    |key r0 taker lostTerminal now Hk _ _ _ _|key r0 now Hk _ _|run event maxEvents _ _ _ _ _
    |id f stored _ _]; try (left; by eauto);
    try (left; intros k r' Hr'; eapply Hset; [by eexists|exact Hr']).
  - right. by exists a, thread, threadKey, now, order.
  - left. intros k r' Hr'. destruct Hsub as [Hsub|(key & r0 & at_ & _ & Hk & _ & _ & Hsub)]; rewrite Hsub in Hr'; [eauto|].
    eapply Hset; [by eexists|exact Hr'].
  - left. intros k r' Hr'. cbn in Hr'. rewrite lookup_erase_questions in Hr'. destruct (st_submissions s !! k); [eauto|done].
  - left. intros k r' Hr'. unfold reap_one in Hr'. eapply Hset; [by eexists|]. cbn in Hr'.
    by destruct (negb _) in Hr'; exact Hr'.
Qed.

(** ** Records and their threads *)

(** The row of a record is there, and was last used when the record was admitted
    or later. *)
Definition placed (s : Store) : Prop := ∀ k r, st_submissions s !! k = Some r → sr_ThreadID r ≠ "" →
  ∃ t, st_threads s !! recordThreadRow k r = Some t ∧ sr_AdmittedAt r ≤ th_LastTurnAt t.

Lemma new_placed b : placed (NewStore b).
Proof. intros k r. cbn. by rewrite lookup_empty. Qed.

Lemma better_kept owner l best : is_Some best ∨ l ≠ [] → is_Some (foldl (better owner) best l).
Proof.
  revert best. induction l as [|t l IH]; intros best Hb; cbn [foldl]; [by destruct Hb|].
  apply IH. left. unfold better. destruct best; [|done]. by case_match.
Qed.

(** A row the owner reaches under the id makes the search find one. *)
Lemma find_thread_complete orgID owner threadID s row t :
  st_threads s !! row = Some t → tr_orgID row = orgID → tr_threadID row = threadID →
  SameSubmissionOwner (tk_Owner (th_Key t)) owner = true → is_Some (findThreadLocked orgID owner threadID s).
Proof.
  intros Hrow Ho Hid Hown. unfold findThreadLocked. apply better_kept. right.
  intros Hnil%fmap_nil_inv. apply (filter_nil_not_elem_of _ _ (row, t) Hnil); [|by apply elem_of_map_to_list].
  unfold reaches. cbn. by rewrite Ho, Hid, Hown, !bool_decide_eq_true_2.
Qed.

(** The row an admission writes is the row of its record, and the one found. *)
Lemma admitted_row a thread threadKey now s :
  consistent s → admission_in_order a now = Ok () → isEmpty (sa_ThreadID a) = false →
  thread = findThreadLocked (sk_OrgID (sa_Key a)) (sk_Owner (sa_Key a)) (sa_ThreadID a) s →
  match thread with Some t => ClosedReason t now = "" ∧ threadKey = th_Key t
                  | None => threadKey = ThrKey (sk_OrgID (sa_Key a)) (sk_Owner (sa_Key a)) (sa_ThreadID a) end →
  recordThreadRow (sa_Key a) (admitted_record a (tk_Owner threadKey) now) = rowKeyOf threadKey
  ∧ tk_OrgID threadKey = sk_OrgID (sa_Key a) ∧ tk_ThreadID threadKey = sa_ThreadID a
  ∧ st_threads s !! rowKeyOf threadKey = thread.
Proof.
  intros Hc Ha Hne Hthread Hopen. destruct (admission_valid _ _ Ha) as [Hkey _]. pose proof (valid_subject _ Hkey) as Hsub.
  assert (tk_OrgID threadKey = sk_OrgID (sa_Key a) ∧ tk_ThreadID threadKey = sa_ThreadID a
    ∧ so_Subject (tk_Owner threadKey) ≠ "" ∧ st_threads s !! rowKeyOf threadKey = thread) as (Ho & Hid & Hs & Hrow).
  { symmetry in Hthread. destruct thread as [t0|].
    - destruct Hopen as [Hop ->]. apply found_thread in Hthread as (row0 & Hrow0 & Ho & Hid & _).
      destruct (cons_threads _ Hc _ _ Hrow0) as (Hk & _ & _ & _ & _ & Hs). rewrite Hk. subst row0. by cbn in Ho, Hid.
    - subst threadKey. split_and!; [done..|].
      destruct (st_threads s !! _) as [t|] eqn:Hrow; [|done]. destruct (cons_threads _ Hc _ _ Hrow) as (Hk & _).
      unfold rowKeyOf in Hk. cbn in Hk. injection Hk as E1 E2 E3 E4.
      destruct (find_thread_complete (sk_OrgID (sa_Key a)) (sk_Owner (sa_Key a)) (sa_ThreadID a) s _ t Hrow) as [? Hf];
        [done|done| |congruence].
      unfold SameSubmissionOwner. rewrite E2, E3, !bool_decide_eq_true_2 by done. unfold isEmpty.
      by destruct (so_Subject (sk_Owner (sa_Key a))). }
  split_and!; [|done..]. unfold recordThreadRow, rowKeyOf, admitted_record. rewrite Hne.
  destruct (sa_Lease a); cbn; (destruct (isEmpty (so_Subject (tk_Owner threadKey))) eqn:He;
    [by apply isEmpty_true in He|]); by rewrite Ho, Hid.
Qed.

Lemma Advance_last thread threadKey turn retention :
  tc_AdmittedAt turn ≤ th_LastTurnAt (AdvanceThread thread threadKey turn retention)
  ∧ ∀ t, thread = Some t → th_LastTurnAt t ≤ th_LastTurnAt (AdvanceThread thread threadKey turn retention).
Proof.
  unfold AdvanceThread. destruct thread as [t|].
  - lazymatch goal with |- context [let '(days, setBy) := ?p in _] => destruct p as [days setBy] end. cbn.
    unfold time_After. split; [|intros t' [= <-]]; case_bool_decide; lia.
  - lazymatch goal with |- context [let '(days, setBy) := ?p in _] => destruct p as [days setBy] end. cbn.
    split; [lia|done].
Qed.

(** A row stays, and its last turn is never earlier. *)
Lemma edit_row ok s s' row t :
  edit ok s s' → consistent s → st_threads s !! row = Some t →
  ∃ t', st_threads s' !! row = Some t' ∧ th_LastTurnAt t ≤ th_LastTurnAt t'.
Proof.
  intros Hed Hc Hrow. assert (∃ t', st_threads s !! row = Some t' ∧ th_LastTurnAt t ≤ th_LastTurnAt t') as Hsame by eauto with lia.
  destruct Hed as [|a thread threadKey now order _ _ Ha Ht Ho _ _ _| |orgID id claims e s' _ _ _ _ _ _ _ E _ _ _ _
    |threadID row0 row1 t1 now Hrow1 -> Hop| |key r taker lostTerminal now _ _ _ _ _| | |]; try exact Hsame.
  - destruct (insert_submission_eq a thread threadKey now s) as (_ & _ & _ & _ & _ & _ & _ & ->).
    destruct (isEmpty (sa_ThreadID a)) eqn:Hne; [exact Hsame|].
    destruct (admitted_row a thread threadKey now s Hc Ha Hne Ht Ho) as (_ & _ & _ & Hthread).
    destruct (decide (rowKeyOf threadKey = row)) as [<-|Hner]; [|by rewrite lookup_insert_ne].
    rewrite lookup_insert_eq. eexists. split; [done|]. apply Advance_last. congruence.
  - by rewrite E.
  - cbn. destruct (cons_threads _ Hc _ _ Hrow1) as (Hk & _). rewrite Hk.
    destruct (decide (row0 = row)) as [->|Hne]; [|by rewrite lookup_insert_ne].
    rewrite lookup_insert_eq. eexists. split; [done|]. rewrite Hrow in Hrow1. injection Hrow1 as ->. cbn. lia.
  - unfold reap_one. cbn. by destruct (negb _).
Qed.

Lemma edit_placed ok s s' : edit ok s s' → consistent s → placed s → placed s'.
Proof.
  intros Hed Hc Hp k r' Hr' Hth.
  assert (∀ r, st_submissions s !! k = Some r → forward r r' →
    ∃ t, st_threads s' !! recordThreadRow k r' = Some t ∧ sr_AdmittedAt r' ≤ th_LastTurnAt t) as Hold.
  { intros r Hr Hf. destruct (forward_row k _ _ Hf) as [E1 E2]. rewrite E1 in Hth.
    destruct (Hp k r Hr Hth) as (t & Ht & Hle). rewrite E2.
    destruct (edit_row _ _ _ _ _ Hed Hc Ht) as (t' & Ht' & Hle'). exists t'. split; [done|].
    destruct Hf as [Hid _ _ _ _ _]. injection Hid as _ _ _ _ _ -> _ _. lia. }
  destruct (st_submissions s !! k) as [r|] eqn:Hr.
  { destruct (edit_forward _ _ _ _ _ Hed Hr) as (r2 & Hr2 & Hf). rewrite Hr' in Hr2. injection Hr2 as <-. by apply (Hold r). }
  destruct (edit_domain _ _ _ Hed) as [Hdom|(a & thread & threadKey & now & order & _ & _ & Ha & Ht & Ho & ->)].
  { destruct (Hdom _ _ Hr'). congruence. }
  destruct (insert_submission_eq a thread threadKey now s) as (Es & _ & _ & _ & _ & _ & _ & Et). rewrite Es in Hr'.
  apply lookup_insert_Some in Hr' as [[<- <-]|[_ ?]]; [|congruence]. rewrite Et.
  destruct (isEmpty (sa_ThreadID a)) eqn:Hne.
  { exfalso. apply Hth. unfold admitted_record. destruct (sa_Lease a); cbn; by apply isEmpty_true. }
  destruct (admitted_row a thread threadKey now s Hc Ha Hne Ht Ho) as (-> & _). rewrite lookup_insert_eq. eexists.
  split; [done|].
  destruct (Advance_last thread threadKey (TurnCursor now (sk_SubmissionID (sa_Key a))) (sa_ThreadRetention a)) as [Hle _].
  unfold admitted_record. by destruct (sa_Lease a).
Qed.

(** ** Sweeps *)

(** What a write of the retention job does to a record. *)
Lemma retire_submission now s s' k r :
  retire now s s' → st_submissions s !! k = Some r →
  st_submissions s' !! k = Some r
  ∨ (st_submissions s' !! k = Some (erased_record now r) ∧ retirable now s r
     ∧ IsErasedReservedResultID (sr_ReservedResultID r) = false)
  ∨ (st_submissions s' !! k = None ∧ retirable now s r ∧ removable now s k r).
Proof.
  intros Hr Hk. destruct Hr as [|key r0 Hk0 Hret Hrem|key r0 Hk0 Hret|]; [by left| | |by left].
  - destruct (remove_keeps s key) as [_ ->]. rewrite lookup_delete. case_decide as E; [|by left]. subst key.
    rewrite Hk in Hk0. injection Hk0 as <-. by right; right.
  - destruct (decide (k = key)) as [->|Hne]; [|left; by rewrite erase_other].
    rewrite Hk in Hk0. injection Hk0 as <-. unfold eraseRecordLocked. rewrite Hk.
    destruct (IsErasedReservedResultID _) eqn:He; [by left|]. right; left. cbn. by rewrite lookup_insert_eq.
Qed.

Lemma retire_back now s s' k r' :
  retire now s s' → st_submissions s' !! k = Some r' →
  ∃ r, st_submissions s !! k = Some r ∧ (r' = r ∨ r' = erased_record now r ∧ retirable now s r).
Proof.
  intros Hr Hk. destruct (st_submissions s !! k) as [r|] eqn:Hks.
  - exists r. split; [done|].
    destruct (retire_submission _ _ _ _ _ Hr Hks) as [E|[(E & ? & _)|[E _]]]; rewrite Hk in E; [left|right|done]; by injection E.
  - exfalso. destruct Hr as [|key r0 _ _ _|key r0 _ _|]; [by cbn in Hk; congruence| | |by cbn in Hk; congruence].
    + destruct (remove_keeps s key) as [_ E]. rewrite E in Hk. apply lookup_delete_Some in Hk as [_ ?]. congruence.
    + destruct (erase_keeps now s key) as [_ Hb]. destruct (Hb _ _ Hk) as (r & ? & _). congruence.
Qed.

(** A row goes only when it holds no record. *)
Lemma retire_row now s s' row t :
  retire now s s' → st_threads s !! row = Some t →
  st_threads s' !! row = Some t
  ∨ (st_threads s' !! row = None ∧ th_ExpiresAt t ≤ now ∧ threadRecordsLocked row s = [] ∧ st_submissions s' = st_submissions s).
Proof.
  intros Hr Ht. destruct Hr as [|key r0 _ _ _|key r0 _ _|row' t' Hrow Hexp Hnil]; [by left| | |].
  - left. by destruct (remove_keeps s key) as [[-> _] _].
  - left. by destruct (erase_keeps now s key) as [[-> _] _].
  - cbn. rewrite lookup_delete. case_decide as E; [|by left]. subst row'. right.
    rewrite Ht in Hrow. by injection Hrow as ->.
Qed.

Lemma erased_row now k r : recordThreadRow k (erased_record now r) = recordThreadRow k r.
Proof. done. Qed.

Lemma retire_placed now s s' : retire now s s' → placed s → placed s'.
Proof.
  intros Hret Hp k r' Hr' Hth. destruct (retire_back _ _ _ _ _ Hret Hr') as (r & Hr & Hrr).
  assert (sr_ThreadID r' = sr_ThreadID r ∧ recordThreadRow k r' = recordThreadRow k r ∧ sr_AdmittedAt r' = sr_AdmittedAt r)
    as (E1 & E2 & E3) by (by destruct Hrr as [->|[-> _]]).
  rewrite E1 in Hth. rewrite E2, E3. destruct (Hp k r Hr Hth) as (t & Ht & Hle). exists t. split; [|done].
  destruct (retire_row _ _ _ _ _ Hret Ht) as [?|(_ & _ & Hnil & _)]; [done|]. exfalso.
  assert (k ∈ threadRecordsLocked (recordThreadRow k r) s) as Hin by (apply thread_records; by exists r).
  rewrite Hnil in Hin. by apply not_elem_of_nil in Hin.
Qed.

(** A record is removed a day after its admission at the earliest. *)
Lemma removable_late now s k r :
  consistent s → placed s → st_submissions s !! k = Some r → removable now s k r →
  UnthreadedRecordExpiresAt (sr_AdmittedAt r) ≤ now.
Proof.
  intros Hc Hp Hr [[_ ?]|(Hth & t & Ht & Hexp)]; [done|]. destruct (Hp k r Hr Hth) as (t' & Ht' & Hle).
  rewrite Ht in Ht'. injection Ht' as <-. destruct (cons_threads _ Hc _ _ Ht) as (_ & _ & _ & Hv & He & _).
  rewrite He in Hexp. unfold UnthreadedRecordExpiresAt, UnthreadedRecordRetention, ContextFabricThreadExpiresAt, time_Add in *.
  enough (Window ContextFabricThreadRetentionDay ≤ Window (th_RetentionDays t)) by (unfold time, duration in *; lia).
  unfold retention_Valid in Hv. apply bool_decide_eq_true in Hv. unfold ContextFabricThreadRetentionVocabulary in Hv.
  apply elem_of_cons in Hv as [-> | ->%list_elem_of_singleton]; vm_compute; discriminate.
Qed.

Lemma retire_usage now s s' : retire now s s' → st_usage s' = st_usage s.
Proof.
  destruct 1; [done| | |done]; [unfold removeRecordLocked|unfold eraseRecordLocked];
    destruct (st_submissions s !! key); try done. by destruct (IsErasedReservedResultID _).
Qed.

(** ** Closed records *)

Lemma closed_reason t now : ClosedReason t now = "" → th_ClosedAt t = None ∧ now < th_ExpiresAt t.
Proof.
  unfold ClosedReason. case_bool_decide as Hc; [done|]. unfold time_Before. case_bool_decide as He; [|done].
  intros _. split; [by apply eq_None_not_Some|done].
Qed.

(** A row that is open after a write was open before, if admissions read the clock [t]. *)
Lemma edit_row_open ok t s s' row th :
  edit (λ a now, now = t ∧ ok a now) s s' → consistent s → st_threads s !! row = Some th →
  ∃ th', st_threads s' !! row = Some th' ∧
    (th_ClosedAt th' = None → t < th_ExpiresAt th' → th_ClosedAt th = None ∧ t < th_ExpiresAt th).
Proof.
  intros Hed Hc Hrow.
  assert (∃ th', st_threads s !! row = Some th' ∧
    (th_ClosedAt th' = None → t < th_ExpiresAt th' → th_ClosedAt th = None ∧ t < th_ExpiresAt th)) as Hsame by eauto.
  destruct Hed as [|a thread threadKey now order [-> _] _ Ha Ht Ho _ _ _| |orgID id claims e s' _ _ _ _ _ _ _ E _ _ _ _
    |threadID row0 row1 t1 now Hrow1 -> Hop| |key r taker lostTerminal now _ _ _ _ _| | |]; try exact Hsame.
  - destruct (insert_submission_eq a thread threadKey t s) as (_ & _ & _ & _ & _ & _ & _ & ->).
    destruct (isEmpty (sa_ThreadID a)) eqn:Hne; [exact Hsame|].
    destruct (admitted_row a thread threadKey t s Hc Ha Hne Ht Ho) as (_ & _ & _ & Hthread).
    destruct (decide (rowKeyOf threadKey = row)) as [<-|Hner]; [|by rewrite lookup_insert_ne].
    rewrite lookup_insert_eq. eexists. split; [done|]. intros _ _. rewrite Hrow in Hthread. subst thread.
    rewrite <- Hthread in Ho. destruct Ho as [Ho _]. by apply closed_reason.
  - by rewrite E.
  - cbn. destruct (cons_threads _ Hc _ _ Hrow1) as (Hk & _). rewrite Hk.
    destruct (decide (row0 = row)) as [->|Hne]; [|by rewrite lookup_insert_ne].
    rewrite lookup_insert_eq. eexists. split; [done|]. done.
  - unfold reap_one. cbn. by destruct (negb _).
Qed.

Lemma edit_switch ok s s' : edit ok s s' → st_unthreadedRetention s' = st_unthreadedRetention s.
Proof.
  destruct 1 as [|a thread threadKey now order _ _ _ _ _ _ _ _| |orgID id claims e s' _ _ _ _ _ _ _ _ _ _ E _| | |
    key r taker lostTerminal now _ _ _ _ _| | |]; try done.
  - unfold insert_submission. by destruct (isEmpty _).
  - unfold reap_one. cbn. by destruct (negb _).
Qed.

Lemma closed_later t t' r s : t ≤ t' → threadClosedLocked r t' s = "" → threadClosedLocked r t s = "".
Proof.
  intros Ht. unfold threadClosedLocked, time_Before. destruct (isEmpty (sr_ThreadID r)).
  - destruct (st_unthreadedRetention s); [|done]. cbn. do 2 case_bool_decide; cbn; try done. lia.
  - destruct (st_threads s !! _) as [th|]; [|done]. destruct (bool_decide _); [done|].
    do 2 case_bool_decide; cbn; try done. lia.
Qed.

(** A record that is open after a write was open before. *)
Lemma edit_open ok t s s' k r r' :
  edit (λ a now, now = t ∧ ok a now) s s' → consistent s → st_submissions s !! k = Some r →
  st_submissions s' !! k = Some r' → threadClosedLocked r' t s' = "" → threadClosedLocked r t s = "".
Proof.
  intros Hed Hc Hr Hr'. destruct (edit_forward _ _ _ _ _ Hed Hr) as (r2 & Hr2 & Hf). rewrite Hr' in Hr2. injection Hr2 as <-.
  destruct (forward_row (sr_Key r) _ _ Hf) as [E1 E2]. destruct Hf as [Hid _ _ _ _ _]. injection Hid as E3 _ _ _ _ E4 _ _.
  unfold threadClosedLocked. rewrite E1, E3, E2, E4, (edit_switch _ _ _ Hed).
  destruct (isEmpty (sr_ThreadID r)); [done|].
  destruct (st_threads s !! recordThreadRow (sr_Key r) r) as [th|] eqn:Hth; [|done].
  destruct (edit_row_open _ _ _ _ _ _ Hed Hc Hth) as (th' & -> & Hopen). unfold time_Before in *.
  destruct (decide (th_ClosedAt th' = None)) as [Hn|Hn].
  - rewrite Hn. cbn. case_bool_decide as Hlt; [|done]. intros _. destruct (Hopen Hn Hlt) as [-> Hlt0]. cbn.
    by rewrite bool_decide_eq_true_2.
  - by rewrite bool_decide_eq_true_2 by (by apply not_eq_None_Some).
Qed.

(** So was one that is open after a write of the retention job, and it is the same. *)
Lemma retire_open now s s' k r' :
  retire now s s' → consistent s → st_submissions s' !! k = Some r' → threadClosedLocked r' now s' = "" →
  st_submissions s !! k = Some r' ∧ threadClosedLocked r' now s = "".
Proof.
  intros Hret Hc Hr' Ho. destruct (retire_back _ _ _ _ _ Hret Hr') as (r & Hr & Hrr).
  assert (threadClosedLocked r' now s = "") as Ho'.
  { revert Ho. unfold threadClosedLocked. rewrite (retire_switch _ _ _ Hret).
    destruct (isEmpty (sr_ThreadID r')) eqn:Ht; [done|].
    destruct (st_threads s !! recordThreadRow (sr_Key r') r') as [th|] eqn:Hth; [|done].
    destruct (retire_row _ _ _ _ _ Hret Hth) as [->|(_ & _ & Hnil & Es)]; [done|]. exfalso.
    rewrite Es in Hr'. destruct (cons_keyed _ Hc _ _ Hr') as [Ek _].
    assert (k ∈ threadRecordsLocked (recordThreadRow (sr_Key r') r') s) as Hin.
    { apply thread_records. exists r'. rewrite Ek. split_and!; [done| |done]. intros E. by rewrite E in Ht. }
    rewrite Hnil in Hin. by apply not_elem_of_nil in Hin. }
  destruct Hrr as [->|[-> [_ Hcl]]]; [done|]. by destruct Hcl.
Qed.

(** ** Histories *)

Section histories.
Context `{InvestigationLib}.

(** An operation whose admissions satisfy [ok]. *)
Inductive op_step (ok : SubmissionAdmission → time → Prop) : Store → Store → Prop :=
  | op_step_intro op w r w' : op_admits ok op → exec op w = (r, w') → op_step ok w.2 w'.2.

(** An operation, or a sweep whose time and resulting store satisfy [due]. *)
Inductive hist_step (ok : SubmissionAdmission → time → Prop) (due : time → Store → Prop) : Store → Store → Prop :=
  | hist_op s s' : op_step ok s s' → hist_step ok due s s'
  | hist_sweep thread_order order now limit w r w' :
      SweepRetention thread_order order now limit w = (r, w') → due now w'.2 → hist_step ok due w.2 w'.2.

Abbreviation hist ok due := (rtc (hist_step ok due)).

Lemma op_step_edits ok s s' : op_step ok s s' → edits ok s s'.
Proof. destruct 1 as [op w r w' Hok Hr]. by eapply exec_edits. Qed.

Lemma op_steps_edits ok s s' : rtc (op_step ok) s s' → edits ok s s'.
Proof. induction 1 as [|s1 s2 s3 Hs _ IH]; [apply rtc_refl|]. etrans; [by apply op_step_edits|done]. Qed.

Lemma retires_ind now (I : Store → Prop) s s' :
  (∀ s s', retire now s s' → consistent s → I s → I s') → retires now s s' → consistent s → I s → I s'.
Proof.
  intros Hstep. induction 1 as [|s1 s2 s3 Hr _ IH]; [done|]. intros Hc Hi.
  apply IH; [by eapply retire_consistent|by eapply Hstep].
Qed.

Lemma hist_step_keeps ok due (I : Store → Prop) s s' :
  (∀ s s', edit ok s s' → consistent s → I s → I s') →
  (∀ now e s s', due now e → retire now s s' → consistent s → I s → I s') →
  hist_step ok due s s' → consistent s → I s → consistent s' ∧ I s'.
Proof.
  intros Hed Hret Hs Hc Hi. destruct Hs as [s s' Hop%op_step_edits|thread_order order now limit w r w' Hr Hdue].
  - split; [by eapply edits_consistent|by eapply edits_ind].
  - pose proof (sweep_retires _ _ _ _ _ _ _ Hr Hc) as Hrs.
    split; [by eapply retires_consistent|]. eapply retires_ind; [|exact Hrs|done..]. intros. by eapply Hret.
Qed.

(** Along a history, what every write keeps is kept. *)
Lemma hist_keeps ok due (I : Store → Prop) s s' :
  (∀ s s', edit ok s s' → consistent s → I s → I s') →
  (∀ now e s s', due now e → retire now s s' → consistent s → I s → I s') →
  hist ok due s s' → consistent s → I s → consistent s' ∧ I s'.
Proof.
  intros Hed Hret. induction 1 as [|s1 s2 s3 Hs _ IH]; [done|]. intros Hc Hi.
  destruct (hist_step_keeps _ _ I _ _ Hed Hret Hs Hc Hi) as [Hc2 Hi2]. by apply IH.
Qed.

Lemma hist_placed ok due s s' : hist ok due s s' → consistent s → placed s → consistent s' ∧ placed s'.
Proof.
  apply hist_keeps; [intros s1 s2; apply edit_placed|]. intros now e s1 s2 _ Hr _. by eapply retire_placed.
Qed.

(** *** Histories in the order of the clock *)

(** The state carries the clock, which admissions and sweeps read and which never
    goes back. *)
Inductive timed_step (ok : SubmissionAdmission → time → Prop) : time * Store → time * Store → Prop :=
  | timed_op t t' s s' : t ≤ t' → op_step (λ a now, now = t' ∧ ok a now) s s' → timed_step ok (t, s) (t', s')
  | timed_sweep t thread_order order now limit w r w' :
      t ≤ now → SweepRetention thread_order order now limit w = (r, w') → timed_step ok (t, w.2) (now, w'.2).

Lemma timed_keeps ok (I : time → Store → Prop) c c' :
  (∀ t t' s, t ≤ t' → I t s → I t' s) →
  (∀ t s s', edit (λ a now, now = t ∧ ok a now) s s' → consistent s → I t s → I t s') →
  (∀ t s s', retire t s s' → consistent s → I t s → I t s') →
  rtc (timed_step ok) c c' → consistent c.2 → I c.1 c.2 → consistent c'.2 ∧ I c'.1 c'.2.
Proof.
  intros Htime Hed Hret. induction 1 as [|c1 c2 c3 Hs _ IH]; [done|]. intros Hc Hi.
  assert (consistent c2.2 ∧ I c2.1 c2.2) as [? ?]; [|by apply IH].
  destruct Hs as [t t' s s' Ht Hop%op_step_edits|t thread_order order now limit w r w' Ht Hr]; cbn in *.
  - split; [by eapply edits_consistent|]. eapply edits_ind; [apply (Hed t')|exact Hop|done|by eapply Htime].
  - pose proof (sweep_retires _ _ _ _ _ _ _ Hr Hc) as Hrs. split; [by eapply retires_consistent|].
    eapply retires_ind; [apply (Hret now)|exact Hrs|done|by eapply Htime].
Qed.
End histories.
Abbreviation hist ok due := (rtc (hist_step ok due)).
