(* ===== verification/InvestigationTheorems.v ===== *)
(** * InvestigationTheorems: histories of the investigation store

    What holds along any sequence of operations: the maps stay consistent, a
    submission only moves forward and runs once, the limits hold, a stored result
    never changes and reads back, a done submission names a result of its owner,
    a lease taken over is never renewed, a closed thread serves nothing more. *)

From Stdlib Require Import ZArith Lia Ascii.
From stdpp Require Import sorting pretty numbers gmap strings list_numbers list relations.
From S2P Require Import Prelude GoStrings GoText Sha256 Grants Submissions InvestigationStore InvestigationProofs InvestigationInvariant InvestigationRetention InvestigationSteps.

Open Scope Z_scope.

Section histories.
Context `{InvestigationLib}.

(** ** Consistency *)

(** C6: the maps of the store stay consistent along any history of its operations and of its
    retention job: a record lies under its own key and the reservation index knows it, claims and feedback point at
    stored results, a thread's row is its key and outlives its records, and the log of a run is in order with at most
    one terminal, the number of a terminal written after the greatest possible one apart, which wraps around. *)
Theorem store_consistent b s : hist any_admission (λ _ _, True) (NewStore b) s → consistent s ∧ placed s.
Proof. intros Hs. eapply hist_placed; [exact Hs|apply new_consistent|apply new_placed]. Qed.

(** ** Submissions *)

(** A submission record is never lost by the operations, and only moves forward: its key, digest,
    reservation, thread and times are fixed, an outcome stays, a running record keeps its lease holder and
    its lease only grows, a cancel request stays, and the question is at most erased. *)
Lemma submission_kept s s' k r :
  rtc (op_step any_admission) s s' → st_submissions s !! k = Some r →
  ∃ r', st_submissions s' !! k = Some r' ∧ forward r r'.
Proof. intros Hs%op_steps_edits. by eapply edits_forward. Qed.

(** ** One execution per submission *)

Lemma admit_new order a now w r w' :
  AdmitSubmission order a now w = (Ok (r, true), w') →
  findSubmissionLocked order (sa_Key a) w.2 = None ∧ admission_in_order a now = Ok ()
  ∧ st_submissions w'.2 !! sa_Key a = Some r ∧ ∃ owner, r = admitted_record a owner now.
Proof.
  unfold AdmitSubmission. intros Hr.
  apply bind_ctx in Hr as [(e & [=] & _)|(e & Hr)].
  destruct (admission_in_order a now) as [[]|e0|]; [|done..]. unfold bind at 1, lift_res in Hr.
  rewrite bind_get in Hr. cbn [snd] in Hr.
  destruct (findSubmissionLocked order (sa_Key a) w.2) as [[k0 r0]|].
  { unfold bind in Hr. destruct (reconcile_at k0 r0 now _) as [[]]; by simplify_eq/=. }
  cbv zeta in Hr. set (thread := if isEmpty (sa_ThreadID a) then None else _) in Hr.
  set (threadKey := match thread with Some current => th_Key current | None => _ end) in Hr.
  repeat lazymatch type of Hr with (if ?b then fail _ else _) _ = _ => destruct b; [done|] end.
  split; [done|]. split; [done|].
  assert (st_submissions w'.2 = <[sa_Key a := admitted_record a (tk_Owner threadKey) now]> (st_submissions w.2)
    ∧ r = admitted_record a (tk_Owner threadKey) now) as [-> ->]; [|rewrite lookup_insert_eq; eauto].
  unfold bind, modify, ret in Hr. destruct (sa_PlatformRun a); injection Hr as <- <-; cbn [snd fst];
    (split; [|done]); by rewrite (proj1 (insert_submission_eq _ _ _ _ _)).
Qed.

Lemma reconcile_fields record now s :
  let r := (reconcileLocked record now s).1 in
  (sr_Key r, sr_RequestDigest r, sr_ReservedResultID r, sr_AdmittedAt r)
  = (sr_Key record, sr_RequestDigest record, sr_ReservedResultID record, sr_AdmittedAt record).
Proof.
  cbn zeta. unfold reconcileLocked. destruct (negb _ && negb _); [done|].
  destruct (ownedByLocked _ _ _); [done|]. by destruct (bool_decide _ && negb _).
Qed.

Lemma reconcile_at_fields key record now w r w' :
  reconcile_at key record now w = (Ok r, w') →
  (sr_Key r, sr_RequestDigest r, sr_ReservedResultID r, sr_AdmittedAt r)
  = (sr_Key record, sr_RequestDigest record, sr_ReservedResultID record, sr_AdmittedAt record).
Proof.
  unfold reconcile_at. rewrite bind_get. pose proof (reconcile_fields record now w.2) as Hf.
  destruct (reconcileLocked record now w.2) as [rec changed]. cbn in Hf. intros Hr.
  destruct changed; unfold bind, modify, get, ret in Hr; injection Hr as <- <-; exact Hf.
Qed.

(** A record of the owner under the id is found, whatever its own key. *)
Lemma found_same order k key s r :
  st_submissions s !! k = Some r → k ∈ order → sk_OrgID k = sk_OrgID key → sk_SubmissionID k = sk_SubmissionID key →
  SameSubmissionOwner (sk_Owner k) (sk_Owner key) = true → is_Some (findSubmissionLocked order key s).
Proof.
  intros Hk Hin Ho Hid Hown. unfold findSubmissionLocked. destruct (st_submissions s !! key); [eauto|].
  destruct (list_find _ _) as [[i kv]|] eqn:Hf; [cbn; eauto|]. apply list_find_None in Hf.
  rewrite Forall_forall in Hf. exfalso. apply (Hf (k, r)).
  - unfold ranged. apply list_elem_of_omap. exists k. split; [done|]. by rewrite Hk.
  - cbn. by rewrite !bool_decide_eq_true_2.
Qed.

(** An admission of a submission that is known starts nothing and answers with its record. *)
Lemma admit_found order a now e s r b w' k0 r0 :
  findSubmissionLocked order (sa_Key a) s = Some (k0, r0) → AdmitSubmission order a now (e, s) = (Ok (r, b), w') →
  b = false ∧ (sr_RequestDigest r, sr_ReservedResultID r, sr_AdmittedAt r)
    = (sr_RequestDigest r0, sr_ReservedResultID r0, sr_AdmittedAt r0).
Proof.
  intros Hfound Ha. unfold AdmitSubmission in Ha. apply bind_ctx in Ha as [(e1 & [=] & _)|(e1 & Ha)].
  destruct (admission_in_order a now) as [[]|e0|]; [|done..]. unfold bind at 1, lift_res in Ha.
  rewrite bind_get in Ha. cbn [snd] in Ha. rewrite Hfound in Ha. unfold bind in Ha.
  destruct (reconcile_at k0 r0 now _) as [[rec|e0|] w4] eqn:Hrec; [|done..].
  unfold ret in Ha. simplify_eq. apply reconcile_at_fields in Hrec. split; [done|congruence].
Qed.

(** The store holds the record of the admission, whose reservation a sweep may have erased. *)
Definition remembered (a : SubmissionAdmission) (now : time) (s : Store) : Prop :=
  ∃ r, st_submissions s !! sa_Key a = Some r ∧ sr_RequestDigest r = sa_RequestDigest a ∧ sr_AdmittedAt r = now
    ∧ (sr_ReservedResultID r = sa_ReservedResultID a
       ∨ sr_ReservedResultID r = ErasedReservedResultID (sa_ReservedResultID a)).

Lemma remembered_kept ok due a now s s' :
  (∀ t e, due t e → t < UnthreadedRecordExpiresAt now) → hist ok due s s' →
  consistent s → placed s → remembered a now s → remembered a now s'.
Proof.
  intros Hdue Hs Hc Hp Hrem.
  enough (consistent s' ∧ placed s' ∧ remembered a now s') as (_ & _ & ?) by done.
  refine (hist_keeps ok due (λ s, placed s ∧ remembered a now s) s s' _ _ Hs Hc (conj Hp Hrem)).
  - intros s1 s2 Hed Hc1 [Hp1 (r & Hr & Hd & Ha & Hid)]. split; [by eapply edit_placed|].
    destruct (edit_forward _ _ _ _ _ Hed Hr) as (r' & Hr' & [Hf _ _ _ _ _]). injection Hf as _ E1 E2 _ _ E3 _ _.
    exists r'. by rewrite E1, E2, E3.
  - intros t e s1 s2 Ht Hret Hc1 [Hp1 (r & Hr & Hd & Ha & Hid)]. split; [by eapply retire_placed|].
    destruct (retire_submission _ _ _ _ _ Hret Hr) as [Hr'|[(Hr' & _ & Hera)|(_ & _ & Hrem')]].
    + by exists r.
    + exists (erased_record t r). split_and!; [done..|]. right. cbn.
      destruct Hid as [-> | E]; [done|]. by rewrite E, erased_is in Hera.
    + pose proof (removable_late _ _ _ _ Hc1 Hp1 Hr Hrem') as Hlate. specialize (Hdue _ _ Ht). rewrite Ha in Hlate. lia.
Qed.

Lemma admit_step order a now w x w' ok due : ok a now →
  AdmitSubmission order a now w = (Ok x, w') → hist_step ok due w.2 w'.2.
Proof.
  intros Hok Ha. apply hist_op, (op_step_intro _ (OAdmit order a now) w (Ok ())); [exact Hok|].
  cbn. unfold discard, bind. by rewrite Ha.
Qed.

(** C7: a submission runs once: in any history, after an admission at [now], whatever the operations and sweeps of the
    retention job in between, as long as none of the sweeps runs a day after [now] or later, another admission of the
    same submission id by the same owner starts nothing; under the very same key it answers with the record of the
    first one: its digest, its time, and its reserved result id, which a sweep may have erased. *)
Theorem one_execution b0 order a now w r w1 s2 order' a' now' e' r' b w3 :
  hist any_admission (λ _ _, True) (NewStore b0) w.2 →
  AdmitSubmission order a now w = (Ok (r, true), w1) →
  hist any_admission (λ t _, t < UnthreadedRecordExpiresAt now) w1.2 s2 →
  sk_OrgID (sa_Key a') = sk_OrgID (sa_Key a) → sk_SubmissionID (sa_Key a') = sk_SubmissionID (sa_Key a) →
  SameSubmissionOwner (sk_Owner (sa_Key a)) (sk_Owner (sa_Key a')) = true → sa_Key a ∈ order' →
  AdmitSubmission order' a' now' (e', s2) = (Ok (r', b), w3) →
  b = false ∧ (sa_Key a' = sa_Key a →
    sr_RequestDigest r' = sa_RequestDigest a ∧ sr_AdmittedAt r' = now
    ∧ (sr_ReservedResultID r' = sa_ReservedResultID a
       ∨ sr_ReservedResultID r' = ErasedReservedResultID (sa_ReservedResultID a))).
Proof.
  intros Hs0 Ha Hs Ho Hid Hown Hin Ha'.
  destruct (hist_placed _ _ _ _ (rtc_r _ _ _ Hs0 (admit_step _ _ _ _ _ _ _ _ I Ha)) (new_consistent b0) (new_placed b0))
    as [Hc1 Hp1].
  apply admit_new in Ha as (_ & _ & Hr & owner & ->).
  assert (remembered a now w1.2) as Hrem.
  { exists (admitted_record a owner now). split; [done|]. unfold admitted_record. destruct (sa_Lease a); cbn; auto. }
  apply (remembered_kept _ _ _ _ _ _ (λ _ _ Ht, Ht) Hs Hc1 Hp1) in Hrem as (r2 & Hr2 & Hd & Hat & Hres).
  destruct (found_same order' (sa_Key a) (sa_Key a') s2 r2) as [[k0 r0] Hfound]; try done.
  destruct (admit_found _ _ _ _ _ _ _ _ _ _ Hfound Ha') as [Hb Hr'].
  split; [done|]. intros Ek. rewrite Ek in Hfound. unfold findSubmissionLocked in Hfound. rewrite Hr2 in Hfound.
  injection Hfound as <- <-. injection Hr' as -> -> ->. auto.
Qed.

(** ** Stored results *)

Lemma edit_results ok s s' id e : edit ok s s' → st_results s !! id = Some e → st_results s' !! id = Some e.
Proof.
  intros Hed He.
  destruct Hed as [| | |orgID id' claims e' s' Hid _ E1 _ _ _ _ _ _ _ _ _| | |key r taker lostTerminal now _ _ _ _ _| | |];
    try exact He.
  - by destruct (insert_submission_eq a thread threadKey now s) as (_ & _ & _ & -> & _).
  - rewrite E1, lookup_insert_ne; [done|]. intros ->. congruence.
  - unfold reap_one. cbn. by destruct (negb _).
Qed.

Lemma edits_results ok s s' id e : edits ok s s' → st_results s !! id = Some e → st_results s' !! id = Some e.
Proof. induction 1 as [|s1 s2 s3 Hed _ IH]; [done|]. intros He. by eapply IH, edit_results. Qed.

(** ** Limits *)

(** The record is new only when it was just admitted. *)
Lemma edit_origin ok s s' k r' :
  edit ok s s' → st_submissions s' !! k = Some r' →
  is_Some (st_submissions s !! k)
  ∨ ∃ a owner now, ok a now ∧ k = sa_Key a ∧ r' = admitted_record a owner now
      ∧ org_running (sk_OrgID (sa_Key a)) now s < sl_MaxRunningPerOrg (Effective (sa_Limits a))
      ∧ st_submissions s' = <[k := r']> (st_submissions s).
Proof.
  intros Hed Hr'.
  assert (∀ key (r : SubmissionRecord), is_Some (st_submissions s !! key) →
    <[key := r]> (st_submissions s) !! k = Some r' → is_Some (st_submissions s !! k)) as Hset
    by (intros key r ? [[<- _]|[_ ?]]%lookup_insert_Some; eauto).
  destruct Hed as [key r0 state id at_ Hk Hend|a thread threadKey now order Hok Hf _ _ _ _ _ Hlim|a now u _ _ _
    |orgID id claims e s' _ _ _ _ _ _ _ _ _ _ _ Hsub|threadID row0 row t now _ _ _|key r0 until Hk _ _ _
    |key r0 taker lostTerminal now Hk _ _ _ _|key r0 now Hk _ _|run event maxEvents _ _ _ _ _
    |id f stored _ _]; try (left; by eauto).
  - left. eapply Hset; [by eexists|exact Hr'].
  - destruct (insert_submission_eq a thread threadKey now s) as [Es _]. rewrite Es in *.
    apply lookup_insert_Some in Hr' as [[<- <-]|[_ Hr']]; [right|left; eauto]. by exists a, (tk_Owner threadKey), now.
  - left. destruct Hsub as [Hsub|(key & r0 & at_ & _ & Hk & _ & _ & Hsub)]; rewrite Hsub in Hr'; [eauto|].
    eapply Hset; [by eexists|exact Hr'].
  - left. cbn in Hr'. rewrite lookup_erase_questions in Hr'. destruct (st_submissions s !! k); [eauto|done].
  - left. eapply Hset; [by eexists|exact Hr'].
  - left. unfold reap_one in Hr'. eapply Hset; [by eexists|]. cbn in Hr'. by destruct (negb _) in Hr'; exact Hr'.
  - left. eapply Hset; [by eexists|exact Hr'].
Qed.

(** A list of keys, filtered by two predicates. *)
Lemma count_le (P P' : SubmissionKey * SubmissionRecord → bool) m m' extra :
  (∀ k r', m' !! k = Some r' → P' (k, r') = true → k ∈ extra ∨ ∃ r, m !! k = Some r ∧ P (k, r) = true) →
  (length (filter (λ kv, P' kv = true) (map_to_list m')) ≤
   length extra + length (filter (λ kv, P kv = true) (map_to_list m)))%nat.
Proof.
  intros Hin. rewrite <- (length_fmap fst (filter (λ kv, P' kv = true) _)),
    <- (length_fmap fst (filter (λ kv, P kv = true) _)), <- length_app.
  apply submseteq_length, NoDup_submseteq.
  - eapply sublist_NoDup; [apply (NoDup_fst_map_to_list m')|]. apply fmap_sublist, sublist_filter.
  - intros k ([k' r'] & -> & Hf)%list_elem_of_fmap. apply list_elem_of_filter in Hf as [HP Hf].
    apply elem_of_map_to_list in Hf. apply elem_of_app. destruct (Hin _ _ Hf HP) as [?|(r & Hr & HPr)]; [by left|right].
    apply list_elem_of_fmap. exists (k', r). split; [done|]. apply list_elem_of_filter.
    split; [done|by apply elem_of_map_to_list].
Qed.

(** A live record is running, and was live before. *)
Lemma live_before T s s' r r' :
  (∀ id e, st_results s !! id = Some e → st_results s' !! id = Some e) → forward r r' →
  liveLocked r' T s' = true → liveLocked r T s = true.
Proof.
  intros Hres [Hid Hrank _ _ _ _]. injection Hid as Ek _ Er _ _ _ Ee _. unfold liveLocked. rewrite Ek, Er, Ee.
  destruct (negb (bool_decide (sr_State r' = SubmissionRunning)) || _) eqn:Hn; [done|].
  apply orb_false_iff in Hn as [Hst Hb]. apply negb_false_iff, bool_decide_eq_true in Hst. rewrite Hst in Hrank.
  rewrite (rank_running _ Hrank), Hb. cbn.
  destruct (st_results s !! sr_ReservedResultID r) as [e|] eqn:He; [|done]. by rewrite (Hres _ _ He).
Qed.

Lemma live_earlier t T s r : t ≤ T → liveLocked r T s = true → liveLocked r t s = true.
Proof.
  intros Ht. unfold liveLocked, time_Before. destruct (negb (bool_decide (sr_State r = SubmissionRunning))); [done|].
  cbn. case_bool_decide; cbn; [|done]. by rewrite bool_decide_eq_true_2 by lia.
Qed.

Lemma running_earlier o t T s : t ≤ T → org_running o T s ≤ org_running o t s.
Proof.
  intros Ht. unfold org_running. apply inj_le. eapply (count_le _ _ _ _ []). intros k r Hk HP. right. exists r.
  split; [done|]. cbn in *. apply andb_true_iff in HP as [-> Hl]. by apply (live_earlier t T).
Qed.

Section limits.
Variables (T : time) (max allowance : Z).

(** Admissions up to [T] under limits no wider than these. *)
Definition limited (a : SubmissionAdmission) (now : time) : Prop :=
  now ≤ T ∧ sl_MaxRunningPerOrg (Effective (sa_Limits a)) ≤ max
  ∧ sl_MonthlyPlatformRunAllowance (Effective (sa_Limits a)) ≤ allowance.

Definition within (s : Store) : Prop :=
  (∀ o, org_running o T s ≤ max) ∧ (∀ k runs, st_usage s !! k = Some runs → 0 ≤ runs ≤ allowance).

(** No record of the organization is new, or one was just admitted under its limit. *)
Lemma classify_origin s s' o :
  edit limited s s' →
  (∀ k r', st_submissions s' !! k = Some r' → sk_OrgID k = o → is_Some (st_submissions s !! k))
  ∨ ∃ k a now, limited a now ∧ sk_OrgID k = o ∧ org_running o now s < sl_MaxRunningPerOrg (Effective (sa_Limits a))
      ∧ ∀ k' r', st_submissions s' !! k' = Some r' → k' = k ∨ is_Some (st_submissions s !! k').
Proof.
  intros Hed.
  destruct (decide (map_Exists (λ k _, st_submissions s !! k = None ∧ sk_OrgID k = o) (st_submissions s'))) as [Hex|Hno].
  - right. destruct Hex as (k & r' & Hr' & Hr & Ho).
    destruct (edit_origin _ _ _ _ _ Hed Hr') as [[? ?]|(a & owner & now & Hok & -> & _ & Hn & Es)]; [congruence|].
    rewrite Ho in Hn. exists (sa_Key a), a, now. split_and!; [apply Hok..|done|done|].
    intros k' r2. rewrite Es. intros [[<- _]|[_ ?]]%lookup_insert_Some; [by left|right; eauto].
  - left. intros k r' Hr' Ho. apply not_eq_None_Some. intros Hr. apply Hno. by exists k, r'.
Qed.

Lemma edit_running s s' o : edit limited s s' → org_running o T s ≤ max → org_running o T s' ≤ max.
Proof.
  intros Hed Hmax.
  assert (∀ id e, st_results s !! id = Some e → st_results s' !! id = Some e) as Hres by (intros; by eapply edit_results).
  assert (∀ k r r', st_submissions s !! k = Some r → st_submissions s' !! k = Some r' → liveLocked r' T s' = true →
    liveLocked r T s = true) as Hback.
  { intros k r r' Hr Hr' Hl. destruct (edit_forward _ _ _ _ _ Hed Hr) as (r2 & Hr2 & Hf). simplify_eq.
    by eapply live_before. }
  destruct (classify_origin s s' o Hed) as [Hold|(k & a & now & [Ht [Hm _]] & Ho & Hn & Hs')].
  - etrans; [|exact Hmax]. unfold org_running. apply inj_le, (count_le _ _ _ _ []). intros k r' Hr' HP. right. cbn in HP.
    apply andb_true_iff in HP as [Ho%bool_decide_eq_true Hl]. destruct (Hold _ _ Hr' Ho) as [r Hr]. exists r.
    split; [done|]. cbn. rewrite bool_decide_eq_true_2 by done. by eapply Hback.
  - assert (org_running o T s' ≤ 1 + org_running o T s) as Hle.
    { unfold org_running. rewrite <- (Nat2Z.inj_add 1). apply inj_le, (count_le _ _ _ _ [k]). intros k' r' Hr' HP.
      destruct (Hs' k' r' Hr') as [->|[r Hr]]; [left; by left|]. right. exists r. split; [done|]. cbn in *.
      apply andb_true_iff in HP as [-> Hl]. by eapply Hback. }
    pose proof (running_earlier o now T s Ht). lia.
Qed.

Lemma edit_usage_within s s' :
  edit limited s s' → (∀ k runs, st_usage s !! k = Some runs → 0 ≤ runs ≤ allowance) →
  ∀ k runs, st_usage s' !! k = Some runs → 0 ≤ runs ≤ allowance.
Proof.
  intros Hed Hu.
  destruct Hed as [| |a now u [_ [_ Ha]] _ Hlt|orgID id claims e s' _ _ _ _ _ _ E4 _ _ _ _ _| | |key r0 taker lostTerminal now _ _ _ _ _| | |];
    try exact Hu.
  - by destruct (insert_submission_eq a thread threadKey now s) as (_ & _ & _ & _ & _ & _ & -> & _).
  - intros k runs. cbn. intros [[<- <-]|[_ Hk]]%lookup_insert_Some; [|by eapply Hu].
    destruct (st_usage s !! u) as [n|] eqn:Hn; cbn in *; [specialize (Hu _ _ Hn)|]; lia.
  - by rewrite E4.
  - unfold reap_one. cbn. by destruct (negb _).
Qed.

End limits.

(** *** With the retention job *)

Lemma edit_weaken (ok ok' : SubmissionAdmission → time → Prop) s s' :
  (∀ a now, ok a now → ok' a now) → edit ok s s' → edit ok' s s'.
Proof. intros Hok Hed. destruct Hed; [eapply edit_end|eapply edit_admit|eapply edit_usage|eapply edit_claims|eapply edit_close
  |eapply edit_renew|eapply edit_take|eapply edit_cancel|eapply edit_log|eapply edit_feedback]; eauto. Qed.

(** The running records of the organization that are not closed. *)
Definition open_running (orgID : string) (t : time) (s : Store) : Z :=
  Z.of_nat (length (filter (λ kv : SubmissionKey * SubmissionRecord,
    bool_decide (sk_OrgID kv.1 = orgID) && liveLocked kv.2 t s && isEmpty (threadClosedLocked kv.2 t s) = true)
    (map_to_list (st_submissions s)))).

Section swept_limits.
Variables (max allowance : Z).

(** An admission under limits no wider than these. *)
Definition narrow (a : SubmissionAdmission) (_ : time) : Prop :=
  sl_MaxRunningPerOrg (Effective (sa_Limits a)) ≤ max ∧ sl_MonthlyPlatformRunAllowance (Effective (sa_Limits a)) ≤ allowance.

Definition open_within (t : time) (s : Store) : Prop :=
  (∀ o, open_running o t s ≤ max) ∧ (∀ k runs, st_usage s !! k = Some runs → 0 ≤ runs ≤ allowance).

Lemma open_le o t s : open_running o t s ≤ org_running o t s.
Proof.
  apply inj_le, (count_le _ _ _ _ []). intros k r Hr HP. right. exists r. split; [done|].
  cbn in *. by apply andb_true_iff in HP as [-> _].
Qed.

Lemma open_later t t' s : t ≤ t' → open_within t s → open_within t' s.
Proof.
  intros Ht [H1 H2]. split; [|done]. intros o. etrans; [|apply (H1 o)].
  apply inj_le, (count_le _ _ _ _ []). intros k r Hr HP. right. exists r. split; [done|]. cbn in *.
  apply andb_true_iff in HP as [HP Hcl]. apply andb_true_iff in HP as [-> Hl].
  rewrite (live_earlier t t') by done. cbn. apply isEmpty_true. apply isEmpty_true in Hcl. by eapply closed_later.
Qed.

Lemma edit_open_within t s s' :
  edit (λ a now, now = t ∧ narrow a now) s s' → consistent s → open_within t s → open_within t s'.
Proof.
  intros Hed Hc [H1 H2].
  assert (edit (limited t max allowance) s s') as Hlim
    by (eapply edit_weaken; [|exact Hed]; intros a now [-> [? ?]]; split; [reflexivity|done]).
  assert (∀ k r r', st_submissions s !! k = Some r → st_submissions s' !! k = Some r' →
    liveLocked r' t s' && isEmpty (threadClosedLocked r' t s') = true →
    liveLocked r t s && isEmpty (threadClosedLocked r t s) = true) as Hback.
  { intros k r r' Hr Hr' [Hl Hcl]%andb_true_iff. apply isEmpty_true in Hcl.
    destruct (edit_forward _ _ _ _ _ Hed Hr) as (r2 & Hr2 & Hf). rewrite Hr' in Hr2. injection Hr2 as <-.
    rewrite (live_before t s s' r r') by (done || intros; by eapply edit_results). cbn.
    apply isEmpty_true. by eapply edit_open. }
  split; [|by eapply edit_usage_within].
  intros o. destruct (classify_origin _ _ _ s s' o Hlim) as [Hold|(k & a & now & [Ht [Hm _]] & Ho & Hn & Hs')].
  - etrans; [|apply (H1 o)]. apply inj_le, (count_le _ _ _ _ []). intros k r' Hr' HP. right. cbn in HP.
    rewrite <- andb_assoc in HP. apply andb_true_iff in HP as [Ho%bool_decide_eq_true HP].
    destruct (Hold _ _ Hr' Ho) as [r Hr]. exists r. split; [done|]. cbn. rewrite bool_decide_eq_true_2 by done.
    by eapply Hback.
  - assert (open_running o t s' ≤ 1 + open_running o t s) as Hle.
    { unfold open_running. rewrite <- (Nat2Z.inj_add 1). apply inj_le, (count_le _ _ _ _ [k]). intros k' r' Hr' HP.
      destruct (Hs' k' r' Hr') as [->|[r Hr]]; [left; by left|]. right. exists r. split; [done|]. cbn in *.
      rewrite <- andb_assoc in *. apply andb_true_iff in HP as [-> HP]. by eapply Hback. }
    pose proof (running_earlier o now t s Ht). pose proof (open_le o t s). lia.
Qed.

Lemma retire_open_within t s s' : retire t s s' → consistent s → open_within t s → open_within t s'.
Proof.
  intros Hret Hc [H1 H2]. split; [|by rewrite (retire_usage _ _ _ Hret)]. intros o. etrans; [|apply (H1 o)].
  apply inj_le, (count_le _ _ _ _ []). intros k r' Hr' HP. right. cbn in HP.
  apply andb_true_iff in HP as [HP Hcl]. apply andb_true_iff in HP as [Ho Hl]. apply isEmpty_true in Hcl.
  destruct (retire_open _ _ _ _ _ Hret Hc Hr' Hcl) as [Hr Hop]. exists r'. split; [done|]. cbn. rewrite Ho, Hop, andb_true_r.
  cbn. revert Hl. unfold liveLocked. destruct (_ || _); [done|].
  destruct (st_results s !! sr_ReservedResultID r') as [e|] eqn:He; [|done].
  destruct (decide (en_orgID e = sk_OrgID (sr_Key r'))) as [Horg|Horg]; [|by rewrite bool_decide_eq_false_2].
  destruct (cons_keyed _ Hc _ _ Hr) as [Ek _]. rewrite Ek in *.
  destruct (retire_result_kept t s s' k r' (sr_ReservedResultID r') e Hret (conj Hr Hop)) as [-> _]; [by right|done..].
Qed.
End swept_limits.

(** C9: the limits hold.  When every admission is under limits no wider than [max] runs of an organization and
    [allowance] platform runs of a month: in every history of operations and sweeps of the retention job in the order
    of the clock, no organization has more than [max] running records in threads that are not closed, and no month of
    an organization counts more than [allowance] runs; and in every history without such a sweep, in whatever order its
    admissions up to [T] read the clock, no organization has more than [max] running records at [T], closed or not. *)
Theorem running_within_limits max allowance b :
  0 ≤ max →
  (∀ t0 t s, rtc (timed_step (narrow max allowance)) (t0, NewStore b) (t, s) → open_within max allowance t s)
  ∧ (∀ T s, rtc (op_step (limited T max allowance)) (NewStore b) s → within T max allowance s).
Proof.
  intros Hmax. split.
  - intros t0 t s Hs.
    refine (proj2 (timed_keeps (narrow max allowance) (open_within max allowance) (t0, NewStore b) (t, s) _ _ _ Hs
      (new_consistent b) _)).
    + intros t1 t2 s1. apply open_later.
    + intros t1 s1 s2. apply edit_open_within.
    + intros t1 s1 s2. apply retire_open_within.
    + split; [intros o; exact Hmax|]. intros k runs. cbn. by rewrite lookup_empty.
  - intros T s Hr%op_steps_edits. refine (edits_ind (limited T max allowance) (within T max allowance) _ _ _ Hr (new_consistent b) _).
    + intros s1 s2 Hed _ [H1 H2]. split; [intros o; by eapply edit_running|by eapply edit_usage_within].
    + split; [intros o; exact Hmax|]. intros k runs. cbn. by rewrite lookup_empty.
Qed.

(** ** Done submissions *)

Definition done_ok (s : Store) : Prop := ∀ k r, st_submissions s !! k = Some r → sr_State r = SubmissionDone →
  ownedByLocked (sr_ResultID r) k s = true.

Lemma owned_later s s' id k :
  (∀ id e, st_results s !! id = Some e → st_results s' !! id = Some e) →
  ownedByLocked id k s = true → ownedByLocked id k s' = true.
Proof.
  intros Hres. unfold ownedByLocked. destruct (st_results s !! id) as [e|] eqn:He; [|done]. by rewrite (Hres _ _ He).
Qed.

Lemma key_owner_self key : validSubmissionKey key = Ok () → SameSubmissionOwner (sk_Owner key) (sk_Owner key) = true.
Proof.
  unfold validSubmissionKey, SameSubmissionOwner. destruct (isEmpty (so_Subject (sk_Owner key))) eqn:He.
  - rewrite orb_true_r. done.
  - intros _. by rewrite !bool_decide_eq_true_2.
Qed.

(** How a record came to be done. *)
Lemma edit_done ok s s' k r r' :
  edit ok s s' → consistent s → st_submissions s !! k = Some r → st_submissions s' !! k = Some r' →
  sr_State r' = SubmissionDone →
  sr_State r = SubmissionDone ∧ sr_ResultID r' = sr_ResultID r ∨ ownedByLocked (sr_ResultID r') k s' = true.
Proof.
  intros Hed Hc Hr Hr' Hd.
  assert (∀ id e, st_results s !! id = Some e → st_results s' !! id = Some e) as Hres by (intros; by eapply edit_results).
  destruct (cons_keyed _ Hc _ _ Hr) as [Ek Hval].
  destruct (decide (sr_State r = SubmissionDone)) as [Hrd|Hrd].
  { destruct (edit_forward _ _ _ _ _ Hed Hr) as (r2 & Hr2 & [_ _ Hf _ _ _]). simplify_eq. left.
    split; [done|]. by apply Hf; left. }
  right. destruct Hed as [key r0 state id at_ Hk Hend|a thread threadKey now order _ Hf _ _ _ _ _ _|a now u _ _ _
    |orgID id claims e s' _ Ho E1 _ _ _ _ _ _ _ _ Hsub|threadID row0 row t now _ _ _|key r0 until Hk Hst _ _
    |key r0 taker lostTerminal now Hk _ _ _ _|key r0 now Hk Hst _|run event maxEvents _ _ _ _ _
    |id f stored _ _]; try (cbn in Hr'; rewrite Hr in Hr'; simplify_eq; done).
  - cbn in Hr'. apply lookup_insert_Some in Hr' as [[<- <-]|[_ Hr']]; [|by (rewrite Hr in Hr'; simplify_eq)].
    rewrite Hr in Hk. simplify_eq. cbn in Hd. subst state. cbn.
    by destruct Hend as [[_ Hown]|[_ Hown]].
  - destruct (insert_submission_eq a thread threadKey now s) as [Es _]. rewrite Es in Hr'.
    rewrite lookup_insert_ne in Hr'; [rewrite Hr in Hr'; simplify_eq; done|].
    intros <-. by rewrite (find_none _ _ _ Hf) in Hr.
  - destruct Hsub as [Hsub|(key & r0 & at_ & Hresv & Hk & _ & Hown & Hsub)]; rewrite Hsub in Hr'.
    { by (rewrite Hr in Hr'; simplify_eq). }
    apply lookup_insert_Some in Hr' as [[<- <-]|[_ Hr']]; [|by (rewrite Hr in Hr'; simplify_eq)].
    rewrite Hr in Hk. simplify_eq. cbn. unfold ownedByLocked. rewrite E1, lookup_insert_eq.
    destruct (cons_reserved _ Hc _ _ _ Hresv) as (r1 & _ & Hok & _).
    rewrite bool_decide_eq_true_2 by congruence. rewrite Hown. by apply key_owner_self.
  - cbn in Hr'. rewrite lookup_erase_questions, Hr in Hr'. cbn in Hr'. destruct (linked _ _ _); by simplify_eq/=.
  - cbn in Hr'. apply lookup_insert_Some in Hr' as [[<- <-]|[_ Hr']]; [|by (rewrite Hr in Hr'; simplify_eq)].
    cbn in Hd. congruence.
  - assert (<[key := sr_set_Lease taker (sr_LeaseExpiresAt r0) (sr_set_outcome SubmissionAbandoned (sr_ResultID r0) now r0)]>
          (st_submissions s) !! k = Some r') as Hx by (unfold reap_one in Hr'; cbn in Hr'; by destruct (negb _) in Hr').
    apply lookup_insert_Some in Hx as [[<- <-]|[_ Hx]]; [done|]. by (rewrite Hr in Hx; simplify_eq).
  - cbn in Hr'. apply lookup_insert_Some in Hr' as [[<- <-]|[_ Hr']]; [|by (rewrite Hr in Hr'; simplify_eq)].
    cbn in Hd. congruence.
Qed.

Lemma edit_done_ok ok s s' : edit ok s s' → consistent s → done_ok s → done_ok s'.
Proof.
  intros Hed Hc Hd k r' Hr' Hst.
  assert (∀ id e, st_results s !! id = Some e → st_results s' !! id = Some e) as Hres by (intros; by eapply edit_results).
  destruct (edit_origin _ _ _ _ _ Hed Hr') as [[r Hr]|(a & owner & now & _ & _ & -> & _)].
  - destruct (edit_done _ _ _ _ _ _ Hed Hc Hr Hr' Hst) as [[Hrd Heq]|Hown]; [|done]. rewrite Heq.
    apply (owned_later s s'); [done|]. by apply Hd.
  - destruct (admitted_fields a owner now) as (_ & _ & E & _). congruence.
Qed.

(** The same of the records that are not closed at [t], which a sweep leaves alone. *)
Definition open_done_ok (t : time) (s : Store) : Prop := ∀ k r, st_submissions s !! k = Some r →
  sr_State r = SubmissionDone → threadClosedLocked r t s = "" → ownedByLocked (sr_ResultID r) k s = true.

Lemma edit_open_done_ok ok t s s' :
  edit (λ a now, now = t ∧ ok a now) s s' → consistent s → open_done_ok t s → open_done_ok t s'.
Proof.
  intros Hed Hc Hd k r' Hr' Hst Ho.
  destruct (edit_origin _ _ _ _ _ Hed Hr') as [[r Hr]|(a & owner & now & _ & _ & -> & _)].
  - destruct (edit_done _ _ _ _ _ _ Hed Hc Hr Hr' Hst) as [[Hrd Heq]|Hown]; [|done]. rewrite Heq.
    apply (owned_later s s'); [intros; by eapply edit_results|]. apply Hd; [done..|by eapply edit_open].
  - destruct (admitted_fields a owner now) as (_ & _ & E & _). congruence.
Qed.

Lemma retire_open_done_ok t s s' : retire t s s' → consistent s → open_done_ok t s → open_done_ok t s'.
Proof.
  intros Hret Hc Hd k r' Hr' Hst Ho. destruct (retire_open _ _ _ _ _ Hret Hc Hr' Ho) as [Hr Hop].
  specialize (Hd k r' Hr Hst Hop). unfold ownedByLocked in *.
  destruct (st_results s !! sr_ResultID r') as [e|] eqn:He; [|done].
  assert (en_orgID e = sk_OrgID k) as Horg by (by apply andb_true_iff in Hd as [?%bool_decide_eq_true _]).
  destruct (retire_result_kept t s s' k r' (sr_ResultID r') e Hret (conj Hr Hop)) as [-> _]; [by left|done|done|done].
Qed.

Lemma owned_result id k s :
  ownedByLocked id k s = true →
  ∃ e owner, st_results s !! id = Some e ∧ en_orgID e = sk_OrgID k ∧ en_owner e = Some owner
    ∧ SameSubmissionOwner owner (sk_Owner k) = true.
Proof.
  unfold ownedByLocked. intros Hok. destruct (st_results s !! id) as [e|]; [|done].
  apply andb_true_iff in Hok as [Ho Hown]. apply bool_decide_eq_true in Ho.
  destruct (en_owner e) as [owner|] eqn:He; [|done]. by exists e, owner.
Qed.

(** C8: a done submission serves a result of its own organization and owner: the result id of a done record is stored
    under the record's organization, bound to the record's owner.  It is so of every done record in every history of
    operations, and, when sweeps of the retention job come in between, in the order of the clock, of every done record
    that is not closed. *)
Theorem done_serves_owned_result b s k r :
  (rtc (op_step any_admission) (NewStore b) s
   ∨ ∃ t0 t, rtc (timed_step any_admission) (t0, NewStore b) (t, s) ∧ threadClosedLocked r t s = "") →
  st_submissions s !! k = Some r → sr_State r = SubmissionDone →
  ∃ e owner, st_results s !! sr_ResultID r = Some e ∧ en_orgID e = sk_OrgID k ∧ en_owner e = Some owner
    ∧ SameSubmissionOwner owner (sk_Owner k) = true.
Proof.
  intros [Hs%op_steps_edits|(t0 & t & Hs & Hop)] Hr Hd; apply owned_result.
  - assert (done_ok s) as Hok; [|by apply Hok].
    refine (edits_ind any_admission done_ok _ _ _ Hs (new_consistent b) _); [intros s1 s2; apply edit_done_ok|].
    intros k0 r0. cbn. by rewrite lookup_empty.
  - assert (open_done_ok t s) as Hok; [|by apply Hok].
    refine (proj2 (timed_keeps any_admission open_done_ok (t0, NewStore b) (t, s) _ _ _ Hs (new_consistent b) _)).
    + intros t1 t2 s1 Ht Hok k0 r0 Hr0 Hd0 Ho0. apply Hok; [done..|by eapply closed_later].
    + intros t1 s1 s2. apply edit_open_done_ok.
    + intros t1 s1 s2. apply retire_open_done_ok.
    + intros k0 r0. cbn. by rewrite lookup_empty.
Qed.
End histories.
