(* ===== verification/InvestigationHistories.v ===== *)
(** * InvestigationHistories: results, leases, closed threads and sweeps

    A saved result reads back and is never replaced; a run whose lease was taken
    over stays lost to its holder; a closed thread keeps nothing to serve; the
    retention job removes all that is due and nothing that is live. *)

From Stdlib Require Import ZArith Lia Ascii.
From stdpp Require Import sorting pretty numbers gmap strings list_numbers list relations.
From S2P Require Import Prelude GoStrings GoText Sha256 Grants Submissions InvestigationStore InvestigationProofs InvestigationInvariant InvestigationRetention InvestigationSteps InvestigationTheorems.

Open Scope Z_scope.

Section histories.
Context `{InvestigationLib}.

(** ** Results *)

Lemma save_ok p r parent semantic reservation w w' :
  Save p r parent semantic reservation w = (Ok (), w') →
  let id := strings_TrimSpace (ir_ResultID r) in
  id ≠ "" ∧ strings_TrimSpace (pr_OrgID p) ≠ "" ∧ ValidateResult r = true
  ∧ ∃ payload e, json_Marshal r = Some payload ∧ st_results w'.2 !! id = Some e
      ∧ en_payload e = payload ∧ en_orgID e = strings_TrimSpace (pr_OrgID p)
      ∧ ∀ e0, st_results w.2 !! id = Some e0 → en_payload e0 = payload ∧ en_orgID e0 = strings_TrimSpace (pr_OrgID p).
Proof.
  unfold Save. intros Hr. apply bind_ctx in Hr as [(e & [=] & _)|(e & Hr)]. cbv zeta in *.
  set (orgID := strings_TrimSpace (pr_OrgID p)) in *. set (id := strings_TrimSpace (ir_ResultID r)) in *.
  destruct (isEmpty orgID || isEmpty id) eqn:Hne; [done|]. apply orb_false_iff in Hne as [Ho Hid].
  destruct (ValidateStoredParentResultID id parent) as [[]|e0|]; [|done..]. unfold bind at 1, lift_res in Hr.
  destruct (ValidateResult r); [|done]. cbn [negb] in Hr. destruct (json_Marshal r) as [payload|]; [|done].
  destruct (EncodedColumn semantic) as [column|]; [|done]. rewrite bind_get in Hr. cbn [snd] in Hr.
  split; [by intros E; rewrite E in Hid|]. split; [by intros E; rewrite E in Ho|]. split; [done|].
  exists payload. destruct (st_results w.2 !! id) as [existing|] eqn:Hex.
  - destruct (rejectExplicitNullDegradedReasons (en_payload existing)) as [[]|e0|]; [|done..].
    unfold bind at 1, lift_res in Hr. destruct (bool_decide (en_orgID existing = orgID)) eqn:H1; [|done].
    destruct (bool_decide (en_payload existing = payload)) eqn:H2; [|done]. apply bool_decide_eq_true in H1, H2.
    cbn [negb] in Hr. destruct (DecodeSemanticState _) as [st status].
    destruct (negb _ && negb _); [done|]. destruct (negb (SemanticStatesEqual _ _)); [done|].
    unfold ret in Hr. injection Hr as <-. exists existing. split_and!; try done. intros e0 [= <-]. done.
  - destruct (IsReservedSave _ _ && _); [done|]. destruct (negb _); [done|].
    unfold bind at 1, modify at 1 in Hr. cbn [fst snd] in Hr. unfold bind at 1 in Hr.
    set (s1 := st_set_claims _ w.2) in Hr.
    destruct (complete_spec p orgID id (e, s1)) as (owner & e' & s' & Hrun & _).
    rewrite Hrun in Hr. unfold modify in Hr. injection Hr as <-. eexists. split; [done|]. split; [cbn; by rewrite lookup_insert_eq|].
    by split_and!.
Qed.

(** A write of the retention job adds no result and changes none. *)
Lemma retire_results now s s' id e : retire now s s' → st_results s' !! id = Some e → st_results s !! id = Some e.
Proof.
  intros Hr. destruct Hr as [orgID id' stored _ _ _|key r0 _ _ _|key r0 _ _|row t _ _ _]; [| | |done].
  - cbn. by intros [_ ?]%lookup_delete_Some.
  - unfold removeRecordLocked. by destruct (st_submissions s !! key).
  - unfold eraseRecordLocked. destruct (st_submissions s !! key); [|done]. by destruct (IsErasedReservedResultID _).
Qed.

Lemma retires_results now s s' id e : retires now s s' → st_results s' !! id = Some e → st_results s !! id = Some e.
Proof. induction 1 as [|s1 s2 s3 Hr _ IH]; [done|]. intros He. by eapply retire_results, IH. Qed.

(** A stored result stays what it is until a sweep removes it. *)
Lemma hist_result ok s s' id e :
  hist ok (λ _ later, is_Some (st_results later !! id)) s s' → consistent s →
  st_results s !! id = Some e → st_results s' !! id = Some e.
Proof.
  induction 1 as [|s1 s2 s3 Hs _ IH]; [done|]. intros Hc He.
  assert (consistent s2 ∧ st_results s2 !! id = Some e) as [? ?]; [|by apply IH].
  destruct Hs as [s1 s2 Hop%op_step_edits|thread_order order now limit w r w' Hr [e' He']].
  - split; [by eapply edits_consistent|by eapply edits_results].
  - pose proof (sweep_retires _ _ _ _ _ _ _ Hr Hc) as Hrs. split; [by eapply retires_consistent|].
    rewrite He'. by rewrite (retires_results _ _ _ _ _ Hrs He') in He.
Qed.

(** What [Get] makes of stored bytes. *)
Definition read_payload (payload : string) : res (InvestigationResult Content) :=
  let? _ := rejectExplicitNullDegradedReasons payload in
  match json_Unmarshal payload with
  | None => Err (ErrText "decode investigation result")
  | Some result =>
    if ValidateStoredResult result then Ok result else Err (ErrText "stored investigation result is invalid")
  end.

Lemma read_payload_total payload : read_payload payload ≠ Panic.
Proof.
  unfold read_payload, rejectExplicitNullDegradedReasons.
  destruct (json_degraded_reasons payload); [|done]. destruct (bool_decide _); [done|]. cbn.
  destruct (json_Unmarshal payload) as [r|]; [|done]. by destruct (ValidateStoredResult r).
Qed.

(** The answer of [Get] for a stored result that nothing hides. *)
Lemma get_reads p id t s e :
  strings_TrimSpace (pr_OrgID p) ≠ "" → strings_TrimSpace id ≠ "" →
  st_results s !! strings_TrimSpace id = Some e → en_orgID e = strings_TrimSpace (pr_OrgID p) →
  hiddenByClosedThreadLocked (strings_TrimSpace (pr_OrgID p)) (strings_TrimSpace id) t s = false →
  (Get p id (Env [] [t], s)).1 =
    (let? result := read_payload (en_payload e) in
     Ok (StoredResult _ result (en_parentResultID e) (en_grantDigest e) (en_owner e)
           (DecodeSemanticState (en_semanticState e)).1 (DecodeSemanticState (en_semanticState e)).2)).
Proof.
  intros Ho Hid He Heo Hh.
  assert (isEmpty (strings_TrimSpace (pr_OrgID p)) || isEmpty (strings_TrimSpace id) = false) as Hne
    by (apply orb_false_iff; unfold isEmpty; by destruct (strings_TrimSpace (pr_OrgID p)), (strings_TrimSpace id)).
  unfold Get. unfold bind at 1, ctx_check at 1. cbn [fst env_ctx]. cbv zeta. rewrite Hne, bind_get. cbn [snd].
  rewrite He, Heo, bool_decide_eq_true_2 by done. cbn [negb]. unfold bind at 1, now at 1. cbn [env_clock fst snd].
  rewrite Hh. unfold read_payload, bind at 1, lift_res at 1.
  destruct (rejectExplicitNullDegradedReasons (en_payload e)) as [[]|e0|]; [|done..]. cbn [res_bind].
  destruct (json_Unmarshal (en_payload e)) as [r'|]; [|done]. destruct (ValidateStoredResult r'); [|done]. cbn [negb].
  by destruct (DecodeSemanticState _).
Qed.

(** C10: a result is written once and reads back: in any history, after a save, whatever the operations and the sweeps of
    the retention job in between, as long as none of the sweeps has removed it, [Get] in the same organization and while
    no closed thread hides it answers with what the bytes saved decode to, [Get] in any other organization does not find
    it, and a later save under the id is accepted only for the same bytes and the same organization. *)
Theorem saved_result_reads_back b p r parent semantic reservation w w1 s :
  hist any_admission (λ _ _, True) (NewStore b) w.2 →
  Save p r parent semantic reservation w = (Ok (), w1) →
  hist any_admission (λ _ later, is_Some (st_results later !! strings_TrimSpace (ir_ResultID r))) w1.2 s →
  ∃ payload, json_Marshal r = Some payload
  ∧ (∀ p' t, strings_TrimSpace (pr_OrgID p') = strings_TrimSpace (pr_OrgID p) →
     hiddenByClosedThreadLocked (strings_TrimSpace (pr_OrgID p)) (strings_TrimSpace (ir_ResultID r)) t s = false →
     let answer := (Get p' (ir_ResultID r) (Env [] [t], s)).1 in
     match read_payload payload with
     | Ok r' => ∃ stored, answer = Ok stored ∧ si_Result stored = r'
     | Err e => answer = Err e
     | Panic => False
     end)
  ∧ (∀ p' e a w2, strings_TrimSpace (pr_OrgID p') ≠ strings_TrimSpace (pr_OrgID p) →
       Get p' (ir_ResultID r) (e, s) ≠ (Ok a, w2))
  ∧ (∀ p2 r2 parent2 semantic2 reservation2 e w2,
       strings_TrimSpace (ir_ResultID r2) = strings_TrimSpace (ir_ResultID r) →
       Save p2 r2 parent2 semantic2 reservation2 (e, s) = (Ok (), w2) →
       json_Marshal r2 = Some payload ∧ strings_TrimSpace (pr_OrgID p2) = strings_TrimSpace (pr_OrgID p)).
Proof.
  intros Hs0 Hsave Hs.
  assert (op_step any_admission w.2 w1.2) as Hop
    by (apply (op_step_intro _ (OSave p r parent semantic reservation) w (Ok ())); [exact I|exact Hsave]).
  destruct (hist_placed _ _ _ _ (rtc_r _ _ _ Hs0 (hist_op _ _ _ _ Hop)) (new_consistent b) (new_placed b)) as [Hc1 _].
  destruct (save_ok _ _ _ _ _ _ _ Hsave) as (Hid & Ho & Hv & payload & e & Hm & He & Hp & Heo & _).
  pose proof (hist_result _ _ _ _ _ Hs Hc1 He) as Hes. exists payload. split_and!; [done|..].
  - intros p' t Hp' Hh. cbn zeta. rewrite <- Hp' in Ho, Heo, Hh. rewrite (get_reads p' (ir_ResultID r) t s e) by done. rewrite Hp.
    destruct (read_payload payload) as [r'|e0|] eqn:Hread; [by eexists|done|by apply read_payload_total in Hread].
  - intros p' e' a w2 Hne Hg. unfold Get in Hg. apply bind_ctx in Hg as [(e0 & [=] & _)|(e0 & Hg)]. cbv zeta in Hg.
    destruct (_ || _); [done|]. rewrite bind_get in Hg. cbn [snd] in Hg. rewrite Hes, Heo in Hg.
    by rewrite bool_decide_eq_false_2 in Hg by done.
  - intros p2 r2 parent2 semantic2 reservation2 e2 w2 Hid2 Hs2.
    destruct (save_ok _ _ _ _ _ _ _ Hs2) as (_ & _ & _ & payload2 & e3 & Hm2 & _ & _ & _ & Hsame).
    rewrite Hid2 in Hsame. destruct (Hsame _ Hes) as [Hpp Hoo]. split; congruence.
Qed.

(** ** Leases *)

(** The log of the run has its terminal. *)
Definition terminated (run : RunKey) (s : Store) : Prop := hasTerminal (default [] (st_runEvents s !! run)) = true.

Lemma has_terminal_app rows event : is_terminal event = true → hasTerminal (rows ++ [event]) = true.
Proof. intros He. unfold hasTerminal. rewrite existsb_app. cbn. by rewrite He, orb_true_r. Qed.

Lemma edit_log_kept ok s s' run rows :
  edit ok s s' → st_runEvents s !! run = Some rows → hasTerminal rows = true → st_runEvents s' !! run = Some rows.
Proof.
  intros Hed Hr Ht.
  destruct Hed as [| | |orgID id claims e s' _ _ _ _ _ _ _ _ E5 _ _ _| | |key r taker lostTerminal now _ _ _ _ _|
    |run' event maxEvents _ _ _ _ Hno|]; try exact Hr.
  - by destruct (insert_submission_eq a thread threadKey now s) as (_ & _ & _ & _ & _ & -> & _).
  - by rewrite E5.
  - unfold reap_one. cbn. destruct (hasTerminal (default [] (st_runEvents s !! RunKeyOf r))) eqn:Hh; cbn; [done|].
    rewrite lookup_insert_ne; [done|]. intros E. rewrite E, Hr in Hh. change (hasTerminal rows = false) in Hh. congruence.
  - cbn. rewrite lookup_insert_ne; [done|]. intros ->. rewrite Hr in Hno. change (hasTerminal rows = false) in Hno. congruence.
Qed.

Lemma terminated_kept ok s s' run : edits ok s s' → terminated run s → terminated run s'.
Proof.
  induction 1 as [|s1 s2 s3 Hed _ IH]; [done|]. intros Ht. apply IH. unfold terminated in *.
  destruct (st_runEvents s1 !! run) as [rows|] eqn:Hr; [|done]. by rewrite (edit_log_kept _ _ _ _ _ Hed Hr Ht).
Qed.

(** The run has lost its holder for good. *)
Definition run_lost (run : RunKey) (s : Store) : Prop :=
  terminated run s ∧ ∃ k r, st_submissions s !! k = Some r ∧ RunKeyOf r = run ∧ sk_OrgID k = rk_OrgID run
    ∧ 1 ≤ rank (sr_State r).

Lemma run_lost_kept ok s s' run : edits ok s s' → run_lost run s → run_lost run s'.
Proof.
  intros He (Ht & k & r & Hr & Hk & Ho & Hrank). split; [by eapply terminated_kept|].
  destruct (edits_forward _ _ _ _ _ He Hr) as (r' & Hr' & [Hid Hst _ _ _ _]). exists k, r'.
  split; [done|]. unfold RunKeyOf in *. injection Hid as -> _ -> _ _ _ _ _. split_and!; [done|done|lia].
Qed.

Lemma reap_lost taker only lostTerminal now order w :
  consistent w.2 →
  let w' := reap_loop taker only lostTerminal now order w in
  ∀ l, l ∈ w'.1 → l ∈ w.1 ∨ run_lost (lr_Run l) w'.2.
Proof.
  unfold reap_loop. revert w. induction order as [|k order IH]; intros w Hc; cbn [foldl]; [by left|].
  destruct (st_submissions w.2 !! k) as [r|] eqn:Hk; [|by apply IH].
  destruct (lost_run only now k r w.2) eqn:Hl; [|by apply IH].
  pose proof (lost_edit any_admission only now k r taker lostTerminal w.2 Hk Hl) as Hed.
  destruct (reap_one taker lostTerminal now k r w.2) as [lost s'] eqn:Hone. cbn [snd] in Hed.
  pose proof (edit_consistent _ _ _ Hed Hc) as Hc'. cbn zeta. intros l Hin.
  destruct (IH (w.1 ++ [lost], s') Hc' l Hin) as [Hin'|Hlost]; [|by right]. cbn [fst] in Hin'.
  apply elem_of_app in Hin' as [?| ->%list_elem_of_singleton]; [by left|right].
  eapply run_lost_kept; [apply (reap_edits any_admission taker only lostTerminal now order (w.1 ++ [lost], s'))|].
  cbn [snd]. unfold reap_one in Hone. cbn zeta in Hone.
  destruct (cons_keyed _ Hc _ _ Hk) as [Ek _]. destruct (hasTerminal _) eqn:Ht; cbn [negb] in Hone; injection Hone as <- <-.
  - split; [done|]. exists k. eexists. cbn. rewrite lookup_insert_eq. split; [done|]. rewrite Ek. split_and!; [done|done|cbn; lia].
  - split.
    + unfold terminated. cbn. rewrite lookup_insert_eq. cbn. by apply has_terminal_app.
    + exists k. eexists. cbn. rewrite lookup_insert_eq. split; [done|]. rewrite Ek. split_and!; [done|done|cbn; lia].
Qed.

(** No admission in the meantime reserves the result id of the run. *)
Definition not_reserving (run : RunKey) (a : SubmissionAdmission) (_ : time) : Prop :=
  ¬ (sk_OrgID (sa_Key a) = rk_OrgID run ∧ sa_ReservedResultID a = rk_ReservedResultID run).

(** Nothing stands under the reservation of the run. *)
Definition run_gone (run : RunKey) (s : Store) : Prop :=
  st_reserved s !! (rk_OrgID run, rk_ReservedResultID run) = None.

Lemma edit_gone run s s' : edit (not_reserving run) s s' → run_gone run s → run_gone run s'.
Proof.
  intros Hed Hg. unfold run_gone in *.
  destruct Hed as [|a thread threadKey now order Hok _ _ _ _ _ _ _| |orgID id claims e s' _ _ _ _ _ E _ _ _ _ _ _
    | | |key r taker lostTerminal now _ _ _ _ _| | |]; try exact Hg.
  - destruct (insert_submission_eq a thread threadKey now s) as (_ & -> & _). rewrite lookup_insert_ne; [done|].
    intros [= E1 E2]. by apply Hok.
  - by rewrite E.
  - unfold reap_one. cbn. by destruct (negb _).
Qed.

(** A sweep leaves a lost run lost, or takes its record and its reservation away. *)
Lemma retire_lost run now s s' :
  retire now s s' → consistent s → IsErasedReservedResultID (rk_ReservedResultID run) = false →
  run_lost run s ∨ run_gone run s → run_lost run s' ∨ run_gone run s'.
Proof.
  intros Hret Hc Hera [(Ht & k & r & Hr & Hk & Ho & Hrank)|Hg].
  - assert (sk_OrgID k = rk_OrgID run ∧ sr_ReservedResultID r = rk_ReservedResultID run) as [_ Hres]
      by (split; [done|by rewrite <- Hk]).
    destruct Hret as [orgID id stored _ _ _|key r0 Hk0 _ _|key r0 Hk0 _|row t _ _ _]; [by left; split; [|exists k, r]| | |by left; split; [|exists k, r]].
    + destruct (decide (key = k)) as [->|Hne].
      * right. unfold run_gone, removeRecordLocked. rewrite Hr. cbn. rewrite Ho, Hres. by rewrite lookup_delete_eq.
      * left. unfold run_lost, terminated, removeRecordLocked. rewrite Hk0. cbn. rewrite lookup_delete_ne.
        { split; [done|]. exists k, r. by rewrite lookup_delete_ne. }
        intros E. apply Hne. destruct (cons_keyed _ Hc _ _ Hk0) as [Ek0 _]. rewrite <- Hk in E. unfold RunKeyOf in E.
        injection E as E1 E2. destruct (cons_keyed _ Hc _ _ Hr) as [Ek _]. rewrite Ek0, Ek in E1.
        eapply (reserved_once s key r0 k r); [done..|]. by rewrite E2, Hres.
    + destruct (decide (key = k)) as [->|Hne].
      * right. unfold run_gone, eraseRecordLocked. rewrite Hr, Hres, Hera. cbn. rewrite Hres.
        rewrite lookup_insert_ne by (intros [= _ E]; rewrite <- E, erased_is in Hera; done).
        by rewrite Ho, lookup_delete_eq.
      * unfold eraseRecordLocked. rewrite Hk0. destruct (IsErasedReservedResultID (sr_ReservedResultID r0)) eqn:Her0.
        { left; split; [done|by exists k, r]. }
        left. unfold run_lost, terminated. cbn. rewrite lookup_delete_ne.
        { split; [done|]. exists k, r. by rewrite lookup_insert_ne. }
        intros E. apply Hne. destruct (cons_keyed _ Hc _ _ Hk0) as [Ek0 _]. rewrite <- Hk in E. unfold RunKeyOf in E.
        injection E as E1 E2. destruct (cons_keyed _ Hc _ _ Hr) as [Ek _]. rewrite Ek0, Ek in E1.
        by eapply (reserved_once s key r0 k r).
  - right. unfold run_gone in *. destruct Hret as [|key r0 _ _ _|key r0 _ _|]; [done| | |done].
    + unfold removeRecordLocked. destruct (st_submissions s !! key); [|done]. cbn. by rewrite lookup_delete_None; right.
    + unfold eraseRecordLocked. destruct (st_submissions s !! key) as [r|]; [|done].
      destruct (IsErasedReservedResultID (sr_ReservedResultID r)); [done|]. cbn.
      rewrite lookup_insert_ne by (intros [= _ E]; rewrite <- E, erased_is in Hera; done).
      by rewrite lookup_delete_None; right.
Qed.

Lemma reap_names_lost order taker only lostTerminal now w lost w1 l :
  consistent w.2 → ReapLostRuns order taker only lostTerminal now w = (Ok lost, w1) → l ∈ lost →
  consistent w1.2 ∧ run_lost (lr_Run l) w1.2.
Proof.
  intros Hc Hreap Hl. unfold ReapLostRuns in Hreap.
  apply bind_ctx in Hreap as [(e & [=] & _)|(e & Hreap)]. destruct (isEmpty taker); [done|].
  rewrite bind_get in Hreap. cbn [snd] in Hreap.
  pose proof (reap_lost taker only lostTerminal now order ([], w.2) Hc) as Hlost. cbn zeta in Hlost.
  pose proof (reap_edits any_admission taker only lostTerminal now order ([], w.2)) as Hed. cbn [snd] in Hed.
  destruct (reap_loop _ _ _ _ _ _) as [lost' s']. unfold bind, put, ret in Hreap. injection Hreap as <- <-. cbn [fst snd] in *.
  split; [by eapply edits_consistent|]. by destruct (Hlost l Hl) as [?%not_elem_of_nil|?].
Qed.

(** A lost run is held by nobody, and its log takes nothing more. *)
Lemma lost_or_gone run s :
  consistent s → IsErasedReservedResultID (rk_ReservedResultID run) = false → run_lost run s ∨ run_gone run s →
  (∀ holder until e c w2, CheckRunLease run holder until (e, s) = (Ok c, w2) → rc_Renewed c = false ∧ Held holder c = false)
  ∧ ∀ event maxEvents t e w2, AppendRunEvent run event maxEvents t (e, s) ≠ (Ok true, w2).
Proof.
  intros Hcs Hera Hlost.
  assert (∀ k' r', recordOfRunLocked run s = Some (k', r') →
    terminated run s ∧ 1 ≤ rank (sr_State r')) as Hrec.
  { intros k' r' Hrec. apply run_record in Hrec as [Hres Hr'].
    destruct Hlost as [(Ht & k & r & Hr & Hrun & Ho & Hrank)|Hg]; [|unfold run_gone in Hg; congruence]. split; [done|].
    rewrite <- Hrun in Hera, Hres. cbn in Hera, Hres.
    pose proof (cons_index _ Hcs _ _ Hr Hera) as Hidx. destruct (cons_keyed _ Hcs _ _ Hr) as [Ek _].
    rewrite Ek in Hres. assert (k' = k) as -> by congruence. congruence. }
  split.
  - intros holder until e0 c w2 Hck. unfold CheckRunLease in Hck. apply bind_ctx in Hck as [(e1 & [=] & _)|(e1 & Hck)].
    rewrite bind_get in Hck. cbn [snd] in Hck.
    destruct (recordOfRunLocked run s) as [[k' r']|] eqn:Hr; [|unfold ret in Hck; by injection Hck as <- <-].
    destruct (Hrec _ _ eq_refl) as [_ Hrank].
    cbv zeta in Hck. assert (∀ x, Held holder (LeaseCheck true (Some (sr_State r')) (sr_LeaseHolder r') x (sr_CancelRequestedAt r')) = false) as Hh.
    { intros x. unfold Held. cbn. rewrite bool_decide_eq_false_2; [done|]. intros [= E]. rewrite E in Hrank. cbn in Hrank. lia. }
    rewrite Hh in Hck. cbn [andb] in Hck. unfold ret in Hck. injection Hck as <- <-. split; [done|apply Hh].
  - intros event maxEvents t e0 w2 Ha. unfold AppendRunEvent in Ha. apply bind_ctx in Ha as [(e1 & [=] & _)|(e1 & Ha)].
    destruct (re_Seq event <? 1); [done|]. destruct (match re_Terminal event with Some _ => _ | None => _ end) as [[]|e2|]; [|done..].
    unfold bind at 1, lift_res in Ha. rewrite bind_get in Ha. cbn [snd] in Ha.
    destruct (recordOfRunLocked run s) as [[k' r']|]; [|done]. destruct (Hrec _ _ eq_refl) as [Ht _].
    cbv zeta in Ha. unfold terminated in Ht. rewrite Ht in Ha.
    destruct (list_find _ _) as [[i row]|]; [by destruct (_ && _)|]. by destruct (is_terminal event).
Qed.

(** C11: a run that was taken over is lost to its holder: in any history, once [ReapLostRuns] names it, its reserved id
    being the caller's and not one that a sweep has erased, whatever the
    operations and the sweeps of the retention job that follow, as long as no later submission reserves the same result
    id, no lease check renews it or finds it held, nothing is appended to its log, and its log has its terminal unless
    a sweep has taken the run away. *)
Theorem lost_run_stays_lost b order taker only lostTerminal now w lost w1 l s :
  hist any_admission (λ _ _, True) (NewStore b) w.2 →
  ReapLostRuns order taker only lostTerminal now w = (Ok lost, w1) → l ∈ lost →
  IsErasedReservedResultID (rk_ReservedResultID (lr_Run l)) = false →
  hist (not_reserving (lr_Run l)) (λ _ _, True) w1.2 s →
  (terminated (lr_Run l) s ∨ run_gone (lr_Run l) s)
  ∧ (∀ holder until e c w2, CheckRunLease (lr_Run l) holder until (e, s) = (Ok c, w2) →
       rc_Renewed c = false ∧ Held holder c = false)
  ∧ ∀ event maxEvents t e w2, AppendRunEvent (lr_Run l) event maxEvents t (e, s) ≠ (Ok true, w2).
Proof.
  intros Hs0 Hreap Hl Hera Hs.
  destruct (hist_placed _ _ _ _ Hs0 (new_consistent b) (new_placed b)) as [Hc _].
  destruct (reap_names_lost _ _ _ _ _ _ _ _ _ Hc Hreap Hl) as [Hc1 Hrl1].
  destruct (hist_keeps (not_reserving (lr_Run l)) (λ _ _, True) (λ s, run_lost (lr_Run l) s ∨ run_gone (lr_Run l) s) w1.2 s)
    as [Hcs Hlost]; [|intros now0 e s1 s2 _ Hr Hc2; by eapply retire_lost|done|done|by left|].
  { intros s1 s2 Hed _ [Hrl|Hg]; [left; eapply run_lost_kept; [by apply rtc_once|done]|right; by eapply edit_gone]. }
  split; [destruct Hlost as [[? _]|?]; auto|]. by apply lost_or_gone.
Qed.
End histories.
