(* ===== verification/InvestigationClosing.v ===== *)
(** * InvestigationClosing: closed threads and the retention job

    A closed thread serves nothing and takes no turn, whatever comes after; a
    sweep of the retention job removes what is due and unfenced when it has room,
    and never touches what is live. *)

From Stdlib Require Import ZArith Lia Ascii.
From stdpp Require Import sorting pretty numbers gmap strings list_numbers list relations.
From S2P Require Import Prelude GoStrings GoText Sha256 Grants Submissions InvestigationStore InvestigationProofs InvestigationInvariant InvestigationRetention InvestigationSteps InvestigationTheorems.

Open Scope Z_scope.

(** ** A closed thread *)

(** The records of the row hold no question any more. *)
Definition silent (row : threadRowKey) (s : Store) : Prop :=
  ∀ k r, st_submissions s !! k = Some r → sr_ThreadID r ≠ "" → recordThreadRow k r = row → sr_Question r = "".

Definition frozen (row : threadRowKey) (t : ThreadRecord) (s : Store) : Prop :=
  st_threads s !! row = Some t ∧ silent row s.

(** A new turn goes to another row. *)
Lemma admit_elsewhere a thread threadKey now s row t :
  consistent s → admission_in_order a now = Ok () → isEmpty (sa_ThreadID a) = false →
  thread = findThreadLocked (sk_OrgID (sa_Key a)) (sk_Owner (sa_Key a)) (sa_ThreadID a) s →
  match thread with Some t => ClosedReason t now = "" ∧ threadKey = th_Key t
                  | None => threadKey = ThrKey (sk_OrgID (sa_Key a)) (sk_Owner (sa_Key a)) (sa_ThreadID a) end →
  st_threads s !! row = Some t → th_ClosedAt t ≠ None →
  rowKeyOf threadKey ≠ row ∧ recordThreadRow (sa_Key a) (admitted_record a (tk_Owner threadKey) now) ≠ row.
Proof.
  intros Hc Ha Hne Hthread Hopen Hrow Hclosed.
  destruct (admitted_row a thread threadKey now s Hc Ha Hne Hthread Hopen) as (Erow & _ & _ & Hfound).
  enough (rowKeyOf threadKey ≠ row) by (split; congruence). intros E. rewrite E, Hrow in Hfound. subst thread.
  rewrite <- Hfound in Hopen. destruct Hopen as [Hop _]. by apply closed_reason in Hop as [? _].
Qed.

Lemma edit_frozen ok row t s s' :
  edit ok s s' → consistent s → th_ClosedAt t ≠ None → frozen row t s → frozen row t s'.
Proof.
  intros Hed Hc Hclosed [Hrow Hsil].
  assert ((∀ k r', st_submissions s' !! k = Some r' → st_submissions s !! k = None → sr_ThreadID r' ≠ "" →
     recordThreadRow k r' ≠ row) → silent row s') as Hsilent.
  { intros Hnew k r' Hr' Ht Hk. destruct (st_submissions s !! k) as [r|] eqn:Hr; [|by destruct (Hnew _ _ Hr' Hr Ht)].
    destruct (edit_forward _ _ _ _ _ Hed Hr) as (r2 & Hr2 & Hf). rewrite Hr' in Hr2. injection Hr2 as <-.
    destruct (forward_row k _ _ Hf) as [E1 E2]. destruct (fw_question _ _ Hf) as [-> | ->]; [|done].
    apply (Hsil k); congruence. }
  assert (frozen row t s' ↔ st_threads s' !! row = Some t ∧ silent row s') as -> by done.
  destruct (edit_domain _ _ _ Hed) as [Hold|(a & thread & threadKey & now & order & _ & Hf & Ha & Ht & Ho & ->)].
  - split; [|apply Hsilent; intros k r' Hr' Hr; by destruct (Hold _ _ Hr') as [? ?]; congruence].
    destruct Hed as [|a thread threadKey now order _ Hf _ _ _ _ _ _| |orgID id claims e s' _ _ _ _ _ _ _ E _ _ _ _|threadID row0 row1 t1 now Hrow1 -> Hop| |
      key r taker lostTerminal now _ _ _ _ _| | |]; try exact Hrow.
    + destruct (insert_submission_eq a thread threadKey now s) as [Es _]. exfalso.
      destruct (Hold (sa_Key a) (admitted_record a (tk_Owner threadKey) now)) as [r Hr]; [by rewrite Es, lookup_insert_eq|].
      by rewrite (find_none _ _ _ Hf) in Hr.
    + by rewrite E.
    + cbn. destruct (cons_threads _ Hc _ _ Hrow1) as (Hk & _). rewrite Hk. rewrite lookup_insert_ne; [done|].
      intros ->. rewrite Hrow in Hrow1. by injection Hrow1 as ->.
    + unfold reap_one. cbn. by destruct (negb _).
  - destruct (insert_submission_eq a thread threadKey now s) as (Es & _ & _ & _ & _ & _ & _ & Et).
    destruct (isEmpty (sa_ThreadID a)) eqn:Hne.
    + split; [by rewrite Et|]. apply Hsilent. intros k r' Hr' Hr Hth. rewrite Es in Hr'.
      apply lookup_insert_Some in Hr' as [[<- <-]|[_ ?]]; [|congruence]. exfalso. apply Hth.
      unfold admitted_record. destruct (sa_Lease a); cbn; by apply isEmpty_true.
    + destruct (admit_elsewhere a thread threadKey now s row t Hc Ha Hne Ht Ho Hrow Hclosed) as [H1 H2].
      split; [rewrite Et; by rewrite lookup_insert_ne|]. apply Hsilent. intros k r' Hr' Hr _. rewrite Es in Hr'.
      apply lookup_insert_Some in Hr' as [[<- <-]|[_ ?]]; [done|congruence].
Qed.

Lemma frozen_closed row t s k r now :
  consistent s → frozen row t s → th_ClosedAt t ≠ None → st_submissions s !! k = Some r → sr_ThreadID r ≠ "" →
  recordThreadRow k r = row → threadClosedLocked r now s = ThreadClosedDeleted.
Proof.
  intros Hc [Hrow _] Hcl Hk Ht Hr. destruct (cons_keyed _ Hc _ _ Hk) as [Ek _].
  unfold threadClosedLocked. rewrite Ek, Hr, Hrow. destruct (isEmpty (sr_ThreadID r)) eqn:He; [by apply isEmpty_true in He|].
  by rewrite bool_decide_eq_true_2 by (by apply not_eq_None_Some).
Qed.

(** The turns of the row are among those of [base]. *)
Definition turns_within (row : threadRowKey) (base s : Store) : Prop := ∀ k r, st_submissions s !! k = Some r →
  sr_ThreadID r ≠ "" → recordThreadRow k r = row → is_Some (st_submissions base !! k).

Lemma edit_turns ok base row t s s' :
  edit ok s s' → consistent s → th_ClosedAt t ≠ None → frozen row t s → turns_within row base s → turns_within row base s'.
Proof.
  intros Hed Hc Hcl [Hrow _] Hin k r' Hr' Hth Hk. destruct (st_submissions s !! k) as [r|] eqn:Hr.
  { destruct (edit_forward _ _ _ _ _ Hed Hr) as (r2 & Hr2 & Hf). rewrite Hr' in Hr2. injection Hr2 as <-.
    destruct (forward_row k _ _ Hf) as [E1 E2]. apply (Hin k r Hr); congruence. }
  destruct (edit_domain _ _ _ Hed) as [Hold|(a & thread & threadKey & now & order & _ & Hfind & Ha & Ht & Ho & ->)].
  { destruct (Hold _ _ Hr'). congruence. }
  destruct (insert_submission_eq a thread threadKey now s) as (Es & _). rewrite Es in Hr'.
  apply lookup_insert_Some in Hr' as [[<- <-]|[_ ?]]; [|congruence]. exfalso. destruct (isEmpty (sa_ThreadID a)) eqn:Hne.
  - apply Hth. unfold admitted_record. destruct (sa_Lease a); cbn; by apply isEmpty_true.
  - by destruct (admit_elsewhere a thread threadKey now s row t Hc Ha Hne Ht Ho Hrow Hcl).
Qed.

(** A sweep before the row expires leaves it, and adds no turn to it. *)
Lemma retire_frozen now base row t s s' :
  retire now s s' → now < th_ExpiresAt t → frozen row t s ∧ turns_within row base s → frozen row t s' ∧ turns_within row base s'.
Proof.
  intros Hret Hexp [[Hrow Hsil] Hin].
  assert (∀ k r', st_submissions s' !! k = Some r' → sr_ThreadID r' ≠ "" → recordThreadRow k r' = row →
    sr_Question r' = "" ∧ is_Some (st_submissions base !! k)) as Hall.
  { intros k r' Hr' Hth Hk. destruct (retire_back _ _ _ _ _ Hret Hr') as (r & Hr & [->|[-> _]]).
    - split; [by apply (Hsil k)|by apply (Hin k r)].
    - split; [done|]. by apply (Hin k r). }
  split; [split|].
  - by eapply retire_open_thread.
  - intros k r' Hr' Hth Hk. by destruct (Hall k r' Hr' Hth Hk).
  - intros k r' Hr' Hth Hk. by destruct (Hall k r' Hr' Hth Hk).
Qed.

Section histories.
Context `{InvestigationLib}.

Lemma close_frozen key now w w1 :
  consistent w.2 → CloseThread key now w = (Ok true, w1) →
  consistent w1.2 ∧ ∃ row t, frozen row t w1.2 ∧ th_ClosedAt t = Some now
    ∧ SameSubmissionOwner (tk_Owner (th_Key t)) (tk_Owner key) = true ∧ tr_threadID row = tk_ThreadID key.
Proof.
  intros Hc Hclose. split.
  { destruct w as [e s]. eapply (edits_consistent any_admission); [|exact Hc].
    by eapply (CloseThread_writes any_admission). }
  unfold CloseThread in Hclose. apply bind_ctx in Hclose as [(e & [=] & _)|(e & Hclose)].
  destruct (validThreadKey key) as [[]|e0|]; [|done..]. unfold bind at 1, lift_res in Hclose.
  rewrite bind_get in Hclose. cbn [snd] in Hclose.
  destruct (findThreadLocked _ _ _ w.2) as [t|] eqn:Hf; [|done]. destruct (Closed t now); [done|].
  apply found_thread in Hf as (row & Hrow & _ & Hid & Hown). pose proof (cons_threads _ Hc _ _ Hrow) as (Hk & _).
  unfold bind, modify, ret in Hclose. injection Hclose as <-. cbn [fst snd].
  exists row, (th_set_ClosedAt (Some now) t). split; [|by cbn]. rewrite Hk. split.
  - cbn. by rewrite lookup_insert_eq.
  - intros k r. cbn. rewrite lookup_erase_questions. destruct (st_submissions w.2 !! k) as [r0|]; cbn; [|done].
    intros [= <-]. destruct (linked (tk_ThreadID key) row (k, r0)) eqn:Hl; [done|]. intros Ht Hr. exfalso.
    unfold linked in Hl. cbn in Hl. rewrite (bool_decide_eq_true_2 (recordThreadRow k r0 = row)), andb_true_r in Hl by done.
    apply bool_decide_eq_false in Hl. apply Hl. rewrite <- Hid, <- Hr. done.
Qed.

(** C12: a closed thread serves nothing more: in any history, after [CloseThread] has closed it, whatever the operations
    that follow and the sweeps of the retention job that run before the thread expires, its row is the same, no turn is
    added and none of its records holds a question, each of them reads as deleted, and a result that only its records
    name is not found. *)
Theorem closed_thread_serves_nothing b key now w w1 :
  hist any_admission (λ _ _, True) (NewStore b) w.2 → CloseThread key now w = (Ok true, w1) →
  ∃ row t, th_ClosedAt t = Some now ∧ SameSubmissionOwner (tk_Owner (th_Key t)) (tk_Owner key) = true
    ∧ tr_threadID row = tk_ThreadID key ∧ st_threads w1.2 !! row = Some t
    ∧ ∀ s, hist any_admission (λ at_ _, at_ < th_ExpiresAt t) w1.2 s →
      st_threads s !! row = Some t
      ∧ (∀ k r, st_submissions s !! k = Some r → sr_ThreadID r ≠ "" → recordThreadRow k r = row →
           sr_Question r = "" ∧ (∀ t', threadClosedLocked r t' s = ThreadClosedDeleted)
           ∧ is_Some (st_submissions w1.2 !! k))
      ∧ ∀ p id e a w2, let orgID := strings_TrimSpace (pr_OrgID p) in let l := naming orgID (strings_TrimSpace id) s in
          l ≠ [] → (∀ kv, kv ∈ l → sr_ThreadID kv.2 ≠ "" ∧ recordThreadRow kv.1 kv.2 = row) → Get p id (e, s) ≠ (Ok a, w2).
Proof.
  intros Hs0 Hclose. destruct (hist_placed _ _ _ _ Hs0 (new_consistent b) (new_placed b)) as [Hc _].
  destruct (close_frozen _ _ _ _ Hc Hclose) as (Hc1 & row & t & Hf1 & Hcl & Hown & Hid).
  assert (th_ClosedAt t ≠ None) as Hne by congruence. exists row, t. do 3 (split; [done|]). split; [apply Hf1|]. intros s Hs.
  destruct (hist_keeps any_admission (λ at_ _, at_ < th_ExpiresAt t)
    (λ s, frozen row t s ∧ turns_within row w1.2 s) w1.2 s) as (Hcs & Hfs & Hturns); [| |done|done| |].
  { intros s1 s2 Hed Hc' [Hf Ht]. split; [by eapply edit_frozen|by eapply edit_turns]. }
  { intros at_ e s1 s2 Hat Hret _. by eapply retire_frozen. }
  { split; [done|]. intros k r Hr _ _. by exists r. }
  pose proof Hfs as [Hrow Hsil]. split_and!; [done|..].
  - intros k r Hr Ht Hk. split_and!; [by eapply Hsil|intros t'; by eapply frozen_closed|by eapply Hturns].
  - intros p id e a w2. cbn zeta. intros Hnil Hall Hget. unfold Get in Hget.
    apply bind_ctx in Hget as [(e0 & [=] & _)|(e0 & Hget)]. cbv zeta in Hget. destruct (_ || _); [done|].
    rewrite bind_get in Hget. cbn [snd] in Hget. destruct (st_results s !! _) as [stored|]; [|done].
    destruct (negb _); [done|]. apply bind_now in Hget as (t' & e1 & Hget).
    replace (hiddenByClosedThreadLocked (strings_TrimSpace (pr_OrgID p)) (strings_TrimSpace id) t' s) with true in Hget; [done|].
    symmetry. unfold hiddenByClosedThreadLocked. rewrite bool_decide_eq_false_2 by done. cbn. apply forallb_forall.
    intros [k r] Hin%list_elem_of_In. destruct (Hall _ Hin) as [Ht Hk]. apply list_elem_of_filter in Hin as [_ Hin].
    apply elem_of_map_to_list in Hin. cbn. by rewrite (frozen_closed row t s k r t').
Qed.
End histories.

(** ** The retention job *)

(** C13: a sweep touches nothing that is live: a record that is not closed stays as it is, with the results it names and
    their feedback; a fenced record stays whatever its thread; a thread that has not expired keeps its row; and the
    usage counters stay. *)
Theorem sweep_keeps_live thread_order order now limit w r w1 :
  consistent w.2 → SweepRetention thread_order order now limit w = (r, w1) →
  (∀ k rec, unclosed now w.2 k rec →
     unclosed now w1.2 k rec
     ∧ ∀ id e, id = sr_ResultID rec ∨ id = sr_ReservedResultID rec → st_results w.2 !! id = Some e →
         en_orgID e = sk_OrgID k → st_results w1.2 !! id = Some e ∧ st_feedback w1.2 !! id = st_feedback w.2 !! id)
  ∧ (∀ k rec, st_submissions w.2 !! k = Some rec → RetentionFenced rec now = true → st_submissions w1.2 !! k = Some rec)
  ∧ (∀ row t, st_threads w.2 !! row = Some t → now < th_ExpiresAt t → st_threads w1.2 !! row = Some t)
  ∧ st_usage w1.2 = st_usage w.2.
Proof.
  intros Hc Hr. pose proof (sweep_retires _ _ _ _ _ _ _ Hr Hc) as Hret. split_and!.
  - intros k rec Hl. by eapply retires_live.
  - intros k rec. revert Hret. generalize w.2, w1.2. intros s s'. induction 1 as [|s1 s2 s3 Hs _ IH]; [done|].
    intros Hk Hf. apply IH; [by eapply retire_fenced|done].
  - intros row t. revert Hret. generalize w.2, w1.2. intros s s'. induction 1 as [|s1 s2 s3 Hs _ IH]; [done|].
    intros Hk Hf. apply IH; [by eapply retire_open_thread|done].
  - revert Hret. generalize w.2, w1.2. intros s s'. induction 1 as [|s1 s2 s3 Hs _ IH]; [done|].
    rewrite IH. by eapply retire_usage.
Qed.

(** *** What is due goes *)

Lemma erase_all_threads now keys s : st_threads (foldl (eraseRecordLocked now) s keys) = st_threads s.
Proof.
  revert s. induction keys as [|key keys IH]; intros s; cbn [foldl]; [done|]. rewrite IH.
  by destruct (erase_keeps now s key) as [[-> _] _].
Qed.

(** The row, if it has expired, is held back by a fenced record. *)
Definition row_done (now : time) (row : threadRowKey) (s : Store) : Prop :=
  ∀ t, st_threads s !! row = Some t → th_ExpiresAt t ≤ now →
  ∃ k r, st_submissions s !! k = Some r ∧ sr_ThreadID r ≠ "" ∧ recordThreadRow k r = row ∧ RetentionFenced r now = true.

(** The record, if it has no thread and is past its retention, is fenced. *)
Definition record_done (now : time) (k : SubmissionKey) (s : Store) : Prop :=
  ∀ r, st_submissions s !! k = Some r → sr_ThreadID r = "" → UnthreadedRecordExpiresAt (sr_AdmittedAt r) ≤ now →
  RetentionFenced r now = true.

Lemma retire_threads now s s' row t : retire now s s' → st_threads s' !! row = Some t → st_threads s !! row = Some t.
Proof.
  intros Hr Ht. destruct Hr as [| | |row' t' _ _ _]; [done| | |].
  - by destruct (remove_keeps s key) as [[<- _] _].
  - by destruct (erase_keeps now s key) as [[<- _] _].
  - cbn in Ht. by apply lookup_delete_Some in Ht as [_ ?].
Qed.

Lemma retire_row_done now s s' row : retire now s s' → row_done now row s → row_done now row s'.
Proof.
  intros Hr Hd t Ht He. destruct (Hd t (retire_threads _ _ _ _ _ Hr Ht) He) as (k & r & Hk & Hth & Hrow & Hf).
  exists k, r. split_and!; try done. by eapply retire_fenced.
Qed.

Lemma retire_record_done now s s' k : retire now s s' → record_done now k s → record_done now k s'.
Proof.
  intros Hr Hd r' Hr' Ht He. destruct Hr as [|key r0 Hk0 _|key r0 Hk0 Hret|]; [by apply (Hd r')| | |by apply (Hd r')].
  - destruct (remove_keeps s key) as [_ Es]. rewrite Es in Hr'. apply lookup_delete_Some in Hr' as [_ Hr']. by apply (Hd r').
  - destruct (erase_keeps now s key) as [_ Hback]. destruct (Hback _ _ Hr') as (r & Hr & [->|[-> ->]]); [by apply (Hd r)|].
    rewrite Hr in Hk0. injection Hk0 as <-. destruct Hret as [Hret _]. by rewrite (Hd r Hr Ht He) in Hret.
Qed.

Lemma retires_kept now (P : Store → Prop) s s' :
  (∀ s s', retire now s s' → P s → P s') → retires now s s' → P s → P s'.
Proof. intros Hstep. induction 1 as [|s1 s2 s3 Hs _ IH]; [done|]. intros Hp. by eapply IH, Hstep. Qed.

Lemma sweep_row_done now w row : consistent w.1 → row_done now row (sweepRetentionThreadLocked now w row).1.
Proof.
  destruct w as [s sweep]. cbn [fst]. intros Hc. unfold sweepRetentionThreadLocked.
  destruct (st_threads s !! row) as [t|] eqn:Hrow; [|intros t Ht; cbn in Ht; congruence]. cbv zeta.
  destruct (negb (time_Before now (th_ExpiresAt t))) eqn:Hexp; cbn [negb andb].
  - destruct (existsb (fenced_key now s) (threadRecordsLocked row s)) eqn:Hf.
    + intros t' _ _. cbn [fst]. apply existsb_exists in Hf as (k & Hk%list_elem_of_In & Hf). unfold fenced_key in Hf.
      apply thread_records in Hk as (r & Hr & Ht & Hkr). rewrite Hr in Hf. by exists k, r.
    + destruct (removeRetainedResultsLocked _ _ _ _) as [s1 removed]. cbn [fst]. intros t' Ht'. cbn in Ht'.
      by rewrite lookup_delete_eq in Ht'.
  - apply negb_false_iff, bool_decide_eq_true in Hexp.
    assert (∀ t', st_threads (if bool_decide (th_ClosedAt t = None) then (s, sweep)
       else if existsb (fenced_key now s) (threadRecordsLocked row s) then (s, add_fenced sweep)
       else let '(s1, removed) := removeRetainedResultsLocked (tr_orgID row) (threadRecordsLocked row s) now s in
            (foldl (eraseRecordLocked now) s1 (threadRecordsLocked row s), add_erased_thread (add_results removed sweep))).1 !! row
       = Some t' → st_threads s !! row = Some t') as Hkept.
    { intros t' Ht'. destruct (bool_decide _); [done|]. destruct (existsb _ _); [done|].
      unfold removeRetainedResultsLocked in Ht'.
      destruct (retained_retires (tr_orgID row) now (retained_ids (threadRecordsLocked row s) s) (s, 0)) as (_ & [Et _] & _).
      destruct (foldl (remove_retained _ _) _ _) as [s1 removed]. cbn [fst] in *. rewrite <- Et.
      by rewrite <- (erase_all_threads now (threadRecordsLocked row s) s1). }
    intros t' Ht' He. specialize (Hkept _ Ht'). rewrite Hrow in Hkept. injection Hkept as ->. lia.
Qed.

Lemma sweep_rows_done now rows w row :
  consistent w.1 → row ∈ rows → row_done now row (foldl (sweepRetentionThreadLocked now) w rows).1.
Proof.
  revert w. induction rows as [|row' rows IH]; intros w Hc Hin; [by apply not_elem_of_nil in Hin|]. cbn [foldl].
  pose proof (sweep_thread_retires now w row' Hc) as Hr. pose proof (retires_consistent _ _ _ Hr Hc) as Hc'.
  apply elem_of_cons in Hin as [->|Hin]; [|by apply IH].
  eapply (retires_kept now (row_done now row')); [by intros; eapply retire_row_done|by apply sweep_threads_retires|].
  by apply sweep_row_done.
Qed.

Lemma sweep_record_done now w key : record_done now key (sweepRetentionRecordLocked now w key).1.
Proof.
  destruct w as [s sweep]. unfold sweepRetentionRecordLocked.
  destruct (st_submissions s !! key) as [r|] eqn:Hk; [|intros r Hr; cbn in Hr; congruence].
  destruct (isEmpty (sr_ThreadID r)) eqn:Ht; cbn [negb].
  - destruct (RetentionFenced r now) eqn:Hf; [intros r' Hr' _ _; cbn in Hr'; congruence|].
    destruct (removeRetainedResultsLocked _ _ _ _) as [s1 removed]. intros r' Hr'. cbn [fst] in Hr'.
    destruct (remove_keeps s1 key) as [_ Es]. by rewrite Es, lookup_delete_eq in Hr'.
  - intros r' Hr' Hth. cbn in Hr'. rewrite Hk in Hr'. injection Hr' as ->. by rewrite Hth in Ht.
Qed.

Lemma sweep_records_done now keys w key :
  st_unthreadedRetention w.1 = true → (∀ k, k ∈ keys → past_retention now w.1 k) → key ∈ keys →
  record_done now key (foldl (sweepRetentionRecordLocked now) w keys).1.
Proof.
  revert w. induction keys as [|key' keys IH]; intros w Hu Hpast Hin; [by apply not_elem_of_nil in Hin|]. cbn [foldl].
  destruct (sweep_record_retires now w key' Hu (Hpast key' ltac:(by left))) as (Hr & [Et Eu] & Es).
  assert (∀ k, k ∈ keys → past_retention now (sweepRetentionRecordLocked now w key').1 k) as Hpast'.
  { intros k Hk r Hr'. apply (Hpast k); [by right|]. destruct Es as [Es|Es]; rewrite Es in Hr'; [done|].
    by apply lookup_delete_Some in Hr' as [_ ?]. }
  rewrite <- Eu in Hu. apply elem_of_cons in Hin as [->|Hin]; [|by apply IH].
  eapply (retires_kept now (record_done now key')); [by intros; eapply retire_record_done|by apply sweep_records_retires|].
  apply sweep_record_done.
Qed.

Lemma due_thread_in thread_order now s row t :
  row ∈ thread_order → st_threads s !! row = Some t → th_ExpiresAt t ≤ now → row ∈ dueRetentionThreadsLocked thread_order now s.
Proof.
  intros Hin Hrow He. unfold dueRetentionThreadsLocked. rewrite merge_sort_Permutation. apply list_elem_of_filter.
  split; [|done]. unfold due_thread. rewrite Hrow. unfold time_Before. by rewrite bool_decide_eq_false_2 by lia.
Qed.

Lemma due_record_in order now s k r :
  k ∈ order → st_submissions s !! k = Some r → sr_ThreadID r = "" → UnthreadedRecordExpiresAt (sr_AdmittedAt r) ≤ now →
  k ∈ dueRetentionRecordsLocked order now s.
Proof.
  intros Hin Hk Ht He. unfold dueRetentionRecordsLocked. rewrite merge_sort_Permutation. apply list_elem_of_filter.
  split; [|done]. unfold due_record. rewrite Hk, Ht. cbn. unfold time_Before. by rewrite bool_decide_eq_false_2 by lia.
Qed.

Lemma due_length thread_order order now s :
  (length (dueRetentionThreadsLocked thread_order now s) ≤ length thread_order
   ∧ length (dueRetentionRecordsLocked order now s) ≤ length order)%nat.
Proof.
  unfold dueRetentionThreadsLocked, dueRetentionRecordsLocked. rewrite !merge_sort_Permutation.
  split; apply sublist_length, sublist_filter.
Qed.

(** The records after the thread sweep are those of before. *)
Lemma retires_records now s s' k : retires now s s' → is_Some (st_submissions s' !! k) → is_Some (st_submissions s !! k).
Proof.
  induction 1 as [|s1 s2 s3 Hs _ IH]; [done|]. intros Hk. apply IH in Hk as [r Hr]. destruct Hs as [|key r0 _ _|key r0 _ _|]; [eauto| | |eauto].
  - destruct (remove_keeps s1 key) as [_ Es]. rewrite Es in Hr. apply lookup_delete_Some in Hr as [_ ?]. eauto.
  - destruct (erase_keeps now s1 key) as [_ Hback]. destruct (Hback _ _ Hr) as (r1 & ? & _). eauto.
Qed.

Lemma sweep_leaves_done thread_order order now limit w r w1 :
  consistent w.2 → SweepRetention thread_order order now limit w = (Ok r, w1) →
  (∀ row, is_Some (st_threads w.2 !! row) → row ∈ thread_order) →
  (∀ k, is_Some (st_submissions w.2 !! k) → k ∈ order) →
  Z.of_nat (length thread_order + length order) < limit →
  (∀ row, row_done now row w1.2) ∧ (∀ k, record_done now k w1.2).
Proof.
  intros Hc Hr Hrows Hkeys Hroom. pose proof (sweep_retires _ _ _ _ _ _ _ Hr Hc) as Hret.
  unfold SweepRetention in Hr. apply bind_ctx in Hr as [(e & [=] & _)|(e & Hr)]. rewrite bind_get in Hr. cbn [snd] in Hr.
  destruct (st_unthreadedRetention w.2) eqn:Hu; [|done]. cbn [negb] in Hr. cbv zeta in Hr.
  assert (limit <? 1 = false) as Hl by lia. rewrite Hl in Hr.
  destruct (due_length thread_order order now w.2) as [Hlt _].
  rewrite (take_ge (dueRetentionThreadsLocked thread_order now w.2)) in Hr by lia.
  set (rows := dueRetentionThreadsLocked thread_order now w.2) in *.
  pose proof (sweep_threads_retires now rows (w.2, RSweep 0 0 0 0 0) Hc) as Hth.
  pose proof (λ row, sweep_rows_done now rows (w.2, RSweep 0 0 0 0 0) row Hc) as Hrd.
  set (w2 := foldl (sweepRetentionThreadLocked now) (w.2, RSweep 0 0 0 0 0) rows) in *. cbn [fst] in Hth.
  destruct (due_length thread_order order now w2.1) as [_ Hlr].
  assert (0 <? limit - Z.of_nat (length rows) = true) as Hpos by lia. rewrite Hpos in Hr.
  rewrite (take_ge (dueRetentionRecordsLocked order now w2.1)) in Hr by lia.
  assert (st_unthreadedRetention w2.1 = true) as Hu2 by (by rewrite (retires_switch _ _ _ Hth)).
  pose proof (sweep_records_retires now (dueRetentionRecordsLocked order now w2.1) w2 Hu2 (λ k, due_past now w2.1 order k)) as Hrec.
  unfold bind, put, ret in Hr. injection Hr as _ <-. cbn [snd fst] in *. split.
  - intros row t Ht He.
    assert (st_threads w.2 !! row = Some t) as Ht0.
    { revert Ht. generalize Hret. generalize w.2. intros s Hs. revert Hs. generalize (foldl (sweepRetentionRecordLocked now) w2 (dueRetentionRecordsLocked order now w2.1)).1.
      intros s'. induction 1 as [|s1 s2 s3 Hs _ IH]; [done|]. intros Ht. eapply retire_threads; [done|by apply IH]. }
    assert (row ∈ rows) as Hin by (by eapply due_thread_in; [apply Hrows|..]).
    eapply (retires_kept now (row_done now row)); [by intros; eapply retire_row_done|exact Hrec|by apply Hrd|done|done].
  - intros k r' Hr' Hth' He.
    destruct (retires_records _ _ _ k Hrec) as [r2 Hr2]; [by eexists|].
    destruct (retires_records _ _ _ k Hth) as [r0 Hr0]; [by eexists|].
    destruct (decide (k ∈ dueRetentionRecordsLocked order now w2.1)) as [Hin|Hout].
    { eapply sweep_records_done; try done. intros k0. apply due_past. }
    assert (record_done now k w2.1) as Hd.
    { intros r3 Hr3 Ht3 He3. destruct Hout. eapply due_record_in; try done. apply Hkeys. by eexists. }
    eapply (retires_kept now (record_done now k)); [by intros; eapply retire_record_done|exact Hrec|exact Hd|done..].
Qed.

(** C14: a sweep with room for all that could be due runs to its end and leaves nothing due behind: afterwards every
    expired thread is held back by a fenced record of its own, and every record without a thread that is past its
    retention is fenced. *)
Theorem sweep_clears_due thread_order order now limit clock s :
  consistent s → st_unthreadedRetention s = true →
  (∀ row, is_Some (st_threads s !! row) → row ∈ thread_order) → (∀ k, is_Some (st_submissions s !! k) → k ∈ order) →
  Z.of_nat (length thread_order + length order) < limit →
  ∃ r w1, SweepRetention thread_order order now limit (Env [] clock, s) = (Ok r, w1)
    ∧ (∀ row, row_done now row w1.2) ∧ (∀ k, record_done now k w1.2).
Proof.
  intros Hc Hu Hrows Hkeys Hroom.
  assert (∃ r w1, SweepRetention thread_order order now limit (Env [] clock, s) = (Ok r, w1)) as (r & w1 & Hr).
  { unfold SweepRetention. unfold bind at 1, ctx_check at 1. cbn [fst env_ctx]. rewrite bind_get. cbn [snd].
    rewrite Hu. cbn [negb]. cbv zeta. unfold bind, put, ret. eauto. }
  exists r, w1. split; [done|].
  exact (sweep_leaves_done thread_order order now limit (Env [] clock, s) r w1 Hc Hr Hrows Hkeys Hroom).
Qed.
