(* ===== verification/ThreadTheorems.v ===== *)
(** * ThreadTheorems: a thread is what its turns make it

    internal/contextfabric/thread.go: the turns of a thread may commit in any
    order, and the thread's row comes out the same. *)

From Stdlib Require Import ZArith Lia Ascii.
From stdpp Require Import sorting pretty numbers gmap strings list_numbers list.
From S2P Require Import Prelude GoStrings GoText Sha256 CredTypes Grants Submissions.

Open Scope Z_scope.

(** ** The order of turns *)

Lemma string_Less_irrefl x : string_Less x x = false.
Proof. unfold string_Less. by rewrite bool_decide_eq_true_2. Qed.

Lemma string_Less_asym x y : string_Less x y = true → string_Less y x = false.
Proof.
  unfold string_Less. intros Hn. apply negb_true_iff, bool_decide_eq_false in Hn. apply negb_false_iff, bool_decide_eq_true.
  destruct (total String.le x y); done.
Qed.

Lemma string_Less_total x y : x ≠ y → string_Less x y = false → string_Less y x = true.
Proof.
  unfold string_Less. intros Hne Hn. apply negb_false_iff, bool_decide_eq_true in Hn.
  apply negb_true_iff, bool_decide_eq_false. intros Hxy. apply Hne. by apply (anti_symm String.le).
Qed.

Lemma string_Less_trans x y z : string_Less x y = true → string_Less y z = true → string_Less x z = true.
Proof.
  unfold string_Less. rewrite !negb_true_iff, !bool_decide_eq_false. intros Hxy Hyz Hzx.
  destruct (total String.le x y) as [Hle|Hle]; [|done]. apply Hyz. by etrans.
Qed.

Lemma turn_Before_irrefl a : turn_Before a a = false.
Proof. unfold turn_Before. rewrite bool_decide_eq_true_2 by done. cbn. apply string_Less_irrefl. Qed.

Lemma turn_Before_total a b : a ≠ b → turn_Before a b = false → turn_Before b a = true.
Proof.
  unfold turn_Before, time_Before. destruct a as [ta ia], b as [tb ib]. cbn. intros Hne.
  destruct (decide (ta = tb)) as [->|Ht].
  - rewrite bool_decide_eq_true_2 by done. cbn. apply string_Less_total. congruence.
  - rewrite (bool_decide_eq_false_2 (ta = tb)), (bool_decide_eq_false_2 (tb = ta)) by congruence. cbn. intros Hb%bool_decide_eq_false. apply bool_decide_eq_true. lia.
Qed.

Lemma turn_Before_trans a b c : turn_Before a b = true → turn_Before b c = true → turn_Before a c = true.
Proof.
  unfold turn_Before, time_Before. destruct a as [ta ia], b as [tb ib], c as [tc ic]. cbn.
  repeat case_bool_decide; subst; cbn; try done; try lia; try (intros; by eapply string_Less_trans).
Qed.

Lemma turn_Before_asym a b : turn_Before a b = true → turn_Before b a = false.
Proof.
  intros Hab. apply not_true_is_false. intros Hba. pose proof (turn_Before_trans _ _ _ Hab Hba) as Haa.
  by rewrite turn_Before_irrefl in Haa.
Qed.

(** ** Turns commute *)

(** The retention choice as a turn leaves it. *)
Definition choose (turn : ThreadTurnCursor) (retention : option ContextFabricThreadRetentionDays)
    (c : ContextFabricThreadRetentionDays * option ThreadTurnCursor) : ContextFabricThreadRetentionDays * option ThreadTurnCursor :=
  match retention with
  | Some r => if match c.2 with None => true | Some by_ => negb (turn_Before turn by_) end then (r, Some turn) else c
  | None => c
  end.

Lemma choose_choose a b ra rb c : a ≠ b → choose b rb (choose a ra c) = choose a ra (choose b rb c).
Proof.
  intros Hne. destruct ra as [ra|], rb as [rb|]; try done. unfold choose. destruct c as [d [by_|]]; cbn.
  - destruct (turn_Before a by_) eqn:Ha, (turn_Before b by_) eqn:Hb; cbn; rewrite ?Ha, ?Hb; cbn; try done.
    + destruct (turn_Before a b) eqn:Hab; cbn; [done|]. apply turn_Before_total in Hab; [|done].
      by rewrite (turn_Before_trans _ _ _ Hab Ha) in Hb.
    + destruct (turn_Before b a) eqn:Hba; cbn; [done|]. apply turn_Before_total in Hba; [|done].
      by rewrite (turn_Before_trans _ _ _ Hba Hb) in Ha.
    + destruct (turn_Before b a) eqn:Hba; cbn; [by rewrite (turn_Before_asym _ _ Hba)|].
      by rewrite (turn_Before_total _ _ (not_eq_sym Hne) Hba).
  - destruct (turn_Before b a) eqn:Hba; cbn; [by rewrite (turn_Before_asym _ _ Hba)|].
    by rewrite (turn_Before_total _ _ (not_eq_sym Hne) Hba).
Qed.

Definition base (thread : option ThreadRecord) (key : ThreadKey) (at_ : time) : ThreadRecord :=
  match thread with
  | None => Thread key at_ at_ 0 ContextFabricThreadDefaultRetention 0 None None ""
  | Some t => t
  end.

(** A turn, written with the earlier and the later of two times. *)
Lemma Advance_eq thread key turn retention :
  let t := base thread key (tc_AdmittedAt turn) in
  let c := choose turn retention (th_RetentionDays t, th_RetentionSetBy t) in
  let last_ := Z.max (th_LastTurnAt t) (tc_AdmittedAt turn) in
  AdvanceThread thread key turn retention
  = Thread (th_Key t) (Z.min (th_CreatedAt t) (tc_AdmittedAt turn)) last_ (th_TurnCount t + 1) c.1
      (ContextFabricThreadExpiresAt last_ c.1) (th_ClosedAt t) c.2 (th_FirstQuestion t).
Proof.
  cbn zeta. unfold AdvanceThread, choose, time_Before, time_After. destruct thread as [t|]; cbn [base th_RetentionSetBy
    th_RetentionDays th_Key th_CreatedAt th_LastTurnAt th_TurnCount th_ClosedAt th_FirstQuestion snd].
  - assert ((if bool_decide (tc_AdmittedAt turn < th_CreatedAt t) then tc_AdmittedAt turn else th_CreatedAt t)
      = Z.min (th_CreatedAt t) (tc_AdmittedAt turn)) as -> by (case_bool_decide; lia).
    assert ((if bool_decide (th_LastTurnAt t < tc_AdmittedAt turn) then tc_AdmittedAt turn else th_LastTurnAt t)
      = Z.max (th_LastTurnAt t) (tc_AdmittedAt turn)) as -> by (case_bool_decide; lia).
    destruct retention as [d|]; [|done]. by destruct (match th_RetentionSetBy t with None => true | Some _ => _ end).
  - rewrite Z.min_id, Z.max_id. by destruct retention.
Qed.

Definition advance_all (key : ThreadKey) (thread : option ThreadRecord)
    (turns : list (ThreadTurnCursor * option ContextFabricThreadRetentionDays)) : option ThreadRecord :=
  foldl (λ t x, Some (AdvanceThread t key x.1 x.2)) thread turns.

Lemma Advance_comm thread key a ra b rb :
  a ≠ b →
  AdvanceThread (Some (AdvanceThread thread key a ra)) key b rb
  = AdvanceThread (Some (AdvanceThread thread key b rb)) key a ra.
Proof.
  intros Hne. rewrite !Advance_eq. cbn [base th_RetentionSetBy th_RetentionDays th_Key th_CreatedAt th_LastTurnAt
    th_TurnCount th_ClosedAt th_FirstQuestion].
  rewrite <- !surjective_pairing. set (t := base thread key).
  assert (∀ x y, (th_Key (t x), th_TurnCount (t x), th_RetentionDays (t x), th_RetentionSetBy (t x), th_ClosedAt (t x), th_FirstQuestion (t x))
    = (th_Key (t y), th_TurnCount (t y), th_RetentionDays (t y), th_RetentionSetBy (t y), th_ClosedAt (t y), th_FirstQuestion (t y))) as Hsame
    by (intros; unfold t; by destruct thread).
  specialize (Hsame (tc_AdmittedAt a) (tc_AdmittedAt b)). injection Hsame as -> -> -> -> -> ->.
  rewrite (choose_choose a b ra rb _ Hne).
  assert (Z.min (Z.min (th_CreatedAt (t (tc_AdmittedAt a))) (tc_AdmittedAt a)) (tc_AdmittedAt b)
    = Z.min (Z.min (th_CreatedAt (t (tc_AdmittedAt b))) (tc_AdmittedAt b)) (tc_AdmittedAt a)) as ->
    by (unfold t; destruct thread; cbn; lia).
  assert (Z.max (Z.max (th_LastTurnAt (t (tc_AdmittedAt a))) (tc_AdmittedAt a)) (tc_AdmittedAt b)
    = Z.max (Z.max (th_LastTurnAt (t (tc_AdmittedAt b))) (tc_AdmittedAt b)) (tc_AdmittedAt a)) as ->
    by (unfold t; destruct thread; cbn; lia).
  done.
Qed.

(** What a thread says of the turns that made it. *)
Definition summary (t : ThreadRecord) (l : list (ThreadTurnCursor * option ContextFabricThreadRetentionDays)) : Prop :=
  th_TurnCount t = Z.of_nat (length l)
  ∧ th_ExpiresAt t = ContextFabricThreadExpiresAt (th_LastTurnAt t) (th_RetentionDays t)
  ∧ (∀ x, x ∈ l → th_CreatedAt t ≤ tc_AdmittedAt x.1 ≤ th_LastTurnAt t)
  ∧ (∀ x, x ∈ l → x.2 ≠ None → ∃ by_, th_RetentionSetBy t = Some by_ ∧ turn_Before by_ x.1 = false)
  ∧ match th_RetentionSetBy t with
    | Some by_ => ∃ r, (by_, Some r) ∈ l ∧ th_RetentionDays t = r
    | None => th_RetentionDays t = ContextFabricThreadDefaultRetention
    end.

Lemma advance_snoc key thread l x :
  advance_all key thread (l ++ [x]) = Some (AdvanceThread (advance_all key thread l) key x.1 x.2).
Proof. unfold advance_all. by rewrite foldl_app. Qed.

Lemma choose_cases turn retention c :
  choose turn retention c = c ∧ (retention = None ∨ ∃ by_, c.2 = Some by_ ∧ turn_Before turn by_ = true)
  ∨ ∃ r, retention = Some r ∧ choose turn retention c = (r, Some turn)
      ∧ ∀ by_, c.2 = Some by_ → turn_Before turn by_ = false.
Proof.
  unfold choose. destruct retention as [r|]; [|by left; auto]. destruct c as [d [by_|]]; cbn; [|right; naive_solver].
  destruct (turn_Before turn by_) eqn:Hb; cbn; [left; naive_solver|right; naive_solver].
Qed.

Lemma choice_later key thread x t :
  AdvanceThread (Some thread) key x.1 x.2 = t →
  (x.2 ≠ None → ∃ by_, th_RetentionSetBy t = Some by_ ∧ turn_Before by_ x.1 = false)
  ∧ ∀ y by_, th_RetentionSetBy thread = Some by_ → turn_Before by_ y = false →
      ∃ by', th_RetentionSetBy t = Some by' ∧ turn_Before by' y = false.
Proof.
  intros <-. rewrite Advance_eq. cbn [base th_RetentionSetBy th_RetentionDays].
  destruct (choose_cases x.1 x.2 (th_RetentionDays thread, th_RetentionSetBy thread)) as [[-> Hc]|(r & Hr & -> & Hc)]; cbn in *.
  - split; [|eauto]. intros Hn. destruct Hc as [?|(by_ & Hs & Hb)]; [done|]. exists by_. split; [done|by apply turn_Before_asym].
  - split; [exists x.1; split; [done|apply turn_Before_irrefl]|]. intros y by_ Hby Hy. exists x.1. split; [done|].
    specialize (Hc _ Hby). destruct (turn_Before x.1 y) eqn:Hxy; [|done].
    destruct (decide (by_ = x.1)) as [->|Hne]; [congruence|]. pose proof (turn_Before_total _ _ (not_eq_sym Hne) Hc) as Hbx.
    by rewrite (turn_Before_trans _ _ _ Hbx Hxy) in Hy.
Qed.

Lemma advance_summary key l t : advance_all key None l = Some t → summary t l.
Proof.
  revert t. induction l as [|x l IH] using rev_ind; intros t; [done|]. rewrite advance_snoc. intros [= Ht].
  destruct (advance_all key None l) as [t0|] eqn:H0.
  - destruct (IH t0 eq_refl) as (Hn & He & Hb & Hc & Hd). destruct (choice_later key t0 x t Ht) as [C1 C2].
    pose proof Ht as Ht'. rewrite Advance_eq in Ht'. cbn [base] in Ht'. cbn zeta in Ht'. subst t. rename Ht' into Ht.
    rewrite <- Ht in C1, C2. unfold summary. rewrite <- Ht. cbn. split_and!.
    + rewrite length_app. cbn. lia.
    + done.
    + intros y [Hy| ->%list_elem_of_singleton]%elem_of_app; [specialize (Hb y Hy)|]; lia.
    + intros y [Hy| ->%list_elem_of_singleton]%elem_of_app Hs; [|by apply C1].
      destruct (Hc y Hy Hs) as (by_ & Hby & Hbb). by apply (C2 y.1 by_).
    + destruct (choose_cases x.1 x.2 (th_RetentionDays t0, th_RetentionSetBy t0)) as [[-> _]|(r & Hr & -> & _)]; cbn.
      * destruct (th_RetentionSetBy t0); [|done]. destruct Hd as (r & Hin & ?). exists r. split; [|done].
        apply elem_of_app. by left.
      * exists r. split; [|done]. apply elem_of_app. right. apply list_elem_of_singleton. rewrite <- Hr. by destruct x.
  - assert (l = []) as -> by (destruct l using rev_ind; [done|]; by rewrite advance_snoc in H0).
    rewrite Advance_eq in Ht. cbn in Ht. subst t. unfold summary. cbn. split_and!; [done|done| | |].
    + intros y ->%list_elem_of_singleton. lia.
    + intros y ->%list_elem_of_singleton Hs. destruct x.2; [|done]. cbn. exists x.1. split; [done|apply turn_Before_irrefl].
    + destruct x as [c [r|]]; cbn; [|done]. exists r. split; [|done]. by apply list_elem_of_singleton.
Qed.

(** C15: the turns of a thread may commit in any order: the thread they make is the same.  It counts them, spans
    their times and expires its window after the last one, and its retention is the one set by the last turn that
    sets one. *)
Theorem turns_in_any_order key l l' :
  l ≡ₚ l' → NoDup (fst <$> l) →
  (∀ thread, advance_all key thread l = advance_all key thread l') ∧ ∀ t, advance_all key None l = Some t → summary t l.
Proof.
  intros Hp Hn. split; [|intros t; apply advance_summary]. revert Hn.
  induction Hp as [|x l l' _ IH|x y l|l1 l2 l3 H12 IH1 _ IH2]; intros Hn thread.
  - done.
  - cbn. apply IH. by apply NoDup_cons in Hn as [_ ?].
  - cbn. cbn in Hn. apply NoDup_cons in Hn as [Hyx _]. rewrite Advance_comm; [done|]. intros E. apply Hyx. rewrite E. by left.
  - rewrite IH1 by done. apply IH2. by rewrite <- H12.
Qed.
