(* ===== verification/InvestigationRuns.v ===== *)
(** * A concrete history of the investigation store

    A submission with a thread and a leased run is admitted and asked again, its
    result saved and read; a second one is admitted and its lost run taken over;
    the thread is closed, and a sweep a day later removes what is due.  The
    theorems are applied at these states. *)

From Stdlib Require Import ZArith Lia Ascii.
From stdpp Require Import sorting pretty numbers gmap strings list_numbers list relations.
From S2P Require Import Prelude GoStrings GoText Sha256 Grants Submissions InvestigationStore InvestigationProofs InvestigationInvariant InvestigationRetention InvestigationSteps InvestigationTheorems InvestigationHistories InvestigationClosing ThreadTheorems.

Open Scope Z_scope.

(** ** A plain encoding: the id, a space, the content *)

Fixpoint cut_space (s : string) : option (string * string) :=
  match s with
  | EmptyString => None
  | String c s' =>
    if bool_decide (c = " "%char) then Some ("", s')
    else (λ x, (String c x.1, x.2)) <$> cut_space s'
  end.

#[local] Instance plain : InvestigationLib := {|
  Content := string;
  SemanticState := string;
  SemanticStateWrite := option string;
  ValidateResult r := negb (isEmpty (ir_ResultID r));
  ValidateStoredResult _ := true;
  json_Marshal r := Some (ir_ResultID r +:+ " " +:+ ir_Content r);
  json_Unmarshal payload := (λ x, Result x.1 0 "model" "v1" [] x.2) <$> cut_space payload;
  json_degraded_reasons _ := Some "";
  evidence_ref_closure _ := [];
  semantic_State w := w;
  EncodedColumn w := Some w;
  DecodeSemanticState c := match c with Some x => (Some x, SemanticStateReadAvailable) | None => (None, SemanticStateReadAbsent) end;
  SemanticStatesEqual a b := bool_decide (a = b);
|}.

(** ** The history *)

Definition user : Principal := MkPrincipal "web_assertion" "ann" "org" "ann" [] [] [] "" "" "" false "" [].
Definition user_owner : SubmissionOwner := Owner "web_assertion" "ann" "ann" SubmissionSurfaceBrowser.
Definition start : time := 739251 * (24 * Hour).
Definition key_1 : SubmissionKey := SubKey "org" user_owner "submission-1".
Definition key_2 : SubmissionKey := SubKey "org" user_owner "submission-2".
Definition admission_1 : SubmissionAdmission :=
  Admission key_1 "digest-1" "res-1" "thread-01" (start + 60 * Second) "why?" (Some 30) (SubLimits 0 0 0) true
    (Some (LeaseGrant "holder-1" (start + 15 * Second) "request-1")).
Definition admission_2 : SubmissionAdmission :=
  Admission key_2 "digest-2" "res-2" "thread-01" (start + 120 * Second) "and then?" None (SubLimits 0 0 0) true
    (Some (LeaseGrant "holder-1" (start + 45 * Second) "request-2")).
Definition live_env : env := Env [] [start + 20 * Second].
Definition both : list SubmissionKey := [key_1; key_2].
Definition answer : InvestigationResult (@Content plain) := Result "res-1" start "model" "v1" [] "because".
Definition lost_envelope (request : string) : ErrorEnvelope := Envelope request "run_lost" "the run was lost" 503 true.
Definition thread_key : ThreadKey := ThrKey "org" user_owner "thread-01".

Definition w_1 := Eval vm_compute in AdmitSubmission both admission_1 start (live_env, NewStore true).
Definition w_2 := Eval vm_compute in Save user answer "" None (Some "res-1") (live_env, w_1.2.2).
Definition w_3 := Eval vm_compute in AdmitSubmission both admission_2 (start + 30 * Second) (live_env, w_2.2.2).
Definition w_4 := Eval vm_compute in ReapLostRuns both "taker-1" None lost_envelope (start + 90 * Second) (live_env, w_3.2.2).
Definition w_5 := Eval vm_compute in CloseThread thread_key (start + 100 * Second) (live_env, w_4.2.2).
Definition late : time := start + 40 * (24 * Hour).
Definition rows : list threadRowKey := [RowKey "org" "web_assertion" "ann" "thread-01"].
Definition w_6 := Eval vm_compute in SweepRetention rows both late 10 (live_env, w_5.2.2).

Definition s_1 : Store := Eval vm_compute in w_1.2.2.
Definition s_2 : Store := Eval vm_compute in w_2.2.2.
Definition s_3 : Store := Eval vm_compute in w_3.2.2.
Definition s_4 : Store := Eval vm_compute in w_4.2.2.
Definition s_5 : Store := Eval vm_compute in w_5.2.2.
Definition s_6 : Store := Eval vm_compute in w_6.2.2.

Definition until : time := start + 100 * Second.

Lemma admits_1 : limited until 4 1000 admission_1 start ∧ limited until 4 1000 admission_2 (start + 30 * Second).
Proof. repeat split; vm_compute; discriminate. Qed.

Lemma move_step ok op w r w' : op_admits ok op → exec op w = (r, w') → op_step ok w.2 w'.2.
Proof. apply op_step_intro. Qed.

Lemma move_1 ok : ok admission_1 start → op_step ok (NewStore true) s_1.
Proof.
  intros Hok. apply (move_step ok (OAdmit both admission_1 start) (live_env, NewStore true) (Ok ()) (w_1.2.1, s_1)); [exact Hok|].
  reflexivity.
Qed.

Lemma move_2 ok : op_step ok s_1 s_2.
Proof.
  apply (move_step ok (OSave user answer "" (None : @SemanticStateWrite plain) (Some "res-1")) (live_env, s_1) (Ok ()) (w_2.2.1, s_2)); [exact I|].
  reflexivity.
Qed.

Lemma move_3 ok : ok admission_2 (start + 30 * Second) → op_step ok s_2 s_3.
Proof.
  intros Hok. apply (move_step ok (OAdmit both admission_2 (start + 30 * Second)) (live_env, s_2) (Ok ()) (w_3.2.1, s_3)); [exact Hok|].
  reflexivity.
Qed.

Lemma move_4 ok : op_step ok s_3 s_4.
Proof.
  apply (move_step ok (OReap both "taker-1" None lost_envelope (start + 90 * Second)) (live_env, s_3) (Ok ()) (w_4.2.1, s_4)); [exact I|].
  reflexivity.
Qed.

Lemma move_5 ok : op_step ok s_4 s_5.
Proof.
  apply (move_step ok (OCloseThread thread_key (start + 100 * Second)) (live_env, s_4) (Ok ()) (w_5.2.1, s_5)); [exact I|].
  reflexivity.
Qed.

Lemma moves_any n : (n ≤ 5)%nat → rtc (op_step any_admission) (NewStore true)
  (nth n [NewStore true; s_1; s_2; s_3; s_4; s_5] s_5).
Proof.
  intros Hn. destruct n as [|[|[|[|[|[|n]]]]]]; [..|lia]; cbn [nth];
    eauto 8 using rtc_refl, rtc_l, move_1, move_2, move_3, move_4, move_5.
Qed.

Lemma ops_hist ok due s s' : rtc (op_step ok) s s' → hist ok due s s'.
Proof. apply rtc_subrel. intros x y. apply hist_op. Qed.

Lemma hist_at n : (n ≤ 5)%nat → hist any_admission (λ _ _, True) (NewStore true)
  (nth n [NewStore true; s_1; s_2; s_3; s_4; s_5] s_5).
Proof. intros Hn. by apply ops_hist, moves_any. Qed.

Lemma consistent_at n : (n ≤ 5)%nat → consistent (nth n [NewStore true; s_1; s_2; s_3; s_4; s_5] s_5).
Proof. intros Hn. eapply edits_consistent; [apply op_steps_edits; by apply (moves_any n)|apply new_consistent]. Qed.

(** The retention job, as the second submission runs, and forty days later. *)
Definition early := Eval vm_compute in SweepRetention rows both until 10 (live_env, s_3).
Definition s_3' : Store := Eval vm_compute in early.2.2.

Lemma swept_early : SweepRetention rows both until 10 (live_env, s_3) = (early.1, (early.2.1, s_3')).
Proof. reflexivity. Qed.

Lemma sweep_3 ok due : due until s_3' → hist_step ok due s_3 s_3'.
Proof. intros Hdue. exact (hist_sweep ok due rows both until 10 (live_env, s_3) early.1 (early.2.1, s_3') swept_early Hdue). Qed.

Lemma sweep_5 ok due : due late s_6 → hist_step ok due s_5 s_6.
Proof. intros Hdue. by apply (hist_sweep ok due rows both late 10 (live_env, s_5) w_6.1 (w_6.2.1, s_6)). Qed.

Definition record_1 : SubmissionRecord := Eval vm_compute in
  default (admitted_record admission_1 user_owner 0) (st_submissions s_1 !! key_1).

Lemma admitted_record_at : st_submissions s_1 !! key_1 = Some record_1.
Proof. vm_compute. reflexivity. Qed.

(** ** The theorems at these states *)

Lemma store_consistent_witness : consistent s_6 ∧ placed s_6.
Proof. apply (store_consistent true). eapply rtc_r; [exact (hist_at 5 (le_n 5))|by apply sweep_5]. Defined.

Lemma from_1_to_3 due : due until s_3' → hist any_admission due s_1 s_3'.
Proof.
  intros Hdue. eapply rtc_r; [|by apply sweep_3]. apply ops_hist. eauto 8 using rtc_refl, rtc_l, move_2, move_3.
Qed.

Definition again := Eval vm_compute in AdmitSubmission both admission_1 (start + Second) (live_env, s_3').
Definition again_record : SubmissionRecord := Eval vm_compute in match again.1 with Ok (r, _) => r | _ => record_1 end.

Lemma admitted_1 : AdmitSubmission both admission_1 start (live_env, NewStore true) = (Ok (record_1, true), (w_1.2.1, s_1)).
Proof. reflexivity. Qed.

Lemma asked_again : AdmitSubmission both admission_1 (start + Second) (live_env, s_3') = (Ok (again_record, false), again.2).
Proof. reflexivity. Qed.

Lemma until_soon : until < UnthreadedRecordExpiresAt start.
Proof. vm_compute. reflexivity. Qed.

Lemma one_execution_witness : sr_RequestDigest again_record = "digest-1" ∧ sr_AdmittedAt again_record = start.
Proof.
  destruct (one_execution true both admission_1 start (live_env, NewStore true) record_1 (w_1.2.1, s_1) s_3' both admission_1 (start + Second) live_env again_record false again.2
    (rtc_refl _ _) admitted_1 (from_1_to_3 _ until_soon) eq_refl eq_refl eq_refl ltac:(by left) asked_again) as [_ Hsame].
  destruct (Hsame eq_refl) as (Hd & Ht & _). by split.
Defined.

(** *** In the order of the clock *)

Lemma clock_1 ok : ok admission_1 start → timed_step ok (start, NewStore true) (start, s_1).
Proof. intros Hok. apply timed_op; [reflexivity|]. by apply move_1. Qed.

Lemma clock_3 ok : ok admission_2 (start + 30 * Second) → timed_step ok (start + 30 * Second, s_2) (start + 30 * Second, s_3).
Proof. intros Hok. apply timed_op; [reflexivity|]. by apply move_3. Qed.

Lemma clock_sweep ok : timed_step ok (start + 30 * Second, s_3) (until, s_3').
Proof. apply (timed_sweep ok _ rows both until 10 (live_env, s_3) early.1 (early.2.1, s_3')); [vm_compute; discriminate|exact swept_early]. Qed.

Lemma clocked ok : ok admission_1 start → ok admission_2 (start + 30 * Second) →
  rtc (timed_step ok) (start, NewStore true) (until, s_3').
Proof.
  intros H1 H2. eapply rtc_l; [by apply clock_1|]. eapply (rtc_l _ _ (start + 30 * Second, s_2)).
  { apply timed_op; [vm_compute; discriminate|apply move_2]. }
  eapply rtc_l; [by apply clock_3|]. apply rtc_once, clock_sweep.
Qed.

Lemma narrow_1 : narrow 4 1000 admission_1 start ∧ narrow 4 1000 admission_2 (start + 30 * Second).
Proof. repeat split; vm_compute; discriminate. Qed.

Lemma running_within_limits_witness : open_within 4 1000 until s_3' ∧ within until 4 1000 s_3.
Proof.
  destruct (running_within_limits 4 1000 true ltac:(lia)) as [Hswept Hplain]. split.
  - apply (Hswept start until s_3'). apply clocked; apply narrow_1.
  - apply (Hplain until s_3). destruct admits_1 as [H1 H2]. eauto 8 using rtc_refl, rtc_l, move_1, move_2, move_3.
Defined.

Definition done_1 : SubmissionRecord := Eval vm_compute in default record_1 (st_submissions s_3' !! key_1).

Lemma done_serves_owned_result_witness :
  ∃ e owner, st_results s_3' !! sr_ResultID done_1 = Some e ∧ en_orgID e = "org" ∧ en_owner e = Some owner
    ∧ SameSubmissionOwner owner user_owner = true.
Proof.
  apply (done_serves_owned_result true s_3' key_1 done_1); [right; exists start, until; split|..].
  - by apply clocked.
  - vm_compute. reflexivity.
  - vm_compute. reflexivity.
  - reflexivity.
Defined.

Lemma saved_1 : Save user answer "" (None : @SemanticStateWrite plain) (Some "res-1") (live_env, s_1) = (Ok (), (w_2.2.1, s_2)).
Proof. reflexivity. Qed.

Lemma from_2_to_3 : hist any_admission (λ _ later, is_Some (st_results later !! strings_TrimSpace (ir_ResultID answer))) s_2 s_3'.
Proof.
  eapply rtc_l; [apply hist_op; by apply move_3|]. apply rtc_once, sweep_3. vm_compute. by eexists.
Qed.

Lemma saved_result_reads_back_witness :
  ∃ payload stored, json_Marshal answer = Some payload ∧ read_payload payload = Ok (si_Result stored)
    ∧ (Get user "res-1" (Env [] [until], s_3')).1 = Ok stored.
Proof.
  destruct (saved_result_reads_back true user answer "" (None : @SemanticStateWrite plain) (Some "res-1") (live_env, s_1) (w_2.2.1, s_2) s_3'
    (hist_at 1 ltac:(lia)) saved_1 from_2_to_3) as (payload & Hp & Hget & _).
  specialize (Hget user until eq_refl ltac:(vm_compute; reflexivity)). injection Hp as <-.
  destruct Hget as (stored & Hs & Hr). exists "res-1 because", stored. split; [reflexivity|]. split; [|exact Hs].
  rewrite Hr. reflexivity.
Defined.

(** An event whose number is not the next one of the log, which is empty, is accepted, and so is an earlier one
    after it. *)
Definition event_at (seq : Z) : RunEvent := REvent seq "progress" "" "" None 0.
Definition gap_1 := Eval vm_compute in AppendRunEvent (RKey "org" "res-1") (event_at 5) 0 start (live_env, s_1).

Lemma gap_accepted :
  (AppendRunEvent (RKey "org" "res-1") (event_at 5) 0 start (live_env, s_1)).1 = Ok true
  ∧ (AppendRunEvent (RKey "org" "res-1") (event_at 2) 0 start (live_env, gap_1.2.2)).1 = Ok true.
Proof. split; vm_compute; reflexivity. Qed.

(** A run whose log holds the greatest number: the terminal of its takeover wraps around to the least one. *)
Definition full_log := Eval vm_compute in AppendRunEvent (RKey "org" "res-1") (event_at (2 ^ 63 - 1)) 0 start (live_env, s_1).

Lemma lost_terminal_wraps :
  match ReapLostRuns both "taker-1" None lost_envelope (start + 90 * Second) (live_env, full_log.2.2) with
  | (Ok [l], (_, s)) => lr_TerminalSeq l = - 2 ^ 63
      ∧ re_Seq <$> default [] (st_runEvents s !! RKey "org" "res-1") = [2 ^ 63 - 1; - 2 ^ 63]
  | _ => False
  end.
Proof. vm_compute. done. Qed.

Definition lost_runs : list LostRun := Eval vm_compute in match w_4.1 with Ok l => l | _ => [] end.
Definition lost_1 : LostRun := Eval vm_compute in match lost_runs with l :: _ => l | [] => Lost (RKey "" "") "" 0 "" 0 false end.

Lemma reaped_1 : ReapLostRuns both "taker-1" None lost_envelope (start + 90 * Second) (live_env, s_3) = (Ok lost_runs, (w_4.2.1, s_4)).
Proof. reflexivity. Qed.

Lemma from_4_to_6 run : hist (not_reserving run) (λ _ _, True) s_4 s_6.
Proof. eapply rtc_l; [apply hist_op, move_5|]. by apply rtc_once, sweep_5. Qed.

Lemma lost_run_stays_lost_witness :
  run_gone (RKey "org" "res-2") s_6
  ∧ ∀ until e c w2, CheckRunLease (RKey "org" "res-2") "holder-1" until (e, s_6) = (Ok c, w2) → rc_Renewed c = false.
Proof.
  destruct (lost_run_stays_lost true both "taker-1" None lost_envelope (start + 90 * Second) (live_env, s_3) lost_runs (w_4.2.1, s_4)
    lost_1 s_6 (hist_at 3 ltac:(lia)) reaped_1 ltac:(by left) eq_refl (from_4_to_6 _)) as (Ht & Hl & _).
  split; [destruct Ht as [Ht|Ht]; [vm_compute in Ht; discriminate Ht|exact Ht]|].
  intros t e c w2 Hc. by destruct (Hl "holder-1" t e c w2 Hc).
Defined.

Lemma closed_1 : CloseThread thread_key (start + 100 * Second) (live_env, s_4) = (Ok true, (w_5.2.1, s_5)).
Proof. reflexivity. Qed.

(** A sweep a week later: the thread still has its row, and its records are erased. *)
Definition week : time := start + 7 * (24 * Hour).
Definition w_7 := Eval vm_compute in SweepRetention rows both week 10 (live_env, s_5).
Definition s_7 : Store := Eval vm_compute in w_7.2.2.

Lemma expires_late row t : st_threads s_5 !! row = Some t → week < th_ExpiresAt t.
Proof.
  intros Ht%elem_of_map_to_list.
  assert (Forall (λ kv : threadRowKey * ThreadRecord, week < th_ExpiresAt kv.2) (map_to_list (st_threads s_5))) as Hall
    by (vm_compute; repeat constructor).
  rewrite Forall_forall in Hall. exact (Hall _ Ht).
Qed.

Lemma closed_thread_serves_nothing_witness : ∃ row t,
  th_ClosedAt t = Some until ∧ st_threads s_7 !! row = Some t
  ∧ ∀ k r, st_submissions s_7 !! k = Some r → sr_ThreadID r ≠ "" → recordThreadRow k r = row → sr_Question r = "".
Proof.
  destruct (closed_thread_serves_nothing true thread_key (start + 100 * Second) (live_env, s_4) (w_5.2.1, s_5)
    (hist_at 4 ltac:(lia)) closed_1) as (row & t & Hcl & _ & Hid & Hrow & Hafter).
  destruct (Hafter s_7) as (Hrow7 & Hq & _).
  { apply rtc_once. apply (hist_sweep _ _ rows both week 10 (live_env, s_5) w_7.1 (w_7.2.1, s_7)); [reflexivity|].
    exact (expires_late row t Hrow). }
  exists row, t. split; [exact Hcl|split; [exact Hrow7|]]. intros k r Hr Ht Hk. by destruct (Hq k r Hr Ht Hk).
Defined.

Lemma sweep_keeps_live_witness : unclosed until s_3' key_1 done_1.
Proof.
  destruct (sweep_keeps_live rows both until 10 (live_env, s_3) early.1 (early.2.1, s_3') (consistent_at 3 ltac:(lia)) swept_early) as [Hl _].
  apply (Hl key_1 done_1). split; vm_compute; reflexivity.
Defined.

Lemma all_rows : ∀ row, is_Some (st_threads s_5 !! row) → row ∈ rows.
Proof.
  intros row [t Ht%elem_of_map_to_list]. assert (fst <$> map_to_list (st_threads s_5) = rows) as <- by (vm_compute; reflexivity).
  by apply (list_elem_of_fmap_2' _ _ (row, t)).
Qed.

Lemma all_keys : ∀ k, is_Some (st_submissions s_5 !! k) → k ∈ both.
Proof.
  intros k [r Hr%elem_of_map_to_list]. assert (Forall (λ k, k ∈ both) (fst <$> map_to_list (st_submissions s_5))) as Hall
    by (vm_compute; repeat constructor). rewrite Forall_forall in Hall. apply Hall.
  by apply (list_elem_of_fmap_2' _ _ (k, r)).
Qed.

Lemma sweep_clears_due_witness : ∃ r w1, SweepRetention rows both late 10 (Env [] [], s_5) = (Ok r, w1)
  ∧ (∀ row, row_done late row w1.2) ∧ ∀ k, record_done late k w1.2.
Proof.
  exact (sweep_clears_due rows both late 10 [] s_5 (consistent_at 5 ltac:(lia)) eq_refl all_rows all_keys ltac:(vm_compute; reflexivity)).
Defined.

Definition turn_1 : ThreadTurnCursor * option ContextFabricThreadRetentionDays := (TurnCursor start "submission-1", Some 30).
Definition turn_2 : ThreadTurnCursor * option ContextFabricThreadRetentionDays := (TurnCursor until "submission-2", Some 0).

Lemma turns_in_any_order_witness :
  advance_all thread_key None [turn_1; turn_2] = advance_all thread_key None [turn_2; turn_1].
Proof.
  apply (turns_in_any_order thread_key [turn_1; turn_2] [turn_2; turn_1]); [apply perm_swap|].
  apply NoDup_cons. split; [|apply NoDup_singleton]. intros Hin%list_elem_of_singleton. discriminate Hin.
Defined.
