(* ===== verification/Requests.v ===== *)
(** * Requests: concurrent requests over shared stores

    A handler of the service calls its stores several times, and every store
    call takes the store's lock on its own, so other requests run between the
    calls.  A [request] is such a handler: a tree of atomic store calls and of
    questions to the outside (random bytes, a fetched document).  [exec] runs
    one request alone.  A [system] holds any number of requests in any state of
    progress over one world; a step lets one of them make its next call, with
    any readings of the clock and any cancellation of its context, starts a new
    one, or lets the rest of the program change the world.  A request that is
    never stepped again is one whose client is gone.

    [holds] is a rely-guarantee assertion by recursion on the tree: every call
    keeps the invariant [inv] and moves the world along [evolve], whatever the
    other requests did before it along [evolve].  [system_keeps] lifts it to
    every reachable system. *)

From Stdlib Require Import ZArith Lia Ascii.
From stdpp Require Import sorting pretty numbers gmap strings list_numbers list.
From S2P Require Import Prelude.

Section request.
Context {W Q : Type} {reply : Q → Type}.

Inductive request (A : Type) : Type :=
  | Return (r : res A)
  | Call {B : Type} (m : go W B) (k : res B → request A)
  | Ask (q : Q) (k : reply q → request A).
#[global] Arguments Return {A} r.
#[global] Arguments Call {A B} m k.
#[global] Arguments Ask {A} q k.

Fixpoint rbind {A B} (p : request A) (f : A → request B) : request B :=
  match p with
  | Return (Ok a) => f a
  | Return (Err e) => Return (Err e)
  | Return Panic => Return Panic
  | Call m k => Call m (λ r, rbind (k r) f)
  | Ask q k => Ask q (λ a, rbind (k a) f)
  end.

Definition done {A} (a : A) : request A := Return (Ok a).
Definition raise {A} (e : gerr) : request A := Return (Err e).
Definition call {A} (m : go W A) : request A := Call m Return.
Definition ask (q : Q) : request (reply q) := Ask q done.

(** Run [p] and hand its error, if any, to the continuation. *)
Fixpoint try {A} (p : request A) : request (gerr + A) :=
  match p with
  | Return (Ok a) => done (inr a)
  | Return (Err e) => done (inl e)
  | Return Panic => Return Panic
  | Call m k => Call m (λ r, try (k r))
  | Ask q k => Ask q (λ a, try (k a))
  end.

(** One request alone: its calls read one environment, its questions are
    answered by [oracle]. *)
Fixpoint exec {A} (oracle : nat → ∀ q, reply q) (n : nat) (p : request A) (w : env * W) : res A * (env * W) :=
  match p with
  | Return r => (r, w)
  | Call m k => let '(r, w') := m w in exec oracle n (k r) w'
  | Ask q k => exec oracle (S n) (k (oracle n q)) w
  end.
End request.
Arguments request W {Q} reply A.

Declare Scope request_scope.
Delimit Scope request_scope with request.
Notation "'let*' x ':=' c 'in' k" := (rbind c (λ x, k))
  (at level 10, x name, c at level 200, k at level 200,
   format "'[v' 'let*'  x  ':='  c  'in' '/' k ']'") : request_scope.
Notation "'deny!' b 'with' e ';;' k" :=
  (if b then raise e else k)
  (at level 10, b at level 99, e at level 99, k at level 200,
   format "'[v' 'deny!'  b  'with'  e ';;' '/' k ']'") : request_scope.
Open Scope request_scope.

(** ** Systems *)

Section system.
Context {W Q : Type} {reply : Q → Type} {Op Ans : Type}.
Context (start : Op → request W reply Ans).
Context (legal : ∀ q, reply q → Prop).
Context (elsewhere : W → W → Prop).
Implicit Types (w : W) (op : Op) (L : Op → Prop).

(** A request: what was asked, the world it was asked in, and what is left of it. *)
Record thread := Thread { th_op : Op; th_from : W; th_rest : request W reply Ans }.

Record system := System { sy_world : W; sy_pool : gmap nat thread }.

Inductive system_step : system → system → Prop :=
  | step_asked i op w pool :
      pool !! i = None → system_step (System w pool) (System w (<[i := Thread op w (start op)]> pool))
  | step_call i op w0 {B} (m : go W B) k w pool e r e' w' :
      pool !! i = Some (Thread op w0 (Call m k)) → m (e, w) = (r, (e', w')) →
      system_step (System w pool) (System w' (<[i := Thread op w0 (k r)]> pool))
  | step_reply i op w0 q k w pool a :
      pool !! i = Some (Thread op w0 (Ask q k)) → legal q a →
      system_step (System w pool) (System w (<[i := Thread op w0 (k a)]> pool))
  | step_elsewhere w w' pool : elsewhere w w' → system_step (System w pool) (System w' pool).

Definition asked (c : system) : Op → Prop := λ op, ∃ i t, sy_pool c !! i = Some t ∧ th_op t = op.

Definition answered (c : system) (i : nat) (op : Op) (r : res Ans) : Prop :=
  ∃ w0, sy_pool c !! i = Some (Thread op w0 (Return r)).

(** ** Rely and guarantee *)

Context (inv : (Op → Prop) → W → Prop).
Context (evolve : W → W → Prop) `{!PreOrder evolve}.

Fixpoint holds {A} (p : request W reply A) (post : res A → (Op → Prop) → W → Prop) (L : Op → Prop) (w : W) : Prop :=
  match p with
  | Return r => ∀ (L' : Op → Prop) w', (∀ op, L op → L' op) → evolve w w' → inv L' w' → post r L' w'
  | Call m k => ∀ (L' : Op → Prop) w1, (∀ op, L op → L' op) → evolve w w1 → inv L' w1 →
      ∀ e r e2 w2, m (e, w1) = (r, (e2, w2)) →
      inv L' w2 ∧ evolve w1 w2 ∧ holds (k r) post L' w2
  | Ask q k => ∀ a, legal q a → holds (k a) post L w
  end.

Lemma holds_grow {A} (p : request W reply A) post L L' w w' :
  holds p post L w → (∀ op, L op → L' op) → evolve w w' → holds p post L' w'.
Proof.
  revert L w. induction p as [r|B m k IH|q k IH]; cbn [holds]; intros L w Hp HL Hw.
  - intros L2 w2 HL2 Hw2. apply Hp; [auto|by etrans].
  - intros L2 w1 HL2 Hw1. apply Hp; [auto|by etrans].
  - intros a Ha. eapply IH; eauto.
Qed.

Lemma holds_mono {A} (p : request W reply A) (post post' : res A → (Op → Prop) → W → Prop) L w :
  holds p post L w →
  (∀ r L' w', (∀ op, L op → L' op) → inv L' w' → evolve w w' → post r L' w' → post' r L' w') →
  holds p post' L w.
Proof.
  revert L w. induction p as [r|B m k IH|q k IH]; cbn [holds]; intros L w Hp Hpost.
  - intros L' w' ???. apply Hpost; auto.
  - intros L' w1 HL Hw1 Hi e r e2 w2 Hm. destruct (Hp L' w1 HL Hw1 Hi e r e2 w2 Hm) as (? & ? & Hk).
    split_and!; [done..|]. eapply IH; [done|]. intros r' L2 w3 ???. apply Hpost; [auto|done|]. do 2 (etrans; [done|]). done.
  - intros a Ha. eapply IH; eauto.
Qed.

(** What is left to show of [f] after an answer of [p]. *)
Definition then_holds {A B} (f : A → request W reply B) (post : res B → (Op → Prop) → W → Prop)
    (r : res A) (L : Op → Prop) (w : W) : Prop :=
  match r with
  | Ok a => holds (f a) post L w
  | Err e => holds (Return (Err e)) post L w
  | Panic => holds (Return Panic) post L w
  end.

Lemma holds_bind {A B} (p : request W reply A) (f : A → request W reply B) post L w :
  inv L w → holds p (then_holds f post) L w → holds (rbind p f) post L w.
Proof.
  revert L w. induction p as [r|C m k IH|q k IH]; cbn [holds rbind]; intros L w Hi Hp.
  - assert (then_holds f post r L w) as Hr by (apply Hp; [done|reflexivity|done]).
    by destruct r.
  - intros L' w1 HL Hw1 Hi1 e r e2 w2 Hm. destruct (Hp L' w1 HL Hw1 Hi1 e r e2 w2 Hm) as (? & ? & Hk).
    split_and!; [done..|]. by apply IH.
  - intros a Ha. apply IH; auto.
Qed.

Definition then_tried {A} (post : res (gerr + A) → (Op → Prop) → W → Prop) (r : res A) (L : Op → Prop) (w : W) : Prop :=
  match r with
  | Ok a => post (Ok (inr a)) L w
  | Err e => post (Ok (inl e)) L w
  | Panic => post Panic L w
  end.

Lemma holds_try {A} (p : request W reply A) post L w :
  holds p (then_tried post) L w → holds (try p) post L w.
Proof.
  revert L w. induction p as [r|C m k IH|q k IH]; cbn [holds try]; intros L w Hp.
  - by destruct r.
  - intros L' w1 HL Hw1 Hi1 e r e2 w2 Hm. destruct (Hp L' w1 HL Hw1 Hi1 e r e2 w2 Hm) as (? & ? & Hk).
    split_and!; [done..|]. by apply IH.
  - intros a Ha. apply IH; auto.
Qed.

(** A call and what follows it. *)
Lemma holds_call {A B} (m : go W A) (f : A → request W reply B) post L w :
  (∀ L' w1 e r e2 w2, (∀ op, L op → L' op) → evolve w w1 → inv L' w1 → m (e, w1) = (r, (e2, w2)) →
     inv L' w2 ∧ evolve w1 w2 ∧ then_holds f post r L' w2) →
  holds (rbind (call m) f) post L w.
Proof.
  intros Hm L' w1 HL Hw Hi e r e2 w2 Hrun. destruct (Hm _ _ _ _ _ _ HL Hw Hi Hrun) as (? & ? & Hr).
  split_and!; [done..|]. by destruct r.
Qed.

Lemma holds_ret {A} (r : res A) (post : res A → (Op → Prop) → W → Prop) L w :
  (∀ (L' : Op → Prop) w', (∀ op, L op → L' op) → evolve w w' → inv L' w' → post r L' w') →
  holds (Return r) post L w.
Proof. done. Qed.

(** ** Every reachable system *)

Context (post : Op → W → res Ans → (Op → Prop) → W → Prop).
Hypothesis inv_asked : ∀ L L' w, (∀ op, L op → L' op) → inv L w → inv L' w.
Hypothesis elsewhere_keeps : ∀ L w w', elsewhere w w' → inv L w → inv L w' ∧ evolve w w'.
Hypothesis start_holds : ∀ op L w, L op → inv L w → holds (start op) (post op w) L w.

Record system_ok (c : system) : Prop := {
  so_inv : inv (asked c) (sy_world c);
  so_pool : ∀ i t, sy_pool c !! i = Some t →
    evolve (th_from t) (sy_world c) ∧ holds (th_rest t) (post (th_op t) (th_from t)) (asked c) (sy_world c);
}.

Lemma asked_insert w w' pool i t op :
  (∀ t', pool !! i = Some t' → th_op t' = th_op t) →
  asked (System w pool) op → asked (System w' (<[i := t]> pool)) op.
Proof.
  intros Hi (j & t' & Ht & <-). destruct (decide (j = i)) as [->|].
  - exists i, t. cbn in *. rewrite lookup_insert_eq. by rewrite (Hi _ Ht).
  - exists j, t'. cbn in *. by rewrite lookup_insert_ne.
Qed.

Lemma system_insert w w' pool i t :
  system_ok (System w pool) → evolve w w' →
  (∀ t', pool !! i = Some t' → th_op t' = th_op t) →
  (∀ L, (∀ op, asked (System w pool) op → L op) → L (th_op t) →
     inv L w' ∧ evolve (th_from t) w' ∧ holds (th_rest t) (post (th_op t) (th_from t)) L w') →
  system_ok (System w' (<[i := t]> pool)).
Proof.
  intros [Hi Hp] Hw Ht Hstep. cbn [sy_world sy_pool] in *.
  destruct (Hstep (asked (System w' (<[i := t]> pool)))) as (Hi' & Hf & Hh).
  { intros op. by apply asked_insert. }
  { exists i, t. cbn. by rewrite lookup_insert_eq. }
  split; [done|]. cbn [sy_world sy_pool]. intros j t' [[<- <-]|[_ Hj]]%lookup_insert_Some; [done|].
  destruct (Hp _ _ Hj) as [Hev Hhold]. split; [by etrans|].
  eapply holds_grow; [exact Hhold| |done]. intros op. by apply asked_insert.
Qed.

Lemma system_step_ok c c' : system_step c c' → system_ok c → system_ok c' ∧ evolve (sy_world c) (sy_world c').
Proof.
  intros [i op w pool Hfree|i op w0 B m k w pool e r e' w' Hth Hm|i op w0 q k w pool a Hth Ha|w w' pool He] Hok;
    cbn [sy_world].
  - split; [|reflexivity]. eapply system_insert; [done|reflexivity|congruence|].
    intros L HL Hop. cbn in *. pose proof (inv_asked _ _ _ HL (so_inv _ Hok)) as Hi.
    split_and!; [done|reflexivity|by apply start_holds].
  - destruct (so_pool _ Hok _ _ Hth) as [Hev Hhold]. cbn in Hev, Hhold.
    destruct (Hhold (asked (System w pool)) w ltac:(done) ltac:(reflexivity) (so_inv _ Hok) _ _ _ _ Hm) as (Hi & Hw & Hk).
    split; [|done]. eapply system_insert; [done|done|by intros t' Ht'; simplify_eq|]. intros L HL _. cbn.
    split_and!; [by eapply inv_asked|by etrans|]. eapply holds_grow; [exact Hk|done|reflexivity].
  - destruct (so_pool _ Hok _ _ Hth) as [Hev Hhold]. cbn in Hev, Hhold.
    split; [|reflexivity]. eapply system_insert; [done|reflexivity|by intros t' Ht'; simplify_eq|]. intros L HL _. cbn.
    split_and!; [by eapply inv_asked; [|apply (so_inv _ Hok)]|done|].
    eapply holds_grow; [by apply Hhold|done|reflexivity].
  - destruct (elsewhere_keeps _ _ _ He (so_inv _ Hok)) as [Hi Hw]. split; [|done].
    split; [done|]. cbn [sy_world sy_pool]. intros i t Ht. destruct (so_pool _ Hok _ _ Ht) as [Hev Hhold].
    split; [by etrans|]. by eapply holds_grow.
Qed.

Lemma system_keeps c c' :
  rtc system_step c c' → system_ok c → system_ok c' ∧ evolve (sy_world c) (sy_world c').
Proof.
  induction 1 as [c|c c1 c' Hs _ IH]; intros Hok; [by split|].
  destruct (system_step_ok _ _ Hs Hok) as [Hok1 ?]. destruct (IH Hok1) as [? ?]. split; [done|by etrans].
Qed.

Lemma system_start w : inv (λ _, False) w → system_ok (System w ∅).
Proof.
  intros Hi. split; cbn; [|by intros i t Ht; rewrite lookup_empty in Ht].
  eapply inv_asked; [|exact Hi]. done.
Qed.

Lemma system_answers c i op r :
  system_ok c → answered c i op r → ∃ w0, evolve w0 (sy_world c) ∧ post op w0 r (asked c) (sy_world c).
Proof.
  intros Hok [w0 Hth]. destruct (so_pool _ Hok _ _ Hth) as [Hev Hhold]. exists w0. split; [done|].
  cbn in Hhold. apply Hhold; [done|reflexivity|apply (so_inv _ Hok)].
Qed.
End system.
