(* ===== verification/LoginWorld.v ===== *)
(** * LoginWorld: the stores a login works over

    The device authorizations, the OAuth store and the browser token families
    share one credential store: storage.NewBrowserRefreshStore and the device
    store are given the same credential lifecycle.  [World] holds each part
    once; an operation of one store runs on its view of the world.

    A request asks the outside for random bytes ([io.ReadFull] on the service's
    reader, [None] when the read fails) and for client metadata documents (the
    HTTP fetch of internal/auth/oauth_client_metadata.go). *)

From Stdlib Require Import ZArith Lia Ascii.
From stdpp Require Import sorting pretty numbers gmap strings list_numbers list.
From S2P Require Import Prelude GoStrings Lifecycle DeviceAuth OAuth BrowserRefresh Requests.

Open Scope Z_scope.

(** ** Questions *)

(** The part of a client's metadata the server uses (internal/auth/oauth.go);
    [None] is a nil slice. *)
Record OAuthClientMetadata := ClientMetadata {
  cm_ClientID : string;
  cm_ClientName : string;
  cm_RedirectURIs : list string;
  cm_TokenEndpointAuthMethod : string;
  cm_TokenEndpointAuthMethodsSupported : option (list string);
}.

Inductive question :=
  | AskRandom (n : nat)
  | AskMetadata (clientID : string).

(** A fetch fails with the refusal of a *ClientMetadataError, or with another
    error. *)
Definition reply (q : question) : Type :=
  match q with
  | AskRandom _ => option (list Z)
  | AskMetadata _ => option string + OAuthClientMetadata
  end.

(** A read that succeeds fills the buffer with bytes. *)
Definition legal (q : question) : reply q → Prop :=
  match q with
  | AskRandom n => λ a, ∀ l, a = Some l → length l = n ∧ Forall (λ b, 0 ≤ b < 256) l
  | AskMetadata _ => λ _, True
  end.

(** ** The world *)

Section world.
Context `{UnicodeTables} {S : Type} `{Backend S}.

Record World := MkWorld {
  wd_creds : S;
  wd_byDevice : gmap DeviceCodeHash DeviceAuthorization;
  wd_byUser : gmap UserCodeHash DeviceCodeHash;
  wd_oauth : OAuth.OAuthStore;
  wd_families : gmap string browserFamily;
  wd_tokens : gmap string browserRefreshToken;
}.

Definition device_view (w : World) : DeviceAuthorizationStore S :=
  DeviceStore (wd_creds w) (wd_byDevice w) (wd_byUser w).
Definition set_device_view (d : DeviceAuthorizationStore S) (w : World) : World :=
  MkWorld (ds_credentials d) (ds_byDevice d) (ds_byUser d) (wd_oauth w) (wd_families w) (wd_tokens w).

Definition set_oauth (o : OAuth.OAuthStore) (w : World) : World :=
  MkWorld (wd_creds w) (wd_byDevice w) (wd_byUser w) o (wd_families w) (wd_tokens w).

Definition refresh_view (w : World) : BrowserRefreshStore S :=
  RefreshStore (wd_creds w) (wd_families w) (wd_tokens w).
Definition set_refresh_view (b : BrowserRefreshStore S) (w : World) : World :=
  MkWorld (bs_credentials b) (wd_byDevice w) (wd_byUser w) (wd_oauth w) (bs_families b) (bs_tokens b).

Definition set_creds (c : S) (w : World) : World :=
  MkWorld c (wd_byDevice w) (wd_byUser w) (wd_oauth w) (wd_families w) (wd_tokens w).

Definition on_devices {A} : go (DeviceAuthorizationStore S) A → go World A := zoom device_view set_device_view.
Definition on_oauth {A} : go OAuth.OAuthStore A → go World A := zoom wd_oauth set_oauth.
Definition on_refresh {A} : go (BrowserRefreshStore S) A → go World A := zoom refresh_view set_refresh_view.
Definition on_creds {A} : go S A → go World A := zoom wd_creds set_creds.

(** [io.ReadFull(s.random, buf)] into a buffer of [n] bytes. *)
Definition read_full (n : nat) : request World reply (option (list Z)) := ask (AskRandom n).
Definition fetch_metadata (clientID : string) : request World reply (option string + OAuthClientMetadata) :=
  ask (AskMetadata clientID).
End world.
Arguments World : clear implicits.
