(* ===== verification/DeviceFlow.v ===== *)
(** * DeviceFlow: device logins and the consent step of an OAuth login

    internal/auth/device_flow.go, device_flow_codes.go, device_hints.go,
    device_poll.go and device_oauth.go: the service between the routes and the
    stores of device authorizations, OAuth grants and credentials.  Each method
    is a [request]; between two of its store calls other requests run.

    The service's fields are the injected clock and random reader, which a
    request reads as it goes, the credential service [sv] (asked for at most
    one token and one credential id by a request, so it is an argument that
    holds the two answers) and the lookup of OAuth device grants.  An error
    that only adds a text to the error it wraps is that error; one that wraps
    two keeps the first.  [ErrDevicePoll] is a *DevicePollError. *)

From Stdlib Require Import ZArith Lia Ascii.
From stdpp Require Import sorting pretty numbers gmap strings list_numbers list.
From S2P Require Import Prelude GoStrings CredTypes Validation Tokens Grants Lifecycle AuthService WebAssertion DeviceAuth OAuth BrowserRefresh Requests LoginWorld.

Open Scope Z_scope.

(** ** unicode.ToUpper

    The upper-case mapping above ASCII is the Unicode table of the Go release,
    a parameter as the lower-case one is. *)

Class UpperTables := { unicode_upper_table : Z → Z }.

Definition unicode_ToUpper `{UpperTables} (r : Z) : Z :=
  if r <? 128 then (if (97 <=? r) && (r <=? 122) then r - 32 else r) else unicode_upper_table r.

Definition strings_ToUpper `{UpperTables} (s : string) : string :=
  of_bytes (concat ((λ r, encode_rune (unicode_ToUpper r)) <$> runes s)).

(** [strings.Fields]: the maximal runs of code points that are not white space. *)
Fixpoint fields_loop (field : list run) (l : list run) : list string :=
  let flush := if bool_decide (field = []) then [] else [of_runs (rev field)] in
  match l with
  | [] => flush
  | r :: l' => if unicode_IsSpace (rune_of r) then flush ++ fields_loop [] l' else fields_loop (r :: field) l'
  end.
Definition strings_Fields (s : string) : list string := fields_loop [] (runs s).

(** ** device_flow_codes.go *)

Definition DeviceUserCodeAlphabet : string := "23456789ABCDEFGHJKLMNPQRSTUVWXYZ".
Definition DeviceUserCodeLength : Z := 8.
Definition deviceCodeBytes : nat := 32.
Definition userCodeRandomBytes : nat := 5.
Definition maxDeviceCodeAttempts : nat := 8.

(** The encoding of encoding/base32 without padding over an alphabet of the
    program's own: the bits of the bytes, five by five, the last group filled
    with zeros. *)
Fixpoint base32_digits (bits : list Z) : list Z :=
  match bits with
  | [] => []
  | [a] => [16 * a]
  | [a; b] => [16 * a + 8 * b]
  | [a; b; c] => [16 * a + 8 * b + 4 * c]
  | [a; b; c; d] => [16 * a + 8 * b + 4 * c + 2 * d]
  | a :: b :: c :: d :: e :: rest => 16 * a + 8 * b + 4 * c + 2 * d + e :: base32_digits rest
  end.
Definition userCodeEncoding_EncodeToString (src : list Z) : string :=
  of_chars (pick DeviceUserCodeAlphabet <$> base32_digits (concat (be_bits 8 <$> src))).

Definition NormalizeDeviceCode (value0 : string) : option string :=
  let value := strings_TrimSpace value0 in
  match RawURLEncoding_DecodeString value with
  | None => None
  | Some decoded =>
    if negb (bool_decide (length decoded = deviceCodeBytes))
       || negb (bool_decide (RawURLEncoding_EncodeToString decoded = value)) then None
    else Some value
  end.

Definition normalizeUserCode `{UpperTables} (value0 : string) : option string :=
  let value := strings_ToUpper (strings_TrimSpace value0) in
  if negb (slen value =? DeviceUserCodeLength) then None
  else if negb (forallb (λ r, bool_decide (r ∈ runes DeviceUserCodeAlphabet)) (runes value)) then None
  else Some value.

(** ** Data *)

Definition BrowserCredentialLifetime : duration := 10 * Minute.
Definition BrowserFamilyLifetime : duration := 12 * Hour.
Definition browserFamilyIDBytes : nat := 16.
Definition deviceAuthorizationCredentialName : string := "device login".
Definition browserCredentialName : string := "browser login".

(** auth/oauth.go *)
Definition oauthDefaultApprovalScopes : list string := [ScopeContextRead; ScopeEvidenceRead].
Definition deviceApprovalScopes : list string := [ScopeContextRead; ScopeEvidenceRead; ScopeDataRead].

Record DeviceAuthorizationStart := AuthorizationStart {
  st_DeviceCode : string;
  st_UserCode : string;
  st_ExpiresIn : duration;
  st_Interval : duration;
}.

(** [None] is the nil slice. *)
Record DeviceAuthorizationHints := Hints {
  hn_OrganizationIDHint : string;
  hn_RepositoryHints : option (list string);
}.

Record DeviceApprovalPreview := ApprovalPreview {
  ap_OrganizationIDHint : string;
  ap_RepositoryHints : list string;
  ap_RequestedScopes : list string;
  ap_RequestedScopesSource : string;
}.

Definition PreviewScopesFromGrant : string := "grant".
Definition PreviewScopesGrantDefault : string := "grant_default".
Definition PreviewScopesLegacyDefault : string := "legacy_default".

Record OAuthDeviceAuthorization := OAuthAuthorizationStarted {
  od_DeviceCodeHash : DeviceCodeHash;
  od_ExpiresAt : time;
}.

Record OAuthDeviceGrantStart := GrantStart {
  gs_DeviceCode : string;
  gs_UserCode : string;
  gs_DeviceCodeHash : DeviceCodeHash;
  gs_ExpiresAt : time;
  gs_Interval : duration;
}.

Inductive OAuthDeviceState :=
  | OAuthDeviceStatePending
  | OAuthDeviceStateApproved
  | OAuthDeviceStateDenied
  | OAuthDeviceStateExpired
  | OAuthDeviceStateRedeemed.

(** [OAuthDeviceGrantLookup]: the OAuth store, or the value a deployment
    without OAuth login passes. *)
Inductive OAuthDeviceGrantLookup := StoredOAuthDeviceGrants | NoOAuthDeviceGrants.

(** ** Pure parts *)

Definition validApprovalScopes (scopes : list string) : bool :=
  bool_decide (scopes = oauthDefaultApprovalScopes)
  || bool_decide (scopes = oauthDefaultApprovalScopes ++ [ScopeDataRead]).

Definition validDeviceApprovalPrincipal (principal : Principal) : bool :=
  bool_decide (pr_AuthenticationMethod principal = Grants.AuthenticationMethodWebAssertion)
  && negb (isEmpty (strings_TrimSpace (pr_Subject principal)))
  && negb (isEmpty (strings_TrimSpace (pr_OrgID principal)))
  && bool_decide (pr_CredentialID principal = "")
  && bool_decide (pr_Permissions principal = [WebAssertionPermissionCredentialIssue]).

Definition hasRepositoryWildcard (repositories : list string) : bool :=
  existsb (λ r, bool_decide (r = "*") || strings_HasSuffix r "/*") repositories.

(** The kinds a store error has for [errors.Is]. *)
Definition is_device_kind (kind : DeviceAuthorizationErrorKind) (e : gerr) : bool :=
  match e with ErrDeviceAuthorization k _ _ _ => bool_decide (k = kind) | _ => false end.
Definition is_not_found (e : gerr) : bool :=
  bool_decide (e = ErrDeviceAuthorizationNotFound) || is_device_kind DeviceErrorNotFound e.

Definition newDevicePollError (kind : DevicePollErrorKind) (retryAfter : duration) : gerr :=
  ErrDevicePoll kind (if bool_decide (retryAfter < 0) then 0 else retryAfter).

Definition pollErrorForState (state : DeviceAuthorizationState) : gerr :=
  match state with
  | DevicePending => newDevicePollError DevicePollAuthorizationPending 0
  | DeviceDenied => newDevicePollError DevicePollAccessDenied 0
  | DeviceExpired => newDevicePollError DevicePollExpiredToken 0
  | DeviceApproved | DeviceRedeemed => newDevicePollError DevicePollInvalidGrant 0
  end.

Definition mapDevicePollStoreError (e : gerr) : gerr :=
  match e with
  | ErrDeviceAuthorization DeviceErrorExpired _ _ _ => newDevicePollError DevicePollExpiredToken 0
  | ErrDeviceAuthorization DeviceErrorPollTooSoon _ retryAfter _ => newDevicePollError DevicePollSlowDown retryAfter
  | ErrDeviceAuthorization DeviceErrorNotFound _ _ _ => newDevicePollError DevicePollInvalidGrant 0
  | ErrDeviceAuthorization DeviceErrorConflict state _ _ => pollErrorForState state
  | ErrDeviceAuthorizationNotFound => newDevicePollError DevicePollInvalidGrant 0
  | _ => e
  end.

Definition mapDeviceRedemptionStoreError (e : gerr) : gerr :=
  if bool_decide (e = ErrOrgPurged) then newDevicePollError DevicePollAccessDenied 0
  else if is_not_found e || is_device_kind DeviceErrorConflict e then newDevicePollError DevicePollInvalidGrant 0
  else if is_device_kind DeviceErrorExpired e then newDevicePollError DevicePollExpiredToken 0
  else e.

Definition is_poll_error (e : gerr) : bool := match e with ErrDevicePoll _ _ => true | _ => false end.

Section hints.
Context `{UnicodeTables}.

(** *** device_hints.go *)

Definition normalizedPrincipalRepositories (principal : Principal) : res (list string) :=
  match NormalizeRepositoryScopes (pr_RepositoryScopes principal) with
  | Ok repositories =>
    if bool_decide (repositories = pr_RepositoryScopes principal) then Ok repositories else Err ErrInvalidDeviceFlow
  | _ => Err ErrInvalidDeviceFlow
  end.

Definition intersectRepositoryHints (hints repositories : list string) : list string :=
  filter (λ hint, RepositoryAllowed repositories hint = true) hints.

Definition normalizeDeviceAuthorizationHints (hints : DeviceAuthorizationHints) : res DeviceAuthorizationHints :=
  reject! negb (bool_decide (strings_TrimSpace (hn_OrganizationIDHint hints) = hn_OrganizationIDHint hints))
          || bool_decide (128 < utf8_RuneCountInString (hn_OrganizationIDHint hints)) with ErrInvalidDeviceFlow ;;
  match hn_RepositoryHints hints with
  | None => Ok hints
  | Some hinted =>
    match NormalizeRepositoryScopes hinted with
    | Ok repositories =>
      if hasRepositoryWildcard repositories then Err ErrInvalidDeviceFlow
      else Ok (Hints (hn_OrganizationIDHint hints) (Some repositories))
    | _ => Err ErrInvalidDeviceFlow
    end
  end.

Definition repositoriesWithinGrant (grant selected : list string) : bool :=
  forallb (RepositoryAllowed grant) selected.

(** [sameOAuthApproval] of device_oauth.go *)
Definition sameOAuthApproval (record : DeviceAuthorization) (principal : Principal) (repositoryScopes : list string)
    : bool :=
  validDeviceApprovalPrincipal principal &&
  match NormalizeRepositoryScopes repositoryScopes with
  | Ok repositories =>
    bool_decide (da_ApprovingAuthenticationMethod record = Grants.AuthenticationMethodWebAssertion)
    && bool_decide (da_ApprovingSubject record = pr_Subject principal)
    && bool_decide (da_AuthorizedOrgID record = pr_OrgID principal)
    && bool_decide (da_AuthorizedRepositoryScopes record = repositories)
  | _ => false
  end.
End hints.

(** ** The service *)

Module DeviceFlow.
Section flow.
Context `{UnicodeTables} `{UpperTables} {Cs : Type} `{Backend Cs}.
Abbreviation R := (request (World Cs) reply).
Implicit Types (sv : Service) (principal : Principal) (lookup : OAuthDeviceGrantLookup).

(** The service's parts are not nil: what is left of [ready] is the context. *)
Definition ready : R () := call ctx_check.

Definition GetDeviceGrant lookup (hash : DeviceCodeHash) : R OAuthDeviceGrant :=
  match lookup with
  | StoredOAuthDeviceGrants => call (on_oauth (OAuth.GetDeviceGrant hash))
  | NoOAuthDeviceGrants => raise ErrNotFound
  end.

(** [generateDeviceCodes] under the reader's mutex. *)
Definition nextCodes : R (string * string) :=
  let* deviceBytes := read_full deviceCodeBytes in
  match deviceBytes with
  | None => raise ErrDeviceCodeGeneration
  | Some device =>
    let* userBytes := read_full userCodeRandomBytes in
    match userBytes with
    | None => raise ErrDeviceCodeGeneration
    | Some user => done (RawURLEncoding_EncodeToString device, userCodeEncoding_EncodeToString user)
    end
  end.

(** The loop that [Start], [StartForOAuth] and [StartDeviceGrant] share: new
    codes until the store accepts a pair, at most [attempts] times; [use] is
    what each returns. *)
Fixpoint start_loop {A} (attempts : nat) (input : DeviceCodeHash → UserCodeHash → DeviceAuthorizationCreateInput)
    (use : string → string → DeviceAuthorization → A) : R A :=
  match attempts with
  | O => raise ErrDeviceCodeCollision
  | S attempts' =>
    let* codes := nextCodes in
    let* created := try (call (on_devices (Create_ (input (HashDeviceCode codes.1) (HashUserCode codes.2))))) in
    match created with
    | inr record => done (use codes.1 codes.2 record)
    | inl e =>
      if is_device_kind DeviceErrorConflict e then start_loop attempts' input use else raise e
    end
  end.

Definition Start (hints : DeviceAuthorizationHints) : R DeviceAuthorizationStart :=
  let* _ := ready in
  match normalizeDeviceAuthorizationHints hints with
  | Ok normalized =>
    start_loop maxDeviceCodeAttempts
      (λ device user, DeviceCreate device user (hn_OrganizationIDHint normalized)
                        (default [] (hn_RepositoryHints normalized)))
      (λ deviceCode userCode _,
         AuthorizationStart deviceCode userCode DeviceAuthorizationTTL DeviceAuthorizationPollInterval)
  | _ => raise ErrInvalidDeviceFlow
  end.

Definition requestedScopes lookup (hash : DeviceCodeHash) : R (list string * string) :=
  let* found := try (GetDeviceGrant lookup hash) in
  match found with
  | inl ErrNotFound => done (oauthDefaultApprovalScopes, PreviewScopesLegacyDefault)
  | inl _ => raise ErrDeviceGrantLookup
  | inr grant =>
    let scopes := strings_Fields (og_Scope grant) in
    if bool_decide (scopes = []) then done (oauthDefaultApprovalScopes, PreviewScopesGrantDefault)
    else done (scopes, PreviewScopesFromGrant)
  end.

Definition Preview lookup principal (userCode0 : string) : R DeviceApprovalPreview :=
  let* _ := ready in
  match normalizeUserCode userCode0 with
  | None => raise ErrInvalidDeviceFlow
  | Some userCode =>
    deny! negb (validDeviceApprovalPrincipal principal) with ErrInvalidDeviceFlow ;;
    let* record := call (on_devices (DeviceAuth.Preview (HashUserCode userCode))) in
    deny! negb (bool_decide (da_State record = DevicePending)) with ErrDeviceAuthorizationNotFound ;;
    match normalizedPrincipalRepositories principal with
    | Ok principalRepositories =>
      deny! negb (isEmpty (da_OrganizationIDHint record))
            && negb (bool_decide (da_OrganizationIDHint record = pr_OrgID principal)) with ErrInvalidDeviceFlow ;;
      let repositoryHints := intersectRepositoryHints (da_RepositoryHints record) principalRepositories in
      deny! negb (bool_decide (da_RepositoryHints record = [])) && bool_decide (repositoryHints = [])
        with ErrInvalidDeviceFlow ;;
      let* requested := requestedScopes lookup (da_DeviceCodeHash record) in
      done (ApprovalPreview (da_OrganizationIDHint record) repositoryHints requested.1 requested.2)
    | _ => raise ErrInvalidDeviceFlow
    end
  end.

Definition approveUserCodeHash principal (userCodeHash : UserCodeHash) (repositoryScopes scopes : list string)
    : R DeviceAuthorization :=
  deny! negb (validDeviceApprovalPrincipal principal) || negb (validApprovalScopes scopes)
    with ErrInvalidDeviceFlow ;;
  deny! pr_Impersonating principal with ErrImpersonatedApproval ;;
  match NormalizeRepositoryScopes repositoryScopes, normalizedPrincipalRepositories principal with
  | Ok repositories, Ok principalRepositories =>
    let* record := call (on_devices (DeviceAuth.Preview userCodeHash)) in
    deny! negb (isEmpty (da_OrganizationIDHint record))
          && negb (bool_decide (da_OrganizationIDHint record = pr_OrgID principal)) with ErrInvalidDeviceFlow ;;
    deny! (if bool_decide (repositories = ["*"]) then negb (bool_decide (principalRepositories = ["*"]))
           else hasRepositoryWildcard repositories
                || negb (repositoriesWithinGrant principalRepositories repositories)) with ErrInvalidDeviceFlow ;;
    call (on_devices (DeviceAuth.Approve userCodeHash
      (Grant (pr_OrgID principal) repositories scopes (pr_Subject principal)
         Grants.AuthenticationMethodWebAssertion (pr_SessionID principal))))
  | _, _ => raise ErrInvalidDeviceFlow
  end.

Definition Approve principal (userCode0 : string) (repositoryScopes : list string) : R DeviceAuthorization :=
  let* _ := ready in
  match normalizeUserCode userCode0 with
  | None => raise ErrInvalidDeviceFlow
  | Some userCode =>
    approveUserCodeHash principal (HashUserCode userCode) repositoryScopes deviceApprovalScopes
  end.

Definition Deny principal (userCode0 : string) : R DeviceAuthorization :=
  let* _ := ready in
  match normalizeUserCode userCode0 with
  | None => raise ErrInvalidDeviceFlow
  | Some userCode =>
    deny! negb (validDeviceApprovalPrincipal principal) with ErrInvalidDeviceFlow ;;
    call (on_devices (DeviceAuth.Deny (HashUserCode userCode)))
  end.

(** ** device_poll.go *)

Definition familyID : R string :=
  let* bytes := read_full browserFamilyIDBytes in
  match bytes with
  | None => raise (ErrText "generate token family id")
  | Some buf => done ("fam_" +:+ RawURLEncoding_EncodeToString buf)
  end.

(** The request of a redemption, before the browser class changes it. *)
Definition redeem_request (record : DeviceAuthorization) (clientID resource : string) (scopes : list string)
    (expiresAt : time) : CreateCredentialRequest :=
  CreateRequest (da_AuthorizedOrgID record) deviceAuthorizationCredentialName (da_AuthorizedRepositoryScopes record)
    scopes (da_ApprovingSubject record) (Some expiresAt) "" "" resource clientID "" "" None.

Definition browser_request (record : DeviceAuthorization) (clientID resource : string) (scopes : list string)
    (expiresAt : time) (family : string) (familyExpiresAt : time) : CreateCredentialRequest :=
  CreateRequest (da_AuthorizedOrgID record) browserCredentialName (da_AuthorizedRepositoryScopes record)
    scopes (da_ApprovingSubject record) (Some expiresAt) "" "" resource clientID ClientClassBrowser family
    (Some familyExpiresAt).

(** [scopes = None] is nil. *)
Definition redeemAs sv (record : DeviceAuthorization) (clientID resource : string) (scopes : option (list string))
    (ackable browser : bool) : R IssuedCredential :=
  let scopes := default [ScopeContextRead; ScopeEvidenceRead] scopes in
  let* now := call now in
  let* request :=
    (if browser then
       deny! isEmpty (da_ApprovingSessionID record) with ErrBrowserSessionRequired ;;
       let* family := familyID in
       done (browser_request record clientID resource scopes (time_Add now BrowserCredentialLifetime) family
               (time_Add now BrowserFamilyLifetime))
     else done (redeem_request record clientID resource scopes (time_Add now DeviceCredentialLifetime))) in
  let* prepared := call (on_creds (PrepareCreate sv request)) in
  let storeRedeem := if ackable then RedeemAckable else Redeem in
  let* redeemed := try (call (on_devices (storeRedeem (da_DeviceCodeHash record) (StorageInput prepared)))) in
  match redeemed with
  | inl e => raise (mapDeviceRedemptionStoreError e)
  | inr credential => Return (Complete_ prepared credential)
  end.

Definition redeem sv (record : DeviceAuthorization) (clientID resource : string) (scopes : option (list string))
    (ackable : bool) : R IssuedCredential :=
  redeemAs sv record clientID resource scopes ackable false.

Definition Poll lookup sv (deviceCode0 : string) : R IssuedCredential :=
  let* _ := ready in
  match NormalizeDeviceCode deviceCode0 with
  | None => raise (newDevicePollError DevicePollInvalidGrant 0)
  | Some deviceCode =>
    let hash := HashDeviceCode deviceCode in
    let* polled := try (call (on_devices (DeviceAuth.Poll hash))) in
    match polled with
    | inl e => raise (mapDevicePollStoreError e)
    | inr record =>
      let* found := try (GetDeviceGrant lookup hash) in
      match found with
      | inr _ => raise ErrOAuthDeviceGrantConflict
      | inl ErrNotFound =>
        match da_State record with
        | DevicePending => raise (newDevicePollError DevicePollAuthorizationPending 0)
        | DeviceDenied => raise (newDevicePollError DevicePollAccessDenied 0)
        | DeviceExpired => raise (newDevicePollError DevicePollExpiredToken 0)
        | DeviceApproved => redeem sv record "" "" None true
        | DeviceRedeemed =>
          if CredentialUnacknowledged record then redeem sv record "" "" None true
          else raise (newDevicePollError DevicePollInvalidGrant 0)
        end
      | inl _ => raise ErrOAuthDeviceGrantLookupUnavailable
      end
    end
  end.

(** [order] is the order in which the store's map yields its keys. *)
Definition AcknowledgeCredential (order : list DeviceCodeHash) principal (credentialID : string) : R time :=
  let* _ := ready in
  deny! negb (bool_decide (pr_AuthenticationMethod principal = AuthenticationMethodCredential))
        || isEmpty (pr_CredentialID principal)
        || (negb (isEmpty credentialID) && negb (bool_decide (pr_CredentialID principal = credentialID)))
    with ErrDeviceCredentialAckRejected ;;
  let* acked := try (call (on_devices
    (DeviceAuth.AcknowledgeCredential order (pr_OrgID principal) (pr_CredentialID principal)))) in
  match acked with
  | inr ackedAt => done ackedAt
  | inl e =>
    if is_not_found e then raise ErrDeviceCredentialAckRejected
    else if is_device_kind DeviceErrorConflict e then raise ErrDeviceCredentialAckWindowClosed
    else raise e
  end.

(** ** device_oauth.go *)

Definition no_hints (device : DeviceCodeHash) (user : UserCodeHash) : DeviceAuthorizationCreateInput :=
  DeviceCreate device user "" [].

Definition StartForOAuth : R OAuthDeviceAuthorization :=
  let* _ := ready in
  start_loop maxDeviceCodeAttempts no_hints
    (λ _ _ record, OAuthAuthorizationStarted (da_DeviceCodeHash record) (da_ExpiresAt record)).

(** The errors that mean a device authorization is gone. *)
Definition is_gone (e : gerr) : bool :=
  is_not_found e || is_device_kind DeviceErrorExpired e || bool_decide (e = ErrNotFound).

Definition StateForOAuth (hash : DeviceCodeHash) : R OAuthDeviceState :=
  let* _ := ready in
  let* found := try (call (on_devices (GetByDeviceCodeHash hash))) in
  match found with
  | inl e => if is_gone e then done OAuthDeviceStateExpired else raise e
  | inr record =>
    let* expired :=
      (if Terminal (da_State record) then done false
       else let* now := call now in done (negb (time_After (da_ExpiresAt record) now))) in
    if expired : bool then done OAuthDeviceStateExpired
    else
      match da_State record with
      | DevicePending => done OAuthDeviceStatePending
      | DeviceApproved => done OAuthDeviceStateApproved
      | DeviceDenied => done OAuthDeviceStateDenied
      | DeviceRedeemed => done OAuthDeviceStateRedeemed
      | DeviceExpired => done OAuthDeviceStateExpired
      end
  end.

Definition ApproveForOAuth principal (hash : DeviceCodeHash) (repositoryScopes scopes : list string) : R () :=
  let* _ := ready in
  let* record := call (on_devices (GetByDeviceCodeHash hash)) in
  if bool_decide (da_State record = DeviceApproved) then
    if sameOAuthApproval record principal repositoryScopes && bool_decide (da_AuthorizedScopes record = scopes)
    then done ()
    else raise (NewDeviceAuthorizationError DeviceErrorConflict (da_State record) 0)
  else
    let* _ := approveUserCodeHash principal (da_UserCodeHash record) repositoryScopes scopes in
    done ().

Definition DenyForOAuth principal (hash : DeviceCodeHash) : R () :=
  let* _ := ready in
  deny! negb (validDeviceApprovalPrincipal principal) with ErrInvalidDeviceFlow ;;
  let* record := call (on_devices (GetByDeviceCodeHash hash)) in
  let* _ := call (on_devices (DeviceAuth.Deny (da_UserCodeHash record))) in
  done ().

Definition redeemForResource sv (hash : DeviceCodeHash) (clientID resource : string) (scopes : list string)
    (browser : bool) : R IssuedCredential :=
  let* _ := ready in
  deny! isEmpty clientID || isEmpty resource || negb (ValidOAuthResource resource) || bool_decide (scopes = [])
    with ErrInvalidDeviceFlow ;;
  let* found := try (call (on_devices (GetByDeviceCodeHash hash))) in
  match found with
  | inl e => if is_gone e then raise ErrOAuthDeviceNotApproved else raise e
  | inr record =>
    deny! negb (bool_decide (da_State record = DeviceApproved)) with ErrOAuthDeviceNotApproved ;;
    let* now := call now in
    deny! negb (time_After (da_ExpiresAt record) now) with ErrOAuthDeviceNotApproved ;;
    let* issued := try (redeemAs sv record clientID resource (Some scopes) false browser) in
    match issued with
    | inl e => raise (if is_poll_error e then ErrOAuthDeviceNotApproved else e)
    | inr issued => done issued
    end
  end.

Definition RedeemForResource sv hash clientID resource scopes : R IssuedCredential :=
  redeemForResource sv hash clientID resource scopes false.
Definition RedeemBrowserForResource sv hash clientID resource scopes : R IssuedCredential :=
  redeemForResource sv hash clientID resource scopes true.

Definition StartDeviceGrant : R OAuthDeviceGrantStart :=
  let* _ := ready in
  start_loop maxDeviceCodeAttempts no_hints
    (λ deviceCode userCode record, GrantStart deviceCode userCode (da_DeviceCodeHash record) (da_ExpiresAt record)
       DeviceAuthorizationPollInterval).

Definition PollDeviceGrant sv (hash : DeviceCodeHash) (clientID resource : string) (scopes : list string)
    : R IssuedCredential :=
  let* _ := ready in
  deny! isEmpty clientID || isEmpty resource || negb (ValidOAuthResource resource) || bool_decide (scopes = [])
    with ErrInvalidDeviceFlow ;;
  let* polled := try (call (on_devices (DeviceAuth.Poll hash))) in
  match polled with
  | inl e => raise (mapDevicePollStoreError e)
  | inr record =>
    match da_State record with
    | DevicePending => raise (newDevicePollError DevicePollAuthorizationPending 0)
    | DeviceApproved => redeem sv record clientID resource (Some scopes) false
    | DeviceDenied => raise (newDevicePollError DevicePollAccessDenied 0)
    | DeviceExpired => raise (newDevicePollError DevicePollExpiredToken 0)
    | DeviceRedeemed => raise (newDevicePollError DevicePollInvalidGrant 0)
    end
  end.
End flow.
End DeviceFlow.
