(* ===== verification/RefreshGrant.v ===== *)
(** * RefreshGrant: the refresh grant of the browser class

    internal/auth/browser_refresh.go, and of the Go library crypto/hmac with
    SHA-256.  A rotation derives both successor tokens from the presented
    token and a random seed; the store keeps the seed and the hashes, so a
    retry inside the grace window derives the same two tokens again and a
    reader of the store learns none. *)

From Stdlib Require Import ZArith Lia Ascii.
From stdpp Require Import sorting pretty numbers gmap strings list_numbers list.
From S2P Require Import Prelude GoStrings Sha256 CredTypes Validation Tokens Lifecycle AuthService BrowserRefresh DeviceAuth OAuth Requests LoginWorld DeviceFlow.

Open Scope Z_scope.

(** ** crypto/hmac *)

Definition sha256_BlockSize : nat := 64.

(** The key, hashed when it is longer than a block, filled up with zeros. *)
Definition hmac_key (key : list Z) : list Z :=
  let key := if (sha256_BlockSize <? length key)%nat then sha256_Sum256 key else key in
  key ++ replicate (sha256_BlockSize - length key) 0.

(** [hmac.New(sha256.New, key)], [Write(message)], [Sum(nil)] *)
Definition hmac_sha256 (key message : list Z) : list Z :=
  let k := hmac_key key in
  sha256_Sum256 (map (Z.lxor 92) k ++ sha256_Sum256 (map (Z.lxor 54) k ++ message)).

(** ** Tokens *)

Definition RefreshTokenPrefix : string := "acrrt_".
Definition BrowserRefreshGrace : duration := 30 * Second.
Definition refreshTokenBytes : nat := 32.
Definition refreshSeedBytes : nat := 32.
Definition browserRefreshActor : string := "oauth_refresh_grant".

(** [base64.RawURLEncoding.EncodedLen] *)
Definition RawURLEncoding_EncodedLen (n : Z) : Z := (n * 8 + 5) / 6.

Definition ValidRefreshTokenShape (token : string) : bool :=
  match strings_CutPrefix token RefreshTokenPrefix with
  | None => false
  | Some secret =>
    if negb (slen secret =? RawURLEncoding_EncodedLen (Z.of_nat refreshTokenBytes)) then false
    else match RawURLEncoding_DecodeString secret with Some _ => true | None => false end
  end.

Definition HashRefreshToken (token : string) : string := HashToken token.

(** The closure [mac] of [deriveRefreshSuccessor]. *)
Definition refresh_mac (presented : string) (seed : list Z) (label : string) : list Z :=
  hmac_sha256 (bytes_of presented) (bytes_of ("acr-browser-refresh/v1/" +:+ label +:+ "/") ++ seed).

Definition deriveRefreshSuccessor (presented : string) (seed : list Z) : string * string :=
  (TokenPrefix +:+ RawURLEncoding_EncodeToString (refresh_mac presented seed "access"),
   RefreshTokenPrefix +:+ RawURLEncoding_EncodeToString (refresh_mac presented seed "refresh")).

(** ** The service *)

(** [Issued] is the zero value and [RefreshToken] empty unless a pair was
    issued: [None]. *)
Record BrowserRefresh := RefreshResult {
  br_Decision : BrowserRefreshDecision;
  br_Pair : option (IssuedCredential * string);
}.

(** The zero value of a credential: what an outcome without one carries. *)
Definition zero_credential : ClientCredential :=
  Credential "" "" "" "" "" [] [] 0 None None None None "" (Provenance "" "" "" "" "" None).

Module RefreshGrant.
Section grant.
Context `{UnicodeTables} {Cs : Type} `{Backend Cs}.
Abbreviation R := (request (World Cs) reply).

Definition Start (issued : IssuedCredential) : R string :=
  let provenance := cc_Provenance (ic_Credential issued) in
  match pv_FamilyExpiresAt provenance with
  | None => raise (ErrInvalidCredential "not a browser credential")
  | Some familyExpiresAt =>
    deny! negb (bool_decide (pv_ClientClass provenance = ClientClassBrowser)) || isEmpty (pv_FamilyID provenance)
      with ErrInvalidCredential "not a browser credential" ;;
    let* secret := read_full refreshTokenBytes in
    match secret with
    | None => raise (ErrText "generate refresh token")
    | Some bytes =>
      let token := RefreshTokenPrefix +:+ RawURLEncoding_EncodeToString bytes in
      let* _ := call (on_refresh (StartBrowserFamily
        (FamilyStart (cc_OrgID (ic_Credential issued)) (pv_FamilyID provenance) (pv_ClientID provenance)
           (cc_CredentialID (ic_Credential issued)) (HashRefreshToken token)
           (cc_CreatedAt (ic_Credential issued)) familyExpiresAt))) in
      done token
    end
  end.

(** [order] is the order in which the credential store's map yields its keys;
    [GenerateCredentialID] reads ten bytes of crypto/rand. *)
Definition Refresh (order : list string) (presented clientID : string) : R BrowserRefresh :=
  if negb (ValidRefreshTokenShape presented) || isEmpty clientID
  then done (RefreshResult BrowserRefreshUnknownToken None)
  else
    let* drawn := read_full refreshSeedBytes in
    match drawn with
    | None => raise (ErrText "generate rotation seed")
    | Some seed =>
      let* random := read_full 10 in
      let* credentialID := Return (GenerateCredentialID (λ _, random)) in
      let '(access, refresh) := deriveRefreshSuccessor presented seed in
      let* now := call now in
      let* outcome := call (on_refresh (RotateBrowserRefresh order
        (RefreshRotation (HashRefreshToken presented) clientID now BrowserRefreshGrace BrowserCredentialLifetime
           seed credentialID (HashToken access) (DisplayPrefix access) (HashRefreshToken refresh)
           browserRefreshActor))) in
      let '(access, refresh) :=
        if bool_decide (oc_Decision outcome = BrowserRefreshGraceReplay)
        then deriveRefreshSuccessor presented (oc_Seed outcome) else (access, refresh) in
      if bool_decide (oc_Decision outcome = BrowserRefreshRotated)
         || bool_decide (oc_Decision outcome = BrowserRefreshGraceReplay) then
        deny! negb (bool_decide (HashToken access = oc_SuccessorTokenHash outcome))
              || negb (bool_decide (HashRefreshToken refresh = oc_SuccessorRefreshHash outcome))
          with ErrRefreshDerivation ;;
        done (RefreshResult (oc_Decision outcome)
          (Some (Issued (default zero_credential (oc_Credential outcome)) access, refresh)))
      else done (RefreshResult (oc_Decision outcome) None)
    end.

Definition RevokeFamily (order : list string) (presented clientID : string) : R BrowserRefreshDecision :=
  if negb (ValidRefreshTokenShape presented) || isEmpty clientID then done BrowserRefreshUnknownToken
  else
    let* now := call now in
    let* outcome := call (on_refresh (RevokeBrowserFamilyByToken order (HashRefreshToken presented) clientID
                                        browserRefreshActor now)) in
    done (fo_Decision outcome).
End grant.
End RefreshGrant.
