(* ===== verification/OAuthService.v ===== *)
(** * OAuthService: registration, authorization and token exchange

    internal/auth/oauth.go and the vocabulary of internal/oauthvocab it uses:
    the OAuth 2.1 login of hosted MCP clients and of the first-party browser
    client.  Each method of OAuthService is a [request] over the stores of
    [LoginWorld]; the consent authority is the device flow ([DeviceFlow]) and
    the refresh grant is [RefreshGrant].

    A refusal that Go returns beside a value that only names the client's kind
    (for telemetry) is a pair of that kind and the error: [kinded].  A plain
    error is one beside the zero value.  A redirect URL is the arguments
    [redirectURL] builds it from ([OAuthRedirect]); the text of the URL is not
    modelled, and neither is the text of a wrapped cause. *)

From Stdlib Require Import ZArith Lia Ascii.
From stdpp Require Import sorting pretty numbers gmap strings list_numbers list.
From S2P Require Import Prelude GoStrings GoNet Sha256 CredTypes Validation Tokens Grants Lifecycle AuthService MCPHop WebAssertion BrowserRefresh DeviceAuth OAuth Requests LoginWorld DeviceFlow RefreshGrant.

Open Scope Z_scope.

(** ** oauthvocab *)

Definition OutcomePending : string := "pending".
Definition OutcomeAccessDenied : string := "access_denied".
Definition OutcomeExpired : string := "expired".
Definition OutcomeAlreadyCompleted : string := "already_completed".
Definition OutcomeInvalidRequest : string := "invalid_request".
Definition OutcomeInvalidClient : string := "invalid_client".
Definition OutcomeInvalidClientMetadata : string := "invalid_client_metadata".
Definition OutcomeInvalidRedirectURI : string := "invalid_redirect_uri".
Definition OutcomeUnsupportedResponseType : string := "unsupported_response_type".
Definition OutcomeUnsupportedGrantType : string := "unsupported_grant_type".
Definition OutcomePKCERequired : string := "pkce_required".
Definition OutcomeInvalidTarget : string := "invalid_target".
Definition OutcomeInvalidScope : string := "invalid_scope".
Definition OutcomePKCEMismatch : string := "pkce_mismatch".
Definition OutcomeRedirectMismatch : string := "redirect_mismatch".
Definition OutcomeResourceMismatch : string := "resource_mismatch".
Definition OutcomeAuthorizationPending : string := "authorization_pending".
Definition OutcomeSlowDown : string := "slow_down".
Definition OutcomeSessionRequired : string := "session_required".
Definition OutcomeImpersonating : string := "impersonating".
Definition OutcomeUnauthorizedClient : string := "unauthorized_client".
Definition OutcomeGraceReplay : string := "grace_replay".
Definition OutcomeReuseRevoked : string := "reuse_revoked".
Definition OutcomeFamilyExpired : string := "family_expired".
Definition OutcomeFamilyRevoked : string := "family_revoked".
Definition OutcomeUnsupportedTokenType : string := "unsupported_token_type".

Definition ClientRefusalNone : string := "none".
Definition ClientRefusalUnknownClient : string := "unknown_client".
Definition ClientRefusalNotHTTPS : string := "not_https".
Definition ClientRefusalUnsupportedClientID : string := "unsupported_client_id".
Definition ClientRefusalFetchFailed : string := "fetch_failed".
Definition ClientRefusalPrivateAddress : string := "private_address".
Definition ClientRefusalTooLarge : string := "too_large".
Definition ClientRefusalInvalidDocument : string := "invalid_document".
Definition ClientRefusalBadClientID : string := "bad_client_id".
Definition ClientRefusalInvalidRedirectURIs : string := "invalid_redirect_uris".
Definition ClientRefusalAuthMethodUnsupported : string := "auth_method_unsupported".
Definition ClientRefusalRedirectURIMismatch : string := "redirect_uri_mismatch".

Definition ClientRefusalVocabulary : list string :=
  [ClientRefusalNone; ClientRefusalUnknownClient; ClientRefusalNotHTTPS; ClientRefusalUnsupportedClientID;
   ClientRefusalFetchFailed; ClientRefusalPrivateAddress; ClientRefusalTooLarge; ClientRefusalInvalidDocument;
   ClientRefusalBadClientID; ClientRefusalInvalidRedirectURIs; ClientRefusalAuthMethodUnsupported;
   ClientRefusalRedirectURIMismatch].

Definition ScopeVocabulary : list string := [ScopeContextRead; ScopeEvidenceRead; ScopeDataRead].

(** ** Scopes *)

Definition OAuthScope : string := ScopeContextRead +:+ " " +:+ ScopeEvidenceRead.

Definition oauthApprovalScopes (normalizedScope : string) : list string :=
  if slices_Contains (strings_Fields normalizedScope) ScopeDataRead
  then oauthDefaultApprovalScopes ++ [ScopeDataRead] else oauthDefaultApprovalScopes.

Definition oauthScopes : list string := ScopeVocabulary.

(** [None] is [ok == false]. *)
Definition NormalizeOAuthScope (raw : string) : option string :=
  let requested := strings_Fields raw in
  if bool_decide (requested = []) then Some OAuthScope
  else if negb (forallb (slices_Contains oauthScopes) requested) then None
  else Some (strings_Join (filter (λ scope, slices_Contains requested scope = true) oauthScopes) " ").

Definition oauthHandleBytes : nat := 32.
Definition oauthCodeBytes : nat := 32.
Definition oauthVerifierMinLength : Z := 43.
Definition oauthVerifierMaxLength : Z := 128.
Definition OAuthDeviceCodeGrantType : string := "urn:ietf:params:oauth:grant-type:device_code".
Definition OAuthAuthorizationCodeTTL : duration := 2 * Minute.
Definition DevBrowserClientID : string := "https://localhost/acr/dev-browser-client".
Definition devBrowserClientName : string := "Dev Health (development)".

Definition OAuthConsentCodeInvalid : string := "invalid_request".
Definition OAuthConsentCodeExpired : string := "expired".
Definition OAuthConsentCodeCompleted : string := "already_completed".

(** ** Errors *)

(** [oauthError(code, outcome, false)] *)
Definition oauthError (code outcome : string) : gerr := ErrOAuth code outcome None None 0 "".
Definition clientError (code outcome clientRefusal : string) : gerr := ErrOAuth code outcome None None 0 clientRefusal.

Definition oauthDeviceGrantError (kind : DevicePollErrorKind) (outcome : string) (retryAfter : duration) : gerr :=
  ErrOAuth (DevicePollErrorKind_string kind) outcome None None retryAfter "".

Definition mapDevicePollOutcome (kind : DevicePollErrorKind) (retryAfter : duration) : gerr :=
  match kind with
  | DevicePollAuthorizationPending => oauthDeviceGrantError DevicePollAuthorizationPending OutcomeAuthorizationPending 0
  | DevicePollSlowDown => oauthDeviceGrantError DevicePollSlowDown OutcomeSlowDown retryAfter
  | DevicePollAccessDenied => oauthDeviceGrantError DevicePollAccessDenied OutcomeAccessDenied 0
  | DevicePollExpiredToken => oauthDeviceGrantError DevicePollExpiredToken OutcomeExpired 0
  | DevicePollInvalidGrant => oauthDeviceGrantError DevicePollInvalidGrant OutcomeInvalidGrant 0
  end.

Definition consentDecisionError (e : gerr) : gerr :=
  if bool_decide (e = ErrImpersonatedApproval) then oauthError OAuthConsentCodeInvalid OutcomeImpersonating
  else if bool_decide (e = ErrInvalidDeviceFlow) || bool_decide (e = ErrBrowserSessionRequired)
  then oauthError OAuthConsentCodeInvalid OutcomeInvalidRequest
  else if is_device_kind DeviceErrorConflict e then oauthError OAuthConsentCodeCompleted OutcomeAlreadyCompleted
  else if is_device_kind DeviceErrorExpired e || is_not_found e
  then oauthError OAuthConsentCodeExpired OutcomeExpired
  else ErrOAuthUnavailable "record consent".

(** ** Data *)

Record OAuthConfig := Config {
  cf_Issuer : string;
  cf_Resources : list string;
  cf_ClientMetadata : bool;
  cf_BrowserClients : list string;
  cf_DevBrowserRedirectURIs : list string;
  cf_BrowserRefresh : bool;
}.

Record OAuthResolvedClient := ResolvedClient {
  rc_ClientID : string;
  rc_Kind : string;
  rc_Name : string;
  rc_RedirectURIs : list string;
  rc_Browser : bool;
}.

(** [os_metadata] and [os_refresh]: whether the fetcher and the refresh service
    are set. *)
Record OAuthService := MkOAuthService {
  os_issuer : string;
  os_resources : list string;
  os_metadata : bool;
  os_browserClients : list string;
  os_devBrowser : option OAuthResolvedClient;
  os_browserResource : string;
  os_refresh : bool;
}.

Record OAuthRegistrationRequest := RegistrationRequest {
  rg_ClientName : string;
  rg_RedirectURIs : list string;
  rg_GrantTypes : list string;
  rg_ResponseTypes : list string;
  rg_TokenEndpointAuthMethod : string;
}.

Record OAuthAuthorizeRequest := AuthorizeRequest {
  az_ResponseType : string;
  az_ClientID : string;
  az_RedirectURI : string;
  az_CodeChallenge : string;
  az_CodeChallengeMethod : string;
  az_Resource : string;
  az_Scope : string;
  az_State : string;
}.

Record OAuthAuthorization := Authorization {
  au_Handle : string;
  au_ExpiresAt : time;
  au_Client : OAuthResolvedClient;
  au_Resource : string;
  au_Scope : string;
}.

Record OAuthConsentRequest := ConsentPage {
  cr_ClientName : string;
  cr_ClientKind : string;
  cr_RedirectOrigin : string;
  cr_Resource : string;
  cr_Scopes : list string;
  cr_ExpiresAt : time;
}.

Record OAuthTokenRequest := TokenRequest {
  tr_GrantType : string;
  tr_Code : string;
  tr_RedirectURI : string;
  tr_ClientID : string;
  tr_CodeVerifier : string;
  tr_Resource : string;
}.

(** The client's kind is the first half of the answer. *)
Record OAuthToken := Token {
  ot_Issued : IssuedCredential;
  ot_ExpiresIn : duration;
  ot_Scope : string;
  ot_RefreshToken : string;
  ot_Outcome : string;
}.

Record OAuthRefreshRequest := RefreshRequest {
  rf_GrantType : string;
  rf_RefreshToken : string;
  rf_ClientID : string;
}.

Record OAuthDeviceAuthorizationRequest := DeviceAuthorizationRequest {
  dr_ClientID : string;
  dr_Scope : string;
  dr_Resource : string;
}.

Record OAuthDeviceTokenRequest := DeviceTokenRequest {
  dt_GrantType : string;
  dt_DeviceCode : string;
  dt_ClientID : string;
}.

(** ** Configuration *)

Definition loopback_host (u : URL) : bool := loopback_name (url_Hostname u).

(** [url.URL.ForceQuery]: the text before the fragment ends in its only "?". *)
Definition url_ForceQuery (raw : string) : bool :=
  let u := match cut "#" (chars raw) with Some (u, _) => u | None => chars raw end in
  bool_decide (last u = Some "?"%char) && bool_decide (length (filter (λ c, c = "?"%char) u) = 1%nat).

Definition devBrowserRedirectURI (value : string) : bool :=
  if negb (ValidOAuthRedirectURI value) then false
  else
    match url_Parse value with
    | None => false
    | Some parsed =>
      if negb (bool_decide (url_Scheme parsed = "http")) || url_User parsed || negb (isEmpty (url_RawQuery parsed))
         || url_ForceQuery value || negb (isEmpty (url_Fragment parsed)) || isEmpty (url_Port parsed) then false
      else loopback_host parsed
           && negb (isEmpty (url_Path parsed)) && negb (bool_decide (url_Path parsed = "/"))
    end.

Definition https_or_loopback (u : URL) : bool :=
  if bool_decide (url_Scheme u = "https") then true
  else if bool_decide (url_Scheme u = "http") then loopback_host u else false.

Definition ValidOAuthIssuer (value : string) : bool :=
  match url_Parse value with
  | None => false
  | Some parsed =>
    if isEmpty (url_Host parsed) || url_User parsed || negb (isEmpty (url_RawQuery parsed))
       || negb (isEmpty (url_Fragment parsed))
       || (negb (isEmpty (url_Path parsed)) && negb (bool_decide (url_Path parsed = "/")))
       || strings_HasSuffix value "/" then false
    else https_or_loopback parsed
  end.

Definition ValidOAuthConsentURL (value : string) : bool :=
  if existsb (one_of ["?"; "#"]%char) (chars value) then false
  else
    match url_Parse value with
    | None => false
    | Some parsed =>
      if isEmpty (url_Host parsed) || url_User parsed || negb (isEmpty (url_RawQuery parsed))
         || url_ForceQuery value || negb (isEmpty (url_Fragment parsed))
         || isEmpty (url_Path parsed) || bool_decide (url_Path parsed = "/") then false
      else https_or_loopback parsed
    end.

(** The loops over the configured resources, browser clients and redirects. *)
Fixpoint distinct_checked (valid : string → bool) (seen l : list string) : bool :=
  match l with
  | [] => true
  | x :: l' => valid x && negb (slices_Contains seen x) && distinct_checked valid (seen ++ [x]) l'
  end.

Definition configureBrowserClients `{FoldTables} (cfg : OAuthConfig) : res (list string * option OAuthResolvedClient * string * bool) :=
  let bad := ErrInvalidOAuthConfig in
  if bool_decide (cf_BrowserClients cfg = []) && bool_decide (cf_DevBrowserRedirectURIs cfg = [])
  then Ok ([], None, "", false)
  else
    reject! negb (distinct_checked (λ clientID, cf_ClientMetadata cfg && ValidOAuthClientMetadataURL clientID
                    && negb (bool_decide (clientID = DevBrowserClientID))) [] (cf_BrowserClients cfg)) with bad ;;
    reject! negb (distinct_checked devBrowserRedirectURI [] (cf_DevBrowserRedirectURIs cfg)) with bad ;;
    let devBrowser :=
      if bool_decide (cf_DevBrowserRedirectURIs cfg = []) then None
      else Some (ResolvedClient DevBrowserClientID OAuthClientKindMetadataDocument devBrowserClientName
                   (cf_DevBrowserRedirectURIs cfg) false) in
    reject! negb (slices_Contains (cf_Resources cfg) (cf_Issuer cfg)) with bad ;;
    reject! existsb (λ resource, negb (bool_decide (resource = cf_Issuer cfg)) && SameResource resource (cf_Issuer cfg))
              (cf_Resources cfg) with bad ;;
    reject! negb (cf_BrowserRefresh cfg) with bad ;;
    Ok (cf_BrowserClients cfg, devBrowser, cf_Issuer cfg, true).

Definition NewOAuthService `{FoldTables} (cfg : OAuthConfig) : res OAuthService :=
  reject! negb (ValidOAuthIssuer (cf_Issuer cfg)) || bool_decide (cf_Resources cfg = []) with ErrInvalidOAuthConfig ;;
  reject! negb (distinct_checked ValidOAuthResource [] (cf_Resources cfg)) with ErrInvalidOAuthConfig ;;
  let? browser := configureBrowserClients cfg in
  let '(clients, devBrowser, resource, refresh) := browser in
  Ok (MkOAuthService (cf_Issuer cfg) (cf_Resources cfg) (cf_ClientMetadata cfg) clients devBrowser resource refresh).

Definition isBrowserClient (s : OAuthService) (clientID : string) : bool :=
  (bool_decide (is_Some (os_devBrowser s)) && bool_decide (clientID = DevBrowserClientID))
  || slices_Contains (os_browserClients s) clientID.

Definition BrowserClientID (s : OAuthService) (clientID : string) : option string :=
  if bool_decide (is_Some (os_devBrowser s)) && bool_decide (clientID = DevBrowserClientID)
  then Some DevBrowserClientID
  else list_find (eq clientID) (os_browserClients s) ≫= λ p, Some p.2.

Definition RefreshGrantSupported (s : OAuthService) : bool := os_refresh s.

(** ** Pure checks *)

Definition publicTokenEndpointAuth (document : OAuthClientMetadata) : bool :=
  match cm_TokenEndpointAuthMethodsSupported document with
  | Some methods => slices_Contains methods "none"
  | None => isEmpty (cm_TokenEndpointAuthMethod document)
            || bool_decide (cm_TokenEndpointAuthMethod document = "none")
  end.

Definition unresolvedClientRefusal (clientID : string) : string :=
  match url_Parse clientID with
  | None => ClientRefusalUnknownClient
  | Some parsed =>
    if bool_decide (url_Scheme parsed = "https") then ClientRefusalUnsupportedClientID
    else if negb (isEmpty (url_Scheme parsed)) && negb (isEmpty (url_Host parsed)) then ClientRefusalNotHTTPS
    else ClientRefusalUnknownClient
  end.

(** [strings.ContainsFunc(s, isControlRune)] is [hasControl] of OAuth.v. *)

(** [None] is the error. *)
Definition redirectOrigin (raw : string) : option string :=
  match url_Parse raw with
  | None => None
  | Some parsed =>
    if isEmpty (url_Scheme parsed) || isEmpty (url_Host parsed) then None
    else Some (url_Scheme parsed +:+ "://" +:+ url_Host parsed)
  end.
Definition safeRedirectOrigin (raw : string) : string := default "" (redirectOrigin raw).
Definition redirectOrigins (uris : list string) : list string := safeRedirectOrigin <$> uris.

Definition redirectURL (s : OAuthService) (redirectURI state key value : string) : OAuthRedirect :=
  Redirect redirectURI state key value (os_issuer s).

Definition validOAuthHandle (handle : string) : bool :=
  if negb (slen handle =? RawURLEncoding_EncodedLen (Z.of_nat oauthHandleBytes)) then false
  else match RawURLEncoding_DecodeString handle with Some _ => true | None => false end.

Definition refuseOtherConsentUser (request : OAuthAuthorizationRequest) (principal : Principal) : res () :=
  reject! negb (validDeviceApprovalPrincipal principal)
          || (negb (isEmpty (ar_BoundSubject request))
              && (negb (bool_decide (ar_BoundOrgID request = pr_OrgID principal))
                  || negb (bool_decide (ar_BoundSubject request = pr_Subject principal))))
    with oauthError OAuthConsentCodeInvalid OutcomeInvalidRequest ;;
  Ok ().

Definition unreserved_rune (r : Z) : bool :=
  ((65 <=? r) && (r <=? 90)) || ((97 <=? r) && (r <=? 122)) || ((48 <=? r) && (r <=? 57))
  || (r =? 45) || (r =? 46) || (r =? 95) || (r =? 126).

Definition VerifyPKCES256 (verifier challenge : string) : bool :=
  if bool_decide (slen verifier < oauthVerifierMinLength) || bool_decide (oauthVerifierMaxLength < slen verifier)
     || negb (ValidOAuthCodeChallenge challenge) then false
  else if negb (forallb unreserved_rune (runes verifier)) then false
  else bool_decide (RawURLEncoding_EncodeToString (sha256_Sum256 (bytes_of verifier)) = challenge).

(** The loop over the grant types of a registration: whether it wants an
    authorization code and a device code; [None] for an unknown one. *)
Fixpoint grant_types_loop (wantsCode wantsDevice : bool) (grants : list string) : option (bool * bool) :=
  match grants with
  | [] => Some (wantsCode, wantsDevice)
  | grant :: grants' =>
    if bool_decide (grant = "authorization_code") || bool_decide (grant = "refresh_token")
    then grant_types_loop true wantsDevice grants'
    else if bool_decide (grant = OAuthDeviceCodeGrantType) then grant_types_loop wantsCode true grants'
    else None
  end.

Section resolve.
Context `{FoldTables}.

(** [None] is [ok == false]. *)
Definition resolveResource (s : OAuthService) (requested : string) (browser : bool) : option string :=
  if browser then
    if negb (isEmpty (os_browserResource s))
       && (isEmpty requested || bool_decide (requested = os_browserResource s))
    then Some (os_browserResource s) else None
  else if bool_decide (requested = os_issuer s) then None
  else
    let resources := filter (λ r, r ≠ os_issuer s) (os_resources s) in
    if isEmpty requested then match resources with [resource] => Some resource | _ => None end
    else if ValidOAuthResource requested && existsb (λ r, SameResource r requested) resources
    then Some requested else None.
End resolve.

(** ** The service *)

Module OAuthLogin.
Section login.
Context `{UnicodeTables} `{UpperTables} `{FoldTables} {Cs : Type} `{Backend Cs}.
Abbreviation R := (request (World Cs) reply).
Implicit Types (s : OAuthService) (sv : Service) (principal : Principal).

(** A value or an error, beside the kind of the client it is for. *)
Definition kinded (A : Type) : Type := string * (gerr + A).

Definition with_kind {A} (kind : string) (m : R A) : R (kinded A) :=
  let* r := try m in done (kind, r).

Definition then_kinded {A B} (m : R (kinded A)) (f : A → R B) : R (kinded B) :=
  let* r := m in
  match r.2 with
  | inl e => done (r.1, inl e)
  | inr a => with_kind r.1 (f a)
  end.

(** Fail with another error: [return fmt.Errorf("%w: what: %w", ErrOAuthUnavailable, err)]. *)
Definition or_else {A} (m : R A) (f : gerr → gerr) : R A :=
  let* r := try m in
  match r with inl e => raise (f e) | inr a => done a end.
Definition unavailable (what : string) : gerr → gerr := λ _, ErrOAuthUnavailable what.

Definition secret (size : nat) (what : string) : R string :=
  let* drawn := read_full size in
  match drawn with
  | None => raise (ErrOAuthUnavailable what)
  | Some buf => done (RawURLEncoding_EncodeToString buf)
  end.

Definition Register s (request : OAuthRegistrationRequest) : R OAuthClient :=
  let invalid := oauthError "invalid_client_metadata" OutcomeInvalidClientMetadata in
  let badRedirect := oauthError "invalid_redirect_uri" OutcomeInvalidRedirectURI in
  deny! negb (isEmpty (rg_TokenEndpointAuthMethod request))
        && negb (bool_decide (rg_TokenEndpointAuthMethod request = "none")) with invalid ;;
  match grant_types_loop (bool_decide (rg_GrantTypes request = [])) false (rg_GrantTypes request) with
  | None => raise invalid
  | Some (wantsCode, wantsDevice) =>
    deny! negb wantsCode && negb wantsDevice with invalid ;;
    deny! negb (forallb (λ t, bool_decide (t = "code")) (rg_ResponseTypes request)) with invalid ;;
    let* drawn := read_full dynamicOAuthClientIDBytes in
    match drawn with
    | None => raise (ErrOAuthUnavailable "read random client id")
    | Some random =>
      let* now := call now in
      let client := Client (NewDynamicOAuthClientID random) (strings_TrimSpace (rg_ClientName request))
                      (rg_RedirectURIs request) now in
      deny! bool_decide (cl_RedirectURIs client = []) && wantsCode with badRedirect ;;
      deny! negb (forallb ValidOAuthRedirectURI (cl_RedirectURIs client)) with badRedirect ;;
      deny! match ValidateOAuthClient client with Ok _ => false | _ => true end with invalid ;;
      or_else (call (on_oauth (OAuth.RegisterClient client))) (unavailable "register client")
    end
  end.

Definition ResolveClient s (clientID : string) : R OAuthResolvedClient :=
  let refuseMetadata refusal := raise (clientError "invalid_client" OutcomeInvalidClientMetadata refusal) in
  match (if bool_decide (clientID = DevBrowserClientID) then os_devBrowser s else None) with
  | Some client =>
    done (ResolvedClient (rc_ClientID client) (rc_Kind client) (rc_Name client) (rc_RedirectURIs client) true)
  | None =>
    if IsDynamicOAuthClientID clientID then
      let* found := try (call (on_oauth (OAuth.GetClient clientID))) in
      match found with
      | inl ErrNotFound => raise (clientError "invalid_client" OutcomeInvalidClient ClientRefusalUnknownClient)
      | inl _ => raise (ErrOAuthUnavailable "read client")
      | inr client =>
        done (ResolvedClient (cl_ClientID client) OAuthClientKindDynamic (cl_ClientName client)
                (cl_RedirectURIs client) false)
      end
    else if os_metadata s && ValidOAuthClientMetadataURL clientID then
      let* fetched := fetch_metadata clientID in
      match fetched with
      | inl refusal =>
        match refusal with
        | Some refusal =>
          if negb (bool_decide (refusal = ClientRefusalNone)) && slices_Contains ClientRefusalVocabulary refusal
          then refuseMetadata refusal else refuseMetadata ClientRefusalFetchFailed
        | None => refuseMetadata ClientRefusalFetchFailed
        end
      | inr document =>
        if negb (bool_decide (cm_ClientID document = clientID)) then refuseMetadata ClientRefusalBadClientID
        else if bool_decide (cm_RedirectURIs document = []) then refuseMetadata ClientRefusalInvalidRedirectURIs
        else if negb (publicTokenEndpointAuth document) then refuseMetadata ClientRefusalAuthMethodUnsupported
        else if negb (forallb ValidOAuthRedirectURI (cm_RedirectURIs document))
        then refuseMetadata ClientRefusalInvalidRedirectURIs
        else
          let name := strings_TrimSpace (cm_ClientName document) in
          let name := if bool_decide (200 < slen name) || negb (utf8_ValidString name) || hasControl name
                      then "" else name in
          done (ResolvedClient clientID OAuthClientKindMetadataDocument name (cm_RedirectURIs document)
                  (isBrowserClient s clientID))
      end
    else raise (clientError "invalid_client" OutcomeInvalidClient (unresolvedClientRefusal clientID))
  end.

(** The loop that matches the presented redirect URI. *)
Definition redirect_matched (client : OAuthResolvedClient) (presented : string) : bool :=
  let allowLocalhost := bool_decide (rc_Kind client = OAuthClientKindMetadataDocument) in
  negb (isEmpty presented) &&
  existsb (λ candidate,
    if rc_Browser client then bool_decide (candidate = presented)
    else MatchOAuthRedirectURI candidate presented allowLocalhost) (rc_RedirectURIs client).

(** [errors.Is(err, storage.ErrOAuthClientGone)] after a write for a client. *)
Definition stored_or_gone {A} (m : R A) (what : string) : R A :=
  or_else m (λ e,
    if bool_decide (e = ErrOAuthClientGone)
    then clientError "invalid_client" OutcomeInvalidClient ClientRefusalUnknownClient
    else ErrOAuthUnavailable what).

Definition Authorize s (request : OAuthAuthorizeRequest) : R OAuthAuthorization :=
  let* client := ResolveClient s (az_ClientID request) in
  let redirectURI := az_RedirectURI request in
  deny! negb (redirect_matched client redirectURI)
    with ErrOAuth "invalid_request" OutcomeInvalidRedirectURI None
           (Some (redirectOrigins (rc_RedirectURIs client), safeRedirectOrigin redirectURI)) 0
           ClientRefusalRedirectURIMismatch ;;
  let refuse code outcome :=
    ErrOAuth code outcome (Some (redirectURL s redirectURI (az_State request) "error" code)) None 0 "" in
  deny! negb (bool_decide (az_ResponseType request = "code"))
    with refuse "unsupported_response_type" OutcomeUnsupportedResponseType ;;
  deny! negb (bool_decide (az_CodeChallengeMethod request = "S256"))
        || negb (ValidOAuthCodeChallenge (az_CodeChallenge request))
    with refuse "invalid_request" OutcomePKCERequired ;;
  match resolveResource s (az_Resource request) (rc_Browser client) with
  | None => raise (refuse "invalid_target" OutcomeInvalidTarget)
  | Some resource =>
    deny! bool_decide (maxOAuthStateLength < slen (az_State request))
          || bool_decide (maxOAuthScopeLength < slen (az_Scope request))
          || negb (utf8_ValidString (az_State request)) || hasControl (az_State request)
          || hasControl (az_Scope request)
      with refuse "invalid_request" OutcomeInvalidRequest ;;
    match NormalizeOAuthScope (az_Scope request) with
    | None => raise (refuse "invalid_scope" OutcomeInvalidScope)
    | Some scope =>
      let* device := or_else DeviceFlow.StartForOAuth (unavailable "start consent") in
      let* handle := secret oauthHandleBytes "generate consent handle" in
      let* now := call now in
      let* _ := stored_or_gone (call (on_oauth (OAuth.CreateAuthorizationRequest
        (AuthRequest (HashOAuthSecret handle) (od_DeviceCodeHash device) (rc_ClientID client) (rc_Kind client)
           redirectURI (az_CodeChallenge request) resource scope (az_State request) now (od_ExpiresAt device)
           None None None "" "")))) "store authorization request" in
      done (Authorization handle (od_ExpiresAt device) client resource scope)
    end
  end.

(** *** Consent *)

Definition pendingConsent (handle : string) principal (resumable : bool) : R (kinded OAuthAuthorizationRequest) :=
  let invalid := oauthError OAuthConsentCodeInvalid OutcomeInvalidRequest in
  let completed := oauthError OAuthConsentCodeCompleted OutcomeAlreadyCompleted in
  let expired := oauthError OAuthConsentCodeExpired OutcomeExpired in
  deny! negb (validOAuthHandle handle) with invalid ;;
  let* found := try (call (on_oauth (OAuth.GetAuthorizationRequest (HashOAuthSecret handle)))) in
  match found with
  | inl ErrNotFound => raise invalid
  | inl _ => raise (ErrOAuthUnavailable "read authorization request")
  | inr request =>
    let* _ := Return (refuseOtherConsentUser request principal) in
    with_kind (ar_ClientKind request)
      (deny! bool_decide (is_Some (ar_CodeHash request)) with completed ;;
       let* now := call now in
       deny! negb (time_After (ar_ExpiresAt request) now) with expired ;;
       let* state := or_else (DeviceFlow.StateForOAuth (ar_DeviceCodeHash request)) (unavailable "read consent") in
       match state with
       | OAuthDeviceStatePending => done request
       | OAuthDeviceStateApproved => if resumable then done request else raise completed
       | OAuthDeviceStateExpired => raise expired
       | OAuthDeviceStateDenied | OAuthDeviceStateRedeemed => raise completed
       end)
  end.

Definition bindConsentUser (request : OAuthAuthorizationRequest) principal : R () :=
  let invalid := oauthError OAuthConsentCodeInvalid OutcomeInvalidRequest in
  deny! negb (validDeviceApprovalPrincipal principal) with invalid ;;
  or_else (call (on_oauth (OAuth.BindAuthorizationRequestUser (ar_HandleHash request) (pr_OrgID principal)
                             (pr_Subject principal))))
    (λ e, if bool_decide (e = ErrConflict) || bool_decide (e = ErrNotFound) || bool_decide (e = ErrOrgPurged)
          then invalid else ErrOAuthUnavailable "bind consent user").

Definition ConsentRequest s (handle : string) principal : R (kinded OAuthConsentRequest) :=
  then_kinded (pendingConsent handle principal true) (λ request,
    let* _ := bindConsentUser request principal in
    let* client := or_else (ResolveClient s (ar_ClientID request)) (λ e,
      match e with
      | ErrOAuth _ _ _ _ _ refusal => clientError OAuthConsentCodeInvalid OutcomeInvalidClient refusal
      | e => e
      end) in
    match redirectOrigin (ar_RedirectURI request) with
    | None => raise (ErrOAuthUnavailable "stored redirect uri")
    | Some origin =>
      done (ConsentPage (rc_Name client) (ar_ClientKind request) origin (ar_Resource request)
              (strings_Fields (ar_Scope request)) (ar_ExpiresAt request))
    end).

Definition ApproveConsent s (handle : string) principal (repositoryScopes : list string) : R (kinded OAuthRedirect) :=
  then_kinded (pendingConsent handle principal true) (λ request,
    let* _ := bindConsentUser request principal in
    deny! pr_Impersonating principal with oauthError OAuthConsentCodeInvalid OutcomeImpersonating ;;
    deny! isBrowserClient s (ar_ClientID request) && isEmpty (pr_SessionID principal)
      with oauthError OAuthConsentCodeInvalid OutcomeSessionRequired ;;
    match NormalizeOAuthScope (ar_Scope request) with
    | None => raise (oauthError "invalid_scope" OutcomeInvalidScope)
    | Some scope =>
      let* _ := or_else (DeviceFlow.ApproveForOAuth principal (ar_DeviceCodeHash request) repositoryScopes
                           (oauthApprovalScopes scope)) consentDecisionError in
      let* code := secret oauthCodeBytes "generate authorization code" in
      let* now := call now in
      let* _ := or_else (call (on_oauth (OAuth.IssueAuthorizationCode (ar_HandleHash request) (HashOAuthSecret code)
                                           (time_Add now OAuthAuthorizationCodeTTL))))
        (λ e, if bool_decide (e = ErrConflict) || bool_decide (e = ErrNotFound)
              then oauthError OAuthConsentCodeCompleted OutcomeAlreadyCompleted
              else ErrOAuthUnavailable "issue code") in
      done (redirectURL s (ar_RedirectURI request) (ar_State request) "code" code)
    end).

Definition DenyConsent s (handle : string) principal : R (kinded OAuthRedirect) :=
  then_kinded (pendingConsent handle principal false) (λ request,
    let* _ := bindConsentUser request principal in
    let* _ := or_else (DeviceFlow.DenyForOAuth principal (ar_DeviceCodeHash request)) consentDecisionError in
    done (redirectURL s (ar_RedirectURI request) (ar_State request) "error" "access_denied")).

(** *** Tokens *)

(** [if expiresAt != nil { lifetime = expiresAt.Sub(s.now().UTC()) }] *)
Definition token_lifetime (otherwise : duration) (issued : IssuedCredential) : R duration :=
  match cc_ExpiresAt (ic_Credential issued) with
  | None => done otherwise
  | Some expiresAt => let* now := call now in done (time_Sub expiresAt now)
  end.

Definition Exchange s sv (request : OAuthTokenRequest) : R (kinded OAuthToken) :=
  deny! negb (bool_decide (tr_GrantType request = "authorization_code"))
    with oauthError "unsupported_grant_type" OutcomeUnsupportedGrantType ;;
  deny! isEmpty (tr_Code request) || bool_decide (128 < slen (tr_Code request))
    with oauthError "invalid_grant" OutcomeInvalidGrant ;;
  let* consumed := try (call (on_oauth (OAuth.ConsumeAuthorizationCode (HashOAuthSecret (tr_Code request))))) in
  match consumed with
  | inl ErrOAuthAuthorizationCodeUnavailable => raise (oauthError "invalid_grant" OutcomeInvalidGrant)
  | inl _ => raise (ErrOAuthUnavailable "consume code")
  | inr pending =>
    with_kind (ar_ClientKind pending)
      (deny! negb (bool_decide (tr_ClientID request = ar_ClientID pending))
         with oauthError "invalid_grant" OutcomeClientMismatch ;;
       deny! negb (bool_decide (tr_RedirectURI request = ar_RedirectURI pending))
         with oauthError "invalid_grant" OutcomeRedirectMismatch ;;
       deny! negb (VerifyPKCES256 (tr_CodeVerifier request) (ar_CodeChallenge pending))
         with oauthError "invalid_grant" OutcomePKCEMismatch ;;
       deny! negb (isEmpty (tr_Resource request)) && negb (bool_decide (tr_Resource request = ar_Resource pending))
         with oauthError "invalid_target" OutcomeResourceMismatch ;;
       match NormalizeOAuthScope (ar_Scope pending) with
       | None => raise (oauthError "invalid_grant" OutcomeInvalidGrant)
       | Some scope =>
         let browser := isBrowserClient s (ar_ClientID pending) in
         deny! (browser && (isEmpty (os_browserResource s)
                            || negb (bool_decide (ar_Resource pending = os_browserResource s))))
               || (negb browser && bool_decide (ar_Resource pending = os_issuer s))
           with oauthError "invalid_target" OutcomeResourceMismatch ;;
         let redeem := if browser then DeviceFlow.RedeemBrowserForResource else DeviceFlow.RedeemForResource in
         let* issued := or_else (redeem sv (ar_DeviceCodeHash pending) (ar_ClientID pending) (ar_Resource pending)
                                   (strings_Fields scope))
           (λ e, if bool_decide (e = ErrOAuthDeviceNotApproved) then oauthError "invalid_grant" OutcomeInvalidGrant
                 else if bool_decide (e = ErrBrowserSessionRequired)
                 then oauthError "invalid_grant" OutcomeSessionRequired
                 else ErrOAuthUnavailable "issue credential") in
         let* lifetime := token_lifetime DeviceCredentialLifetime issued in
         if browser then
           let* refresh := or_else (RefreshGrant.Start issued) (unavailable "start browser family") in
           done (Token issued lifetime scope refresh "")
         else done (Token issued lifetime scope "" "")
       end)
  end.

Definition Refresh s (order : list string) (request : OAuthRefreshRequest) : R (kinded OAuthToken) :=
  deny! negb (bool_decide (rf_GrantType request = "refresh_token")) || negb (os_refresh s)
    with oauthError "unsupported_grant_type" OutcomeUnsupportedGrantType ;;
  deny! negb (isBrowserClient s (rf_ClientID request))
    with oauthError "unauthorized_client" OutcomeUnauthorizedClient ;;
  with_kind OAuthClientKindMetadataDocument
    (let* result := or_else (RefreshGrant.Refresh order (rf_RefreshToken request) (rf_ClientID request))
                      (unavailable "refresh") in
     let refuse outcome := raise (oauthError "invalid_grant" outcome) in
     match br_Decision result, br_Pair result with
     | BrowserRefreshRotated, Some (issued, refresh) =>
       let* lifetime := token_lifetime BrowserCredentialLifetime issued in
       done (Token issued lifetime (strings_Join (cc_Scopes (ic_Credential issued)) " ") refresh "")
     | BrowserRefreshGraceReplay, Some (issued, refresh) =>
       let* lifetime := token_lifetime BrowserCredentialLifetime issued in
       done (Token issued lifetime (strings_Join (cc_Scopes (ic_Credential issued)) " ") refresh OutcomeGraceReplay)
     | BrowserRefreshReuseRevoked, _ => refuse OutcomeReuseRevoked
     | BrowserRefreshFamilyExpired, _ => refuse OutcomeFamilyExpired
     | BrowserRefreshFamilyRevoked, _ => refuse OutcomeFamilyRevoked
     | BrowserRefreshClientMismatch, _ => refuse OutcomeClientMismatch
     | _, _ => refuse OutcomeInvalidGrant
     end).

(** The answer is the outcome. *)
Definition RevokeRefreshToken s (order : list string) (token clientID : string) : R (kinded string) :=
  deny! negb (os_refresh s) || negb (isBrowserClient s clientID)
    with oauthError "unauthorized_client" OutcomeUnauthorizedClient ;;
  with_kind OAuthClientKindMetadataDocument
    (deny! strings_HasPrefix token TokenPrefix
       with oauthError "unsupported_token_type" OutcomeUnsupportedTokenType ;;
     let* decision := or_else (RefreshGrant.RevokeFamily order token clientID) (unavailable "revoke browser family") in
     done match decision with
          | BrowserFamilyRevokedNow => OutcomeOK
          | BrowserRefreshFamilyRevoked => OutcomeFamilyRevoked
          | BrowserRefreshClientMismatch => OutcomeClientMismatch
          | _ => OutcomeInvalidGrant
          end).

(** *** The device grant (RFC 8628) *)

Definition StartDeviceAuthorization s (request : OAuthDeviceAuthorizationRequest)
    : R (kinded DeviceAuthorizationStart) :=
  let* client := ResolveClient s (dr_ClientID request) in
  with_kind (rc_Kind client)
    (deny! rc_Browser client with oauthError "unauthorized_client" OutcomeUnauthorizedClient ;;
     deny! bool_decide (maxOAuthScopeLength < slen (dr_Scope request)) || hasControl (dr_Scope request)
       with oauthError "invalid_request" OutcomeInvalidRequest ;;
     match NormalizeOAuthScope (dr_Scope request) with
     | None => raise (oauthError "invalid_scope" OutcomeInvalidScope)
     | Some scope =>
       match resolveResource s (dr_Resource request) false with
       | None => raise (oauthError "invalid_target" OutcomeInvalidTarget)
       | Some resource =>
         let* start := or_else DeviceFlow.StartDeviceGrant (unavailable "start device grant") in
         let* now := call now in
         let* _ := stored_or_gone (call (on_oauth (OAuth.CreateDeviceGrant
           (DeviceGrant (gs_DeviceCodeHash start) (rc_ClientID client) (rc_Kind client) resource scope now
              (gs_ExpiresAt start))))) "store device grant" in
         done (AuthorizationStart (gs_DeviceCode start) (gs_UserCode start) DeviceAuthorizationTTL (gs_Interval start))
       end
     end).

Definition ExchangeDeviceCode s sv (request : OAuthDeviceTokenRequest) : R (kinded OAuthToken) :=
  let invalid := oauthError "invalid_grant" OutcomeInvalidGrant in
  deny! negb (bool_decide (dt_GrantType request = OAuthDeviceCodeGrantType))
    with oauthError "unsupported_grant_type" OutcomeUnsupportedGrantType ;;
  deny! isEmpty (dt_DeviceCode request) || bool_decide (128 < slen (dt_DeviceCode request)) with invalid ;;
  match NormalizeDeviceCode (dt_DeviceCode request) with
  | None => raise invalid
  | Some normalized =>
    let hash := HashDeviceCode normalized in
    let* found := try (call (on_oauth (OAuth.GetDeviceGrant hash))) in
    match found with
    | inl ErrNotFound => raise invalid
    | inl _ => raise (ErrOAuthUnavailable "read device grant")
    | inr grant =>
      with_kind (og_ClientKind grant)
        (deny! negb (bool_decide (dt_ClientID request = og_ClientID grant))
           with oauthError "invalid_grant" OutcomeClientMismatch ;;
         deny! isBrowserClient s (og_ClientID grant) || bool_decide (og_Resource grant = os_issuer s)
           with oauthError "unauthorized_client" OutcomeUnauthorizedClient ;;
         match NormalizeOAuthScope (og_Scope grant) with
         | None => raise invalid
         | Some scope =>
           let* issued := or_else (DeviceFlow.PollDeviceGrant sv hash (og_ClientID grant) (og_Resource grant)
                                     (strings_Fields scope))
             (λ e, match e with
                   | ErrDevicePoll kind retryAfter => mapDevicePollOutcome kind retryAfter
                   | _ => ErrOAuthUnavailable "poll device grant"
                   end) in
           let* lifetime := token_lifetime DeviceCredentialLifetime issued in
           done (Token issued lifetime scope "" "")
         end)
    end
  end.
End login.
End OAuthLogin.
