(* ===== verification/LoginSteps.v ===== *)
(** * LoginSteps: what a store call of a login leaves alone

    Most calls of the login services only move the stores forward: they keep
    each store's invariant and create neither an approval, nor an authorization
    request, nor an authorization code, nor a device grant.  [stays] says so of
    two worlds, and every call but [Approve], [CreateAuthorizationRequest],
    [IssueAuthorizationCode] and [CreateDeviceGrant] is shown to stay. *)

From Stdlib Require Import ZArith Lia Ascii.
From stdpp Require Import sorting pretty numbers gmap strings list_numbers list.
From S2P Require Import Prelude GoStrings CredTypes Validation Tokens Grants CredentialStore CredentialStoreProofs CredentialTheorems Lifecycle AuthService DeviceAuth DeviceTheorems OAuth OAuthTheorems BrowserRefresh Requests LoginWorld.

Open Scope Z_scope.

(** ** Predicates an operation keeps *)

Section preserves.
Context {S : Type} (R : S → Prop).

Lemma preserves_ret {A} (a : A) : preserves R (ret a).
Proof. apply preserves_readonly, readonly_ret. Qed.
Lemma preserves_fail {A} e : preserves R (fail e : go S A).
Proof. apply preserves_readonly, readonly_fail. Qed.
Lemma preserves_panic {A} : preserves R (panic : go S A).
Proof. apply preserves_readonly, readonly_panic. Qed.
Lemma preserves_lift {A} (r : res A) : preserves R (lift_res r).
Proof. apply preserves_readonly, readonly_lift. Qed.
Lemma preserves_ctx : preserves R ctx_check.
Proof. apply preserves_readonly, readonly_ctx. Qed.
Lemma preserves_now : preserves R now.
Proof. apply preserves_readonly, readonly_now. Qed.
Lemma preserves_get {A} (k : S → go S A) : (∀ s, R s → preserves R (k s)) → preserves R (bind get k).
Proof. intros Hk w r w' Hrun HR. rewrite bind_get in Hrun. by eapply Hk. Qed.
Lemma preserves_attempt {A} (m : go S A) : preserves R m → preserves R (attempt m).
Proof. intros Hm w r w' (r0 & Hrun & _)%attempt_inv HR. by eapply Hm. Qed.
End preserves.

Lemma preserves_zoom {S T A} (R : S → Prop) (proj : T → S) inj (m : go S A) (R' : T → Prop) :
  preserves R m → (∀ t, R' t → R (proj t)) → (∀ s t, R s → R' t → R' (inj s t)) →
  preserves R' (zoom proj inj m).
Proof.
  intros Hm Hp Hi w r w' (w1 & Hrun & ->)%zoom_inv HR. apply Hi; [|done]. eapply Hm; [exact Hrun|]. by apply Hp.
Qed.

Create HintDb preserves.
#[export] Hint Resolve preserves_ret preserves_fail preserves_panic preserves_lift preserves_ctx preserves_now
  preserves_put preserves_modify preserves_attempt : preserves.

(** Down the tree of an operation. *)
Ltac preserved :=
  repeat first
    [ progress auto with preserves
    | match goal with
      | |- preserves _ (bind get _) => apply preserves_get; intros ??
      | |- preserves _ (bind _ _) => apply preserves_bind; [auto with preserves; fail|intros ?]
      | |- preserves _ (bind (attempt _) _) => apply preserves_bind; [apply preserves_attempt|intros ?]
      | |- preserves _ (bind (match _ with _ => _ end) _) => apply preserves_bind; [|intros ?]
      | |- preserves _ (match ?x with _ => _ end) => destruct x eqn:?
      end ].

(** ** Device authorizations *)

Definition decided (r : DeviceAuthorization) : Prop := da_State r = DeviceApproved ∨ da_State r = DeviceRedeemed.

Section devices.
Context `{UnicodeTables} {Cs : Type} `{BackendLaws Cs}.
Abbreviation T := (DeviceAuthorizationStore Cs).
Implicit Types (s : T).

(** The approvals of [s] are approvals of [s0] already. *)
Definition approvals_from s0 s : Prop :=
  ∀ d r', ds_byDevice s !! d = Some r' → decided r' → ∃ r, ds_byDevice s0 !! d = Some r ∧ decided r.

Definition admitted s0 (d : DeviceCodeHash) (r' : DeviceAuthorization) : Prop :=
  decided r' → ∃ r, ds_byDevice s0 !! d = Some r ∧ decided r.

Lemma preserves_store s0 d r' : admitted s0 d r' → preserves (approvals_from s0) (store_record d r').
Proof.
  intros Hr. apply preserves_modify. intros s Hs d2 r2. cbn.
  intros [[<- <-]|[_ Hd]]%lookup_insert_Some Hdec; [by apply Hr|by eapply Hs].
Qed.

Lemma preserves_rows {A} s0 (m : go Cs A) : preserves (approvals_from s0) (DeviceAuth.on_creds m).
Proof. intros w r w' (w1 & _ & ->)%zoom_inv HR. exact HR. Qed.

Lemma preserves_locked {A} s0 d (k : DeviceAuthorization → go T A) :
  (∀ r, admitted s0 d r → preserves (approvals_from s0) (k r)) →
  preserves (approvals_from s0) (bind (deviceLocked d) k).
Proof.
  intros Hk w r w' Hrun HR.
  assert (∀ r1 w1, deviceLocked d w = (r1, w1) →
    approvals_from s0 w1.2 ∧ ∀ record, r1 = Ok record → admitted s0 d record) as Hlocked.
  { unfold deviceLocked. rewrite bind_get. intros r1 w1 Hrun1.
    destruct (ds_byDevice w.2 !! d) as [record|] eqn:Hrec; [|by injection Hrun1 as <- <-].
    apply bind_now_at in Hrun1 as [e Hrun1].
    assert (admitted s0 d record) as Ha by (intros Hdec; by eapply HR).
    assert (∀ r2 w2, (store_record d (set_state DeviceExpired record) ;;
      fail (NewDeviceAuthorizationError DeviceErrorExpired DeviceExpired 0)) (e, w.2) = (r2, w2) →
      approvals_from s0 w2.2 ∧ ∀ record, r2 = Ok record → admitted s0 d record) as Hexp.
    { intros r2 w2 Hrun2. split; [|by injection Hrun2 as <- _].
      eapply (preserves_bind (approvals_from s0)); [|intros ?; apply preserves_fail|exact Hrun2|exact HR].
      apply preserves_store. by intros []. }
    repeat case_match; try (by eapply Hexp); injection Hrun1 as <- <-; (split; [done|]); by intros ? [= <-]. }
  apply bind_res_inv in Hrun as [(record & w1 & E1 & Hrun)|[(e & -> & E1)|[-> E1]]];
    destruct (Hlocked _ _ E1) as [HR1 Hrec]; [|done..].
  eapply Hk; [|exact Hrun|done]. by apply Hrec.
Qed.

Lemma admitted_as s0 d r r' : admitted s0 d r → (decided r' → decided r) → admitted s0 d r'.
Proof. intros Hr Hd Hdec. by apply Hr, Hd. Qed.

Lemma admitted_undecided s0 d r : da_State r ≠ DeviceApproved → da_State r ≠ DeviceRedeemed → admitted s0 d r.
Proof. by intros ?? []. Qed.

Lemma preserves_user {A} s0 u (k : DeviceCodeHash → go T A) :
  (∀ d, preserves (approvals_from s0) (k d)) → preserves (approvals_from s0) (bind (user_device u) k).
Proof. intros Hk. apply preserves_bind; [|done]. unfold user_device. preserved. Qed.

Hint Resolve preserves_store preserves_rows : preserves.

Lemma create_quiet s0 input : preserves (approvals_from s0) (Create_ input).
Proof.
  unfold Create_, DeviceAuth.ready. preserved. apply preserves_bind; [apply preserves_put|auto with preserves].
  intros d r' Hd Hdec. cbn in Hd. apply lookup_insert_Some in Hd as [[<- <-]|[_ Hd]]; [by destruct Hdec|eauto].
Qed.

Lemma locked_quiet s0 h : preserves (approvals_from s0) (deviceLocked h).
Proof.
  intros w r w' Hrun HR.
  assert (preserves (approvals_from s0) (bind (deviceLocked h) ret)) as Hq.
  { apply preserves_locked. auto with preserves. }
  apply (Hq w r w'); [|done]. unfold bind. rewrite Hrun. by destruct r.
Qed.

Lemma get_device_quiet s0 h : preserves (approvals_from s0) (GetByDeviceCodeHash h).
Proof. unfold GetByDeviceCodeHash, DeviceAuth.ready. pose proof (locked_quiet s0 h). preserved. Qed.

Lemma preview_quiet s0 u : preserves (approvals_from s0) (DeviceAuth.Preview u).
Proof. unfold DeviceAuth.Preview, DeviceAuth.ready. preserved. apply preserves_user. intros d. preserved. Qed.

Lemma poll_quiet s0 h : preserves (approvals_from s0) (DeviceAuth.Poll h).
Proof.
  unfold DeviceAuth.Poll, DeviceAuth.ready. preserved. apply preserves_locked. intros record Hr.
  assert (∀ t, admitted s0 h (set_polled t record)) by (intros t; by eapply admitted_as). preserved.
Qed.

Lemma deny_quiet s0 u : preserves (approvals_from s0) (DeviceAuth.Deny u).
Proof.
  unfold DeviceAuth.Deny, DeviceAuth.ready. preserved. apply preserves_user. intros d.
  apply preserves_locked. intros record Hr.
  assert (admitted s0 d (set_state DeviceDenied record)) by by apply admitted_undecided. preserved.
Qed.

Lemma redeem_quiet s0 h input ackable : preserves (approvals_from s0) (redeem h input ackable).
Proof.
  unfold redeem, DeviceAuth.ready. preserved. apply preserves_locked. intros record Hr.
  apply preserves_bind; [auto with preserves|intros t].
  intros w r w' Hrun HR.
  apply bind_res_inv in Hrun as [(id & w1 & E1 & Hrun)|[(e & -> & E1)|[-> E1]]];
    apply redeem_replacing_spec in E1 as (Hw1 & _ & Hid); [|by rewrite Hw1..].
  assert (decided record) as Hdec.
  { destruct (Hid _ eq_refl) as [[? _]|(_ & (? & _)%AckWindowOpen_inv & _)]; [by left|by right]. }
  rewrite <-Hw1 in HR. revert Hrun HR. clear -Hr Hdec. revert w1 r w'.
  change (preserves (approvals_from s0) (bind (lift_res (redeem_input record input)) (λ issued,
    let! credential := DeviceAuth.on_creds (Lifecycle.CreateCredential issued) in
    retire_replaced id record credential ;;
    store_record h (set_redeemed t (cc_CredentialID credential) ackable record) ;;
    ret credential))).
  assert (∀ c, admitted s0 h (set_redeemed t c ackable record)) by (intros c _; by apply Hr).
  unfold retire_replaced, revokeUnackedLocked. preserved.
Qed.

Lemma ack_loop_quiet s0 org id order : preserves (approvals_from s0) (ack_loop org id order).
Proof.
  induction order as [|h order IH]; cbn [ack_loop]; [auto with preserves|].
  apply preserves_get. intros s Hs. destruct (ds_byDevice s !! h) as [record|] eqn:Hrec; [|done].
  assert (∀ t, admitted s0 h (set_acked t record)) by (intros t Hdec; by eapply Hs). preserved.
Qed.

Lemma acknowledge_quiet s0 order org id : preserves (approvals_from s0) (DeviceAuth.AcknowledgeCredential order org id).
Proof.
  unfold DeviceAuth.AcknowledgeCredential, DeviceAuth.ready.
  pose proof (ack_loop_quiet s0 org id order). preserved.
Qed.

Lemma revoke_unacknowledged_quiet s0 order limit : preserves (approvals_from s0) (RevokeUnacknowledged order limit).
Proof.
  unfold RevokeUnacknowledged, DeviceAuth.ready. preserved. generalize 0.
  induction order as [|h order IH]; intros n; cbn [revoke_loop]; [auto with preserves|].
  unfold revokeUnackedLocked. preserved.
Qed.

(** An approval is the one new thing [Approve] leaves. *)
Lemma approve_news u grant (w : env * T) r w' :
  DeviceAuth.Approve u grant w = (r, w') → device_ok w.2 →
  approvals_from w.2 w'.2 ∧ (∀ a, r ≠ Ok a) ∨
  ∃ d record t, ds_byUser w.2 !! u = Some d ∧ ds_byDevice w.2 !! d = Some record ∧
    da_State record = DevicePending ∧ r = Ok (set_approved grant t record) ∧
    ds_byDevice w'.2 = <[d := set_approved grant t record]> (ds_byDevice w.2).
Proof.
  unfold DeviceAuth.Approve, DeviceAuth.ready. intros Hrun Hok.
  assert (∀ s : T, s = w.2 → approvals_from w.2 s) as Hsame by (intros s ->; red; eauto).
  apply bind_ctx in Hrun as [(e & -> & Hw)|(e & Hrun)]; [left; by split; [apply Hsame|]|].
  rewrite bind_lift in Hrun. destruct (ValidateDeviceAuthorizationGrant grant);
    [|left; injection Hrun as <- <-; by split; [apply Hsame|]..].
  unfold user_device in Hrun. unfold bind at 1 in Hrun. rewrite bind_get in Hrun. cbn [snd] in Hrun.
  destruct (ds_byUser w.2 !! u) as [d|] eqn:Hd; [|left; injection Hrun as <- <-; by split; [apply Hsame|]].
  cbn [ret] in Hrun.
  apply bind_res_inv in Hrun as [(record & w1 & E1 & Hrun)|[(e1 & -> & E1)|[-> E1]]].
  2,3: left; split; [by eapply locked_quiet; [exact E1|apply Hsame]|done].
  apply deviceLocked_spec in E1 as (_ & _ & Hret); [|done]. destruct (Hret _ eq_refl) as (Hw & Hrec & _).
  cbn [snd] in Hw, Hrec. case_bool_decide as Hst; cbn [negb] in Hrun;
    [|left; injection Hrun as <- <-; by split; [apply Hsame|]].
  apply bind_now_at in Hrun as [e2 Hrun]. injection Hrun as <- <-. right.
  exists d, record, (clock w1.1). cbn. by rewrite Hw.
Qed.

Lemma get_device_reads h (w : env * T) record w' :
  GetByDeviceCodeHash h w = (Ok record, w') → device_ok w.2 →
  ds_byDevice w.2 !! h = Some record ∧ w'.2 = w.2.
Proof.
  unfold GetByDeviceCodeHash, DeviceAuth.ready. intros (e & _ & Hrun)%bind_ctx_Ok Hok.
  apply deviceLocked_spec in Hrun as (_ & _ & Hret); [|done]. destruct (Hret _ eq_refl) as (? & ? & _). by split.
Qed.
End devices.

(** ** Authorization requests and device grants *)

Section oauth.
Import OAuth.
Implicit Types (s : OAuthStore).

(** The requests, the codes and the device grants of [s] are [s0]'s already. *)
Definition requests_from s0 s : Prop :=
  (∀ h q', os_byHandle s !! h = Some q' →
     ∃ q, os_byHandle s0 !! h = Some q ∧ (is_Some (ar_CodeHash q') → is_Some (ar_CodeHash q))) ∧
  os_deviceGrants s = os_deviceGrants s0.

Lemma preserves_request s0 s h q' :
  requests_from s0 s →
  (∃ q, os_byHandle s !! h = Some q ∧ (is_Some (ar_CodeHash q') → is_Some (ar_CodeHash q))) →
  requests_from s0 (set_byHandle h q' s).
Proof.
  intros [Hs Hg] (q & Hq & Hc). split; [|done]. cbn. intros k x [[<- <-]|[_ Hx]]%lookup_insert_Some; [|by apply Hs].
  destruct (Hs _ _ Hq) as (q0 & ? & ?). exists q0. auto.
Qed.

Lemma register_quiet s0 c : preserves (requests_from s0) (RegisterClient c).
Proof. unfold RegisterClient, OAuth.ready. preserved. Qed.

Lemma get_client_quiet s0 id : preserves (requests_from s0) (GetClient id).
Proof. unfold GetClient, OAuth.ready. preserved. Qed.

Lemma get_request_quiet s0 h : preserves (requests_from s0) (GetAuthorizationRequest h).
Proof. unfold GetAuthorizationRequest, OAuth.ready. preserved. Qed.

Lemma get_grant_quiet s0 d : preserves (requests_from s0) (GetDeviceGrant d).
Proof. unfold GetDeviceGrant, OAuth.ready. preserved. Qed.

Lemma bind_quiet s0 h org subject : preserves (requests_from s0) (BindAuthorizationRequestUser h org subject).
Proof.
  unfold BindAuthorizationRequestUser, OAuth.ready. preserved. apply preserves_put, preserves_request; [done|eauto].
Qed.

Lemma consume_quiet s0 code : preserves (requests_from s0) (ConsumeAuthorizationCode code).
Proof.
  unfold ConsumeAuthorizationCode, OAuth.ready. preserved.
  all: apply preserves_bind; [apply preserves_put, preserves_request; [done|eauto]|auto with preserves].
Qed.

(** A creating call either leaves the store as it was or adds one row. *)
Lemma create_request_news q (w : env * OAuthStore) r w' :
  CreateAuthorizationRequest q w = (r, w') →
  w'.2 = w.2 ∨ r = Ok q ∧ os_byHandle w.2 !! ar_HandleHash q = None ∧ ar_CodeHash q = None ∧
    os_byHandle w'.2 = <[ar_HandleHash q := q]> (os_byHandle w.2) ∧ os_deviceGrants w'.2 = os_deviceGrants w.2.
Proof.
  unfold CreateAuthorizationRequest, OAuth.ready. intros Hrun.
  apply bind_ctx in Hrun as [(e & _ & Hw)|(e & Hrun)]; [by left|]. rewrite bind_lift in Hrun.
  destruct (ValidateOAuthAuthorizationRequest q) eqn:Hv; [|left; by injection Hrun as _ <-..].
  apply bind_ctx in Hrun as [(e1 & _ & Hw)|(e1 & Hrun)]; [by left|]. cbn in Hrun.
  case_bool_decide as H1; [left; by injection Hrun as _ <-|]. case_bool_decide; [left; by injection Hrun as _ <-|].
  injection Hrun as <- <-. right. cbn. split_and!; [done|by apply eq_None_not_Some| |done..].
  unfold ValidateOAuthAuthorizationRequest in Hv. apply reject_Ok in Hv as [Hx _].
  rewrite !orb_false_iff, !bool_decide_eq_false in Hx. destruct Hx as [[[_ Hx] _] _]. by apply eq_None_not_Some.
Qed.

Lemma issue_news h code ce (w : env * OAuthStore) r w' :
  IssueAuthorizationCode h code ce w = (r, w') →
  w'.2 = w.2 ∨ ∃ q, r = Ok (ar_set_code code ce q) ∧ os_byHandle w.2 !! h = Some q ∧ ar_CodeHash q = None ∧
    os_byHandle w'.2 = <[h := ar_set_code code ce q]> (os_byHandle w.2) ∧ os_deviceGrants w'.2 = os_deviceGrants w.2.
Proof.
  unfold IssueAuthorizationCode, OAuth.ready. intros Hrun.
  apply bind_ctx in Hrun as [(e & _ & Hw)|(e & Hrun)]; [by left|].
  match type of Hrun with (if ?b then _ else _) _ = _ => destruct b end; [left; by injection Hrun as _ <-|].
  apply bind_ctx in Hrun as [(e1 & _ & Hw)|(e1 & Hrun)]; [by left|]. cbn in Hrun.
  destruct (os_byHandle _ !! h) as [q|] eqn:Hq; [|left; by injection Hrun as _ <-].
  apply bind_now in Hrun as (t & e2 & Hrun). cbn in Hrun.
  destruct (negb _ || _) eqn:Eopen in Hrun; [left; by injection Hrun as _ <-|].
  apply orb_false_iff in Eopen as [_ Hnone%not_some].
  case_bool_decide; [left; by injection Hrun as _ <-|]. injection Hrun as <- <-. right. by exists q.
Qed.

Lemma create_grant_news g (w : env * OAuthStore) r w' :
  CreateDeviceGrant g w = (r, w') →
  w'.2 = w.2 ∨ r = Ok g ∧ os_byHandle w'.2 = os_byHandle w.2 ∧
    os_deviceGrants w'.2 = <[og_DeviceCodeHash g := g]> (os_deviceGrants w.2).
Proof.
  unfold CreateDeviceGrant, OAuth.ready. intros Hrun.
  apply bind_ctx in Hrun as [(e & _ & Hw)|(e & Hrun)]; [by left|]. rewrite bind_lift in Hrun.
  destruct (ValidateOAuthDeviceGrant g); [|left; by injection Hrun as _ <-..].
  apply bind_ctx in Hrun as [(e1 & _ & Hw)|(e1 & Hrun)]; [by left|]. cbn in Hrun.
  case_bool_decide; [left; by injection Hrun as _ <-|]. injection Hrun as <- <-. by right.
Qed.
End oauth.

(** ** Credentials *)

Section credentials.
Context `{UnicodeTables} {Cs : Type} `{BackendLaws Cs}.
Implicit Types (c : Cs).

Definition creds_from c0 c : Prop := be_ok c ∧ grows_to (be_view c0) (be_view c).

Lemma creds_from_refl c : be_ok c → creds_from c c.
Proof. intros Hc. split; [done|apply grows_to_refl]. Qed.

Lemma lifecycle_get_from c0 org id : preserves (creds_from c0) (Lifecycle.GetByID org id).
Proof. apply preserves_readonly. intros w r w' (Hw & _)%front_get. done. Qed.

Lemma lifecycle_list_from c0 order org : preserves (creds_from c0) (Lifecycle.List_ order org).
Proof. apply preserves_readonly. intros w r w' (Hw & _)%front_list. done. Qed.

Lemma lifecycle_create_from c0 input : preserves (creds_from c0) (Lifecycle.CreateCredential input).
Proof.
  intros w r w' Hrun [Hok Hg]. apply front_create in Hrun as (? & _ & _ & Hg' & _); [|done].
  split; [done|by eapply grows_to_trans].
Qed.

Lemma lifecycle_revoke_from c0 input : preserves (creds_from c0) (Lifecycle.RevokeCredential input).
Proof.
  intros w r w' Hrun [Hok Hg]. apply front_revoke in Hrun as (? & _ & _ & Hg' & _); [|done].
  split; [done|by eapply grows_to_trans].
Qed.

Definition families_from c0 (s : BrowserRefreshStore Cs) : Prop := creds_from c0 (bs_credentials s).

Hint Resolve lifecycle_get_from lifecycle_list_from lifecycle_create_from lifecycle_revoke_from : preserves.

Lemma on_credentials_from {A} c0 (m : go Cs A) :
  preserves (creds_from c0) m → preserves (families_from c0) (on_credentials m).
Proof. intros Hm. by eapply preserves_zoom; [exact Hm| |]. Qed.

Lemma revoke_family_from c0 order family reason actor t :
  preserves (families_from c0) (revokeFamilyLocked order family reason actor t).
Proof.
  unfold revokeFamilyLocked, revokeFamilyCredentials.
  assert (∀ org live members, preserves (creds_from c0) (revokeMembers org family actor reason live members)).
  { intros org live members. revert live.
    induction members as [|member members IH]; intros live; cbn [revokeMembers]; [auto with preserves|]. preserved. }
  assert (∀ org, preserves (families_from c0) (on_credentials
    (let! members := Lifecycle.List_ order org in revokeMembers org family actor reason 0 members))).
  { intros org. apply on_credentials_from. preserved. }
  preserved.
Qed.
Hint Resolve revoke_family_from : preserves.

Lemma family_calls_from c0 : 
  (∀ start, preserves (families_from c0) (StartBrowserFamily start)) ∧
  (∀ order rotation, preserves (families_from c0) (RotateBrowserRefresh order rotation)) ∧
  (∀ order h client actor t, preserves (families_from c0) (RevokeBrowserFamilyByToken order h client actor t)).
Proof.
  assert (∀ org id, preserves (families_from c0) (on_credentials (Lifecycle.GetByID org id))).
  { intros. by apply on_credentials_from, lifecycle_get_from. }
  assert (∀ input, preserves (families_from c0) (on_credentials (Lifecycle.CreateCredential input))).
  { intros. by apply on_credentials_from, lifecycle_create_from. }
  split_and!; intros.
  - unfold StartBrowserFamily. preserved.
  - unfold RotateBrowserRefresh, graceReplayLocked. preserved.
  - unfold RevokeBrowserFamilyByToken. preserved.
Qed.
End credentials.
