(* ===== verification/LoginCalls.v ===== *)
(** * LoginCalls: the requests that approve nothing

    The calls of LoginSteps.v on the world of a login, and the requests made of
    them: a [mild] request keeps every store's invariant, moves the stores
    forward and leaves no new approval, authorization request, code or device
    grant, whatever other requests do between its calls.  All handlers but the
    approvals, Authorize and the start of a device grant are mild. *)

From Stdlib Require Import ZArith Lia Ascii.
From stdpp Require Import sorting pretty numbers gmap strings list_numbers list.
From S2P Require Import Prelude GoStrings CredTypes Validation Tokens Grants CredentialStore CredentialStoreProofs CredentialTheorems Lifecycle AuthService WebAssertion DeviceAuth DeviceTheorems OAuth OAuthTheorems BrowserRefresh Requests LoginWorld DeviceFlow RefreshGrant OAuthService LoginSteps.

Open Scope Z_scope.

(** ** Requests made of calls that stay *)

Section world.
Context `{UnicodeTables} {Cs : Type} `{BackendLaws Cs}.
Implicit Types (w : World Cs).

Record world_ok w : Prop := {
  wo_devices : device_ok (device_view w);
  wo_oauth : oauth_ok (wd_oauth w);
}.

Record evolve w w' : Prop := {
  ev_devices : store_moves (device_view w) (device_view w');
  ev_oauth : oauth_moves (wd_oauth w) (wd_oauth w');
}.

#[global] Instance evolve_preorder : PreOrder evolve.
Proof.
  split.
  - intros w. split; [apply store_moves_refl|reflexivity].
  - intros a b c [] []. split; [by eapply store_moves_trans|by etrans].
Qed.

Record stays w w' : Prop := {
  sy_approvals : approvals_from (device_view w) (device_view w');
  sy_requests : requests_from (wd_oauth w) (wd_oauth w');
}.

Lemma approvals_refl (s : DeviceAuthorizationStore Cs) : approvals_from s s.
Proof. intros d r Hr Hd. eauto. Qed.
Lemma requests_refl s : requests_from s s.
Proof. split; [|done]. intros h q Hq. eauto. Qed.

Definition staying {A} (m : go (World Cs) A) : Prop := ∀ e w r e' w',
  m (e, w) = (r, (e', w')) → world_ok w → world_ok w' ∧ evolve w w' ∧ stays w w'.

Lemma staying_same {A} (m : go (World Cs) A) : readonly m → staying m.
Proof.
  intros Hm e w r e' w' Hrun Hok. apply Hm in Hrun. cbn in Hrun. subst w'.
  split_and!; [done|reflexivity|split; [apply approvals_refl|apply requests_refl]].
Qed.

Lemma staying_devices {A} (m : go (DeviceAuthorizationStore Cs) A) :
  (∀ v r v', m v = (r, v') → device_ok v.2 → kept v r v') → (∀ s0, preserves (approvals_from s0) m) →
  staying (on_devices m).
Proof.
  intros Hk Hq e w r e' w' Hrun [Hd Ho]. apply zoom_inv in Hrun as (w1 & Hrun & [= -> ->]).
  pose proof (Hk _ _ _ Hrun Hd) as (? & ? & _). specialize (Hq _ _ _ _ Hrun (approvals_refl _)).
  destruct w1 as [e1 []]. split_and!; (split; [done|]); [done|reflexivity|apply requests_refl].
Qed.

Lemma staying_oauth {A} (m : go OAuth.OAuthStore A) :
  (∀ v r v', m v = (r, v') → oauth_ok v.2 → oauth_kept v.2 r v'.2) → (∀ s0, preserves (requests_from s0) m) →
  staying (on_oauth m).
Proof.
  intros Hk Hq e w r e' w' Hrun [Hd Ho]. apply zoom_inv in Hrun as (w1 & Hrun & [= -> ->]).
  pose proof (Hk _ _ _ Hrun Ho) as (? & ? & _). specialize (Hq _ _ _ _ Hrun (requests_refl _)).
  split_and!; (split; [|done]); [done|apply store_moves_refl|apply approvals_refl].
Qed.

Lemma staying_set_creds w c : creds_from (wd_creds w) c → world_ok w →
  world_ok (set_creds c w) ∧ evolve w (set_creds c w) ∧ stays w (set_creds c w).
Proof.
  intros [Hok Hg] [[Hc Hu Hd Hr] Ho]. split_and!.
  - split; [by split|done].
  - split; [split; [|done]|reflexivity]. intros d r Hrec. by exists r.
  - split; [|apply requests_refl]. intros d r Hrec Hdec. by exists r.
Qed.

Lemma staying_creds {A} (m : go Cs A) : (∀ c0, preserves (creds_from c0) m) → staying (LoginWorld.on_creds m).
Proof.
  intros Hq e w r e' w' Hrun Hok. apply zoom_inv in Hrun as (w1 & Hrun & [= -> ->]).
  apply staying_set_creds; [|done]. eapply Hq; [done|]. by apply creds_from_refl, Hok.
Qed.

Lemma staying_refresh {A} (m : go (BrowserRefreshStore Cs) A) :
  (∀ c0, preserves (families_from c0) m) → staying (on_refresh m).
Proof.
  intros Hq e w r e' w' Hrun Hok. apply zoom_inv in Hrun as (w1 & Hrun & [= -> ->]).
  destruct (staying_set_creds w (bs_credentials w1.2)) as ([] & [] & []); [|done|].
  { eapply (Hq _ _ _ _ Hrun). by apply creds_from_refl, Hok. }
  by split_and!.
Qed.

Create HintDb staying.
Hint Resolve staying_same readonly_ctx readonly_now : staying.

Lemma prepare_staying sv request : staying (LoginWorld.on_creds (PrepareCreate sv request)).
Proof.
  apply staying_creds. intros c0. apply preserves_readonly. unfold PrepareCreate.
  repeat first [apply readonly_bind; [auto using readonly_lift, readonly_now|intros ?]
               |case_match|apply readonly_lift|apply readonly_fail|apply readonly_ret].
Qed.

Lemma device_calls_staying :
  (∀ input, staying (on_devices (Create_ input))) ∧
  (∀ h, staying (on_devices (GetByDeviceCodeHash h))) ∧
  (∀ u, staying (on_devices (DeviceAuth.Preview u))) ∧
  (∀ h, staying (on_devices (DeviceAuth.Poll h))) ∧
  (∀ u, staying (on_devices (DeviceAuth.Deny u))) ∧
  (∀ h input ackable, staying (on_devices (redeem h input ackable))) ∧
  (∀ order org id, staying (on_devices (DeviceAuth.AcknowledgeCredential order org id))) ∧
  (∀ order limit, staying (on_devices (RevokeUnacknowledged order limit))).
Proof.
  split_and!; intros; apply staying_devices; intros;
    eauto using create_kept, create_quiet, get_device_kept, get_device_quiet, preview_kept, preview_quiet, poll_quiet,
      deny_kept, deny_quiet, redeem_quiet, acknowledge_quiet, revoke_unacknowledged_kept, revoke_unacknowledged_quiet.
  - by eapply poll_spec.
  - by eapply redeem_spec.
  - by eapply acknowledge_spec.
Qed.

Lemma oauth_calls_staying :
  (∀ c, staying (on_oauth (OAuth.RegisterClient c))) ∧
  (∀ id, staying (on_oauth (OAuth.GetClient id))) ∧
  (∀ h, staying (on_oauth (OAuth.GetAuthorizationRequest h))) ∧
  (∀ d, staying (on_oauth (OAuth.GetDeviceGrant d))) ∧
  (∀ h org subject, staying (on_oauth (OAuth.BindAuthorizationRequestUser h org subject))) ∧
  (∀ code, staying (on_oauth (OAuth.ConsumeAuthorizationCode code))).
Proof.
  split_and!; intros; apply staying_oauth; intros;
    eauto using register_kept, register_quiet, get_client_quiet, get_request_quiet, get_grant_quiet, bind_quiet,
      consume_quiet.
  - by eapply (lookup_kept (λ s, OAuth.os_clients s !! id)).
  - by eapply (lookup_kept (λ s, OAuth.os_byHandle s !! h)).
  - by eapply (lookup_kept (λ s, OAuth.os_deviceGrants s !! d)).
  - by eapply bind_spec.
  - by eapply consume_spec.
Qed.

Lemma refresh_calls_staying :
  (∀ start, staying (on_refresh (StartBrowserFamily start))) ∧
  (∀ order rotation, staying (on_refresh (RotateBrowserRefresh order rotation))) ∧
  (∀ order h client actor t, staying (on_refresh (RevokeBrowserFamilyByToken order h client actor t))).
Proof. split_and!; intros; apply staying_refresh; intros c0; apply (family_calls_from c0). Qed.

(** A request all of whose calls stay. *)
Fixpoint mild {A} (p : request (World Cs) reply A) : Prop :=
  match p with
  | Return _ => True
  | Call m k => staying m ∧ ∀ r, mild (k r)
  | Ask q k => ∀ a, mild (k a)
  end.

Lemma mild_bind {A B} (p : request (World Cs) reply A) (f : A → request (World Cs) reply B) :
  mild p → (∀ a, mild (f a)) → mild (rbind p f).
Proof.
  intros Hp Hf. induction p as [[a|e|]|C m k IH|q k IH]; cbn in *; [auto..| |auto].
  destruct Hp as [? Hk]. auto.
Qed.

Lemma mild_try {A} (p : request (World Cs) reply A) : mild p → mild (try p).
Proof. induction p as [[a|e|]|C m k IH|q k IH]; cbn; [auto..| |auto]. intros [? Hk]. auto. Qed.

Lemma mild_call {A} (m : go (World Cs) A) : staying m → mild (call m).
Proof. by intros Hm. Qed.
End world.

Create HintDb mild.
#[export] Hint Resolve mild_bind mild_try mild_call : mild.
#[export] Hint Extern 1 (mild (Return _)) => exact I : mild.
#[export] Hint Extern 1 (mild (done _)) => exact I : mild.
#[export] Hint Extern 1 (mild (raise _)) => exact I : mild.
#[export] Hint Extern 1 (mild (read_full _)) => (intros ?; exact I) : mild.
#[export] Hint Extern 1 (mild (fetch_metadata _)) => (intros ?; exact I) : mild.
#[export] Hint Extern 1 (staying ctx_check) => (apply staying_same, readonly_ctx) : mild.
#[export] Hint Extern 1 (staying now) => (apply staying_same, readonly_now) : mild.
#[export] Hint Extern 2 (staying (on_devices _)) => (apply device_calls_staying) : mild.
#[export] Hint Extern 2 (staying (on_oauth _)) => (apply oauth_calls_staying) : mild.
#[export] Hint Extern 2 (staying (on_refresh _)) => (apply refresh_calls_staying) : mild.
#[export] Hint Extern 2 (staying (LoginWorld.on_creds _)) => (apply prepare_staying) : mild.

(** Down the tree of a request. *)
Ltac mildly :=
  repeat first
    [ progress auto with mild
    | match goal with
      | |- mild (match ?x with _ => _ end) => destruct x eqn:?
      | |- mild (rbind _ _) => apply mild_bind; [|intros ?]
      | |- mild (try _) => apply mild_try
      end ].

Section mild.
Context `{UnicodeTables} `{UpperTables} `{FoldTables} {Cs : Type} `{BackendLaws Cs}.
Import DeviceFlow.

Lemma mild_ready : mild (DeviceFlow.ready (Cs := Cs)).
Proof. unfold DeviceFlow.ready. auto with mild. Qed.

Lemma mild_lookup lookup h : mild (DeviceFlow.GetDeviceGrant (Cs := Cs) lookup h).
Proof. unfold DeviceFlow.GetDeviceGrant. mildly. Qed.

Lemma mild_start_loop {A} n input (use : string → string → DeviceAuthorization → A) :
  mild (start_loop (Cs := Cs) n input use).
Proof. induction n as [|n IH]; cbn [start_loop]; unfold nextCodes; mildly. Qed.
End mild.
#[export] Hint Resolve mild_ready mild_lookup mild_start_loop : mild.

Section mild.
Context `{UnicodeTables} `{UpperTables} `{FoldTables} {Cs : Type} `{BackendLaws Cs}.
Import DeviceFlow.
Implicit Types (principal : Principal) (sv : Service).

Lemma mild_Start hints : mild (DeviceFlow.Start (Cs := Cs) hints).
Proof. unfold DeviceFlow.Start. mildly. Qed.
Lemma mild_Preview lookup principal code : mild (DeviceFlow.Preview (Cs := Cs) lookup principal code).
Proof. unfold DeviceFlow.Preview, requestedScopes. mildly. Qed.
Lemma mild_Deny principal code : mild (DeviceFlow.Deny (Cs := Cs) principal code).
Proof. unfold DeviceFlow.Deny. mildly. Qed.
Lemma mild_redeemAs sv record client resource scopes ackable browser :
  mild (redeemAs (Cs := Cs) sv record client resource scopes ackable browser).
Proof. unfold redeemAs, familyID, Redeem, RedeemAckable. destruct ackable; mildly. Qed.
Hint Resolve mild_redeemAs : mild.
Lemma mild_Poll lookup sv code : mild (DeviceFlow.Poll (Cs := Cs) lookup sv code).
Proof. unfold DeviceFlow.Poll, DeviceFlow.redeem. mildly. Qed.
Lemma mild_Acknowledge order principal id : mild (DeviceFlow.AcknowledgeCredential (Cs := Cs) order principal id).
Proof. unfold DeviceFlow.AcknowledgeCredential. mildly. Qed.
Lemma mild_StateForOAuth h : mild (StateForOAuth (Cs := Cs) h).
Proof. unfold StateForOAuth. mildly. Qed.
Lemma mild_DenyForOAuth principal h : mild (DenyForOAuth (Cs := Cs) principal h).
Proof. unfold DenyForOAuth. mildly. Qed.
Lemma mild_redeemForResource sv h client resource scopes browser :
  mild (redeemForResource (Cs := Cs) sv h client resource scopes browser).
Proof. unfold redeemForResource. mildly. Qed.
Lemma mild_PollDeviceGrant sv h client resource scopes : mild (PollDeviceGrant (Cs := Cs) sv h client resource scopes).
Proof. unfold PollDeviceGrant, DeviceFlow.redeem. mildly. Qed.
Lemma mild_StartForOAuth : mild (StartForOAuth (Cs := Cs)).
Proof. unfold StartForOAuth. mildly. Qed.
Lemma mild_StartDeviceGrant : mild (StartDeviceGrant (Cs := Cs)).
Proof. unfold StartDeviceGrant. mildly. Qed.
End mild.
#[export] Hint Resolve mild_Start mild_Preview mild_Deny mild_redeemAs mild_Poll mild_Acknowledge mild_StateForOAuth
  mild_DenyForOAuth mild_redeemForResource mild_PollDeviceGrant mild_StartForOAuth mild_StartDeviceGrant : mild.

Section mild.
Context `{UnicodeTables} `{UpperTables} `{FoldTables} {Cs : Type} `{BackendLaws Cs}.
Import OAuthLogin.
Implicit Types (s : OAuthService) (sv : Service) (principal : Principal).

Lemma mild_with_kind {A} kind (m : request (World Cs) reply A) : mild m → mild (with_kind kind m).
Proof. intros Hm. unfold with_kind. mildly. Qed.
Lemma mild_or_else {A} (m : request (World Cs) reply A) f : mild m → mild (or_else m f).
Proof. intros Hm. unfold or_else. mildly. Qed.
Hint Resolve mild_with_kind mild_or_else : mild.
Lemma mild_then_kinded {A B} (m : request (World Cs) reply (kinded A)) (f : A → request (World Cs) reply B) :
  mild m → (∀ a, mild (f a)) → mild (then_kinded m f).
Proof. intros Hm Hf. unfold then_kinded. mildly. Qed.
Lemma mild_secret n what : mild (secret (Cs := Cs) n what).
Proof. unfold secret. mildly. Qed.
Lemma mild_token_lifetime d issued : mild (token_lifetime (Cs := Cs) d issued).
Proof. unfold token_lifetime. mildly. Qed.
Hint Resolve mild_then_kinded mild_secret mild_token_lifetime : mild.

Lemma mild_refresh_start issued : mild (RefreshGrant.Start (Cs := Cs) issued).
Proof. unfold RefreshGrant.Start. mildly. Qed.
Lemma mild_refresh order presented client : mild (RefreshGrant.Refresh (Cs := Cs) order presented client).
Proof. unfold RefreshGrant.Refresh. mildly. Qed.
Lemma mild_refresh_revoke order presented client : mild (RefreshGrant.RevokeFamily (Cs := Cs) order presented client).
Proof. unfold RefreshGrant.RevokeFamily. mildly. Qed.
Hint Resolve mild_refresh_start mild_refresh mild_refresh_revoke : mild.

Ltac branches := mildly; repeat (apply mild_or_else || apply mild_with_kind; mildly).

Lemma mild_Register s r : mild (Register (Cs := Cs) s r).
Proof. unfold Register. branches. Qed.
Lemma mild_ResolveClient s id : mild (ResolveClient (Cs := Cs) s id).
Proof. unfold ResolveClient. branches. Qed.
Hint Resolve mild_ResolveClient : mild.
Lemma mild_pendingConsent handle principal resumable : mild (pendingConsent (Cs := Cs) handle principal resumable).
Proof. unfold pendingConsent. branches. Qed.
Lemma mild_bindConsentUser q principal : mild (bindConsentUser (Cs := Cs) q principal).
Proof. unfold bindConsentUser. branches. Qed.
Hint Resolve mild_pendingConsent mild_bindConsentUser : mild.
Lemma mild_ConsentRequest s handle principal : mild (ConsentRequest (Cs := Cs) s handle principal).
Proof. unfold ConsentRequest. apply mild_then_kinded; [|intros q]; branches. Qed.
Lemma mild_DenyConsent s handle principal : mild (DenyConsent (Cs := Cs) s handle principal).
Proof. unfold DenyConsent. apply mild_then_kinded; [|intros q]; branches. Qed.
Lemma mild_Exchange s sv r : mild (Exchange (Cs := Cs) s sv r).
Proof.
  unfold Exchange, DeviceFlow.RedeemBrowserForResource, DeviceFlow.RedeemForResource. branches.
  case_match; auto with mild.
Qed.
Lemma mild_Refresh s order r : mild (OAuthLogin.Refresh (Cs := Cs) s order r).
Proof. unfold OAuthLogin.Refresh. branches. Qed.
Lemma mild_RevokeRefreshToken s order token id : mild (RevokeRefreshToken (Cs := Cs) s order token id).
Proof. unfold RevokeRefreshToken. branches. Qed.
Lemma mild_ExchangeDeviceCode s sv r : mild (ExchangeDeviceCode (Cs := Cs) s sv r).
Proof. unfold ExchangeDeviceCode. branches. Qed.
End mild.
#[export] Hint Resolve mild_refresh_start mild_refresh mild_refresh_revoke : mild.
#[export] Hint Resolve mild_with_kind mild_or_else mild_then_kinded mild_secret mild_token_lifetime mild_Register
  mild_ResolveClient mild_pendingConsent mild_bindConsentUser mild_ConsentRequest mild_DenyConsent mild_Exchange
  mild_Refresh mild_RevokeRefreshToken mild_ExchangeDeviceCode : mild.
