(* ===== verification/LoginInvariant.v ===== *)
(** * LoginInvariant: what a running login server keeps true

    Any number of logins run at once over one [World] (Requests.v); [login_op]
    is what may be asked of the server.  [login_inv] relates the stores to what
    was asked: every approved device authorization stems from a person who was
    asked and was not impersonated, every authorization request from a client's
    Authorize, every authorization code from a consent, and every device grant
    from a client's start. *)

From Stdlib Require Import ZArith Lia Ascii.
From stdpp Require Import sorting pretty numbers gmap strings list_numbers list.
From S2P Require Import Prelude GoStrings CredTypes Validation Tokens Grants CredentialStore CredentialStoreProofs CredentialTheorems Lifecycle AuthService WebAssertion DeviceAuth DeviceTheorems OAuth OAuthTheorems BrowserRefresh Requests LoginWorld DeviceFlow RefreshGrant OAuthService LoginSteps LoginCalls.

Open Scope Z_scope.

(** ** What may be asked, and what is answered *)

Inductive login_op :=
  | LRegister (request : OAuthRegistrationRequest)
  | LAuthorize (request : OAuthAuthorizeRequest)
  | LConsentPage (handle : string) (principal : Principal)
  | LApproveConsent (handle : string) (principal : Principal) (repositories : list string)
  | LDenyConsent (handle : string) (principal : Principal)
  | LExchange (sv : Service) (request : OAuthTokenRequest)
  | LRefresh (order : list string) (request : OAuthRefreshRequest)
  | LRevoke (order : list string) (token clientID : string)
  | LStartDeviceGrant (request : OAuthDeviceAuthorizationRequest)
  | LExchangeDeviceCode (sv : Service) (request : OAuthDeviceTokenRequest)
  | LStart (hints : DeviceAuthorizationHints)
  | LPreview (principal : Principal) (userCode : string)
  | LApprove (principal : Principal) (userCode : string) (repositories : list string)
  | LDeny (principal : Principal) (userCode : string)
  | LPoll (sv : Service) (deviceCode : string)
  | LAcknowledge (order : list DeviceCodeHash) (principal : Principal) (credentialID : string).

Inductive login_answer :=
  | AClient (client : OAuthClient)
  | AAuthorization (authorization : OAuthAuthorization)
  | AConsentPage (page : OAuthLogin.kinded OAuthConsentRequest)
  | ARedirect (redirect : OAuthLogin.kinded OAuthRedirect)
  | AToken (token : OAuthLogin.kinded OAuthToken)
  | AOutcome (outcome : OAuthLogin.kinded string)
  | ADeviceGrant (start : OAuthLogin.kinded DeviceAuthorizationStart)
  | AStarted (start : DeviceAuthorizationStart)
  | APreview (preview : DeviceApprovalPreview)
  | ADevice (record : DeviceAuthorization)
  | AIssued (issued : IssuedCredential)
  | AAcknowledged (at_ : time).

(** ** What a person consented to *)

(** The person may approve for the repositories asked, and the approval is for
    this person, these repositories and these scopes. *)
Record consented `{UnicodeTables} (principal : Principal) (asked scopes : list string)
    (g : DeviceAuthorizationGrant) : Prop := {
  co_valid : validDeviceApprovalPrincipal principal = true;
  co_person : pr_Impersonating principal = false;
  co_org : dg_OrgID g = pr_OrgID principal;
  co_subject : dg_ApprovingSubject g = pr_Subject principal;
  co_session : dg_ApprovingSessionID g = pr_SessionID principal;
  co_repositories : NormalizeRepositoryScopes asked = Ok (dg_RepositoryScopes g);
  co_scopes : dg_Scopes g = scopes;
  co_within : ∀ slug, RepositoryAllowed (dg_RepositoryScopes g) slug = true →
    RepositoryAllowed (pr_RepositoryScopes principal) slug = true;
}.

(** An approval for the person and the repositories of a consent: a consent
    that is resumed may come from another session of the same person. *)
Record same_approval `{UnicodeTables} (principal : Principal) (asked scopes : list string) (g : DeviceAuthorizationGrant)
    : Prop := {
  sa_org : dg_OrgID g = pr_OrgID principal;
  sa_subject : dg_ApprovingSubject g = pr_Subject principal;
  sa_repositories : NormalizeRepositoryScopes asked = Ok (dg_RepositoryScopes g);
  sa_scopes : dg_Scopes g = scopes;
}.

Lemma consented_same `{UnicodeTables} principal asked scopes g :
  consented principal asked scopes g → same_approval principal asked scopes g.
Proof. by intros []. Qed.

Section invariant.
Context `{UnicodeTables} `{UpperTables} `{FoldTables} {Cs : Type} `{BackendLaws Cs}.
Context (s : OAuthService).
Implicit Types (w : World Cs) (L : login_op → Prop).

Definition answer_with {A} (f : A → login_answer) (p : request (World Cs) reply A)
    : request (World Cs) reply login_answer := let* a := p in done (f a).

Definition start (op : login_op) : request (World Cs) reply login_answer :=
  match op with
  | LRegister r => answer_with AClient (OAuthLogin.Register s r)
  | LAuthorize r => answer_with AAuthorization (OAuthLogin.Authorize s r)
  | LConsentPage h p => answer_with AConsentPage (OAuthLogin.ConsentRequest s h p)
  | LApproveConsent h p repos => answer_with ARedirect (OAuthLogin.ApproveConsent s h p repos)
  | LDenyConsent h p => answer_with ARedirect (OAuthLogin.DenyConsent s h p)
  | LExchange sv r => answer_with AToken (OAuthLogin.Exchange s sv r)
  | LRefresh order r => answer_with AToken (OAuthLogin.Refresh s order r)
  | LRevoke order token id => answer_with AOutcome (OAuthLogin.RevokeRefreshToken s order token id)
  | LStartDeviceGrant r => answer_with ADeviceGrant (OAuthLogin.StartDeviceAuthorization s r)
  | LExchangeDeviceCode sv r => answer_with AToken (OAuthLogin.ExchangeDeviceCode s sv r)
  | LStart hints => answer_with AStarted (DeviceFlow.Start hints)
  | LPreview p code => answer_with APreview (DeviceFlow.Preview StoredOAuthDeviceGrants p code)
  | LApprove p code repos => answer_with ADevice (DeviceFlow.Approve p code repos)
  | LDeny p code => answer_with ADevice (DeviceFlow.Deny p code)
  | LPoll sv code => answer_with AIssued (DeviceFlow.Poll StoredOAuthDeviceGrants sv code)
  | LAcknowledge order p id => answer_with AAcknowledged (DeviceFlow.AcknowledgeCredential order p id)
  end.

(** The rest of the program: other users of the credential store, and the job
    that revokes credentials nobody acknowledged. *)
Inductive elsewhere w : World Cs → Prop :=
  | elsewhere_credentials c : creds_from (wd_creds w) c → elsewhere w (set_creds c w)
  | elsewhere_sweep order limit e r e' w' :
      on_devices (RevokeUnacknowledged order limit) (e, w) = (r, (e', w')) → elsewhere w w'.

(** ** The invariant *)

(** Who was asked to approve [r]: a person at the page for its user code, or at
    the consent page of its authorization request. *)
Definition asked_by L w (principal : Principal) (asked scopes : list string) (r : DeviceAuthorization) : Prop :=
  (∃ typed userCode, L (LApprove principal typed asked) ∧ normalizeUserCode typed = Some userCode ∧
     da_UserCodeHash r = HashUserCode userCode ∧ scopes = deviceApprovalScopes) ∨
  (∃ handle q scope, L (LApproveConsent handle principal asked) ∧
     OAuth.os_byHandle (wd_oauth w) !! HashOAuthSecret handle = Some q ∧
     ar_DeviceCodeHash q = da_DeviceCodeHash r ∧
     NormalizeOAuthScope (ar_Scope q) = Some scope ∧ scopes = oauthApprovalScopes scope).

Definition approved_by L w (r : DeviceAuthorization) : Prop :=
  ∃ principal asked scopes, consented principal asked scopes (grant_of r) ∧ asked_by L w principal asked scopes r.

(** The device authorization is settled as [principal] decided. *)
Definition settled_for w (principal : Principal) (asked scopes : list string) (d : DeviceCodeHash) : Prop :=
  ∃ r, wd_byDevice w !! d = Some r ∧ da_State r ≠ DevicePending ∧
    same_approval principal asked scopes (grant_of r).

(** Where the code of a request comes from. *)
Definition code_granted L w (h : OAuthSecretHash) (q : OAuthAuthorizationRequest) : Prop :=
  ∃ handle principal asked scope, L (LApproveConsent handle principal asked) ∧ h = HashOAuthSecret handle ∧
    validDeviceApprovalPrincipal principal = true ∧ pr_Impersonating principal = false ∧
    ar_BoundOrgID q = pr_OrgID principal ∧ ar_BoundSubject q = pr_Subject principal ∧
    NormalizeOAuthScope (ar_Scope q) = Some scope ∧
    settled_for w principal asked (oauthApprovalScopes scope) (ar_DeviceCodeHash q).

Record requested (a : OAuthAuthorizeRequest) (q : OAuthAuthorizationRequest) : Prop := {
  rq_client : ar_ClientID q = az_ClientID a;
  rq_redirect : ar_RedirectURI q = az_RedirectURI a;
  rq_challenge : ar_CodeChallenge q = az_CodeChallenge a;
  rq_scope : NormalizeOAuthScope (az_Scope a) = Some (ar_Scope q);
  rq_state : ar_State q = az_State a;
  rq_resource : ∃ browser, resolveResource s (az_Resource a) browser = Some (ar_Resource q);
}.

Record granted (d : OAuthDeviceAuthorizationRequest) (g : OAuthDeviceGrant) : Prop := {
  gr_client : og_ClientID g = dr_ClientID d;
  gr_scope : NormalizeOAuthScope (dr_Scope d) = Some (og_Scope g);
  gr_resource : resolveResource s (dr_Resource d) false = Some (og_Resource g);
}.

Record login_inv L w : Prop := {
  li_ok : world_ok w;
  li_approvals : ∀ d r, wd_byDevice w !! d = Some r → decided r → approved_by L w r;
  li_codes : ∀ h q, OAuth.os_byHandle (wd_oauth w) !! h = Some q → is_Some (ar_CodeHash q) → code_granted L w h q;
  li_requests : ∀ h q, OAuth.os_byHandle (wd_oauth w) !! h = Some q → ∃ a, L (LAuthorize a) ∧ requested a q;
  li_grants : ∀ d g, OAuth.os_deviceGrants (wd_oauth w) !! d = Some g →
    ∃ r, L (LStartDeviceGrant r) ∧ granted r g;
}.

(** *** It survives what the others do *)

Lemma decided_settled r : decided r → da_State r ≠ DevicePending.
Proof. by intros [-> | ->]. Qed.

Lemma request_stays w w' h q :
  evolve w w' → OAuth.os_byHandle (wd_oauth w) !! h = Some q →
  ∃ q', OAuth.os_byHandle (wd_oauth w') !! h = Some q' ∧ request_moves q q'.
Proof. intros [_ Ho] Hq. by apply (om_requests _ _ Ho). Qed.

Lemma device_stays w w' d r :
  evolve w w' → wd_byDevice w !! d = Some r → ∃ r', wd_byDevice w' !! d = Some r' ∧ moves r r'.
Proof. intros [Hd _] Hr. by apply (sm_records _ _ Hd). Qed.

Lemma moves_settled r r' :
  moves r r' → da_State r ≠ DevicePending → da_State r' ≠ DevicePending ∧ grant_of r' = grant_of r.
Proof.
  intros Hm Hs. split; [|by apply (mv_grant _ _ Hm)].
  pose proof (mv_state _ _ Hm) as Hb. by destruct (da_State r), (da_State r').
Qed.

Lemma pristine_parts q q' :
  pristine q' = pristine q →
  ar_HandleHash q' = ar_HandleHash q ∧ ar_DeviceCodeHash q' = ar_DeviceCodeHash q ∧ ar_ClientID q' = ar_ClientID q ∧
  ar_RedirectURI q' = ar_RedirectURI q ∧ ar_CodeChallenge q' = ar_CodeChallenge q ∧ ar_Resource q' = ar_Resource q ∧
  ar_Scope q' = ar_Scope q ∧ ar_State q' = ar_State q.
Proof. by intros [=]. Qed.

Lemma asked_by_mono L L' w w' principal asked scopes r r' :
  (∀ op, L op → L' op) → evolve w w' → da_UserCodeHash r' = da_UserCodeHash r →
  da_DeviceCodeHash r' = da_DeviceCodeHash r → asked_by L w principal asked scopes r →
  asked_by L' w' principal asked scopes r'.
Proof.
  intros HL Hev Hu Hd [(typed & code & ? & ? & ? & ?)|(handle & q & scope & ? & Hq & ? & ? & ?)].
  - left. exists typed, code. rewrite Hu. auto.
  - right. destruct (request_stays _ _ _ _ Hev Hq) as (q' & Hq' & Hm).
    pose proof (pristine_parts _ _ (qm_pristine _ _ Hm)) as (_ & ? & _ & _ & _ & _ & ? & _).
    exists handle, q', scope. split_and!; [auto|done|congruence..].
Qed.

Lemma approved_by_mono L L' w w' r r' :
  (∀ op, L op → L' op) → evolve w w' → moves r r' → decided r → approved_by L w r → approved_by L' w' r'.
Proof.
  intros HL Hev Hm Hd (principal & asked & scopes & Hc & Ha). exists principal, asked, scopes.
  destruct (moves_settled _ _ Hm (decided_settled _ Hd)) as [_ ->]. split; [done|].
  eapply asked_by_mono; [done|done|apply (mv_user _ _ Hm)|apply (mv_device _ _ Hm)|done].
Qed.

Lemma settled_for_mono w w' principal asked scopes d :
  evolve w w' → settled_for w principal asked scopes d → settled_for w' principal asked scopes d.
Proof.
  intros Hev (r & Hr & Hs & Hsa). destruct (device_stays _ _ _ _ Hev Hr) as (r' & Hr' & Hm).
  destruct (moves_settled _ _ Hm Hs) as [? Hg]. exists r'. by rewrite Hg.
Qed.

Lemma approver_subject principal : validDeviceApprovalPrincipal principal = true → pr_Subject principal ≠ "".
Proof. unfold validDeviceApprovalPrincipal. intros Hv Hs. rewrite Hs in Hv. by rewrite andb_false_r in Hv. Qed.

Lemma code_granted_mono L L' w w' h q q' :
  (∀ op, L op → L' op) → evolve w w' → request_moves q q' → code_granted L w h q → code_granted L' w' h q'.
Proof.
  intros HL Hev Hm (handle & principal & asked & scope & ? & ? & Hv & ? & ? & Hsub & ? & ?).
  pose proof (pristine_parts _ _ (qm_pristine _ _ Hm)) as (_ & Hd & _ & _ & _ & _ & Hsc & _).
  destruct (qm_bound _ _ Hm) as [? ?]; [rewrite Hsub; by apply approver_subject|].
  exists handle, principal, asked, scope. rewrite Hd, Hsc. split_and!; [auto|done|done|done|congruence|congruence|done|].
  by eapply settled_for_mono.
Qed.

Lemma requested_mono a q q' : request_moves q q' → requested a q → requested a q'.
Proof.
  intros Hm []. pose proof (pristine_parts _ _ (qm_pristine _ _ Hm)) as (_ & _ & ? & ? & ? & Hr & Hsc & ?).
  split; rewrite ?Hr, ?Hsc; congruence || done.
Qed.

Lemma stays_inv L L' w w' :
  (∀ op, L op → L' op) → login_inv L w → world_ok w' → evolve w w' → stays w w' → login_inv L' w'.
Proof.
  intros HL [Hok Ha Hc Hq Hg] Hok' Hev [Happ [Hreq Hgr]]. split; [done|..].
  - intros d r' Hr' Hd'. destruct (Happ _ _ Hr' Hd') as (r & Hr & Hd).
    destruct (device_stays _ _ _ _ Hev Hr) as (r2 & Hr2 & Hm). cbn in Hr'. simplify_eq.
    eapply approved_by_mono; eauto.
  - intros h q' Hq' Hcode. destruct (Hreq _ _ Hq') as (q & Hqq & Hcd).
    destruct (request_stays _ _ _ _ Hev Hqq) as (q2 & Hq2 & Hm). simplify_eq. eapply code_granted_mono; eauto.
  - intros h q' Hq'. destruct (Hreq _ _ Hq') as (q & Hqq & _).
    destruct (request_stays _ _ _ _ Hev Hqq) as (q2 & Hq2 & Hm). simplify_eq.
    destruct (Hq _ _ Hqq) as (a & ? & ?). exists a. split; [auto|by eapply requested_mono].
  - intros d g Hd. rewrite Hgr in Hd. destruct (Hg _ _ Hd) as (r & ? & ?). eauto.
Qed.

Lemma inv_asked L L' w : (∀ op, L op → L' op) → login_inv L w → login_inv L' w.
Proof.
  intros HL Hi. eapply stays_inv; [done|done|apply Hi|reflexivity|]. split; [apply approvals_refl|apply requests_refl].
Qed.

Lemma elsewhere_keeps L w w' : elsewhere w w' → login_inv L w → login_inv L w' ∧ evolve w w'.
Proof.
  intros He Hi. assert (world_ok w' ∧ evolve w w' ∧ stays w w') as (? & ? & ?).
  { destruct He as [c Hc|order limit e r e' w' Hrun]; [apply staying_set_creds; [done|apply Hi]|].
    assert (staying (on_devices (RevokeUnacknowledged (S := Cs) order limit))) as Hst by apply device_calls_staying.
    eapply Hst; [done|apply Hi]. }
  split; [|done]. by eapply stays_inv.
Qed.
End invariant.
