(* ===== verification/LoginConsent.v ===== *)
(** * LoginConsent: every handler keeps the invariant

    [gives p P]: alone among any other logins, [p] keeps [login_inv] and what it
    answers satisfies [P], then and for good.  The handlers that approve, start
    an authorization request, issue a code or start a device grant are shown to
    keep the invariant here; the others are mild (LoginCalls.v). *)

From Stdlib Require Import ZArith Lia Ascii.
From stdpp Require Import sorting pretty numbers gmap strings list_numbers list.
From S2P Require Import Prelude GoStrings CredTypes Validation Tokens Grants GrantTheorems CredentialStore CredentialStoreProofs CredentialTheorems Lifecycle AuthService WebAssertion DeviceAuth DeviceTheorems OAuth OAuthTheorems BrowserRefresh Requests LoginWorld DeviceFlow RefreshGrant OAuthService LoginSteps LoginCalls LoginInvariant.

Open Scope Z_scope.

(** What every answer of a request satisfies, whatever the stores say. *)
Fixpoint yields {W Q} {reply : Q → Type} {A} (p : request W reply A) (P : A → Prop) : Prop :=
  match p with
  | Return (Ok a) => P a
  | Return _ => True
  | Call m k => ∀ r, yields (k r) P
  | Ask q k => ∀ a, yields (k a) P
  end.

Section yields.
Context {W Q : Type} {reply : Q → Type}.
Implicit Types A B : Type.

Lemma yields_bind {A B} (p : request W reply A) (f : A → request W reply B) P P' :
  yields p P' → (∀ a, P' a → yields (f a) P) → yields (rbind p f) P.
Proof. intros Hp Hf. induction p as [[a|e|]|C m k IH|q k IH]; cbn in *; auto. Qed.

Lemma yields_any {A} (p : request W reply A) : yields p (λ _, True).
Proof. by induction p as [[a|e|]|C m k IH|q k IH]; cbn. Qed.

Lemma yields_after {A B} (p : request W reply A) (f : A → request W reply B) P :
  (∀ a, yields (f a) P) → yields (rbind p f) P.
Proof. intros Hf. eapply yields_bind; [apply yields_any|auto]. Qed.

Lemma yields_try {A} (p : request W reply A) (P : gerr + A → Prop) :
  yields p (λ a, P (inr a)) → (∀ e, P (inl e)) → yields (try p) P.
Proof. intros Hp He. induction p as [[a|e|]|C m k IH|q k IH]; cbn in *; auto. Qed.
End yields.

Section gives.
Context `{UnicodeTables} `{UpperTables} `{FoldTables} {Cs : Type} `{BackendLaws Cs}.
Context (s : OAuthService).
Implicit Types (w : World Cs) (L : login_op → Prop).

Abbreviation claim A := (A → (login_op → Prop) → World Cs → Prop).

(** A claim that stays true. *)
Class Lasting {A} (P : claim A) := lasting : ∀ a L L' w w',
  (∀ op, L op → L' op) → evolve w w' → login_inv s L' w' → P a L w → P a L' w'.

#[global] Instance lasting_pure {A} (P : A → Prop) : Lasting (λ a _ _, P a).
Proof. by intros a L L' w w' ??? Ha. Qed.

#[global] Instance lasting_and {A} (P P' : claim A) :
  Lasting P → Lasting P' → Lasting (λ a L w, P a L w ∧ P' a L w).
Proof. intros HP HP' a L L' w w' HL Hw Hi [??]. split; by eapply lasting. Qed.

#[global] Instance lasting_ex {A B} (P : B → claim A) :
  (∀ b, Lasting (P b)) → Lasting (λ a L w, ∃ b, P b a L w).
Proof. intros HP a L L' w w' HL Hw Hi [b Hb]. exists b. by eapply lasting. Qed.

#[global] Instance lasting_asked {A} op : Lasting (A := A) (λ _ L _, L op).
Proof. intros a L L' w w' HL _ _. apply HL. Qed.

Definition gives {A} (p : request (World Cs) reply A) (P : claim A) L w : Prop :=
  holds legal (login_inv s) evolve p (λ r L w, ∀ a, r = Ok a → P a L w) L w.

Lemma gives_done {A} (a : A) (P : claim A) `{!Lasting P} L w : P a L w → gives (done a) P L w.
Proof. intros Ha L' w' HL Hw Hi ? [= <-]. by eapply lasting. Qed.

Lemma gives_raise {A} e (P : claim A) L w : gives (raise e) P L w.
Proof. by intros L' w' HL Hw Hi a [=]. Qed.

Lemma gives_return {A} (r : res A) (P : claim A) `{!Lasting P} L w :
  (∀ a, r = Ok a → P a L w) → gives (Return r) P L w.
Proof. intros Hr L' w' HL Hw Hi a Ha. by eapply lasting, Hr. Qed.

Lemma gives_mono {A} (p : request (World Cs) reply A) (P P' : claim A) L w :
  gives p P L w → (∀ a L' w', (∀ op, L op → L' op) → evolve w w' → login_inv s L' w' → P a L' w' → P' a L' w') →
  gives p P' L w.
Proof. intros Hp HP. eapply holds_mono; [apply _|exact Hp|]. cbn. intros r L' w' HL Hi Hw Hr a Ha. auto. Qed.

Lemma gives_bind {A B} (p : request (World Cs) reply A) (f : A → request (World Cs) reply B) (P' : claim A) (P : claim B) L w :
  login_inv s L w → gives p P' L w →
  (∀ a L' w', (∀ op, L op → L' op) → evolve w w' → login_inv s L' w' → P' a L' w' → gives (f a) P L' w') →
  gives (rbind p f) P L w.
Proof.
  intros Hi Hp Hf. apply holds_bind; [apply _|done|]. eapply holds_mono; [apply _|exact Hp|]. cbn.
  intros [a|e|] L' w' HL Hi' Hw Hr; cbn.
  - apply Hf; auto.
  - by intros ??????.
  - by intros ??????.
Qed.

Lemma gives_try {A} (p : request (World Cs) reply A) (P : claim (gerr + A)) L w :
  gives p (λ a, P (inr a)) L w → (∀ e L' w', P (inl e) L' w') → gives (try p) P L w.
Proof.
  intros Hp He. apply holds_try. eapply holds_mono; [apply _|exact Hp|]. cbn.
  intros [a|e|] L' w' HL Hi' Hw Hr; cbn; intros x Hx; simplify_eq; auto.
Qed.

Lemma gives_call {A} (m : go (World Cs) A) (P : claim A) `{!Lasting P} L w :
  (∀ L' w1 e r e2 w2, (∀ op, L op → L' op) → evolve w w1 → login_inv s L' w1 → m (e, w1) = (r, (e2, w2)) →
     login_inv s L' w2 ∧ evolve w1 w2 ∧ ∀ a, r = Ok a → P a L' w2) →
  gives (call m) P L w.
Proof.
  intros Hm L' w1 HL Hw Hi e r e2 w2 Hrun. destruct (Hm _ _ _ _ _ _ HL Hw Hi Hrun) as (? & ? & Hr).
  split_and!; [done..|]. intros L2 w3 HL2 Hw3 Hi3 a Ha. eapply lasting; eauto.
Qed.

Lemma gives_staying {A} (m : go (World Cs) A) (P : claim A) `{!Lasting P} L w :
  staying m →
  (∀ L' w1 e a e2 w2, (∀ op, L op → L' op) → evolve w w1 → login_inv s L' w1 → m (e, w1) = (Ok a, (e2, w2)) →
     login_inv s L' w2 → evolve w1 w2 → P a L' w2) →
  gives (call m) P L w.
Proof.
  intros Hst HP. apply gives_call; [done|]. intros L' w1 e r e2 w2 HL Hw Hi Hrun.
  destruct (Hst _ _ _ _ _ Hrun (li_ok _ _ _ Hi)) as (? & ? & ?).
  assert (login_inv s L' w2) by by apply (stays_inv s L' L' w1 w2).
  split_and!; [done..|]. intros a ->. eapply HP; eauto.
Qed.

Lemma gives_ask {A} q (k : reply q → request (World Cs) reply A) (P : claim A) L w :
  (∀ a, legal q a → gives (k a) P L w) → gives (Ask q k) P L w.
Proof. done. Qed.

Lemma gives_mild {A} (p : request (World Cs) reply A) (P : A → Prop) L w :
  mild p → yields p P → login_inv s L w → gives p (λ a _ _, P a) L w.
Proof.
  revert L w. induction p as [r|B m k IH|q k IH]; intros L w Hp Hy Hi.
  - intros L' w' ??? a ->. exact Hy.
  - destruct Hp as [Hst Hk]. intros L' w1 HL Hw Hi1 e r e2 w2 Hrun.
    destruct (Hst _ _ _ _ _ Hrun (li_ok _ _ _ Hi1)) as (? & ? & ?).
    assert (login_inv s L' w2) by by apply (stays_inv s L' L' w1 w2). split_and!; [done..|]. apply IH; auto.
  - intros a Ha. apply IH; auto.
Qed.

Lemma gives_any {A} (p : request (World Cs) reply A) L w :
  mild p → login_inv s L w → gives p (λ _ _ _, True) L w.
Proof. intros Hp Hi. eapply gives_mono; [apply gives_mild; [done|apply yields_any|done]|done]. Qed.
End gives.

(** ** Reading a call on a part of the world *)

Section reading.
Context {Cs : Type}.
Implicit Types (w : World Cs).

Lemma on_devices_run {A} (m : go (DeviceAuthorizationStore Cs) A) e w r e' w' :
  on_devices m (e, w) = (r, (e', w')) →
  ∃ d, m (e, device_view w) = (r, (e', d)) ∧ w' = set_device_view d w.
Proof. intros ([e1 d] & Hrun & [= -> ->])%zoom_inv. by exists d. Qed.

Lemma on_oauth_run {A} (m : go OAuth.OAuthStore A) e w r e' w' :
  on_oauth m (e, w) = (r, (e', w')) → ∃ o, m (e, wd_oauth w) = (r, (e', o)) ∧ w' = set_oauth o w.
Proof. intros ([e1 o] & Hrun & [= -> ->])%zoom_inv. by exists o. Qed.
End reading.

Section approving.
Context `{UnicodeTables} `{UpperTables} `{FoldTables} {Cs : Type} `{BackendLaws Cs}.
Context (s : OAuthService).
Implicit Types (w : World Cs) (L : login_op → Prop) (principal : Principal).

(** ** An approval *)

(** The same, by user code. *)
Definition settled_user w principal (asked scopes : list string) (u : UserCodeHash) : Prop :=
  ∃ d r, wd_byDevice w !! d = Some r ∧ da_UserCodeHash r = u ∧ da_State r ≠ DevicePending ∧
    same_approval principal asked scopes (grant_of r).

#[global] Instance settled_user_lasting {A} principal asked scopes u :
  Lasting s (A := A) (λ _ _ w, settled_user w principal asked scopes u).
Proof.
  intros a L L' w w' _ Hev _ (d & r & Hr & Hu & Hs & Hsa).
  destruct (device_stays _ _ _ _ Hev Hr) as (r' & Hr' & Hm). destruct (moves_settled _ _ Hm Hs) as [? Hg].
  exists d, r'. rewrite Hg, (mv_user _ _ Hm). done.
Qed.

#[global] Instance settled_lasting {A} principal asked scopes d :
  Lasting s (A := A) (λ _ _ w, settled_for w principal asked scopes d).
Proof. intros a L L' w w' _ Hev _. by apply settled_for_mono. Qed.

Lemma principal_repositories principal repositories :
  normalizedPrincipalRepositories principal = Ok repositories → repositories = pr_RepositoryScopes principal.
Proof.
  unfold normalizedPrincipalRepositories. destruct (NormalizeRepositoryScopes _); [|done..].
  case_bool_decide as Hr; [|done]. by intros [= <-].
Qed.

(** The check of the repositories: an approval grants no more than the person has. *)
Lemma approval_within repositories principal slug :
  (if bool_decide (repositories = ["*"]) then negb (bool_decide (pr_RepositoryScopes principal = ["*"]))
   else hasRepositoryWildcard repositories
        || negb (repositoriesWithinGrant (pr_RepositoryScopes principal) repositories)) = false →
  RepositoryAllowed repositories slug = true → RepositoryAllowed (pr_RepositoryScopes principal) slug = true.
Proof.
  case_bool_decide as Hr; [by intros ->%negb_false_iff%bool_decide_eq_true; rewrite Hr|].
  intros [_ Hw%negb_false_iff%forallb_Forall]%orb_false_iff. by apply narrowed_keys.
Qed.

(** What [Approve] of the store does, made for [principal]. *)
Lemma approve_inv L w e u principal asked scopes grant r e' w' :
  login_inv s L w → on_devices (DeviceAuth.Approve u grant) (e, w) = (r, (e', w')) →
  consented principal asked scopes grant →
  (∀ d record, wd_byUser w !! u = Some d → wd_byDevice w !! d = Some record →
     asked_by L w principal asked scopes record) →
  login_inv s L w' ∧ evolve w w' ∧
  ∀ record, r = Ok record → settled_user w' principal asked scopes u.
Proof.
  intros Hi (dv & Hrun & ->)%on_devices_run Hc Hasked. pose proof (li_ok _ _ _ Hi) as [Hd Ho].
  pose proof (approve_kept _ _ _ _ _ Hrun Hd) as (Hd' & Hm & _). cbn in Hd', Hm.
  set (w' := set_device_view dv w).
  assert (device_view w' = dv) as Hview by by destruct dv.
  assert (world_ok w') as Hok' by (split; [by rewrite Hview|done]).
  assert (evolve w w') as Hev by (split; [by rewrite Hview|reflexivity]).
  apply approve_news in Hrun as [[Hq Hfail]|(d & record & t & Hu & Hrec & Hst & -> & Hrows)]; [| |done]; cbn in *.
  { split_and!; [|done|by intros ? ->; edestruct Hfail].
    eapply (stays_inv s L L w w'); [done..|]. split; [by rewrite Hview|apply requests_refl]. }
  set (approved := set_approved grant t record) in *.
  assert (grant_of approved = grant) as Hgr by by destruct grant.
  assert (wd_byDevice w' !! d = Some approved) as Hnew by (subst w'; cbn; rewrite Hrows; apply lookup_insert_eq).
  split_and!; [split|done|]; try done.
  - intros d' r'. subst w'. cbn. rewrite Hrows. intros [[<- <-]|[_ Hr']]%lookup_insert_Some Hdec.
    + exists principal, asked, scopes. rewrite Hgr. split; [done|].
      eapply (asked_by_mono L L w); [done|exact Hev|..|by eapply Hasked]; done.
    + eapply (approved_by_mono L L w); [done|exact Hev|reflexivity|done|]. by eapply li_approvals.
  - intros h q Hq Hcode. eapply (code_granted_mono L L w); [done|exact Hev|reflexivity|]. by eapply li_codes.
  - apply (li_requests _ _ _ Hi).
  - apply (li_grants _ _ _ Hi).
  - intros ? [= <-]. destruct (dk_user _ Hd _ _ Hu) as (r0 & Hr0 & Huser). cbn in Hr0.
    exists d, approved. split_and!; [done| |done|].
    + change (da_UserCodeHash record = u). congruence.
    + rewrite Hgr. by apply consented_same.
Qed.

(** ** The requests that approve *)

Lemma gives_after {A B} (p : request (World Cs) reply A) (f : A → request (World Cs) reply B) P L w :
  mild p → login_inv s L w →
  (∀ a L' w', (∀ op, L op → L' op) → evolve w w' → login_inv s L' w' → gives s (f a) P L' w') →
  gives s (rbind p f) P L w.
Proof. intros Hp Hi Hf. eapply gives_bind; [done|by apply gives_any|]. intros a L' w' ??? _. auto. Qed.

Lemma gives_deny {A} (b : bool) e (k : request (World Cs) reply A) P L w :
  (b = false → gives s k P L w) → gives s (if b then raise e else k) P L w.
Proof. destruct b; [intros _; apply gives_raise|auto]. Qed.

Lemma approve_gives L w principal u asked scopes :
  login_inv s L w →
  (∀ (L' : login_op → Prop) w' d record, (∀ op, L op → L' op) → evolve w w' → login_inv s L' w' →
     wd_byUser w' !! u = Some d → wd_byDevice w' !! d = Some record →
     asked_by L' w' principal asked scopes record) →
  gives s (DeviceFlow.approveUserCodeHash principal u asked scopes)
    (λ _ _ w', settled_user w' principal asked scopes u) L w.
Proof.
  intros Hi Hasked. unfold DeviceFlow.approveUserCodeHash.
  apply gives_deny. intros [Hv%negb_false_iff _]%orb_false_iff. apply gives_deny. intros Himp.
  destruct (NormalizeRepositoryScopes asked) as [repositories| |] eqn:Hrepo; [|apply gives_raise..].
  destruct (normalizedPrincipalRepositories principal) as [held| |] eqn:Hheld; [|apply gives_raise..].
  apply principal_repositories in Hheld as ->. apply gives_after; [auto with mild|done|].
  intros record L1 w1 HL1 Hw1 Hi1. apply gives_deny. intros _. apply gives_deny. intros Hwithin.
  apply gives_call; [apply _|]. intros L2 w2 e r e2 w3 HL2 Hw2 Hi2 Hrun.
  eapply (approve_inv L2 w2 e u principal asked scopes); [done|exact Hrun| |].
  - split; try done. intros slug. by apply approval_within.
  - intros d record' Hu Hrec. eapply Hasked; eauto. by etrans.
Qed.

Lemma Approve_gives L w principal typed asked :
  login_inv s L w → L (LApprove principal typed asked) →
  gives s (DeviceFlow.Approve principal typed asked) (λ _ _ _, True) L w.
Proof.
  intros Hi HL. unfold DeviceFlow.Approve. apply gives_after; [auto with mild|done|]. intros _ L1 w1 HL1 Hw1 Hi1.
  destruct (normalizeUserCode typed) as [userCode|] eqn:Hcode; [|apply gives_raise].
  eapply gives_mono; [apply approve_gives; [done|]|done].
  intros L2 w2 d record HL2 Hw2 Hi2 Hu Hrec. left. exists typed, userCode. split_and!; [auto|done| |done].
  destruct (dk_user _ (wo_devices _ (li_ok _ _ _ Hi2)) _ _ Hu) as (r0 & Hr0 & ?). cbn in Hr0. congruence.
Qed.

Lemma get_device_gives L w d :
  login_inv s L w →
  gives s (call (on_devices (GetByDeviceCodeHash d)))
    (λ record _ w', ∃ r', wd_byDevice w' !! d = Some r' ∧ moves record r') L w.
Proof.
  intros Hi. apply gives_staying.
  - intros a L1 L2 w1 w2 _ Hev _ (r & Hr & Hm). destruct (device_stays _ _ _ _ Hev Hr) as (r' & ? & ?).
    exists r'. split; [done|by etrans].
  - apply device_calls_staying.
  - intros L1 w1 e record e2 w2 HL1 Hw1 Hi1 (dv & Hrun & ->)%on_devices_run Hi2 Hw2.
    apply get_device_reads in Hrun as [Hrec Hsame]; [|apply Hi1]. cbn in Hsame. subst dv.
    exists record. by split.
Qed.

Lemma ApproveForOAuth_gives L w principal d asked handle q scope :
  login_inv s L w → L (LApproveConsent handle principal asked) →
  OAuth.os_byHandle (wd_oauth w) !! HashOAuthSecret handle = Some q → ar_DeviceCodeHash q = d →
  NormalizeOAuthScope (ar_Scope q) = Some scope →
  gives s (DeviceFlow.ApproveForOAuth principal d asked (oauthApprovalScopes scope))
    (λ _ _ w', validDeviceApprovalPrincipal principal = true ∧
       settled_for w' principal asked (oauthApprovalScopes scope) d) L w.
Proof.
  intros Hi HL Hq Hd Hscope. unfold DeviceFlow.ApproveForOAuth.
  apply gives_after; [auto with mild|done|]. intros _ L1 w1 HL1 Hw1 Hi1.
  eapply gives_bind; [done|by apply get_device_gives|]. intros record L2 w2 HL2 Hw2 Hi2 (r' & Hr' & Hm).
  cbv beta. case_bool_decide as Hst.
  - destruct (_ && _) eqn:Hsame; [|apply gives_raise]. apply gives_done; [apply _|].
    apply andb_true_iff in Hsame as [Hsame Hsc%bool_decide_eq_true]. unfold sameOAuthApproval in Hsame.
    apply andb_true_iff in Hsame as [Hv Hsame]. split; [done|].
    destruct (NormalizeRepositoryScopes asked) as [repositories| |] eqn:Hrepo; [|done..].
    rewrite !andb_true_iff, !bool_decide_eq_true in Hsame. destruct Hsame as [[[_ ?] ?] ?].
    destruct (moves_settled _ _ Hm) as [? Hg]; [by rewrite Hst|].
    exists r'. rewrite Hg. split_and!; [done..|]. split; cbn; congruence || done.
  - destruct (validDeviceApprovalPrincipal principal) eqn:Hv.
    2:{ unfold DeviceFlow.approveUserCodeHash. rewrite Hv. apply gives_raise. }
    eapply gives_bind; [done|apply approve_gives; [done|]|].
    + intros L3 w3 d' record' HL3 Hw3 Hi3 Hu Hrec. right.
      destruct (request_stays w w3 _ _ ltac:(by do 2 (etrans; [done|])) Hq) as (q' & Hq' & Hqm).
      pose proof (pristine_parts _ _ (qm_pristine _ _ Hqm)) as (_ & ? & _ & _ & _ & _ & ? & _).
      exists handle, q', scope. split_and!; [auto|done| |congruence|done].
      destruct (device_stays _ _ _ _ Hw3 Hr') as (r3 & Hr3 & Hm3).
      pose proof (wo_devices _ (li_ok _ _ _ Hi3)) as Hok3.
      destruct (dk_device _ Hok3 _ _ Hr3) as [? Hu3]. destruct (dk_device _ Hok3 _ _ Hrec) as [Hk _].
      rewrite (mv_user _ _ Hm3), (mv_user _ _ Hm) in Hu3. cbn in *. congruence.
    + intros _ L3 w3 HL3 Hw3 Hi3 (d' & r3 & Hr3 & Hu3 & Hs3 & Hsa3). apply gives_done; [apply _|]. split; [done|].
      destruct (device_stays _ _ _ _ Hw3 Hr') as (r4 & Hr4 & Hm4).
      pose proof (wo_devices _ (li_ok _ _ _ Hi3)) as Hok3.
      destruct (dk_device _ Hok3 _ _ Hr3) as [_ Ha]. destruct (dk_device _ Hok3 _ _ Hr4) as [_ Hb].
      rewrite (mv_user _ _ Hm4), (mv_user _ _ Hm) in Hb. assert (d' = d) as -> by congruence. by exists r3.
Qed.
End approving.

(** ** Requests for a client *)

Section consenting.
Context `{UnicodeTables} `{UpperTables} `{FoldTables} {Cs : Type} `{BackendLaws Cs}.
Context (s : OAuthService).
Implicit Types (w : World Cs) (L : login_op → Prop) (principal : Principal).
Import OAuthLogin.

Abbreviation claim A := (A → (login_op → Prop) → World Cs → Prop).

(** A claim about the value beside a kind. *)
Definition on_value {A} (P : claim A) : claim (kinded A) := λ p L w, ∀ a, p.2 = inr a → P a L w.

#[global] Instance on_value_lasting {A} (P : claim A) `{!Lasting s P} : Lasting s (on_value P).
Proof. intros p L L' w w' ??? Hp a Ha. eapply lasting; eauto. Qed.

Lemma gives_or_else {A} (m : request (World Cs) reply A) f (P : claim A) `{!Lasting s P} L w :
  login_inv s L w → gives s m P L w → gives s (or_else m f) P L w.
Proof.
  intros Hi Hm. unfold or_else. eapply (gives_bind s _ _ (λ r L w, ∀ a, r = inr a → P a L w)); [done| |].
  - apply gives_try; [|done]. eapply gives_mono; [exact Hm|]. by intros a L' w' _ _ _ Ha ? [= <-].
  - intros [e|a] L' w' _ _ _ Ha; [apply gives_raise|]. apply gives_done; auto.
Qed.

Lemma gives_with_kind {A} kind (m : request (World Cs) reply A) (P : claim A) `{!Lasting s P} L w :
  login_inv s L w → gives s m P L w → gives s (with_kind kind m) (on_value P) L w.
Proof.
  intros Hi Hm. unfold with_kind. eapply (gives_bind s _ _ (λ r L w, ∀ a, r = inr a → P a L w)); [done| |].
  - apply gives_try; [|done]. eapply gives_mono; [exact Hm|]. by intros a L' w' _ _ _ Ha ? [= <-].
  - intros r L' w' _ _ _ Hr. apply gives_done; [apply _|]. intros a Ha. by apply Hr.
Qed.

Lemma gives_then_kinded {A B} (m : request (World Cs) reply (kinded A)) (f : A → request (World Cs) reply B)
    (P' : claim A) (P : claim B) `{!Lasting s P} L w :
  login_inv s L w → gives s m (on_value P') L w →
  (∀ a L' w', (∀ op, L op → L' op) → evolve w w' → login_inv s L' w' → P' a L' w' → gives s (f a) P L' w') →
  gives s (then_kinded m f) (on_value P) L w.
Proof.
  intros Hi Hm Hf. unfold then_kinded. eapply gives_bind; [done|exact Hm|].
  intros [k [e|a]] L' w' HL Hw Hi' Ha; cbn [fst snd].
  - apply gives_done; [apply _|]. by intros ? [=].
  - apply gives_with_kind; [done..|]. by apply Hf, Ha.
Qed.

(** *** The consent page's request *)

(** The store holds a later version of [q]. *)
Definition request_row w (q : OAuthAuthorizationRequest) : Prop :=
  ∃ q', OAuth.os_byHandle (wd_oauth w) !! ar_HandleHash q = Some q' ∧ request_moves q q'.

Lemma request_row_mono w w' q : evolve w w' → request_row w q → request_row w' q.
Proof.
  intros Hev (q1 & Hq1 & Hm). destruct (request_stays _ _ _ _ Hev Hq1) as (q2 & ? & ?).
  exists q2. split; [done|by etrans].
Qed.

#[global] Instance request_row_lasting {A} (q : OAuthAuthorizationRequest) : Lasting s (A := A) (λ _ _ w, request_row w q).
Proof. intros a L L' w w' _ Hev _. by apply request_row_mono. Qed.
#[global] Instance request_row_lasting' : Lasting s (λ q _ w, request_row w q).
Proof. intros a L L' w w' _ Hev _. by apply request_row_mono. Qed.

Lemma get_request_gives L w h :
  login_inv s L w →
  gives s (call (on_oauth (OAuth.GetAuthorizationRequest h))) (λ q _ w', ar_HandleHash q = h ∧ request_row w' q) L w.
Proof.
  intros Hi. apply gives_staying; [apply _|apply oauth_calls_staying|].
  intros L1 w1 e q e2 w2 HL1 Hw1 Hi1 (o & Hrun & ->)%on_oauth_run Hi2 Hw2.
  unfold OAuth.GetAuthorizationRequest, OAuth.ready in Hrun. apply bind_ctx_Ok in Hrun as (e1 & _ & Hrun).
  cbn in Hrun. destruct (OAuth.os_byHandle (wd_oauth w1) !! h) as [q1|] eqn:Hq; [|done]. injection Hrun as -> _ <-.
  destruct (oo_handle _ (wo_oauth _ (li_ok _ _ _ Hi1)) _ _ Hq) as (Hh & _). split; [done|].
  exists q. cbn. by rewrite Hh.
Qed.

Lemma pending_gives L w handle principal resumable :
  login_inv s L w →
  gives s (pendingConsent handle principal resumable)
    (on_value (λ q _ w', ar_HandleHash q = HashOAuthSecret handle ∧ request_row w' q)) L w.
Proof.
  intros Hi. unfold pendingConsent. apply gives_deny. intros _.
  eapply (gives_bind s _ _ (λ r _ w, ∀ q, r = inr q → ar_HandleHash q = HashOAuthSecret handle ∧ request_row w q)); [done| |].
  { apply gives_try; [|done]. eapply gives_mono; [by apply get_request_gives|]. by intros q L' w' _ _ _ Hq ? [= <-]. }
  intros [e|q] L1 w1 HL1 Hw1 Hi1 Hq; [destruct e; apply gives_raise|]. destruct (Hq q eq_refl) as [Hh Hrow].
  eapply gives_mono.
  - apply (gives_mild s _ (λ p, ∀ a, p.2 = inr a → a = q)); [|  |done].
    + mildly; apply mild_with_kind; mildly.
    + apply yields_after. intros _. unfold with_kind. eapply yields_bind.
      * apply (yields_try _ (λ r, ∀ a, r = inr a → a = q)); [|done].
        destruct (bool_decide _); [done|]. apply yields_after. intros t. destruct (negb _); [done|].
        apply yields_after. intros []; cbn; try done; [by intros ? [= <-]|]. destruct resumable; [by intros ? [= <-]|done].
      * intros r Hr. cbn. auto.
  - intros p L2 w2 HL2 Hw2 Hi2 Hp a Ha. rewrite (Hp a Ha). split; [done|]. by eapply request_row_mono.
Qed.

(** The row of [q] is bound to the principal. *)
Definition bound_to w principal (q : OAuthAuthorizationRequest) : Prop :=
  ∃ q', OAuth.os_byHandle (wd_oauth w) !! ar_HandleHash q = Some q' ∧
    ar_BoundOrgID q' = pr_OrgID principal ∧ ar_BoundSubject q' = pr_Subject principal ∧ pr_Subject principal ≠ "".

#[global] Instance bound_to_lasting {A} principal q : Lasting s (A := A) (λ _ _ w, bound_to w principal q).
Proof.
  intros a L L' w w' _ Hev _ (q1 & Hq1 & Ho & Hs & Hne). destruct (request_stays _ _ _ _ Hev Hq1) as (q2 & Hq2 & Hm).
  destruct (qm_bound _ _ Hm) as [? ?]; [by rewrite Hs|]. exists q2. split_and!; congruence.
Qed.

Lemma bind_gives L w principal q :
  login_inv s L w →
  gives s (bindConsentUser q principal)
    (λ _ _ w', validDeviceApprovalPrincipal principal = true ∧ bound_to w' principal q) L w.
Proof.
  intros Hi. unfold bindConsentUser. apply gives_deny. intros Hv%negb_false_iff.
  apply gives_or_else; [apply _|done|]. apply gives_staying; [apply _|apply oauth_calls_staying|].
  intros L1 w1 e [] e2 w2 HL1 Hw1 Hi1 (o & Hrun & ->)%on_oauth_run Hi2 Hw2. split; [done|].
  apply bind_spec in Hrun as [_ Hb]; [|apply Hi1]. destruct (Hb eq_refl) as (q1 & _ & Ho & Hne & _).
  cbn in Ho. subst o. eexists. cbn. rewrite lookup_insert_eq. by split_and!.
Qed.

(** *** Approving the consent *)

Lemma issue_inv L w e code ce r e' w' handle principal asked scope q :
  login_inv s L w → on_oauth (OAuth.IssueAuthorizationCode (ar_HandleHash q) code ce) (e, w) = (r, (e', w')) →
  ar_HandleHash q = HashOAuthSecret handle → L (LApproveConsent handle principal asked) →
  validDeviceApprovalPrincipal principal = true → pr_Impersonating principal = false →
  bound_to w principal q → request_row w q → NormalizeOAuthScope (ar_Scope q) = Some scope →
  settled_for w principal asked (oauthApprovalScopes scope) (ar_DeviceCodeHash q) →
  login_inv s L w' ∧ evolve w w'.
Proof.
  intros Hi (o & Hrun & ->)%on_oauth_run Hh HL Hv Himp (q1 & Hq1 & Hbo & Hbs & _) (q2 & Hq2 & Hm) Hscope Hset.
  pose proof (li_ok _ _ _ Hi) as [Hd Ho]. assert (q2 = q1) as -> by congruence.
  pose proof (issue_spec _ _ _ _ _ _ Hrun Ho) as [(Ho' & Hmo & _ & _) _]. cbn in Ho', Hmo.
  assert (evolve w (set_oauth o w)) as Hev by (split; [apply store_moves_refl|done]). split; [|done].
  apply issue_news in Hrun as [Hsame|(q2 & _ & Hq & Hnone & Hrows & Hgr)]; cbn in *.
  { subst o. by destruct w. }
  assert (q2 = q1) as -> by congruence. pose proof (pristine_parts _ _ (qm_pristine _ _ Hm)) as (_ & Hdev & _ & _ & _ & _ & Hsc & _).
  split; [by split|..]; cbn.
  - intros d r' Hr' Hdec. eapply (approved_by_mono L L w); [done|exact Hev|reflexivity|done|]. by eapply li_approvals.
  - intros h q'. rewrite Hrows. intros [[<- <-]|[Hne Hq']]%lookup_insert_Some Hcode.
    + exists handle, principal, asked, scope. cbn. rewrite Hdev, Hsc. split_and!; try done.
    + eapply (code_granted_mono L L w); [done|exact Hev|reflexivity|]. by eapply li_codes.
  - intros h q'. rewrite Hrows. intros [[<- <-]|[Hne Hq']]%lookup_insert_Some; [|by eapply li_requests].
    destruct (li_requests _ _ _ Hi _ _ Hq1) as (a & ? & []). exists a. by split.
  - intros d g. rewrite Hgr. apply (li_grants _ _ _ Hi).
Qed.

Lemma ApproveConsent_gives L w handle principal asked :
  login_inv s L w → L (LApproveConsent handle principal asked) →
  gives s (ApproveConsent s handle principal asked) (λ _ _ _, True) L w.
Proof.
  intros Hi HL. unfold ApproveConsent.
  eapply gives_mono; [eapply (gives_then_kinded _ _ _ (λ _ _ _, True)); [done|by apply pending_gives|]|done].
  intros q L1 w1 HL1 Hw1 Hi1 [Hh Hrow].
  eapply gives_bind; [done|by apply bind_gives|]. intros _ L2 w2 HL2 Hw2 Hi2 [Hv Hbound].
  apply gives_deny. intros Himp. apply gives_deny. intros _.
  destruct (NormalizeOAuthScope (ar_Scope q)) as [scope|] eqn:Hscope; [|apply gives_raise].
  pose proof (request_row_mono _ _ _ Hw2 Hrow) as (q2 & Hq2 & Hm). rewrite Hh in Hq2.
  pose proof (pristine_parts _ _ (qm_pristine _ _ Hm)) as (_ & Hdev & _ & _ & _ & _ & Hsc & _).
  eapply (gives_bind s _ _ (λ _ _ w, settled_for w principal asked (oauthApprovalScopes scope) (ar_DeviceCodeHash q))).
  { done. }
  { apply gives_or_else; [apply _|done|]. eapply gives_mono.
    - eapply (ApproveForOAuth_gives s L2 w2 principal (ar_DeviceCodeHash q)); [done|eauto|exact Hq2|done|by rewrite Hsc].
    - by intros _ L3 w3 _ _ _ [_ Hset]. }
  intros _ L3 w3 HL3 Hw3 Hi3 Hset. apply gives_after; [auto with mild|done|]. intros code L4 w4 HL4 Hw4 Hi4.
  apply gives_after; [auto with mild|done|]. intros t L5 w5 HL5 Hw5 Hi5.
  eapply (gives_bind s _ _ (λ _ _ _, True)); [done| |intros; by apply gives_done; [apply _|]].
  apply gives_or_else; [apply _|done|]. apply gives_call; [apply _|].
  intros L6 w6 e r e' w7 HL6 Hw6 Hi6 Hrun.
  assert (evolve w2 w6) as Hw26 by (do 3 (etrans; [done|]); done).
  edestruct (issue_inv L6 w6); [done|exact Hrun|exact Hh|by eauto 10|done|done|..|exact Hscope| |by auto].
  - by eapply (bound_to_lasting (A := ()) principal q () L2 L6 w2 w6); [eauto 10|..].
  - eapply request_row_mono; [|exact Hrow]. by etrans.
  - eapply settled_for_mono; [|done]. do 2 (etrans; [done|]). done.
Qed.

(** *** Starting an authorization request or a device grant *)

Hypothesis dev_client : ∀ c, os_devBrowser s = Some c → rc_ClientID c = DevBrowserClientID.

Lemma resolve_gives L w id :
  login_inv s L w → gives s (ResolveClient s id) (λ client _ _, rc_ClientID client = id) L w.
Proof.
  intros Hi. unfold ResolveClient. case_match eqn:Hdev.
  { apply gives_done; [apply _|]. cbn. case_bool_decide; [|done]. subst id. by apply dev_client. }
  destruct (IsDynamicOAuthClientID id).
  - eapply (gives_bind s _ _ (λ r _ _, ∀ c, r = inr c → cl_ClientID c = id)); [done| |].
    + apply gives_try; [|done]. eapply gives_mono.
      * apply (gives_staying s _ (λ c _ _, cl_ClientID c = id)); [apply oauth_calls_staying|].
        intros L1 w1 e c e2 w2 HL1 Hw1 Hi1 (o & Hrun & ->)%on_oauth_run Hi2 Hw2.
        unfold OAuth.GetClient, OAuth.ready in Hrun. apply bind_ctx_Ok in Hrun as (e1 & _ & Hrun).
        cbn in Hrun. destruct (OAuth.os_clients (wd_oauth w1) !! id) as [c1|] eqn:Hc; [|done]. injection Hrun as -> _ _.
        by destruct (oo_client _ (wo_oauth _ (li_ok _ _ _ Hi1)) _ _ Hc).
      * by intros c L1 w1 _ _ _ Hc ? [= <-].
    + intros [e|c] L1 w1 HL1 Hw1 Hi1 Hc; [destruct e; apply gives_raise|]. apply gives_done; [apply _|]. cbn. auto.
  - destruct (_ && _); [|apply gives_raise]. apply gives_mild; [mildly| |done].
    apply yields_after. intros [refusal|document]; repeat case_match; done.
Qed.

Lemma create_request_inv L w e q a r e' w' :
  login_inv s L w → on_oauth (OAuth.CreateAuthorizationRequest q) (e, w) = (r, (e', w')) →
  L (LAuthorize a) → requested s a q → login_inv s L w' ∧ evolve w w'.
Proof.
  intros Hi (o & Hrun & ->)%on_oauth_run HL Hreq. pose proof (li_ok _ _ _ Hi) as [Hd Ho].
  pose proof (create_request_kept _ _ _ _ Hrun Ho) as (Ho' & Hmo & _ & _). cbn in Ho', Hmo.
  assert (evolve w (set_oauth o w)) as Hev by (split; [apply store_moves_refl|done]). split; [|done].
  apply create_request_news in Hrun as [Hsame|(_ & _ & Hnone & Hrows & Hgr)]; cbn in *.
  { subst o. by destruct w. }
  split; [by split|..]; cbn.
  - intros d r' Hr' Hdec. eapply (approved_by_mono L L w); [done|exact Hev|reflexivity|done|]. by eapply li_approvals.
  - intros h q'. rewrite Hrows. intros [[<- <-]|[Hne Hq']]%lookup_insert_Some Hcode.
    + rewrite Hnone in Hcode. by destruct Hcode.
    + eapply (code_granted_mono L L w); [done|exact Hev|reflexivity|]. by eapply li_codes.
  - intros h q'. rewrite Hrows. intros [[<- <-]|[Hne Hq']]%lookup_insert_Some; [eauto|by eapply li_requests].
  - intros d g. rewrite Hgr. apply (li_grants _ _ _ Hi).
Qed.

Lemma create_grant_inv L w e g a r e' w' :
  login_inv s L w → on_oauth (OAuth.CreateDeviceGrant g) (e, w) = (r, (e', w')) →
  L (LStartDeviceGrant a) → granted s a g → login_inv s L w' ∧ evolve w w'.
Proof.
  intros Hi (o & Hrun & ->)%on_oauth_run HL Hreq. pose proof (li_ok _ _ _ Hi) as [Hd Ho].
  pose proof (create_grant_kept _ _ _ _ Hrun Ho) as (Ho' & Hmo & _ & _). cbn in Ho', Hmo.
  assert (evolve w (set_oauth o w)) as Hev by (split; [apply store_moves_refl|done]). split; [|done].
  apply create_grant_news in Hrun as [Hsame|(_ & Hrows & Hgr)]; cbn in *.
  { subst o. by destruct w. }
  split; [by split|..]; cbn.
  - intros d r' Hr' Hdec. eapply (approved_by_mono L L w); [done|exact Hev|reflexivity|done|]. by eapply li_approvals.
  - intros h q'. rewrite Hrows. intros Hq' Hcode. eapply (code_granted_mono L L w); [done|exact Hev|reflexivity|].
    by eapply li_codes.
  - intros h q'. rewrite Hrows. apply (li_requests _ _ _ Hi).
  - intros d g'. rewrite Hgr. intros [[<- <-]|[_ Hg]]%lookup_insert_Some; [eauto|by eapply li_grants].
Qed.

Lemma Authorize_gives L w a :
  login_inv s L w → L (LAuthorize a) → gives s (Authorize s a) (λ _ _ _, True) L w.
Proof.
  intros Hi HL. unfold Authorize. eapply gives_bind; [done|by apply resolve_gives|].
  intros client L1 w1 HL1 Hw1 Hi1 Hclient. do 3 (apply gives_deny; intros _).
  destruct (resolveResource s (az_Resource a) (rc_Browser client)) as [resource|] eqn:Hres; [|apply gives_raise].
  apply gives_deny. intros _. destruct (NormalizeOAuthScope (az_Scope a)) as [scope|] eqn:Hscope; [|apply gives_raise].
  apply gives_after; [auto with mild|done|]. intros device L2 w2 HL2 Hw2 Hi2.
  apply gives_after; [auto with mild|done|]. intros handle L3 w3 HL3 Hw3 Hi3.
  apply gives_after; [auto with mild|done|]. intros t L4 w4 HL4 Hw4 Hi4.
  eapply (gives_bind s _ _ (λ _ _ _, True)); [done| |intros; by apply gives_done; [apply _|]].
  unfold stored_or_gone. apply gives_or_else; [apply _|done|]. apply gives_call; [apply _|].
  intros L5 w5 e r e' w6 HL5 Hw5 Hi5 Hrun.
  edestruct (create_request_inv L5 w5); [done|exact Hrun|by eauto 10| |by auto]. split; try done. by eexists.
Qed.

Lemma StartDevice_gives L w a :
  login_inv s L w → L (LStartDeviceGrant a) → gives s (StartDeviceAuthorization s a) (λ _ _ _, True) L w.
Proof.
  intros Hi HL. unfold StartDeviceAuthorization. eapply gives_bind; [done|by apply resolve_gives|].
  intros client L1 w1 HL1 Hw1 Hi1 Hclient.
  eapply gives_mono; [apply (gives_with_kind _ _ (λ _ _ _, True)); [done|]|done]. do 2 (apply gives_deny; intros _).
  destruct (NormalizeOAuthScope (dr_Scope a)) as [scope|] eqn:Hscope; [|apply gives_raise].
  destruct (resolveResource s (dr_Resource a) false) as [resource|] eqn:Hres; [|apply gives_raise].
  apply gives_after; [auto with mild|done|]. intros device L2 w2 HL2 Hw2 Hi2.
  apply gives_after; [auto with mild|done|]. intros t L3 w3 HL3 Hw3 Hi3.
  eapply (gives_bind s _ _ (λ _ _ _, True)); [done| |intros; by apply gives_done; [apply _|]].
  unfold stored_or_gone. apply gives_or_else; [apply _|done|]. apply gives_call; [apply _|].
  intros L4 w4 e r e' w5 HL4 Hw4 Hi4 Hrun.
  edestruct (create_grant_inv L4 w4); [done|exact Hrun|by eauto 10| |by auto]. by split.
Qed.
End consenting.
