(* ===== verification/LoginTokens.v ===== *)
(** * LoginTokens: what a handler that answers a token has seen

    The handlers that redeem an approval, with any other logins running between
    their store calls: the credential they answer was issued under an approval
    somebody gave, for the request of the client that asks, and it spends the
    approval.  LoginTheorems.v lifts this to every run of the server. *)

From Stdlib Require Import ZArith Lia Ascii.
From stdpp Require Import sorting pretty numbers gmap strings list_numbers list.
From S2P Require Import Prelude GoStrings RepoSlug CredTypes Validation Tokens Grants GrantTheorems CredentialStore CredentialStoreProofs CredentialTheorems Lifecycle AuthService AuthServiceTheorems WebAssertion DeviceAuth DeviceTheorems OAuth OAuthTheorems BrowserRefresh Requests LoginWorld DeviceFlow RefreshGrant OAuthService LoginSteps LoginCalls LoginInvariant LoginConsent.

Open Scope Z_scope.

(** ** What a credential carries *)

(** [c] was issued under the approval [g] for a request of a client. *)
Record issued_under `{UnicodeTables} (g : DeviceAuthorizationGrant) (clientID resource : string) (scopes : list string)
    (c : ClientCredential) : Prop := {
  iu_org : cc_OrgID c = strings_TrimSpace (dg_OrgID g);
  iu_user : pv_ApprovingUserID (cc_Provenance c) = strings_TrimSpace (dg_ApprovingSubject g);
  iu_scopes : ∀ sc, sc ∈ cc_Scopes c → sc ∈ dg_Scopes g;
  iu_asked : scopes ≠ [] → ∀ sc, sc ∈ cc_Scopes c → sc ∈ strings_TrimSpace <$> scopes;
  iu_repositories : ∀ slug, RepositoryAllowed (cc_RepositoryScopes c) slug = true →
    RepositoryAllowed (dg_RepositoryScopes g) slug = true;
  iu_client : pv_ClientID (cc_Provenance c) = strings_TrimSpace clientID;
  iu_resource : cc_Resource c = strings_TrimSpace resource;
  iu_session : pv_ClientClass (cc_Provenance c) = ClientClassBrowser →
    pv_SessionID (cc_Provenance c) = dg_ApprovingSessionID g;
  iu_live : cc_RevokedAt c = None;
}.

(** What [PrepareCreate] hands on of its request. *)
Record prepared_for (clientID resource : string) (scopes : list string) (p : PreparedCredential) : Prop := {
  pf_client : ci_ClientID (pc_input p) = strings_TrimSpace clientID;
  pf_resource : ci_Resource (pc_input p) = resource;
  pf_scopes : scopes ≠ [] → ∀ sc, sc ∈ ci_Scopes (pc_input p) → sc ∈ strings_TrimSpace <$> scopes;
  pf_repositories : Forall (λ v, ValidScope v = true) (ci_RepositoryScopes (pc_input p));
  pf_complete : ∃ token, pc_complete p = Some (λ c, Issued c token);
}.

Lemma auth_normalized_elem scopes l :
  auth_normalizeScopes scopes = Ok l → scopes ≠ [] → ∀ sc, sc ∈ l → sc ∈ strings_TrimSpace <$> scopes.
Proof.
  unfold auth_normalizeScopes. intros Hl Hne. rewrite bool_decide_false in Hl by done.
  apply res_bind_Ok in Hl as (m & Hm & Hl). rewrite reject_Ok in Hl. destruct Hl as [_ [= <-]].
  apply auth_scopes_elem in Hm as (_ & Hx & _); [|set_solver|constructor]. intros sc. rewrite Hx. set_solver.
Qed.

Section theorems.
Context `{UnicodeTables} `{UpperTables} `{FoldTables} {Cs : Type} `{BackendLaws Cs}.
Implicit Types (w : World Cs) (L : login_op → Prop) (principal : Principal).

Lemma prepare_spec sv request (v : env * Cs) p v' :
  PrepareCreate sv request v = (Ok p, v') →
  prepared_for (cq_ClientID request) (cq_Resource request) (cq_Scopes request) p.
Proof.
  unfold PrepareCreate. rewrite bind_lift. intros Hrun.
  destruct (normalizeCreateRequest request) as [n| |] eqn:Hn; [|done..].
  apply bind_now_at in Hrun as [e Hrun]. destruct (past_expiry _ _); [done|]. rewrite bind_lift in Hrun.
  destruct (issueCreateInput sv n) as [[token input]| |] eqn:Hi; [|done..]. injection Hrun as <- _.
  pose proof (normalizeCreateRequest_scopes _ _ Hn) as [(_ & _ & Hv & _)%normalized_scopes Hsc].
  unfold issueCreateInput in Hi. res_inv Hi. injection Hi as <- <-.
  unfold normalizeCreateRequest in Hn. res_inv Hn. injection Hn as <-.
  split; try done; cbn in *; [|eauto]. intros Hne. by apply auth_normalized_elem.
Qed.

(** What a redemption issues, of what the client asked for. *)
Lemma redeem_issues h p ackable (v : env * DeviceAuthorizationStore Cs) c v' clientID resource scopes :
  redeem h (StorageInput p) ackable v = (Ok c, v') → device_ok v.2 → prepared_for clientID resource scopes p →
  ∃ record, ds_byDevice v.2 !! h = Some record ∧ issued_under (grant_of record) clientID resource scopes c.
Proof.
  intros Hrun Hok [Hcl Hre Hsc Hrp _].
  pose proof (redeem_issues_approval _ _ _ _ _ _ Hrun Hok) as (record & t & Hrec & _ & Hg & Hrev & _ & Horg & Hs & Hu & Hses & _).
  apply redeem_spec in Hrun as [_ Hr]; [|done].
  destruct (Hr _ eq_refl) as [(record' & t' & issued & n & tc & Hrec' & _ & Hi & Hn & Hc & _)]. simplify_eq.
  apply normalizeCreate_Ok in Hn. apply redeem_input_spec in Hi as (Hm & session & -> & _).
  unfold StorageInput in *. exists record. split; [done|].
  split; try done; cbn.
  - intros Hne sc Hin. pose proof (nz_scopes _ _ Hn) as (_ & _ & Hx)%normalizeScopes_elem.
    apply Hx in Hin as (x & -> & Hxin)%list_elem_of_fmap. cbn in Hxin. apply (Hsc Hne) in Hxin as (y & -> & Hy)%list_elem_of_fmap.
    rewrite TrimSpace_idemp. apply list_elem_of_fmap. by exists y.
  - intros slug Hall. pose proof (nz_repos _ _ Hn) as Hrepo. cbn in Hrepo.
    eapply twice_normalized in Hrepo; [|exact Hrp|exact Hall].
    unfold DeviceAuthorizationCredentialMatches in Hm. rewrite !andb_true_iff, !bool_decide_eq_true in Hm.
    destruct Hm as [[[_ _] Hm] _]. by rewrite Hm in Hrepo.
  - pose proof (nz_client _ _ Hn) as Hx%normalizeOptionalText_trim. etrans; [exact Hx|].
    change (strings_TrimSpace (ci_ClientID (pc_input p)) = strings_TrimSpace clientID). by rewrite Hcl, TrimSpace_idemp.
  - pose proof (nz_resource _ _ Hn) as Hx%normalizeResource_trim. exact Hx.
Qed.

Lemma poll_reads h (v : env * DeviceAuthorizationStore Cs) record v' :
  DeviceAuth.Poll h v = (Ok record, v') → device_ok v.2 → ds_byDevice v'.2 !! h = Some record.
Proof.
  unfold DeviceAuth.Poll, DeviceAuth.ready. intros (e & _ & Hrun)%bind_ctx_Ok Hok.
  apply bind_res_inv in Hrun as [(r & v1 & E1 & Hrun)|[(e1 & [=] & _)|[[=] _]]].
  apply deviceLocked_spec in E1 as (_ & _ & Hret); [|done]. destruct (Hret _ eq_refl) as (Hv & Hrec & _). cbn in Hv, Hrec.
  destruct (Terminal (da_State r)); [injection Hrun as <- <-; by rewrite Hv|].
  apply bind_now_at in Hrun as [e2 Hrun].
  destruct (da_LastPollAt r); [destruct (time_Before _ _); [done|]|]; injection Hrun as <- <-; apply lookup_insert_eq.
Qed.

Context (s : OAuthService).

Lemma get_found L w d :
  login_inv s L w →
  gives s (call (on_devices (GetByDeviceCodeHash d))) (λ record _ _, da_DeviceCodeHash record = d) L w.
Proof.
  intros Hi. apply (gives_staying s _ (λ record _ _, da_DeviceCodeHash record = d)); [apply device_calls_staying|].
  intros L1 w1 e record e2 w2 HL1 Hw1 Hi1 (dv & Hrun & ->)%on_devices_run Hi2 Hw2.
  pose proof (wo_devices _ (li_ok _ _ _ Hi1)) as Hok. apply get_device_reads in Hrun as [Hrec _]; [|done].
  by apply (dk_device _ Hok).
Qed.

Lemma poll_found L w d :
  login_inv s L w →
  gives s (call (on_devices (DeviceAuth.Poll d))) (λ record _ _, da_DeviceCodeHash record = d) L w.
Proof.
  intros Hi. apply (gives_staying s _ (λ record _ _, da_DeviceCodeHash record = d)); [apply device_calls_staying|].
  intros L1 w1 e record e2 w2 HL1 Hw1 Hi1 (dv & Hrun & ->)%on_devices_run Hi2 Hw2.
  apply poll_reads in Hrun; [|apply Hi1]. by apply (dk_device _ (wo_devices _ (li_ok _ _ _ Hi2))).
Qed.

(** ** Redemptions *)

(** The approval of [d] was redeemed, and [c] was issued under it. *)
Definition redeemed_under (d : DeviceCodeHash) (clientID resource : string) (scopes : list string) w (c : ClientCredential)
    : Prop :=
  ∃ r, wd_byDevice w !! d = Some r ∧ da_State r = DeviceRedeemed ∧
    issued_under (grant_of r) clientID resource scopes c.

(** It was redeemed for good, for [c]. *)
Definition spent (d : DeviceCodeHash) w (c : ClientCredential) : Prop :=
  ∃ r, wd_byDevice w !! d = Some r ∧ da_State r = DeviceRedeemed ∧ da_AckRequired r = false ∧
    da_RedeemedCredentialID r = cc_CredentialID c.

Lemma spent_mono w w' d c : evolve w w' → spent d w c → spent d w' c.
Proof.
  intros Hev (r & Hr & Hs & Hq & Hid). destruct (device_stays _ _ _ _ Hev Hr) as (r' & Hr' & Hm).
  rewrite (mv_frozen _ _ Hm) in Hr'; [by exists r|]. unfold frozen. by rewrite Hs, Hq.
Qed.

Lemma redeemed_under_mono w w' d clientID resource scopes c :
  evolve w w' → redeemed_under d clientID resource scopes w c → redeemed_under d clientID resource scopes w' c.
Proof.
  intros Hev (r & Hr & Hs & Hiss). destruct (device_stays _ _ _ _ Hev Hr) as (r' & Hr' & Hm).
  destruct (moves_settled _ _ Hm) as [_ Hg]; [by rewrite Hs|].
  exists r'. rewrite Hg. split_and!; [done| |done].
  pose proof (mv_state _ _ Hm) as Hb. rewrite Hs in Hb. by destruct (da_State r').
Qed.

(** A credential of a redemption of [d]; [ackable] ones may be replaced. *)
Definition redemption (d : DeviceCodeHash) (clientID resource : string) (scopes : list string) (ackable : bool)
    (c : ClientCredential) w : Prop :=
  redeemed_under d clientID resource scopes w c ∧ (ackable = false → spent d w c).

Lemma redemption_mono w w' d clientID resource scopes ackable c :
  evolve w w' → redemption d clientID resource scopes ackable c w → redemption d clientID resource scopes ackable c w'.
Proof. intros Hev [Hr Hs]. split; [by eapply redeemed_under_mono|]. intros Ha. by eapply spent_mono, Hs. Qed.

#[global] Instance redemption_lasting d clientID resource scopes ackable :
  Lasting s (λ c _ w, redemption d clientID resource scopes ackable c w).
Proof. intros c L L' w w' _ Hev _. by apply redemption_mono. Qed.
#[global] Instance redemption_lasting' d clientID resource scopes ackable :
  Lasting s (λ issued _ w, redemption d clientID resource scopes ackable (ic_Credential issued) w).
Proof. intros c L L' w w' _ Hev _. by apply redemption_mono. Qed.

Lemma redeem_gives L w d clientID resource scopes p ackable :
  login_inv s L w → prepared_for clientID resource scopes p →
  gives s (call (on_devices (redeem d (StorageInput p) ackable)))
    (λ c _ w, redemption d clientID resource scopes ackable c w) L w.
Proof.
  intros Hi Hp. apply gives_staying; [apply _|apply device_calls_staying|].
  intros L1 w1 e c e2 w2 HL1 Hw1 Hi1 (dv & Hrun & ->)%on_devices_run Hi2 Hw2.
  pose proof (wo_devices _ (li_ok _ _ _ Hi1)) as Hok.
  pose proof (redeem_issues_approval _ _ _ _ _ _ Hrun Hok) as (r & t & Hr & Hrow & _).
  eapply redeem_issues in Hrun as (r' & Hr' & Hiss); [|done|exact Hp]. simplify_eq.
  split; [|intros ->]; by exists (set_redeemed t (cc_CredentialID c) ackable r) || by eexists.
Qed.

Lemma redeemAs_gives L w sv record clientID resource scopes ackable browser :
  login_inv s L w →
  gives s (DeviceFlow.redeemAs sv record clientID resource scopes ackable browser)
    (λ issued _ w, redemption (da_DeviceCodeHash record) clientID resource
       (default [ScopeContextRead; ScopeEvidenceRead] scopes) ackable (ic_Credential issued) w) L w.
Proof.
  intros Hi. unfold DeviceFlow.redeemAs. set (asked := default _ scopes).
  apply gives_after; [auto with mild|done|]. intros t L1 w1 HL1 Hw1 Hi1.
  eapply (gives_bind s _ _ (λ q _ _, cq_ClientID q = clientID ∧ cq_Resource q = resource ∧ cq_Scopes q = asked)); [done| |].
  { apply gives_mild; [unfold DeviceFlow.familyID; mildly| |done]. destruct browser; [|done].
    destruct (isEmpty _); [done|]. by apply yields_after. }
  intros q L2 w2 HL2 Hw2 Hi2 (<- & <- & Hq).
  eapply (gives_bind s _ _ (λ p _ _, prepared_for (cq_ClientID q) (cq_Resource q) asked p)); [done| |].
  { apply gives_staying; [apply _|apply prepare_staying|].
    intros L3 w3 e p e3 w4 _ _ _ ([e4 c4] & Hrun & _)%zoom_inv _ _. rewrite <-Hq. by eapply prepare_spec. }
  intros p L3 w3 HL3 Hw3 Hi3 Hp.
  eapply (gives_bind s _ _ (λ r _ w, ∀ c, r = inr c →
    redemption (da_DeviceCodeHash record) (cq_ClientID q) (cq_Resource q) asked ackable c w)); [done| |].
  { apply gives_try; [|done]. eapply gives_mono.
    - pose proof (redeem_gives L3 w3 (da_DeviceCodeHash record) _ _ _ p ackable Hi3 Hp) as Hg.
      unfold Redeem, RedeemAckable. destruct ackable; exact Hg.
    - by intros c L4 w4 _ _ _ Hc ? [= <-]. }
  intros [e|c] L4 w4 HL4 Hw4 Hi4 Hc; [apply gives_raise|]. apply gives_return; [apply _|].
  destruct (pf_complete _ _ _ _ Hp) as [token Htok]. unfold Complete_. rewrite Htok.
  intros issued. rewrite reject_Ok. intros [_ [= <-]]. cbn. auto.
Qed.

Abbreviation redeems d clientID resource scopes :=
  (λ issued (_ : login_op → Prop) w, redemption d clientID resource scopes false (ic_Credential issued) w).

Lemma redeemForResource_gives L w sv d clientID resource scopes browser :
  login_inv s L w →
  gives s (DeviceFlow.redeemForResource sv d clientID resource scopes browser)
    (redeems d clientID resource scopes) L w.
Proof.
  intros Hi. unfold DeviceFlow.redeemForResource. apply gives_after; [auto with mild|done|]. intros _ L1 w1 HL1 Hw1 Hi1.
  apply gives_deny. intros _.
  eapply (gives_bind s _ _ (λ r _ _, ∀ record, r = inr record → da_DeviceCodeHash record = d)); [done| |].
  { apply gives_try; [|done]. eapply gives_mono; [by apply get_found|]. by intros r L' w' _ _ _ Hr ? [= <-]. }
  intros [e|record] L2 w2 HL2 Hw2 Hi2 Hf; [destruct (DeviceFlow.is_gone e); apply gives_raise|].
  specialize (Hf _ eq_refl). subst d. apply gives_deny. intros _.
  apply gives_after; [auto with mild|done|]. intros t L3 w3 HL3 Hw3 Hi3. apply gives_deny. intros _.
  eapply (gives_bind s _ _ (λ r L w, ∀ issued, r = inr issued →
    redeems (da_DeviceCodeHash record) clientID resource scopes issued L w)); [done| |].
  - apply gives_try; [|done]. eapply gives_mono; [by apply redeemAs_gives|].
    by intros issued L4 w4 HL4 Hw4 Hi4 Hr ? [= <-].
  - intros [e|issued] L4 w4 HL4 Hw4 Hi4 Hr; [apply gives_raise|]. apply gives_done; [apply _|]. auto.
Qed.

Lemma PollDeviceGrant_gives L w sv d clientID resource scopes :
  login_inv s L w →
  gives s (DeviceFlow.PollDeviceGrant sv d clientID resource scopes) (redeems d clientID resource scopes) L w.
Proof.
  intros Hi. unfold DeviceFlow.PollDeviceGrant. apply gives_after; [auto with mild|done|]. intros _ L1 w1 HL1 Hw1 Hi1.
  apply gives_deny. intros _.
  eapply (gives_bind s _ _ (λ r _ _, ∀ record, r = inr record → da_DeviceCodeHash record = d)); [done| |].
  { apply gives_try; [|done]. eapply gives_mono; [by apply poll_found|]. by intros r L' w' _ _ _ Hr ? [= <-]. }
  intros [e|record] L2 w2 HL2 Hw2 Hi2 Hf; [apply gives_raise|]. specialize (Hf _ eq_refl). subst d.
  destruct (da_State record); try apply gives_raise. by apply redeemAs_gives.
Qed.

(** ** Answers *)

Lemma normalized_again raw scope : NormalizeOAuthScope raw = Some scope → NormalizeOAuthScope scope = Some scope.
Proof.
  unfold NormalizeOAuthScope at 1. case_bool_decide as Hne; [by intros [= <-]|].
  destruct (forallb (slices_Contains oauthScopes) (strings_Fields raw)) eqn:Hall; [|done]. cbn [negb].
  intros [= <-]. set (has := slices_Contains (strings_Fields raw)).
  assert (∃ sc, sc ∈ oauthScopes ∧ has sc = true) as (sc & Hsc & Hhas).
  { destruct (strings_Fields raw) as [|x l] eqn:E; [done|]. cbn in Hall. apply andb_true_iff in Hall as [Hx _].
    exists x. apply bool_decide_eq_true in Hx. split; [done|]. apply bool_decide_eq_true. set_solver. }
  clearbody has. unfold oauthScopes, ScopeVocabulary in *. unfold filter. cbn.
  destruct (has ScopeContextRead) eqn:E1, (has ScopeEvidenceRead) eqn:E2, (has ScopeDataRead) eqn:E3;
    try (by vm_compute). exfalso. rewrite !elem_of_cons, elem_of_nil in Hsc. naive_solver congruence.
Qed.

(** A token answered for an authorization code: the code's request, which the
    client and its verifier fit, and the approval it spent. *)
Definition exchange_claim (request : OAuthTokenRequest) (token : OAuthToken) w : Prop :=
  ∃ h q scope, OAuth.os_byHandle (wd_oauth w) !! h = Some q ∧
    ar_CodeHash q = Some (HashOAuthSecret (tr_Code request)) ∧
    tr_ClientID request = ar_ClientID q ∧ tr_RedirectURI request = ar_RedirectURI q ∧
    VerifyPKCES256 (tr_CodeVerifier request) (ar_CodeChallenge q) = true ∧
    NormalizeOAuthScope (ar_Scope q) = Some scope ∧
    redemption (ar_DeviceCodeHash q) (ar_ClientID q) (ar_Resource q) (strings_Fields scope) false
      (ic_Credential (ot_Issued token)) w.

#[global] Instance exchange_lasting request : Lasting s (λ token _ w, exchange_claim request token w).
Proof.
  intros token L L' w w' _ Hev _ (h & q & scope & Hq & Hc & ? & ? & ? & ? & Hr).
  destruct (request_stays _ _ _ _ Hev Hq) as (q' & Hq' & Hm). destruct (qm_code _ _ Hm) as [Hc' _]; [by rewrite Hc|].
  pose proof (pristine_parts _ _ (qm_pristine _ _ Hm)) as (_ & Hd & Hcl & Hre & Hch & Hrs & Hsc & _).
  exists h, q', scope. rewrite Hc', Hd, Hcl, Hre, Hch, Hrs, Hsc. split_and!; try done. by eapply redemption_mono.
Qed.

Lemma consume_gives L w code :
  login_inv s L w →
  gives s (call (on_oauth (OAuth.ConsumeAuthorizationCode code)))
    (λ q _ w, request_row w q ∧ ar_CodeHash q = Some code) L w.
Proof.
  intros Hi. apply gives_staying; [apply _|apply oauth_calls_staying|].
  intros L1 w1 e q e2 w2 HL1 Hw1 Hi1 (o & Hrun & ->)%on_oauth_run Hi2 Hw2.
  apply consume_spec in Hrun as [_ Hc]; [|apply Hi1].
  destruct (Hc _ eq_refl) as (h & q1 & t & ce & _ & Hcode & _ & _ & _ & -> & Hrow). cbn in Hrow. split; [|done].
  eexists. split; [|reflexivity]. destruct (oo_handle _ (wo_oauth _ (li_ok _ _ _ Hi2)) _ _ Hrow) as [-> _]. exact Hrow.
Qed.

Lemma Exchange_gives L w sv request :
  login_inv s L w →
  gives s (OAuthLogin.Exchange s sv request) (on_value (λ token _ w, exchange_claim request token w)) L w.
Proof.
  intros Hi. unfold OAuthLogin.Exchange. apply gives_deny. intros _. apply gives_deny. intros _.
  set (code := HashOAuthSecret (tr_Code request)).
  eapply (gives_bind s _ _ (λ r _ w, ∀ q, r = inr q → request_row w q ∧ ar_CodeHash q = Some code)); [done| |].
  { apply gives_try; [|done]. eapply gives_mono; [by apply consume_gives|]. by intros q L' w' _ _ _ Hq ? [= <-]. }
  intros [e|q] L1 w1 HL1 Hw1 Hi1 Hfrom; [destruct e; apply gives_raise|]. destruct (Hfrom _ eq_refl) as [Hrow Hcode].
  apply gives_with_kind; [apply _|done|].
  apply gives_deny. intros Hclient%negb_false_iff%bool_decide_eq_true.
  apply gives_deny. intros Hredirect%negb_false_iff%bool_decide_eq_true.
  apply gives_deny. intros Hpkce%negb_false_iff. apply gives_deny. intros _.
  destruct (NormalizeOAuthScope (ar_Scope q)) as [scope|] eqn:Hscope; [|apply gives_raise].
  apply gives_deny. intros _.
  eapply (gives_bind s _ _ (redeems (ar_DeviceCodeHash q) (ar_ClientID q) (ar_Resource q) (strings_Fields scope))); [done| |].
  { apply gives_or_else; [apply _|done|]. destruct (isBrowserClient s (ar_ClientID q)); by apply redeemForResource_gives. }
  intros issued L2 w2 HL2 Hw2 Hi2 Hred.
  assert (∀ token, ot_Issued token = issued → exchange_claim request token w2) as Hdone.
  { intros token <-. destruct (request_row_mono _ _ _ Hw2 Hrow) as (q' & Hq' & Hm).
    destruct (qm_code _ _ Hm) as [Hc' _]; [by rewrite Hcode|].
    pose proof (pristine_parts _ _ (qm_pristine _ _ Hm)) as (_ & Hd & Hcl & Hre & Hch & Hrs & Hsc & _).
    eexists _, q', scope. rewrite Hd, Hcl, Hre, Hch, Hrs, Hsc. split_and!; try done. by rewrite Hc'. }
  apply gives_after; [auto with mild|done|]. intros lifetime L3 w3 HL3 Hw3 Hi3.
  assert (∀ token, ot_Issued token = issued → exchange_claim request token w3) as Hdone3.
  { intros token Htok. by eapply (exchange_lasting request token L2 L3 w2 w3), Hdone. }
  destruct (isBrowserClient s (ar_ClientID q)); [|by apply gives_done; [apply _|auto]].
  apply gives_after; [auto with mild|done|]. intros refresh L4 w4 HL4 Hw4 Hi4. apply gives_done; [apply _|].
  by eapply (exchange_lasting request _ L3 L4 w3 w4), Hdone3.
Qed.

(** A token answered for a device code: the client's grant, and the approval it
    spent. *)
Definition device_claim (request : OAuthDeviceTokenRequest) (token : OAuthToken) w : Prop :=
  ∃ code g scope, NormalizeDeviceCode (dt_DeviceCode request) = Some code ∧
    OAuth.os_deviceGrants (wd_oauth w) !! HashDeviceCode code = Some g ∧ dt_ClientID request = og_ClientID g ∧
    NormalizeOAuthScope (og_Scope g) = Some scope ∧
    redemption (HashDeviceCode code) (og_ClientID g) (og_Resource g) (strings_Fields scope) false
      (ic_Credential (ot_Issued token)) w.

Lemma grant_stays w w' d g :
  evolve w w' → OAuth.os_deviceGrants (wd_oauth w) !! d = Some g → OAuth.os_deviceGrants (wd_oauth w') !! d = Some g.
Proof. intros [_ Ho] Hg. by eapply lookup_weaken; [|apply om_grants]. Qed.

#[global] Instance device_claim_lasting request : Lasting s (λ token _ w, device_claim request token w).
Proof.
  intros token L L' w w' _ Hev _ (code & g & scope & ? & Hg & ? & ? & Hr). exists code, g, scope.
  split_and!; try done; [by eapply grant_stays|by eapply redemption_mono].
Qed.

Definition grant_row w (d : DeviceCodeHash) (g : OAuthDeviceGrant) : Prop := OAuth.os_deviceGrants (wd_oauth w) !! d = Some g.

#[global] Instance grant_row_lasting d : Lasting s (λ g _ w, grant_row w d g).
Proof. intros g L L' w w' _ Hev _. by apply grant_stays. Qed.

Lemma get_grant_gives L w d :
  login_inv s L w → gives s (call (on_oauth (OAuth.GetDeviceGrant d))) (λ g _ w, grant_row w d g) L w.
Proof.
  intros Hi. apply gives_staying; [apply _|apply oauth_calls_staying|].
  intros L1 w1 e g e2 w2 HL1 Hw1 Hi1 (o & Hrun & ->)%on_oauth_run Hi2 Hw2.
  unfold OAuth.GetDeviceGrant, OAuth.ready in Hrun. apply bind_ctx_Ok in Hrun as (e1 & _ & Hrun).
  cbn in Hrun. destruct (OAuth.os_deviceGrants (wd_oauth w1) !! d) as [g1|] eqn:Hg; [|done]. by injection Hrun as -> _ <-.
Qed.

Lemma ExchangeDeviceCode_gives L w sv request :
  login_inv s L w →
  gives s (OAuthLogin.ExchangeDeviceCode s sv request) (on_value (λ token _ w, device_claim request token w)) L w.
Proof.
  intros Hi. unfold OAuthLogin.ExchangeDeviceCode. apply gives_deny. intros _. apply gives_deny. intros _.
  destruct (NormalizeDeviceCode (dt_DeviceCode request)) as [code|] eqn:Hcode; [|apply gives_raise].
  eapply (gives_bind s _ _ (λ r _ w, ∀ g, r = inr g → grant_row w (HashDeviceCode code) g)); [done| |].
  { apply gives_try; [|done]. eapply gives_mono; [by apply get_grant_gives|]. by intros g L' w' _ _ _ Hg ? [= <-]. }
  intros [e|g] L1 w1 HL1 Hw1 Hi1 Hg; [destruct e; apply gives_raise|]. specialize (Hg _ eq_refl).
  apply gives_with_kind; [apply _|done|].
  apply gives_deny. intros Hclient%negb_false_iff%bool_decide_eq_true. apply gives_deny. intros _.
  destruct (NormalizeOAuthScope (og_Scope g)) as [scope|] eqn:Hscope; [|apply gives_raise].
  eapply (gives_bind s _ _ (redeems (HashDeviceCode code) (og_ClientID g) (og_Resource g) (strings_Fields scope))); [done| |].
  { apply gives_or_else; [apply _|done|]. by apply PollDeviceGrant_gives. }
  intros issued L2 w2 HL2 Hw2 Hi2 Hr.
  apply gives_after; [auto with mild|done|]. intros lifetime L3 w3 HL3 Hw3 Hi3. apply gives_done; [apply _|].
  exists code, g, scope. split_and!; try done; [by do 2 (eapply grant_stays; [done|])|by eapply redemption_mono].
Qed.

(** A token answered to a poll without OAuth: the approval it was issued under,
    of a code that no OAuth client had a grant for when the poll began. *)
Definition poll_claim w0 (deviceCode : string) (issued : IssuedCredential) w : Prop :=
  ∃ code, NormalizeDeviceCode deviceCode = Some code ∧
    OAuth.os_deviceGrants (wd_oauth w0) !! HashDeviceCode code = None ∧
    redemption (HashDeviceCode code) "" "" [ScopeContextRead; ScopeEvidenceRead] true (ic_Credential issued) w.

#[global] Instance poll_lasting w0 code : Lasting s (λ issued _ w, poll_claim w0 code issued w).
Proof.
  intros issued L L' w w' _ Hev _ (c & ? & ? & Hr). exists c. split_and!; [done..|]. by eapply redemption_mono.
Qed.

Lemma lookup_gives L w w0 hash :
  login_inv s L w → evolve w0 w →
  gives s (try (DeviceFlow.GetDeviceGrant StoredOAuthDeviceGrants hash))
    (λ r _ _, r = inl ErrNotFound → OAuth.os_deviceGrants (wd_oauth w0) !! hash = None) L w.
Proof.
  intros Hi Hw0. apply holds_try. cbn. intros L1 w1 HL1 Hw1 Hi1 e r e2 w2 Hrun.
  assert (staying (on_oauth (S := Cs) (OAuth.GetDeviceGrant hash))) as Hst by apply oauth_calls_staying.
  destruct (Hst _ _ _ _ _ Hrun (li_ok _ _ _ Hi1)) as (? & ? & ?).
  split_and!; [by apply (stays_inv s L1 L1 w1 w2)|done|]. intros L2 w3 _ _ _. unfold then_tried.
  destruct r as [g|err|]; intros ? [= <-]; [done|]. intros [= ->].
  apply on_oauth_run in Hrun as (o & Hrun & _). unfold OAuth.GetDeviceGrant, OAuth.ready in Hrun.
  apply bind_Err_or_Ok in Hrun as [(err & [= <-] & (c & Hc) & _)|(e3 & Hrun)]; [by destruct c|].
  cbn in Hrun. destruct (OAuth.os_deviceGrants (wd_oauth w1) !! hash) eqn:Hg; [done|].
  eapply lookup_weaken_None; [exact Hg|]. apply om_grants, ev_oauth. by etrans.
Qed.

Lemma Poll_gives L w sv deviceCode :
  login_inv s L w →
  gives s (DeviceFlow.Poll StoredOAuthDeviceGrants sv deviceCode) (λ issued _ w', poll_claim w deviceCode issued w') L w.
Proof.
  intros Hi. unfold DeviceFlow.Poll. apply gives_after; [auto with mild|done|]. intros _ L1 w1 HL1 Hw1 Hi1.
  destruct (NormalizeDeviceCode deviceCode) as [code|] eqn:Hcode; [|apply gives_raise].
  set (hash := HashDeviceCode code).
  eapply (gives_bind s _ _ (λ r _ _, ∀ record, r = inr record → da_DeviceCodeHash record = hash)); [done| |].
  { apply gives_try; [|done]. eapply gives_mono; [by apply poll_found|]. by intros r L' w' _ _ _ Hr ? [= <-]. }
  intros [e|record] L2 w2 HL2 Hw2 Hi2 Hf; [apply gives_raise|]. specialize (Hf _ eq_refl).
  eapply gives_bind; [done|apply (lookup_gives L2 w2 w); [done|by etrans]|].
  intros [e|g] L3 w3 HL3 Hw3 Hi3 Hnone; [|apply gives_raise].
  assert (e = ErrNotFound →
    gives s (DeviceFlow.redeem sv record "" "" None true) (λ issued _ w', poll_claim w deviceCode issued w') L3 w3) as Hredeem.
  { intros ->. eapply gives_mono; [by apply redeemAs_gives|].
    intros issued L4 w4 HL4 Hw4 Hi4 Hr. rewrite Hf in Hr. exists code. split_and!; [done|by apply Hnone|done]. }
  destruct e; try apply gives_raise.
  destruct (da_State record); try apply gives_raise; [by apply Hredeem|].
  destruct (CredentialUnacknowledged record); [by apply Hredeem|apply gives_raise].
Qed.
End theorems.
