(* ===== verification/LoginTheorems.v ===== *)
(** * LoginTheorems: the guarantees of the login server

    For every run of the server: any number of requests in any state of
    progress, their store calls interleaved in any order with each other and
    with the rest of the program, with any random bytes, clock readings,
    fetched documents, cancellations and abandoned requests. *)

From Stdlib Require Import ZArith Lia Ascii.
From stdpp Require Import sorting pretty numbers gmap strings list_numbers list.
From S2P Require Import Prelude GoStrings CredTypes Validation Tokens Grants CredentialStore CredentialStoreProofs CredentialTheorems Lifecycle AuthService WebAssertion DeviceAuth DeviceTheorems OAuth OAuthTheorems BrowserRefresh Requests LoginWorld DeviceFlow RefreshGrant OAuthService LoginSteps LoginCalls LoginInvariant LoginConsent LoginTokens.

Open Scope Z_scope.

Section theorems.
Context `{UnicodeTables} `{UpperTables} `{FoldTables} {Cs : Type} `{BackendLaws Cs}.
Implicit Types (w : World Cs) (L : login_op → Prop).

(** The server starts with consistent stores and no logins under way; the
    credentials may be any. *)
Record fresh_world w : Prop := {
  fw_ok : world_ok w;
  fw_devices : wd_byDevice w = ∅;
  fw_requests : OAuth.os_byHandle (wd_oauth w) = ∅;
  fw_grants : OAuth.os_deviceGrants (wd_oauth w) = ∅;
}.

Definition login_system : Type := system (W := World Cs) (reply := reply) (Op := login_op) (Ans := login_answer).

Definition login_reachable (s : OAuthService) (w0 : World Cs) : login_system → Prop :=
  rtc (system_step (start s) legal elsewhere) (System w0 ∅).

(** What an answer means, by what was asked. *)
Definition answer_claim (s : OAuthService) (op : login_op) w0 (r : res login_answer) L w : Prop :=
  match op, r with
  | LExchange _ request, Ok (AToken (_, inr token)) => exchange_claim request token w
  | LExchangeDeviceCode _ request, Ok (AToken (_, inr token)) => device_claim request token w
  | LPoll _ deviceCode, Ok (AIssued issued) => poll_claim w0 deviceCode issued w
  | _, _ => True
  end.

Lemma fresh_inv s w : fresh_world w → login_inv s (λ _, False) w.
Proof.
  intros [Hok Hd Hr Hg]. split; [done|..]; rewrite ?Hd, ?Hr, ?Hg; intros ??; by rewrite lookup_empty.
Qed.

Lemma configured_client cfg s c :
  NewOAuthService cfg = Ok s → os_devBrowser s = Some c → rc_ClientID c = DevBrowserClientID.
Proof.
  unfold NewOAuthService. intros Hs. res_inv Hs.
  destruct a as [[[clients dev] resource] refresh]. injection Hs as <-. cbn. intros ->.
  unfold configureBrowserClients in Ha. destruct (_ && _) in Ha; [done|].
  res_inv Ha. injection Ha as _ Ha _ _. by case_bool_decide; simplify_eq.
Qed.

Section served.
Context (s : OAuthService) (dev_client : ∀ c, os_devBrowser s = Some c → rc_ClientID c = DevBrowserClientID).

Lemma answer_gives {A} (f : A → login_answer) (p : request (World Cs) reply A) (P : A → (login_op → Prop) → World Cs → Prop)
    `{!Lasting s P} op w0 L w :
  login_inv s L w → gives s p P L w →
  (∀ a L' w', P a L' w' → answer_claim s op w0 (Ok (f a)) L' w') →
  holds legal (login_inv s) evolve (answer_with f p) (answer_claim s op w0) L w.
Proof.
  intros Hi Hp HP.
  assert (gives s (answer_with f p) (λ ans L w, ∃ a, ans = f a ∧ P a L w) L w) as Hg.
  { eapply gives_bind; [done|exact Hp|]. intros a L' w' HL Hw Hi' Ha. apply gives_done; [|by exists a].
    intros ans L1 L2 w1 w2 HL1 Hw1 Hi1 (b & Hb & HPb). exists b. split; [done|by eapply lasting]. }
  eapply holds_mono; [apply _|exact Hg|]. intros [ans|e|] L' w' _ _ _ Hr; [|by destruct op..].
  destruct (Hr _ eq_refl) as (a & -> & Ha). by apply HP.
Qed.

Lemma mild_answer {A} (f : A → login_answer) (p : request (World Cs) reply A) op w0 L w :
  mild p → login_inv s L w → (∀ a L' w', answer_claim s op w0 (Ok (f a)) L' w') →
  holds legal (login_inv s) evolve (answer_with f p) (answer_claim s op w0) L w.
Proof. intros Hp Hi Hf. eapply (answer_gives f p (λ _ _ _, True)); [done|by apply gives_any|auto]. Qed.

Lemma start_holds op L w :
  L op → login_inv s L w → holds legal (login_inv s) evolve (start s op) (answer_claim s op w) L w.
Proof.
  intros HL Hi. destruct op; cbn [start].
  all: try (apply mild_answer; [auto with mild|done|done]; fail).
  - eapply (answer_gives _ _ (λ _ _ _, True)); [done|by apply Authorize_gives|done].
  - eapply (answer_gives _ _ (λ _ _ _, True)); [done|by apply ApproveConsent_gives|done].
  - eapply (answer_gives _ _ (on_value (λ token _ w, exchange_claim request token w))); [done|by apply Exchange_gives|].
    intros [kind [e|token]] L' w' Ht; cbn; auto.
  - eapply (answer_gives _ _ (λ _ _ _, True)); [done|by apply StartDevice_gives|done].
  - eapply (answer_gives _ _ (on_value (λ token _ w, device_claim request token w))); [done|by apply ExchangeDeviceCode_gives|].
    intros [kind [e|token]] L' w' Ht; cbn; auto.
  - eapply (answer_gives _ _ (λ _ _ _, True)); [done|by apply Approve_gives|done].
  - eapply (answer_gives _ _ (λ issued _ w', poll_claim w deviceCode issued w')); [done|by apply Poll_gives|done].
Qed.
End served.

Lemma login_runs cfg s w0 c :
  NewOAuthService cfg = Ok s → fresh_world w0 → login_reachable s w0 c →
  system_ok legal (login_inv s) evolve (answer_claim s) c ∧ evolve w0 (sy_world c).
Proof.
  intros Hs Hf Hr.
  eapply (system_keeps (start s) legal elsewhere (login_inv s) evolve (answer_claim s)) in Hr as [? ?]; [done|..].
  - intros L L' w HL Hi. by eapply inv_asked.
  - intros L w w' He Hi. by eapply elsewhere_keeps.
  - intros op L w. apply start_holds. intros cl. by eapply configured_client.
  - apply system_start; [intros L L' w HL Hi; by eapply inv_asked|]. by apply fresh_inv.
Qed.

Lemma login_answers cfg s w0 c i op w1 r :
  NewOAuthService cfg = Ok s → fresh_world w0 → login_reachable s w0 c →
  sy_pool c !! i = Some (Thread op w1 (Return r)) → answer_claim s op w1 r (asked c) (sy_world c).
Proof.
  intros Hs Hf Hr Hth. destruct (login_runs _ _ _ _ Hs Hf Hr) as [Hok _].
  destruct (so_pool _ _ _ _ _ Hok _ _ Hth) as [_ Hh]. cbn in Hh. apply Hh; [done|reflexivity|apply (so_inv _ _ _ _ _ Hok)].
Qed.

(** ** What a token proves *)

(** The token of a code exchange, traced back: the client's Authorize [a], the
    request [q] it left, the consent of [principal], and the approval [r] it
    spent. *)
Definition exchanged (s : OAuthService) L w (request : OAuthTokenRequest) (token : OAuthToken) : Prop :=
  ∃ a q handle principal repositories scope r,
    L (LAuthorize a) ∧ requested s a q ∧
    tr_ClientID request = az_ClientID a ∧ tr_RedirectURI request = az_RedirectURI a ∧
    VerifyPKCES256 (tr_CodeVerifier request) (az_CodeChallenge a) = true ∧
    OAuth.os_byHandle (wd_oauth w) !! HashOAuthSecret handle = Some q ∧
    ar_CodeHash q = Some (HashOAuthSecret (tr_Code request)) ∧
    L (LApproveConsent handle principal repositories) ∧
    validDeviceApprovalPrincipal principal = true ∧ pr_Impersonating principal = false ∧
    ar_BoundOrgID q = pr_OrgID principal ∧ ar_BoundSubject q = pr_Subject principal ∧
    NormalizeOAuthScope (az_Scope a) = Some scope ∧
    wd_byDevice w !! ar_DeviceCodeHash q = Some r ∧ approved_by L w r ∧
    same_approval principal repositories (oauthApprovalScopes scope) (grant_of r) ∧
    issued_under (grant_of r) (az_ClientID a) (ar_Resource q) (strings_Fields scope) (ic_Credential (ot_Issued token)).

(** The token of a device code: the client's start [d] and the approval [r]. *)
Definition device_exchanged (s : OAuthService) L w (request : OAuthDeviceTokenRequest) (token : OAuthToken) : Prop :=
  ∃ code d g r scope, NormalizeDeviceCode (dt_DeviceCode request) = Some code ∧
    L (LStartDeviceGrant d) ∧ granted s d g ∧ dt_ClientID request = dr_ClientID d ∧
    OAuth.os_deviceGrants (wd_oauth w) !! HashDeviceCode code = Some g ∧
    NormalizeOAuthScope (dr_Scope d) = Some scope ∧
    wd_byDevice w !! HashDeviceCode code = Some r ∧ approved_by L w r ∧
    issued_under (grant_of r) (dr_ClientID d) (og_Resource g) (strings_Fields scope) (ic_Credential (ot_Issued token)).

(** The token of a poll without OAuth. *)
Definition polled L w w0 (deviceCode : string) (issued : IssuedCredential) : Prop :=
  ∃ code r, NormalizeDeviceCode deviceCode = Some code ∧
    OAuth.os_deviceGrants (wd_oauth w0) !! HashDeviceCode code = None ∧
    wd_byDevice w !! HashDeviceCode code = Some r ∧ approved_by L w r ∧
    issued_under (grant_of r) "" "" [ScopeContextRead; ScopeEvidenceRead] (ic_Credential issued).

Lemma exchange_proves s L w request token :
  login_inv s L w → exchange_claim request token w → exchanged s L w request token.
Proof.
  intros Hi (h & q & scope & Hq & Hcode & Hcl & Hre & Hv & Hsc & (r & Hr & Hst & Hiss) & _).
  destruct (li_requests _ _ _ Hi _ _ Hq) as (a & Ha & Hreq).
  destruct (li_codes _ _ _ Hi _ _ Hq) as (handle & p & asked & scope' & ? & -> & ? & ? & ? & ? & Hsc' & (r' & Hr' & _ & Hsame)).
  { by rewrite Hcode. }
  assert (r' = r) as -> by congruence. pose proof Hreq as [Hrc Hrr Hrch Hrs _ _].
  rewrite (normalized_again _ _ Hrs) in Hsc, Hsc'. simplify_eq.
  exists a, q, handle, p, asked, (ar_Scope q), r. rewrite <-Hrc, <-Hrr, <-Hrch.
  split_and!; try done. eapply li_approvals; [done|exact Hr|]. by right.
Qed.

Lemma device_proves s L w request token :
  login_inv s L w → device_claim request token w → device_exchanged s L w request token.
Proof.
  intros Hi (code & g & scope & Hcode & Hg & Hcl & Hsc & (r & Hr & Hst & Hiss) & _).
  destruct (li_grants _ _ _ Hi _ _ Hg) as (d & Hd & Hgr). pose proof Hgr as [Hgc Hgs _].
  rewrite (normalized_again _ _ Hgs) in Hsc. simplify_eq.
  exists code, d, g, r, (og_Scope g). rewrite <-Hgc. split_and!; try done.
  eapply li_approvals; [done|exact Hr|]. by right.
Qed.

Lemma poll_proves s L w w0 deviceCode issued :
  login_inv s L w → poll_claim w0 deviceCode issued w → polled L w w0 deviceCode issued.
Proof.
  intros Hi (code & Hcode & Hnone & (r & Hr & Hst & Hiss) & _). exists code, r. split_and!; try done.
  eapply li_approvals; [done|exact Hr|]. by right.
Qed.

Lemma spent_once w d c c' : spent d w c → spent d w c' → cc_CredentialID c = cc_CredentialID c'.
Proof. intros (r & Hr & _ & _ & <-) (r' & Hr' & _ & _ & <-). by simplify_eq. Qed.

Lemma code_once s L w h h' q q' code :
  login_inv s L w → OAuth.os_byHandle (wd_oauth w) !! h = Some q → OAuth.os_byHandle (wd_oauth w) !! h' = Some q' →
  ar_CodeHash q = Some code → ar_CodeHash q' = Some code → q = q'.
Proof.
  intros Hi Hq Hq' Hc Hc'. pose proof (oo_code _ (wo_oauth _ (li_ok _ _ _ Hi))) as Hcode.
  assert (OAuth.os_byCode (wd_oauth w) !! code = Some h) as E1 by (apply Hcode; eauto).
  assert (OAuth.os_byCode (wd_oauth w) !! code = Some h') as E2 by (apply Hcode; eauto).
  congruence.
Qed.

(** *** Properties *)

(** The stores of a login server stay consistent with what was asked of
    it.  Whatever requests arrive, in whatever order their store calls
    interleave with each other and with the rest of the program, whichever of
    them fail or are abandoned: every approved device authorization is backed
    by an approval that a person who was not impersonated asked for, within
    what that person may read; every authorization request by a client's
    Authorize; every authorization code by that consent's approval; every
    device grant by a client's start; and no record is ever lost, no approval
    ever changed. *)
Theorem login_stores_consistent cfg s w0 c :
  NewOAuthService cfg = Ok s → fresh_world w0 → login_reachable s w0 c →
  login_inv s (asked c) (sy_world c) ∧ evolve w0 (sy_world c).
Proof.
  intros Hs Hf Hr. destruct (login_runs _ _ _ _ Hs Hf Hr) as [Hok Hev]. split; [|done]. apply (so_inv _ _ _ _ _ Hok).
Qed.

(** C4: a token for an authorization code needs the client, the person and the
    verifier.  When a code exchange answers a token, a client asked Authorize
    for exactly this client id and redirect URI, with a challenge that the
    presented verifier answers; a person who was not impersonated approved that
    request's consent; and the token's credential belongs to this person's
    organization and subject, names the client and a resource the server serves
    it, is confined to repositories the approving person may read, and carries
    only scopes that the client asked for and the person approved. *)
Theorem token_needs_consent cfg s w0 c i w1 sv request kind token :
  NewOAuthService cfg = Ok s → fresh_world w0 → login_reachable s w0 c →
  sy_pool c !! i = Some (Thread (LExchange sv request) w1 (Return (Ok (AToken (kind, inr token))))) →
  exchanged s (asked c) (sy_world c) request token.
Proof.
  intros Hs Hf Hr Hth. destruct (login_runs _ _ _ _ Hs Hf Hr) as [Hok _].
  eapply exchange_proves; [apply (so_inv _ _ _ _ _ Hok)|]. by eapply login_answers in Hth.
Qed.

(** One code, one credential.  Two exchanges of the same authorization
    code, or of the same device code, however they race, never answer tokens of
    two credentials. *)
Theorem one_credential_per_code cfg s w0 c :
  NewOAuthService cfg = Ok s → fresh_world w0 → login_reachable s w0 c →
  (∀ i j w1 w2 sv1 sv2 r1 r2 k1 k2 t1 t2,
     sy_pool c !! i = Some (Thread (LExchange sv1 r1) w1 (Return (Ok (AToken (k1, inr t1))))) →
     sy_pool c !! j = Some (Thread (LExchange sv2 r2) w2 (Return (Ok (AToken (k2, inr t2))))) →
     tr_Code r1 = tr_Code r2 →
     cc_CredentialID (ic_Credential (ot_Issued t1)) = cc_CredentialID (ic_Credential (ot_Issued t2))) ∧
  (∀ i j w1 w2 sv1 sv2 r1 r2 k1 k2 t1 t2,
     sy_pool c !! i = Some (Thread (LExchangeDeviceCode sv1 r1) w1 (Return (Ok (AToken (k1, inr t1))))) →
     sy_pool c !! j = Some (Thread (LExchangeDeviceCode sv2 r2) w2 (Return (Ok (AToken (k2, inr t2))))) →
     dt_DeviceCode r1 = dt_DeviceCode r2 →
     cc_CredentialID (ic_Credential (ot_Issued t1)) = cc_CredentialID (ic_Credential (ot_Issued t2))).
Proof.
  intros Hs Hf Hr. destruct (login_runs _ _ _ _ Hs Hf Hr) as [Hok _]. pose proof (so_inv _ _ _ _ _ Hok) as Hi.
  split; intros i j w1 w2 sv1 sv2 r1 r2 k1 k2 t1 t2 Ht1 Ht2 Hcode;
    apply (login_answers _ _ _ _ _ _ _ _ Hs Hf Hr) in Ht1, Ht2; cbn in Ht1, Ht2.
  - destruct Ht1 as (h1 & q1 & s1 & Hq1 & Hc1 & _ & _ & _ & _ & _ & Hs1), Ht2 as (h2 & q2 & s2 & Hq2 & Hc2 & _ & _ & _ & _ & _ & Hs2).
    rewrite Hcode in Hc1. rewrite (code_once _ _ _ _ _ _ _ _ Hi Hq1 Hq2 Hc1 Hc2) in Hs1. eapply spent_once; eauto.
  - destruct Ht1 as (c1 & g1 & s1 & Hc1 & _ & _ & _ & _ & Hs1), Ht2 as (c2 & g2 & s2 & Hc2 & _ & _ & _ & _ & Hs2).
    rewrite Hcode in Hc1. assert (c1 = c2) as -> by congruence. eapply spent_once; eauto.
Qed.

(** C5: a token for a device code needs an approval.  A token answered for a
    device code of OAuth names the client that started the grant, a resource
    and scopes it asked for, and was issued under an approval by a person who
    was not impersonated, within what this person may read.  A poll without
    OAuth answers a token only under such an approval too, and only for a code
    that no OAuth client had a grant for when the poll began. *)
Theorem device_token_needs_approval cfg s w0 c i w1 sv :
  NewOAuthService cfg = Ok s → fresh_world w0 → login_reachable s w0 c →
  (∀ request kind token,
     sy_pool c !! i = Some (Thread (LExchangeDeviceCode sv request) w1 (Return (Ok (AToken (kind, inr token))))) →
     device_exchanged s (asked c) (sy_world c) request token) ∧
  (∀ deviceCode issued,
     sy_pool c !! i = Some (Thread (LPoll sv deviceCode) w1 (Return (Ok (AIssued issued)))) →
     polled (asked c) (sy_world c) w1 deviceCode issued).
Proof.
  intros Hs Hf Hr. destruct (login_runs _ _ _ _ Hs Hf Hr) as [Hok _]. pose proof (so_inv _ _ _ _ _ Hok) as Hi.
  split; [intros request kind token Hth|intros deviceCode issued Hth].
  - eapply device_proves; [done|]. by eapply login_answers in Hth.
  - eapply poll_proves; [done|]. by eapply login_answers in Hth.
Qed.
End theorems.
