(* ===== verification/LoginCodes.v ===== *)
(** * LoginCodes: the codes of a device login

    device_flow_codes.go: the codes [Start] draws are accepted by the checks that
    the device and the person's browser meet, in capitals or in small letters,
    and different random bytes give different codes. *)

From Stdlib Require Import ZArith Lia Ascii.
From stdpp Require Import sorting pretty numbers gmap strings list_numbers list.
From S2P Require Import Prelude GoStrings RepoSlug CredTypes Validation Tokens Requests LoginWorld DeviceFlow.

Open Scope Z_scope.

(** ** The device code *)

Lemma decode_encode_lenient src :
  byte_list src → RawURLEncoding_DecodeString (RawURLEncoding_EncodeToString src) = Some src.
Proof.
  intros Hb. pose proof (encode_alphabet _ Hb) as Ha%all_chars_Forall. revert Ha.
  unfold RawURLEncoding_DecodeString, base64_decode, RawURLEncoding_EncodeToString. rewrite chars_of_chars.
  intros Ha. rewrite url_char_kept by done. pose proof (groups_digits _ Hb) as Hd.
  rewrite all_some_map; [by apply groups_quanta|]. intros d Hin. rewrite Forall_forall in Hd.
  by apply url_value_digit, Hd.
Qed.

Lemma url_text_trim src :
  byte_list src → strings_TrimSpace (RawURLEncoding_EncodeToString src) = RawURLEncoding_EncodeToString src.
Proof.
  intros Hb. apply plain_TrimSpace, all_chars_Forall. pose proof (encode_alphabet _ Hb) as Ha%all_chars_Forall.
  eapply Forall_impl; [exact Ha|]. intros c. apply (class_forall url_char plain). by vm_compute.
Qed.

Lemma device_code_accepted src :
  byte_list src → length src = deviceCodeBytes →
  NormalizeDeviceCode (RawURLEncoding_EncodeToString src) = Some (RawURLEncoding_EncodeToString src).
Proof.
  intros Hb Hl. unfold NormalizeDeviceCode. rewrite url_text_trim, decode_encode_lenient by done.
  by rewrite !bool_decide_true.
Qed.

(** ** The user code *)

Definition user_char (c : ascii) : bool := bool_decide (c ∈ chars DeviceUserCodeAlphabet).

Definition digits32 : list Z → Prop := Forall (λ d, 0 ≤ d < 32).

Lemma pick_user d : 0 ≤ d < 32 → user_char (pick DeviceUserCodeAlphabet d) = true.
Proof.
  intros Hd. assert (d = Z.of_nat (Z.to_nat d)) as -> by lia.
  assert (Z.to_nat d < 32)%nat as Hn by lia. revert Hn. generalize (Z.to_nat d). intros n Hn.
  do 32 (destruct n as [|n]; [by vm_compute|]). lia.
Qed.

Lemma pick_inj d d' : 0 ≤ d < 32 → 0 ≤ d' < 32 →
  pick DeviceUserCodeAlphabet d = pick DeviceUserCodeAlphabet d' → d = d'.
Proof.
  intros Hd Hd' He. unfold pick in He.
  assert (∀ x, 0 ≤ x < 32 → is_Some (chars DeviceUserCodeAlphabet !! Z.to_nat x)) as Hin.
  { intros x Hx. apply lookup_lt_is_Some_2. change (length (chars DeviceUserCodeAlphabet)) with 32%nat. lia. }
  destruct (Hin d Hd) as [c Hc], (Hin d' Hd') as [c' Hc']. rewrite Hc, Hc' in He. cbn in He. subst c'.
  assert (NoDup (chars DeviceUserCodeAlphabet)) as Hnd by (apply (bool_decide_unpack _); by vm_compute).
  pose proof (NoDup_lookup _ _ _ _ Hnd Hc Hc'). lia.
Qed.

Definition upper_byte (c : ascii) : ascii := if between 97 122 c then chr (code c - 32) else c.

Lemma ToUpper_ascii `{UpperTables} s :
  Forall (λ c, code c < 128) (chars s) → strings_ToUpper s = of_chars (upper_byte <$> chars s).
Proof.
  intros Hs. unfold strings_ToUpper. rewrite runes_ascii by done. unfold of_bytes. f_equal. unfold bytes_of.
  induction Hs as [|c l Hc _ IH]; [done|]. rewrite !fmap_cons. cbn [concat]. rewrite fmap_app, IH. f_equal.
  revert c Hc. intros c Hc. apply Z.ltb_lt in Hc.
  unfold unicode_ToUpper. rewrite Hc. unfold upper_byte, between.
  assert (encode_rune (if (97 <=? code c) && (code c <=? 122) then code c - 32 else code c)
    = [if (97 <=? code c) && (code c <=? 122) then code c - 32 else code c]) as ->.
  { pose proof (code_range c). apply Z.ltb_lt in Hc. unfold encode_rune.
    destruct ((97 <=? code c) && (code c <=? 122)) eqn:E;
      [apply andb_true_iff in E as [?%Z.leb_le ?%Z.leb_le]|];
      by rewrite (proj2 (Z.leb_le 0 _)), (proj2 (Z.ltb_lt _ 128)) by lia. }
  cbn. destruct (_ && _); [done|]. by rewrite chr_code.
Qed.

Lemma user_char_rune c : user_char c = true → bool_decide (code c ∈ runes DeviceUserCodeAlphabet) = true.
Proof.
  intros Hc. pose proof (class_forall user_char (λ c, bool_decide (code c ∈ runes DeviceUserCodeAlphabet))) as H.
  apply H; [by vm_compute|done].
Qed.

Lemma user_char_ascii c : user_char c = true → code c < 128.
Proof.
  intros Hc. apply Z.ltb_lt. pose proof (class_forall user_char (λ c, code c <? 128)) as H. apply H; [by vm_compute|done].
Qed.

Lemma user_code_accepted `{UpperTables} uc l :
  Forall (λ c, user_char c = true) (chars uc) → length (chars uc) = 8%nat →
  (l = chars uc ∨ l = RepoSlug.lower_byte <$> chars uc) →
  normalizeUserCode (of_chars l) = Some uc.
Proof.
  intros Hc Hl Htyped.
  assert (Forall (λ c, plain c && bool_decide (upper_byte c = c) = true) (chars uc)) as Hp.
  { eapply Forall_impl; [exact Hc|]. intros c.
    exact (class_forall user_char (λ c, plain c && bool_decide (upper_byte c = c)) ltac:(by vm_compute) c). }
  assert (Forall (λ c, plain (RepoSlug.lower_byte c) && bool_decide (upper_byte (RepoSlug.lower_byte c) = c) = true) (chars uc)) as Hp'.
  { eapply Forall_impl; [exact Hc|]. intros c.
    exact (class_forall user_char
      (λ c, plain (RepoSlug.lower_byte c) && bool_decide (upper_byte (RepoSlug.lower_byte c) = c)) ltac:(by vm_compute) c). }
  assert (all_chars plain (of_chars l) = true ∧ upper_byte <$> l = chars uc) as [Hplain Hup].
  { rewrite all_chars_Forall, chars_of_chars. destruct Htyped as [-> | ->]; split.
    - eapply Forall_impl; [exact Hp|]. by intros c [? _]%andb_true_iff.
    - clear -Hp. induction Hp as [|c m [_ He%bool_decide_eq_true]%andb_true_iff _ IH]; [done|]. cbn. by rewrite He, IH.
    - apply Forall_fmap. eapply Forall_impl; [exact Hp'|]. by intros c [? _]%andb_true_iff.
    - clear -Hp'. induction Hp' as [|c m [_ He%bool_decide_eq_true]%andb_true_iff _ IH]; [done|]. cbn. cbn in He. by rewrite He, IH. }
  unfold normalizeUserCode. rewrite plain_TrimSpace by done.
  rewrite ToUpper_ascii by (pose proof (plain_ascii _ Hplain) as Ha; exact Ha).
  rewrite chars_of_chars, Hup, of_chars_chars, slen_chars, Hl. cbn [negb].
  change (Z.of_nat 8 =? DeviceUserCodeLength) with true. cbn [negb].
  assert (forallb (λ r, bool_decide (r ∈ runes DeviceUserCodeAlphabet)) (runes uc) = true) as ->; [|reflexivity].
  rewrite (runes_ascii uc).
  - apply forallb_Forall. unfold bytes_of. apply Forall_fmap. eapply Forall_impl; [exact Hc|]. intros c Huc.
    exact (user_char_rune c Huc).
  - eapply Forall_impl; [exact Hc|]. intros c. apply user_char_ascii.
Qed.

(** ** The digits of five bytes *)

Definition bit_list : list Z → Prop := Forall (λ b, 0 ≤ b < 2).

Ltac split_bits :=
  unfold bit_list in *; repeat match goal with H : Forall _ (_ :: _) |- _ => apply Forall_cons in H as [??] end.

Lemma digits_range bits : bit_list bits → digits32 (base32_digits bits).
Proof.
  revert bits. fix IH 1. intros [|a [|b [|c [|d [|e l]]]]] Hb; cbn [base32_digits]; split_bits;
    repeat (apply Forall_cons; split; [lia|]); [apply Forall_nil_2..|by apply IH].
Qed.

Lemma digits_inj bits bits' :
  bit_list bits → bit_list bits' → length bits = length bits' → base32_digits bits = base32_digits bits' → bits = bits'.
Proof.
  revert bits bits'. fix IH 1. intros [|a [|b [|c [|d [|e l]]]]] [|a' [|b' [|c' [|d' [|e' l']]]]] Hb Hb' Hl Hd;
    cbn in Hl; try done; cbn [base32_digits] in Hd; split_bits; simplify_eq Hd; intros.
  1-4: repeat f_equal; lia.
  rewrite (IH l l') by (done || congruence). repeat f_equal; lia.
Qed.

Lemma be_bits_inj k x y : 0 ≤ x < 2 ^ Z.of_nat k → 0 ≤ y < 2 ^ Z.of_nat k → be_bits k x = be_bits k y → x = y.
Proof.
  assert (∀ z, z mod 2 ^ Z.of_nat (S k) = 2 ^ Z.of_nat k * ((z / 2 ^ Z.of_nat k) mod 2) + z mod 2 ^ Z.of_nat k) as _.
  { intros z. rewrite Nat2Z.inj_succ, Z.pow_succ_r by lia. rewrite Z.mul_comm.
    rewrite Z.rem_mul_r by lia. lia. }
  assert (∀ k x y, be_bits k x = be_bits k y → x mod 2 ^ Z.of_nat k = y mod 2 ^ Z.of_nat k) as Hmod.
  { clear. induction k as [|k IH]; intros x y He; [by rewrite !Z.mod_1_r|].
    cbn in He. injection He as Hb Hr. apply IH in Hr.
    rewrite Nat2Z.inj_succ, Z.pow_succ_r, (Z.mul_comm 2) by lia. rewrite !Z.rem_mul_r by lia. congruence. }
  intros Hx Hy He%Hmod. by rewrite !Z.mod_small in He.
Qed.

Lemma bytes_bits_inj src src' :
  byte_list src → byte_list src' → concat (be_bits 8 <$> src) = concat (be_bits 8 <$> src') → src = src'.
Proof.
  intros Hb. revert src'. induction Hb as [|b l Hb _ IH]; intros [|b' l'] Hb' He; try done.
  apply Forall_cons in Hb' as [Hb' Hl']. rewrite !fmap_cons in He. cbn [concat] in He.
  apply app_inj_1 in He as [He Hr]; [|by rewrite !be_bits_length].
  apply be_bits_inj in He; [|done..]. subst b'. f_equal. by apply IH.
Qed.

Lemma user_digits src :
  bit_list (concat (be_bits 8 <$> src)) ∧ digits32 (base32_digits (concat (be_bits 8 <$> src))).
Proof.
  assert (bit_list (concat (be_bits 8 <$> src))) as Hb.
  { apply Forall_concat, Forall_fmap, Forall_forall. intros b _. apply be_bits_range. }
  split; [done|by apply digits_range].
Qed.

(** C36: the codes of a device login read back.  The device code made of any 32
    random bytes is accepted by the poll as it is, and the user code made of any
    five is accepted from the person as it is or in small letters and stands for
    the same code; it has eight letters; and different random bytes never give
    the same code. *)
Theorem issued_codes_read_back `{UpperTables} (device user : list Z) :
  byte_list device → length device = deviceCodeBytes → byte_list user → length user = userCodeRandomBytes →
  let code := userCodeEncoding_EncodeToString user in
  NormalizeDeviceCode (RawURLEncoding_EncodeToString device) = Some (RawURLEncoding_EncodeToString device) ∧
  normalizeUserCode code = Some code ∧
  normalizeUserCode (of_chars (RepoSlug.lower_byte <$> chars code)) = Some code ∧
  slen code = DeviceUserCodeLength ∧
  (∀ other, byte_list other → RawURLEncoding_EncodeToString other = RawURLEncoding_EncodeToString device → other = device) ∧
  (∀ other, byte_list other → length other = userCodeRandomBytes →
     userCodeEncoding_EncodeToString other = code → other = user).
Proof.
  intros Hd Hdl Hu Hul code. destruct (user_digits user) as [Hbits Hdig].
  assert (chars code = pick DeviceUserCodeAlphabet <$> base32_digits (concat (be_bits 8 <$> user))) as Hchars
    by apply chars_of_chars.
  assert (Forall (λ c, user_char c = true) (chars code)) as Hc.
  { rewrite Hchars. apply Forall_fmap. eapply Forall_impl; [exact Hdig|]. intros x. apply pick_user. }
  assert (length (chars code) = 8%nat) as Hl.
  { rewrite Hchars, length_fmap. destruct user as [|a [|b [|c [|d [|e [|]]]]]]; done. }
  split_and!.
  - by apply device_code_accepted.
  - rewrite <-(of_chars_chars code) at 1. apply user_code_accepted; [done..|by left].
  - apply user_code_accepted; [done..|by right].
  - by rewrite slen_chars, Hl.
  - intros other Ho He. apply (f_equal RawURLEncoding_DecodeString) in He.
    rewrite !decode_encode_lenient in He by done. congruence.
  - intros other Ho Hol He. apply (f_equal chars) in He. rewrite Hchars in He.
    unfold userCodeEncoding_EncodeToString in He. rewrite chars_of_chars in He.
    destruct (user_digits other) as [Hobits Hodig].
    apply bytes_bits_inj; [done..|]. apply digits_inj; [done..| |].
    + rewrite !(concat_length_const _ 8) by apply be_bits_length. congruence.
    + revert He Hodig Hdig. generalize (base32_digits (concat (be_bits 8 <$> other))) (base32_digits (concat (be_bits 8 <$> user))).
      intros m. induction m as [|x m IH]; intros [|y m'] He Hm Hm'; try done. cbn in He. injection He as Hxy He.
      apply Forall_cons in Hm as [? ?], Hm' as [? ?]. f_equal; [by apply pick_inj|by apply IH].
Qed.
