(* ===== verification/LoginRuns.v ===== *)
(** * LoginRuns: a concrete history of the login server

    A client registers, sends its user to the consent page, the user approves,
    the client exchanges the code; then the client starts a device login, the
    user types the code, and the device collects its token.  The theorems of
    LoginTheorems and LoginCodes are applied at these states. *)

From Stdlib Require Import ZArith Lia Ascii.
From stdpp Require Import sorting pretty numbers gmap strings list_numbers list relations.
From S2P Require Import Prelude GoStrings RepoSlug CredTypes Validation Tokens Grants Outbox AuditStore CredentialStore CredentialStoreProofs CredentialTheorems Lifecycle AuthService MCPHop DeviceAuth DeviceTheorems OAuth OAuthTheorems BrowserRefresh Requests LoginWorld DeviceFlow RefreshGrant OAuthService LoginSteps LoginCalls LoginInvariant LoginConsent LoginTokens LoginTheorems LoginCodes.

Open Scope Z_scope.

#[local] Existing Instance no_uuid.
#[local] Existing Instance sample_tables.
#[local] Instance plain_upper : UpperTables := {| unicode_upper_table := λ r, r |}.
#[local] Instance no_fold : FoldTables := {| unicode_fold_table := λ r, r |}.

Definition server_config : OAuthConfig :=
  Config "https://acr.example.com" ["https://acr.example.com/mcp"] false [] [] false.
Definition server : OAuthService :=
  MkOAuthService "https://acr.example.com" ["https://acr.example.com/mcp"] false [] None "" false.

Lemma server_configured : NewOAuthService server_config = Ok server.
Proof. vm_compute. reflexivity. Qed.

(** The [n]th read of random bytes yields the byte [n+1] all over. *)
Definition draws (n : nat) (q : question) : reply q :=
  match q with
  | AskRandom k => Some (replicate k ((Z.of_nat n + 1) mod 256))
  | AskMetadata _ => inl None
  end.

Lemma draws_legal n q : legal q (draws n q).
Proof.
  destruct q as [k|id]; [|done]. intros l [= <-]. split; [apply length_replicate|].
  apply Forall_replicate. apply Z.mod_pos_bound. lia.
Qed.

(** ** One request after another *)

Lemma exec_steps (s : OAuthService) n (p : request (World credentialStore) reply login_answer) e w r e' w' i op w0 pool :
  exec draws n p (e, w) = (r, (e', w')) →
  rtc (system_step (start s) legal elsewhere)
    (System w (<[i := Thread op w0 p]> pool)) (System w' (<[i := Thread op w0 (Return r)]> pool)).
Proof.
  revert n e w. induction p as [r0|B m k IH|q k IH]; intros n e w He; cbn [exec] in He.
  - injection He as -> -> ->. reflexivity.
  - destruct (m (e, w)) as [b [e1 w1]] eqn:Em. apply IH in He. eapply rtc_l; [|exact He].
    rewrite <-(insert_insert_eq pool i (Thread op w0 (k b)) (Thread op w0 (Call m k))).
    eapply step_call; [apply lookup_insert_eq|exact Em].
  - apply IH in He. eapply rtc_l; [|exact He].
    rewrite <-(insert_insert_eq pool i (Thread op w0 (k (draws n q))) (Thread op w0 (Ask q k))).
    eapply step_reply; [apply lookup_insert_eq|apply draws_legal].
Qed.

(** The server answers the request [op] while no other one is running. *)
Lemma answered_alone s w0 w pool i op n e r e' w' :
  login_reachable s w0 (System w pool) → pool !! i = None →
  exec draws n (start s op) (e, w) = (r, (e', w')) →
  login_reachable s w0 (System w' (<[i := Thread op w (Return r)]> pool)).
Proof.
  intros Hr Hi He. unfold login_reachable in *. etrans; [exact Hr|]. eapply rtc_l; [by apply step_asked|]. by eapply exec_steps.
Qed.

Definition at_s (n : Z) : env := Env [] [n * Second].
Definition world : Type := World credentialStore.
Definition outcome : Type := res login_answer * (env * world).
Definition serve (n : nat) (t : Z) (op : login_op) (w : world) : outcome := exec draws n (start server op) (at_s t, w).

Definition world_0 : world := MkWorld initial ∅ ∅ OAuth.NewOAuthStore ∅ ∅.

Lemma world_0_fresh : fresh_world world_0.
Proof.
  split; [|done..]. split.
  - split; [apply initial_ok|..]; cbn; intros ??; by rewrite lookup_empty.
  - apply oauth_ok_new.
Qed.

(** ** The authorization code *)

Definition ask_1 : login_op :=
  LRegister (RegistrationRequest "Claude" ["http://127.0.0.1/callback"] [] [] "none").
Definition done_1 : outcome := Eval vm_compute in serve 0 1000 ask_1 world_0.

Definition client_1 : string := Eval vm_compute in NewDynamicOAuthClientID (replicate 16 1).
Definition verifier : string := "abcdefghijklmnopqrstuvwxyzABCDEFGHIJKLMNOPQRSTUV".
Definition challenge : string := Eval vm_compute in RawURLEncoding_EncodeToString (Sha256.sha256_Sum256 (bytes_of verifier)).
Definition ask_2 : login_op :=
  LAuthorize (AuthorizeRequest "code" client_1 "http://127.0.0.1:8400/callback" challenge "S256" "" "" "st").
Definition done_2 : outcome := Eval vm_compute in serve 10 1010 ask_2 done_1.2.2.

Definition handle_2 : string := Eval vm_compute in match done_2.1 with Ok (AAuthorization a) => au_Handle a | _ => "" end.
Definition user : Principal :=
  MkPrincipal "web_assertion" "user-1" "org-1" "" ["*"] ["credential:issue"] [] "" "" "sid-1" false "" [].
Definition ask_3 : login_op := LApproveConsent handle_2 user ["acme/web"].
Definition done_3 : outcome := Eval vm_compute in serve 20 1020 ask_3 done_2.2.2.

Definition code_3 : string := Eval vm_compute in match done_3.1 with Ok (ARedirect (_, inr r)) => rd_Value r | _ => "" end.
Definition issuer (b : Z) (id : string) : Service :=
  NewService (Ok (TokenPrefix +:+ RawURLEncoding_EncodeToString (replicate 32 b))) (Ok id) 0.
Definition exchange_4 : OAuthTokenRequest :=
  TokenRequest "authorization_code" code_3 "http://127.0.0.1:8400/callback" client_1 verifier "".
Definition ask_4 : login_op := LExchange (issuer 9 "cred-1") exchange_4.
Definition done_4 : outcome := Eval vm_compute in serve 30 1030 ask_4 done_3.2.2.

(** ** The device code *)

Definition ask_5 : login_op := LStartDeviceGrant (DeviceAuthorizationRequest client_1 "data:read context:read" "").
Definition done_5 : outcome := Eval vm_compute in serve 40 1040 ask_5 done_4.2.2.

Definition codes_5 : string * string :=
  Eval vm_compute in match done_5.1 with Ok (ADeviceGrant (_, inr st)) => (st_UserCode st, st_DeviceCode st) | _ => ("", "") end.
Definition ask_6 : login_op := LApprove user codes_5.1 ["acme/api"].
Definition done_6 : outcome := Eval vm_compute in serve 50 1050 ask_6 done_5.2.2.

Definition exchange_7 : OAuthDeviceTokenRequest := DeviceTokenRequest OAuthDeviceCodeGrantType codes_5.2 client_1.
Definition ask_7 : login_op := LExchangeDeviceCode (issuer 10 "cred-2") exchange_7.
Definition done_7 : outcome := Eval vm_compute in serve 60 1060 ask_7 done_6.2.2.

(** The one token of an exchange that succeeded. *)
Definition token_answered (r : res login_answer) (token : OAuthToken) : Prop :=
  ∃ kind, r = Ok (AToken (kind, inr token)).

(** ** The system after each request *)

Definition add (i : nat) (op : login_op) (o : outcome) (c : @login_system credentialStore) : @login_system credentialStore :=
  System o.2.2 (<[i := Thread op (sy_world c) (Return o.1)]> (sy_pool c)).

Definition system_0 : @login_system credentialStore := System world_0 ∅.
Definition system_1 := add 1 ask_1 done_1 system_0.
Definition system_2 := add 2 ask_2 done_2 system_1.
Definition system_3 := add 3 ask_3 done_3 system_2.
Definition system_4 := add 4 ask_4 done_4 system_3.
Definition system_5 := add 5 ask_5 done_5 system_4.
Definition system_6 := add 6 ask_6 done_6 system_5.
Definition system_7 := add 7 ask_7 done_7 system_6.

Lemma add_reachable i op n t o c :
  login_reachable server world_0 c → serve n t op (sy_world c) = o → sy_pool c !! i = None →
  login_reachable server world_0 (add i op o c).
Proof.
  intros Hr Ho Hi. destruct c as [w pool], o as [r [e w']]. eapply answered_alone; [exact Hr|exact Hi|exact Ho].
Qed.

Lemma served_1 : serve 0 1000 ask_1 world_0 = done_1. Proof. vm_compute. reflexivity. Qed.
Lemma served_2 : serve 10 1010 ask_2 done_1.2.2 = done_2. Proof. vm_compute. reflexivity. Qed.
Lemma served_3 : serve 20 1020 ask_3 done_2.2.2 = done_3. Proof. vm_compute. reflexivity. Qed.
Lemma served_4 : serve 30 1030 ask_4 done_3.2.2 = done_4. Proof. vm_compute. reflexivity. Qed.
Lemma served_5 : serve 40 1040 ask_5 done_4.2.2 = done_5. Proof. vm_compute. reflexivity. Qed.
Lemma served_6 : serve 50 1050 ask_6 done_5.2.2 = done_6. Proof. vm_compute. reflexivity. Qed.
Lemma served_7 : serve 60 1060 ask_7 done_6.2.2 = done_7. Proof. vm_compute. reflexivity. Qed.

Ltac added lemma := eapply add_reachable; [|exact lemma|].
Ltac not_used := unfold system_6, system_5, system_4, system_3, system_2, system_1, add; cbn [sy_pool];
  repeat (rewrite lookup_insert_ne by done); apply lookup_empty.

Lemma reached_code : login_reachable server world_0 system_4.
Proof.
  added served_4; [added served_3; [added served_2; [added served_1; [apply rtc_refl|]|]|]|]; not_used.
Qed.

Lemma reached_device : login_reachable server world_0 system_7.
Proof.
  added served_7; [added served_6; [added served_5; [apply reached_code|]|]|]; not_used.
Qed.

Lemma thread_4 : sy_pool system_7 !! 4%nat = Some (Thread ask_4 (sy_world system_3) (Return done_4.1)).
Proof. unfold system_7, system_6, system_5, add; cbn [sy_pool]. rewrite !lookup_insert_ne by done. apply lookup_insert_eq. Qed.

Lemma thread_7 : sy_pool system_7 !! 7%nat = Some (Thread ask_7 (sy_world system_6) (Return done_7.1)).
Proof. apply lookup_insert_eq. Qed.

Lemma token_4 : ∃ token, token_answered done_4.1 token.
Proof. eexists _, _. vm_compute. reflexivity. Qed.

Lemma token_7 : ∃ token, token_answered done_7.1 token.
Proof. eexists _, _. vm_compute. reflexivity. Qed.

(** ** The theorems here *)

Lemma login_stores_consistent_witness :
  login_inv server (asked system_7) (sy_world system_7) ∧ evolve world_0 (sy_world system_7).
Proof. exact (login_stores_consistent server_config server world_0 system_7 server_configured world_0_fresh reached_device). Defined.

Lemma token_needs_consent_witness :
  ∃ token, token_answered done_4.1 token ∧ exchanged server (asked system_7) (sy_world system_7) exchange_4 token.
Proof.
  destruct token_4 as [token [kind Ht]]. pose proof thread_4 as Hth. rewrite Ht in Hth.
  exists token. split; [by exists kind|].
  exact (token_needs_consent server_config server world_0 system_7 4 _ _ exchange_4 kind token
    server_configured world_0_fresh reached_device Hth).
Defined.

Lemma one_credential_per_code_witness :
  ∃ token, token_answered done_4.1 token ∧
    cc_CredentialID (ic_Credential (ot_Issued token)) = cc_CredentialID (ic_Credential (ot_Issued token)).
Proof.
  destruct token_4 as [token [kind Ht]]. pose proof thread_4 as Hth. rewrite Ht in Hth.
  exists token. split; [by exists kind|].
  exact (proj1 (one_credential_per_code server_config server world_0 system_7 server_configured world_0_fresh reached_device)
    4%nat 4%nat _ _ _ _ exchange_4 exchange_4 kind kind token token Hth Hth eq_refl).
Defined.

Lemma device_token_needs_approval_witness :
  ∃ token, token_answered done_7.1 token ∧ device_exchanged server (asked system_7) (sy_world system_7) exchange_7 token.
Proof.
  destruct token_7 as [token [kind Ht]]. pose proof thread_7 as Hth. rewrite Ht in Hth.
  exists token. split; [by exists kind|].
  exact (proj1 (device_token_needs_approval server_config server world_0 system_7 7 _ _
    server_configured world_0_fresh reached_device) exchange_7 kind token Hth).
Defined.

(** The codes of thirty-two and of five sample bytes: the user code is F25ZY244. *)
Definition device_bytes : list Z := replicate 32 41.
Definition user_bytes : list Z := [104; 7; 255; 0; 66].

Lemma issued_codes_read_back_witness :
  NormalizeDeviceCode (RawURLEncoding_EncodeToString device_bytes) = Some (RawURLEncoding_EncodeToString device_bytes) ∧
  normalizeUserCode "f25zy244" = Some "F25ZY244".
Proof.
  destruct (issued_codes_read_back device_bytes user_bytes) as (Hdevice & _ & Huser & _).
  - repeat constructor; lia.
  - reflexivity.
  - repeat constructor; lia.
  - reflexivity.
  - split; [exact Hdevice|exact Huser].
Defined.
